(* ===== verification/_CoqProject ===== *)
-Q . S2P
Prelude.v
External.v
Primitives.v
Serialization.v
Compact.v
Crypto.v
Chain.v
Vdf.v
Storage.v
Network.v
Work.v
Verification.v
Miner.v
VdfSound.v
Kv.v
KvRefine.v
BlockChainDb.v
DiskDb.v
ChainInv.v
ChainOps.v
HashQueue.v
HeadersChain.v
SyncChain.v
SyncOps.v
Locator.v
SyncQueues.v
Utf8.v
Message.v
MessageTypes.v
MessageIo.v
Handshake.v
BTree.v
NodeTable.v
Responses.v
Session.v
P2pContext.v
Wire.v
SpeedMeter.v
P2pRun.v
Collections.v
PeersTasks.v
OrphanPool.v
Peers.v
ClientCore.v
ClientChain.v
ClientInv.v
ClientRun.v
ClientSafe.v
Server.v
ServerSafe.v
Writer.v
Tree.v
Judge.v
WriterSafe.v
Node.v
NodeFrame.v
NodeSafe.v
Hex.v
Bytes.v
Rpc.v
RpcSafe.v
Config.v
Daemon.v
