(* ===== verification/Prelude.v ===== *)
(** * RandChain verification library

    A verification of the RandChain node: a block chain whose blocks are mined
    by evaluating a verifiable delay function.  The development models the
    consensus code, the storage stack, the wire protocol with its handshake and
    sessions, the tables of nodes and connections, the synchronization node
    (client, server, verification thread and connected peers together), the
    import of blocks, the RPC handlers and the daemon that starts them, and
    proves what makes them correct.
    [None] stands for a panic, [Err] for an error the program returns.

    ** The program and its models

    - [primitives], [serialization], [crypto]: hashes, compact targets, byte
      streams and codecs, digests.  Files [Primitives] (hash.rs), [Compact]
      (compact.rs), [Serialization] (stream.rs, reader.rs, impls.rs, list.rs,
      compact_integer.rs), [Crypto] (lib.rs).
    - [chain]: block headers, blocks and their indexed forms, with their
      encodings.  File [Chain].
    - [vdf]: evaluation, proof and verification of the delay function modulo the
      RSA-2048 number.  File [Vdf]; [VdfSound] says what becomes of a proof that
      was made honestly for a wrong output.
    - [storage], [network]: the interfaces the consensus code is written
      against, the header iterators, network parameters and genesis blocks.
      Files [Storage], [Network].
    - [verification]: proof of work, retargeting, median timestamps (file
      [Work]: work.rs, timestamp.rs) and the checks of blocks and headers with
      the choice between chain and fork (file [Verification]: verify_*.rs,
      accept_*.rs, chain_verifier.rs).
    - [miner]: block templates, the CPU miner and the mocking miner.  File
      [Miner].
    - [db]: transactions, the memory, overlay, auto-flushing and caching
      databases ([Kv], refined in [KvRefine]) and the block chain database on
      top ([BlockChainDb]), whose chain invariant is [ChainInv] and whose
      operations are specified in [ChainOps].  [DiskDb] is the database on disk
      (kv/diskdb.rs): the columns of RocksDB, opening, repair, raw reads and
      writes.
    - [sync]: queues of hashes ([HashQueue]: utils/hash_queue.rs), the best
      headers chain ([HeadersChain]: utils/best_headers_chain.rs) and the chain
      as synchronization sees it ([SyncChain]: synchronization_chain.rs), which
      composes the two with the block chain database; [SyncOps], [Locator] and
      [SyncQueues] say what its operations do.
      Around the chain: the tasks of peers ([PeersTasks]:
      synchronization_peers_tasks.rs, with the meter of
      utils/average_speed_meter.rs in [SpeedMeter]), blocks that came before
      their parents ([OrphanPool]: utils/orphan_blocks_pool.rs), the connected
      peers and what they know ([Peers]: synchronization_peers.rs,
      utils/known_hash_filter.rs, utils/connection_filter.rs), and the client
      that drives them ([ClientCore]: synchronization_client_core.rs and the
      management thread, synchronization_manager.rs).  [Collections] has the
      containers these use.  [ClientChain] states the chain's operations on an
      abstract state, [ClientInv] the invariant of the client, [ClientRun] that
      each handler keeps it, [ClientSafe] what holds of whole runs.
      Beside the client: the server with its queues and worker ([Server]:
      synchronization_server.rs, with [ServerSafe]), the chain verifier with its
      parameters and the import of blocks ([Writer]: synchronization_verifier.rs,
      blocks_writer.rs, with [WriterSafe]), and the node as a whole ([Node]:
      local_node.rs, inbound_connection.rs, inbound_connection_factory.rs,
      synchronization_client.rs, synchronization_executor.rs, and the verification
      thread), in which a message goes from its connection to the component that
      handles it.  [Tree] is the tree of blocks a store holds and how insertion
      lets it grow; [Judge] says on such a store when a block meets the rules of
      consensus and for which reasons verification panics.  [NodeFrame] says what each handler of the client leaves alone,
      [NodeSafe] what holds of runs of the node.
    - [message]: frames, checksums and the payloads ([Message],
      [MessageTypes]; strings go through [Utf8]).
    - [p2p]: reading messages and shaking hands ([MessageIo], [Handshake]: io/),
      the node table ([NodeTable]: util/node_table.rs, over the ordered sets of
      [BTree]), answers in the order of requests ([Responses]:
      util/synchronizer.rs, util/response_queue.rs, net/peer_context.rs),
      sessions and protocols ([Session]: session.rs, protocol/) and the context
      with its connections ([P2pContext]: p2p.rs, net/).  [P2pRun] has the
      futures that connect and accept under their deadline (net/connect.rs,
      net/accept_connection.rs, io/deadline.rs), the statistics of a peer
      (net/stats.rs) and what [P2P::run] starts.  [Wire] joins both ends of a
      connection: [OutboundSync] (protocol/sync.rs) and the loop that reads a
      channel (net/channel.rs, [Context::on_message]), with the thread pool that
      writes between them.
    - [rpc]: the handlers of the block chain, miner and network interfaces
      ([Rpc]: v1/impls/, v1/helpers/errors.rs, with [RpcSafe]) and hashes and
      bytes as text ([Hex]: v1/types/, primitives/src/hash.rs; [Bytes]:
      primitives/src/bytes.rs, v1/types/uint.rs).
    - [randchaind]: the configuration from the command line ([Config]:
      config.rs, rpc_apis.rs, seednodes.rs) and the daemon ([Daemon]: util.rs,
      commands/start.rs, rpc.rs): the genesis block of the database, the start
      of every part, block notifications and the loop of the miners.

    The verifier and the miner see the store through the records of [Storage];
    the block chain database runs over any key-value database that meets the
    class [KvSpec], which every database of [Kv] is shown to do; the database on
    disk shows the same for the transactions whose values are in the ranges of
    their types, and [DiskDb] carries that through the cached stack; the
    synchronization chain runs over the block chain database, and [store_of] of
    [Writer] is that database as the verifier sees it.  The RPC handlers are
    written against a class of operations with the database as its instance.

    ** Outside code

    [External] states, as classes with laws, what the program relies on of code
    that is not in the repository: 256-bit integers (bigint), big integers
    (rug), SHA-256, and the VRF key encoding.  Its module [Reference] gives
    concrete instances, which the witnesses use.  The LRU cache of the caching
    database is a class of [Kv] with an instance in [KvRefine].  Streams of tokio
    are a class of [MessageIo], the csv crate of [NodeTable], the linked hash map
    and the unspecified order in which a hash map is iterated are classes of
    [Collections]; hexadecimal encoding is a class of [Hex], the text of 256-bit
    integers one of [Bytes], the text of big integers and of socket addresses are
    classes of [Rpc].  RocksDB is a class of
    [DiskDb], whose laws are those of a directory that is in order.  The command
    line as clap hands it over, files and the HTTP server are arguments.  The
    clocks are functions of how often they were read.

    ** What the theorems show

    - Consensus: a block is accepted exactly when its VDF proof, work, bits and
      timestamp are right for the chain or fork it extends
      ([verify_block_accepts_iff]); retargeting scales and clamps, the test
      network's search for real bits ends, the median is the median; what the
      miner makes from a template is accepted ([mined_block_accepted]); honest
      delay proofs verify ([vdf_complete]); the block of a lucky mocking miner is
      accepted exactly when the 512th power of the number it drew is that of the
      true output ([mock_block_judged]); verification answers except for the
      reasons of [verification_panics], of which a build without overflow checks
      leaves two, a block that is stored already and a product of target and
      timespan beyond 256 bits ([verification_panics_exactly]).
    - Storage: each database layer refines the abstract map, the whole cached
      stack is transparent ([cached_stack_transparent]), and over RocksDB it
      answers before and after a restart what a database in memory would
      ([database_survives_restart]); every database reached
      from an empty one holds a linked chain, indexed both ways
      ([reachable_chain]); canonization, origins, forks and reorganization do
      exactly what they promise on every branch ([block_origin_exact],
      [fork_and_switch]).
    - Synchronization: the queues refine lists without repetitions, the headers
      chain a linked list, the in-memory operations three lists and a list of
      headers ([sync_queues_refine]); inserting a block extends the chain,
      reorganizes or stores a side block ([insert_best_block_exact]); the block
      locator is one walk over the whole chain ([block_locator_exact]).
      The tasks of peers follow one state per peer ([peers_tasks_refine]);
      orphans leave the pool with all descendants, parents first
      ([orphans_removed_exact]); filters remember the most recent blocks.
      The client composes all of these: started on a stored chain it handles any
      sequence of messages and verification results without a panic, loses no
      request and keeps its parts consistent ([client_run_safe]); what it hands
      to the verifier is new and comes after its parents
      ([block_handed_in_order]).
    - Node: whatever peers send, in whatever order the threads run, nothing in the
      node panics but, for a reason of [verification_panics], the verification
      thread; a block that counts as being verified is in the channel of that
      thread, and every peer its parts refer to had a session ([node_run_safe]; the
      events are admissible: hashes of headers do not collide, heights and session
      numbers stay in their types); as far as the run goes its store stays a tree
      of blocks with a longest branch as the chain, and every block it added was in
      its turn judged on the node's own store, at its clock, and met the rules of
      consensus ([node_stores_valid]); emptying the channel leaves every block
      stored or no longer asked for, none being verified, unless a round panics
      ([verification_ends]).  The server answers each peer in the order of its
      requests and starves none ([server_answers_in_order],
      [waiting_peer_served]); a client that sends its locator gets the headers
      after the last common block ([headers_from_locator]).  Import in any order
      stores what is connected and meets the rules on the stores it goes through,
      or panics in verification for a reason of [verification_panics]
      ([import_stores_connected]).  Over RPC the chain is the chain of the store
      ([rpc_shows_chain]).
    - Daemon: it refuses a database of another network, gives a fresh one its
      genesis block, also when it was stopped half-way, and starts a node on it
      ([daemon_starts]); then no messages of peers and no blocks of its own miners
      make it store a block that was not judged, or panic other than in
      verification or for a template whose work overflows, for the reasons named
      ([daemon_run_safe]).  Notifications run for the best blocks outside
      synchronization, in order ([notifications_exact]).
    - Network: messages round trip through frames and streams cut anywhere
      ([message_roundtrip]); what a node's synchronization component sends is what
      its peer's is called with, none lost and none doubled, in the order in which
      the thread pool writes it, provided that no message is written into another
      ([outbound_delivered]); two nodes that meet complete the handshake with the
      same version ([handshake_completes]), and refuse old versions and their own
      nonce; a connection is to the address, of the network and of the versions
      of its configuration ([connection_established]); the node table keeps its
      orders consistent with its map ([node_table_refines]) and survives saving;
      the sending of answers is started in the order of the requests
      ([responses_in_order]); a silent peer is closed; the counters of connections
      are exact, and with one server that listens the inbound maximum is kept
      ([connection_counters_exact]).
    - Encodings: every codec decodes what it encodes
      ([block_roundtrip], [compact_roundtrip]).
    - Behaviour that does not meet the intent: unverified iteration counts, odd
      iteration counts, the unreachable target of genesis, malleable header
      encodings, an overlay lost on a failed flush, a queue that is skipped,
      header numbers off by one, a verack that is never looked at, services
      required of the wrong peers, a repaired database without columns
      ([repaired_database_panics]), a target of the miners that wraps
      ([network_target_wraps]), options of the command line without effect, a
      product that overflows at a retarget of the easiest target
      ([easiest_target_overflows]), a node that does not recognise itself
      ([self_connection_established]), messages whose writes may alternate on one
      stream ([interleaved_writes_break]).

    ** Integers, fuel and bounds

    Unsigned integers are [Z] in range; [u32] addition and subtraction panic or
    wrap by the build profile ([Profile]), which is a parameter throughout.
    Lengths cast with [as u32] wrap.  Loops that are not structural carry fuel
    that the theorems show to be enough: the search for a fork point has the
    2048 rounds of the source; the proof loop of the delay function halves its
    count and has one round per iteration; the loops of the locator and of
    [clear_after] lower an index and have one round per position;
    [forget_block_with_children] visits each known header once; polling a stream
    reads at least one byte per round; the queue of answers and the pool of
    orphans lose an element per round; the walk from a fork to the main chain has
    one round per stored block of the fork, and the node gives it more rounds
    than its chain is high; a verification task asks for no further ones, so one
    round is enough for it.  f64 is binary64 of [SpecFloat], and casts
    from it saturate.

    ** Not modelled

    Threads and locks: a handler of the node, a round of the verification thread,
    a step of the server's worker and a turn of a miner are atomic, in any order.
    (A server that listens reads the counter and accepts in two steps, and writes
    of the pool are steps of their own.)
    Logging, paths and clap; sockets, timers and name resolution of the
    peer-to-peer layer; RocksDB itself; the HTTP server, JSON and the macros of
    RPC; derived and debug formatting.  These are bindings, generated code or
    glue without state of their own.  The draw of the mocking miner and the
    sample of peers are arguments.

    This file holds shared notation, automation and generic lemmas. *)

From Stdlib Require Export ZArith Lia.
From Stdlib Require Import Strings.Byte.
From stdpp Require Export base tactics numbers list option gmap strings countable.

#[global] Open Scope Z_scope.

(** ** Rust's [Result] *)

Inductive result (E A : Type) : Type :=
| Ok (a : A)
| Err (e : E).
Arguments Ok {E A} a.
Arguments Err {E A} e.

#[global] Instance result_ret E : MRet (result E) := λ A a, Ok a.
#[global] Instance result_bind E : MBind (result E) := λ A B k m,
  match m with Ok a => k a | Err e => Err e end.
#[global] Instance result_eq_dec E A `{EqDecision E, EqDecision A} :
  EqDecision (result E A).
Proof. solve_decision. Defined.

#[global] Instance Ok_inj E A : Inj (=) (=) (@Ok E A).
Proof. by intros a b [= ->]. Qed.

Definition map_err {E F A} (f : E → F) (r : result E A) : result F A :=
  match r with Ok a => Ok a | Err e => Err (f e) end.

Definition is_ok {E A} (r : result E A) : bool :=
  match r with Ok _ => true | Err _ => false end.

Lemma result_bind_Ok {E A B} (m : result E A) (k : A → result E B) b :
  (m ≫= k) = Ok b ↔ ∃ a, m = Ok a ∧ k a = Ok b.
Proof.
  destruct m as [a'|e]; split.
  - intros H. by exists a'.
  - by intros (? & [= <-] & ?).
  - done.
  - by intros (? & ? & ?).
Qed.

(** [assert!]: a failed assertion aborts, which the models write [None]. *)
Definition rust_assert (b : bool) : option unit := if b then Some tt else None.

(** ** Machine integers: an unsigned w-bit integer is a [Z] in range *)

Definition fits (w z : Z) : Prop := 0 ≤ z < 2 ^ w.
Definition wrap (w z : Z) : Z := z mod 2 ^ w.

#[global] Instance fits_dec w z : Decision (fits w z).
Proof. unfold fits. apply _. Defined.

Abbreviation u8 := (fits 8).
Abbreviation u16 := (fits 16).
Abbreviation u32 := (fits 32).
Abbreviation u64 := (fits 64).

Definition U32_MAX : Z := 2 ^ 32 - 1.

Lemma wrap_fits w z : 0 ≤ w → fits w (wrap w z).
Proof. intros. unfold fits, wrap. apply Z.mod_pos_bound. lia. Qed.

Lemma wrap_small w z : fits w z → wrap w z = z.
Proof. intros. by apply Z.mod_small. Qed.

Lemma pow2_pos n : 0 ≤ n → 0 < 2 ^ n.
Proof. intros. apply Z.pow_pos_nonneg; lia. Qed.

(** Arithmetic on [u32]: a build with overflow checks panics ([None]) when the
    result does not fit, a build without them wraps. *)
Class Profile := overflow_checks : bool.

Definition u32_result {P : Profile} (z : Z) : option Z :=
  if bool_decide (u32 z) then Some z
  else if overflow_checks then None else Some (wrap 32 z).

Definition u32_add {P : Profile} (a b : Z) : option Z := u32_result (a + b).
Definition u32_sub {P : Profile} (a b : Z) : option Z := u32_result (a - b).

Lemma u32_add_fits {P : Profile} a b : u32 (a + b) → u32_add a b = Some (a + b).
Proof. intros. unfold u32_add, u32_result. by rewrite bool_decide_true. Qed.

Lemma u32_sub_fits {P : Profile} a b : u32 (a - b) → u32_sub a b = Some (a - b).
Proof. intros. unfold u32_sub, u32_result. by rewrite bool_decide_true. Qed.

(** ** Bytes *)

Abbreviation byte := Byte.byte.

#[global] Instance byte_eq_dec : EqDecision byte := Byte.byte_eq_dec.

#[global] Instance byte_countable : Countable byte :=
  inj_countable Byte.to_N Byte.of_N Byte.of_to_N.

Definition byte_val (b : byte) : Z := Z.of_N (Byte.to_N b).

(** [z as u8]: truncation to the low eight bits. *)
Definition byte_of (z : Z) : byte :=
  match Byte.of_N (Z.to_N (z mod 256)) with Some b => b | None => x00 end.

Lemma byte_val_range b : 0 ≤ byte_val b < 256.
Proof. unfold byte_val. pose proof (Byte.to_N_bounded b). lia. Qed.

Lemma byte_of_val b : byte_of (byte_val b) = b.
Proof.
  unfold byte_of. rewrite Z.mod_small by apply byte_val_range.
  unfold byte_val. by rewrite N2Z.id, Byte.of_to_N.
Qed.

Lemma byte_val_of z : byte_val (byte_of z) = z mod 256.
Proof.
  unfold byte_of. pose proof (Z.mod_pos_bound z 256).
  destruct (Byte.of_N (Z.to_N (z mod 256))) as [b|] eqn:E.
  - apply Byte.to_of_N in E. unfold byte_val. rewrite E. lia.
  - apply Byte.of_N_None_iff in E. lia.
Qed.

#[global] Instance byte_val_inj : Inj (=) (=) byte_val.
Proof. intros a b E. by rewrite <-(byte_of_val a), E, byte_of_val. Qed.

(** ** Fixed-width little- and big-endian encodings *)

Fixpoint le_bytes (n : nat) (z : Z) : list byte :=
  match n with
  | O => []
  | S n => byte_of z :: le_bytes n (z / 256)
  end.

Fixpoint le_val (bs : list byte) : Z :=
  match bs with
  | [] => 0
  | b :: bs => byte_val b + 256 * le_val bs
  end.

Definition be_bytes (n : nat) (z : Z) : list byte := reverse (le_bytes n z).
Definition be_val (bs : list byte) : Z := le_val (reverse bs).

Lemma length_le_bytes n z : length (le_bytes n z) = n.
Proof. revert z. induction n; intros; simpl; auto. Qed.

Lemma length_be_bytes n z : length (be_bytes n z) = n.
Proof. unfold be_bytes. by rewrite length_reverse, length_le_bytes. Qed.

Lemma pow_bytes_S n : 2 ^ (8 * Z.of_nat (S n)) = 256 * 2 ^ (8 * Z.of_nat n).
Proof.
  replace (8 * Z.of_nat (S n)) with (8 + 8 * Z.of_nat n) by lia.
  by rewrite Z.pow_add_r by lia.
Qed.

Lemma le_val_range bs : 0 ≤ le_val bs < 2 ^ (8 * Z.of_nat (length bs)).
Proof.
  induction bs as [|b bs IH]; [simpl; lia|].
  change (length (b :: bs)) with (S (length bs)). rewrite pow_bytes_S.
  simpl. pose proof (byte_val_range b). lia.
Qed.

Lemma le_val_le_bytes_mod n z : le_val (le_bytes n z) = z mod 2 ^ (8 * Z.of_nat n).
Proof.
  revert z. induction n as [|n IH]; intros z; simpl le_bytes; simpl le_val.
  - by rewrite Z.mod_1_r.
  - rewrite pow_bytes_S, byte_val_of, IH.
    rewrite Z.rem_mul_r by (pose proof (Z.pow_pos_nonneg 2 (8 * Z.of_nat n)); lia). lia.
Qed.

Lemma le_val_le_bytes n z : fits (8 * Z.of_nat n) z → le_val (le_bytes n z) = z.
Proof. intros. rewrite le_val_le_bytes_mod. by apply Z.mod_small. Qed.

Lemma le_bytes_le_val bs : le_bytes (length bs) (le_val bs) = bs.
Proof.
  induction bs as [|b bs IH]; [done|]. simpl.
  pose proof (byte_val_range b). f_equal.
  - rewrite <-(byte_of_val b) at 2. unfold byte_of. do 3 f_equal.
    rewrite Z.mul_comm, Z_mod_plus_full. done.
  - replace ((byte_val b + 256 * le_val bs) / 256) with (le_val bs); [done|].
    rewrite Z.mul_comm, Z.div_add, (Z.div_small (byte_val b)) by lia. lia.
Qed.

Lemma be_val_be_bytes n z : fits (8 * Z.of_nat n) z → be_val (be_bytes n z) = z.
Proof. intros. unfold be_val, be_bytes. by rewrite reverse_involutive, le_val_le_bytes. Qed.

Lemma be_val_range bs : 0 ≤ be_val bs < 2 ^ (8 * Z.of_nat (length bs)).
Proof. unfold be_val. rewrite <-(length_reverse bs). apply le_val_range. Qed.

#[global] Arguments le_bytes : simpl never.
#[global] Arguments le_val : simpl never.

(** ** Lists *)

Lemma filter_none {A} (P : A → Prop) `{∀ x, Decision (P x)} (l : list A) :
  (∀ x, x ∈ l → ¬ P x) → filter P l = [].
Proof.
  induction l as [|x l IH]; intros Hl; [done|].
  rewrite filter_cons, decide_False by (apply Hl; left). apply IH. intros y Hy. apply Hl. by right.
Qed.

Lemma filter_all {A} (P : A → Prop) `{∀ x, Decision (P x)} (l : list A) :
  (∀ x, x ∈ l → P x) → filter P l = l.
Proof.
  induction l as [|x l IH]; intros Hl; [done|].
  rewrite filter_cons, decide_True by (apply Hl; left).
  f_equal. apply IH. intros y Hy. apply Hl. by right.
Qed.

(** ** Automation *)

Create HintDb randchain.
#[export] Hint Resolve wrap_fits length_le_bytes length_be_bytes : randchain.

(** Splits every [match]/[if] of the goal and simplifies the equations. *)
Ltac split_matches := repeat (case_match; simplify_eq/=; try done).

(** Turns boolean comparisons of the goal and hypotheses into propositions. *)
Ltac bool_props :=
  repeat match goal with
  | H : (_ <? _) = true |- _ => apply Z.ltb_lt in H
  | H : (_ <? _) = false |- _ => apply Z.ltb_ge in H
  | H : (_ <=? _) = true |- _ => apply Z.leb_le in H
  | H : (_ <=? _) = false |- _ => apply Z.leb_gt in H
  | H : (_ =? _) = true |- _ => apply Z.eqb_eq in H
  | H : (_ =? _) = false |- _ => apply Z.eqb_neq in H
  | H : (_ && _) = true |- _ => apply andb_true_iff in H as [? ?]
  | H : (_ || _) = false |- _ => apply orb_false_iff in H as [? ?]
  | H : negb _ = true |- _ => apply negb_true_iff in H
  | H : negb _ = false |- _ => apply negb_false_iff in H
  | H : bool_decide _ = true |- _ => apply bool_decide_eq_true in H
  | H : bool_decide _ = false |- _ => apply bool_decide_eq_false in H
  end.
