(* ===== verification/External.v ===== *)
(** * Third-party code as interfaces

    The repository calls crates whose code is not part of it: [bigint] (the
    256-bit integer [U256]), [rug] (arbitrary-precision [Integer]), [rust-crypto]
    and [sha2] (SHA-256), [ecvrf] (VRF public keys) and [lru_cache].  Each is a
    class: its operations are the parameters of the models that call it, its
    laws state the documented behaviour those models rely on.  Module
    [Reference] gives one concrete implementation of each class, so that every
    theorem that assumes a class is applied to concrete functions somewhere. *)

From S2P Require Import Prelude.
From Stdlib Require Import Zpow_facts.

(** ** [bigint::U256]: an unsigned 256-bit integer, as a [Z] below [2 ^ 256].

    Shifting left is specified only when no bit is lost, multiplication only
    when the product fits; what the crate does otherwise is left open, except
    that the result of a shift is again a [U256]. *)
Class U256Ops := {
  u256_shl : Z → Z → Z;
  u256_shr : Z → Z → Z;
  u256_bits : Z → Z;
  u256_low_u32 : Z → Z;
  u256_low_u64 : Z → Z;
  u256_mul : Z → Z → option Z;
  u256_div : Z → Z → option Z;
  u256_from_be : list byte → Z;
}.

Definition U256_MAX : Z := 2 ^ 256 - 1.

Class U256Laws (U : U256Ops) : Prop := {
  u256_shl_range x n : fits 256 x → 0 ≤ n → fits 256 (u256_shl x n);
  u256_shl_exact x n :
    fits 256 x → 0 ≤ n → x * 2 ^ n < 2 ^ 256 → u256_shl x n = x * 2 ^ n;
  u256_shr_spec x n : fits 256 x → 0 ≤ n → u256_shr x n = x / 2 ^ n;
  u256_bits_spec x : fits 256 x → u256_bits x = if x =? 0 then 0 else Z.log2 x + 1;
  u256_low_u32_spec x : fits 256 x → u256_low_u32 x = x mod 2 ^ 32;
  u256_low_u64_spec x : fits 256 x → u256_low_u64 x = x mod 2 ^ 64;
  u256_mul_exact x y :
    fits 256 x → fits 256 y → x * y < 2 ^ 256 → u256_mul x y = Some (x * y);
  u256_mul_range x y z :
    fits 256 x → fits 256 y → u256_mul x y = Some z → fits 256 z;
  u256_div_spec x y : fits 256 x → fits 256 y → y ≠ 0 → u256_div x y = Some (x / y);
  u256_from_be_spec bs : length bs = 32%nat → u256_from_be bs = be_val bs;
}.

(** ** [rug::Integer]: a [Z].  [pow_mod] returns [Err] ([None]) when the power
    does not exist; digits are bytes of the absolute value, most or least
    significant first. *)
Class RugOps := {
  rug_pow_mod : Z → Z → Z → option Z;
  rug_to_digits_msf : Z → list byte;
  rug_from_digits_msf : list byte → Z;
  rug_to_digits_lsf : Z → list byte;
  rug_from_digits_lsf : list byte → Z;
}.

Class RugLaws (R : RugOps) : Prop := {
  rug_pow_mod_spec b e m :
    0 ≤ e → 0 < m → rug_pow_mod b e m = Some ((b ^ e) mod m);
  rug_digits_msf z : rug_from_digits_msf (rug_to_digits_msf z) = Z.abs z;
  rug_from_digits_msf_spec bs : rug_from_digits_msf bs = be_val bs;
  rug_to_digits_msf_length z :
    Z.of_nat (length (rug_to_digits_msf z)) = (if z =? 0 then 0 else Z.log2 (Z.abs z) / 8 + 1);
  rug_from_digits_lsf_spec bs : rug_from_digits_lsf bs = le_val bs;
}.

(** ** Digests: SHA-256, SHA-1 and RIPEMD-160 of [rust-crypto] and SipHash-2-4 of
    [siphasher] (used by the [crypto] crate), SHA-256 of [sha2] (used by
    [vdf], [verification] and [miner]). *)
Class Sha256Ops := {
  rcrypto_sha256 : list byte → list byte;
  rcrypto_sha1 : list byte → list byte;
  rcrypto_ripemd160 : list byte → list byte;
  siphasher_sip24 : Z → Z → list byte → Z;
  sha2_sha256 : list byte → list byte;
}.

Class Sha256Laws (H : Sha256Ops) : Prop := {
  rcrypto_sha256_length bs : length (rcrypto_sha256 bs) = 32%nat;
  rcrypto_sha1_length bs : length (rcrypto_sha1 bs) = 20%nat;
  rcrypto_ripemd160_length bs : length (rcrypto_ripemd160 bs) = 20%nat;
  sha2_sha256_length bs : length (sha2_sha256 bs) = 32%nat;
}.

(** ** [ecvrf::VrfPk]: public keys with a 32-byte representation. *)
Class VrfOps := {
  VrfPk : Type;
  VrfPk_eq_dec :: EqDecision VrfPk;
  vrf_to_bytes : VrfPk → list byte;
  vrf_from_bytes : list byte → option VrfPk;
}.

Class VrfLaws (V : VrfOps) : Prop := {
  vrf_to_bytes_length pk : length (vrf_to_bytes pk) = 32%nat;
  vrf_from_to_bytes pk : vrf_from_bytes (vrf_to_bytes pk) = Some pk;
}.

(** ** Reference implementations *)
Module Reference.

#[export] Instance ref_u256_ops : U256Ops := {|
  u256_shl x n := (x * 2 ^ n) mod 2 ^ 256;
  u256_shr x n := x / 2 ^ n;
  u256_bits x := if x =? 0 then 0 else Z.log2 x + 1;
  u256_low_u32 x := x mod 2 ^ 32;
  u256_low_u64 x := x mod 2 ^ 64;
  u256_mul x y := if x * y <? 2 ^ 256 then Some (x * y) else None;
  u256_div x y := if y =? 0 then None else Some (x / y);
  u256_from_be bs := be_val bs;
|}.

#[export] Instance ref_u256_laws : U256Laws ref_u256_ops.
Proof.
  split; simpl; try done.
  - intros. apply Z.mod_pos_bound. lia.
  - intros x n [? ?] ? ?. apply Z.mod_small.
    pose proof (Z.pow_pos_nonneg 2 n). nia.
  - intros x y _ _ ?. by rewrite (proj2 (Z.ltb_lt _ _)).
  - intros x y z [? ?] [? ?] E. case_match; simplify_eq.
    bool_props. unfold fits. nia.
  - intros x y _ _ ?. by rewrite (proj2 (Z.eqb_neq _ _)).
Qed.

(** Number of base-256 digits of the absolute value. *)
Definition digit_count (z : Z) : nat :=
  if z =? 0 then 0%nat else Z.to_nat (Z.log2 (Z.abs z) / 8 + 1).

#[export] Instance ref_rug_ops : RugOps := {|
  rug_pow_mod b e m := if e <? 0 then None else Some (Zpow_mod b e m);
  rug_to_digits_msf z := be_bytes (digit_count z) (Z.abs z);
  rug_from_digits_msf := be_val;
  rug_to_digits_lsf z := le_bytes (digit_count z) (Z.abs z);
  rug_from_digits_lsf := le_val;
|}.

Lemma digit_count_fits z : fits (8 * Z.of_nat (digit_count z)) (Z.abs z).
Proof.
  unfold digit_count, fits. case_match; bool_props.
  - subst. simpl. lia.
  - split; [lia|].
    pose proof (Z.log2_nonneg (Z.abs z)).
    pose proof (Z.log2_spec (Z.abs z) ltac:(lia)) as [_ Hlog].
    eapply Z.lt_le_trans; [apply Hlog|].
    apply Z.pow_le_mono_r; [lia|].
    rewrite Z2Nat.id by (pose proof (Z.div_pos (Z.log2 (Z.abs z)) 8); lia).
    pose proof (Z.div_mod (Z.log2 (Z.abs z)) 8).
    pose proof (Z.mod_pos_bound (Z.log2 (Z.abs z)) 8). lia.
Qed.

#[export] Instance ref_rug_laws : RugLaws ref_rug_ops.
Proof.
  split; simpl; try done.
  - intros b e m ? ?. rewrite (proj2 (Z.ltb_ge _ _)) by done.
    by rewrite Zpow_mod_correct by lia.
  - intros z. apply be_val_be_bytes, digit_count_fits.
  - intros z. rewrite length_be_bytes. unfold digit_count.
    case_match; [done|]. rewrite Z2Nat.id; [done|].
    pose proof (Z.div_pos (Z.log2 (Z.abs z)) 8). pose proof (Z.log2_nonneg (Z.abs z)). lia.
Qed.

(** A length-32 digest that keeps the low 256 bits of its input. *)
Definition toy_digest (bs : list byte) : list byte := le_bytes 32 (le_val bs).

#[export] Instance ref_sha_ops : Sha256Ops := {|
  rcrypto_sha256 := toy_digest;
  rcrypto_sha1 bs := le_bytes 20 (le_val bs);
  rcrypto_ripemd160 bs := le_bytes 20 (le_val bs);
  siphasher_sip24 k0 k1 bs := wrap 64 (k0 + k1 + le_val bs);
  sha2_sha256 := toy_digest;
|}.

#[export] Instance ref_sha_laws : Sha256Laws ref_sha_ops.
Proof. split; intros; apply length_le_bytes. Qed.

(** The digest that is always zero, for runs of the miner. *)
Definition zero_sha_ops : Sha256Ops := {|
  rcrypto_sha256 _ := le_bytes 32 0;
  rcrypto_sha1 _ := le_bytes 20 0;
  rcrypto_ripemd160 _ := le_bytes 20 0;
  siphasher_sip24 _ _ _ := 0;
  sha2_sha256 _ := le_bytes 32 0;
|}.

(** The digests of the delay function are zero, the others are kept. *)
Definition flat_sha_ops : Sha256Ops := {|
  rcrypto_sha256 := toy_digest;
  rcrypto_sha1 bs := le_bytes 20 (le_val bs);
  rcrypto_ripemd160 bs := le_bytes 20 (le_val bs);
  siphasher_sip24 k0 k1 bs := wrap 64 (k0 + k1 + le_val bs);
  sha2_sha256 _ := le_bytes 32 0;
|}.

(** Keys are the integers below [2 ^ 256], written little-endian. *)
Definition ref_key := { z : Z | bool_decide (fits 256 z) }.

#[export] Instance ref_vrf_ops : VrfOps := {|
  VrfPk := ref_key;
  vrf_to_bytes pk := le_bytes 32 (`pk);
  vrf_from_bytes bs :=
    match decide (bool_decide (fits 256 (le_val bs))) with
    | left H => Some (exist _ (le_val bs) H)
    | right _ => None
    end;
|}.

#[export] Instance ref_vrf_laws : VrfLaws ref_vrf_ops.
Proof.
  split.
  - intros pk. apply length_le_bytes.
  - intros [z Hz]. cbn [vrf_from_bytes vrf_to_bytes ref_vrf_ops proj1_sig].
    pose proof (bool_decide_unpack _ Hz) as Hz'.
    destruct (decide _) as [H|H].
    + f_equal. apply (sig_eq_pi _). simpl. by rewrite le_val_le_bytes.
    + exfalso. apply H. by rewrite le_val_le_bytes.
Qed.

End Reference.
