(* ===== verification/Primitives.v ===== *)
(** * Fixed-size hashes and byte strings ([primitives/src/hash.rs], [bytes.rs])

    [impl_hash!] generates [H32] ... [H520], a newtype of [[u8; N]] for each
    size.  The macro is modelled once, by the family [hash n] of byte lists of
    length [n]; [H256] and its siblings are instances of it. *)

From S2P Require Import Prelude.

(** ** [impl_hash!] *)

(** src: primitives/src/hash.rs 7-11 impl_hash *)
Record hash (n : nat) := Hash {
  hash_bytes : list byte;
  hash_len : bool_decide (length hash_bytes = n);
}.
Arguments Hash {n} hash_bytes hash_len.
Arguments hash_bytes {n} _.
Arguments hash_len {n} _.

Lemma hash_length {n} (h : hash n) : length (hash_bytes h) = n.
Proof. exact (bool_decide_unpack _ (hash_len h)). Qed.

#[global] Instance hash_bytes_inj n : Inj (=) (=) (@hash_bytes n).
Proof.
  intros [a Ha] [b Hb]. simpl. intros ->. f_equal. apply proof_irrel.
Qed.

(** [impl PartialEq]: equality of the byte arrays. *)
(** src: primitives/src/hash.rs 109-115 eq *)
Definition hash_eq {n} (a b : hash n) : bool :=
  bool_decide (hash_bytes a = hash_bytes b).

#[global] Instance hash_eq_dec n : EqDecision (hash n).
Proof.
  intros a b. destruct (decide (hash_bytes a = hash_bytes b)).
  - left. by apply (inj hash_bytes).
  - right. congruence.
Defined.

(** [From<[u8; N]>] for arrays whose length is known to be right. *)
Definition hash_of_list {n} (l : list byte) : option (hash n) :=
  match decide (bool_decide (length l = n)) with
  | left H => Some (Hash l H)
  | right _ => None
  end.

Lemma hash_of_list_bytes {n} (h : hash n) : hash_of_list (hash_bytes h) = Some h.
Proof.
  unfold hash_of_list. destruct (decide _) as [H|H].
  - f_equal. by apply (inj hash_bytes).
  - exfalso. apply H. apply (hash_len h).
Qed.

Lemma hash_of_list_Some {n} l (h : hash n) : hash_of_list l = Some h → hash_bytes h = l.
Proof. unfold hash_of_list. case_match; naive_solver. Qed.

#[global] Instance hash_countable n : Countable (hash n) :=
  inj_countable hash_bytes hash_of_list hash_of_list_bytes.

(** A byte list of arbitrary length padded or truncated to length [n]; the
    total form of a copy into [[0u8; N]]. *)
Program Definition hash_of {n} (l : list byte) : hash n :=
  Hash (take n l ++ replicate (n - length l) (byte_of 0)) _.
Next Obligation.
  intros. apply bool_decide_pack. rewrite length_app, length_take, length_replicate. lia.
Qed.

Lemma hash_bytes_of {n} l : length l = n → hash_bytes (@hash_of n l) = l.
Proof.
  intros <-. simpl. rewrite Nat.sub_diag. simpl. rewrite app_nil_r, firstn_all. done.
Qed.

Lemma hash_of_bytes {n} (h : hash n) : hash_of (hash_bytes h) = h.
Proof. apply (inj hash_bytes), hash_bytes_of, hash_length. Qed.

(** src: primitives/src/hash.rs 13-17 default *)
Definition hash_default {n} : hash n := hash_of (replicate n (byte_of 0)).

(** [From<&[u8]>]: the first [N] bytes of a slice; a shorter slice panics. *)
(** src: primitives/src/hash.rs 45-51 from *)
Definition hash_from_slice {n} (slc : list byte) : option (hash n) :=
  if decide (n ≤ length slc)%nat then Some (hash_of (take n slc)) else None.

(** [From<u8>]: byte [v] at index 0 of the zero hash. *)
(** src: primitives/src/hash.rs 59-65 from *)
Definition hash_from_u8 {n} (v : Z) : hash n :=
  hash_of (<[0%nat := byte_of v]> (hash_bytes (@hash_default n))).

(** src: primitives/src/hash.rs 142-146 reversed *)
Definition reversed {n} (h : hash n) : hash n := hash_of (reverse (hash_bytes h)).

(** src: primitives/src/hash.rs 148-150 size *)
Definition hash_size (n : nat) : Z := Z.of_nat n.

(** src: primitives/src/hash.rs 152-154 is_zero *)
Definition is_zero {n} (h : hash n) : bool :=
  forallb (λ b, byte_val b =? 0) (hash_bytes h).

(** [impl PartialOrd]: lexicographic comparison of the bytes, from index 0. *)
Fixpoint slice_partial_cmp (a b : list byte) : comparison :=
  match a, b with
  | [], [] => Eq
  | [], _ => Lt
  | _, [] => Gt
  | x :: a, y :: b =>
      match byte_val x ?= byte_val y with Eq => slice_partial_cmp a b | c => c end
  end.

(** src: primitives/src/hash.rs 117-123 partial_cmp *)
Definition hash_partial_cmp {n} (a b : hash n) : comparison :=
  slice_partial_cmp (hash_bytes a) (hash_bytes b).

(** The types the macro is applied to (lines 159-166). *)
Abbreviation H32 := (hash 4).
Abbreviation H48 := (hash 6).
Abbreviation H96 := (hash 12).
Abbreviation H160 := (hash 20).
Abbreviation H256 := (hash 32).
Abbreviation H264 := (hash 33).
Abbreviation H512 := (hash 64).
Abbreviation H520 := (hash 65).

(** ** Lemmas *)

Lemma hash_eq_true {n} (a b : hash n) : hash_eq a b = true ↔ a = b.
Proof.
  unfold hash_eq. rewrite bool_decide_eq_true. split; [apply (inj _)|by intros ->].
Qed.

Lemma hash_bytes_reversed {n} (h : hash n) : hash_bytes (reversed h) = reverse (hash_bytes h).
Proof. apply hash_bytes_of. by rewrite length_reverse, hash_length. Qed.

Lemma reversed_involutive {n} (h : hash n) : reversed (reversed h) = h.
Proof.
  apply (inj hash_bytes). by rewrite !hash_bytes_reversed, reverse_involutive.
Qed.

Lemma hash_bytes_default {n} : hash_bytes (@hash_default n) = replicate n (byte_of 0).
Proof. apply hash_bytes_of. by rewrite length_replicate. Qed.

Lemma is_zero_default {n} (h : hash n) : is_zero h = true ↔ h = hash_default.
Proof.
  unfold is_zero. split.
  - intros Hz. apply (inj hash_bytes). rewrite hash_bytes_default.
    symmetry. apply replicate_as_elem_of. split; [apply hash_length|].
    intros b Hb. rewrite forallb_forall in Hz.
    apply list_elem_of_In, Hz, Z.eqb_eq in Hb. by rewrite <-(byte_of_val b), Hb.
  - intros ->. rewrite hash_bytes_default. apply forallb_forall.
    intros b Hb. apply list_elem_of_In, elem_of_replicate in Hb as [-> _]. done.
Qed.
