(* ===== verification/Serialization.v ===== *)
(** * Wire format ([serialization] crate)

    [Stream] collects the bytes a value is serialized to; [Reader] decodes
    values from any [io::Read] source, with one byte of look-ahead.  The
    sources the repository uses are byte slices and, when a header is hashed
    while it is read, a [Proxy] around another [Reader]; all of them meet the
    contract [ReadSource], and every decoder below is verified against that
    contract, so its theorems hold for sources that return fewer bytes than
    asked for.  The [usize] of the code is 64 bits wide; allocation of a buffer
    always succeeds. *)

From S2P Require Import Prelude External Primitives.

(** ** Streams *)

(** src: serialization/src/stream.rs 53-56 Stream *)
Record Stream := mkStream { sbuf : list byte }.

(** src: serialization/src/stream.rs 38-50 Serializable *)
Record Serializable (T : Type) := mkSerializable {
  ser : T → Stream → Stream;
  serialized_size : T → Z;
}.
Arguments mkSerializable {T} & _ _.
Arguments ser {T} _ _ _.
Arguments serialized_size {T} _ _.

(** src: serialization/src/stream.rs 60-62 new *)
Definition stream_new : Stream := mkStream [].

(** src: serialization/src/stream.rs 65-71 append *)
Definition append {T} (s : Serializable T) (t : T) (st : Stream) : Stream := ser s t st.

(** src: serialization/src/stream.rs 74-78 append_slice *)
Definition append_slice (bs : list byte) (st : Stream) : Stream :=
  mkStream (sbuf st ++ bs).

(** src: serialization/src/stream.rs 94-96 out *)
Definition out (st : Stream) : list byte := sbuf st.

(** src: serialization/src/stream.rs 7-14 serialize *)
Definition serialize {T} (s : Serializable T) (t : T) : list byte :=
  out (append s t stream_new).

(** The fallback of [Serializable::serialized_size]. *)
(** src: serialization/src/stream.rs 43-49 serialized_size *)
Definition default_serialized_size {T} (f : T → Stream → Stream) (t : T) : Z :=
  Z.of_nat (length (out (f t stream_new))).

(** Serializers of fixed-width integers ([WriteBytesExt] of [byteorder] writes
    the bytes of the two's complement representation). *)
Definition ser_le (n : nat) : Serializable Z :=
  mkSerializable (λ z, append_slice (le_bytes n z)) (λ _, Z.of_nat n).

(** src: serialization/src/impls.rs 10-20 bool *)
Definition ser_bool : Serializable bool :=
  mkSerializable (λ b, append_slice [byte_of (if b then 1 else 0)]) (λ _, 1).

(** src: serialization/src/impls.rs 22-32 i32 *)
Definition ser_i32 : Serializable Z := ser_le 4.

(** src: serialization/src/impls.rs 34-44 i64 *)
Definition ser_i64 : Serializable Z := ser_le 8.

(** src: serialization/src/impls.rs 46-56 u8 *)
Definition ser_u8 : Serializable Z := ser_le 1.

(** src: serialization/src/impls.rs 58-68 u16 *)
Definition ser_u16 : Serializable Z := ser_le 2.

(** src: serialization/src/impls.rs 70-80 u32 *)
Definition ser_u32 : Serializable Z := ser_le 4.

(** src: serialization/src/impls.rs 82-92 u64 *)
Definition ser_u64 : Serializable Z := ser_le 8.

(** src: serialization/src/compact_integer.rs 58-84 CompactInteger *)
Definition ser_compact_integer : Serializable Z :=
  mkSerializable
    (λ i st,
      if i <=? 0xfc then append ser_u8 (wrap 8 i) st
      else if i <=? 0xffff then append ser_u16 (wrap 16 i) (append ser_u8 0xfd st)
      else if i <=? 0xffffffff then append ser_u32 (wrap 32 i) (append ser_u8 0xfe st)
      else append ser_u64 i (append ser_u8 0xff st))
    (λ i,
      if i <=? 0xfc then 1
      else if i <=? 0xffff then 3
      else if i <=? 0xffffffff then 5
      else 9).

(** src: serialization/src/stream.rs 81-91 append_list *)
Definition append_list {T} (s : Serializable T) (t : list T) (st : Stream) : Stream :=
  foldl (λ st i, ser s i st) (ser ser_compact_integer (Z.of_nat (length t)) st) t.

(** src: serialization/src/stream.rs 16-24 serialize_list *)
Definition serialize_list {T} (s : Serializable T) (t : list T) : list byte :=
  out (append_list s t stream_new).

(** src: serialization/src/stream.rs 26-36 serialized_list_size *)
Definition serialized_list_size {T} (s : Serializable T) (t : list T) : Z :=
  serialized_size ser_compact_integer (Z.of_nat (length t)) +
  foldr Z.add 0 (serialized_size s <$> t).

(** src: serialization/src/list.rs 20-27 List *)
Definition ser_list {T} (s : Serializable T) : Serializable (list T) :=
  mkSerializable (append_list s) (default_serialized_size (append_list s)).

(** [Bytes] and the UTF-8 bytes of a [&str] are written alike. *)
(** src: serialization/src/impls.rs 244-255 Bytes *)
Definition ser_bytes : Serializable (list byte) :=
  mkSerializable
    (λ bs st, append_slice bs (append ser_compact_integer (Z.of_nat (length bs)) st))
    (λ bs, serialized_size ser_compact_integer (Z.of_nat (length bs)) + Z.of_nat (length bs)).

(** src: serialization/src/impls.rs 184-197 str *)
Definition ser_str : Serializable (list byte) :=
  mkSerializable
    (λ bs st, append_slice bs (append ser_compact_integer (Z.of_nat (length bs)) st))
    (λ bs, serialized_size ser_compact_integer (Z.of_nat (length bs)) + Z.of_nat (length bs)).

(** src: serialization/src/impls.rs 209-220 impl_ser_for_hash *)
Definition ser_hash (n : nat) : Serializable (hash n) :=
  mkSerializable (λ h, append_slice (hash_bytes h)) (λ _, Z.of_nat n).

(** src: serialization/src/impls.rs 284-297 Integer *)
Definition ser_integer {R : RugOps} : Serializable Z :=
  mkSerializable
    (λ z st, let digits := rug_to_digits_msf z in
      append_slice digits (append ser_compact_integer (Z.of_nat (length digits)) st))
    (λ z, let digits := rug_to_digits_msf z in
      serialized_size ser_compact_integer (Z.of_nat (length digits))
      + Z.of_nat (length digits)).

(** ** Readers *)

(** src: serialization/src/reader.rs 30-35 Error *)
Inductive Error := MalformedData | UnexpectedEnd | UnreadData.

#[global] Instance Error_eq_dec : EqDecision Error.
Proof. solve_decision. Defined.

(** [io::Read::read]: at most [n] bytes of the source, and the source after
    they are taken. *)
Class Read (S : Type) := io_read : nat → S → list byte * S.

(** [impl Read for &[u8]]. *)
#[global] Instance slice_read : Read (list byte) := λ n s, (take n s, drop n s).

(** src: serialization/src/reader.rs 51-55 Reader *)
Record Reader (S : Type) := mkReader { buffer : S; peeked : option byte }.
Arguments mkReader {S} _ _.
Arguments buffer {S} _.
Arguments peeked {S} _.

(** src: serialization/src/reader.rs 67-87 read *)
#[global] Instance reader_read {S} `{Read S} : Read (Reader S) := λ n r,
  match peeked r with
  | None => let '(c, b) := io_read n (buffer r) in (c, mkReader b None)
  | Some p =>
      match n with
      | O => ([], r)
      | Datatypes.S n => let '(c, b) := io_read n (buffer r) in (p :: c, mkReader b None)
      end
  end.

(** [io::Read::read_exact], the provided method: reads until the buffer is
    full or a read returns nothing.  Every round but the last takes a byte, so
    [n] rounds are enough. *)
Fixpoint read_exact_loop {S} `{Read S} (fuel n : nat) (s : S) : option (list byte) * S :=
  match n, fuel with
  | O, _ => (Some [], s)
  | _, O => (None, s)
  | _, Datatypes.S fuel =>
      match io_read n s with
      | ([], s') => (None, s')
      | (c, s') =>
          match read_exact_loop fuel (n - length c) s' with
          | (Some rest, s'') => (Some (c ++ rest), s'')
          | (None, s'') => (None, s'')
          end
      end
  end.

Definition read_exact {S} `{Read S} (n : nat) (s : S) : option (list byte) * S :=
  read_exact_loop n n s.

(** Computations over a [&mut Reader<T>] that return a [Result]. *)
Definition RM (S A : Type) : Type := Reader S → result Error A * Reader S.

#[global] Instance RM_ret S : MRet (RM S) := λ A a r, (Ok a, r).
#[global] Instance RM_bind S : MBind (RM S) := λ A B k m r,
  match m r with
  | (Ok a, r') => k a r'
  | (Err e, r') => (Err e, r')
  end.

Definition RM_fail {S A} (e : Error) : RM S A := λ r, (Err e, r).

(** src: serialization/src/reader.rs 43-48 Deserializable *)
Definition Deserializable (T : Type) : Type := ∀ S : Type, Read S → RM S T.

(** src: serialization/src/reader.rs 93-98 from_read *)
Definition from_read {S} (s : S) : Reader S := mkReader s None.

(** src: serialization/src/reader.rs 100-105 read *)
Definition read {T S} {R : Read S} (d : Deserializable T) : RM S T := d S R.

(** src: serialization/src/reader.rs 134-136 read_slice *)
Definition read_slice {S} `{Read S} (n : nat) : RM S (list byte) := λ r,
  match read_exact n r with
  | (Some bs, r') => (Ok bs, r')
  | (None, r') => (Err UnexpectedEnd, r')
  end.

(** src: serialization/src/reader.rs 171-184 is_finished *)
Definition is_finished {S} `{Read S} (r : Reader S) : bool * Reader S :=
  match peeked r with
  | Some _ => (false, r)
  | None =>
      match read_slice 1 r with
      | (Ok peek, r') => (false, mkReader (buffer r') (head peek))
      | (Err _, r') => (true, r')
      end
  end.

(** src: serialization/src/reader.rs 4-17 deserialize *)
Definition deserialize {T S} `{Read S} (d : Deserializable T) (buffer : S) : result Error T :=
  match read d (from_read buffer) with
  | (Ok v, r) => if fst (is_finished r) then Ok v else Err UnreadData
  | (Err e, _) => Err e
  end.

(** src: serialization/src/reader.rs 193-207 next *)
Definition read_iterator_next {T S} `{Read S} (d : Deserializable T) (r : Reader S) :
    option (result Error T) * Reader S :=
  match is_finished r with
  | (true, r') => (None, r')
  | (false, r') => let '(v, r'') := read d r' in (Some v, r'')
  end.

(** [ReadBytesExt]: fixed-width integers. *)
Definition de_le (n : nat) : Deserializable Z := λ S _,
  bs ← read_slice n; mret (le_val bs).

(** Two's complement reading of a [w]-bit pattern. *)
Definition to_signed (w z : Z) : Z := if z <? 2 ^ (w - 1) then z else z - 2 ^ w.

(** src: serialization/src/impls.rs 94-107 bool *)
Definition de_bool : Deserializable bool := λ S _,
  v ← read (de_le 1);
  if v =? 0 then mret false else if v =? 1 then mret true else RM_fail MalformedData.

(** src: serialization/src/impls.rs 109-117 i32 *)
Definition de_i32 : Deserializable Z := λ S _, v ← read (de_le 4); mret (to_signed 32 v).

(** src: serialization/src/impls.rs 119-127 i64 *)
Definition de_i64 : Deserializable Z := λ S _, v ← read (de_le 8); mret (to_signed 64 v).

(** src: serialization/src/impls.rs 129-137 u8 *)
Definition de_u8 : Deserializable Z := de_le 1.

(** src: serialization/src/impls.rs 139-147 u16 *)
Definition de_u16 : Deserializable Z := de_le 2.

(** src: serialization/src/impls.rs 149-157 u32 *)
Definition de_u32 : Deserializable Z := de_le 4.

(** src: serialization/src/impls.rs 159-167 u64 *)
Definition de_u64 : Deserializable Z := de_le 8.

(** src: serialization/src/compact_integer.rs 86-100 CompactInteger *)
Definition de_compact_integer : Deserializable Z := λ S _,
  i ← read de_u8;
  if i <=? 0xfc then mret i
  else if i =? 0xfd then read de_u16
  else if i =? 0xfe then read de_u32
  else read de_u64.

(** The body of the loops of [read_list] and [read_list_max]: [n] values in
    order. *)
Fixpoint read_n {T S} `{Read S} (d : Deserializable T) (n : nat) : RM S (list T) :=
  match n with
  | O => mret []
  | Datatypes.S n => x ← read d; xs ← read_n d n; mret (x :: xs)
  end.

(** src: serialization/src/reader.rs 138-150 read_list *)
Definition read_list {T} (d : Deserializable T) : Deserializable (list T) := λ S _,
  len ← read de_compact_integer; read_n d (Z.to_nat len).

(** src: serialization/src/reader.rs 152-168 read_list_max *)
Definition read_list_max {T} (d : Deserializable T) (max : Z) : Deserializable (list T) := λ S _,
  len ← read de_compact_integer;
  if max <? len then RM_fail MalformedData else read_n d (Z.to_nat len).

(** src: serialization/src/list.rs 29-39 List *)
Definition de_list {T} (d : Deserializable T) : Deserializable (list T) := read_list d.

(** src: serialization/src/impls.rs 222-231 deserialize *)
Definition de_hash (n : nat) : Deserializable (hash n) := λ S _,
  bs ← read_slice n; mret (hash_of bs).

(** src: serialization/src/impls.rs 257-267 Bytes *)
Definition de_bytes : Deserializable (list byte) := λ S _,
  len ← read de_compact_integer; read_slice (Z.to_nat len).

(** src: serialization/src/impls.rs 299-307 Integer *)
Definition de_integer {R : RugOps} : Deserializable Z := λ S _,
  digits ← read de_bytes; mret (rug_from_digits_msf digits).

(** ** Reading through a proxy *)

(** [Proxy<F, T>] with the closure it calls on every chunk: here the closure's
    state, the bytes it has been given so far. *)
(** src: serialization/src/reader.rs 209-218 Proxy *)
Record Proxy (S : Type) := mkProxy { from : S; to : list byte }.
Arguments mkProxy {S} _ _.
Arguments from {S} _.
Arguments to {S} _.

(** src: serialization/src/reader.rs 220-231 read *)
#[global] Instance proxy_read {S} `{Read S} : Read (Proxy S) := λ n p,
  let '(c, s) := io_read n (from p) in (c, mkProxy s (to p ++ c)).

(** The value read, with the bytes the closure has seen. *)
(** src: serialization/src/reader.rs 107-114 read_with_proxy *)
Definition read_with_proxy {T} (d : Deserializable T) : Deserializable (T * list byte) := λ S _ r,
  let '(res, r') := d (Proxy (Reader S)) _ (from_read (mkProxy r [])) in
  (v ← res; Ok (v, to (buffer r')), from (buffer r')).

(** ** The contract of a source, and the decoders that meet a format

    [content s] is what is left to read of [s]; a read returns a prefix of it,
    of at most the requested length, and returns nothing only when nothing is
    requested or nothing is left.  [valid] is whatever else holds of the source
    and is kept by reads. *)
Class ReadSource (S : Type) {R : Read S} := {
  content : S → list byte;
  valid : S → Prop;
  io_read_spec n s c s' :
    valid s → io_read n s = (c, s') →
    content s = c ++ content s' ∧ (length c ≤ n)%nat ∧
    (c = [] → n = 0%nat ∨ content s = []) ∧ valid s';
}.

#[global] Program Instance slice_source : ReadSource (list byte) :=
  {| content := id; valid _ := True |}.
Next Obligation.
  intros n s c s' _ [= <- <-]. unfold id. split; [by rewrite take_drop|].
  split; [rewrite length_take; lia|].
  destruct n, s; naive_solver.
Qed.

(** What a reader will still deliver: its look-ahead byte, then the source. *)
Definition rcontent {S} `{ReadSource S} (r : Reader S) : list byte :=
  option_list (peeked r) ++ content (buffer r).

Definition rvalid {S} `{ReadSource S} (r : Reader S) : Prop := valid (buffer r).

#[global] Program Instance reader_source {S} `{ReadSource S} : ReadSource (Reader S) :=
  {| content := rcontent; valid := rvalid |}.
Next Obligation.
  intros S R HS n [b [p|]] c r' Hv E; unfold io_read, reader_read in E; simpl in E.
  - destruct n as [|n]; [injection E as <- <-; naive_solver|].
    destruct (io_read n b) as [c' b'] eqn:Eb. injection E as <- <-.
    apply io_read_spec in Eb as (E & ? & _ & ?); [|done].
    unfold rcontent. simpl. rewrite E. split; [done|]. split; [simpl; lia|done].
  - destruct (io_read n b) as [c' b'] eqn:Eb. injection E as <- <-.
    by apply io_read_spec in Eb.
Qed.

(** A proxy has shown its closure everything that was read: what it has shown
    and what is left make up [total]. *)
#[global] Program Instance proxy_source {S} `{ReadSource S} (total : list byte) :
    ReadSource (Proxy S) :=
  {| content p := content (from p);
     valid p := valid (from p) ∧ to p ++ content (from p) = total |}.
Next Obligation.
  intros S R HS total n [s seen] c p' [Hv Ht] E. unfold io_read, proxy_read in E. simpl in *.
  destruct (io_read n s) as [c' s'] eqn:Es. injection E as <- <-.
  apply io_read_spec in Es as (E & ? & ? & ?); [|done].
  simpl. split_and!; try done. by rewrite <-app_assoc, <-E.
Qed.

Lemma rcontent_from_read {S} `{ReadSource S} (s : S) : rcontent (from_read s) = content s.
Proof. done. Qed.

Lemma read_exact_loop_spec {S} `{ReadSource S} fuel n (s : S) :
  (n ≤ fuel)%nat → valid s →
  if decide (n ≤ length (content s))%nat
  then ∃ s', read_exact_loop fuel n s = (Some (take n (content s)), s') ∧
             content s' = drop n (content s) ∧ valid s'
  else ∃ s', read_exact_loop fuel n s = (None, s').
Proof.
  revert n s. induction fuel as [|fuel IH]; intros n s Hn Hv.
  - destruct n; [|lia]. simpl. by eexists.
  - destruct n as [|n]; [simpl; by eexists|].
    simpl. destruct (io_read (Datatypes.S n) s) as [c s'] eqn:E.
    apply io_read_spec in E as (Ec & Hlen & Hemp & Hv'); [|done].
    destruct c as [|b c].
    + destruct Hemp as [?|Hs]; [done|done|]. rewrite Hs in *.
      rewrite decide_False by (simpl; lia). by eexists.
    + specialize (IH (Datatypes.S n - length (b :: c))%nat s' ltac:(simpl in *; lia) Hv').
      rewrite Ec in *. rewrite length_app in *. simpl length in *.
      destruct (decide (_ ≤ length (content s'))%nat) as [Hle|Hle].
      * destruct IH as (s'' & -> & Hs'' & Hv''). rewrite decide_True by lia.
        exists s''. split; [|split; [|done]].
        { f_equal. f_equal. symmetry.
          rewrite (take_app_ge (b :: c)) by (simpl; lia). done. }
        rewrite drop_app_ge by (simpl; lia). done.
      * destruct IH as (s'' & ->). rewrite decide_False by lia. by eexists.
Qed.

(** [decodes_at m bs v]: on any source that starts with [bs] the computation [m]
    returns [v] and leaves exactly what follows, without looking ahead; on a source that ends inside
    [bs] it reports [UnexpectedEnd]. *)
Definition decodes_at {S T} `{ReadSource S} (m : RM S T) (bs : list byte) (v : T) : Prop :=
  (∀ r rest, rvalid r → rcontent r = bs ++ rest →
     ∃ r', m r = (Ok v, r') ∧ rcontent r' = rest ∧ rvalid r' ∧
           (peeked r = None → peeked r' = None)) ∧
  (∀ r missing, rvalid r → bs = rcontent r ++ missing → missing ≠ [] →
     ∃ r', m r = (Err UnexpectedEnd, r')).

Definition decodes {T} (d : Deserializable T) (bs : list byte) (v : T) : Prop :=
  ∀ S (R : Read S) (HS : ReadSource S), decodes_at (d S R) bs v.

Lemma decodes_at_ret {S T} `{ReadSource S} (v : T) : decodes_at (mret v : RM S T) [] v.
Proof.
  split.
  - intros r rest Hv E. by exists r.
  - intros r m Hv E Hm. destruct (rcontent r), m; done.
Qed.

Lemma decodes_at_bind {S A B} `{ReadSource S} (m : RM S A) (k : A → RM S B) b1 b2 a v :
  decodes_at m b1 a → decodes_at (k a) b2 v → decodes_at (m ≫= k) (b1 ++ b2) v.
Proof.
  intros [Hm Hm'] [Hk Hk']. split; unfold mbind, RM_bind.
  - intros r rest Hv E. rewrite <-app_assoc in E.
    destruct (Hm _ _ Hv E) as (r1 & -> & E1 & Hv1 & Hp1).
    destruct (Hk _ _ Hv1 E1) as (r2 & -> & ? & ? & ?). exists r2. naive_solver.
  - intros r miss Hv E Hne.
    apply app_eq_inv in E as [([|x l] & E1 & E2)|(l & E1 & E2)].
    + rewrite app_nil_r in E1. simpl in E2. subst miss.
      destruct (Hm r []) as (r1 & -> & Er1 & Hv1 & _); [done|by rewrite app_nil_r|].
      apply (Hk' _ b2); [done|by rewrite Er1|done].
    + destruct (Hm' _ _ Hv E1) as (r1 & ->); [done|]. by eexists.
    + destruct (Hm _ _ Hv E1) as (r1 & -> & Er1 & Hv1 & _).
      apply (Hk' _ miss); [done|by rewrite Er1|done].
Qed.

(** A step that reads nothing. *)
Lemma decodes_at_bind_nil {S A B} `{ReadSource S} (m : RM S A) (k : A → RM S B) bs a v :
  decodes_at m [] a → decodes_at (k a) bs v → decodes_at (m ≫= k) bs v.
Proof. intros Hm Hk. exact (decodes_at_bind m k [] bs a v Hm Hk). Qed.

Lemma decodes_at_app_nil {S A} `{ReadSource S} (m : RM S A) bs v :
  decodes_at m (bs ++ []) v → decodes_at m bs v.
Proof. by rewrite app_nil_r. Qed.

Lemma read_exact_loop_peeked {S} `{Read S} fuel n (r : Reader S) :
  peeked r = None → peeked (snd (read_exact_loop fuel n r)) = None.
Proof.
  revert n r. induction fuel as [|fuel IH]; intros [|n] r Hp; try done. simpl.
  unfold io_read, reader_read. rewrite Hp.
  destruct (io_read _ (buffer r)) as [[|b c] s']; [done|].
  specialize (IH (Datatypes.S n - length (b :: c))%nat (mkReader s' None) eq_refl).
  by destruct (read_exact_loop _ _ _) as [[?|] ?].
Qed.

Lemma decodes_at_read_slice {S} `{ReadSource S} n bs :
  length bs = n → decodes_at (read_slice n : RM S _) bs bs.
Proof.
  intros <-. split.
  - intros r rest Hv E. unfold read_slice, read_exact.
    pose proof (read_exact_loop_spec (length bs) (length bs) r ltac:(lia) Hv) as Hr.
    change (content r) with (rcontent r) in Hr. rewrite E, length_app in Hr.
    rewrite decide_True in Hr by lia. destruct Hr as (r' & Er & Hr' & Hv').
    pose proof (read_exact_loop_peeked (length bs) (length bs) r) as Hp. rewrite Er in Hp |- *.
    exists r'. rewrite take_app_length. split; [done|]. split; [|done].
    change (content r') with (rcontent r') in Hr'. by rewrite Hr', drop_app_length.
  - intros r miss Hv E Hne. unfold read_slice, read_exact.
    pose proof (read_exact_loop_spec (length bs) (length bs) r ltac:(lia) Hv) as Hr.
    change (content r) with (rcontent r) in Hr.
    rewrite E, length_app in Hr. rewrite decide_False in Hr by (destruct miss; [congruence|simpl; lia]).
    destruct Hr as (r' & Hr'). exists r'. by rewrite E, length_app, Hr'.
Qed.

Lemma is_finished_spec {S} `{ReadSource S} (r : Reader S) :
  rvalid r → fst (is_finished r) = bool_decide (rcontent r = []).
Proof.
  intros Hv. destruct r as [b [p|]]; [done|]. unfold is_finished. cbn [peeked].
  pose proof (read_exact_loop_spec 1 1 (mkReader b None) ltac:(lia) Hv) as Hr.
  unfold read_slice, read_exact.
  change (content (mkReader b None)) with (rcontent (mkReader b None)) in Hr.
  destruct (rcontent (mkReader b None)) as [|x l].
  - destruct Hr as (r' & ->). done.
  - destruct Hr as (r' & -> & _). done.
Qed.

(** ** Codecs: a serializer and the deserializer that inverts it *)

Class Codec {T} (s : Serializable T) (d : Deserializable T) (wf : T → Prop) : Prop := {
  codec_stream v st : ser s v st = append_slice (serialize s v) st;
  codec_size v : wf v → serialized_size s v = Z.of_nat (length (serialize s v));
  codec_decodes v : wf v → decodes d (serialize s v) v;
}.

Lemma append_slice_append a b st : append_slice b (append_slice a st) = append_slice (a ++ b) st.
Proof. unfold append_slice. simpl. by rewrite app_assoc. Qed.

Lemma append_slice_nil st : append_slice [] st = st.
Proof. unfold append_slice. destruct st. simpl. by rewrite app_nil_r. Qed.

Lemma codec_append {T} (s : Serializable T) d wf `{!Codec s d wf} v st :
  append s v st = append_slice (serialize s v) st.
Proof. apply codec_stream. Qed.

Lemma decodes_at_codec {T S} {R : Read S} {HS : ReadSource S}
    (s : Serializable T) d wf `{!Codec s d wf} v :
  wf v → decodes_at (read d : RM S T) (serialize s v) v.
Proof. intros Hv. exact (codec_decodes v Hv S R HS). Qed.

Create Rewrite HintDb ser.
#[export] Hint Rewrite append_slice_append : ser.

Lemma decodes_at_de_le {S} `{ReadSource S} n z :
  decodes_at (read (de_le n) : RM S _) (le_bytes n z) (z mod 2 ^ (8 * Z.of_nat n)).
Proof.
  unfold read, de_le. apply decodes_at_app_nil.
  eapply decodes_at_bind; [apply decodes_at_read_slice, length_le_bytes|].
  rewrite le_val_le_bytes_mod. apply decodes_at_ret.
Qed.

#[global] Instance le_codec n : Codec (ser_le n) (de_le n) (fits (8 * Z.of_nat n)).
Proof.
  split.
  - done.
  - intros v _. unfold serialize, append. simpl. by rewrite length_le_bytes.
  - intros v Hv S R HS. pose proof (@decodes_at_de_le S R HS n v) as Hd.
    by rewrite Z.mod_small in Hd by done.
Qed.

#[global] Instance u8_codec : Codec ser_u8 de_u8 u8 := le_codec 1.
#[global] Instance u16_codec : Codec ser_u16 de_u16 u16 := le_codec 2.
#[global] Instance u32_codec : Codec ser_u32 de_u32 u32 := le_codec 4.
#[global] Instance u64_codec : Codec ser_u64 de_u64 u64 := le_codec 8.

Lemma to_signed_mod w z : 0 < w → - 2 ^ (w - 1) ≤ z < 2 ^ (w - 1) →
  to_signed w (z mod 2 ^ w) = z.
Proof.
  intros Hw Hz. unfold to_signed.
  assert (2 ^ w = 2 * 2 ^ (w - 1)) as E.
  { rewrite <-Z.pow_succ_r by lia. f_equal. lia. }
  destruct (decide (0 ≤ z)).
  - rewrite Z.mod_small by lia. rewrite (proj2 (Z.ltb_lt _ _)) by lia. done.
  - replace (z mod 2 ^ w) with (z + 2 ^ w).
    + rewrite (proj2 (Z.ltb_ge _ _)) by lia. lia.
    + rewrite <-(Z.mod_small (z + 2 ^ w) (2 ^ w)) by lia.
      rewrite <-(Z.mul_1_l (2 ^ w)) at 1. apply Z_mod_plus_full.
Qed.

#[global] Instance i32_codec : Codec ser_i32 de_i32 (λ z, - 2 ^ 31 ≤ z < 2 ^ 31).
Proof.
  split; [done|done|].
  - intros v Hv S R HS. apply decodes_at_app_nil. unfold de_i32.
    eapply decodes_at_bind; [apply (decodes_at_de_le 4)|].
    rewrite to_signed_mod by (simpl; lia). apply decodes_at_ret.
Qed.

#[global] Instance i64_codec : Codec ser_i64 de_i64 (λ z, - 2 ^ 63 ≤ z < 2 ^ 63).
Proof.
  split; [done|done|].
  - intros v Hv S R HS. apply decodes_at_app_nil. unfold de_i64.
    eapply decodes_at_bind; [apply (decodes_at_de_le 8)|].
    rewrite to_signed_mod by (simpl; lia). apply decodes_at_ret.
Qed.

#[global] Instance bool_codec : Codec ser_bool de_bool (λ _, True).
Proof.
  split; [done|done|]. intros [] _ S R HS; apply decodes_at_app_nil; unfold de_bool.
  - apply (decodes_at_bind _ _ (le_bytes 1 1) [] 1 true);
      [apply (decodes_at_de_le 1)|apply decodes_at_ret].
  - apply (decodes_at_bind _ _ (le_bytes 1 0) [] 0 false);
      [apply (decodes_at_de_le 1)|apply decodes_at_ret].
Qed.

(** The four forms of a compact integer. *)
Lemma serialize_compact_integer i : u64 i →
  serialize ser_compact_integer i =
    (if i <=? 0xfc then le_bytes 1 i
     else if i <=? 0xffff then le_bytes 1 0xfd ++ le_bytes 2 i
     else if i <=? 0xffffffff then le_bytes 1 0xfe ++ le_bytes 4 i
     else le_bytes 1 0xff ++ le_bytes 8 i).
Proof.
  intros [? ?]. unfold serialize, append. simpl.
  repeat case_match; bool_props; simpl; rewrite ?wrap_small by (unfold fits; lia); done.
Qed.

#[global] Instance compact_integer_codec :
  Codec ser_compact_integer de_compact_integer u64.
Proof.
  split.
  - intros v [b]. unfold serialize, append. simpl. unfold append, append_slice. simpl.
    repeat case_match; simpl; unfold append_slice; simpl; by rewrite <-?app_assoc.
  - intros v Hv. rewrite serialize_compact_integer by done. simpl.
    by repeat case_match.
  - intros v Hv S R HS. rewrite serialize_compact_integer by done.
    destruct Hv as [? ?]. unfold de_compact_integer.
    assert (∀ (n : nat) (t : Z) (k : Z → RM S Z), fits 8 t → k t = read (de_le n) →
      fits (8 * Z.of_nat n) v → decodes_at (read de_u8 ≫= k) (le_bytes 1 t ++ le_bytes n v) v)
      as Htag.
    { intros n t k Ht Hk Hv. eapply decodes_at_bind.
      - exact (decodes_at_codec ser_u8 de_u8 _ t Ht).
      - rewrite Hk. exact (decodes_at_codec (ser_le n) (de_le n) _ v Hv). }
    repeat case_match; bool_props.
    + apply decodes_at_app_nil. eapply decodes_at_bind.
      * apply (decodes_at_codec ser_u8 de_u8 _ v). unfold fits. lia.
      * rewrite (proj2 (Z.leb_le v 0xfc)) by done. apply decodes_at_ret.
    + apply (Htag 2%nat 0xfd); unfold fits; [lia|done|lia].
    + apply (Htag 4%nat 0xfe); unfold fits; [lia|done|lia].
    + apply (Htag 8%nat 0xff); unfold fits; [lia|done|lia].
Qed.

#[global] Instance bytes_codec :
  Codec ser_bytes de_bytes (λ bs, u64 (Z.of_nat (length bs))).
Proof.
  assert (∀ bs st, ser ser_bytes bs st =
    append_slice (serialize ser_compact_integer (Z.of_nat (length bs)) ++ bs) st) as Hser.
  { intros. cbn [ser ser_bytes]. rewrite (codec_append _ de_compact_integer u64).
    by rewrite append_slice_append. }
  assert (∀ bs, serialize ser_bytes bs =
    serialize ser_compact_integer (Z.of_nat (length bs)) ++ bs) as Hs.
  { intros. unfold serialize at 1, append. rewrite Hser. done. }
  split.
  - intros. by rewrite Hser, Hs.
  - intros bs Hbs. rewrite Hs, length_app. cbn [serialized_size ser_bytes].
    rewrite (codec_size (d:=de_compact_integer)) by done. lia.
  - intros bs Hbs S R HS. rewrite Hs. eapply decodes_at_bind.
    + by apply (decodes_at_codec ser_compact_integer de_compact_integer u64).
    + rewrite Nat2Z.id. by apply decodes_at_read_slice.
Qed.

#[global] Instance hash_codec n : Codec (ser_hash n) (de_hash n) (λ _, True).
Proof.
  split; [done| |].
  - intros v _. unfold serialize, append. simpl. by rewrite hash_length.
  - intros v _ S R HS. apply decodes_at_app_nil. unfold de_hash.
    change (serialize (ser_hash n) v) with (hash_bytes v).
    eapply decodes_at_bind; [apply decodes_at_read_slice, hash_length|].
    rewrite hash_of_bytes. apply decodes_at_ret.
Qed.

(** An [Integer] is written as the digits of its absolute value: only a
    non-negative one is read back. *)
Definition integer_wf {R : RugOps} (z : Z) : Prop :=
  0 ≤ z ∧ u64 (Z.of_nat (length (rug_to_digits_msf z))).

#[global] Instance integer_codec {R : RugOps} {RL : RugLaws R} :
  Codec ser_integer de_integer integer_wf.
Proof.
  assert (∀ z, serialize ser_integer z = serialize ser_bytes (rug_to_digits_msf z)) as Hs by done.
  split.
  - intros z st. rewrite Hs. apply (codec_stream (s:=ser_bytes) (d:=de_bytes)).
  - intros z [_ Hz]. rewrite Hs. by apply (codec_size (s:=ser_bytes) (d:=de_bytes)).
  - intros z [Hz Hlen] S HR HS. rewrite Hs. apply decodes_at_app_nil.
    eapply decodes_at_bind.
    + by apply (decodes_at_codec ser_bytes de_bytes _ (rug_to_digits_msf z)).
    + rewrite rug_digits_msf, Z.abs_eq by done. apply decodes_at_ret.
Qed.

Lemma foldl_ser {T} (s : Serializable T) d wf `{!Codec s d wf} l st :
  foldl (λ st i, ser s i st) st l = append_slice (concat (serialize s <$> l)) st.
Proof.
  revert st. induction l as [|x l IH]; intros st; simpl; [by rewrite append_slice_nil|].
  by rewrite IH, codec_stream, append_slice_append.
Qed.

Lemma serialize_list_eq {T} (s : Serializable T) d wf `{!Codec s d wf} l :
  serialize_list s l =
    serialize ser_compact_integer (Z.of_nat (length l)) ++ concat (serialize s <$> l).
Proof.
  unfold serialize_list, append_list. erewrite foldl_ser by done.
  rewrite (codec_stream (d:=de_compact_integer)). by rewrite append_slice_append.
Qed.

Lemma decodes_at_read_n {T S} {R : Read S} {HS : ReadSource S}
    (s : Serializable T) d wf `{!Codec s d wf} l :
  Forall wf l →
  decodes_at (read_n d (length l) : RM S _) (concat (serialize s <$> l)) l.
Proof.
  induction 1 as [|x l Hx _ IH]; simpl; [apply decodes_at_ret|].
  eapply decodes_at_bind; [by apply (decodes_at_codec s d wf)|].
  apply decodes_at_app_nil. eapply decodes_at_bind; [apply IH|]. apply decodes_at_ret.
Qed.

Definition list_wf {T} (wf : T → Prop) (l : list T) : Prop :=
  u64 (Z.of_nat (length l)) ∧ Forall wf l.

Lemma append_list_stream {T} (s : Serializable T) d wf `{!Codec s d wf} l st :
  append_list s l st = append_slice (serialize_list s l) st.
Proof.
  erewrite serialize_list_eq by done. unfold append_list. erewrite foldl_ser by done.
  by rewrite (codec_stream (d:=de_compact_integer)), append_slice_append.
Qed.

Lemma decodes_at_read_list {T S} {R : Read S} {HS : ReadSource S}
    (s : Serializable T) d wf `{!Codec s d wf} l :
  list_wf wf l → decodes_at (read (read_list d) : RM S _) (serialize_list s l) l.
Proof.
  intros [Hlen Hl]. erewrite serialize_list_eq by done. eapply decodes_at_bind.
  - by apply (decodes_at_codec ser_compact_integer de_compact_integer u64).
  - rewrite Nat2Z.id. by eapply decodes_at_read_n.
Qed.

#[global] Instance list_codec {T} (s : Serializable T) d wf `{!Codec s d wf} :
  Codec (ser_list s) (de_list d) (list_wf wf).
Proof.
  split.
  - intros l st. by eapply append_list_stream.
  - done.
  - intros l Hl S R HS. by eapply decodes_at_read_list.
Qed.

Lemma serialized_list_size_eq {T} (s : Serializable T) d wf `{!Codec s d wf} l :
  list_wf wf l → serialized_list_size s l = Z.of_nat (length (serialize_list s l)).
Proof.
  intros [Hlen Hl]. unfold serialized_list_size. erewrite serialize_list_eq by done.
  rewrite (codec_size (d:=de_compact_integer)) by done. rewrite length_app, Nat2Z.inj_add.
  f_equal. clear Hlen. induction Hl as [|x l Hx _ IH]; [done|].
  rewrite !fmap_cons. cbn [foldr concat].
  by rewrite length_app, Nat2Z.inj_add, <-IH, codec_size.
Qed.

(** A value is decoded from a buffer that holds exactly its encoding, a buffer
    with bytes after it is refused with [UnreadData], and every proper prefix
    of the encoding with [UnexpectedEnd]. *)
Definition decodes_exactly {T S} {R : Read S} {HS : ReadSource S}
    (d : Deserializable T) (bs : list byte) (v : T) (buf : S) : Prop :=
  (content buf = bs → deserialize d buf = Ok v) ∧
  (∀ b rest, content buf = bs ++ b :: rest → deserialize d buf = Err UnreadData) ∧
  (∀ b rest, content buf ++ b :: rest = bs → deserialize d buf = Err UnexpectedEnd).

Lemma deserialize_decodes {T S} {R : Read S} {HS : ReadSource S}
    (d : Deserializable T) bs v (buf : S) :
  decodes d bs v → valid buf → decodes_exactly d bs v buf.
Proof.
  intros Hd Hbuf. destruct (Hd S R HS) as [Hok Hend].
  unfold decodes_exactly, deserialize, read. split; [|split].
  - intros E. destruct (Hok (from_read buf) []) as (r' & -> & Hr' & Hv' & _); [done|by rewrite app_nil_r|].
    by rewrite is_finished_spec, Hr'.
  - intros b rest E. destruct (Hok (from_read buf) (b :: rest)) as (r' & -> & Hr' & Hv' & _); [done|done|].
    by rewrite is_finished_spec, Hr'.
  - intros b rest E. destruct (Hend (from_read buf) (b :: rest)) as (r' & ->); [done|by symmetry|done..].
Qed.

(** The case of a byte slice. *)
Lemma deserialize_serialize {T} (s : Serializable T) d wf `{!Codec s d wf} v :
  wf v → deserialize d (serialize s v) = Ok v.
Proof.
  intros Hv. destruct (deserialize_decodes d (serialize s v) v (serialize s v)) as [Hok _];
    [by apply codec_decodes|done|]. by apply Hok.
Qed.

(** A reader as a source that, started without a look-ahead byte, never has
    one. *)
Program Definition reader_source_from {S} `{ReadSource S} (r0 : Reader S) :
    ReadSource (Reader S) :=
  {| content := rcontent;
     valid r := rvalid r ∧ (peeked r0 = None → peeked r = None) |}.
Next Obligation.
  intros S R HS r0 n r c r' [Hv Hp] E.
  pose proof (io_read_spec (ReadSource:=reader_source) n r c r' Hv E) as (? & ? & ? & ?).
  split_and!; try done. intros Hr0. specialize (Hp Hr0).
  unfold io_read, reader_read in E. rewrite Hp in E.
  destruct (io_read n (buffer r)). by injection E as <- <-.
Qed.

(** Through a proxy the closure is shown exactly the bytes of the value. *)
Lemma decodes_read_with_proxy {T} (d : Deserializable T) bs v :
  decodes d bs v → decodes (read_with_proxy d) bs (v, bs).
Proof.
  intros Hd S R HS. split; unfold read_with_proxy.
  - intros r rest Hv E.
    destruct (Hd _ _ (@proxy_source _ _ (reader_source_from r) (rcontent r))) as [Hok _].
    destruct (Hok (from_read (mkProxy r [])) rest)
      as ([[r' seen] pk] & -> & Hr' & [[Hv' Hp'] Ht] & Hp); [done|done|].
    specialize (Hp eq_refl). simpl in *. subst pk.
    exists r'. change (rcontent r' = rest) in Hr'.
    change (seen ++ rcontent r' = rcontent r) in Ht. rewrite Hr', E in Ht.
    apply app_inv_tail in Ht as ->. done.
  - intros r miss Hv E Hne.
    destruct (Hd _ _ (@proxy_source _ _ (reader_source_from r) (rcontent r))) as [_ Hend].
    destruct (Hend (from_read (mkProxy r [])) miss) as (r' & ->); [done..|]. by eexists.
Qed.

(** ** The wire format is exact *)

(** For every type of the wire format (integers, compact integers, hashes,
    byte strings, big integers, lists of these, and the composite types built
    on them) and every [io::Read] source, also one that returns fewer bytes
    than asked for: [deserialize] returns the value from a buffer that holds
    exactly its encoding, [UnreadData] when bytes follow the encoding and
    [UnexpectedEnd] on each proper prefix of it; the size computed by
    [serialized_size] is the length of the encoding. *)
Theorem deserialize_codec {T S} {R : Read S} {HS : ReadSource S}
    (s : Serializable T) d wf `{!Codec s d wf} (v : T) (buf : S) :
  wf v → valid buf →
  serialized_size s v = Z.of_nat (length (serialize s v)) ∧
  decodes_exactly d (serialize s v) v buf.
Proof.
  intros Hv Hbuf. split; [by apply codec_size|].
  apply deserialize_decodes; [by apply codec_decodes|done].
Qed.

(** A list of integers of different widths, read from a slice one byte short. *)
Lemma deserialize_codec_witness :
  list_wf u64 [5; 300; 70000; 2 ^ 40] ∧
  deserialize (de_list de_compact_integer)
    (serialize (ser_list ser_compact_integer) [5; 300; 70000; 2 ^ 40]) = Ok [5; 300; 70000; 2 ^ 40].
Proof.
  assert (list_wf u64 [5; 300; 70000; 2 ^ 40]) as Hwf
    by (split; [done|repeat constructor; done]).
  split; [exact Hwf|].
  exact (proj1 (proj2 (deserialize_codec (ser_list ser_compact_integer)
    (de_list de_compact_integer) (list_wf u64) [5; 300; 70000; 2 ^ 40]
    (serialize (ser_list ser_compact_integer) [5; 300; 70000; 2 ^ 40]) Hwf I)) eq_refl).
Defined.

(** A list is written as its length and its elements, [serialized_list_size]
    is the number of bytes written, and [read_list_max] reads it back exactly
    when its length is within the limit and otherwise reports
    [MalformedData] after the length was read. *)
Theorem list_limit {T S} {R : Read S} {HS : ReadSource S}
    (s : Serializable T) d wf `{!Codec s d wf} (l : list T) (max : Z) (r : Reader S) rest :
  list_wf wf l → rvalid r → rcontent r = serialize_list s l ++ rest →
  serialized_list_size s l = Z.of_nat (length (serialize_list s l)) ∧
  ∃ r', read (read_list_max d max) r =
      ((if Z.of_nat (length l) <=? max then Ok l else Err MalformedData), r') ∧
    (Z.of_nat (length l) ≤ max → rcontent r' = rest).
Proof.
  intros Hl Hv E. split; [by eapply serialized_list_size_eq|].
  erewrite serialize_list_eq in E by done. rewrite <-app_assoc in E.
  destruct Hl as [Hlen Hl].
  destruct (decodes_at_codec (S:=S) ser_compact_integer de_compact_integer u64 _ Hlen) as [Hok _].
  destruct (Hok r _ Hv E) as (r1 & E1 & Hr1 & Hv1 & _).
  unfold read at 1, read_list_max, mbind, RM_bind. rewrite E1. rewrite Nat2Z.id.
  rewrite Z.ltb_antisym. destruct (Z.leb_spec (Z.of_nat (length l)) max) as [Hm|Hm]; simpl.
  - destruct (decodes_at_read_n (S:=S) s d wf l Hl) as [Hn _].
    destruct (Hn r1 rest Hv1 Hr1) as (r2 & -> & ? & _). by exists r2.
  - exists r1. split; [done|lia].
Qed.

Lemma list_limit_witness :
  ∃ r', read (read_list_max de_u16 2) (from_read (serialize_list ser_u16 [7; 8; 9]))
        = (Err MalformedData, r').
Proof.
  destruct (proj2 (list_limit ser_u16 de_u16 u16 [7; 8; 9] 2
    (from_read (serialize_list ser_u16 [7; 8; 9])) []
    ltac:(split; [done|repeat constructor; done]) I ltac:(by rewrite app_nil_r)))
    as (r' & Hr' & _).
  by exists r'.
Defined.
