(* ===== verification/Compact.v ===== *)
(** * Compact difficulty targets ([primitives/src/compact.rs])

    A [Compact] packs a 256-bit target into 32 bits: one byte of size in bytes,
    a sign bit and a 23-bit mantissa.  [to_u256] unpacks it, reporting the value
    in [Err] when it is negative or too large; [from_u256] packs, rounding
    down.  [from_u256] has two assertions; [None] is their failure. *)

From S2P Require Import Prelude External Primitives Serialization.

(** src: primitives/src/compact.rs 6-7 Compact *)
Record Compact := mkCompact { compact_u32 : Z }.

#[global] Instance Compact_eq_dec : EqDecision Compact.
Proof. solve_decision. Defined.

Section compact.
Context {U : U256Ops}.

(** src: primitives/src/compact.rs 43-65 to_u256 *)
Definition to_u256 (c : Compact) : result Z Z :=
  let self := compact_u32 c in
  let size := Z.shiftr self 24 in
  let word0 := Z.land self 0x007fffff in
  let word := if size <=? 3 then Z.shiftr word0 (8 * (3 - size)) else word0 in
  let result := if size <=? 3 then word else u256_shl word0 (8 * (size - 3)) in
  let is_negative := negb (word =? 0) && negb (Z.land self 0x00800000 =? 0) in
  let is_overflow :=
    (negb (word =? 0) && (34 <? size)) || ((0xff <? word) && (33 <? size))
    || ((0xffff <? word) && (32 <? size)) in
  if is_negative || is_overflow then Err result else Ok result.

(** src: primitives/src/compact.rs 67-84 from_u256 *)
Definition from_u256 (val : Z) : option Compact :=
  let size := (u256_bits val + 7) / 8 in
  let compact :=
    if size <=? 3
    then wrap 32 (wrap 64 (Z.shiftl (u256_low_u64 val) (8 * (3 - size))))
    else u256_low_u32 (u256_shr val (8 * (size - 3))) in
  let '(compact, size) :=
    if negb (Z.land compact 0x00800000 =? 0)
    then (Z.shiftr compact 8, size + 1)
    else (compact, size) in
  _ ← rust_assert (Z.land compact (U32_MAX - 0x007fffff) =? 0);
  _ ← rust_assert (size <? 256);
  Some (mkCompact (Z.lor compact (wrap 32 (Z.shiftl size 24)))).

(** src: primitives/src/compact.rs 39-41 max_value *)
Definition compact_max_value : option Compact := from_u256 U256_MAX.

(** [From<Compact> for U256]: overflow and sign are ignored. *)
(** src: primitives/src/compact.rs 27-32 from *)
Definition u256_of_compact (c : Compact) : Z :=
  match to_u256 c with Ok v => v | Err v => v end.
End compact.

(** src: serialization/src/impls.rs 269-273 Compact *)
Definition ser_compact : Serializable Compact :=
  mkSerializable (λ c, append ser_u32 (compact_u32 c))
    (default_serialized_size (λ c, append ser_u32 (compact_u32 c))).

(** src: serialization/src/impls.rs 275-282 Compact *)
Definition de_compact : Deserializable Compact := λ S _,
  u ← read de_u32; mret (mkCompact u).

#[global] Instance compact_codec : Codec ser_compact de_compact (λ c, u32 (compact_u32 c)).
Proof.
  split; [done|done|].
  intros [c] Hc S R HS. apply decodes_at_app_nil. eapply decodes_at_bind.
  - by apply (decodes_at_codec ser_u32 de_u32 u32 c).
  - apply decodes_at_ret.
Qed.

(** ** Bit fields as arithmetic *)

Lemma lor_shiftl_add a b n : 0 ≤ n → 0 ≤ a < 2 ^ n → Z.lor a (Z.shiftl b n) = a + b * 2 ^ n.
Proof.
  intros Hn Ha. rewrite <-Z.shiftl_mul_pow2 by done.
  assert (Z.land a (Z.shiftl b n) = 0) as Hland.
  { apply Z.bits_inj'. intros m Hm. rewrite Z.land_spec, Z.bits_0.
    destruct (decide (m < n)).
    - rewrite (Z.shiftl_spec_low b) by lia. by rewrite andb_false_r.
    - rewrite <-(Z.mod_small a (2 ^ n)), Z.mod_pow2_bits_high by lia. done. }
  rewrite Z.add_nocarry_lxor by done. symmetry. by apply Z.lxor_lor.
Qed.

Lemma land_bit23 z : 0 ≤ z < 2 ^ 24 → (Z.land z 0x800000 =? 0) = (z <? 2 ^ 23).
Proof.
  intros Hz. destruct (Z.ltb_spec z (2 ^ 23)).
  - apply Z.eqb_eq. apply Z.bits_inj'. intros m Hm. rewrite Z.land_spec, Z.bits_0.
    change 0x800000 with (2 ^ 23). destruct (decide (m = 23)) as [->|].
    + rewrite <-(Z.mod_small z (2 ^ 23)), Z.mod_pow2_bits_high by lia. done.
    + rewrite Z.pow2_bits_false by done. by rewrite andb_false_r.
  - apply Z.eqb_neq. intros E. apply (f_equal (λ x, Z.testbit x 23)) in E.
    rewrite Z.land_spec, Z.bits_0 in E. change (Z.testbit 0x800000 23) with true in E.
    rewrite andb_true_r in E. apply Z.testbit_false in E; [|lia].
    replace (z / 2 ^ 23) with 1 in E; [done|].
    apply Z.div_unique with (z - 2 ^ 23); lia.
Qed.

Lemma land_bit23_mod z : 0 ≤ z → (Z.land z 0x800000 =? 0) = (z mod 2 ^ 24 <? 2 ^ 23).
Proof.
  intros Hz. rewrite <-land_bit23 by (apply Z.mod_pos_bound; lia). f_equal.
  apply Z.bits_inj'. intros m Hm. rewrite !Z.land_spec. change 0x800000 with (2 ^ 23).
  destruct (decide (m = 23)) as [->|].
  - by rewrite Z.mod_pow2_bits_low by lia.
  - rewrite Z.pow2_bits_false by done. by rewrite !andb_false_r.
Qed.

Lemma land_mask23 z : Z.land z 0x7fffff = z mod 2 ^ 23.
Proof. change 0x7fffff with (Z.ones 23). by apply Z.land_ones. Qed.

Lemma land_high_mask z : 0 ≤ z < 2 ^ 23 → Z.land z (U32_MAX - 0x7fffff) = 0.
Proof.
  intros Hz. apply Z.bits_inj'. intros m Hm. rewrite Z.land_spec, Z.bits_0.
  replace (U32_MAX - 0x7fffff) with (Z.shiftl 0x1ff 23) by done.
  destruct (decide (m < 23)).
  - rewrite Z.shiftl_spec_low by lia. by rewrite andb_false_r.
  - rewrite <-(Z.mod_small z (2 ^ 23)), Z.mod_pow2_bits_high by lia. done.
Qed.

(** ** Packing and unpacking *)

(** The packed value with a given mantissa and size. *)
Definition pack (word size : Z) : Compact := mkCompact (word + size * 2 ^ 24).

(** [word] and [size] are the normalised mantissa and size of [v]: at least 16
    of the 23 bits of the mantissa are significant. *)
Definition normal (v word size : Z) : Prop :=
  0 ≤ size ∧ 2 ^ 15 ≤ word < 2 ^ 23 ∧ word = v * 2 ^ 24 / 2 ^ (8 * size).

Lemma normal_unique v w1 s1 w2 s2 :
  0 ≤ v → normal v w1 s1 → normal v w2 s2 → w1 = w2 ∧ s1 = s2.
Proof.
  assert (∀ w1 s1 w2 s2, 0 ≤ v → normal v w1 s1 → normal v w2 s2 → ¬ s1 < s2) as Hlt.
  { clear. intros w1 s1 w2 s2 Hv (? & ? & E1) (? & ? & E2) Hlt.
    replace (8 * s2) with (8 * s1 + 8 + 8 * (s2 - s1 - 1)) in E2 by lia.
    rewrite !Z.pow_add_r in E2 by lia.
    pose proof (pow2_pos (8 * s1) ltac:(lia)).
    pose proof (pow2_pos (8 * (s2 - s1 - 1)) ltac:(lia)).
    rewrite <-!Z.div_div, <-E1 in E2 by lia.
    pose proof (Z.div_le_upper_bound (w1 / 2 ^ 8) (2 ^ (8 * (s2 - s1 - 1))) (w1 / 2 ^ 8)) as Hd.
    assert (w1 / 2 ^ 8 < 2 ^ 15) by (apply Z.div_lt_upper_bound; lia).
    assert (0 ≤ w1 / 2 ^ 8) by (apply Z.div_pos; lia).
    assert (w2 ≤ w1 / 2 ^ 8) by (rewrite E2; apply Hd; nia). lia. }
  intros Hv H1 H2. assert (s1 = s2) as -> by
    (pose proof (Hlt _ _ _ _ Hv H1 H2); pose proof (Hlt _ _ _ _ Hv H2 H1); lia).
  destruct H1 as (? & ? & ->), H2 as (? & ? & ->). done.
Qed.

Lemma pack_fields word size : 0 ≤ word < 2 ^ 23 → 0 ≤ size →
  Z.shiftr (word + size * 2 ^ 24) 24 = size ∧
  Z.land (word + size * 2 ^ 24) 0x7fffff = word ∧
  (Z.land (word + size * 2 ^ 24) 0x800000 =? 0) = true.
Proof.
  intros Hw Hs. split_and!.
  - rewrite Z.shiftr_div_pow2, Z.div_add, Z.div_small by lia. lia.
  - rewrite land_mask23. change (2 ^ 24) with (2 * 2 ^ 23).
    rewrite Z.mul_assoc, Z_mod_plus_full. apply Z.mod_small. lia.
  - rewrite land_bit23_mod, Z_mod_plus_full, Z.mod_small by lia.
    apply Z.ltb_lt. lia.
Qed.

Section compact_laws.
Context {U : U256Ops} {UL : U256Laws U}.

Lemma to_u256_pack word size :
  0 ≤ word < 2 ^ 23 → 0 ≤ size ≤ 34 → word * 2 ^ (8 * size) < 2 ^ 280 →
  to_u256 (pack word size) = Ok (word * 2 ^ (8 * size) / 2 ^ 24).
Proof.
  intros Hw Hs Hlt. unfold to_u256, pack. cbn [compact_u32].
  destruct (pack_fields word size) as (-> & -> & ->); [lia..|].
  rewrite andb_false_r. rewrite orb_false_l.
  destruct (Z.leb_spec size 3) as [H3|H3].
  - rewrite !(proj2 (Z.ltb_ge _ size)) by lia. rewrite !andb_false_r. f_equal.
    rewrite Z.shiftr_div_pow2 by lia.
    replace (2 ^ 24) with (2 ^ (8 * (3 - size)) * 2 ^ (8 * size)).
    + rewrite Z.div_mul_cancel_r; [done|apply Z.pow_nonzero; lia..].
    + rewrite <-Z.pow_add_r by lia. f_equal. lia.
  - assert (2 ^ (8 * size) = 2 ^ (8 * (size - 3)) * 2 ^ 24) as Ep.
    { rewrite <-Z.pow_add_r by lia. f_equal. lia. }
    rewrite Ep in Hlt |- *. rewrite Z.mul_assoc, Z.div_mul by lia.
    assert (word * 2 ^ (8 * (size - 3)) < 2 ^ 256) as Hlt' by lia.
    rewrite u256_shl_exact by (unfold fits in *; lia).
    replace (negb (word =? 0) && (34 <? size)) with false by lia.
    replace ((0xff <? word) && (33 <? size)) with false.
    2: { destruct (Z.ltb_spec 33 size); [|by rewrite andb_false_r].
         replace size with 34 in * by lia. simpl in Hlt'. lia. }
    replace ((0xffff <? word) && (32 <? size)) with false; [done|].
    destruct (Z.ltb_spec 32 size); [|by rewrite andb_false_r].
    assert (size = 33 ∨ size = 34) as [-> | ->] by lia; simpl in Hlt'; lia.
Qed.

(** Byte length of a positive number, as [from_u256] computes it. *)
Lemma byte_length_bounds v : 0 < v →
  let s := (Z.log2 v + 1 + 7) / 8 in 1 ≤ s ∧ 2 ^ (8 * (s - 1)) ≤ v < 2 ^ (8 * s).
Proof.
  intros Hv s. pose proof (Z.log2_nonneg v).
  pose proof (Z.log2_spec v Hv) as [Hlo Hhi].
  pose proof (Z.div_mod (Z.log2 v + 1 + 7) 8 ltac:(lia)) as Hdm. fold s in Hdm.
  pose proof (Z.mod_pos_bound (Z.log2 v + 1 + 7) 8 ltac:(lia)).
  assert (1 ≤ s) by lia. split; [done|]. split.
  - etrans; [|apply Hlo]. apply Z.pow_le_mono_r; lia.
  - eapply Z.lt_le_trans; [apply Hhi|]. apply Z.pow_le_mono_r; lia.
Qed.

(** The mantissa before the sign bit is freed. *)
Lemma from_u256_mantissa v s : 0 < v < 2 ^ 256 → s = (Z.log2 v + 1 + 7) / 8 →
  (if s <=? 3
   then wrap 32 (wrap 64 (Z.shiftl (u256_low_u64 v) (8 * (3 - s))))
   else u256_low_u32 (u256_shr v (8 * (s - 3)))) = v * 2 ^ 24 / 2 ^ (8 * s) ∧
  2 ^ 16 ≤ v * 2 ^ 24 / 2 ^ (8 * s) < 2 ^ 24.
Proof.
  intros Hv Es. destruct (byte_length_bounds v) as (Hs & Hlo & Hhi); [lia|].
  rewrite <-Es in Hs, Hlo, Hhi.
  pose proof (pow2_pos (8 * s) ltac:(lia)).
  assert (2 ^ (8 * s) = 2 ^ (8 * (s - 1)) * 2 ^ 8) as E8
    by (rewrite <-Z.pow_add_r by lia; f_equal; lia).
  assert (2 ^ 16 ≤ v * 2 ^ 24 / 2 ^ (8 * s) < 2 ^ 24) as Hrange.
  { split; [apply Z.div_le_lower_bound|apply Z.div_lt_upper_bound]; lia. }
  split; [|done].
  destruct (Z.leb_spec s 3) as [H3|H3].
  - assert (2 ^ 24 = 2 ^ (8 * (3 - s)) * 2 ^ (8 * s)) as E24
      by (rewrite <-Z.pow_add_r by lia; f_equal; lia).
    assert (2 ^ (8 * s) ≤ 2 ^ 24) by (apply Z.pow_le_mono_r; lia).
    assert (v < 2 ^ 64) by (apply (Z.lt_le_trans _ _ _ Hhi); by transitivity (2 ^ 24)).
    rewrite u256_low_u64_spec by (unfold fits; lia).
    rewrite Z.mod_small by lia.
    rewrite Z.shiftl_mul_pow2 by lia.
    assert (v * 2 ^ 24 / 2 ^ (8 * s) = v * 2 ^ (8 * (3 - s))) as E.
    { rewrite E24, Z.mul_assoc, Z.div_mul; lia. }
    rewrite E in *. rewrite (wrap_small 64) by (unfold fits; lia).
    by rewrite wrap_small by (unfold fits; lia).
  - assert (2 ^ (8 * s) = 2 ^ (8 * (s - 3)) * 2 ^ 24) as E24
      by (rewrite <-Z.pow_add_r by lia; f_equal; lia).
    pose proof (pow2_pos (8 * (s - 3)) ltac:(lia)).
    rewrite u256_shr_spec by (unfold fits; lia).
    assert (v * 2 ^ 24 / 2 ^ (8 * s) = v / 2 ^ (8 * (s - 3))) as E.
    { rewrite E24, Z.div_mul_cancel_r; lia. }
    rewrite E in *.
    rewrite u256_low_u32_spec, Z.mod_small; [done|lia|unfold fits; lia].
Qed.

Lemma from_u256_normal v : 0 < v < 2 ^ 256 →
  ∃ word size, normal v word size ∧ size ≤ 33 ∧ from_u256 v = Some (pack word size).
Proof.
  intros Hv. unfold from_u256.
  rewrite u256_bits_spec by (unfold fits; lia). rewrite (proj2 (Z.eqb_neq v 0)) by lia.
  remember ((Z.log2 v + 1 + 7) / 8) as s eqn:Es.
  destruct (from_u256_mantissa v s Hv Es) as [-> Hc].
  destruct (byte_length_bounds v) as (Hs & Hlo & Hhi); [lia|].
  rewrite <-Es in Hs, Hlo, Hhi.
  assert (s ≤ 32) as Hs32.
  { apply Z.lt_succ_r, Z.lt_nge. intros Hge.
    assert (2 ^ 256 ≤ 2 ^ (8 * (s - 1))) by (apply Z.pow_le_mono_r; lia). lia. }
  remember (v * 2 ^ 24 / 2 ^ (8 * s)) as c0 eqn:Ec0.
  rewrite land_bit23 by lia. destruct (Z.ltb_spec c0 (2 ^ 23)) as [Hb|Hb]; simpl negb; cbn iota.
  - exists c0, s. split; [split_and!; [lia..|done]|]. split; [lia|].
    rewrite land_high_mask by lia. simpl. rewrite (proj2 (Z.ltb_lt s 256)) by lia. simpl.
    rewrite wrap_small by (unfold fits; rewrite Z.shiftl_mul_pow2; lia).
    by rewrite lor_shiftl_add by lia.
  - exists (c0 / 2 ^ 8), (s + 1).
    assert (2 ^ 15 ≤ c0 / 2 ^ 8 < 2 ^ 16) as Hc8
      by (split; [apply Z.div_le_lower_bound|apply Z.div_lt_upper_bound]; lia).
    split; [|split; [lia|]].
    { split_and!; [lia..|]. replace (8 * (s + 1)) with (8 * s + 8) by lia.
      rewrite Z.pow_add_r, <-Z.div_div, <-Ec0 by (try apply Z.pow_nonzero; lia). done. }
    rewrite Z.shiftr_div_pow2 by lia.
    rewrite land_high_mask by lia. simpl. rewrite (proj2 (Z.ltb_lt (s + 1) 256)) by lia. simpl.
    rewrite wrap_small by (unfold fits; rewrite Z.shiftl_mul_pow2; lia).
    by rewrite lor_shiftl_add by lia.
Qed.

Lemma from_u256_zero : from_u256 0 = Some (pack 0 0).
Proof.
  unfold from_u256. rewrite u256_bits_spec by (unfold fits; lia). simpl.
  rewrite u256_low_u64_spec by (unfold fits; lia). done.
Qed.

(** What [to_u256] makes of a normalised value. *)
Lemma normal_value v word size : 0 < v < 2 ^ 256 → normal v word size →
  let w := word * 2 ^ (8 * size) / 2 ^ 24 in
  0 < w ≤ v ∧ (v - w) * 2 ^ 15 ≤ v ∧ normal w word size ∧ (v < 2 ^ 23 → w = v) ∧
  word * 2 ^ (8 * size) < 2 ^ 280.
Proof.
  intros Hv (Hs & Hw & Ew) w.
  pose proof (pow2_pos (8 * size) ltac:(lia)) as Hp.
  set (P := 2 ^ (8 * size)) in *.
  pose proof (Z.div_mod (v * 2 ^ 24) P ltac:(lia)) as Hdm. rewrite <-Ew in Hdm.
  pose proof (Z.mod_pos_bound (v * 2 ^ 24) P Hp) as Hmod.
  set (r := (v * 2 ^ 24) mod P) in *.
  destruct (decide (size ≤ 3)) as [H3|H3].
  - (* the mantissa is exact *)
    assert (2 ^ 24 = 2 ^ (8 * (3 - size)) * P) as E24
      by (unfold P; rewrite <-Z.pow_add_r by lia; f_equal; lia).
    assert (r = 0) as Hr.
    { unfold r. rewrite E24, Z.mul_assoc. apply Z.mod_mul. lia. }
    assert (w = v) as ->.
    { unfold w. replace (word * P) with (v * 2 ^ 24) by lia. apply Z.div_mul. lia. }
    change (2 ^ 280) with (2 ^ 256 * 2 ^ 24).
    split_and!; try lia. done.
  - assert (P = 2 ^ (8 * (size - 3)) * 2 ^ 24) as E24
      by (unfold P; rewrite <-Z.pow_add_r by lia; f_equal; lia).
    pose proof (pow2_pos (8 * (size - 3)) ltac:(lia)) as HQ.
    set (Q := 2 ^ (8 * (size - 3))) in *.
    assert (2 ^ 8 ≤ Q) by (apply Z.pow_le_mono_r; lia).
    assert (w = word * Q) as ->.
    { unfold w. rewrite E24, Z.mul_assoc. apply Z.div_mul. lia. }
    assert (v < (word + 1) * Q) by lia.
    assert (word * Q ≤ v) by lia.
    change (2 ^ 280) with (2 ^ 256 * 2 ^ 24).
    split_and!; try nia.
    split_and!; [done|lia..|]. fold P. rewrite E24, Z.div_mul_cancel_r by lia.
    by rewrite Z.div_mul by lia.
Qed.

(** Packing rounds down, by less than one part in [2 ^ 15]. *)
Lemma from_u256_rounds v : fits 256 v →
  ∃ c w, from_u256 v = Some c ∧ u32 (compact_u32 c) ∧ to_u256 c = Ok w ∧
    0 ≤ w ≤ v ∧ (v - w) * 2 ^ 15 ≤ v ∧ from_u256 w = Some c ∧ (v < 2 ^ 23 → w = v) ∧
    compact_u32 c < 2 ^ 30.
Proof.
  intros Hv. destruct (decide (v = 0)) as [->|].
  - exists (pack 0 0), 0. rewrite from_u256_zero. rewrite to_u256_pack by done. done.
  - assert (0 < v < 2 ^ 256) as Hv' by (unfold fits in Hv; lia).
    destruct (from_u256_normal v Hv') as (word & size & Hn & Hs & E).
    destruct (normal_value v word size Hv' Hn) as (Hw & He & Hnw & Hx & Hl).
    pose proof Hn as (? & ? & _).
    exists (pack word size), (word * 2 ^ (8 * size) / 2 ^ 24).
    split_and!; try done; [|apply to_u256_pack; lia|apply Z.lt_le_incl, Hw|apply Hw| |].
    { clear -H H0 Hs. unfold fits, pack. simpl. lia. }
    2: { clear -H H0 Hs. unfold pack. simpl. lia. }
    destruct (from_u256_normal (word * 2 ^ (8 * size) / 2 ^ 24)) as (w2 & s2 & Hn2 & _ & ->); [lia|].
    destruct (normal_unique _ _ _ _ _ (Z.lt_le_incl _ _ (proj1 Hw)) Hn2 Hnw) as [-> ->]. done.
Qed.

(** An unpacked target is a 256-bit number. *)
Lemma to_u256_fits c v : u32 (compact_u32 c) → to_u256 c = Ok v → fits 256 v.
Proof.
  destruct c as [z]. simpl. intros [Hz Hz'] E. unfold to_u256 in E. cbn [compact_u32] in E.
  assert (0 ≤ Z.land z 0x7fffff < 2 ^ 23) as Hw.
  { rewrite land_mask23. apply Z.mod_pos_bound. lia. }
  assert (0 ≤ Z.shiftr z 24 < 256) as Hs.
  { rewrite Z.shiftr_div_pow2 by lia.
    split; [apply Z.div_pos; lia|apply Z.div_lt_upper_bound; lia]. }
  destruct (_ || _); [discriminate E|]. apply (inj Ok) in E. subst v.
  destruct (Z.leb_spec (Z.shiftr z 24) 3).
  - rewrite Z.shiftr_div_pow2 by lia. pose proof (pow2_pos (8 * (3 - Z.shiftr z 24)) ltac:(lia)).
    split; [apply Z.div_pos; lia|].
    apply Z.le_lt_trans with (Z.land z 0x7fffff); [|lia].
    apply Z.div_le_upper_bound; [lia|]. nia.
  - apply u256_shl_range; [unfold fits; lia|lia].
Qed.

(** The conversion that forgets errors gives a 256-bit number, whatever is packed. *)
Lemma u256_of_compact_fits c : fits 256 (u256_of_compact c).
Proof.
  assert (0 ≤ Z.land (compact_u32 c) 0x7fffff < 2 ^ 23) as Hw.
  { rewrite land_mask23. apply Z.mod_pos_bound. lia. }
  set (size := Z.shiftr (compact_u32 c) 24). set (word := Z.land (compact_u32 c) 0x7fffff) in *.
  assert (fits 256 (if size <=? 3 then if size <=? 3 then Z.shiftr word (8 * (3 - size)) else word
    else u256_shl word (8 * (size - 3)))) as Hf.
  { destruct (Z.leb_spec size 3) as [Hle|Hlt]; [|apply u256_shl_range; [unfold fits|]; lia].
    rewrite Z.shiftr_div_pow2 by lia. pose proof (pow2_pos (8 * (3 - size)) ltac:(lia)).
    split; [apply Z.div_pos; lia|]. apply Z.le_lt_trans with word; [|lia]. apply Z.div_le_upper_bound; [lia|]. nia. }
  unfold u256_of_compact, to_u256. cbv zeta. fold size word. destruct (_ || _); exact Hf.
Qed.

(** C28: packing a target and unpacking it again rounds it down, by less than
    one part in [2 ^ 15], never fails an assertion and never reports an
    overflow or a sign; a target below [2 ^ 23] is kept exactly, and the
    rounded target has the same packed form. *)
Theorem compact_roundtrip v : fits 256 v →
  ∃ c w, from_u256 v = Some c ∧ u32 (compact_u32 c) ∧ to_u256 c = Ok w ∧
    0 ≤ w ≤ v ∧ (v - w) * 2 ^ 15 ≤ v ∧ from_u256 w = Some c ∧ (v < 2 ^ 23 → w = v).
Proof.
  intros Hv. destruct (from_u256_rounds v Hv) as (c & w & ? & ? & ? & ? & ? & ? & ? & _).
  by exists c, w.
Qed.
End compact_laws.

(** The difficulty-1 target of the test networks, rounded to its mantissa. *)
Lemma compact_roundtrip_witness :
  fits 256 (2 ^ 255 + 12345) ∧
  ∃ c w, from_u256 (U := Reference.ref_u256_ops) (2 ^ 255 + 12345) = Some c ∧
    u32 (compact_u32 c) ∧ to_u256 (U := Reference.ref_u256_ops) c = Ok w ∧
    0 ≤ w ≤ 2 ^ 255 + 12345 ∧ (2 ^ 255 + 12345 - w) * 2 ^ 15 ≤ 2 ^ 255 + 12345 ∧
    from_u256 (U := Reference.ref_u256_ops) w = Some c ∧
    (2 ^ 255 + 12345 < 2 ^ 23 → w = 2 ^ 255 + 12345).
Proof.
  assert (fits 256 (2 ^ 255 + 12345)) as Hf by (unfold fits; lia).
  split; [exact Hf|].
  exact (compact_roundtrip (UL := Reference.ref_u256_laws) (2 ^ 255 + 12345) Hf).
Defined.
