(* ===== verification/Crypto.v ===== *)
(** * Digests ([crypto/src/lib.rs])

    The [Digest]s of [rust-crypto] are stateful: bytes are fed with [input] and
    the digest of everything fed since the last [reset] is the [result].  A
    hasher is modelled by the bytes it has been fed; the digest functions
    themselves are the parameters of [Sha256Ops]. *)

From S2P Require Import Prelude External Primitives.

Section crypto.
Context {H : Sha256Ops}.

(** A [rust-crypto] hasher: the bytes fed so far. *)
Definition Hasher := list byte.
Definition hasher_new : Hasher := [].
Definition hasher_input (h : Hasher) (d : list byte) : Hasher := h ++ d.
Definition hasher_reset (h : Hasher) : Hasher := [].

(** src: crypto/src/lib.rs 59-61 DHash256 *)
Record DHash256 := mkDHash256 { dh256_hasher : Hasher }.

(** src: crypto/src/lib.rs 63-74 new *)
Definition dhash256_new : DHash256 := mkDHash256 hasher_new.

(** src: crypto/src/lib.rs 84-86 input *)
Definition dhash256_input (d : DHash256) (bs : list byte) : DHash256 :=
  mkDHash256 (hasher_input (dh256_hasher d) bs).

(** The digest written to [out], and the hasher afterwards. *)
(** src: crypto/src/lib.rs 88-93 result *)
Definition dhash256_result (d : DHash256) : list byte * DHash256 :=
  let out := rcrypto_sha256 (dh256_hasher d) in
  let hasher := hasher_input (hasher_reset (dh256_hasher d)) out in
  (rcrypto_sha256 hasher, mkDHash256 hasher).

(** src: crypto/src/lib.rs 95-97 reset *)
Definition dhash256_reset (d : DHash256) : DHash256 :=
  mkDHash256 (hasher_reset (dh256_hasher d)).

(** src: crypto/src/lib.rs 76-80 finish *)
Definition dhash256_finish (d : DHash256) : H256 := hash_of (fst (dhash256_result d)).

(** src: crypto/src/lib.rs 13-16 DHash160 *)
Record DHash160 := mkDHash160 { dh160_sha256 : Hasher; dh160_ripemd : Hasher }.

(** src: crypto/src/lib.rs 18-31 new *)
Definition dhash160_new : DHash160 := mkDHash160 hasher_new hasher_new.

(** src: crypto/src/lib.rs 34-36 input *)
Definition dhash160_input (d : DHash160) (bs : list byte) : DHash160 :=
  mkDHash160 (hasher_input (dh160_sha256 d) bs) (dh160_ripemd d).

(** src: crypto/src/lib.rs 38-44 result *)
Definition dhash160_result (d : DHash160) : list byte * DHash160 :=
  let tmp := rcrypto_sha256 (dh160_sha256 d) in
  let ripemd := hasher_input (dh160_ripemd d) tmp in
  (rcrypto_ripemd160 ripemd, mkDHash160 (dh160_sha256 d) (hasher_reset ripemd)).

(** src: crypto/src/lib.rs 46-48 reset *)
Definition dhash160_reset (d : DHash160) : DHash160 :=
  mkDHash160 (hasher_reset (dh160_sha256 d)) (dh160_ripemd d).

(** src: crypto/src/lib.rs 110-116 ripemd160 *)
Definition ripemd160 (input : list byte) : H160 :=
  hash_of (rcrypto_ripemd160 (hasher_input hasher_new input)).

(** src: crypto/src/lib.rs 120-126 sha1 *)
Definition sha1 (input : list byte) : H160 :=
  hash_of (rcrypto_sha1 (hasher_input hasher_new input)).

(** src: crypto/src/lib.rs 130-136 sha256 *)
Definition sha256 (input : list byte) : H256 :=
  hash_of (rcrypto_sha256 (hasher_input hasher_new input)).

(** src: crypto/src/lib.rs 140-146 dhash160 *)
Definition dhash160 (input : list byte) : H160 :=
  hash_of (fst (dhash160_result (dhash160_input dhash160_new input))).

(** src: crypto/src/lib.rs 150-156 dhash256 *)
Definition dhash256 (input : list byte) : H256 :=
  hash_of (fst (dhash256_result (dhash256_input dhash256_new input))).

(** src: crypto/src/lib.rs 160-164 siphash24 *)
Definition siphash24 (key0 key1 : Z) (input : list byte) : Z :=
  siphasher_sip24 key0 key1 input.

(** src: crypto/src/lib.rs 168-172 checksum *)
Definition checksum (data : list byte) : H32 :=
  hash_of (take 4 (hash_bytes (dhash256 data))).

Lemma dhash256_bytes {L : Sha256Laws H} bs :
  hash_bytes (dhash256 bs) = rcrypto_sha256 (rcrypto_sha256 bs).
Proof. apply hash_bytes_of, rcrypto_sha256_length. Qed.

(** A digest fed in chunks is the digest of their concatenation, for both
    double hashers, and a hasher that is reset behaves as a new one. *)
Lemma dhash256_chunks chunks :
  dhash256_finish (foldl dhash256_input dhash256_new chunks) = dhash256 (concat chunks).
Proof.
  assert (∀ d, foldl dhash256_input d chunks = dhash256_input d (concat chunks)) as Hfold.
  { induction chunks as [|c cs IH]; intros [h]; simpl.
    - unfold dhash256_input, hasher_input. simpl. by rewrite app_nil_r.
    - rewrite IH. unfold dhash256_input, hasher_input. simpl. by rewrite <-app_assoc. }
  by rewrite Hfold.
Qed.

(** The [ripemd] half of a [DHash160] is empty between results, so results can
    be taken repeatedly. *)
Lemma dhash160_result_again bs :
  let d := dhash160_input dhash160_new bs in
  fst (dhash160_result (snd (dhash160_result d))) = fst (dhash160_result d).
Proof. done. Qed.
End crypto.
