(* ===== verification/Chain.v ===== *)
(** * Blocks and headers ([chain] crate)

    A [BlockHeader] carries the VRF public key of the miner, the number of
    VDF iterations and the randomness they produced; a [Block] adds the VDF
    proof.  The [Indexed] variants carry the header's hash, which is computed
    from the bytes that were read when they are read from the wire. *)

From S2P Require Import Prelude External Primitives Serialization Compact Crypto.

(** ** Data *)

(** src: chain/src/block_header.rs 14-22 BlockHeader *)
Record BlockHeader {V : VrfOps} := mkBlockHeader {
  version : Z;
  previous_header_hash : H256;
  time : Z;
  bits : Compact;
  pubkey : VrfPk;
  iterations : Z;
  randomness : Z;
}.

(** [vdf::Proof]: a vector of [Integer]. *)
(** src: vdf/src/vdf.rs 7-7 Proof *)
Definition Proof := list Z.

(** src: chain/src/block.rs 11-14 Block *)
Record Block {V : VrfOps} := mkBlock {
  block_header : BlockHeader;
  block_proof : Proof;
}.

(** src: chain/src/indexed_header.rs 8-11 IndexedBlockHeader *)
Record IndexedBlockHeader {V : VrfOps} := mkIndexedBlockHeader {
  ih_hash : H256;
  ih_raw : BlockHeader;
}.

(** src: chain/src/indexed_block.rs 12-15 IndexedBlock *)
Record IndexedBlock {V : VrfOps} := mkIndexedBlock {
  ib_header : IndexedBlockHeader;
  ib_proof : Proof;
}.

(** src: chain/src/read_and_hash.rs 6-10 HashedData *)
Record HashedData (T : Type) := mkHashedData {
  hd_size : Z;
  hd_hash : H256;
  hd_data : T;
}.
Arguments mkHashedData {T} _ _ _.
Arguments hd_size {T} _.
Arguments hd_hash {T} _.
Arguments hd_data {T} _.

Arguments mkBlockHeader {V} _ _ _ _ _ _ _.
Arguments mkBlock {V} _ _.
Arguments mkIndexedBlockHeader {V} _ _.
Arguments mkIndexedBlock {V} _ _.

Section chain.
Context {R : RugOps} {H : Sha256Ops} {V : VrfOps}.

#[global] Instance BlockHeader_eq_dec : EqDecision BlockHeader.
Proof. solve_decision. Defined.

#[global] Instance Block_eq_dec : EqDecision Block.
Proof. solve_decision. Defined.

#[global] Instance IndexedBlockHeader_eq_dec : EqDecision IndexedBlockHeader.
Proof. solve_decision. Defined.

#[global] Instance IndexedBlock_eq_dec : EqDecision IndexedBlock.
Proof. solve_decision. Defined.

(** ** Serialization *)

Definition ser_header_stream (h : BlockHeader) (st : Stream) : Stream :=
  append ser_integer (randomness h)
    (append ser_u32 (iterations h)
      (append ser_bytes (vrf_to_bytes (pubkey h))
        (append ser_compact (bits h)
          (append ser_u32 (time h)
            (append (ser_hash 32) (previous_header_hash h)
              (append ser_u32 (version h) st)))))).

(** src: chain/src/block_header.rs 32-43 serialize *)
Definition ser_block_header : Serializable BlockHeader :=
  mkSerializable ser_header_stream (default_serialized_size ser_header_stream).

(** src: chain/src/block_header.rs 45-73 deserialize *)
Definition de_block_header : Deserializable BlockHeader := λ S _,
  version ← read de_u32;
  previous_header_hash ← read (de_hash 32);
  time ← read de_u32;
  bits ← read de_compact;
  pk_bytes ← read de_bytes;
  pubkey ← (if negb (length pk_bytes =? 32)%nat then RM_fail MalformedData
            else match vrf_from_bytes pk_bytes with
                 | None => RM_fail MalformedData
                 | Some pk => mret pk
                 end : RM S VrfPk);
  iterations ← read de_u32;
  randomness ← read de_integer;
  mret (mkBlockHeader version previous_header_hash time bits pubkey iterations randomness).

Definition ser_block_stream (b : Block) (st : Stream) : Stream :=
  append_list ser_integer (block_proof b) (append ser_block_header (block_header b) st).

(** src: chain/src/block.rs 16-20 serialize *)
Definition ser_block : Serializable Block :=
  mkSerializable ser_block_stream (default_serialized_size ser_block_stream).

(** src: chain/src/block.rs 22-34 deserialize *)
Definition de_block : Deserializable Block := λ S _,
  block_header ← read de_block_header;
  proof ← read (read_list de_integer);
  mret (mkBlock block_header proof).

(** src: chain/src/block_header.rs 99-101 block_header_hash *)
Definition block_header_hash (h : BlockHeader) : H256 :=
  dhash256 (serialize ser_block_header h).

(** src: chain/src/indexed_header.rs 39-41 from_raw *)
Definition indexed_header_from_raw (h : BlockHeader) : IndexedBlockHeader :=
  mkIndexedBlockHeader (block_header_hash h) h.

(** The closure of [read_with_proxy] adds up sizes and feeds the hasher. *)
(** src: chain/src/read_and_hash.rs 22-40 read_and_hash *)
Definition read_and_hash {T} (d : Deserializable T) : Deserializable (HashedData T) := λ S _,
  '(data, seen) ← read (read_with_proxy d);
  mret (mkHashedData (Z.of_nat (length seen))
          (dhash256_finish (dhash256_input dhash256_new seen)) data).

(** src: chain/src/indexed_header.rs 50-64 deserialize *)
Definition de_indexed_header : Deserializable IndexedBlockHeader := λ S _,
  data ← read (read_and_hash de_block_header);
  mret (mkIndexedBlockHeader (hd_hash data) (hd_data data)).

(** src: chain/src/indexed_block.rs 17-29 deserialize *)
Definition de_indexed_block : Deserializable IndexedBlock := λ S _,
  header ← read de_indexed_header;
  proof ← read (read_list de_integer);
  mret (mkIndexedBlock header proof).

(** [PartialEq] of the indexed types compares hashes only. *)
(** src: chain/src/indexed_header.rs 44-48 eq *)
Definition indexed_header_eq (a b : IndexedBlockHeader) : bool :=
  hash_eq (ih_hash a) (ih_hash b).

(** src: chain/src/indexed_block.rs 38-42 eq *)
Definition indexed_block_eq (a b : IndexedBlock) : bool :=
  hash_eq (ih_hash (ib_header a)) (ih_hash (ib_header b)).

(** src: chain/src/indexed_block.rs 55-61 from_raw *)
Definition indexed_block_from_raw (b : Block) : IndexedBlock :=
  mkIndexedBlock (indexed_header_from_raw (block_header b)) (block_proof b).

(** src: chain/src/indexed_block.rs 63-65 hash *)
Definition ib_hash (b : IndexedBlock) : H256 := ih_hash (ib_header b).

(** src: chain/src/indexed_block.rs 67-69 to_raw_block *)
Definition to_raw_block (b : IndexedBlock) : Block :=
  mkBlock (ih_raw (ib_header b)) (ib_proof b).

(** src: chain/src/indexed_block.rs 71-75 size *)
Definition ib_size (b : IndexedBlock) : Z :=
  serialized_size ser_block_header (ih_raw (ib_header b)) +
  serialized_list_size ser_integer (ib_proof b).

(** src: chain/src/indexed_block.rs 77-79 randomness *)
Definition ib_randomness (b : IndexedBlock) : Z := randomness (ih_raw (ib_header b)).

(** ** Round trips *)

(** A header whose fields are in the range of their types and whose
    randomness is not negative. *)
Definition header_wf (h : BlockHeader) : Prop :=
  u32 (version h) ∧ u32 (time h) ∧ u32 (compact_u32 (bits h)) ∧ u32 (iterations h) ∧
  integer_wf (randomness h).

Definition block_wf (b : Block) : Prop :=
  header_wf (block_header b) ∧ list_wf integer_wf (block_proof b).

Context {RL : RugLaws R} {HL : Sha256Laws H} {VL : VrfLaws V}.

Lemma ser_header_stream_eq h st :
  ser_header_stream h st =
  append_slice
    (serialize ser_u32 (version h) ++ serialize (ser_hash 32) (previous_header_hash h) ++
     serialize ser_u32 (time h) ++ serialize ser_compact (bits h) ++
     serialize ser_bytes (vrf_to_bytes (pubkey h)) ++ serialize ser_u32 (iterations h) ++
     serialize ser_integer (randomness h)) st.
Proof.
  unfold ser_header_stream.
  rewrite (codec_append ser_integer de_integer integer_wf).
  rewrite !(codec_append ser_u32 de_u32 u32), (codec_append ser_bytes de_bytes _).
  rewrite (codec_append ser_compact de_compact _), (codec_append (ser_hash 32) (de_hash 32) _).
  by rewrite !append_slice_append.
Qed.

Lemma serialize_header_eq h :
  serialize ser_block_header h =
    serialize ser_u32 (version h) ++ serialize (ser_hash 32) (previous_header_hash h) ++
    serialize ser_u32 (time h) ++ serialize ser_compact (bits h) ++
    serialize ser_bytes (vrf_to_bytes (pubkey h)) ++ serialize ser_u32 (iterations h) ++
    serialize ser_integer (randomness h).
Proof.
  unfold serialize at 1, append. cbn [ser ser_block_header]. by rewrite ser_header_stream_eq.
Qed.

Lemma decodes_at_pubkey {S} `{ReadSource S} (pk : VrfPk) :
  decodes_at (if negb (length (vrf_to_bytes pk) =? 32)%nat then RM_fail MalformedData
              else match vrf_from_bytes (vrf_to_bytes pk) with
                   | None => RM_fail MalformedData
                   | Some pk => mret pk
                   end : RM S VrfPk) [] pk.
Proof. rewrite vrf_to_bytes_length, vrf_from_to_bytes. apply decodes_at_ret. Qed.

#[global] Instance block_header_codec : Codec ser_block_header de_block_header header_wf.
Proof.
  split.
  - intros h st. rewrite serialize_header_eq. apply ser_header_stream_eq.
  - done.
  - intros h (Hv & Ht & Hb & Hi & Hr) S RS HS.
    rewrite serialize_header_eq. unfold de_block_header.
    eapply decodes_at_bind; [by apply (decodes_at_codec ser_u32 de_u32 u32)|].
    eapply decodes_at_bind; [by apply (decodes_at_codec (ser_hash 32) (de_hash 32) (λ _, True))|].
    eapply decodes_at_bind; [by apply (decodes_at_codec ser_u32 de_u32 u32)|].
    eapply decodes_at_bind; [by apply (decodes_at_codec ser_compact de_compact _)|].
    eapply decodes_at_bind.
    { apply (decodes_at_codec ser_bytes de_bytes _). by rewrite vrf_to_bytes_length. }
    eapply decodes_at_bind_nil; [apply decodes_at_pubkey|].
    eapply decodes_at_bind; [by apply (decodes_at_codec ser_u32 de_u32 u32)|].
    apply decodes_at_app_nil.
    eapply decodes_at_bind; [by apply (decodes_at_codec ser_integer de_integer _)|].
    destruct h. apply decodes_at_ret.
Qed.

Lemma serialize_block_eq b :
  serialize ser_block b =
  serialize ser_block_header (block_header b) ++ serialize_list ser_integer (block_proof b).
Proof.
  unfold serialize at 1, append. cbn [ser ser_block]. unfold ser_block_stream.
  rewrite (append_list_stream ser_integer de_integer integer_wf).
  rewrite (codec_append ser_block_header de_block_header header_wf).
  by rewrite append_slice_append.
Qed.

#[global] Instance block_codec : Codec ser_block de_block block_wf.
Proof.
  split.
  - intros b st. rewrite serialize_block_eq. cbn [ser ser_block]. unfold ser_block_stream.
    rewrite (append_list_stream ser_integer de_integer integer_wf).
    rewrite (codec_append ser_block_header de_block_header header_wf).
    by rewrite append_slice_append.
  - done.
  - intros [h p] [Hh Hp] S RS HS. rewrite serialize_block_eq.
    eapply decodes_at_bind; [exact (decodes_at_codec ser_block_header de_block_header header_wf h Hh)|].
    apply decodes_at_app_nil.
    eapply decodes_at_bind; [exact (decodes_at_read_list ser_integer de_integer integer_wf _ Hp)|].
    apply decodes_at_ret.
Qed.

(** Reading and hashing yields the hash of the bytes that encode the value. *)
Lemma decodes_read_and_hash {T} (d : Deserializable T) bs v :
  decodes d bs v →
  decodes (read_and_hash d) bs (mkHashedData (Z.of_nat (length bs)) (dhash256 bs) v).
Proof.
  intros Hd S RS HS. apply decodes_at_app_nil. eapply decodes_at_bind.
  - by apply decodes_read_with_proxy.
  - apply decodes_at_ret.
Qed.

Lemma decodes_indexed_header bs h :
  decodes de_block_header bs h →
  decodes de_indexed_header bs (mkIndexedBlockHeader (dhash256 bs) h).
Proof.
  intros Hd S RS HS. apply decodes_at_app_nil. eapply decodes_at_bind.
  - by apply decodes_read_and_hash.
  - apply decodes_at_ret.
Qed.

Lemma decodes_indexed_block b : block_wf b →
  decodes de_indexed_block (serialize ser_block b) (indexed_block_from_raw b).
Proof.
  intros [Hh Hp] S RS HS. rewrite serialize_block_eq. eapply decodes_at_bind.
  - apply decodes_indexed_header. by apply (codec_decodes (s:=ser_block_header)).
  - apply decodes_at_app_nil.
    eapply decodes_at_bind; [exact (decodes_at_read_list ser_integer de_integer integer_wf _ Hp)|].
    apply decodes_at_ret.
Qed.

(** C26: a block is read back from its encoding, as a [Block] and as an
    [IndexedBlock], from any source; the hash of the indexed block, computed
    from the bytes as they pass through the proxy, is the double SHA-256 of the
    re-serialized header; trailing bytes and truncation are refused. *)
Theorem block_roundtrip {S} {RS : Read S} {HS : ReadSource S} (b : Block) (buf : S) :
  block_wf b → valid buf →
  decodes_exactly de_block (serialize ser_block b) b buf ∧
  decodes_exactly de_indexed_block (serialize ser_block b) (indexed_block_from_raw b) buf ∧
  ih_hash (ib_header (indexed_block_from_raw b)) =
    dhash256 (serialize ser_block_header (block_header b)) ∧
  to_raw_block (indexed_block_from_raw b) = b ∧
  ib_size (indexed_block_from_raw b) = Z.of_nat (length (serialize ser_block b)).
Proof.
  intros Hb Hbuf. split_and!.
  - apply deserialize_decodes; [by apply (codec_decodes (s:=ser_block))|done].
  - apply deserialize_decodes; [by apply decodes_indexed_block|done].
  - done.
  - by destruct b.
  - destruct Hb as [Hh Hp]. unfold ib_size.
    rewrite (serialized_list_size_eq ser_integer de_integer integer_wf) by done.
    rewrite (codec_size (s:=ser_block_header) (d:=de_block_header) (wf:=header_wf)) by done.
    rewrite serialize_block_eq, length_app. by rewrite Nat2Z.inj_add.
Qed.

(** The bytes of a header whose key is prefixed by a three-byte compact
    integer instead of the one-byte form the serializer writes. *)
Definition padded_header_bytes (h : BlockHeader) : list byte :=
  serialize ser_u32 (version h) ++ serialize (ser_hash 32) (previous_header_hash h) ++
  serialize ser_u32 (time h) ++ serialize ser_compact (bits h) ++
  ((serialize ser_u8 0xfd ++ serialize ser_u16 32) ++ vrf_to_bytes (pubkey h)) ++
  serialize ser_u32 (iterations h) ++ serialize ser_integer (randomness h).

Lemma decodes_padded_header h : header_wf h → decodes de_block_header (padded_header_bytes h) h.
Proof.
  intros (Hv & Ht & Hb & Hi & Hr) S RS HS. unfold padded_header_bytes, de_block_header.
  eapply decodes_at_bind; [by apply (decodes_at_codec ser_u32 de_u32 u32)|].
  eapply decodes_at_bind; [by apply (decodes_at_codec (ser_hash 32) (de_hash 32) (λ _, True))|].
  eapply decodes_at_bind; [by apply (decodes_at_codec ser_u32 de_u32 u32)|].
  eapply decodes_at_bind; [by apply (decodes_at_codec ser_compact de_compact _)|].
  eapply decodes_at_bind.
  { eapply (decodes_at_bind _ _ _ _ 32).
    - eapply decodes_at_bind; [by apply (decodes_at_codec ser_u8 de_u8 u8)|].
      by apply (decodes_at_codec ser_u16 de_u16 u16).
    - apply decodes_at_read_slice. apply vrf_to_bytes_length. }
  eapply decodes_at_bind_nil; [apply decodes_at_pubkey|].
  eapply decodes_at_bind; [by apply (decodes_at_codec ser_u32 de_u32 u32)|].
  apply decodes_at_app_nil.
  eapply decodes_at_bind; [by apply (decodes_at_codec ser_integer de_integer _)|].
  destruct h. apply decodes_at_ret.
Qed.

Lemma padded_header_length h :
  length (padded_header_bytes h) = (length (serialize ser_block_header h) + 2)%nat.
Proof.
  rewrite serialize_header_eq. unfold padded_header_bytes. rewrite !length_app.
  assert (length (serialize ser_bytes (vrf_to_bytes (pubkey h))) = 33%nat) as ->.
  { change (length (serialize ser_compact_integer (Z.of_nat (length (vrf_to_bytes (pubkey h))))
      ++ vrf_to_bytes (pubkey h)) = 33%nat).
    rewrite length_app, vrf_to_bytes_length. done. }
  rewrite vrf_to_bytes_length.
  change (length (serialize ser_u8 0xfd)) with 1%nat.
  change (length (serialize ser_u16 32)) with 2%nat. lia.
Qed.

(** The header encoding is malleable.  Every header has a second encoding
    that is accepted; the indexed header read from it has the same fields, but
    its hash is the double SHA-256 of the other bytes, so that two indexed
    headers with equal contents have equal hashes only if the digest
    collides. *)
Theorem header_encoding_malleable h : header_wf h →
  ∃ bs : list byte, bs ≠ serialize ser_block_header h ∧
    deserialize de_indexed_header bs = Ok (mkIndexedBlockHeader (dhash256 bs) h) ∧
    deserialize de_indexed_header (serialize ser_block_header h) = Ok (indexed_header_from_raw h).
Proof.
  intros Hh. exists (padded_header_bytes h). split_and!.
  - intros E. pose proof (padded_header_length h) as Hl. rewrite E in Hl. lia.
  - by apply (deserialize_decodes (S:=list byte) de_indexed_header _ _ (padded_header_bytes h)
      (decodes_indexed_header _ _ (decodes_padded_header h Hh))).
  - by apply (deserialize_decodes (S:=list byte) de_indexed_header _ _ (serialize ser_block_header h)
      (decodes_indexed_header _ _ (codec_decodes (s:=ser_block_header) h Hh))).
Qed.
End chain.

(** ** Concrete blocks *)

Section examples.
Import Reference.

Definition example_key : VrfPk := exist _ 6 I.

Definition example_header : BlockHeader :=
  mkBlockHeader 1 (hash_from_u8 2) 4 (mkCompact 0x207fffff) example_key 100 123456789.

Definition example_block : Block := mkBlock example_header [5; 70000].

Lemma example_header_wf : header_wf example_header.
Proof. split_and!; try done; split; vm_compute; intuition congruence. Defined.

Lemma example_block_wf : block_wf example_block.
Proof.
  split; [exact example_header_wf|]. split; [done|].
  repeat constructor; try done; vm_compute; intuition congruence.
Defined.

Lemma block_roundtrip_witness :
  block_wf example_block ∧
  deserialize de_indexed_block (serialize ser_block example_block)
    = Ok (indexed_block_from_raw example_block).
Proof.
  split; [exact example_block_wf|].
  exact (proj1 (proj1 (proj2 (block_roundtrip (S:=list byte) example_block
    (serialize ser_block example_block) example_block_wf I))) eq_refl).
Defined.

Lemma header_encoding_malleable_witness :
  ∃ bs : list byte, bs ≠ serialize ser_block_header example_header ∧
    deserialize de_indexed_header bs = Ok (mkIndexedBlockHeader (dhash256 bs) example_header).
Proof.
  destruct (header_encoding_malleable example_header example_header_wf) as (bs & Hne & Hbs & _).
  by exists bs.
Defined.
End examples.
