(* ===== verification/Vdf.v ===== *)
(** * The verifiable delay function ([vdf] crate)

    [eval] squares [t] times modulo the RSA-2048 number; [prove] and [verify]
    are the halving protocol of Pietrzak made non-interactive with a hash.  The
    arithmetic of [rug] is that of [Z]; [pow_mod] and the digit conversions are
    the parameters of [RugOps], SHA-256 that of [Sha256Ops].  [None] is a failed
    [unwrap]. *)

From S2P Require Import Prelude External Primitives Serialization Chain.
From Stdlib Require Import Zpow_facts.

(** src: vdf/src/config.rs 5-16 MODULUS *)
Definition MODULUS : Z :=
  25195908475657893494027183240048398571429282126204032027777137836043662020707595556264018525880784406918290641249515082189298559149176184502808489120072844992687392807287776735971418347270261896375014971824691165077613379859095700097330459748808428401797429100642458691817195118746121515172654632282216869987549182422433637259085141865462043576798423387184774447920739934236584823824281198163815010674810451660377306056201619676256133844143603833904414952634432190114657544454178424020924616515723350778707749817125772467962926386356373289912154831438167899885040445364023527381951378636564391212010397122822120720357.

(** [Integer::div_rem_floor(MODULUS).1] *)
Definition mod_floor (z : Z) : Z := z mod MODULUS.

(** The body of the loop of [eval]. *)
Definition square (y : Z) : Z := mod_floor (y * y).

(** src: vdf/src/vdf.rs 9-17 eval *)
Definition eval (g : Z) (t : Z) : Z := Nat.iter (Z.to_nat t) square g.

Section vdf.
Context {R : RugOps} {H : Sha256Ops}.

(** [(0..8u8).map(|index| sha256(prefix ++ [index] ++ seed)).flatten()], a
    2048-bit number, reduced. *)
Definition expand_2048 (prefix seed : list byte) : Z :=
  let all_2048 :=
    concat ((λ index : nat, sha2_sha256 (prefix ++ [byte_of (Z.of_nat index)] ++ seed)) <$> seq 0 8) in
  mod_floor (rug_from_digits_lsf all_2048).

Definition ascii_bytes (s : string) : list byte := String.list_byte_of_string s.

(** src: vdf/src/util.rs 7-28 hash_fs *)
Definition hash_fs (inputs : list Z) : Z :=
  let fed := concat ((λ input, rug_to_digits_lsf input ++ [byte_of 10]) <$> inputs) in
  let seed := sha2_sha256 fed in
  expand_2048 (ascii_bytes "fs_part_") seed.

(** One halving round, common to [prove] and [verify]: the new [x_i] and
    [y_i], and the new [t]. *)
Definition fold_round (x_i y_i t mu_i : Z) : option (Z * Z * Z) :=
  let r_i := hash_fs [x_i; y_i; mu_i] in
  xi_ri ← rug_pow_mod x_i r_i MODULUS;
  let x_i' := mod_floor (xi_ri * mu_i) in
  mui_ri ← rug_pow_mod mu_i r_i MODULUS;
  let y_i' := mod_floor (mui_ri * y_i) in
  let t := t / 2 in
  if negb (t mod 2 =? 0) && negb (t =? 1)
  then y_i'' ← rug_pow_mod y_i' 2 MODULUS; Some (x_i', y_i'', t + 1)
  else Some (x_i', y_i', t).

(** The loop of [prove]; a round takes [t >= 2] to at most [t / 2 + 1 <= t], and
    to less than [t] when [t >= 3], so [t] rounds are enough. *)
Fixpoint prove_loop (fuel : nat) (x_i y_i t : Z) : option Proof :=
  match fuel with
  | O => None
  | S fuel =>
      if t <? 2 then Some []
      else
        mu_i ← rug_pow_mod x_i (Z.shiftl 1 (t / 2)) MODULUS;
        '(x_i, y_i, t) ← fold_round x_i y_i t mu_i;
        proof ← prove_loop fuel x_i y_i t;
        Some (mu_i :: proof)
  end.

(** src: vdf/src/vdf.rs 19-47 prove *)
Definition prove (g y iterations : Z) : option Proof :=
  prove_loop (S (Z.to_nat iterations)) g y iterations.

Fixpoint verify_loop (proof : Proof) (x_i y_i t : Z) : option (Z * Z) :=
  match proof with
  | [] => Some (x_i, y_i)
  | mu_i :: proof =>
      '(x_i, y_i, t) ← fold_round x_i y_i t mu_i;
      verify_loop proof x_i y_i t
  end.

(** src: vdf/src/vdf.rs 49-70 verify *)
Definition verify (g y iterations : Z) (proof : Proof) : option bool :=
  '(x_i, y_i) ← verify_loop proof g y iterations;
  x2 ← rug_pow_mod x_i 2 MODULUS;
  Some (y_i =? x2).
End vdf.

(** ** Evaluation is modular exponentiation *)

Lemma MODULUS_gt_1 : 1 < MODULUS.
Proof. reflexivity. Qed.

#[local] Opaque MODULUS.

Lemma mod_floor_range z : 0 ≤ mod_floor z < MODULUS.
Proof. apply Z.mod_pos_bound. pose proof MODULUS_gt_1. lia. Qed.

(** Congruence modulo the modulus, for setoid rewriting. *)
Definition eqm (a b : Z) : Prop := a mod MODULUS = b mod MODULUS.
Infix "≡ₘ" := eqm (at level 70).

#[global] Instance eqm_dec a b : Decision (eqm a b).
Proof. unfold eqm. apply _. Defined.

#[global] Instance eqm_equiv : Equivalence eqm.
Proof.
  split; unfold eqm; [by intros a|by intros a b ->|intros a b c; congruence].
Qed.

#[global] Instance eqm_mul : Proper (eqm ==> eqm ==> eqm) Z.mul.
Proof.
  intros a b Hab c d Hcd. unfold eqm in *.
  by rewrite Zmult_mod, Hab, Hcd, <-Zmult_mod.
Qed.

#[global] Instance eqm_pow : Proper (eqm ==> (=) ==> eqm) Z.pow.
Proof.
  intros a b Hab c d <-. unfold eqm in *. pose proof MODULUS_gt_1.
  by rewrite Zpower_mod, Hab, <-Zpower_mod by lia.
Qed.

Lemma mod_floor_eqm z : mod_floor z ≡ₘ z.
Proof. unfold eqm, mod_floor. apply Zmod_mod. Qed.

Lemma eqm_reduced a b : 0 ≤ a < MODULUS → a ≡ₘ b → a = b mod MODULUS.
Proof. intros Ha Hab. unfold eqm in Hab. by rewrite <-Hab, Z.mod_small. Qed.

Lemma pow2_double n : 0 ≤ n → 2 ^ (n + n) = 2 ^ n * 2 ^ n.
Proof. intros. by rewrite Z.pow_add_r. Qed.

Lemma pow2_succ n : 0 ≤ n → 2 ^ (n + 1) = 2 ^ n + 2 ^ n.
Proof. intros. rewrite Z.pow_add_r by lia. lia. Qed.

Lemma eval_eqm g t : 0 ≤ t → eval g t ≡ₘ g ^ 2 ^ t.
Proof.
  intros Ht. unfold eval. rewrite <-(Z2Nat.id t) at 2 by done. generalize (Z.to_nat t).
  clear t Ht. intros t. induction t as [|t IH].
  - simpl. by rewrite Z.pow_1_r.
  - simpl Nat.iter. unfold square. rewrite mod_floor_eqm, IH.
    rewrite Nat2Z.inj_succ, <-Z.add_1_r, pow2_succ by lia.
    rewrite Z.pow_add_r by lia. done.
Qed.

Lemma eval_range g t : 0 < t → 0 ≤ eval g t < MODULUS.
Proof.
  intros Ht. unfold eval. destruct (Z.to_nat t) as [|n] eqn:E; [lia|].
  simpl. apply mod_floor_range.
Qed.

Lemma eval_add g a b : 0 ≤ a → 0 ≤ b → eval (eval g a) b = eval g (a + b).
Proof.
  intros. unfold eval. rewrite Z.add_comm, Z2Nat.inj_add by done. by rewrite Nat.iter_add.
Qed.

(** ** Soundness and completeness of the proof *)

Section vdf_laws.
Context {R : RugOps} {H : Sha256Ops} {RL : RugLaws R}.

Lemma pow_mod_eqm b e : 0 ≤ e →
  ∃ p, rug_pow_mod b e MODULUS = Some p ∧ p ≡ₘ b ^ e ∧ 0 ≤ p < MODULUS.
Proof.
  intros He. pose proof MODULUS_gt_1. exists ((b ^ e) mod MODULUS).
  rewrite rug_pow_mod_spec by lia. split; [done|].
  split; [apply Zmod_mod|apply Z.mod_pos_bound; lia].
Qed.

Lemma hash_fs_range l : 0 ≤ hash_fs l < MODULUS.
Proof. apply mod_floor_range. Qed.

Lemma fold_round_spec x y t mu : 0 ≤ t →
  let r := hash_fs [x; y; mu] in
  ∃ x' y', 0 ≤ y' < MODULUS ∧ x' ≡ₘ x ^ r * mu ∧
    if negb ((t / 2) mod 2 =? 0) && negb (t / 2 =? 1)
    then fold_round x y t mu = Some (x', y', t / 2 + 1) ∧ y' ≡ₘ (mu ^ r * y) ^ 2
    else fold_round x y t mu = Some (x', y', t / 2) ∧ y' ≡ₘ mu ^ r * y.
Proof.
  intros Ht r. unfold fold_round. fold r.
  assert (0 ≤ r) as Hr by apply hash_fs_range.
  destruct (pow_mod_eqm x r Hr) as (p1 & E1 & Hp1 & _).
  destruct (pow_mod_eqm mu r Hr) as (p2 & E2 & Hp2 & _).
  rewrite E1, E2. cbn [mbind option_bind].
  exists (mod_floor (p1 * mu)). destruct (negb _ && negb _).
  - destruct (pow_mod_eqm (mod_floor (p2 * y)) 2 ltac:(lia)) as (p3 & E3 & Hp3 & Hrange).
    exists p3. rewrite E3. split_and!; try apply Hrange; [|done|].
    + by rewrite mod_floor_eqm, Hp1.
    + by rewrite Hp3, mod_floor_eqm, Hp2.
  - exists (mod_floor (p2 * y)). split_and!; try apply mod_floor_range; [|done|].
    + by rewrite mod_floor_eqm, Hp1.
    + by rewrite mod_floor_eqm, Hp2.
Qed.

(** The iteration counts the protocol halves without a remainder. *)
Definition provable (t : Z) : Prop := t = 1 ∨ (2 ≤ t ∧ t mod 2 = 0).

(** The identity behind a round, with [h] half of the iterations. *)
Lemma halving_identity x y mu r h :
  0 ≤ h → 0 ≤ r → y ≡ₘ x ^ 2 ^ (h + h) → mu ≡ₘ x ^ 2 ^ h →
  mu ^ r * y ≡ₘ (x ^ r * mu) ^ 2 ^ h.
Proof.
  intros Hh Hr Hy Hmu. rewrite Hy, Hmu.
  pose proof (pow2_pos h Hh). rewrite Z.pow_mul_l, pow2_double by done.
  rewrite <-!Z.pow_mul_r by lia. by rewrite (Z.mul_comm r).
Qed.

Lemma round_complete x y t mu :
  2 ≤ t → t mod 2 = 0 → y ≡ₘ x ^ 2 ^ t → mu ≡ₘ x ^ 2 ^ (t / 2) →
  ∃ x' y' t', fold_round x y t mu = Some (x', y', t') ∧ provable t' ∧ t' < t ∧
    y' ≡ₘ x' ^ 2 ^ t' ∧ 0 ≤ y' < MODULUS.
Proof.
  intros Ht Heven Hy Hmu. pose proof (Z.div_mod t 2 ltac:(lia)) as Hdm.
  rewrite Heven in Hdm. remember (t / 2) as h eqn:Eh.
  destruct (fold_round_spec x y t mu ltac:(lia)) as (x' & y' & Hrange & Hx' & Hif).
  rewrite <-Eh in Hif.
  pose proof (halving_identity x y mu (hash_fs [x; y; mu]) h) as Hid.
  replace (h + h) with t in Hid by lia.
  specialize (Hid ltac:(lia) (proj1 (hash_fs_range _)) Hy Hmu). rewrite <-Hx' in Hid.
  pose proof (Z.mod_pos_bound h 2 ltac:(lia)).
  destruct (negb (h mod 2 =? 0) && negb (h =? 1)) eqn:Eodd; destruct Hif as [E Hy'].
  - exists x', y', (h + 1). bool_props. split_and!; try done; try lia.
    + right. split; [lia|]. rewrite Z.add_mod by lia. replace (h mod 2) with 1 by lia. done.
    + rewrite Hy', Hid, pow2_succ, Z.pow_add_r by (try apply Z.pow_nonneg; lia).
      by rewrite Z.pow_2_r.
  - exists x', y', h. split_and!; try done; try lia.
    + unfold provable. apply andb_false_iff in Eodd as [Eo|Eo]; bool_props; [right|by left].
      split; [|done]. destruct (decide (h = 1)) as [->|]; [done|lia].
    + by rewrite Hy', Hid.
Qed.

Lemma prove_loop_complete fuel x y t :
  provable t → (Z.to_nat t < fuel)%nat → y ≡ₘ x ^ 2 ^ t → 0 ≤ y < MODULUS →
  ∃ proof x' y', prove_loop fuel x y t = Some proof ∧
    verify_loop proof x y t = Some (x', y') ∧ y' ≡ₘ x' ^ 2 ∧ 0 ≤ y' < MODULUS.
Proof.
  revert x y t. induction fuel as [|fuel IH]; intros x y t Ht Hfuel Hy Hrange; [lia|].
  simpl. destruct Ht as [-> | [Ht Heven]].
  - exists [], x, y. split; [done|]. split; [done|]. split; [exact Hy|exact Hrange].
  - rewrite (proj2 (Z.ltb_ge t 2)) by done.
    pose proof (Z.div_pos t 2 ltac:(lia) ltac:(lia)).
    destruct (pow_mod_eqm x (Z.shiftl 1 (t / 2))) as (mu & Emu & Hmu & _).
    { rewrite Z.shiftl_mul_pow2 by done. apply Z.mul_nonneg_nonneg; [lia|]. by apply Z.pow_nonneg. }
    rewrite Z.shiftl_mul_pow2, Z.mul_1_l in Hmu by done.
    destruct (round_complete x y t mu Ht Heven Hy Hmu) as (x1 & y1 & t1 & E & ? & ? & ? & ?).
    assert (0 ≤ t1) by (unfold provable in *; lia).
    destruct (IH x1 y1 t1) as (proof & x' & y' & Ep & Ev & ?); [done|lia|done|done|].
    exists (mu :: proof), x', y'. rewrite Emu. cbn [mbind option_bind]. rewrite E.
    cbn [mbind option_bind]. rewrite Ep. simpl. rewrite E. done.
Qed.

(** A round never fails an [unwrap], and it shortens the count. *)
Lemma fold_round_total x y t mu : ∃ x' y' t', fold_round x y t mu = Some (x', y', t') ∧ (2 ≤ t → t' < t).
Proof.
  unfold fold_round. assert (0 ≤ hash_fs [x; y; mu]) as Hr by apply hash_fs_range.
  destruct (pow_mod_eqm x _ Hr) as (p1 & -> & _). destruct (pow_mod_eqm mu _ Hr) as (p2 & -> & _). cbn [mbind option_bind].
  destruct (negb _ && negb _) eqn:E.
  - destruct (pow_mod_eqm (mod_floor (p2 * y)) 2 ltac:(lia)) as (p3 & -> & _). cbn [mbind option_bind]. eexists _, _, _. split; [done|]. intros Ht.
    apply andb_prop in E as [_ E]. bool_props. pose proof (Z.div_mod t 2 ltac:(lia)). pose proof (Z.mod_pos_bound t 2 ltac:(lia)). lia.
  - eexists _, _, _. split; [done|]. intros Ht. apply Z.div_lt; lia.
Qed.

(** [verify] never fails an [unwrap]. *)
Lemma verify_total g y t proof : is_Some (verify g y t proof).
Proof.
  unfold verify. assert (is_Some (verify_loop proof g y t)) as [[x' y'] ->].
  { revert g y t. induction proof as [|mu proof IH]; intros x y t; cbn [verify_loop]; [done|].
    destruct (fold_round_total x y t mu) as (x' & y' & t' & -> & _). apply IH. }
  cbn [mbind option_bind]. by destruct (pow_mod_eqm x' 2 ltac:(lia)) as (p & -> & _).
Qed.

(** Nor does [prove], whatever it is asked to prove, and its loop ends. *)
Lemma prove_total g y t : is_Some (prove g y t).
Proof.
  unfold prove. assert (Z.to_nat t < S (Z.to_nat t))%nat as Hf by lia. revert Hf. generalize (S (Z.to_nat t)). intros fuel.
  revert g y t. induction fuel as [|fuel IH]; intros x y t Hf; [lia|]. cbn [prove_loop]. destruct (Z.ltb_spec t 2); [done|].
  destruct (pow_mod_eqm x (Z.shiftl 1 (t / 2))) as (mu & -> & _).
  { rewrite Z.shiftl_mul_pow2, Z.mul_1_l by (apply Z.div_pos; lia). apply Z.pow_nonneg. lia. }
  cbn [mbind option_bind]. destruct (fold_round_total x y t mu) as (x' & y' & t' & -> & Ht). cbn [mbind option_bind].
  destruct (IH x' y' t') as [proof ->]; [specialize (Ht ltac:(lia)); lia|done].
Qed.

Lemma vdf_accepts g t : provable t →
  eval g t = (g ^ 2 ^ t) mod MODULUS ∧
  ∃ proof, prove g (eval g t) t = Some proof ∧ verify g (eval g t) t proof = Some true.
Proof.
  intros Ht. assert (0 < t) as Hpos by (unfold provable in Ht; lia).
  pose proof (eval_range g t Hpos) as Hr. pose proof (eval_eqm g t ltac:(lia)) as He.
  split; [by apply eqm_reduced|].
  destruct (prove_loop_complete (S (Z.to_nat t)) g (eval g t) t) as (proof & x' & y' & Ep & Ev & Hy' & Hr');
    [done|lia|done|done|].
  exists proof. unfold prove, verify. rewrite Ep, Ev. split; [done|]. cbn [mbind option_bind].
  destruct (pow_mod_eqm x' 2 ltac:(lia)) as (p & Epow & Hp & Hpr). rewrite Epow. simpl.
  f_equal. apply Z.eqb_eq. rewrite (eqm_reduced y' (x' ^ 2)) by done.
  by rewrite (eqm_reduced p (x' ^ 2)).
Qed.

(** C23: the delay function and its proof are complete.  [eval] is
    exponentiation by [2 ^ t]; for every iteration count that is 1 or even the
    prover returns a proof and the verifier, which is total, accepts it. *)
Theorem vdf_complete g t : provable t →
  eval g t = (g ^ 2 ^ t) mod MODULUS ∧
  ∃ proof, prove g (eval g t) t = Some proof ∧ verify g (eval g t) t proof = Some true.
Proof. apply vdf_accepts. Qed.

(** The square of the base verifies with the empty proof, whatever the count. *)
Lemma verify_empty_proof g t : verify g ((g ^ 2) mod MODULUS) t [] = Some true.
Proof.
  unfold verify. simpl. pose proof MODULUS_gt_1. rewrite rug_pow_mod_spec by lia. simpl.
  by rewrite Z.eqb_refl.
Qed.

Lemma eqm_divide a b : a ≡ₘ b ↔ (MODULUS | a - b).
Proof.
  pose proof MODULUS_gt_1. unfold eqm. rewrite <-Z.mod_divide by lia. apply Z.cong_iff_0.
Qed.

Lemma eqm_cancel_pow g n b c : 0 ≤ n → Z.gcd g MODULUS = 1 →
  g ^ n * b ≡ₘ g ^ n * c ↔ b ≡ₘ c.
Proof.
  intros Hn Hg. split; [|by intros ->]. rewrite !eqm_divide, <-Z.mul_sub_distr_l.
  intros Hd. eapply Z.gauss; [exact Hd|]. rewrite Z.gcd_comm. by apply Z.coprime_pow_l.
Qed.

Lemma verify_eqb x y : 0 ≤ y < MODULUS →
  (∃ x2, rug_pow_mod x 2 MODULUS = Some x2 ∧ (y =? x2) = bool_decide (y ≡ₘ x ^ 2)).
Proof.
  intros Hy. destruct (pow_mod_eqm x 2 ltac:(lia)) as (p & E & Hp & Hr).
  exists p. split; [done|]. apply eq_true_iff_eq. rewrite Z.eqb_eq, bool_decide_eq_true.
  split; [by intros ->|]. intros Hyx. by rewrite (eqm_reduced y (x ^ 2)), (eqm_reduced p (x ^ 2)).
Qed.

(** An odd iteration count breaks completeness.  For three iterations and a
    base coprime to the modulus the honest proof of the honest output is
    accepted exactly when the fourth power of the base is 1. *)
Theorem vdf_odd_rejected g : Z.gcd g MODULUS = 1 →
  ∃ proof, prove g (eval g 3) 3 = Some proof ∧
    verify g (eval g 3) 3 proof = Some (bool_decide (g ^ 4 ≡ₘ 1)).
Proof.
  intros Hg. pose proof (eval_eqm g 3 ltac:(lia)) as Hy. set (y := eval g 3) in *.
  destruct (pow_mod_eqm g (Z.shiftl 1 (3 / 2))) as (mu & Emu & Hmu & _); [done|].
  change (g ^ Z.shiftl 1 (3 / 2)) with (g ^ 2) in Hmu.
  destruct (fold_round_spec g y 3 mu ltac:(lia)) as (x' & y' & Hr & Hx' & E & Hy').
  pose proof (proj1 (hash_fs_range [g; y; mu])) as Hpos. set (r := hash_fs [g; y; mu]) in *.
  exists [mu]. unfold prove, verify. cbn [prove_loop verify_loop Z.to_nat].
  change (Pos.to_nat 3) with 3%nat. cbn [prove_loop]. rewrite Emu.
  replace (3 <? 2) with false by done. cbn [mbind option_bind]. rewrite E. cbn [mbind option_bind].
  change (3 / 2) with 1. replace (1 <? 2) with true by done. cbn [mbind option_bind].
  split; [done|]. destruct (verify_eqb x' y' Hr) as (x2 & -> & Eb). cbn [mbind option_bind].
  f_equal. rewrite Eb. apply bool_decide_ext. rewrite Hy', Hx', Hmu, Hy.
  change (2 ^ 3) with 8. rewrite Z.pow_mul_l, <-!Z.pow_mul_r by lia.
  replace (g ^ 8) with (g ^ 4 * g ^ 4) by (rewrite <-Z.pow_add_r by lia; done).
  change (2 * 2) with 4. rewrite Z.mul_assoc, (Z.mul_comm r 2), <-Z.pow_add_r by lia.
  rewrite <-(Z.mul_1_r (g ^ (2 * r + 4))) at 2.
  by apply eqm_cancel_pow; [lia|].
Qed.
End vdf_laws.

Section vdf_examples.
Import Reference.

(** Ten iterations halve to five, which is made even, and so on. *)
Lemma vdf_complete_witness :
  provable 10 ∧ ∃ proof, prove 7 (eval 7 10) 10 = Some proof ∧
    verify 7 (eval 7 10) 10 proof = Some true.
Proof.
  assert (provable 10) as Ht by (right; split; [lia|reflexivity]).
  split; [exact Ht|]. exact (proj2 (vdf_complete 7 10 Ht)).
Defined.

Lemma vdf_odd_rejected_witness :
  ∃ proof, prove 2 (eval 2 3) 3 = Some proof ∧ verify 2 (eval 2 3) 3 proof = Some false.
Proof.
  assert (Z.gcd 2 MODULUS = 1) as Hp.
  { vm_compute. reflexivity. }
  destruct (vdf_odd_rejected 2 Hp) as (proof & Hprove & Hverify).
  exists proof. split; [exact Hprove|]. rewrite Hverify. vm_compute. reflexivity.
Defined.
End vdf_examples.
