(* ===== verification/Storage.v ===== *)
(** * Storage interfaces ([storage] crate)

    What the consensus code sees of the store: a provider of headers by number
    or hash, and the canonical store with its origin check and forks.  The
    implementation of these interfaces is the database component. *)

From S2P Require Import Prelude External Primitives Serialization Compact Crypto Chain.

(** src: storage/src/best_block.rs 6-11 BestBlock *)
Record BestBlock := mkBestBlock { bb_number : Z; bb_hash : H256 }.

#[global] Instance BestBlock_eq_dec : EqDecision BestBlock.
Proof. solve_decision. Defined.

(** [Default]: number 0 and the zero hash. *)
Definition best_block_default : BestBlock := mkBestBlock 0 hash_default.

(** src: storage/src/block_ref.rs 4-7 BlockRef *)
Inductive BlockRef := RefNumber (n : Z) | RefHash (h : H256).

#[global] Instance BlockRef_eq_dec : EqDecision BlockRef.
Proof. solve_decision. Defined.

(** src: storage/src/block_origin.rs 5-14 SideChainOrigin *)
Record SideChainOrigin := mkSideChainOrigin {
  ancestor : Z;
  canonized_route : list H256;
  decanonized_route : list H256;
  origin_block_number : Z;
}.

#[global] Instance SideChainOrigin_eq_dec : EqDecision SideChainOrigin.
Proof. solve_decision. Defined.

(** src: storage/src/block_origin.rs 42-47 BlockOrigin *)
Inductive BlockOrigin :=
| KnownBlock
| CanonChain (block_number : Z)
| SideChain (origin : SideChainOrigin)
| SideChainBecomingCanonChain (origin : SideChainOrigin).

#[global] Instance BlockOrigin_eq_dec : EqDecision BlockOrigin.
Proof. solve_decision. Defined.

(** src: storage/src/error.rs 2-18 Error *)
Inductive DbError :=
| DatabaseError (msg : string)
| CannotCanonize
| CannotDecanonize
| UnknownParent
| AncientFork.

#[global] Instance DbError_eq_dec : EqDecision DbError.
Proof. solve_decision. Defined.

(** The trait object [&dyn BlockHeaderProvider], as the record of its methods. *)
(** src: storage/src/block_provider.rs 6-12 BlockHeaderProvider *)
Record BlockHeaderProvider {V : VrfOps} := mkBlockHeaderProvider {
  provider_header_bytes : BlockRef → option (list byte);
  provider_header : BlockRef → option IndexedBlockHeader;
}.
Arguments mkBlockHeaderProvider {V} _ _.

Section storage.
Context {V : VrfOps}.

(** The part of [CanonStore] the consensus verifier calls; [fork] yields the
    header provider of the fork. *)
(** src: storage/src/store.rs 5-26 CanonStore *)
Record CanonStore := mkCanonStore {
  cs_best_block : BestBlock;
  cs_block_hash : Z → option H256;
  cs_block_origin : IndexedBlockHeader → result DbError BlockOrigin;
  cs_fork : SideChainOrigin → result DbError BlockHeaderProvider;
  cs_header_provider : BlockHeaderProvider;
}.

(** src: storage/src/block_ancestors.rs 4-7 BlockAncestors *)
Record BlockAncestors := mkBlockAncestors {
  ba_block : option BlockRef;
  ba_headers : BlockHeaderProvider;
}.

(** src: storage/src/block_ancestors.rs 10-15 new *)
Definition block_ancestors_new (block : BlockRef) (headers : BlockHeaderProvider) : BlockAncestors :=
  mkBlockAncestors (Some block) headers.

(** src: storage/src/block_ancestors.rs 21-31 next *)
Definition block_ancestors_next (it : BlockAncestors) : option IndexedBlockHeader * BlockAncestors :=
  let result := b ← ba_block it; provider_header (ba_headers it) b in
  let block :=
    match result with
    | Some header => Some (RefHash (previous_header_hash (ih_raw header)))
    | None => None
    end in
  (result, mkBlockAncestors block (ba_headers it)).

(** [Iterator::take(n)] collected. *)
Fixpoint block_ancestors_take (n : nat) (it : BlockAncestors) : list IndexedBlockHeader :=
  match n with
  | O => []
  | S n =>
      match block_ancestors_next it with
      | (None, _) => []
      | (Some h, it) => h :: block_ancestors_take n it
      end
  end.

(** src: storage/src/block_iterator.rs 4-8 BlockIterator *)
Record BlockIterator := mkBlockIterator {
  bi_block : Z;
  bi_period : Z;
  bi_headers : BlockHeaderProvider;
}.

(** src: storage/src/block_iterator.rs 23-28 next *)
Definition block_iterator_next {P : Profile} (it : BlockIterator) :
    option (option (Z * IndexedBlockHeader) * BlockIterator) :=
  let result := provider_header (bi_headers it) (RefNumber (bi_block it)) in
  next ← u32_add (bi_block it) (bi_period it);
  Some ((λ header, (bi_block it, header)) <$> result,
        mkBlockIterator next (bi_period it) (bi_headers it)).

(** A path of headers, newest first, each the stored parent of the one before
    it, starting with the header stored under [h]. *)
Fixpoint ancestor_path (store : BlockHeaderProvider) (h : H256) (hs : list IndexedBlockHeader) : Prop :=
  match hs with
  | [] => True
  | x :: hs =>
      provider_header store (RefHash h) = Some x ∧
      ancestor_path store (previous_header_hash (ih_raw x)) hs
  end.

Lemma block_ancestors_take_path store h hs n :
  ancestor_path store h hs →
  take (length hs) (block_ancestors_take n (block_ancestors_new (RefHash h) store)) = take n hs.
Proof.
  unfold block_ancestors_new. revert h n. induction hs as [|x hs IH]; intros h [|n] Hp; try done.
  destruct Hp as [Hx Hp]. simpl. unfold block_ancestors_next. simpl. rewrite Hx. simpl.
  f_equal. by apply IH.
Qed.

Lemma block_ancestors_take_length n it : (length (block_ancestors_take n it) ≤ n)%nat.
Proof.
  revert it. induction n as [|n IH]; intros it; [done|]. cbn [block_ancestors_take].
  destruct (block_ancestors_next it) as [[h|] it']; simpl;
    [apply le_n_S, IH|apply Nat.le_0_l].
Qed.

(** A provider with one header, stored under hash [h] and number [n]. *)
Definition single_provider (h : H256) (n : Z) (header : IndexedBlockHeader) : BlockHeaderProvider :=
  mkBlockHeaderProvider (λ _, None)
    (λ r, match r with
          | RefHash h' => if decide (h' = h) then Some header else None
          | RefNumber n' => if n' =? n then Some header else None
          end).

Lemma single_provider_hash h n header :
  provider_header (single_provider h n header) (RefHash h) = Some header.
Proof. simpl. by rewrite decide_True. Defined.
End storage.
Arguments CanonStore {V}.
