(* ===== verification/Network.v ===== *)
(** * Networks ([network/src/network.rs])

    The parameters of the networks: magic numbers, the easiest target, ports
    and genesis blocks. *)

From S2P Require Import Prelude External Primitives Serialization Compact Crypto Chain.

(** src: network/src/network.rs 12-15 MAGIC_MAINNET *)
Definition MAGIC_MAINNET : Z := 0xD9B4BEF9.
Definition MAGIC_TESTNET : Z := 0x0709110B.
Definition MAGIC_REGTEST : Z := 0xDAB5BFFA.
Definition MAGIC_UNITEST : Z := 0x00000000.

(** src: network/src/network.rs 17-30 MAX_BITS_MAINNET *)
Definition MAX_BITS_MAINNET : Z :=
  0x7fffffffffffffffffffffffffffffffffffffffffffffffffffffffffffffff.
Definition MAX_BITS_TESTNET : Z :=
  0x7fffffffffffffffffffffffffffffffffffffffffffffffffffffffffffffff.
Definition MAX_BITS_REGTEST : Z :=
  0x7fffffffffffffffffffffffffffffffffffffffffffffffffffffffffffffff.

(** src: network/src/network.rs 37-48 Network *)
Inductive Network := Mainnet | Testnet | Regtest | Unitest | Other (value : Z).

#[global] Instance Network_eq_dec : EqDecision Network.
Proof. solve_decision. Defined.

(** src: network/src/network.rs 51-59 magic *)
Definition magic (n : Network) : Z :=
  match n with
  | Mainnet => MAGIC_MAINNET
  | Testnet => MAGIC_TESTNET
  | Regtest => MAGIC_REGTEST
  | Unitest => MAGIC_UNITEST
  | Other value => value
  end.

(** src: network/src/network.rs 61-68 max_bits *)
Definition max_bits {U : U256Ops} (n : Network) : option Z :=
  match n with
  | Mainnet | Other _ => Some MAX_BITS_MAINNET
  | Testnet => Some MAX_BITS_TESTNET
  | Regtest => Some MAX_BITS_REGTEST
  | Unitest => u256_of_compact <$> compact_max_value
  end.

(** src: network/src/network.rs 70-76 port *)
Definition port (n : Network) : Z :=
  match n with
  | Mainnet | Other _ => 8333
  | Testnet => 18333
  | Regtest | Unitest => 18444
  end.

(** src: network/src/network.rs 78-80 dns_port *)
Definition dns_port (n : Network) : Z := 53.

(** src: network/src/network.rs 82-88 rpc_port *)
Definition rpc_port (n : Network) : Z :=
  match n with
  | Mainnet | Other _ => 8332
  | Testnet => 18332
  | Regtest | Unitest => 18443
  end.

Section genesis.
Context {R : RugOps} {H : Sha256Ops} {V : VrfOps}.

(** The three arms of [genesis_block] build the same block; [None] is a failed
    [unwrap] of the public key. *)
(** src: network/src/network.rs 90-138 genesis_block *)
Definition genesis_block (n : Network) : option IndexedBlock :=
  match n with
  | Mainnet | Other _ =>
      pk ← vrf_from_bytes (replicate 32 (byte_of 6));
      Some (indexed_block_from_raw
        (mkBlock (mkBlockHeader 1 (hash_of (replicate 32 (byte_of 0))) 4 (mkCompact 5) pk 100000 8) []))
  | Testnet =>
      pk ← vrf_from_bytes (replicate 32 (byte_of 6));
      Some (indexed_block_from_raw
        (mkBlock (mkBlockHeader 1 (hash_of (replicate 32 (byte_of 0))) 4 (mkCompact 5) pk 100000 8) []))
  | Regtest | Unitest =>
      pk ← vrf_from_bytes (replicate 32 (byte_of 6));
      Some (indexed_block_from_raw
        (mkBlock (mkBlockHeader 1 (hash_of (replicate 32 (byte_of 0))) 4 (mkCompact 5) pk 100000 8) []))
  end.

(** [H256::from_reversed_str] of the hexadecimal digits of [z]. *)
Definition from_reversed_hex (z : Z) : H256 := reversed (hash_of (be_bytes 32 z)).

(** src: network/src/network.rs 140-150 default_verification_edge *)
Definition default_verification_edge (n : Network) : option H256 :=
  match n with
  | Mainnet =>
      Some (from_reversed_hex 0x0000000000000000030abc968e1bd635736e880b946085c93152969b9a81a6e2)
  | Testnet =>
      Some (from_reversed_hex 0x000000000871ee6842d3648317ccc8a435eb8cc3c2429aee94faff9ba26b05a0)
  | _ => ib_hash <$> genesis_block n
  end.
End genesis.

Lemma genesis_block_same {R : RugOps} {H : Sha256Ops} {V : VrfOps} n m :
  genesis_block n = genesis_block m.
Proof. by destruct n, m. Qed.

Lemma genesis_block_header {R : RugOps} {H : Sha256Ops} {V : VrfOps} n b :
  genesis_block n = Some b →
  bits (ih_raw (ib_header b)) = mkCompact 5 ∧ time (ih_raw (ib_header b)) = 4.
Proof.
  intros Hb. rewrite (genesis_block_same n Mainnet) in Hb. simpl in Hb.
  destruct (vrf_from_bytes _); [|done]. injection Hb as <-. done.
Qed.

Lemma max_bits_fits {U : U256Ops} {UL : U256Laws U} n :
  ∃ m, max_bits n = Some m ∧ fits 256 m.
Proof.
  destruct n; try (eexists; split; [reflexivity|done]).
  destruct (from_u256_rounds U256_MAX) as (c & w & E & Hc & Ew & ? & _).
  { unfold fits, U256_MAX. lia. }
  exists w. simpl. unfold compact_max_value. rewrite E. simpl. unfold u256_of_compact.
  rewrite Ew. split; [done|]. by eapply to_u256_fits.
Qed.
