(* ===== verification/Work.v ===== *)
(** * Proof of work and timestamps ([verification/src/work.rs], [timestamp.rs])

    The consensus rules on difficulty: a hash must not exceed the target a
    header claims, the target is adjusted every 2016 blocks by the time they
    took, and on the test network it may fall back to the easiest one.  [None]
    is a panic: a missing header ([expect]), a failed assertion, or an
    arithmetic overflow in a build that checks for it. *)

From stdpp Require Import sorting.
From S2P Require Import Prelude External Primitives Serialization Compact Crypto Chain.
From S2P Require Import Storage Network.

(** ** Constants *)

(** src: verification/src/constants.rs 3-6 BLOCK_MAX_FUTURE *)
Definition BLOCK_MAX_FUTURE : Z := 2 * 60 * 60.

(** src: verification/src/constants.rs 8-18 RETARGETING_INTERVAL *)
Definition RETARGETING_FACTOR : Z := 4.
Definition TARGET_SPACING_SECONDS : Z := 10 * 60.
Definition DOUBLE_SPACING_SECONDS : Z := 2 * TARGET_SPACING_SECONDS.
Definition TARGET_TIMESPAN_SECONDS : Z := 2 * 7 * 24 * 60 * 60.
Definition MIN_TIMESPAN : Z := TARGET_TIMESPAN_SECONDS / RETARGETING_FACTOR.
Definition MAX_TIMESPAN : Z := TARGET_TIMESPAN_SECONDS * RETARGETING_FACTOR.
Definition RETARGETING_INTERVAL : Z := TARGET_TIMESPAN_SECONDS / TARGET_SPACING_SECONDS.

(** ** Difficulty *)

(** src: verification/src/work.rs 14-16 is_retarget_height *)
Definition is_retarget_height (height : Z) : bool := height mod RETARGETING_INTERVAL =? 0.

(** src: verification/src/work.rs 18-20 range_constrain *)
Definition range_constrain (value min max : Z) : Z := Z.min (Z.max value min) max.

(** src: verification/src/work.rs 51-56 retarget_timespan *)
Definition retarget_timespan (retarget_timestamp last_timestamp : Z) : Z :=
  let timespan := last_timestamp - retarget_timestamp in
  wrap 32 (range_constrain timespan MIN_TIMESPAN MAX_TIMESPAN).

(** src: verification/src/work.rs 163-169 block_reward_satoshi *)
Definition block_reward_satoshi (block_height : Z) : Z :=
  Nat.iter (Z.to_nat (block_height / 210000)) (λ res, res / 2) (50 * 100 * 1000 * 1000).

Section work.
Context {U : U256Ops} {V : VrfOps} {P : Profile}.

(** src: verification/src/work.rs 23-31 is_valid_proof_of_work_hash *)
Definition is_valid_proof_of_work_hash (bits : Compact) (hash : H256) : bool :=
  match to_u256 bits with
  | Ok target =>
      let value := u256_from_be (hash_bytes (reversed hash)) in
      value <=? target
  | Err _ => false
  end.

(** src: verification/src/work.rs 35-48 is_valid_proof_of_work *)
Definition is_valid_proof_of_work (max_work_bits bits : Compact) (hash : H256) : bool :=
  match to_u256 max_work_bits with
  | Ok maximum =>
      match to_u256 bits with
      | Ok target =>
          let value := u256_from_be (hash_bytes (reversed hash)) in
          (target <=? maximum) && (value <=? target)
      | Err _ => false
      end
  | Err _ => false
  end.

(** src: verification/src/work.rs 132-161 work_required_retarget *)
Definition work_required_retarget (parent_header : IndexedBlockHeader) (height : Z)
    (store : BlockHeaderProvider) (max_work_bits : Compact) : option Compact :=
  retarget_ref ← u32_sub height RETARGETING_INTERVAL;
  retarget_header ← provider_header store (RefNumber retarget_ref);
  let retarget_timestamp := time (ih_raw retarget_header) in
  let last_timestamp := time (ih_raw parent_header) in
  let last_bits := bits (ih_raw parent_header) in
  let retarget := u256_of_compact last_bits in
  let maximum := u256_of_compact max_work_bits in
  retarget ← u256_mul retarget (retarget_timespan retarget_timestamp last_timestamp);
  retarget ← u256_div retarget TARGET_TIMESPAN_SECONDS;
  if maximum <? retarget then Some max_work_bits else from_u256 retarget.

(** The first loop of [work_required_testnet]: the bits of up to [n] headers. *)
Fixpoint collect_bits (n : nat) (store : BlockHeaderProvider) (block_ref : BlockRef) : list Compact :=
  match n with
  | O => []
  | S n =>
      match provider_header store block_ref with
      | Some h => bits (ih_raw h) :: collect_bits n store (RefHash (previous_header_hash (ih_raw h)))
      | None => []
      end
  end.

(** The second loop, from position [index]. *)
Fixpoint find_bits (l : list Compact) (index height : Z) (max_bits : Compact) : option Compact :=
  match l with
  | [] => Some max_bits
  | bit :: l =>
      if negb (bool_decide (bit = max_bits)) then Some bit
      else
        h ← u32_sub height index;
        h ← u32_sub h 1;
        if is_retarget_height h then Some bit else find_bits l (index + 1) height max_bits
  end.

(** src: verification/src/work.rs 86-129 work_required_testnet *)
Definition work_required_testnet (parent_hash : H256) (time : Z) (height : Z)
    (store : BlockHeaderProvider) (network : Network) : option Compact :=
  _ ← rust_assert (negb (height =? 0));
  parent_header ← provider_header store (RefHash parent_hash);
  max_time_gap ← u32_add (Chain.time (ih_raw parent_header)) DOUBLE_SPACING_SECONDS;
  max ← max_bits network;
  max_bits ← from_u256 max;
  if max_time_gap <? time then Some max_bits
  else
    find_bits (collect_bits (Z.to_nat RETARGETING_INTERVAL) store (RefHash parent_hash))
      0 height max_bits.

(** src: verification/src/work.rs 59-84 work_required *)
Definition work_required (parent_hash : H256) (time : Z) (height : Z)
    (store : BlockHeaderProvider) (network : Network) : option Compact :=
  max ← max_bits network;
  max_bits ← from_u256 max;
  if height =? 0 then Some max_bits
  else
    parent_header ← provider_header store (RefHash parent_hash);
    if is_retarget_height height then work_required_retarget parent_header height store max_bits
    else if decide (network = Testnet)
         then work_required_testnet parent_hash time height store Testnet
         else Some (bits (ih_raw parent_header)).

(** ** Median of the timestamps of up to eleven ancestors *)

(** src: verification/src/timestamp.rs 15-30 median_timestamp_inclusive *)
Definition median_timestamp_inclusive (previous_header_hash : H256)
    (store : BlockHeaderProvider) : Z :=
  let timestamps :=
    (λ header, time (ih_raw header)) <$>
      block_ancestors_take 11 (block_ancestors_new (RefHash previous_header_hash) store) in
  match timestamps with
  | [] => 0
  | _ => nth (length timestamps / 2) (merge_sort Z.le timestamps) 0
  end.

(** src: verification/src/timestamp.rs 8-10 median_timestamp *)
Definition median_timestamp (header : BlockHeader) (store : BlockHeaderProvider) : Z :=
  median_timestamp_inclusive (previous_header_hash header) store.
End work.

(** ** Lemmas *)

Lemma retarget_timespan_range a b :
  u32 a → u32 b → MIN_TIMESPAN ≤ retarget_timespan a b ≤ MAX_TIMESPAN ∧
  (MIN_TIMESPAN ≤ b - a ≤ MAX_TIMESPAN → retarget_timespan a b = b - a).
Proof.
  intros Ha Hb. unfold retarget_timespan, range_constrain.
  change MIN_TIMESPAN with 302400. change MAX_TIMESPAN with 4838400.
  rewrite wrap_small by (unfold fits; lia). lia.
Qed.

Lemma block_reward_halves n : 0 ≤ n →
  block_reward_satoshi (210000 * n) = 5000000000 / 2 ^ n.
Proof.
  intros Hn. unfold block_reward_satoshi. rewrite Z.mul_comm, Z.div_mul by lia.
  rewrite <-(Z2Nat.id n) at 2 by done. generalize (Z.to_nat n). clear n Hn. intros n.
  induction n as [|n IH]; [done|]. simpl Nat.iter. rewrite IH, Nat2Z.inj_succ, Z.pow_succ_r by lia.
  rewrite Z.div_div by (try apply Z.pow_pos_nonneg; lia). f_equal. lia.
Qed.

Section work_laws.
Context {U : U256Ops} {UL : U256Laws U} {V : VrfOps} {P : Profile}.

(** The number a hash stands for: its bytes, least significant first. *)
Lemma hash_value (h : H256) : u256_from_be (hash_bytes (reversed h)) = le_val (hash_bytes h).
Proof.
  rewrite u256_from_be_spec by apply hash_length. unfold be_val.
  by rewrite hash_bytes_reversed, reverse_involutive.
Qed.

Lemma is_valid_pow_iff max bits h :
  is_valid_proof_of_work max bits h = true ↔
  ∃ maximum target, to_u256 max = Ok maximum ∧ to_u256 bits = Ok target ∧
    le_val (hash_bytes h) ≤ target ≤ maximum.
Proof.
  unfold is_valid_proof_of_work. rewrite hash_value.
  destruct (to_u256 max) as [maximum|], (to_u256 bits) as [target|].
  2-4: split; [done|by intros (? & ? & ? & ? & _)].
  rewrite andb_true_iff, !Z.leb_le. split.
  - intros [? ?]. by exists maximum, target.
  - intros (? & ? & [= <-] & [= <-] & ? & ?). done.
Qed.

Lemma is_valid_pow_hash_iff bits h :
  is_valid_proof_of_work_hash bits h = true ↔
  ∃ target, to_u256 bits = Ok target ∧ le_val (hash_bytes h) ≤ target.
Proof.
  unfold is_valid_proof_of_work_hash. rewrite hash_value.
  destruct (to_u256 bits) as [target|].
  - rewrite Z.leb_le. split; [by exists target|]. by intros (? & [= <-] & ?).
  - split; [done|]. by intros (? & ? & _).
Qed.

(** The packed easiest target of a network: it exists and unpacks. *)
Lemma max_bits_packed n :
  ∃ m c w, max_bits n = Some m ∧ from_u256 m = Some c ∧ to_u256 c = Ok w ∧ w ≤ m ∧
    u32 (compact_u32 c).
Proof.
  destruct (max_bits_fits n) as (m & Em & Hm).
  destruct (from_u256_rounds m Hm) as (c & w & Ec & Hc & Ew & Hw & _).
  exists m, c, w. split_and!; try done; lia.
Qed.

(** ** The walk back on the test network *)

Lemma collect_bits_path store h hs n :
  ancestor_path store h hs →
  ∃ rest, collect_bits n store (RefHash h) = take n ((λ x, bits (ih_raw x)) <$> hs) ++ rest.
Proof.
  revert h hs. induction n as [|n IH]; intros h hs Hp; [by exists []|].
  destruct hs as [|x hs]; [by eexists|].
  destruct Hp as [Hx Hp]. simpl. rewrite Hx. destruct (IH _ _ Hp) as [rest E].
  exists rest. by rewrite E.
Qed.

(** The search stops at the first position whose bits are not the easiest or
    whose height is a retarget height; one such height at offset [k] is enough
    for it to stop there or before. *)
Lemma find_bits_stops l index height max k :
  0 ≤ index → u32 height → index + Z.of_nat k + 1 ≤ height → (k < length l)%nat →
  is_retarget_height (height - index - Z.of_nat k - 1) = true →
  ∃ i b, (i ≤ k)%nat ∧ l !! i = Some b ∧ find_bits l index height max = Some b ∧
    (b ≠ max ∨ is_retarget_height (height - index - Z.of_nat i - 1) = true) ∧
    ∀ j, (j < i)%nat →
      l !! j = Some max ∧ is_retarget_height (height - index - Z.of_nat j - 1) = false.
Proof.
  revert index k. induction l as [|b l IH]; intros index k Hi Hh Hk Hlen Hr; simpl in *; [lia|].
  destruct (bool_decide_reflect (b = max)) as [->|Hne]; simpl.
  2: { exists 0%nat, b. split_and!; try done; [lia|by left|lia]. }
  rewrite u32_sub_fits by (unfold fits in *; lia). cbn [mbind option_bind].
  rewrite u32_sub_fits by (unfold fits in *; lia). cbn [mbind option_bind].
  destruct (is_retarget_height (height - index - 1)) eqn:E.
  - exists 0%nat, max. split_and!; try done; [lia| |lia]. right. by rewrite Z.sub_0_r.
  - destruct k as [|k]; [by rewrite Z.sub_0_r, E in Hr|].
    destruct (IH (index + 1) k) as (i & b & ? & ? & ? & Hb & Hbefore); [lia|done|lia|lia| |].
    { rewrite <-Hr. f_equal. lia. }
    exists (S i), b. split_and!; try done; [lia| |].
    + destruct Hb as [?|Hb]; [by left|]. right. rewrite <-Hb. f_equal. lia.
    + intros [|j'] Hj; [split; [done|]; by rewrite Z.sub_0_r|].
      destruct (Hbefore j') as [? Hj']; [lia|]. split; [done|]. rewrite <-Hj'. f_equal. lia.
Qed.

(** A retarget height is met within one interval. *)
Lemma retarget_height_near height : 0 < height →
  let k := Z.to_nat ((height - 1) mod RETARGETING_INTERVAL) in
  Z.of_nat k + 1 ≤ height ∧ (k < Z.to_nat RETARGETING_INTERVAL)%nat ∧
  is_retarget_height (height - 0 - Z.of_nat k - 1) = true.
Proof.
  intros Hh. unfold is_retarget_height. change RETARGETING_INTERVAL with 2016.
  pose proof (Z.mod_pos_bound (height - 1) 2016 ltac:(lia)) as Hm.
  pose proof (Z.div_mod (height - 1) 2016 ltac:(lia)) as Hd.
  pose proof (Z.div_pos (height - 1) 2016 ltac:(lia) ltac:(lia)) as Hq.
  cbn zeta. rewrite Z2Nat.id by lia. split; [lia|]. split; [lia|].
  apply Z.eqb_eq. replace (height - 0 - (height - 1) mod 2016 - 1)
    with ((height - 1) / 2016 * 2016) by lia. apply Z.mod_mul. lia.
Qed.

(** C30: on the test network a block that comes at most twenty minutes after
    its parent takes the bits of its nearest ancestor whose bits are not the
    network's easiest or which opens a retarget interval; the walk back finds
    one before it runs out of headers or past genesis, so the fallback after
    it is never reached. *)
Theorem testnet_walks_to_real_bits store parent_hash parent hs time height max maxc :
  0 < height → u32 height → ancestor_path store parent_hash hs → length hs = Z.to_nat height →
  hs !! 0%nat = Some parent → u32 (Chain.time (ih_raw parent) + DOUBLE_SPACING_SECONDS) →
  time ≤ Chain.time (ih_raw parent) + DOUBLE_SPACING_SECONDS →
  max_bits Testnet = Some max → from_u256 max = Some maxc →
  ∃ i h, hs !! i = Some h ∧ (i < Z.to_nat RETARGETING_INTERVAL)%nat ∧
    work_required_testnet parent_hash time height store Testnet = Some (bits (ih_raw h)) ∧
    (bits (ih_raw h) ≠ maxc ∨ is_retarget_height (height - 1 - Z.of_nat i) = true) ∧
    ∀ j, (j < i)%nat → is_retarget_height (height - 1 - Z.of_nat j) = false ∧
      ∃ h', hs !! j = Some h' ∧ bits (ih_raw h') = maxc.
Proof.
  intros Hh Hh32 Hp Hlen H0 Hgap Htime Em Ec. unfold work_required_testnet.
  rewrite (proj2 (Z.eqb_neq height 0)) by lia. cbn [negb rust_assert mbind option_bind].
  assert (provider_header store (RefHash parent_hash) = Some parent) as ->.
  { destruct hs; [done|]. destruct Hp as [-> _]. done. }
  cbn [mbind option_bind]. rewrite u32_add_fits by done. cbn [mbind option_bind].
  rewrite Em. cbn [mbind option_bind]. rewrite Ec. cbn [mbind option_bind].
  rewrite (proj2 (Z.ltb_ge _ _)) by done.
  destruct (retarget_height_near height Hh) as (Hk & Hk' & Hr).
  set (k := Z.to_nat ((height - 1) mod RETARGETING_INTERVAL)) in *.
  destruct (collect_bits_path store parent_hash hs (Z.to_nat RETARGETING_INTERVAL) Hp) as [rest ->].
  assert ((k < length (take (Z.to_nat RETARGETING_INTERVAL) ((λ x, bits (ih_raw x)) <$> hs)))%nat)
    as Hkl by (rewrite length_take, length_fmap; lia).
  assert (∀ j b, (j ≤ k)%nat →
    (take (Z.to_nat RETARGETING_INTERVAL) ((λ x, bits (ih_raw x)) <$> hs) ++ rest) !! j = Some b →
    ∃ h, hs !! j = Some h ∧ bits (ih_raw h) = b) as Hlookup.
  { intros j b Hj. rewrite lookup_app_l, lookup_take_lt by lia. rewrite list_lookup_fmap.
    destruct (hs !! j) as [h|]; [|done]. intros [= <-]. by exists h. }
  destruct (find_bits_stops (take (Z.to_nat RETARGETING_INTERVAL)
    ((λ x, bits (ih_raw x)) <$> hs) ++ rest) 0 height maxc k)
    as (i & b & Hi & Hlk & Hf & Hb & Hbefore); [done|done|lia|rewrite length_app; lia|done|].
  destruct (Hlookup i b Hi Hlk) as (h & Hh' & <-). exists i, h.
  replace (height - 1 - Z.of_nat i) with (height - 0 - Z.of_nat i - 1) by lia.
  split_and!; try done; [lia|]. intros j Hj. destruct (Hbefore j Hj) as [Hj1 Hj2].
  replace (height - 1 - Z.of_nat j) with (height - 0 - Z.of_nat j - 1) by lia.
  split; [done|]. by apply Hlookup; [lia|].
Qed.

(** ** The median *)

Lemma sorted_rank (l : list Z) i m : StronglySorted Z.le l → l !! i = Some m →
  (length (filter (λ x, (x < m)%Z) l) ≤ i)%nat ∧
  (length (filter (λ x, (m < x)%Z) l) ≤ length l - i - 1)%nat.
Proof.
  intros Hs Hi. rewrite <-(take_drop_middle l i m Hi) in Hs |- *.
  pose proof (lookup_lt_Some _ _ _ Hi) as Hlt.
  apply StronglySorted_app in Hs as (Hall & _ & Hsr).
  apply StronglySorted_inv in Hsr as [_ Hm].
  rewrite !list.filter_app, !length_app, !filter_cons.
  rewrite (decide_False (P := m < m)) by lia. rewrite (decide_False (P := m < m)) by lia.
  split.
  - rewrite (filter_none _ (drop (S i) l)).
    + pose proof (length_filter (λ x, (x < m)%Z) (take i l)). rewrite length_take in H. simpl. lia.
    + intros x Hin. rewrite List.Forall_forall in Hm. apply list_elem_of_In, Hm in Hin. lia.
  - rewrite (filter_none _ (take i l)).
    + pose proof (length_filter (λ x, (m < x)%Z) (drop (S i) l)). rewrite length_drop in H.
      rewrite length_take. simpl. rewrite length_drop. lia.
    + intros x Hin. pose proof (Hall x m Hin ltac:(left)). lia.
Qed.
(** The median.  With at least one ancestor, the median timestamp is the
    timestamp of one of the (at most eleven) nearest ancestors, and at most
    half of them are earlier and at most half are later. *)
Theorem median_timestamp_median (header : BlockHeader) (store : BlockHeaderProvider) ts :
  ts = (λ h, time (ih_raw h)) <$>
    block_ancestors_take 11 (block_ancestors_new (RefHash (previous_header_hash header)) store) →
  ts ≠ [] →
  let m := median_timestamp header store in
  m ∈ ts ∧ (length ts ≤ 11)%nat ∧
  (2 * length (filter (λ t, (t < m)%Z) ts) ≤ length ts)%nat ∧
  (2 * length (filter (λ t, (m < t)%Z) ts) ≤ length ts)%nat.
Proof.
  intros -> Hne m. unfold median_timestamp, median_timestamp_inclusive in m. fold m.
  set (l := (λ h, time (ih_raw h)) <$> _) in *.
  assert (length l ≤ 11)%nat as Hlen by (unfold l; rewrite length_fmap; apply block_ancestors_take_length).
  assert (merge_sort Z.le l !! (length l / 2)%nat = Some m) as Hm.
  { destruct l as [|t l']; [done|]. unfold m. rewrite nth_lookup.
    destruct (lookup_lt_is_Some_2 (merge_sort Z.le (t :: l')) (length (t :: l') / 2)) as [x Hx].
    - rewrite merge_sort_Permutation. apply Nat.div_lt; simpl; lia.
    - by rewrite Hx. }
  assert (merge_sort Z.le l ≡ₚ l) as Hperm by apply merge_sort_Permutation.
  destruct (sorted_rank _ _ _ (StronglySorted_merge_sort Z.le l) Hm) as [Hlo Hhi].
  rewrite Hperm in Hlo, Hhi.
  pose proof (Nat.div_mod (length l) 2 ltac:(lia)) as Hd.
  pose proof (Nat.mod_upper_bound (length l) 2 ltac:(lia)).
  assert (length l ≠ 0)%nat by (by destruct l).
  split_and!; [|done|lia|lia].
  rewrite <-Hperm. by apply list_elem_of_lookup_2 in Hm.
Qed.

(** C29: retargeting.  At a retarget height, when the parent's target leaves
    room for the multiplication, the new target is the parent's target scaled
    by the constrained time the interval took, at least a quarter and at most
    four times it, rounded down by less than one part in [2 ^ 15], and never
    easier than the network allows. *)
Theorem work_required_retarget_scales parent retarget_header height store max_work_bits target maximum :
  RETARGETING_INTERVAL ≤ height → u32 height →
  provider_header store (RefNumber (height - RETARGETING_INTERVAL)) = Some retarget_header →
  u32 (time (ih_raw retarget_header)) → u32 (time (ih_raw parent)) →
  u32 (compact_u32 (bits (ih_raw parent))) → u32 (compact_u32 max_work_bits) →
  to_u256 (bits (ih_raw parent)) = Ok target → to_u256 max_work_bits = Ok maximum →
  target * MAX_TIMESPAN < 2 ^ 256 →
  let ts := retarget_timespan (time (ih_raw retarget_header)) (time (ih_raw parent)) in
  let ideal := Z.min maximum (target * ts / TARGET_TIMESPAN_SECONDS) in
  ∃ c w, work_required_retarget parent height store max_work_bits = Some c ∧
    to_u256 c = Ok w ∧ w ≤ ideal ∧ (ideal - w) * 2 ^ 15 ≤ ideal ∧
    target / 4 ≤ target * ts / TARGET_TIMESPAN_SECONDS ≤ target * 4.
Proof.
  intros Hh Hh32 Er Hrt Hpt Hpb Hmb Et Em Hlt ts ideal.
  destruct (retarget_timespan_range _ _ Hrt Hpt) as [Hts _]. fold ts in Hts.
  pose proof (to_u256_fits _ _ Hpb Et) as [Ht0 Ht1].
  change MIN_TIMESPAN with 302400 in Hts. change MAX_TIMESPAN with 4838400 in *.
  change TARGET_TIMESPAN_SECONDS with 1209600 in *.
  assert (target * ts < 2 ^ 256) as Hmul by nia.
  assert (fits 256 (target * ts)) as Hmf by (unfold fits; nia).
  assert (0 ≤ target * ts / 1209600 < 2 ^ 256) as Hq.
  { split; [apply Z.div_pos; lia|]. apply Z.div_lt_upper_bound; lia. }
  assert (target / 4 ≤ target * ts / 1209600 ≤ target * 4) as Hfour.
  { split; [|apply Z.div_le_upper_bound; nia].
    apply Z.div_le_lower_bound; [lia|].
    pose proof (Z.mul_div_le target 4 ltac:(lia)). nia. }
  unfold work_required_retarget.
  rewrite u32_sub_fits by (unfold fits in *; change RETARGETING_INTERVAL with 2016 in *; lia).
  cbn [mbind option_bind]. rewrite Er. cbn [mbind option_bind]. unfold u256_of_compact.
  rewrite Et, Em. fold ts. rewrite u256_mul_exact by (unfold fits in *; lia).
  cbn [mbind option_bind]. change TARGET_TIMESPAN_SECONDS with 1209600.
  rewrite u256_div_spec by (unfold fits in *; lia). cbn [mbind option_bind].
  destruct (Z.ltb_spec maximum (target * ts / 1209600)).
  - exists max_work_bits, maximum. unfold ideal. rewrite Z.min_l by lia.
    pose proof (to_u256_fits _ _ Hmb Em) as [? ?]. split_and!; try done; lia.
  - destruct (from_u256_rounds (target * ts / 1209600)) as (c & w & Ec & _ & Ew & ? & ? & _); [done|].
    exists c, w. unfold ideal. rewrite Z.min_r by lia. split_and!; try done; lia.
Qed.
End work_laws.

(** ** Concrete chains *)

Section work_examples.
Import Reference.
#[local] Instance checked_profile : Profile := true.

Definition example_indexed (bits : Compact) (time : Z) : IndexedBlockHeader :=
  indexed_header_from_raw (mkBlockHeader 1 hash_default time bits example_key 1024 3).

(** Two weeks and a half instead of two: the target grows. *)
Lemma work_required_retarget_scales_witness :
  ∃ c w, work_required_retarget (example_indexed (mkCompact 0x1d00ffff) 1512000) 2016
           (single_provider hash_default 0 (example_indexed (mkCompact 0x1d00ffff) 0))
           (mkCompact 0x207fffff) = Some c ∧ to_u256 c = Ok w.
Proof.
  destruct (work_required_retarget_scales (example_indexed (mkCompact 0x1d00ffff) 1512000)
    (example_indexed (mkCompact 0x1d00ffff) 0) 2016
    (single_provider hash_default 0 (example_indexed (mkCompact 0x1d00ffff) 0))
    (mkCompact 0x207fffff) (0xffff * 2 ^ 208) (0x7fffff * 2 ^ 232)) as (c & w & Hc & Hw & _);
    [first [reflexivity|done]..|].
  exists c, w. split; [exact Hc|exact Hw].
Defined.

Lemma testnet_walks_to_real_bits_witness :
  ∃ b, work_required_testnet hash_default 600 1
         (single_provider hash_default 0 (example_indexed (mkCompact 0x207fffff) 0)) Testnet = Some b.
Proof.
  destruct (testnet_walks_to_real_bits
    (single_provider hash_default 0 (example_indexed (mkCompact 0x207fffff) 0)) hash_default
    (example_indexed (mkCompact 0x207fffff) 0) [example_indexed (mkCompact 0x207fffff) 0] 600 1
    MAX_BITS_TESTNET (mkCompact 0x207fffff)) as (i & h & _ & _ & Hw & _);
    [first [reflexivity|done]..|].
  eexists. exact Hw.
Defined.

Lemma median_timestamp_median_witness :
  median_timestamp (ih_raw (example_indexed (mkCompact 5) 10))
    (single_provider hash_default 0 (example_indexed (mkCompact 5) 7)) ∈
  replicate 11 7.
Proof.
  apply (median_timestamp_median (ih_raw (example_indexed (mkCompact 5) 10))
    (single_provider hash_default 0 (example_indexed (mkCompact 5) 7)) (replicate 11 7));
    [vm_compute; reflexivity|discriminate].
Defined.
End work_examples.
