(* ===== verification/Verification.v ===== *)
(** * Consensus verification ([verification] crate)

    [ChainVerifier] checks a block on its own (VDF proof, proof of work, not
    from the future), [ChainAcceptor] checks it against its ancestors (required
    difficulty, median timestamp), and [BackwardsCompatibleChainVerifier] runs
    both, choosing the store or a fork of it by the block's origin.  The time of
    day is a parameter.  A result is [None] when the code panics. *)

From S2P Require Import Prelude External Primitives Serialization Compact Crypto Chain.
From S2P Require Import Vdf Storage Network Work.

(** src: verification/src/error.rs 6-25 Error *)
Inductive VError :=
| Duplicate
| Pow
| Vdf
| FuturisticTimestamp
| Timestamp
| Difficulty (expected actual : Compact)
| NonFinalBlock
| OldVersionBlock
| Database (err : DbError).

#[global] Instance VError_eq_dec : EqDecision VError.
Proof. solve_decision. Defined.

(** src: verification/src/lib.rs 113-120 VerificationLevel *)
Inductive VerificationLevel := Full | Header | NoVerification.

#[global] Instance VerificationLevel_eq_dec : EqDecision VerificationLevel.
Proof. solve_decision. Defined.

(** A check that may panic. *)
Definition check_result := option (result VError unit).

(** [a?; b] *)
Definition then_check (a b : check_result) : check_result :=
  match a with Some (Ok _) => b | r => r end.

Lemma then_check_ok a b : then_check a b = Some (Ok tt) ↔ a = Some (Ok tt) ∧ b = Some (Ok tt).
Proof. destruct a as [[[]|]|]; simpl; naive_solver. Qed.

Section verification.
Context {U : U256Ops} {R : RugOps} {H : Sha256Ops} {V : VrfOps} {P : Profile}.

(** ** Pre-verification *)

(** The bytes of a header that the VDF input depends on. *)
Definition vdf_input (version : Z) (previous : H256) (time : Z) (bits : Compact) (pk : VrfPk) : list byte :=
  out (append ser_bytes (vrf_to_bytes pk)
        (append ser_compact bits
          (append ser_u32 time
            (append (ser_hash 32) previous (append ser_u32 version stream_new))))).

(** The residue a seed expands to. *)
Definition residue (data : list byte) : Z :=
  expand_2048 (ascii_bytes "residue_part_") (hash_bytes (dhash256 data)).

(** src: verification/src/verify_block.rs 9-33 h_g *)
Definition h_g (block : IndexedBlock) : Z :=
  let raw := ih_raw (ib_header block) in
  residue (vdf_input (version raw) (previous_header_hash raw) (time raw) (bits raw) (pubkey raw)).

(** src: verification/src/verify_block.rs 51-73 BlockVDF *)
Definition block_vdf_check (block : IndexedBlock) : check_result :=
  let g := h_g block in
  let raw := ih_raw (ib_header block) in
  b ← verify g (randomness raw) (iterations raw) (ib_proof block);
  Some (if b : bool then Ok tt else Err Vdf).

(** src: verification/src/verify_block.rs 35-49 BlockVerifier *)
Definition block_verifier_check (block : IndexedBlock) : check_result := block_vdf_check block.

(** src: verification/src/verify_header.rs 28-31 HeaderProofOfWork *)
Record HeaderProofOfWork := mkHeaderProofOfWork {
  hpow_header : IndexedBlockHeader;
  hpow_max_work_bits : Compact;
}.

(** src: verification/src/verify_header.rs 34-39 new *)
Definition header_pow_new (header : IndexedBlockHeader) (network : Network) : option HeaderProofOfWork :=
  m ← max_bits network;
  c ← from_u256 m;
  Some (mkHeaderProofOfWork header c).

(** src: verification/src/verify_header.rs 41-47 check *)
Definition header_pow_check (s : HeaderProofOfWork) : check_result :=
  if is_valid_proof_of_work (hpow_max_work_bits s) (bits (ih_raw (hpow_header s)))
       (ih_hash (hpow_header s))
  then Some (Ok tt) else Some (Err Pow).

(** src: verification/src/verify_header.rs 50-54 HeaderTimestamp *)
Record HeaderTimestamp := mkHeaderTimestamp {
  ht_header : IndexedBlockHeader;
  ht_current_time : Z;
  ht_max_future : Z;
}.

(** src: verification/src/verify_header.rs 65-71 check *)
Definition header_timestamp_check (s : HeaderTimestamp) : check_result :=
  limit ← u32_add (ht_current_time s) (ht_max_future s);
  Some (if limit <? time (ih_raw (ht_header s)) then Err FuturisticTimestamp else Ok tt).

(** src: verification/src/verify_header.rs 8-11 HeaderVerifier *)
Record HeaderVerifier := mkHeaderVerifier {
  hv_proof_of_work : HeaderProofOfWork;
  hv_timestamp : HeaderTimestamp;
}.

(** src: verification/src/verify_header.rs 14-19 new *)
Definition header_verifier_new (header : IndexedBlockHeader) (network : Network) (current_time : Z) :
    option HeaderVerifier :=
  pow ← header_pow_new header network;
  Some (mkHeaderVerifier pow (mkHeaderTimestamp header current_time (wrap 32 BLOCK_MAX_FUTURE))).

(** src: verification/src/verify_header.rs 21-25 check *)
Definition header_verifier_check (s : HeaderVerifier) : check_result :=
  then_check (header_pow_check (hv_proof_of_work s))
    (then_check (header_timestamp_check (hv_timestamp s)) (Some (Ok tt))).

(** src: verification/src/verify_chain.rs 7-10 ChainVerifier *)
Record ChainVerifier := mkChainVerifier {
  cv_block : IndexedBlock;
  cv_header : HeaderVerifier;
}.

(** src: verification/src/verify_chain.rs 13-19 new *)
Definition chain_verifier_new (block : IndexedBlock) (network : Network) (current_time : Z) :
    option ChainVerifier :=
  hv ← header_verifier_new (ib_header block) network current_time;
  Some (mkChainVerifier block hv).

(** src: verification/src/verify_chain.rs 21-25 check *)
Definition chain_verifier_check (s : ChainVerifier) : check_result :=
  then_check (block_verifier_check (cv_block s))
    (then_check (header_verifier_check (cv_header s)) (Some (Ok tt))).

(** ** Full verification *)

(** src: verification/src/accept_header.rs 55-57 check *)
Definition header_version_check : check_result := Some (Ok tt).

(** src: verification/src/accept_header.rs 82-100 check *)
Definition header_work_check (header : IndexedBlockHeader) (store : BlockHeaderProvider)
    (height : Z) (network : Network) : check_result :=
  work ← work_required (previous_header_hash (ih_raw header)) (time (ih_raw header))
           height store network;
  Some (if decide (work = bits (ih_raw header)) then Ok tt
        else Err (Difficulty work (bits (ih_raw header)))).

(** src: verification/src/accept_header.rs 117-124 check *)
Definition header_median_check (header : IndexedBlockHeader) (store : BlockHeaderProvider) :
    check_result :=
  Some (if time (ih_raw header) <=? median_timestamp (ih_raw header) store
        then Err Timestamp else Ok tt).

(** src: verification/src/accept_header.rs 16-34 HeaderAcceptor *)
Definition header_acceptor_check (store : BlockHeaderProvider) (network : Network)
    (header : IndexedBlockHeader) (height : Z) : check_result :=
  then_check header_version_check
    (then_check (header_work_check header store height network)
      (then_check (header_median_check header store) (Some (Ok tt)))).

(** src: verification/src/accept_block.rs 10-41 BlockAcceptor *)
Definition block_acceptor_check (block : IndexedBlock) (height : Z)
    (headers : BlockHeaderProvider) : check_result := Some (Ok tt).

(** src: verification/src/accept_chain.rs 13-33 ChainAcceptor *)
Definition chain_acceptor_check (header_provider : BlockHeaderProvider) (network : Network)
    (block : IndexedBlock) (height : Z) : check_result :=
  then_check (block_acceptor_check block height header_provider)
    (then_check (header_acceptor_check header_provider network (ib_header block) height)
      (Some (Ok tt))).

(** The consistency [assert_eq!] of [verify_block]. *)
Definition best_block_assert (store : CanonStore) : option unit :=
  rust_assert (bool_decide
    (Some (bb_hash (cs_best_block store)) = cs_block_hash store (bb_number (cs_best_block store)))).

(** Accepting a block in the store or in the fork its origin calls for. *)
(** src: verification/src/chain_verifier.rs 54-83 verify_block *)
Definition accept_by_origin (store : CanonStore) (network : Network) (block : IndexedBlock)
    (origin : BlockOrigin) : check_result :=
  match origin with
  | KnownBlock => None
  | CanonChain block_number =>
      chain_acceptor_check (cs_header_provider store) network block block_number
  | SideChain origin | SideChainBecomingCanonChain origin =>
      match cs_fork store origin with
      | Err e => Some (Err (Database e))
      | Ok fork => chain_acceptor_check fork network block (origin_block_number origin)
      end
  end.

(** src: verification/src/chain_verifier.rs 27-90 verify_block *)
Definition verify_block (store : CanonStore) (network : Network) (now : Z)
    (verification_level : VerificationLevel) (block : IndexedBlock) : check_result :=
  if decide (verification_level = NoVerification) then Some (Ok tt)
  else
    let current_time := wrap 32 now in
    chain_verifier ← chain_verifier_new block network current_time;
    then_check (chain_verifier_check chain_verifier)
      (_ ← best_block_assert store;
       match cs_block_origin store (ib_header block) with
       | Err e => Some (Err (Database e))
       | Ok block_origin =>
           then_check (accept_by_origin store network block block_origin)
             (_ ← best_block_assert store; Some (Ok tt))
       end).

(** src: verification/src/chain_verifier.rs 92-104 verify_block_header *)
Definition verify_block_header (network : Network) (now : Z) (hash : H256) (header : BlockHeader) :
    check_result :=
  let current_time := wrap 32 now in
  hv ← header_verifier_new (mkIndexedBlockHeader hash header) network current_time;
  header_verifier_check hv.

(** ** The rules as propositions *)

(** What a block must satisfy on its own. *)
Definition valid_alone (network : Network) (current_time : Z) (block : IndexedBlock) : Prop :=
  let raw := ih_raw (ib_header block) in
  verify (h_g block) (randomness raw) (iterations raw) (ib_proof block) = Some true ∧
  (∃ m maxc maximum target,
     max_bits network = Some m ∧ from_u256 m = Some maxc ∧ to_u256 maxc = Ok maximum ∧
     to_u256 (bits raw) = Ok target ∧
     le_val (hash_bytes (ih_hash (ib_header block))) ≤ target ≤ maximum) ∧
  ∃ limit, u32_add current_time BLOCK_MAX_FUTURE = Some limit ∧ time raw ≤ limit.

(** What it must satisfy as a child of headers in [headers], at [height]. *)
Definition valid_child (network : Network) (headers : BlockHeaderProvider) (height : Z)
    (block : IndexedBlock) : Prop :=
  let raw := ih_raw (ib_header block) in
  work_required (previous_header_hash raw) (time raw) height headers network = Some (bits raw) ∧
  median_timestamp raw headers < time raw.

(** The headers a block is judged against, and its height. *)
Definition judged_in (store : CanonStore) (origin : BlockOrigin) : option (BlockHeaderProvider * Z) :=
  match origin with
  | KnownBlock => None
  | CanonChain n => Some (cs_header_provider store, n)
  | SideChain o | SideChainBecomingCanonChain o =>
      match cs_fork store o with Ok f => Some (f, origin_block_number o) | Err _ => None end
  end.

Context {UL : U256Laws U}.

Lemma header_verifier_check_ok header network t hv :
  header_verifier_new header network t = Some hv →
  header_verifier_check hv = Some (Ok tt) ↔
  (∃ m maxc maximum target,
     max_bits network = Some m ∧ from_u256 m = Some maxc ∧ to_u256 maxc = Ok maximum ∧
     to_u256 (bits (ih_raw header)) = Ok target ∧
     le_val (hash_bytes (ih_hash header)) ≤ target ≤ maximum) ∧
  ∃ limit, u32_add t BLOCK_MAX_FUTURE = Some limit ∧ time (ih_raw header) ≤ limit.
Proof.
  unfold header_verifier_new, header_pow_new. intros Hnew.
  destruct (max_bits network) as [m|]; [|done]. cbn [mbind option_bind] in Hnew.
  destruct (from_u256 m) as [maxc|] eqn:Ec; [|done]. injection Hnew as <-.
  unfold header_verifier_check. rewrite !then_check_ok. cbn [hv_proof_of_work hv_timestamp].
  unfold header_pow_check, header_timestamp_check. cbn [hpow_max_work_bits hpow_header ht_header
    ht_current_time ht_max_future]. change (wrap 32 BLOCK_MAX_FUTURE) with BLOCK_MAX_FUTURE.
  assert (∀ b : bool, (if b then Some (Ok tt) else Some (Err Pow)) = (Some (Ok tt) : check_result)
    ↔ b = true) as Hif by (by intros []).
  rewrite Hif, is_valid_pow_iff. split.
  - intros [(maximum & target & ? & ? & ?) [Ht _]]. split; [by exists m, maxc, maximum, target|].
    destruct (u32_add t BLOCK_MAX_FUTURE) as [limit|]; [|done]. exists limit. simpl in Ht.
    destruct (Z.ltb_spec limit (time (ih_raw header))); done.
  - intros [(m' & maxc' & maximum & target & [= <-] & Ec' & ? & ? & ?) (limit & -> & ?)].
    rewrite Ec in Ec'. injection Ec' as <-. split; [by exists maximum, target|].
    simpl. by rewrite (proj2 (Z.ltb_ge _ _)).
Qed.

Lemma chain_verifier_check_ok block network t cv :
  chain_verifier_new block network t = Some cv →
  chain_verifier_check cv = Some (Ok tt) ↔ valid_alone network t block.
Proof.
  unfold chain_verifier_new. destruct (header_verifier_new _ _ _) as [hv|] eqn:E; [|done].
  intros [= <-]. unfold chain_verifier_check. rewrite !then_check_ok. cbn [cv_block cv_header].
  rewrite (header_verifier_check_ok _ _ _ _ E). unfold valid_alone, block_verifier_check, block_vdf_check.
  destruct (verify _ _ _ _) as [[]|]; simpl; naive_solver.
Qed.

Lemma chain_acceptor_check_ok headers network block height :
  chain_acceptor_check headers network block height = Some (Ok tt) ↔
  valid_child network headers height block.
Proof.
  unfold chain_acceptor_check, header_acceptor_check, block_acceptor_check, header_version_check.
  rewrite !then_check_ok. unfold header_work_check, header_median_check, valid_child.
  destruct (work_required _ _ _ _ _) as [work|]; simpl; [|naive_solver].
  destruct (decide (work = bits (ih_raw (ib_header block)))) as [->|];
    destruct (Z.leb_spec (time (ih_raw (ib_header block)))
      (median_timestamp (ih_raw (ib_header block)) headers)); naive_solver lia.
Qed.

Lemma chain_verifier_new_some block network t : is_Some (chain_verifier_new block network t).
Proof.
  destruct (max_bits_packed network) as (m & c & w & Em & Ec & _).
  unfold chain_verifier_new, header_verifier_new, header_pow_new. rewrite Em. simpl. rewrite Ec. done.
Qed.

Lemma verify_block_ok_iff store network now level block :
  level ≠ NoVerification →
  Some (bb_hash (cs_best_block store)) = cs_block_hash store (bb_number (cs_best_block store)) →
  verify_block store network now level block = Some (Ok tt) ↔
  valid_alone network (wrap 32 now) block ∧
  ∃ origin headers height,
    cs_block_origin store (ib_header block) = Ok origin ∧
    judged_in store origin = Some (headers, height) ∧ valid_child network headers height block.
Proof.
  intros Hl Hbest. unfold verify_block. rewrite decide_False by done.
  destruct (chain_verifier_new_some block network (wrap 32 now)) as [cv Ecv]. rewrite Ecv.
  cbn [mbind option_bind]. rewrite then_check_ok, (chain_verifier_check_ok _ _ _ _ Ecv).
  unfold best_block_assert. rewrite bool_decide_true by done. cbn [rust_assert mbind option_bind].
  apply and_iff_compat_l. destruct (cs_block_origin store (ib_header block)) as [origin|e].
  2: { split; [done|by intros (? & ? & ? & ? & _)]. }
  rewrite then_check_ok.
  assert (accept_by_origin store network block origin = Some (Ok tt) ↔
    ∃ headers height, judged_in store origin = Some (headers, height) ∧
      valid_child network headers height block) as ->.
  { unfold accept_by_origin, judged_in.
    destruct origin as [|n|o|o]; [split; [done|by intros (? & ? & ? & _)]| | |].
    2-3: destruct (cs_fork store o) as [f|]; [|split; [done|by intros (? & ? & ? & _)]].
    all: rewrite chain_acceptor_check_ok; split; [by eexists _, _|by intros (? & ? & [= <- <-] & ?)]. }
  split.
  - intros [(hs & n & ? & ?) _]. by exists origin, hs, n.
  - intros (o & hs & n & [= <-] & ? & ?). split; [by exists hs, n|done].
Qed.

(** C1: the consensus rules.  A block is accepted by [verify_block] exactly
    when its VDF proof verifies, its hash meets the target its bits encode and
    that target is not easier than the network's, it is at most two hours in
    the future, it has a known parent, its bits are the required ones and its
    timestamp exceeds the median of its ancestors in the chain or fork it
    extends; nothing panics on the way. *)
Theorem verify_block_accepts_iff store network now level block :
  level ≠ NoVerification →
  Some (bb_hash (cs_best_block store)) = cs_block_hash store (bb_number (cs_best_block store)) →
  verify_block store network now level block = Some (Ok tt) ↔
  valid_alone network (wrap 32 now) block ∧
  ∃ origin headers height,
    cs_block_origin store (ib_header block) = Ok origin ∧
    judged_in store origin = Some (headers, height) ∧ valid_child network headers height block.
Proof. apply verify_block_ok_iff. Qed.

Lemma to_u256_small_bits : to_u256 (mkCompact 5) = Ok 0.
Proof. done. Qed.

Lemma le_val_zero_hash (h : H256) : le_val (hash_bytes h) ≤ 0 → h = hash_default.
Proof.
  intros Hz. apply (inj hash_bytes). rewrite hash_bytes_default.
  pose proof (le_val_range (hash_bytes h)). assert (le_val (hash_bytes h) = 0) as E by lia.
  by rewrite <-(le_bytes_le_val (hash_bytes h)), E, hash_length.
Qed.

(** C31: the built-in genesis blocks cannot be extended.  Their bits encode the
    target 0 and outside the test network the second block must repeat them,
    so a block that extends genesis is accepted only if its hash is zero. *)
Theorem genesis_successor_zero_hash store network now level block g :
  network ≠ Testnet → level ≠ NoVerification →
  Some (bb_hash (cs_best_block store)) = cs_block_hash store (bb_number (cs_best_block store)) →
  genesis_block network = Some g →
  provider_header (cs_header_provider store)
    (RefHash (previous_header_hash (ih_raw (ib_header block)))) = Some (ib_header g) →
  cs_block_origin store (ib_header block) = Ok (CanonChain 1) →
  verify_block store network now level block = Some (Ok tt) →
  ib_hash block = hash_default.
Proof.
  intros Hnet Hl Hbest Hg Hparent Horigin Hok.
  apply verify_block_ok_iff in Hok as [(_ & (m & maxc & mx & target & _ & _ & _ & Et & Hle & _) & _)
    (o & hs & n & Ho & Hj & Hw & _)]; [|done..].
  rewrite Horigin in Ho. injection Ho as <-. injection Hj as <- <-.
  unfold work_required in Hw. destruct (max_bits network); [|done]. cbn [mbind option_bind] in Hw.
  destruct (from_u256 _); [|done]. simpl in Hw. rewrite Hparent in Hw. simpl in Hw.
  rewrite decide_False in Hw by done. injection Hw as Hw.
  destruct (genesis_block_header network g Hg) as [Hbits _].
  rewrite Hbits in Hw. rewrite <-Hw, to_u256_small_bits in Et. injection Et as <-.
  by apply le_val_zero_hash.
Qed.

Context {RL : RugLaws R}.

(** C32: the number of VDF iterations a header claims is not verified.  For any
    header there is a randomness (the square of the VDF input) with which the
    header passes the block check with an empty proof, whatever number of
    iterations it claims. *)
Theorem block_iterations_forged hash version previous time bits pk :
  ∃ randomness, ∀ iterations,
    block_verifier_check (mkIndexedBlock (mkIndexedBlockHeader hash
      (mkBlockHeader version previous time bits pk iterations randomness)) []) = Some (Ok tt).
Proof.
  exists ((residue (vdf_input version previous time bits pk) ^ 2) mod MODULUS).
  intros iterations. unfold block_verifier_check, block_vdf_check, h_g. simpl.
  by rewrite verify_empty_proof.
Qed.
End verification.

(** ** Concrete stores and blocks *)

Section verification_examples.
Import Reference.
#[local] Instance checked_build : Profile := true.

(** A store that holds only the genesis block. *)
Definition genesis_store (hash : H256) (header : IndexedBlockHeader) : CanonStore :=
  mkCanonStore (mkBestBlock 0 hash) (λ n, if n =? 0 then Some hash else None)
    (λ _, Ok (CanonChain 1)) (λ _, Err AncientFork) (single_provider hash 0 header).

Definition example_genesis : IndexedBlock :=
  match genesis_block Mainnet with
  | Some g => g
  | None => indexed_block_from_raw example_block
  end.

(** The block with hash zero on top of it. *)
Definition zero_hash_block : IndexedBlock :=
  let g := residue (vdf_input 1 (ib_hash example_genesis) 100 (mkCompact 5) example_key) in
  mkIndexedBlock (mkIndexedBlockHeader hash_default
    (mkBlockHeader 1 (ib_hash example_genesis) 100 (mkCompact 5) example_key 1
      ((g ^ 2) mod MODULUS))) [].

Lemma verify_block_accepts_iff_witness :
  valid_alone Mainnet (wrap 32 1000) zero_hash_block.
Proof.
  apply (proj1 (verify_block_accepts_iff
    (genesis_store (ib_hash example_genesis) (ib_header example_genesis))
    Mainnet 1000 Full zero_hash_block ltac:(discriminate) eq_refl)).
  vm_compute. reflexivity.
Defined.

Lemma genesis_successor_zero_hash_witness : ib_hash zero_hash_block = hash_default.
Proof.
  apply (genesis_successor_zero_hash
    (genesis_store (ib_hash example_genesis) (ib_header example_genesis))
    Mainnet 1000 Full zero_hash_block example_genesis).
  - discriminate.
  - discriminate.
  - reflexivity.
  - reflexivity.
  - apply single_provider_hash.
  - reflexivity.
  - vm_compute. reflexivity.
Defined.

Lemma block_iterations_forged_witness :
  ∃ randomness, block_verifier_check (mkIndexedBlock (mkIndexedBlockHeader hash_default
    (mkBlockHeader 1 hash_default 100 (mkCompact 5) example_key 4000000000 randomness)) []) = Some (Ok tt).
Proof.
  destruct (block_iterations_forged hash_default 1 hash_default 100 (mkCompact 5) example_key)
    as [randomness Hr].
  exists randomness. exact (Hr 4000000000).
Defined.
End verification_examples.
