(* ===== verification/Miner.v ===== *)
(** * Mining ([miner] crate)

    [BlockAssembler] prepares a template on top of the best block;
    [find_solution] evaluates the VDF in steps until the hash of the header
    with the current output meets the target.  The clock is a parameter: for
    each round of the loop, whether the timeout has passed. *)

From S2P Require Import Prelude External Primitives Serialization Compact Crypto Chain.
From S2P Require Import Vdf Storage Network Work Verification.

(** src: miner/src/block_assembler.rs 11-22 BlockTemplate *)
Record BlockTemplate := mkBlockTemplate {
  bt_version : Z;
  bt_previous_header_hash : H256;
  bt_time : Z;
  bt_bits : Compact;
  bt_height : Z;
}.

(** src: miner/src/block_assembler.rs 7-7 BLOCK_VERSION *)
Definition BLOCK_VERSION : Z := 0x20000000.

(** src: miner/src/cpu_miner.rs 13-13 STEP *)
Definition STEP : Z := 1024.

(** src: miner/src/cpu_miner.rs 43-47 Solution *)
Record Solution := mkSolution {
  sol_iterations : Z;
  sol_randomness : Z;
  sol_proof : Proof;
}.

Section miner.
Context {U : U256Ops} {R : RugOps} {H : Sha256Ops} {V : VrfOps} {P : Profile}.

(** src: miner/src/block_assembler.rs 28-55 create_new_block *)
Definition create_new_block (store : CanonStore) (time : Z) (network : Network) :
    option BlockTemplate :=
  let best_block := cs_best_block store in
  let previous_header_hash := bb_hash best_block in
  height ← u32_add (bb_number best_block) 1;
  bits ← work_required previous_header_hash time height (cs_header_provider store) network;
  Some (mkBlockTemplate BLOCK_VERSION previous_header_hash time bits height).

(** src: miner/src/cpu_miner.rs 16-40 h_g *)
Definition miner_h_g (block : BlockTemplate) (pubkey : VrfPk) : Z :=
  residue (vdf_input (bt_version block) (bt_previous_header_hash block) (bt_time block)
             (bt_bits block) pubkey).

(** The header a template and an output make. *)
Definition solved_header (block : BlockTemplate) (pubkey : VrfPk) (iterations randomness : Z) :
    BlockHeader :=
  mkBlockHeader (bt_version block) (bt_previous_header_hash block) (bt_time block)
    (bt_bits block) pubkey iterations randomness.

(** The loop of [find_solution].  Each round adds [STEP] to [iterations] and the
    loop ends when they exceed [u32], so [U32_MAX / STEP + 1] rounds suffice.
    [None]: a panic, or no fuel. *)
Fixpoint find_solution_loop (fuel : nat) (expired : nat → bool) (block : BlockTemplate)
    (pubkey : VrfPk) (g cur_y iterations : Z) : option (option Solution) :=
  match fuel with
  | O => None
  | S fuel =>
      if expired fuel then Some None
      else
        let iterations := iterations + STEP in
        if U32_MAX <? iterations then Some None
        else
          let new_y := eval cur_y STEP in
          let block_header_hash :=
            dhash256 (serialize ser_block_header
              (solved_header block pubkey (wrap 32 iterations) new_y)) in
          if is_valid_proof_of_work_hash (bt_bits block) block_header_hash
          then proof ← prove g new_y (wrap 32 iterations);
               Some (Some (mkSolution (wrap 32 iterations) new_y proof))
          else find_solution_loop fuel expired block pubkey g new_y iterations
  end.

(** src: miner/src/cpu_miner.rs 50-89 find_solution *)
Definition find_solution (expired : nat → bool) (block : BlockTemplate) (pubkey : VrfPk) :
    option (option Solution) :=
  let g := miner_h_g block pubkey in
  find_solution_loop (Z.to_nat (U32_MAX / STEP + 1)) expired block pubkey g g 0.

(** The block a solution completes. *)
Definition solved_block (block : BlockTemplate) (pubkey : VrfPk) (s : Solution) : IndexedBlock :=
  indexed_block_from_raw
    (mkBlock (solved_header block pubkey (sol_iterations s) (sol_randomness s)) (sol_proof s)).

(** src: miner/src/mock.rs 14-14 STEP *)
Definition MOCK_STEP : Z := 233868.

(** The mocking miner draws [r] from [0, 1): [lucky] is whether it is at most
    [1 / network_target], [r_bytes] its bytes. *)
(** src: miner/src/mock.rs 49-75 try_solve_one_shot *)
Definition try_solve_one_shot (lucky : bool) (r_bytes : list byte) (block : BlockTemplate)
    (pubkey : VrfPk) (iterations : Z) : option (option Solution) :=
  let g := miner_h_g block pubkey in
  let iterations := iterations + MOCK_STEP in
  if U32_MAX <? iterations then Some None
  else if lucky
       then let y := residue r_bytes in
            proof ← prove g y (wrap 32 iterations);
            Some (Some (mkSolution (wrap 32 iterations) y proof))
       else Some None.

Context {UL : U256Laws U} {RL : RugLaws R}.

(** The counts the miner reaches are even, as the proof requires. *)
Lemma step_multiple_provable k : 0 < k → provable (k * STEP).
Proof.
  intros Hk. unfold STEP. right. split; [lia|].
  replace (k * 1024) with (k * 512 * 2) by lia. apply Z.mod_mul. lia.
Qed.

Definition good_solution (block : BlockTemplate) (pubkey : VrfPk) (s : Solution) : Prop :=
  let g := miner_h_g block pubkey in
  (∃ k, 0 < k ∧ sol_iterations s = k * STEP) ∧ sol_iterations s ≤ U32_MAX ∧
  sol_randomness s = (g ^ 2 ^ sol_iterations s) mod MODULUS ∧
  verify g (sol_randomness s) (sol_iterations s) (sol_proof s) = Some true ∧
  is_valid_proof_of_work_hash (bt_bits block) (ib_hash (solved_block block pubkey s)) = true.

Lemma find_solution_loop_spec fuel expired block pubkey k :
  0 ≤ k ≤ U32_MAX / STEP → k + Z.of_nat fuel = U32_MAX / STEP + 1 →
  let g := miner_h_g block pubkey in
  ∃ r, find_solution_loop fuel expired block pubkey g (eval g (k * STEP)) (k * STEP) = Some r ∧
    match r with Some s => good_solution block pubkey s | None => True end.
Proof.
  change (U32_MAX / STEP) with 4194303.
  intros Hk Hfuel g. revert k Hk Hfuel. induction fuel as [|fuel IH]; intros k Hk Hfuel; [lia|].
  cbn [find_solution_loop]. destruct (expired fuel); [by exists None|].
  destruct (Z.ltb_spec U32_MAX (k * STEP + STEP)) as [|Hmax]; [by exists None|].
  assert (k + 1 ≤ 4194303) as Hk1.
  { change U32_MAX with 4294967295 in Hmax. change STEP with 1024 in Hmax. lia. }
  assert (fits 32 (k * STEP + STEP)) as Hfit by (unfold fits; change STEP with 1024; lia).
  rewrite wrap_small by done.
  rewrite eval_add by (change STEP with 1024; lia).
  replace (k * STEP + STEP) with ((k + 1) * STEP) by lia.
  destruct (is_valid_proof_of_work_hash _ _) eqn:Epow; [|apply IH; lia].
  destruct (vdf_accepts g ((k + 1) * STEP)) as (Hy & proof & Ep & Ev);
    [apply step_multiple_provable; lia|].
  rewrite Ep. simpl. eexists. split; [reflexivity|]. split_and!; simpl; try done; [|lia].
  exists (k + 1). split; [lia|done].
Qed.

Lemma find_solution_spec expired block pubkey :
  ∃ r, find_solution expired block pubkey = Some r ∧
    match r with Some s => good_solution block pubkey s | None => True end.
Proof.
  apply (find_solution_loop_spec (Z.to_nat (U32_MAX / STEP + 1)) expired block pubkey 0).
  - by split.
  - change (U32_MAX / STEP + 1) with 4194304. lia.
Qed.

Lemma good_solution_checks block pubkey s :
  good_solution block pubkey s →
  block_verifier_check (solved_block block pubkey s) = Some (Ok tt).
Proof.
  intros (_ & _ & _ & Hv & _). unfold block_verifier_check, block_vdf_check.
  change (h_g (solved_block block pubkey s)) with (miner_h_g block pubkey). simpl.
  by rewrite Hv.
Qed.

(** Mining is sound and never panics or loops.  [find_solution] returns,
    whatever the clock says; a solution it returns has a positive multiple of
    [STEP] iterations within [u32], its randomness is the VDF output for that
    many iterations, the block it completes passes the block verifier, and its
    hash meets the target of the template. *)
Theorem find_solution_sound expired block pubkey :
  ∃ r, find_solution expired block pubkey = Some r ∧
    ∀ s, r = Some s →
      (∃ k, 0 < k ∧ sol_iterations s = k * STEP) ∧ sol_iterations s ≤ U32_MAX ∧
      sol_randomness s = (miner_h_g block pubkey ^ 2 ^ sol_iterations s) mod MODULUS ∧
      block_verifier_check (solved_block block pubkey s) = Some (Ok tt) ∧
      is_valid_proof_of_work_hash (bt_bits block) (ib_hash (solved_block block pubkey s)) = true.
Proof.
  destruct (find_solution_spec expired block pubkey) as (r & Er & Hr). exists r.
  split; [done|]. intros s ->. pose proof (good_solution_checks block pubkey s Hr).
  destruct Hr as (? & ? & ? & _ & ?). by split_and!.
Qed.

(** C21: mining and verification agree.  A block mined on a template of the
    canonical store, whose target is within the network's, at a time after the
    median of its ancestors and not in the future, is accepted by the full
    verifier when the store takes it for the next canonical block. *)
Theorem mined_block_accepted store network expired pubkey tmpl s now time m maxc maximum target :
  Some (bb_hash (cs_best_block store)) = cs_block_hash store (bb_number (cs_best_block store)) →
  create_new_block store time network = Some tmpl →
  find_solution expired tmpl pubkey = Some (Some s) →
  max_bits network = Some m → from_u256 m = Some maxc → to_u256 maxc = Ok maximum →
  to_u256 (bt_bits tmpl) = Ok target → target ≤ maximum →
  u32 (wrap 32 now + BLOCK_MAX_FUTURE) → time ≤ wrap 32 now + BLOCK_MAX_FUTURE →
  median_timestamp_inclusive (bb_hash (cs_best_block store)) (cs_header_provider store) < time →
  cs_block_origin store (ib_header (solved_block tmpl pubkey s)) = Ok (CanonChain (bt_height tmpl)) →
  verify_block store network now Full (solved_block tmpl pubkey s) = Some (Ok tt).
Proof.
  intros Hbest Ht Hs Em Ec Emx Et Hle Hnow Htime Hmed Horigin.
  destruct (find_solution_spec expired tmpl pubkey) as (r & Er & Hr).
  rewrite Hs in Er. injection Er as <-.
  pose proof (good_solution_checks tmpl pubkey s Hr) as Hblock.
  destruct Hr as (_ & _ & _ & Hv & Hpow).
  unfold create_new_block in Ht. destruct (u32_add _ 1) as [height|]; [|done]. simpl in Ht.
  destruct (work_required _ _ _ _ _) as [b|] eqn:Ew; [|done]. simpl in Ht. injection Ht as <-.
  apply verify_block_ok_iff; [done|done|]. split; [split_and!|].
  - exact Hv.
  - apply is_valid_pow_hash_iff in Hpow as (t' & Et' & Hle'). simpl in Et, Et'.
    rewrite Et in Et'. injection Et' as <-. exists m, maxc, maximum, target. by split_and!.
  - exists (wrap 32 now + BLOCK_MAX_FUTURE). split; [by apply u32_add_fits|done].
  - exists (CanonChain height), (cs_header_provider store), height. by split_and!.
Qed.
End miner.

(** ** A mining run *)

Section miner_examples.
Import Reference.
#[local] Existing Instance zero_sha_ops | 0.
#[local] Instance checked_miner : Profile := true.

Definition mining_parent : IndexedBlockHeader :=
  mkIndexedBlockHeader hash_default
    (mkBlockHeader 1 (hash_from_u8 9) 50 (mkCompact 0x207fffff) example_key 1024 3).

Definition mining_store : CanonStore := genesis_store hash_default mining_parent.

Definition mining_template : BlockTemplate :=
  mkBlockTemplate BLOCK_VERSION hash_default 100 (mkCompact 0x207fffff) 1.

Definition mining_solution : Solution :=
  mkSolution 1024 0 (replicate 10 0).

(** With digests that are all zero the first round already succeeds. *)
Lemma find_solution_first_round fuel :
  find_solution_loop (S fuel) (λ _, false) mining_template example_key
    (miner_h_g mining_template example_key) (miner_h_g mining_template example_key) 0
  = Some (Some mining_solution).
Proof. vm_compute. reflexivity. Defined.

Lemma find_solution_run :
  find_solution (λ _, false) mining_template example_key = Some (Some mining_solution).
Proof.
  unfold find_solution. replace (Z.to_nat (U32_MAX / STEP + 1)) with (S (Z.to_nat (U32_MAX / STEP))).
  - apply find_solution_first_round.
  - change (U32_MAX / STEP) with 4194303. lia.
Defined.

Lemma find_solution_sound_witness :
  ∃ r, find_solution (λ _, false) mining_template example_key = Some r.
Proof.
  destruct (find_solution_sound (λ _, false) mining_template example_key) as (r & Hr & _).
  exists r. exact Hr.
Defined.

Lemma mined_block_accepted_witness :
  verify_block mining_store Mainnet 1000 Full
    (solved_block mining_template example_key mining_solution) = Some (Ok tt).
Proof.
  apply (mined_block_accepted mining_store Mainnet (λ _, false) example_key mining_template
    mining_solution 1000 100 MAX_BITS_MAINNET (mkCompact 0x207fffff)
    (0x7fffff * 2 ^ 232) (0x7fffff * 2 ^ 232)).
  3: exact find_solution_run.
  all: first [reflexivity|discriminate|done].
Defined.
End miner_examples.
