(* ===== verification/VdfSound.v ===== *)
(** * What an honest proof of a wrong output is worth ([vdf/src/vdf.rs], [miner/src/mock.rs])

    [prove] can be run with any claimed output.  Its proof makes [verify] accept
    exactly the outputs that agree with the true one up to the squarings done
    along the way, so the outputs the mocking miner draws at random are refused. *)

From S2P Require Import Prelude External Primitives Serialization Compact Crypto Chain Vdf.
From S2P Require Import Storage Network Work Verification Miner.
#[local] Open Scope Z_scope.
#[local] Opaque MODULUS.

Section honest.
Context {R : RugOps} {H : Sha256Ops} {RL : RugLaws R}.

(** A number without a common factor with the modulus. *)
Definition unit_mod (a : Z) : Prop := Z.gcd a MODULUS = 1.

#[global] Instance unit_mod_proper : Proper (eqm ==> iff) unit_mod.
Proof.
  intros a b Hab. unfold unit_mod, eqm in *. pose proof MODULUS_gt_1.
  rewrite (Z.gcd_comm a), (Z.gcd_comm b), <-(Z.gcd_mod a MODULUS), <-(Z.gcd_mod b MODULUS) by lia. by rewrite Hab.
Qed.

Lemma unit_mod_mul a b : unit_mod a → unit_mod b → unit_mod (a * b).
Proof. apply Z.coprime_mul_l. Qed.

Lemma unit_mod_pow a n : 0 ≤ n → unit_mod a → unit_mod (a ^ n).
Proof. intros Hn Ha. by apply Z.coprime_pow_l. Qed.

Lemma eqm_cancel a b c : unit_mod a → a * b ≡ₘ a * c ↔ b ≡ₘ c.
Proof. intros Ha. pose proof (eqm_cancel_pow a 1 b c ltac:(lia) Ha) as E. by rewrite Z.pow_1_r in E. Qed.

(** The count after a round, and whether it was rounded up. *)
Definition next_count (t : Z) : Z * Z :=
  if negb ((t / 2) mod 2 =? 0) && negb (t / 2 =? 1) then (t / 2 + 1, 1) else (t / 2, 0).

(** How often the count is rounded up. *)
Fixpoint squarings (fuel : nat) (t : Z) : Z :=
  match fuel with
  | O => 0
  | S fuel => if t <? 2 then 0 else let '(t, e) := next_count t in e + squarings fuel t
  end.

(** A round takes the claimed output and the true one to the same multiple of
    themselves, squared when the count is rounded up. *)
Lemma round_exact x y t mu :
  2 ≤ t → t mod 2 = 0 → unit_mod x → mu ≡ₘ x ^ 2 ^ (t / 2) →
  ∃ x' y' t' c e, fold_round x y t mu = Some (x', y', t') ∧ (t', e) = next_count t ∧ provable t' ∧ t' < t ∧
    0 ≤ y' < MODULUS ∧ unit_mod x' ∧ unit_mod c ∧ 0 ≤ e ≤ 1 ∧ y' ≡ₘ c * y ^ 2 ^ e ∧ x' ^ 2 ^ t' ≡ₘ c * (x ^ 2 ^ t) ^ 2 ^ e.
Proof.
  intros Ht Heven Hx Hmu. pose proof (Z.div_mod t 2 ltac:(lia)) as Hdm. rewrite Heven in Hdm.
  destruct (fold_round_spec x y t mu ltac:(lia)) as (x' & y' & Hr & Hx' & Hif).
  unfold next_count. remember (t / 2) as h eqn:Eh.
  pose proof (proj1 (hash_fs_range [x; y; mu])) as Hpos. set (r := hash_fs [x; y; mu]) in *.
  assert (unit_mod mu) as Hum by (rewrite Hmu; apply unit_mod_pow; [apply Z.pow_nonneg; lia|done]).
  assert (unit_mod x') as Hux by (rewrite Hx'; apply unit_mod_mul; [by apply unit_mod_pow|done]).
  assert (unit_mod (mu ^ r)) as Hur by by apply unit_mod_pow.
  pose proof (halving_identity x (x ^ 2 ^ t) mu r h) as Hid. replace (h + h) with t in Hid by lia.
  specialize (Hid ltac:(lia) Hpos ltac:(done) Hmu). rewrite <-Hx' in Hid.
  pose proof (Z.mod_pos_bound h 2 ltac:(lia)).
  destruct (negb (h mod 2 =? 0) && negb (h =? 1)) eqn:Eodd; destruct Hif as [E Hy'].
  - exists x', y', (h + 1), ((mu ^ r) ^ 2), 1. bool_props. split_and!; try done; try lia.
    + right. split; [lia|]. rewrite Z.add_mod by lia. replace (h mod 2) with 1 by lia. done.
    + by apply unit_mod_pow.
    + by rewrite Hy', Z.pow_mul_l.
    + rewrite pow2_succ, Z.pow_add_r by (try apply Z.pow_nonneg; lia). rewrite <-Hid.
      change (2 ^ 1) with 2. by rewrite <-Z.pow_2_r, Z.pow_mul_l.
  - exists x', y', h, (mu ^ r), 0. split_and!; try done; try lia.
    + unfold provable. apply andb_false_iff in Eodd as [Eo|Eo]; bool_props; [right|by left].
      split; [|done]. destruct (decide (h = 1)) as [->|]; [done|lia].
    + change (2 ^ 0) with 1. by rewrite Z.pow_1_r.
    + change (2 ^ 0) with 1. by rewrite Z.pow_1_r.
Qed.

Lemma pow2_pow2 a m n : 0 ≤ m → 0 ≤ n → (a ^ 2 ^ m) ^ 2 ^ n = a ^ 2 ^ (m + n).
Proof. intros. rewrite <-Z.pow_mul_r by (apply Z.pow_nonneg; lia). by rewrite <-Z.pow_add_r. Qed.

Lemma prove_loop_exact fuel x y t : provable t → (Z.to_nat t < fuel)%nat → unit_mod x → 0 ≤ y < MODULUS →
  let k := squarings fuel t in
  ∃ proof x' y' c, 0 ≤ k ∧ prove_loop fuel x y t = Some proof ∧ verify_loop proof x y t = Some (x', y') ∧
    0 ≤ y' < MODULUS ∧ unit_mod c ∧
    y' ≡ₘ c * y ^ 2 ^ k ∧ x' ^ 2 ≡ₘ c * (x ^ 2 ^ t) ^ 2 ^ k.
Proof.
  revert x y t. induction fuel as [|fuel IH]; intros x y t Ht Hfuel Hx Hy k; [lia|]. unfold k. cbn [prove_loop squarings].
  destruct Ht as [-> | [Ht Heven]].
  - exists [], x, y, 1. change (2 ^ 0) with 1. change (2 ^ 1) with 2. rewrite !Z.pow_1_r, !Z.mul_1_l.
    split_and!; try done; try lia.
  - rewrite (proj2 (Z.ltb_ge t 2)) by done. pose proof (Z.div_pos t 2 ltac:(lia) ltac:(lia)).
    destruct (pow_mod_eqm x (Z.shiftl 1 (t / 2))) as (mu & Emu & Hmu & _).
    { rewrite Z.shiftl_mul_pow2 by done. apply Z.mul_nonneg_nonneg; [lia|]. by apply Z.pow_nonneg. }
    rewrite Z.shiftl_mul_pow2, Z.mul_1_l in Hmu by done.
    destruct (round_exact x y t mu Ht Heven Hx Hmu) as (x1 & y1 & t1 & c1 & e & E & En & Ht1 & Hlt & Hy1 & Hx1 & Hc1 & He & Ey & Ex).
    assert (0 ≤ t1) by (unfold provable in *; lia).
    rewrite <-En.
    destruct (IH x1 y1 t1) as (proof & x' & y' & c & Hk & Ep & Ev & Hy' & Hc & Eyk & Exk); [done|lia|done|done|].
    set (k1 := squarings fuel t1) in *. assert (0 ≤ 2 ^ k1) by (apply Z.pow_nonneg; lia).
    exists (mu :: proof), x', y', (c * c1 ^ 2 ^ k1). rewrite Emu. cbn [mbind option_bind]. rewrite E.
    cbn [mbind option_bind]. rewrite Ep. cbn [verify_loop mbind option_bind]. rewrite E. split_and!; try done; try lia.
    + apply unit_mod_mul; [done|by apply unit_mod_pow].
    + by rewrite Eyk, Ey, Z.pow_mul_l, pow2_pow2, Z.mul_assoc by lia.
    + rewrite Exk, Ex, Z.pow_mul_l, (pow2_pow2 (x ^ 2 ^ t) e k1), Z.mul_assoc by lia. done.
Qed.

(** [prove] and [verify] on any claimed output. *)
Lemma honest_proof_exact g y t : provable t → unit_mod g → 0 ≤ y < MODULUS →
  let k := squarings (S (Z.to_nat t)) t in
  ∃ proof, prove g y t = Some proof ∧ verify g y t proof = Some (bool_decide (y ^ 2 ^ k ≡ₘ eval g t ^ 2 ^ k)).
Proof.
  intros Ht Hg Hy k. assert (0 < t) as Hpos by (unfold provable in Ht; lia).
  destruct (prove_loop_exact (S (Z.to_nat t)) g y t) as (proof & x' & y' & c & Hk & Ep & Ev & Hy' & Hc & Eyk & Exk); [done|lia|done|done|].
  fold k in Hk, Eyk, Exk. exists proof. unfold prove, verify. rewrite Ep, Ev. split; [done|]. cbn [mbind option_bind].
  destruct (verify_eqb x' y' Hy') as (x2 & -> & Eb). cbn [mbind option_bind]. f_equal. rewrite Eb. apply bool_decide_ext.
  rewrite Eyk, Exk, (eval_eqm g t) by lia. by apply eqm_cancel.
Qed.
End honest.

(** ** The mocking miner *)

Lemma mock_step_provable : provable MOCK_STEP.
Proof. right. by split. Qed.

Lemma mock_squarings : squarings (S (Z.to_nat MOCK_STEP)) MOCK_STEP = 9.
Proof. vm_compute. reflexivity. Qed.

Section mock.
Context {R : RugOps} {H : Sha256Ops} {V : VrfOps} {RL : RugLaws R}.

(** C22: an honest proof does not save a wrong output.  When the mocking miner, as
    the node runs it, is lucky, its block carries the number drawn as the output
    of [MOCK_STEP] iterations, with the proof [prove] makes for it.  If the base
    has no factor in common with the modulus the block verifier accepts that
    block exactly when the 512th power of the number is that of the true output,
    and answers [Vdf] otherwise. *)
Theorem mock_block_judged block pubkey r_bytes : unit_mod (miner_h_g block pubkey) →
  ∃ s, try_solve_one_shot true r_bytes block pubkey 0 = Some (Some s) ∧
    sol_iterations s = MOCK_STEP ∧ sol_randomness s = residue r_bytes ∧
    block_verifier_check (solved_block block pubkey s) =
      Some (if decide (residue r_bytes ^ 512 ≡ₘ eval (miner_h_g block pubkey) MOCK_STEP ^ 512) then Ok tt else Err Vdf).
Proof.
  intros Hg. destruct (honest_proof_exact _ (residue r_bytes) _ mock_step_provable Hg (mod_floor_range _)) as (proof & Ep & Ev).
  rewrite mock_squarings in Ev. change (2 ^ 9) with 512 in Ev.
  exists (mkSolution MOCK_STEP (residue r_bytes) proof). unfold try_solve_one_shot. cbv zeta.
  change (0 + MOCK_STEP) with MOCK_STEP. change (U32_MAX <? MOCK_STEP) with false. change (wrap 32 MOCK_STEP) with MOCK_STEP.
  cbn [mbind option_bind]. rewrite Ep. split_and!; try done.
  unfold block_verifier_check, block_vdf_check. change (h_g (solved_block block pubkey (mkSolution MOCK_STEP (residue r_bytes) proof))) with (miner_h_g block pubkey).
  cbn [solved_block indexed_block_from_raw ib_header ih_raw ib_proof indexed_header_from_raw block_header block_proof solved_header randomness iterations sol_iterations sol_randomness sol_proof].
  rewrite Ev. cbn [mbind option_bind]. f_equal. by case_decide; [rewrite bool_decide_true|rewrite bool_decide_false].
Qed.
End mock.

Section mock_example.
Import Reference.

(** Digests for which the base of a template is 1 and the number drawn is 2. *)
#[local] Instance low_sha_ops : Sha256Ops | 0 := {|
  rcrypto_sha256 := toy_digest;
  rcrypto_sha1 _ := le_bytes 20 0;
  rcrypto_ripemd160 _ := le_bytes 20 0;
  siphasher_sip24 _ _ _ := 0;
  sha2_sha256 bs := le_bytes 32 (if byte_val (nth 13 bs (byte_of 0)) =? 0 then 1 + byte_val (nth 14 bs (byte_of 0)) else 0);
|}.

Lemma eval_one t : eval 1 t = 1.
Proof. unfold eval. induction (Z.to_nat t) as [|n IH]; [done|]. cbn [Nat.iter nat_rect]. unfold Nat.iter in IH. rewrite IH. vm_compute. reflexivity. Qed.

Lemma low_base : miner_h_g mining_template example_key = 1.
Proof. vm_compute. reflexivity. Qed.

Lemma low_drawn : residue [byte_of 1] = 2.
Proof. vm_compute. reflexivity. Qed.

(** The block is refused. *)
Lemma mock_block_judged_witness : ∃ s, try_solve_one_shot true [byte_of 1] mining_template example_key 0 = Some (Some s) ∧
  block_verifier_check (solved_block mining_template example_key s) = Some (Err Vdf).
Proof.
  destruct (mock_block_judged mining_template example_key [byte_of 1]) as (s & E & _ & _ & Hv).
  { rewrite low_base. apply Z.gcd_1_l. }
  exists s. split; [exact E|]. rewrite Hv, low_base, low_drawn, eval_one.
  rewrite decide_False; [reflexivity|]. vm_compute. discriminate.
Defined.
End mock_example.
