(* ===== verification/Kv.v ===== *)
(** * Key-value databases ([db/src/kv])

    A transaction is a list of insertions and deletions in five columns.  The
    in-memory database keeps, per key, whether it was inserted or deleted; the
    overlay database keeps such a layer over another database and flushes it;
    the auto-flushing overlay flushes every so many writes; the cache database
    keeps recent blocks in an LRU cache.  All are verified against one
    interface, [KvSpec]: what a database shows for a key, and how a transaction
    changes it.  The disk database (RocksDB) is any database that meets the
    interface.  Locks are not modelled: every method runs to completion. *)

From S2P Require Import Prelude External Primitives Serialization Compact Crypto Chain.
From Stdlib Require Import FunctionalExtensionality.

(** ** Transactions *)

(** src: db/src/kv/transaction.rs 6-11 COL_COUNT *)
Definition COL_COUNT : Z := 10.
Definition COL_META : Z := 0.
Definition COL_BLOCK_HASHES : Z := 1.
Definition COL_BLOCKS : Z := 2.
Definition COL_BLOCK_NUMBERS : Z := 3.
Definition COL_CONFIGURATION : Z := 4.

(** src: db/src/kv/transaction.rs 30-36 Key *)
Inductive Key :=
| KeyMeta (key : string)
| KeyBlockHash (number : Z)
| KeyBlock (hash : H256)
| KeyBlockNumber (hash : H256)
| KeyConfiguration (key : string).

#[global] Instance Key_eq_dec : EqDecision Key.
Proof. solve_decision. Defined.

(** src: db/src/kv/transaction.rs 96-106 KeyState *)
Inductive KeyState (A : Type) := StInsert (v : A) | StDelete | StUnknown.
Arguments StInsert {A} v.
Arguments StDelete {A}.
Arguments StUnknown {A}.

(** src: db/src/kv/transaction.rs 109-118 map *)
Definition key_state_map {A B} (f : A → B) (s : KeyState A) : KeyState B :=
  match s with StInsert v => StInsert (f v) | StDelete => StDelete | StUnknown => StUnknown end.

(** src: db/src/kv/transaction.rs 120-126 into_option *)
Definition into_option {A} (s : KeyState A) : option A :=
  match s with StInsert v => Some v | StDelete => None | StUnknown => None end.

(** [unwrap_or_default] on a cell of a map. *)
Definition unwrap_or_unknown {A} (o : option (KeyState A)) : KeyState A := default StUnknown o.

Section kv.
Context {V : VrfOps}.

(** src: db/src/kv/transaction.rs 21-27 KeyValue *)
Inductive KeyValue :=
| KvMeta (key : string) (value : list byte)
| KvBlockHash (number : Z) (hash : H256)
| KvBlock (hash : H256) (block : Block)
| KvBlockNumber (hash : H256) (number : Z)
| KvConfiguration (key : string) (value : list byte).

(** src: db/src/kv/transaction.rs 39-45 Value *)
Inductive Value :=
| VMeta (bytes : list byte)
| VBlockHash (hash : H256)
| VBlock (block : Block)
| VBlockNumber (number : Z)
| VConfiguration (bytes : list byte).

(** src: db/src/kv/transaction.rs 14-17 Operation *)
Inductive Operation := OpInsert (kv : KeyValue) | OpDelete (k : Key).

(** src: db/src/kv/transaction.rs 142-144 Transaction *)
Record Transaction := mkTransaction { operations : list Operation }.

(** src: db/src/kv/transaction.rs 59-64 as_meta *)
Definition as_meta (v : Value) : option (list byte) :=
  match v with VMeta bytes => Some bytes | _ => None end.

(** src: db/src/kv/transaction.rs 66-71 as_block_hash *)
Definition as_block_hash (v : Value) : option H256 :=
  match v with VBlockHash h => Some h | _ => None end.

(** src: db/src/kv/transaction.rs 73-78 as_block *)
Definition as_block (v : Value) : option Block :=
  match v with VBlock b => Some b | _ => None end.

(** src: db/src/kv/transaction.rs 80-85 as_block_number *)
Definition as_block_number (v : Value) : option Z :=
  match v with VBlockNumber n => Some n | _ => None end.

(** src: db/src/kv/transaction.rs 87-92 as_configuration *)
Definition as_configuration (v : Value) : option (list byte) :=
  match v with VConfiguration bytes => Some bytes | _ => None end.

(** src: db/src/kv/transaction.rs 128-138 into_operation *)
Definition into_operation {K A} (insert : K → A → KeyValue) (delete : K → Key)
    (key : K) (s : KeyState A) : option Operation :=
  match s with
  | StInsert value => Some (OpInsert (insert key value))
  | StDelete => Some (OpDelete (delete key))
  | StUnknown => None
  end.

(** src: db/src/kv/transaction.rs 146-157 new *)
Definition transaction_new : Transaction := mkTransaction [].

(** src: db/src/kv/transaction.rs 159-161 insert *)
Definition tx_insert (tx : Transaction) (insert : KeyValue) : Transaction :=
  mkTransaction (operations tx ++ [OpInsert insert]).

(** src: db/src/kv/transaction.rs 163-165 delete *)
Definition tx_delete (tx : Transaction) (delete : Key) : Transaction :=
  mkTransaction (operations tx ++ [OpDelete delete]).

(** ** Raw operations: what reaches the disk *)

(** src: db/src/kv/transaction.rs 169-172 Location *)
Inductive Location := LocDB | LocColumn (column : Z).

#[global] Instance Location_eq_dec : EqDecision Location.
Proof. solve_decision. Defined.

(** src: db/src/kv/transaction.rs 180-189 RawOperation *)
Inductive RawOperation :=
| RawInsert (location : Location) (key value : list byte)
| RawDelete (location : Location) (key : list byte).

(** The UTF-8 bytes of a [&'static str] key. *)
Definition str_bytes (s : string) : list byte := String.list_byte_of_string s.

Context {R : RugOps}.

(** src: db/src/kv/transaction.rs 191-213 from *)
Definition raw_key_value (i : KeyValue) : Location * list byte * list byte :=
  match i with
  | KvMeta key value =>
      (LocColumn COL_META, serialize ser_str (str_bytes key), serialize ser_bytes value)
  | KvBlockHash key value =>
      (LocColumn COL_BLOCK_HASHES, serialize ser_u32 key, serialize (ser_hash 32) value)
  | KvBlock key value =>
      (LocColumn COL_BLOCKS, serialize (ser_hash 32) key, serialize ser_block value)
  | KvBlockNumber key value =>
      (LocColumn COL_BLOCK_NUMBERS, serialize (ser_hash 32) key, serialize ser_u32 value)
  | KvConfiguration key value =>
      (LocColumn COL_CONFIGURATION, serialize ser_str (str_bytes key), serialize ser_bytes value)
  end.

(** src: db/src/kv/transaction.rs 232-247 from *)
Definition raw_key (d : Key) : Location * list byte :=
  match d with
  | KeyMeta key => (LocColumn COL_META, serialize ser_str (str_bytes key))
  | KeyBlockHash key => (LocColumn COL_BLOCK_HASHES, serialize ser_u32 key)
  | KeyBlock key => (LocColumn COL_BLOCKS, serialize (ser_hash 32) key)
  | KeyBlockNumber key => (LocColumn COL_BLOCK_NUMBERS, serialize (ser_hash 32) key)
  | KeyConfiguration key => (LocColumn COL_CONFIGURATION, serialize ser_str (str_bytes key))
  end.

(** src: db/src/kv/transaction.rs 249-256 from *)
Definition raw_operation (o : Operation) : RawOperation :=
  match o with
  | OpInsert insert => let '(l, k, v) := raw_key_value insert in RawInsert l k v
  | OpDelete delete => let '(l, k) := raw_key delete in RawDelete l k
  end.

(** src: db/src/kv/transaction.rs 262-268 from *)
Definition raw_transaction (tx : Transaction) : list RawOperation :=
  raw_operation <$> operations tx.

(** src: db/src/kv/transaction.rs 48-57 for_key *)
Definition value_for_key (key : Key) (bytes : list byte) : result Error Value :=
  match key with
  | KeyMeta _ => v ← deserialize de_bytes bytes; Ok (VMeta v)
  | KeyBlockHash _ => v ← deserialize (de_hash 32) bytes; Ok (VBlockHash v)
  | KeyBlock _ => v ← deserialize de_block bytes; Ok (VBlock v)
  | KeyBlockNumber _ => v ← deserialize de_u32 bytes; Ok (VBlockNumber v)
  | KeyConfiguration _ => v ← deserialize de_bytes bytes; Ok (VConfiguration v)
  end.

(** ** The interface *)

(** src: db/src/kv/db.rs 3-7 KeyValueDatabase *)
Class KeyValueDatabase (T : Type) := {
  kv_write : Transaction → T → result string unit * T;
  kv_get : Key → T → result string (KeyState Value) * T;
}.

(** What a database shows. *)
Definition View := Key → option Value.

Definition kv_key (kv : KeyValue) : Key :=
  match kv with
  | KvMeta k _ => KeyMeta k
  | KvBlockHash n _ => KeyBlockHash n
  | KvBlock h _ => KeyBlock h
  | KvBlockNumber h _ => KeyBlockNumber h
  | KvConfiguration k _ => KeyConfiguration k
  end.

Definition kv_value (kv : KeyValue) : Value :=
  match kv with
  | KvMeta _ v => VMeta v
  | KvBlockHash _ h => VBlockHash h
  | KvBlock _ b => VBlock b
  | KvBlockNumber _ n => VBlockNumber n
  | KvConfiguration _ v => VConfiguration v
  end.

Definition op_key (o : Operation) : Key :=
  match o with OpInsert kv => kv_key kv | OpDelete k => k end.

Definition op_value (o : Operation) : option Value :=
  match o with OpInsert kv => Some (kv_value kv) | OpDelete _ => None end.

Definition view_set (v : View) (k : Key) (x : option Value) : View :=
  λ k', if decide (k' = k) then x else v k'.

Definition apply_ops (v : View) (ops : list Operation) : View :=
  foldl (λ v o, view_set v (op_key o) (op_value o)) v ops.

(** The contract: a view that reads do not change and that a transaction
    changes operation by operation. *)
Class KvSpec (T : Type) {K : KeyValueDatabase T} := {
  kv_valid : T → Prop;
  kv_view : T → View;
  kv_get_spec k t : kv_valid t →
    ∃ st t', kv_get k t = (Ok st, t') ∧ into_option st = kv_view t k ∧
      kv_valid t' ∧ kv_view t' = kv_view t;
  kv_write_spec tx t : kv_valid t →
    ∃ t', kv_write tx t = (Ok tt, t') ∧ kv_valid t' ∧
      kv_view t' = apply_ops (kv_view t) (operations tx);
}.

(** ** Memory database *)

(** src: db/src/kv/memorydb.rs 11-17 InnerDatabase *)
Record MemoryDatabase := mkMemoryDatabase {
  mem_meta : gmap string (KeyState (list byte));
  mem_block_hash : gmap Z (KeyState H256);
  mem_block : gmap H256 (KeyState Block);
  mem_block_number : gmap H256 (KeyState Z);
  mem_configuration : gmap string (KeyState (list byte));
}.

Definition memory_default : MemoryDatabase := mkMemoryDatabase ∅ ∅ ∅ ∅ ∅.

(** Operations of one column; the order of a [HashMap] is not specified, this
    is the order of the map's own list. *)
Definition drain_column {K A} `{Countable K} (insert : K → A → KeyValue) (delete : K → Key)
    (m : gmap K (KeyState A)) : list Operation :=
  omap (λ '(key, state), into_operation insert delete key state) (map_to_list m).

(** src: db/src/kv/memorydb.rs 25-61 drain_transaction *)
Definition drain_transaction (db : MemoryDatabase) : Transaction * MemoryDatabase :=
  (mkTransaction
     (drain_column KvMeta KeyMeta (mem_meta db) ++
      drain_column KvBlockHash KeyBlockHash (mem_block_hash db) ++
      drain_column KvBlock KeyBlock (mem_block db) ++
      drain_column KvBlockNumber KeyBlockNumber (mem_block_number db) ++
      drain_column KvConfiguration KeyConfiguration (mem_configuration db)),
   memory_default).

Definition memory_apply (db : MemoryDatabase) (op : Operation) : MemoryDatabase :=
  let '(mkMemoryDatabase meta block_hash block block_number configuration) := db in
  match op with
  | OpInsert (KvMeta key value) =>
      mkMemoryDatabase (<[key := StInsert value]> meta) block_hash block block_number configuration
  | OpInsert (KvBlockHash key value) =>
      mkMemoryDatabase meta (<[key := StInsert value]> block_hash) block block_number configuration
  | OpInsert (KvBlock key value) =>
      mkMemoryDatabase meta block_hash (<[key := StInsert value]> block) block_number configuration
  | OpInsert (KvBlockNumber key value) =>
      mkMemoryDatabase meta block_hash block (<[key := StInsert value]> block_number) configuration
  | OpInsert (KvConfiguration key value) =>
      mkMemoryDatabase meta block_hash block block_number (<[key := StInsert value]> configuration)
  | OpDelete (KeyMeta key) =>
      mkMemoryDatabase (<[key := StDelete]> meta) block_hash block block_number configuration
  | OpDelete (KeyBlockHash key) =>
      mkMemoryDatabase meta (<[key := StDelete]> block_hash) block block_number configuration
  | OpDelete (KeyBlock key) =>
      mkMemoryDatabase meta block_hash (<[key := StDelete]> block) block_number configuration
  | OpDelete (KeyBlockNumber key) =>
      mkMemoryDatabase meta block_hash block (<[key := StDelete]> block_number) configuration
  | OpDelete (KeyConfiguration key) =>
      mkMemoryDatabase meta block_hash block block_number (<[key := StDelete]> configuration)
  end.

(** src: db/src/kv/memorydb.rs 65-106 write *)
Definition memory_write (tx : Transaction) (db : MemoryDatabase) :
    result string unit * MemoryDatabase :=
  (Ok tt, foldl memory_apply db (operations tx)).

Definition memory_state (db : MemoryDatabase) (key : Key) : KeyState Value :=
  match key with
  | KeyMeta key => key_state_map VMeta (unwrap_or_unknown (mem_meta db !! key))
  | KeyBlockHash key => key_state_map VBlockHash (unwrap_or_unknown (mem_block_hash db !! key))
  | KeyBlock key => key_state_map VBlock (unwrap_or_unknown (mem_block db !! key))
  | KeyBlockNumber key => key_state_map VBlockNumber (unwrap_or_unknown (mem_block_number db !! key))
  | KeyConfiguration key =>
      key_state_map VConfiguration (unwrap_or_unknown (mem_configuration db !! key))
  end.

(** src: db/src/kv/memorydb.rs 108-144 get *)
Definition memory_get (key : Key) (db : MemoryDatabase) :
    result string (KeyState Value) * MemoryDatabase :=
  (Ok (memory_state db key), db).

#[global] Instance memory_kv : KeyValueDatabase MemoryDatabase :=
  {| kv_write := memory_write; kv_get := memory_get |}.

(** ** Overlay database *)

(** The database underneath is shared; it is part of the state so that a flush
    can change it. *)
(** src: db/src/kv/overlaydb.rs 4-10 OverlayDatabase *)
Record OverlayDatabase (T : Type) := mkOverlay { ov_db : T; ov_overlay : MemoryDatabase }.
Arguments mkOverlay {T} _ _.
Arguments ov_db {T} _.
Arguments ov_overlay {T} _.

(** src: db/src/kv/overlaydb.rs 44-52 AutoFlushingOverlayDatabase *)
Record AutoFlushingOverlayDatabase (T : Type) := mkAutoFlush {
  af_db : T;
  af_overlay : MemoryDatabase;
  af_operations : Z;
  af_max_operations : Z;
}.
Arguments mkAutoFlush {T} _ _ _ _.
Arguments af_db {T} _.
Arguments af_overlay {T} _.
Arguments af_operations {T} _.
Arguments af_max_operations {T} _.

Section layered.
Context {T : Type} {K : KeyValueDatabase T}.

(** src: db/src/kv/overlaydb.rs 16-21 new *)
Definition overlay_new (db : T) : OverlayDatabase T := mkOverlay db memory_default.

(** src: db/src/kv/overlaydb.rs 23-25 flush *)
Definition overlay_flush (o : OverlayDatabase T) : result string unit * OverlayDatabase T :=
  let '(tx, overlay) := drain_transaction (ov_overlay o) in
  let '(r, db) := kv_write tx (ov_db o) in
  (r, mkOverlay db overlay).

(** src: db/src/kv/overlaydb.rs 32-34 write *)
Definition overlay_write (tx : Transaction) (o : OverlayDatabase T) :
    result string unit * OverlayDatabase T :=
  let '(r, overlay) := kv_write tx (ov_overlay o) in (r, mkOverlay (ov_db o) overlay).

(** src: db/src/kv/overlaydb.rs 36-41 get *)
Definition overlay_get (key : Key) (o : OverlayDatabase T) :
    result string (KeyState Value) * OverlayDatabase T :=
  match kv_get key (ov_overlay o) with
  | (Err e, overlay) => (Err e, mkOverlay (ov_db o) overlay)
  | (Ok StUnknown, overlay) => let '(r, db) := kv_get key (ov_db o) in (r, mkOverlay db overlay)
  | (Ok exists_, overlay) => (Ok exists_, mkOverlay (ov_db o) overlay)
  end.

#[global] Instance overlay_kv : KeyValueDatabase (OverlayDatabase T) :=
  {| kv_write := overlay_write; kv_get := overlay_get |}.

(** src: db/src/kv/overlaydb.rs 58-65 new *)
Definition auto_flush_new (db : T) (max_operations : Z) : AutoFlushingOverlayDatabase T :=
  mkAutoFlush db memory_default 0 max_operations.

(** src: db/src/kv/overlaydb.rs 67-69 flush *)
Definition auto_flush_flush (a : AutoFlushingOverlayDatabase T) :
    result string unit * AutoFlushingOverlayDatabase T :=
  let '(tx, overlay) := drain_transaction (af_overlay a) in
  let '(r, db) := kv_write tx (af_db a) in
  (r, mkAutoFlush db overlay (af_operations a) (af_max_operations a)).

(** src: db/src/kv/overlaydb.rs 76-85 write *)
Definition auto_flush_write (tx : Transaction) (a : AutoFlushingOverlayDatabase T) :
    result string unit * AutoFlushingOverlayDatabase T :=
  let operations := af_operations a + 1 in
  match kv_write tx (af_overlay a) with
  | (Err e, overlay) => (Err e, mkAutoFlush (af_db a) overlay operations (af_max_operations a))
  | (Ok _, overlay) =>
      let a := mkAutoFlush (af_db a) overlay operations (af_max_operations a) in
      if operations =? af_max_operations a
      then match auto_flush_flush a with
           | (Err e, a) => (Err e, a)
           | (Ok _, a) => (Ok tt, mkAutoFlush (af_db a) (af_overlay a) 0 (af_max_operations a))
           end
      else (Ok tt, a)
  end.

(** src: db/src/kv/overlaydb.rs 87-92 get *)
Definition auto_flush_get (key : Key) (a : AutoFlushingOverlayDatabase T) :
    result string (KeyState Value) * AutoFlushingOverlayDatabase T :=
  match kv_get key (af_overlay a) with
  | (Err e, overlay) =>
      (Err e, mkAutoFlush (af_db a) overlay (af_operations a) (af_max_operations a))
  | (Ok StUnknown, overlay) =>
      let '(r, db) := kv_get key (af_db a) in
      (r, mkAutoFlush db overlay (af_operations a) (af_max_operations a))
  | (Ok exists_, overlay) =>
      (Ok exists_, mkAutoFlush (af_db a) overlay (af_operations a) (af_max_operations a))
  end.

#[global] Instance auto_flush_kv : KeyValueDatabase (AutoFlushingOverlayDatabase T) :=
  {| kv_write := auto_flush_write; kv_get := auto_flush_get |}.

(** [Drop]: the last flush must succeed. *)
(** src: db/src/kv/overlaydb.rs 99-101 drop *)
Definition auto_flush_drop (a : AutoFlushingOverlayDatabase T) : option T :=
  match auto_flush_flush a with
  | (Ok _, a) => Some (af_db a)
  | (Err _, _) => None
  end.
End layered.

(** ** Cache database *)

(** [lru_cache::LruCache]: a bounded map; [lru_view] is what it holds. *)
Class LruOps (A : Type) := {
  LruCache : Type;
  lru_new : Z → LruCache;
  lru_insert : H256 → A → LruCache → LruCache;
  lru_get_mut : H256 → LruCache → option A * LruCache;
}.

(** An insertion may evict any other key; a lookup changes only the order. *)
Class LruLaws (A : Type) (L : LruOps A) := {
  lru_view : LruCache → H256 → option A;
  lru_view_new n h : lru_view (lru_new n) h = None;
  lru_view_insert h x c h' y :
    lru_view (lru_insert h x c) h' = Some y →
    (h' = h ∧ y = x) ∨ (h' ≠ h ∧ lru_view c h' = Some y);
  lru_get_mut_view h c : fst (lru_get_mut h c) = lru_view c h;
  lru_get_mut_keeps h c h' : lru_view (snd (lru_get_mut h c)) h' = lru_view c h';
}.

Section cache.
Context {T : Type} {K : KeyValueDatabase T} {L : LruOps (KeyState Block)}.

(** src: db/src/kv/cachedb.rs 7-13 CacheDatabase *)
Record CacheDatabase := mkCache { ca_db : T; ca_block : LruCache }.

(** src: db/src/kv/cachedb.rs 19-26 new *)
Definition cache_new (db : T) : CacheDatabase := mkCache db (lru_new 2116).

Definition cache_op (c : LruCache) (op : Operation) : LruCache :=
  match op with
  | OpInsert (KvBlock hash block) => lru_insert hash (StInsert block) c
  | OpDelete (KeyBlock hash) => lru_insert hash StDelete c
  | _ => c
  end.

(** src: db/src/kv/cachedb.rs 33-48 write *)
Definition cache_write (tx : Transaction) (c : CacheDatabase) : result string unit * CacheDatabase :=
  let block := foldl cache_op (ca_block c) (operations tx) in
  let '(r, db) := kv_write tx (ca_db c) in
  (r, mkCache db block).

(** src: db/src/kv/cachedb.rs 50-58 get *)
Definition cache_get (key : Key) (c : CacheDatabase) :
    result string (KeyState Value) * CacheDatabase :=
  match key with
  | KeyBlock hash =>
      match lru_get_mut hash (ca_block c) with
      | (Some state, block) => (Ok (key_state_map VBlock state), mkCache (ca_db c) block)
      | (None, block) => let '(r, db) := kv_get key (ca_db c) in (r, mkCache db block)
      end
  | _ => let '(r, db) := kv_get key (ca_db c) in (r, mkCache db (ca_block c))
  end.

#[global] Instance cache_kv : KeyValueDatabase CacheDatabase :=
  {| kv_write := cache_write; kv_get := cache_get |}.
End cache.
End kv.

Arguments CacheDatabase {V} T {L}.
Arguments mkCache {V T L} _ _.
Arguments ca_db {V T L} _.
Arguments ca_block {V T L} _.
Arguments mkOverlay {V T} _ _.
Arguments ov_db {V T} _.
Arguments ov_overlay {V T} _.
Arguments mkAutoFlush {V T} _ _ _ _.
Arguments af_db {V T} _.
Arguments af_overlay {V T} _.
Arguments af_operations {V T} _.
Arguments af_max_operations {V T} _.
