(* ===== verification/KvRefine.v ===== *)
(** * The databases meet the interface

    Each database of [Kv] is shown to implement [KvSpec]: the memory database,
    the overlay and the auto-flushing overlay over any database that does, and
    the cache over any database that does and any LRU cache. *)

From Stdlib Require Import FunctionalExtensionality.
From S2P Require Import Prelude External Primitives Serialization Compact Crypto Chain Kv.

Section kv_lemmas.
Context {V : VrfOps}.

(** ** Applying operations *)

Lemma apply_ops_app v a b : apply_ops v (a ++ b) = apply_ops (apply_ops v a) b.
Proof. unfold apply_ops. by rewrite foldl_app. Qed.

Lemma apply_ops_notin v ops k : k ∉ (op_key <$> ops) → apply_ops v ops k = v k.
Proof.
  revert v. induction ops as [|o ops IH]; intros v Hk; [done|].
  rewrite fmap_cons, not_elem_of_cons in Hk. destruct Hk as [Hne Hk].
  change (apply_ops (view_set v (op_key o) (op_value o)) ops k = v k).
  rewrite IH by done. unfold view_set. by rewrite decide_False.
Qed.

(** Operations on distinct keys commute: the effect on a key is that of the one
    operation on it, whatever the order. *)
Lemma apply_ops_in v ops o :
  NoDup (op_key <$> ops) → o ∈ ops → apply_ops v ops (op_key o) = op_value o.
Proof.
  revert v. induction ops as [|o' ops IH]; intros v Hnd Ho; [by apply not_elem_of_nil in Ho|].
  rewrite fmap_cons in Hnd. apply list.NoDup_cons in Hnd as [Hnotin Hnd].
  change (apply_ops (view_set v (op_key o') (op_value o')) ops (op_key o) = op_value o).
  apply elem_of_cons in Ho as [->|Ho]; [|by apply IH].
  rewrite apply_ops_notin by done. unfold view_set. by rewrite decide_True.
Qed.

Lemma apply_ops_permutation v ops ops' :
  NoDup (op_key <$> ops) → ops ≡ₚ ops' → apply_ops v ops = apply_ops v ops'.
Proof.
  intros Hnd Hp. extensionality k.
  destruct (decide (k ∈ op_key <$> ops)) as [Hk|Hk].
  - apply list_elem_of_fmap in Hk as (o & -> & Ho). rewrite apply_ops_in by done.
    rewrite apply_ops_in; [done|by rewrite <-Hp|by rewrite <-Hp].
  - rewrite apply_ops_notin by done. rewrite apply_ops_notin; [done|by rewrite <-Hp].
Qed.

(** ** Memory database *)

Definition op_state (o : Operation) : KeyState Value :=
  match o with OpInsert kv => StInsert (kv_value kv) | OpDelete _ => StDelete end.

Lemma op_state_value o : into_option (op_state o) = op_value o.
Proof. by destruct o. Qed.

Lemma unwrap_insert {K A} `{Countable K} (m : gmap K (KeyState A)) k k' s :
  unwrap_or_unknown (<[k := s]> m !! k') =
    if decide (k' = k) then s else unwrap_or_unknown (m !! k').
Proof.
  destruct (decide (k' = k)) as [->|]; [by rewrite lookup_insert_eq|].
  by rewrite lookup_insert_ne.
Qed.

Lemma memory_state_apply db o k :
  memory_state (memory_apply db o) k = if decide (k = op_key o) then op_state o else memory_state db k.
Proof.
  destruct db, o as [[]|[]], k; simpl; rewrite ?unwrap_insert;
    repeat case_decide; simplify_eq; done.
Qed.

(** What a layer over a view shows. *)
Definition layer_view (mem : MemoryDatabase) (base : View) : View := λ k,
  match memory_state mem k with StUnknown => base k | s => into_option s end.

Lemma layer_view_default base : layer_view memory_default base = base.
Proof. extensionality k. by destruct k. Qed.

Lemma layer_view_write mem base ops :
  layer_view (foldl memory_apply mem ops) base = apply_ops (layer_view mem base) ops.
Proof.
  revert mem. induction ops as [|o ops IH]; intros mem; [done|]. simpl. rewrite IH.
  unfold apply_ops. simpl. f_equal. extensionality k. unfold layer_view, view_set.
  rewrite memory_state_apply. case_decide; [|done]. by destruct o.
Qed.

Section column.
Context {K A : Type} `{Countable K} (ins : K → A → KeyValue) (del : K → Key) (val : A → Value).
Context (Hkey : ∀ k a, kv_key (ins k a) = del k) (Hval : ∀ k a, kv_value (ins k a) = val a).
Context `{!Inj (=) (=) del}.

Lemma into_operation_spec k st o :
  into_operation ins del k st = Some o →
  op_key o = del k ∧ op_state o = key_state_map val st ∧ st ≠ StUnknown.
Proof. destruct st; intros [= <-]; simpl; by rewrite ?Hkey, ?Hval. Qed.

Lemma drain_column_elem m o :
  o ∈ drain_column ins del m →
  ∃ k st, m !! k = Some st ∧ op_key o = del k ∧ op_state o = key_state_map val st.
Proof.
  unfold drain_column. intros Ho. apply list_elem_of_omap in Ho as ([k st] & Hin & E).
  apply elem_of_map_to_list in Hin. apply into_operation_spec in E as (? & ? & ?).
  by exists k, st.
Qed.

Lemma drain_column_complete m k st :
  m !! k = Some st → st ≠ StUnknown →
  ∃ o, o ∈ drain_column ins del m ∧ op_key o = del k ∧ op_state o = key_state_map val st.
Proof.
  intros Hk Hst. destruct (into_operation ins del k st) as [o|] eqn:E; [|by destruct st].
  exists o. split.
  - unfold drain_column. apply list_elem_of_omap. exists (k, st). split; [|done].
    by apply elem_of_map_to_list.
  - by apply into_operation_spec in E as (? & ? & _).
Qed.

Lemma drain_column_nodup m : NoDup (op_key <$> drain_column ins del m).
Proof.
  unfold drain_column. pose proof (NoDup_fst_map_to_list m) as Hnd.
  induction (map_to_list m) as [|[k st] l IH]; [constructor|].
  rewrite fmap_cons in Hnd. apply list.NoDup_cons in Hnd as [Hk Hnd]. simpl in Hk |- *.
  destruct (into_operation ins del k st) as [o|] eqn:E; [|by apply IH].
  rewrite fmap_cons. apply list.NoDup_cons. split; [|by apply IH].
  apply into_operation_spec in E as (-> & _). intros Hin.
  apply list_elem_of_fmap in Hin as (o' & Eo' & Ho'). apply list_elem_of_omap in Ho' as ([k' st'] & Hin & E').
  apply into_operation_spec in E' as (Ek' & _). apply Hk.
  rewrite Ek' in Eo'. apply (inj del) in Eo' as ->. apply list_elem_of_fmap. by exists (k', st').
Qed.
End column.

Lemma drain_nodup mem : NoDup (op_key <$> operations (fst (drain_transaction mem))).
Proof.
  simpl. rewrite !fmap_app.
  assert (∀ K A `{Countable K} ins del val (m : gmap K (KeyState A)) x,
    (∀ k a, kv_key (ins k a) = del k) → (∀ k a, kv_value (ins k a) = val a) →
    x ∈ op_key <$> drain_column ins del m → ∃ k, x = del k) as Hshape.
  { intros K A ?? ins del val m x Hk Hv Hx. apply list_elem_of_fmap in Hx as (o & -> & Ho).
    apply (drain_column_elem ins del val Hk Hv) in Ho as (k & st & _ & -> & _). by exists k. }
  repeat (apply list.NoDup_app; split; [|split]).
  all: try (eapply (drain_column_nodup _ _ VMeta); [done|done|by intros ?? [= ->]]).
  all: try (eapply (drain_column_nodup _ _ VBlockHash); [done|done|by intros ?? [= ->]]).
  all: try (eapply (drain_column_nodup _ _ VBlock); [done|done|by intros ?? [= ->]]).
  all: try (eapply (drain_column_nodup _ _ VBlockNumber); [done|done|by intros ?? [= ->]]).
  all: try (eapply (drain_column_nodup _ _ VConfiguration); [done|done|by intros ?? [= ->]]).
  all: intros x Hx Hy; rewrite ?elem_of_app in Hy.
  all: repeat match goal with
  | Hx : _ ∨ _ |- _ => destruct Hx
  | Hx : ?y ∈ op_key <$> drain_column KvMeta _ _ |- _ =>
      apply (Hshape _ _ _ _ _ _ VMeta) in Hx as [? ?]; [|done|done]
  | Hx : ?y ∈ op_key <$> drain_column KvBlockHash _ _ |- _ =>
      apply (Hshape _ _ _ _ _ _ VBlockHash) in Hx as [? ?]; [|done|done]
  | Hx : ?y ∈ op_key <$> drain_column KvBlock _ _ |- _ =>
      apply (Hshape _ _ _ _ _ _ VBlock) in Hx as [? ?]; [|done|done]
  | Hx : ?y ∈ op_key <$> drain_column KvBlockNumber _ _ |- _ =>
      apply (Hshape _ _ _ _ _ _ VBlockNumber) in Hx as [? ?]; [|done|done]
  | Hx : ?y ∈ op_key <$> drain_column KvConfiguration _ _ |- _ =>
      apply (Hshape _ _ _ _ _ _ VConfiguration) in Hx as [? ?]; [|done|done]
  end; simplify_eq.
Qed.

Lemma drain_elem mem o :
  o ∈ operations (fst (drain_transaction mem)) → memory_state mem (op_key o) = op_state o.
Proof.
  simpl. rewrite !elem_of_app. intros Ho.
  destruct Ho as [Ho|[Ho|[Ho|[Ho|Ho]]]].
  1: apply (drain_column_elem _ _ VMeta) in Ho as (k & st & Hk & -> & ->); [|done..].
  2: apply (drain_column_elem _ _ VBlockHash) in Ho as (k & st & Hk & -> & ->); [|done..].
  3: apply (drain_column_elem _ _ VBlock) in Ho as (k & st & Hk & -> & ->); [|done..].
  4: apply (drain_column_elem _ _ VBlockNumber) in Ho as (k & st & Hk & -> & ->); [|done..].
  5: apply (drain_column_elem _ _ VConfiguration) in Ho as (k & st & Hk & -> & ->); [|done..].
  all: simpl; by rewrite Hk.
Qed.

Lemma drain_complete mem k :
  memory_state mem k ≠ StUnknown →
  ∃ o, o ∈ operations (fst (drain_transaction mem)) ∧ op_key o = k.
Proof.
  intros Hk. simpl. setoid_rewrite elem_of_app. setoid_rewrite elem_of_app.
  setoid_rewrite elem_of_app. setoid_rewrite elem_of_app.
  assert (∀ K A `{Countable K} ins del val (m : gmap K (KeyState A)) key,
    (∀ k a, kv_key (ins k a) = del k) → (∀ k a, kv_value (ins k a) = val a) →
    key_state_map val (unwrap_or_unknown (m !! key)) ≠ StUnknown →
    ∃ o, o ∈ drain_column ins del m ∧ op_key o = del key) as Hcol.
  { intros K A ?? ins del val m key Hkey Hval Hst. destruct (m !! key) as [st|] eqn:E; [|done].
    destruct (drain_column_complete ins del val Hkey Hval m key st E) as (o & ? & ? & _);
      [by destruct st|]. by exists o. }
  destruct k as [k|k|k|k|k]; simpl in Hk.
  1: apply (Hcol _ _ _ _ KvMeta KeyMeta) in Hk as (o & ? & ?); [|done..].
  2: apply (Hcol _ _ _ _ KvBlockHash KeyBlockHash) in Hk as (o & ? & ?); [|done..].
  3: apply (Hcol _ _ _ _ KvBlock KeyBlock) in Hk as (o & ? & ?); [|done..].
  4: apply (Hcol _ _ _ _ KvBlockNumber KeyBlockNumber) in Hk as (o & ? & ?); [|done..].
  5: apply (Hcol _ _ _ _ KvConfiguration KeyConfiguration) in Hk as (o & ? & ?); [|done..].
  all: exists o; tauto.
Qed.

(** Writing the drained operations to a database, in any order, makes it show
    what the layer over it showed. *)
Lemma drain_apply mem base ops :
  ops ≡ₚ operations (fst (drain_transaction mem)) →
  apply_ops base ops = layer_view mem base.
Proof.
  intros Hp. pose proof (drain_nodup mem) as Hnd.
  rewrite (apply_ops_permutation _ _ ops Hnd) || rewrite <-(apply_ops_permutation base _ ops Hnd) by done.
  extensionality k. unfold layer_view.
  destruct (memory_state mem k) as [v| |] eqn:E.
  3: { apply apply_ops_notin. intros Hk. apply list_elem_of_fmap in Hk as (o & -> & Ho).
       apply drain_elem in Ho. rewrite E in Ho. by destruct o. }
  all: destruct (drain_complete mem k) as (o & Ho & <-); [by rewrite E|].
  all: rewrite apply_ops_in by done; apply drain_elem in Ho.
  all: rewrite <-op_state_value, <-Ho, E; done.
Qed.

#[global] Program Instance memory_spec : KvSpec MemoryDatabase :=
  {| kv_valid _ := True; kv_view m k := into_option (memory_state m k) |}.
Next Obligation. intros k t _. by eexists _, _. Qed.
Next Obligation.
  intros tx t _. eexists. split; [reflexivity|]. split; [done|].
  assert (∀ m, (λ k, into_option (memory_state m k)) = layer_view m (λ _, None)) as Heq.
  { intros m. extensionality k. unfold layer_view. by destruct (memory_state m k). }
  by rewrite !Heq, layer_view_write.
Qed.

(** ** Layers over any database *)

Section layers.
Context {T : Type} {K : KeyValueDatabase T} {KS : KvSpec T}.

#[global] Program Instance overlay_spec : KvSpec (OverlayDatabase T) :=
  {| kv_valid o := kv_valid (ov_db o);
     kv_view o := layer_view (ov_overlay o) (kv_view (ov_db o)) |}.
Next Obligation.
  intros k [db mem] Hv. unfold kv_get, overlay_kv, overlay_get. simpl. unfold layer_view.
  destruct (memory_state mem k) as [v| |] eqn:E; [by eexists _, _..|].
  destruct (kv_get_spec k db Hv) as (st & db' & -> & Hst & Hv' & Hview).
  eexists _, _. split; [reflexivity|]. simpl. rewrite Hview. by split_and!.
Qed.
Next Obligation.
  intros tx [db mem] Hv. eexists. split; [reflexivity|]. split; [done|].
  simpl. apply layer_view_write.
Qed.

Lemma overlay_new_view (db : T) : kv_view (overlay_new db) = kv_view db.
Proof. apply layer_view_default. Qed.

Lemma overlay_flush_spec (o : OverlayDatabase T) : kv_valid o →
  ∃ o', overlay_flush o = (Ok tt, o') ∧ kv_valid o' ∧ kv_view o' = kv_view o ∧
    kv_view (ov_db o') = kv_view o ∧ kv_valid (ov_db o').
Proof.
  intros Hv. unfold overlay_flush.
  destruct (drain_transaction (ov_overlay o)) as [tx mem] eqn:E.
  assert (tx = fst (drain_transaction (ov_overlay o))) as -> by (by rewrite E).
  assert (mem = memory_default) as -> by (by injection E).
  destruct (kv_write_spec (fst (drain_transaction (ov_overlay o))) (ov_db o) Hv) as (db' & -> & Hv' & Hview).
  rewrite (drain_apply (ov_overlay o)) in Hview by done.
  eexists. split; [reflexivity|]. split; [done|]. split; [|done].
  simpl. by rewrite layer_view_default.
Qed.

#[global] Program Instance auto_flush_spec : KvSpec (AutoFlushingOverlayDatabase T) :=
  {| kv_valid a := kv_valid (af_db a);
     kv_view a := layer_view (af_overlay a) (kv_view (af_db a)) |}.
Next Obligation.
  intros k [db mem n mx] Hv. unfold kv_get, auto_flush_kv, auto_flush_get. simpl. unfold layer_view.
  destruct (memory_state mem k) as [v| |] eqn:E; [by eexists _, _..|].
  destruct (kv_get_spec k db Hv) as (st & db' & -> & Hst & Hv' & Hview).
  eexists _, _. split; [reflexivity|]. simpl. rewrite Hview. by split_and!.
Qed.
Next Obligation.
  intros tx [db mem n mx] Hv. unfold kv_write, auto_flush_kv, auto_flush_write. simpl.
  destruct (n + 1 =? mx).
  - unfold auto_flush_flush. cbn [af_db af_overlay af_operations af_max_operations].
    set (mem' := foldl memory_apply mem (operations tx)).
    destruct (kv_write_spec (fst (drain_transaction mem')) db Hv) as (db' & E & Hv' & Hview).
    rewrite (drain_apply mem') in Hview by done.
    unfold drain_transaction in E |- *. cbn [fst] in E. rewrite E.
    eexists. split; [reflexivity|]. split; [done|]. simpl. rewrite layer_view_default, Hview.
    apply layer_view_write.
  - eexists. split; [reflexivity|]. split; [done|]. simpl. apply layer_view_write.
Qed.

(** Dropping the database flushes what is left: nothing is lost. *)
Lemma auto_flush_drop_spec (a : AutoFlushingOverlayDatabase T) : kv_valid a →
  ∃ db, auto_flush_drop a = Some db ∧ kv_valid db ∧ kv_view db = kv_view a.
Proof.
  destruct a as [db mem n mx]. intros Hv. unfold auto_flush_drop, auto_flush_flush.
  destruct (kv_write_spec (fst (drain_transaction mem)) db Hv) as (db' & E & Hv' & Hview).
  rewrite (drain_apply mem) in Hview by done.
  unfold drain_transaction in E |- *. cbn [fst af_overlay af_db] in E |- *. rewrite E.
  exists db'. done.
Qed.

(** ** The cache *)

Context {L : LruOps (KeyState Block)} {LL : LruLaws (KeyState Block) L}.

(** Every cached state agrees with the database. *)
Definition cache_coherent (view : View) (c : LruCache) : Prop :=
  ∀ h st, lru_view c h = Some st → into_option (key_state_map VBlock st) = view (KeyBlock h).

Lemma cache_op_coherent view c o :
  cache_coherent view c → cache_coherent (view_set view (op_key o) (op_value o)) (cache_op c o).
Proof.
  intros Hc h st Hh. unfold view_set.
  destruct o as [[| |hash block| |]|[| |hash| |]]; cbn [op_key op_value kv_key kv_value cache_op] in *.
  all: try (rewrite decide_False by discriminate; by apply Hc).
  all: apply lru_view_insert in Hh as [[-> ->]|[Hne Hh]]; [by rewrite decide_True|].
  all: rewrite decide_False by congruence; by apply Hc.
Qed.

Lemma cache_ops_coherent view c ops :
  cache_coherent view c → cache_coherent (apply_ops view ops) (foldl cache_op c ops).
Proof.
  revert view c. induction ops as [|o ops IH]; intros view c Hc; [done|].
  apply (IH (view_set view (op_key o) (op_value o))). by apply cache_op_coherent.
Qed.

#[global] Program Instance cache_spec : KvSpec (CacheDatabase T) :=
  {| kv_valid c := kv_valid (ca_db c) ∧ cache_coherent (kv_view (ca_db c)) (ca_block c);
     kv_view c := kv_view (ca_db c) |}.
Next Obligation.
  intros k [db c] [Hv Hc]. unfold kv_get, cache_kv, cache_get. simpl in *.
  destruct (kv_get_spec k db Hv) as (st & db' & E & Hst & Hv' & Hview).
  assert (∀ h, cache_coherent (kv_view db) (snd (lru_get_mut h c))) as Hc'.
  { intros h h' st' Hh'. rewrite lru_get_mut_keeps in Hh'. by apply Hc. }
  destruct k as [k|k|k|k|k].
  3: { pose proof (lru_get_mut_view k c) as Hl. specialize (Hc' k).
       destruct (lru_get_mut k c) as [[st'|] c'] eqn:El; simpl in *.
       - eexists _, _. split; [reflexivity|]. split; [by apply Hc|done].
       - rewrite E. eexists _, _. split; [reflexivity|]. simpl. by rewrite Hview. }
  all: rewrite E; eexists _, _; split; [reflexivity|]; simpl; by rewrite Hview.
Qed.
Next Obligation.
  intros tx [db c] [Hv Hc]. unfold kv_write, cache_kv, cache_write. simpl in *.
  destruct (kv_write_spec tx db Hv) as (db' & -> & Hv' & Hview).
  eexists. split; [reflexivity|]. simpl. rewrite Hview. split; [|done].
  split; [done|]. by apply cache_ops_coherent.
Qed.
End layers.

(** ** Sequences of calls *)

(** A client's calls, and what the reads among them return. *)
Inductive KvStep := StepWrite (tx : Transaction) | StepGet (k : Key).

Fixpoint kv_run {T} {K : KeyValueDatabase T} (steps : list KvStep) (t : T) :
    list (result string (option Value)) * T :=
  match steps with
  | [] => ([], t)
  | StepWrite tx :: steps => let '(_, t) := kv_write tx t in kv_run steps t
  | StepGet k :: steps =>
      let '(r, t) := kv_get k t in
      let '(out, t) := kv_run steps t in
      ((st ← r; Ok (into_option st)) :: out, t)
  end.

(** The same on a view. *)
Fixpoint view_run (steps : list KvStep) (v : View) : list (result string (option Value)) * View :=
  match steps with
  | [] => ([], v)
  | StepWrite tx :: steps => view_run steps (apply_ops v (operations tx))
  | StepGet k :: steps => let '(out, v') := view_run steps v in (Ok (v k) :: out, v')
  end.

Lemma kv_run_spec {T} {K : KeyValueDatabase T} {KS : KvSpec T} steps (t : T) : kv_valid t →
  ∃ t', kv_run steps t = (fst (view_run steps (kv_view t)), t') ∧ kv_valid t' ∧
    kv_view t' = snd (view_run steps (kv_view t)).
Proof.
  revert t. induction steps as [|[tx|k] steps IH]; intros t Hv; simpl; [by exists t| |].
  - destruct (kv_write_spec tx t Hv) as (t1 & -> & Hv1 & <-). by apply IH.
  - destruct (kv_get_spec k t Hv) as (st & t1 & -> & Hst & Hv1 & Hview).
    destruct (IH t1 Hv1) as (t' & -> & Hv' & Hview'). rewrite Hview in *.
    exists t'. destruct (view_run steps (kv_view t)). simpl in *. by rewrite Hst.
Qed.

(** C9: the stack the node opens (block cache over an overlay that flushes
    every so many writes over the database) is transparent.  Whatever is
    written and read through it, and however the cache evicts and the overlay
    flushes, each read returns what the database with all earlier writes
    applied would show; when the stack is dropped the database itself shows
    everything that was written. *)
Theorem cached_stack_transparent {T} {K : KeyValueDatabase T} {KS : KvSpec T}
    {L : LruOps (KeyState Block)} {LL : LruLaws (KeyState Block) L}
    (db : T) (max_operations : Z) (steps : list KvStep) : kv_valid db →
  ∃ c db', kv_run steps (cache_new (auto_flush_new db max_operations)) =
      (fst (view_run steps (kv_view db)), c) ∧
    auto_flush_drop (ca_db c) = Some db' ∧ kv_valid db' ∧
    kv_view db' = snd (view_run steps (kv_view db)).
Proof.
  intros Hdb. set (c0 := cache_new (auto_flush_new db max_operations)).
  assert (kv_view c0 = kv_view db) as E0 by apply layer_view_default.
  assert (kv_valid c0) as Hv0.
  { split; [done|]. intros h st Hh. change (lru_view (lru_new 2116) h = Some st) in Hh. by rewrite lru_view_new in Hh. }
  destruct (kv_run_spec steps c0 Hv0) as (c & -> & [Hv _] & Hview). rewrite E0 in *.
  destruct (auto_flush_drop_spec (ca_db c) Hv) as (db' & Hdrop & Hv' & Hview').
  exists c, db'. split_and!; try done. by rewrite Hview'.
Qed.

(** An overlay isolates its database.  Writes to it leave the database
    as it was; the flush makes the database show what the overlay showed, in
    whatever order the hash maps yield the operations, and leaves the overlay
    showing the same. *)
Theorem overlay_isolates_and_flushes {T} {K : KeyValueDatabase T} {KS : KvSpec T}
    (db : T) (txs : list Transaction) : kv_valid db →
  let o := foldl (λ o tx, snd (kv_write tx o)) (overlay_new db) txs in
  let written := foldl (λ v tx, apply_ops v (operations tx)) (kv_view db) txs in
  ov_db o = db ∧ kv_view o = written ∧
  (∀ ops, ops ≡ₚ operations (fst (drain_transaction (ov_overlay o))) →
     apply_ops (kv_view db) ops = written) ∧
  ∃ o', overlay_flush o = (Ok tt, o') ∧ kv_view o' = written ∧ kv_view (ov_db o') = written.
Proof.
  intros Hdb o written.
  assert (ov_db o = db ∧ kv_view o = written) as [E1 E2].
  { unfold o, written. rewrite <-(overlay_new_view db).
    assert (ov_db (overlay_new db) = db) as E by done. revert E. generalize (overlay_new db).
    induction txs as [|tx txs IH]; intros o0 E; [done|]. cbn [foldl].
    destruct (IH (snd (kv_write tx o0))) as [H1 H2]; [done|]. split; [done|].
    rewrite H2. f_equal. apply (layer_view_write (ov_overlay o0)). }
  assert (kv_valid o) as Hv by (hnf; by rewrite E1).
  split_and!; try done.
  - intros ops Hops. rewrite (drain_apply _ _ _ Hops), <-E2, <-E1. done.
  - destruct (overlay_flush_spec o Hv) as (o' & -> & _ & E3 & E4 & _).
    exists o'. by rewrite E3, E4, E2.
Qed.

(** A flush that fails loses the overlay.  When the database refuses a
    write at the moment the overlay flushes, the error is reported, but the
    overlay is already empty: reads fall back to the database, without the
    writes since the last flush.  The counter stays at the limit, so that the
    next write does not flush, and no later write does. *)
Theorem failed_flush_loses_overlay {T} {K : KeyValueDatabase T} (db : T) mem max tx e :
  (∀ tx', kv_write tx' db = (Err e, db)) →
  let a := mkAutoFlush db mem (max - 1) max in
  let a' := mkAutoFlush db memory_default max max in
  auto_flush_write tx a = (Err e, a') ∧
  (∀ k, fst (auto_flush_get k a') = fst (kv_get k db)) ∧
  ∀ txs, af_db (foldl (λ a tx, snd (auto_flush_write tx a)) a' txs) = db.
Proof.
  intros Hfail a a'. split_and!.
  - unfold auto_flush_write. simpl. replace (max - 1 + 1) with max by lia. rewrite Z.eqb_refl.
    unfold auto_flush_flush. simpl. by rewrite Hfail.
  - intros k. unfold auto_flush_get, a'. simpl. destruct k; simpl; by destruct (kv_get _ db).
  - intros txs. assert (∀ b, af_db b = db → af_max_operations b = max → max ≤ af_operations b →
      af_db (foldl (λ a tx, snd (auto_flush_write tx a)) b txs) = db) as Hind; [|by apply Hind].
    induction txs as [|tx' txs IH]; intros [db0 mem0 n0 m0]; simpl; [done|]. intros -> -> Hn.
    apply IH; unfold auto_flush_write; simpl; rewrite (proj2 (Z.eqb_neq _ _)) by lia; simpl; try done; lia.
Qed.

(** ** The disk encoding *)

Context {R : RugOps} {RL : RugLaws R} {VL : VrfLaws V}.

Definition kv_wf (kv : KeyValue) : Prop :=
  match kv with
  | KvMeta _ v | KvConfiguration _ v => u64 (Z.of_nat (length v))
  | KvBlockHash n _ => u32 n
  | KvBlock _ b => block_wf b
  | KvBlockNumber _ n => u32 n
  end.

(** What is written to a column under a key is read back under that key:
    [Value::for_key] inverts the raw encoding of every key-value pair, and the
    raw key of the pair is the raw key the lookup uses. *)
Theorem raw_value_roundtrip kv : kv_wf kv →
  let '(location, key, value) := raw_key_value kv in
  raw_key (kv_key kv) = (location, key) ∧ value_for_key (kv_key kv) value = Ok (kv_value kv).
Proof.
  destruct kv as [k v|n h|h b|h n|k v]; intros Hwf;
    cbn [raw_key_value kv_key kv_value value_for_key]; (split; [done|]).
  - by rewrite (deserialize_serialize ser_bytes de_bytes _ v Hwf).
  - by rewrite (deserialize_serialize (ser_hash 32) (de_hash 32) (λ _, True) h I).
  - by rewrite (deserialize_serialize ser_block de_block block_wf b Hwf).
  - by rewrite (deserialize_serialize ser_u32 de_u32 u32 n Hwf).
  - by rewrite (deserialize_serialize ser_bytes de_bytes _ v Hwf).
Qed.
End kv_lemmas.

(** ** Concrete databases *)

Section kv_examples.
Import Reference.

(** A cache without eviction. *)
#[local] Instance map_lru : LruOps (KeyState Block) :=
  {| LruCache := gmap H256 (KeyState Block); lru_new _ := ∅;
     lru_insert h x c := <[h := x]> c; lru_get_mut h c := (c !! h, c) |}.

#[local] Instance map_lru_laws : LruLaws (KeyState Block) map_lru.
Proof.
  refine {| lru_view c h := (c : gmap H256 (KeyState Block)) !! h |}; try done.
  intros h x c h' y. simpl. destruct (decide (h' = h)) as [->|].
  - rewrite lookup_insert_eq. intros [= <-]. by left.
  - rewrite lookup_insert_ne by done. by right.
Qed.

(** A database that refuses every write and knows nothing. *)
Definition ReadOnly := unit.
#[local] Instance read_only_kv : KeyValueDatabase ReadOnly :=
  {| kv_write _ db := (Err "disk full", db); kv_get _ db := (Ok StUnknown, db) |}.

Definition example_tx : Transaction :=
  tx_delete (tx_insert (tx_insert transaction_new
    (KvBlockHash 0 (hash_from_u8 3))) (KvMeta "best_block_number" [])) (KeyBlockNumber hash_default).

Lemma cached_stack_transparent_witness :
  ∃ c db', kv_run [StepWrite example_tx; StepGet (KeyBlockHash 0)]
      (cache_new (auto_flush_new memory_default 1)) =
      ([Ok (Some (VBlockHash (hash_from_u8 3)))], c) ∧
    auto_flush_drop (ca_db c) = Some db'.
Proof.
  destruct (cached_stack_transparent (KS:=memory_spec) memory_default 1
    [StepWrite example_tx; StepGet (KeyBlockHash 0)] I) as (c & db' & Hrun & Hdrop & _).
  exists c, db'. split; [exact Hrun|exact Hdrop].
Defined.

Lemma overlay_isolates_and_flushes_witness :
  ∃ o', overlay_flush (snd (kv_write example_tx (overlay_new memory_default))) = (Ok tt, o').
Proof.
  destruct (overlay_isolates_and_flushes (KS:=memory_spec) memory_default [example_tx] I)
    as (_ & _ & _ & o' & Ho' & _).
  exists o'. exact Ho'.
Defined.

Lemma failed_flush_loses_overlay_witness :
  auto_flush_write example_tx (mkAutoFlush (tt : ReadOnly) memory_default 49 50) =
    (Err "disk full", mkAutoFlush tt memory_default 50 50).
Proof.
  exact (proj1 (failed_flush_loses_overlay (tt : ReadOnly) memory_default 50 example_tx
    "disk full" (λ _, eq_refl))).
Defined.

Lemma raw_value_roundtrip_witness :
  value_for_key (KeyBlock hash_default) (serialize ser_block example_block) = Ok (VBlock example_block).
Proof.
  exact (proj2 (raw_value_roundtrip (KvBlock hash_default example_block) example_block_wf)).
Defined.
End kv_examples.
