(* ===== verification/BlockChainDb.v ===== *)
(** * The block chain database ([db/src/block_chain_db.rs])

    The canonical chain is kept as two columns, number to hash and hash to
    number, with the best block cached in memory and mirrored in two meta
    entries.  Side-chain blocks are only stored.  A fork is a chain database
    over an overlay of the database: blocks are decanonized and canonized in
    the overlay, and the fork is adopted by flushing it.  Operations are
    computations over the database state that may panic ([None]). *)

From S2P Require Import Prelude External Primitives Serialization Compact Crypto Chain.
From S2P Require Import Storage Network Kv KvRefine.

(** src: db/src/block_chain_db.rs 19-20 KEY_BEST_BLOCK_NUMBER *)
Definition KEY_BEST_BLOCK_NUMBER : string := "best_block_number".
Definition KEY_BEST_BLOCK_HASH : string := "best_block_hash".

(** src: db/src/block_chain_db.rs 22-22 MAX_FORK_ROUTE_PRESET *)
Definition MAX_FORK_ROUTE_PRESET : nat := Z.to_nat 2048.

(** src: db/src/block_chain_db.rs 24-30 BlockChainDatabase *)
Record BlockChainDatabase (T : Type) := mkBlockChainDatabase {
  bc_best_block : BestBlock;
  bc_db : T;
}.
Arguments mkBlockChainDatabase {T} _ _.
Arguments bc_best_block {T} _.
Arguments bc_db {T} _.

(** Computations over the state, with panics. *)
Definition DM (T A : Type) : Type := BlockChainDatabase T → option (A * BlockChainDatabase T).

#[global] Instance DM_ret T : MRet (DM T) := λ A a s, Some (a, s).
#[global] Instance DM_bind T : MBind (DM T) := λ A B k m s,
  match m s with Some (a, s') => k a s' | None => None end.

Definition panic {T A} : DM T A := λ _, None.
Definition lift {T A} (o : option A) : DM T A := λ s, a ← o; Some (a, s).
Definition get_best {T} : DM T BestBlock := λ s, Some (bc_best_block s, s).
Definition set_best {T} (b : BestBlock) : DM T unit := λ s,
  Some (tt, mkBlockChainDatabase b (bc_db s)).

(** [x?] on a computation that returns a [Result]. *)
Definition try_bind {T A B} (m : DM T (result DbError A)) (k : A → DM T (result DbError B)) :
    DM T (result DbError B) :=
  r ← m; match r with Ok a => k a | Err e => mret (Err e) end.

Section db.
Context {V : VrfOps} {R : RugOps} {P : Profile}.

(** The decoding of the two meta entries; [None] is a panic. *)
Definition decode_best (number hash : option (list byte)) : option (option BestBlock) :=
  match number, hash with
  | None, None => Some None
  | Some number, Some hash =>
      match deserialize de_u32 number, deserialize (de_hash 32) hash with
      | Ok n, Ok h => Some (Some (mkBestBlock n h))
      | _, _ => None
      end
  | _, _ => None
  end.

Section generic.
Context {T : Type} {K : KeyValueDatabase T}.

(** Reading a meta entry from a database, as [read_best_block] does. *)
Definition get_meta (key : string) (db : T) : option (option (list byte)) * T :=
  match kv_get (KeyMeta key) db with
  | (Ok st, db) => (Some (into_option st ≫= as_meta), db)
  | (Err _, db) => (None, db)
  end.

(** src: db/src/block_chain_db.rs 108-127 read_best_block *)
Definition read_best_block (db : T) : option (option BestBlock) * T :=
  let '(best_number, db) := get_meta KEY_BEST_BLOCK_NUMBER db in
  let '(best_hash, db) := get_meta KEY_BEST_BLOCK_HASH db in
  match best_number, best_hash with
  | Some number, Some hash => (decode_best number hash, db)
  | _, _ => (None, db)
  end.

(** src: db/src/block_chain_db.rs 129-135 open *)
Definition open (db : T) : option (BlockChainDatabase T) :=
  match read_best_block db with
  | (Some best, db) => Some (mkBlockChainDatabase (default best_block_default best) db)
  | (None, _) => None
  end.

(** src: db/src/block_chain_db.rs 371-376 get *)
Definition db_get (key : Key) : DM T (option Value) := λ s,
  match kv_get key (bc_db s) with
  | (Ok st, db) => Some (into_option st, mkBlockChainDatabase (bc_best_block s) db)
  | (Err _, _) => None
  end.

(** [self.db.write(update).map_err(Error::DatabaseError)] *)
Definition db_write (update : Transaction) : DM T (result DbError unit) := λ s,
  let '(r, db) := kv_write update (bc_db s) in
  Some (map_err DatabaseError r, mkBlockChainDatabase (bc_best_block s) db).

(** src: db/src/block_chain_db.rs 413-416 block_hash *)
Definition block_hash (number : Z) : DM T (option H256) :=
  v ← db_get (KeyBlockHash number); mret (v ≫= as_block_hash).

(** src: db/src/block_chain_db.rs 408-411 block_number *)
Definition block_number (hash : H256) : DM T (option Z) :=
  v ← db_get (KeyBlockNumber hash); mret (v ≫= as_block_number).

(** src: db/src/block_chain_db.rs 378-383 resolve_hash *)
Definition resolve_hash (block_ref : BlockRef) : DM T (option H256) :=
  match block_ref with
  | RefNumber n => block_hash n
  | RefHash h => mret (Some h)
  end.

(** [resolve_hash(r).and_then(|h| ...)]: the stored block, with its hash. *)
Definition stored_block (block_ref : BlockRef) : DM T (option (H256 * Value)) :=
  h ← resolve_hash block_ref;
  match h with
  | None => mret None
  | Some h => v ← db_get (KeyBlock h); mret (pair h <$> v)
  end.

(** src: db/src/block_chain_db.rs 395-401 block_header *)
Definition db_block_header (block_ref : BlockRef) : DM T (option IndexedBlockHeader) :=
  v ← stored_block block_ref;
  mret ('(h, v) ← v; b ← as_block v; Some (mkIndexedBlockHeader h (block_header b))).

(** src: db/src/block_chain_db.rs 390-393 block_header_bytes *)
Definition db_block_header_bytes (block_ref : BlockRef) : DM T (option (list byte)) :=
  h ← db_block_header block_ref;
  mret ((λ h, serialize ser_block_header (ih_raw h)) <$> h).

(** src: db/src/block_chain_db.rs 418-429 block *)
Definition db_block (block_ref : BlockRef) : DM T (option IndexedBlock) :=
  v ← stored_block block_ref;
  mret ('(h, v) ← v; b ← as_block v;
        Some (mkIndexedBlock (mkIndexedBlockHeader h (block_header b)) (block_proof b))).

(** src: db/src/block_chain_db.rs 431-435 contains_block *)
Definition contains_block (block_ref : BlockRef) : DM T bool :=
  v ← stored_block block_ref; mret (bool_decide (is_Some v)).

(** src: db/src/block_chain_db.rs 137-139 best_block *)
Definition best_block : DM T BestBlock := get_best.

(** src: db/src/block_chain_db.rs 499-502 best_header *)
Definition best_header : DM T IndexedBlockHeader :=
  b ← best_block;
  h ← db_block_header (RefHash (bb_hash b));
  lift h.

(** src: db/src/block_chain_db.rs 223-243 insert *)
Definition db_insert (block : IndexedBlock) : DM T (result DbError unit) :=
  known ← contains_block (RefHash (ib_hash block));
  if known : bool then mret (Ok tt)
  else
    let parent_hash := previous_header_hash (ih_raw (ib_header block)) in
    parent ← contains_block (RefHash parent_hash);
    if negb parent && negb (is_zero parent_hash) then mret (Err UnknownParent)
    else
      let update := tx_insert transaction_new
        (KvBlock (ib_hash block) (mkBlock (ih_raw (ib_header block)) (ib_proof block))) in
      db_write update.

(** src: db/src/block_chain_db.rs 249-270 rollback_best *)
Definition rollback_best : DM T (result DbError H256) := panic.

(** src: db/src/block_chain_db.rs 275-328 canonize *)
Definition canonize (hash : H256) : DM T (result DbError unit) :=
  best_block ← get_best;
  block ← db_block (RefHash hash);
  match block with
  | None => mret (Err CannotCanonize)
  | Some block =>
      let previous := previous_header_hash (ih_raw (ib_header block)) in
      if negb (hash_eq (bb_hash best_block) previous) then mret (Err CannotCanonize)
      else
        number ← lift (if is_zero previous
                       then _ ← rust_assert (bb_number best_block =? 0); Some 0
                       else u32_add (bb_number best_block) 1);
        let new_best_block := mkBestBlock number hash in
        let update := tx_insert transaction_new (KvBlockHash (bb_number new_best_block) (bb_hash new_best_block)) in
        let update := tx_insert update (KvBlockNumber (bb_hash new_best_block) (bb_number new_best_block)) in
        let update := tx_insert update
          (KvMeta KEY_BEST_BLOCK_HASH (serialize (ser_hash 32) (bb_hash new_best_block))) in
        let update := tx_insert update
          (KvMeta KEY_BEST_BLOCK_NUMBER (serialize ser_u32 (bb_number new_best_block))) in
        try_bind (db_write update) (λ _,
          _ ← set_best new_best_block;
          mret (Ok tt))
  end.

(** src: db/src/block_chain_db.rs 330-369 decanonize *)
Definition decanonize : DM T (result DbError H256) :=
  best_block ← get_best;
  block ← db_block (RefHash (bb_hash best_block));
  match block with
  | None => mret (Err CannotDecanonize)
  | Some block =>
      let block_number := bb_number best_block in
      let block_hash := bb_hash best_block in
      let previous := previous_header_hash (ih_raw (ib_header block)) in
      number ← lift (if 0 <? bb_number best_block then Some (bb_number best_block - 1)
                     else _ ← rust_assert (is_zero previous); Some 0);
      let new_best_block := mkBestBlock number previous in
      let update := tx_delete transaction_new (KeyBlockHash block_number) in
      let update := tx_delete update (KeyBlockNumber block_hash) in
      let update := tx_insert update
        (KvMeta KEY_BEST_BLOCK_HASH (serialize (ser_hash 32) (bb_hash new_best_block))) in
      let update := tx_insert update
        (KvMeta KEY_BEST_BLOCK_NUMBER (serialize ser_u32 (bb_number new_best_block))) in
      try_bind (db_write update) (λ _,
        _ ← set_best new_best_block;
        mret (Ok block_hash))
  end.

(** [(first..last).filter_map(|n| self.block_hash(n))], [n] numbers from
    [first]. *)
Fixpoint collect_hashes (n : nat) (first : Z) : DM T (list H256) :=
  match n with
  | O => mret []
  | S n =>
      h ← block_hash first;
      hs ← collect_hashes n (first + 1);
      mret (match h with Some h => h :: hs | None => hs end)
  end.

(** The loop of [block_origin]: [fuel] rounds are left of
    [MAX_FORK_ROUTE_PRESET]. *)
Fixpoint origin_loop (fuel : nat) (best : BestBlock) (fork_len : Z) (route : list H256)
    (next_hash : H256) : DM T (result DbError BlockOrigin) :=
  match fuel with
  | O => mret (Err AncientFork)
  | S fuel =>
      number ← block_number next_hash;
      match number with
      | Some number =>
          block_number ← lift (n ← u32_add number fork_len; u32_add n 1);
          first ← lift (u32_add number 1);
          last ← lift (u32_add (bb_number best) 1);
          decanonized ← collect_hashes (Z.to_nat (last - first)) first;
          let origin := mkSideChainOrigin number (reverse route) decanonized block_number in
          if bb_number best <? block_number
          then mret (Ok (SideChainBecomingCanonChain origin))
          else mret (Ok (SideChain origin))
      | None =>
          header ← db_block_header (RefHash next_hash);
          header ← lift header;
          origin_loop fuel best (fork_len + 1) (route ++ [next_hash])
            (previous_header_hash (ih_raw header))
      end
  end.

(** src: db/src/block_chain_db.rs 166-221 block_origin *)
Definition block_origin (header : IndexedBlockHeader) : DM T (result DbError BlockOrigin) :=
  best ← get_best;
  canon ← block_hash (bb_number best);
  _ ← lift (rust_assert (bool_decide (Some (bb_hash best) = canon)));
  known ← contains_block (RefHash (ih_hash header));
  if known : bool then mret (Ok KnownBlock)
  else
    let previous := previous_header_hash (ih_raw header) in
    if hash_eq (bb_hash best) previous
    then n ← lift (u32_add (bb_number best) 1); mret (Ok (CanonChain n))
    else
      parent ← contains_block (RefHash previous);
      if negb parent then mret (Err UnknownParent)
      else origin_loop MAX_FORK_ROUTE_PRESET best 0 [] previous.

(** The loops of [fork], on the overlay. *)
Fixpoint decanonize_route (route : list H256) : DM T (result DbError unit) :=
  match route with
  | [] => mret (Ok tt)
  | hash :: route =>
      try_bind decanonize (λ decanonized_hash,
        _ ← lift (rust_assert (bool_decide (hash = decanonized_hash)));
        decanonize_route route)
  end.

Fixpoint canonize_route (route : list H256) : DM T (result DbError unit) :=
  match route with
  | [] => mret (Ok tt)
  | hash :: route => try_bind (canonize hash) (λ _, canonize_route route)
  end.
End generic.

(** src: db/src/block_chain_db.rs 32-37 ForkChainDatabase *)
Record ForkChainDatabase (T : Type) := mkForkChainDatabase {
  fork_blockchain : BlockChainDatabase (OverlayDatabase T);
}.

Context {T : Type} {K : KeyValueDatabase T}.

(** src: db/src/block_chain_db.rs 141-158 fork *)
Definition fork (s : BlockChainDatabase T) (side_chain : SideChainOrigin) :
    option (result DbError (ForkChainDatabase T)) :=
  overlay ← open (overlay_new (bc_db s));
  '(r, overlay) ← decanonize_route (reverse (decanonized_route side_chain)) overlay;
  match r with
  | Err e => Some (Err e)
  | Ok _ =>
      '(r, overlay) ← canonize_route (canonized_route side_chain) overlay;
      match r with
      | Err e => Some (Err e)
      | Ok _ => Some (Ok (mkForkChainDatabase T overlay))
      end
  end.

(** src: db/src/block_chain_db.rs 160-164 switch_to_fork *)
Definition switch_to_fork (s : BlockChainDatabase T) (f : ForkChainDatabase T) :
    result DbError unit * BlockChainDatabase T :=
  let fork := fork_blockchain T f in
  let '(r, overlay) := overlay_flush (bc_db fork) in
  (map_err DatabaseError r, mkBlockChainDatabase (bc_best_block fork) (ov_db overlay)).

(** src: db/src/block_chain_db.rs 78-87 init_test_chain *)
Definition init_test_chain (blocks : list IndexedBlock) : option (BlockChainDatabase MemoryDatabase) :=
  store ← open memory_default;
  foldl (λ store block,
    store ← store;
    '(r, store) ← db_insert block store;
    _ ← rust_assert (is_ok r);
    '(r, store) ← canonize (ib_hash block) store;
    _ ← rust_assert (is_ok r);
    Some store) (Some store) blocks.

(** src: db/src/block_chain_db.rs 94-101 open_with_cache *)
Definition open_with_cache {L : LruOps (KeyState Block)} (db : T) :
    option (BlockChainDatabase (CacheDatabase (AutoFlushingOverlayDatabase T))) :=
  open (cache_new (auto_flush_new db 50)).
End db.
