(* ===== verification/DiskDb.v ===== *)
(** * The database on disk ([db/src/kv/diskdb.rs])

    RocksDB is an interface: a directory that is opened, repaired, written in
    batches and read, with columns that are known by name.  [Database] keeps a
    handle for each column and translates the operations of the node. *)

From S2P Require Import Prelude External Primitives Serialization Compact Crypto Chain Kv KvRefine Storage BlockChainDb.
From Stdlib Require Import FunctionalExtensionality.
From stdpp Require Import gmap strings pretty.
#[local] Open Scope Z_scope.

(** ** RocksDB *)

(** An operation of a [WriteBatch]; [None] is the default column. *)
Inductive BatchOp :=
| BatchPut (cf : option string) (key value : list byte)
| BatchDelete (cf : option string) (key : list byte).

(** What [open] sets of [Options], for the database and for a column. *)
Record RocksOptions := mkRocksOptions {
  ro_rate_limit : option Z;
  ro_max_total_wal_size : option Z;
  ro_max_open_files : option Z;
  ro_create_if_missing : bool;
  ro_target_file_size_base : Z;
  ro_target_file_size_multiplier : Z;
  ro_block_cache : option Z;
}.

(** The directory of a database. *)
Class RocksDb (F : Type) := {
  rocks_open : RocksOptions → F → result string unit * F;
  rocks_open_cf : RocksOptions → list string → list RocksOptions → F → result string unit * F;
  rocks_create_cf : string → RocksOptions → F → result string unit * F;
  rocks_repair : RocksOptions → F → result string unit * F;
  rocks_write : bool → list BatchOp → F → result string unit * F;
  rocks_get : option string → list byte → F → result string (option (list byte));
}.

(** ** Configuration *)

(** src: db/src/kv/diskdb.rs 20-27 CompactionProfile *)
Record CompactionProfile := mkCompactionProfile {
  initial_file_size : Z;
  file_size_multiplier : Z;
  write_rate_limit : option Z;
}.

(** src: db/src/kv/diskdb.rs 38-44 ssd *)
Definition compaction_ssd : CompactionProfile := mkCompactionProfile (32 * 1024 * 1024) 2 None.

(** src: db/src/kv/diskdb.rs 47-53 hdd *)
Definition compaction_hdd : CompactionProfile := mkCompactionProfile (192 * 1024 * 1024) 1 (Some (8 * 1024 * 1024)).

(** src: db/src/kv/diskdb.rs 31-33 default *)
Definition compaction_default : CompactionProfile := compaction_ssd.

(** src: db/src/kv/diskdb.rs 58-69 DatabaseConfig *)
Record DatabaseConfig := mkDatabaseConfig {
  max_open_files : Z;
  cache_sizes : gmap (option Z) Z;
  compaction : CompactionProfile;
  columns : option Z;
  wal : bool;
}.

(** src: db/src/kv/diskdb.rs 87-95 default *)
Definition database_config_default : DatabaseConfig := mkDatabaseConfig 512 ∅ compaction_default None true.

(** src: db/src/kv/diskdb.rs 74-78 with_columns *)
Definition with_columns (columns : option Z) : DatabaseConfig :=
  mkDatabaseConfig (max_open_files database_config_default) (cache_sizes database_config_default)
    (compaction database_config_default) columns (wal database_config_default).

(** src: db/src/kv/diskdb.rs 81-83 set_cache *)
Definition set_cache (col : option Z) (size : Z) (c : DatabaseConfig) : DatabaseConfig :=
  mkDatabaseConfig (max_open_files c) (<[col := size]> (cache_sizes c)) (compaction c) (columns c) (wal c).

(** ** The database *)

(** src: db/src/kv/diskdb.rs 117-121 Database *)
Record Database (F : Type) := mkDatabase {
  dd_db : F;
  dd_cfs : list string;
  dd_wal : bool;
}.
Arguments mkDatabase {F}.
Arguments dd_db {F}.
Arguments dd_cfs {F}.
Arguments dd_wal {F}.

Definition column_name (c : nat) : string := "col" +:+ pretty c.

Definition DEFAULT_CACHE : Z := 2.

Section disk.
Context {F : Type} {RD : RocksDb F}.

(** src: db/src/kv/diskdb.rs 154-170 opts *)
Definition open_options (c : DatabaseConfig) : RocksOptions :=
  mkRocksOptions (write_rate_limit (compaction c)) (Some (64 * 1024 * 1024)) (Some (max_open_files c)) true
    (initial_file_size (compaction c)) (file_size_multiplier (compaction c)) None.

(** src: db/src/kv/diskdb.rs 173-176 cfnames *)
Definition cf_names (c : DatabaseConfig) : list string :=
  column_name <$> seq 0 (Z.to_nat (default 0 (columns c))).

(** src: db/src/kv/diskdb.rs 178-199 cf_options *)
Definition cf_options (c : DatabaseConfig) : list RocksOptions :=
  (λ col : nat,
     let col_opt := (λ _, Z.of_nat col) <$> columns c in
     let cache_size := default DEFAULT_CACHE (cache_sizes c !! col_opt) in
     mkRocksOptions None None None false (initial_file_size (compaction c)) (file_size_multiplier (compaction c))
       (Some (cache_size * 1024 * 1024)))
  <$> seq 0 (Z.to_nat (default 0 (columns c))).

Fixpoint create_cfs (names : list string) (options : list RocksOptions) (f : F) : result string (list string) * F :=
  match names, options with
  | name :: names, o :: options =>
      match rocks_create_cf name o f with
      | (Err e, f) => (Err e, f)
      | (Ok _, f) =>
          match create_cfs names options f with
          | (Err e, f) => (Err e, f)
          | (Ok cfs, f) => (Ok (name :: cfs), f)
          end
      end
  | _, _ => (Ok [], f)
  end.

(** The handles of the columns and the outcome of the first attempts; an error
    while columns are made is returned at once. *)
(** src: db/src/kv/diskdb.rs 208-240 db *)
Definition open_attempt (c : DatabaseConfig) (f : F) : result string (result string (list string)) * F :=
  match columns c with
  | Some _ =>
      match rocks_open_cf (open_options c) (cf_names c) (cf_options c) f with
      | (Ok _, f) => (Ok (Ok (cf_names c)), f)
      | (Err _, f) =>
          match rocks_open_cf (open_options c) [] [] f with
          | (Ok _, f) =>
              match create_cfs (cf_names c) (cf_options c) f with
              | (Ok cfs, f) => (Ok (Ok cfs), f)
              | (Err e, f) => (Err e, f)
              end
          | (Err e, f) => (Ok (Err e), f)
          end
      end
  | None =>
      match rocks_open (open_options c) f with
      | (Ok _, f) => (Ok (Ok []), f)
      | (Err e, f) => (Ok (Err e), f)
      end
  end.

Definition corruption (e : string) : bool := String.prefix "Corruption:" e.

(** After a repair the columns are opened and their handles are not kept. *)
(** src: db/src/kv/diskdb.rs 146-263 open *)
Definition disk_open (c : DatabaseConfig) (f : F) : result string (Database F) * F :=
  match open_attempt c f with
  | (Err e, f) => (Err e, f)
  | (Ok (Ok cfs), f) => (Ok (mkDatabase f cfs (wal c)), f)
  | (Ok (Err e), f) =>
      if corruption e
      then match rocks_repair (open_options c) f with
           | (Err e, f) => (Err e, f)
           | (Ok _, f) =>
               let '(r, f) := if decide (cf_names c = []) then rocks_open (open_options c) f
                              else rocks_open_cf (open_options c) (cf_names c) (cf_options c) f in
               match r with Err e => (Err e, f) | Ok _ => (Ok (mkDatabase f [] (wal c)), f) end
           end
      else (Err e, f)
  end.

(** src: db/src/kv/diskdb.rs 138-143 open_default *)
Definition disk_open_default (f : F) : result string (Database F) * F := disk_open database_config_default f.

(** [cfs[col as usize]]: [None] is a panic. *)
Definition column_of (d : Database F) (l : Location) : option (option string) :=
  match l with LocDB => Some None | LocColumn col => Some <$> dd_cfs d !! Z.to_nat col end.

Definition batch_op (d : Database F) (o : RawOperation) : option BatchOp :=
  match o with
  | RawInsert location key value => cf ← column_of d location; Some (BatchPut cf key value)
  | RawDelete location key => cf ← column_of d location; Some (BatchDelete cf key)
  end.

(** src: db/src/kv/diskdb.rs 266-286 write *)
Definition raw_write (tx : list RawOperation) (d : Database F) : option (result string unit * Database F) :=
  batch ← mapM (batch_op d) tx;
  let '(r, f) := rocks_write (dd_wal d) batch (dd_db d) in
  Some (r, mkDatabase f (dd_cfs d) (dd_wal d)).

(** src: db/src/kv/diskdb.rs 289-301 get *)
Definition raw_get (location : Location) (key : list byte) (d : Database F) : option (result string (option (list byte))) :=
  cf ← column_of d location; Some (rocks_get cf key (dd_db d)).

Context {V : VrfOps} {R : RugOps}.

(** src: db/src/kv/diskdb.rs 124-126 write *)
Definition disk_write (tx : Transaction) (d : Database F) : option (result string unit * Database F) :=
  raw_write (raw_transaction tx) d.

(** The text of an error of the reader is not looked at. *)
(** src: db/src/kv/diskdb.rs 128-133 get *)
Definition disk_get (key : Key) (d : Database F) : option (result string (KeyState Value)) :=
  let '(location, raw) := raw_key key in
  r ← raw_get location raw d;
  Some (match r with
        | Err e => Err e
        | Ok None => Ok StUnknown
        | Ok (Some bytes) => match value_for_key key bytes with Ok v => Ok (StInsert v) | Err _ => Err "reader"%string end
        end).
End disk.

(** ** What is relied on *)

Definition Contents := option string → list byte → option (list byte).

Definition batch_apply (c : Contents) (o : BatchOp) : Contents :=
  match o with
  | BatchPut cf key value => λ cf' key', if decide (cf' = cf ∧ key' = key) then Some value else c cf' key'
  | BatchDelete cf key => λ cf' key', if decide (cf' = cf ∧ key' = key) then None else c cf' key'
  end.

Definition batch_cf (o : BatchOp) : option string := match o with BatchPut cf _ _ | BatchDelete cf _ => cf end.

(** A directory that is in order and whose disk works: all its columns must be
    named when it is opened, a new column is empty, a batch is applied whole and
    in order, and what was written is there when the directory is opened
    again. *)
Class RocksLaws (F : Type) {RD : RocksDb F} := {
  rocks_sound : F → Prop;
  rocks_columns : F → list string;
  rocks_contents : F → Contents;
  rocks_open_cf_all o names os f : rocks_sound f → names ≡ₚ rocks_columns f →
    ∃ f', rocks_open_cf o names os f = (Ok tt, f') ∧ rocks_sound f' ∧ rocks_columns f' = rocks_columns f ∧ rocks_contents f' = rocks_contents f;
  rocks_open_cf_other o names os f : rocks_sound f → ¬ names ≡ₚ rocks_columns f →
    ∃ e f', rocks_open_cf o names os f = (Err e, f') ∧ corruption e = false ∧
      rocks_sound f' ∧ rocks_columns f' = rocks_columns f ∧ rocks_contents f' = rocks_contents f;
  rocks_create_cf_new name o f : rocks_sound f → name ∉ rocks_columns f →
    ∃ f', rocks_create_cf name o f = (Ok tt, f') ∧ rocks_sound f' ∧ rocks_columns f' = rocks_columns f ++ [name] ∧
      ∀ cf key, rocks_contents f' cf key = if decide (cf = Some name) then None else rocks_contents f cf key;
  rocks_write_batch wal batch f : rocks_sound f → Forall (λ o, ∀ name, batch_cf o = Some name → name ∈ rocks_columns f) batch →
    ∃ f', rocks_write wal batch f = (Ok tt, f') ∧ rocks_sound f' ∧ rocks_columns f' = rocks_columns f ∧
      rocks_contents f' = foldl batch_apply (rocks_contents f) batch;
  rocks_get_known cf key f : rocks_sound f → (∀ name, cf = Some name → name ∈ rocks_columns f) →
    rocks_get cf key f = Ok (rocks_contents f cf key);
}.

(** ** Opening *)

Section opening.
Context {F : Type} {RD : RocksDb F} {RL : RocksLaws F}.
Implicit Types (f : F) (d : Database F) (c : DatabaseConfig).

#[global] Instance column_name_inj : Inj (=) (=) column_name.
Proof. intros i j E. unfold column_name in E. apply (inj (String.app "col")) in E. by apply (inj pretty) in E. Qed.

Lemma cf_names_nodup c : NoDup (cf_names c).
Proof. apply NoDup_fmap_2; [apply _|apply NoDup_seq]. Qed.

Lemma create_cfs_new names options f : rocks_sound f → NoDup names → (∀ name, name ∈ names → name ∉ rocks_columns f) → length options = length names →
  ∃ f', create_cfs names options f = (Ok names, f') ∧ rocks_sound f' ∧ rocks_columns f' = rocks_columns f ++ names ∧
    ∀ cf key, rocks_contents f' cf key = if decide (cf ∈ Some <$> names) then None else rocks_contents f cf key.
Proof.
  revert options f. induction names as [|name names IH]; intros options f Hf Hnd Hnew Hlen.
  { destruct options; [|done]. exists f. split_and!; [done|done|by rewrite app_nil_r|]. intros cf key. rewrite decide_False; [done|]. apply not_elem_of_nil. }
  destruct options as [|o options]; [done|]. apply NoDup_cons in Hnd as [Hn Hnd]. cbn [create_cfs].
  destruct (rocks_create_cf_new name o f Hf) as (f1 & -> & Hf1 & Ec1 & Ev1); [apply Hnew; left|].
  destruct (IH options f1 Hf1 Hnd) as (f' & -> & Hf' & Ec & Ev).
  { intros x Hx. rewrite Ec1, elem_of_app, list_elem_of_singleton. intros [Ho| ->]; [|done]. by apply (Hnew x); [right|]. }
  { by injection Hlen. }
  exists f'. split_and!; [done|done|by rewrite Ec, Ec1, <-app_assoc|]. intros cf key. rewrite Ev, Ev1. cbn [fmap list_fmap].
  repeat case_decide; try done; exfalso; set_solver.
Qed.

(** The columns of the database are there and known by their numbers. *)
Definition opened c d : Prop :=
  dd_cfs d = cf_names c ∧ rocks_sound (dd_db d) ∧ cf_names c ≡ₚ rocks_columns (dd_db d).

(** Opening a database on disk: in a directory without columns they are
    made, empty, on the second attempt; a directory with the columns of the
    configuration is opened as it is, with what it holds; one with other
    columns is refused with an error and keeps what it holds. *)
Theorem disk_open_exact c n f : columns c = Some n → 0 < n → rocks_sound f →
  (rocks_columns f = [] → ∃ d f', disk_open c f = (Ok d, f') ∧ dd_db d = f' ∧ opened c d ∧
    ∀ name key, name ∈ cf_names c → rocks_contents f' (Some name) key = None) ∧
  (cf_names c ≡ₚ rocks_columns f → ∃ d f', disk_open c f = (Ok d, f') ∧ dd_db d = f' ∧ opened c d ∧ rocks_contents f' = rocks_contents f) ∧
  (rocks_columns f ≠ [] → ¬ cf_names c ≡ₚ rocks_columns f → ∃ e f', disk_open c f = (Err e, f') ∧
    rocks_columns f' = rocks_columns f ∧ rocks_contents f' = rocks_contents f).
Proof.
  intros Hn Hpos Hf. unfold disk_open, open_attempt. rewrite Hn. split_and!.
  - intros Hcols. destruct (rocks_open_cf_other (open_options c) (cf_names c) (cf_options c) f Hf) as (e & f1 & -> & _ & Hf1 & Ec1 & _).
    { rewrite Hcols. intros E%Permutation_nil_r. apply (f_equal length) in E. unfold cf_names in E. rewrite length_fmap, length_seq, Hn in E. cbn in E. lia. }
    destruct (rocks_open_cf_all (open_options c) [] [] f1 Hf1) as (f2 & -> & Hf2 & Ec2 & _); [by rewrite Ec1, Hcols|].
    rewrite Ec1, Hcols in Ec2.
    destruct (create_cfs_new (cf_names c) (cf_options c) f2 Hf2 (cf_names_nodup c)) as (f3 & -> & Hf3 & Ec3 & Ev3).
    { intros name _. rewrite Ec2. apply not_elem_of_nil. }
    { unfold cf_options, cf_names. by rewrite !length_fmap. }
    rewrite Ec2 in Ec3. eexists _, f3. split; [done|]. split; [done|]. split; [split_and!; [done|done|by cbn; rewrite Ec3]|].
    intros name key Hname. rewrite Ev3, decide_True; [done|]. apply list_elem_of_fmap. by exists name.
  - intros Hperm. destruct (rocks_open_cf_all (open_options c) (cf_names c) (cf_options c) f Hf Hperm) as (f1 & -> & Hf1 & Ec1 & Ev1).
    eexists _, f1. split; [done|]. split; [done|]. split; [split_and!; [done|done|by cbn; rewrite Ec1]|done].
  - intros Hne Hperm. destruct (rocks_open_cf_other (open_options c) (cf_names c) (cf_options c) f Hf Hperm) as (e & f1 & -> & _ & Hf1 & Ec1 & Ev1).
    destruct (rocks_open_cf_other (open_options c) [] [] f1 Hf1) as (e2 & f2 & -> & Hc2 & Hf2 & Ec2 & Ev2).
    { rewrite Ec1. intros E%Permutation_nil_l. by rewrite E in Hne. }
    rewrite Hc2. exists e2, f2. by rewrite Ec2, Ec1, Ev2, Ev1.
Qed.
End opening.

(** ** Reading and writing *)

Section refinement.
Context {F : Type} {RD : RocksDb F} {RL : RocksLaws F}.
Context {V : VrfOps} {R : RugOps} {RGL : RugLaws R} {VL : VrfLaws V}.
Implicit Types (f : F) (d : Database F) (c : DatabaseConfig) (v : View) (w : Contents).

Definition key_wf (k : Key) : Prop :=
  match k with
  | KeyMeta s | KeyConfiguration s => u64 (Z.of_nat (length (str_bytes s)))
  | KeyBlockHash n => u32 n
  | KeyBlock _ | KeyBlockNumber _ => True
  end.

Definition op_wf (o : Operation) : Prop := key_wf (op_key o) ∧ match o with OpInsert kv => kv_wf kv | OpDelete _ => True end.

Lemma serialize_inj {A} (s : Serializable A) de wf `{!Codec s de wf} a b : wf a → wf b → serialize s a = serialize s b → a = b.
Proof.
  intros Ha Hb E. assert (deserialize de (serialize s a) = Ok a) as Ea by (by apply deserialize_serialize with wf).
  rewrite E, (deserialize_serialize s de wf) in Ea by done. by injection Ea.
Qed.

Lemma str_bytes_inj s t : str_bytes s = str_bytes t → s = t.
Proof. intros E. rewrite <-(String.string_of_list_byte_of_string s), <-(String.string_of_list_byte_of_string t). by f_equal. Qed.

(** Different keys have different places. *)
Lemma raw_key_inj k k' : key_wf k → key_wf k' → raw_key k = raw_key k' → k = k'.
Proof.
  destruct k as [s|n|h|h|s], k' as [s'|n'|h'|h'|s']; cbn [raw_key key_wf]; intros Hk Hk' E;
    pose proof (f_equal fst E) as E1; apply (f_equal snd) in E; cbn [fst snd] in E, E1; try discriminate E1; f_equal.
  - by apply str_bytes_inj, (serialize_inj ser_bytes de_bytes (λ bs, u64 (Z.of_nat (length bs)))).
  - by apply (serialize_inj ser_u32 de_u32 u32).
  - by apply (serialize_inj (ser_hash 32) (de_hash 32) (λ _, True)).
  - by apply (serialize_inj (ser_hash 32) (de_hash 32) (λ _, True)).
  - by apply str_bytes_inj, (serialize_inj ser_bytes de_bytes (λ bs, u64 (Z.of_nat (length bs)))).
Qed.

(** The name of the column of a key. *)
Definition column_key (k : Key) : nat :=
  match k with KeyMeta _ => 0 | KeyBlockHash _ => 1 | KeyBlock _ => 2 | KeyBlockNumber _ => 3 | KeyConfiguration _ => 4 end%nat.

Definition place (k : Key) : option string * list byte := (Some (column_name (column_key k)), (raw_key k).2).

Lemma place_inj k k' : key_wf k → key_wf k' → place k = place k' → k = k'.
Proof.
  intros Hk Hk' E. apply raw_key_inj; [done|done|]. pose proof (f_equal fst E) as E1. apply (f_equal snd) in E.
  cbn [place fst snd] in E, E1. apply (inj Some), (inj column_name) in E1.
  destruct k, k'; try discriminate E1; cbn [raw_key snd] in E |- *; by rewrite E.
Qed.

(** What is at the place of a key is the encoding of what the view shows. *)
Definition encodes w v : Prop := ∀ k, key_wf k →
  match w (place k).1 (place k).2 with None => v k = None | Some bytes => ∃ x, v k = Some x ∧ value_for_key k bytes = Ok x end.

Definition placed (o : Operation) : BatchOp :=
  match o with
  | OpInsert kv => BatchPut (place (kv_key kv)).1 (place (kv_key kv)).2 (raw_key_value kv).2
  | OpDelete k => BatchDelete (place k).1 (place k).2
  end.

Lemma encodes_op w v o : encodes w v → op_wf o → encodes (batch_apply w (placed o)) (view_set v (op_key o) (op_value o)).
Proof.
  intros He [Hk Ho] k Hwf. unfold view_set.
  assert (((place k).1 = (place (op_key o)).1 ∧ (place k).2 = (place (op_key o)).2) ↔ k = op_key o) as Hiff.
  { split; [|by intros ->]. intros [E1 E2]. apply place_inj; [done|done|]. by apply injective_projections. }
  destruct o as [kv|k']; cbn [placed batch_apply op_key op_value] in *.
  - pose proof (raw_value_roundtrip kv Ho) as Hr. destruct (raw_key_value kv) as [[location key] value]. destruct Hr as [_ Hr].
    case_decide as E; [apply (proj1 Hiff) in E; subst k; rewrite decide_True by done; by exists (kv_value kv)|].
    rewrite decide_False by (intros Ek; by apply E, Hiff). by apply He.
  - case_decide as E; [apply (proj1 Hiff) in E; subst k; by rewrite decide_True|]. rewrite decide_False by (intros Ek; by apply E, Hiff). by apply He.
Qed.

Lemma encodes_ops w v ops : encodes w v → Forall op_wf ops → encodes (foldl batch_apply w (placed <$> ops)) (apply_ops v ops).
Proof.
  intros He Hops. revert w v He. induction Hops as [|o ops Ho Hops IH]; intros w v He; [done|]. cbn. apply IH. by apply encodes_op.
Qed.

(** A database that shows [v]. *)
Definition shows c d v : Prop := opened c d ∧ encodes (rocks_contents (dd_db d)) v.

Section columns.
Context (c : DatabaseConfig) (Hcols : columns c = Some COL_COUNT).

Lemma column_known d k : opened c d → column_of d (raw_key k).1 = Some (place k).1.
Proof.
  intros (E & _). assert (∀ i, (i < 10)%nat → dd_cfs d !! i = Some (column_name i)) as Hi.
  { intros i Hi. rewrite E. unfold cf_names. rewrite Hcols. change (Z.to_nat (default 0 (Some COL_COUNT))) with 10%nat. by rewrite list_lookup_fmap, lookup_seq_lt. }
  assert (column_key k < 10)%nat as Hk by (destruct k; cbn; lia). destruct k; exact (f_equal (fmap Some) (Hi _ Hk)).
Qed.

Lemma place_there d k name : opened c d → (place k).1 = Some name → name ∈ rocks_columns (dd_db d).
Proof.
  intros (_ & _ & Hp) [= <-]. rewrite <-Hp. unfold cf_names. rewrite Hcols. apply list_elem_of_fmap. eexists. split; [done|].
  change (Z.to_nat (default 0 (Some COL_COUNT))) with 10%nat. apply elem_of_seq. destruct k; cbn; lia.
Qed.

Lemma batch_placed d o : opened c d → op_wf o → batch_op d (raw_operation o) = Some (placed o).
Proof.
  intros Hd [_ Ho]. destruct o as [kv|k]; cbn [raw_operation placed].
  - pose proof (column_known d (kv_key kv) Hd) as Hc. pose proof (raw_value_roundtrip kv Ho) as Hr.
    destruct (raw_key_value kv) as [[location key] value]. destruct Hr as [Er _]. unfold place in *. rewrite Er in *. cbn in *. by rewrite Hc.
  - pose proof (column_known d k Hd) as Hc. unfold place in *. destruct (raw_key k) as [l key]. cbn in *. by rewrite Hc.
Qed.

(** A transaction reaches the directory whole. *)
Lemma disk_write_shows d v tx : shows c d v → Forall op_wf (operations tx) →
  ∃ d', disk_write tx d = Some (Ok tt, d') ∧ shows c d' (apply_ops v (operations tx)).
Proof.
  intros [Hd He] Hops. unfold disk_write, raw_write, raw_transaction.
  assert (mapM (batch_op d) (raw_operation <$> operations tx) = Some (placed <$> operations tx)) as ->.
  { apply mapM_Some. apply Forall2_fmap. apply Forall_Forall2_diag. eapply Forall_impl; [exact Hops|]. intros o Ho. by apply batch_placed. }
  cbn [mbind option_bind]. destruct (rocks_write_batch (dd_wal d) (placed <$> operations tx) (dd_db d)) as (f' & -> & Hf' & Ec & Ev).
  { apply Hd. }
  { apply Forall_fmap, Forall_true. intros o name E. eapply (place_there d (op_key o)); [done|]. by destruct o. }
  eexists. split; [done|]. split; [|cbn; rewrite Ev; by apply encodes_ops]. destruct Hd as (E1 & _ & E3).
  split_and!; [done|done|by cbn; rewrite Ec].
Qed.

Lemma disk_get_shows d v k : shows c d v → key_wf k → ∃ st, disk_get k d = Some (Ok st) ∧ into_option st = v k.
Proof.
  intros [Hd He] Hk. specialize (He k Hk). pose proof (column_known d k Hd) as Hc. unfold disk_get, raw_get.
  assert (rocks_get (place k).1 (place k).2 (dd_db d) = Ok (rocks_contents (dd_db d) (place k).1 (place k).2)) as Hg.
  { apply rocks_get_known; [apply Hd|]. intros name E. by eapply place_there. }
  unfold place in *. destruct (raw_key k) as [l key]. cbn in *. rewrite Hc. cbn [mbind option_bind]. rewrite Hg.
  destruct (rocks_contents _ _ _) as [bytes|]; [|by eexists]. destruct He as (x & -> & ->). by eexists.
Qed.
End columns.
End refinement.

(** ** The stack of the node *)

Section stack.
Context {F : Type} {RD : RocksDb F} {RL : RocksLaws F}.
Context {V : VrfOps} {R : RugOps} {RGL : RugLaws R} {VL : VrfLaws V}.
Context {L : LruOps (KeyState Block)} {LL : LruLaws (KeyState Block) L}.
Implicit Types (d : Database F) (v : View) (mem : MemoryDatabase).

(** The interface of the node has no panics: a column that is not there, which
    a database that was opened with its columns does not have, is shown as an
    error. *)
#[global] Instance disk_kv : KeyValueDatabase (Database F) := {|
  kv_write tx d := default (Err "index out of bounds"%string, d) (disk_write tx d);
  kv_get k d := (default (Err "index out of bounds"%string) (disk_get k d), d);
|}.

(** What an overlay holds can be written. *)
Definition mem_wf mem : Prop := ∀ o, memory_state mem (op_key o) = op_state o → op_wf o.

Lemma op_ext o o' : op_key o = op_key o' → op_state o = op_state o' → o = o'.
Proof. destruct o as [[]|[]], o' as [[]|[]]; cbn; congruence. Qed.

Lemma mem_wf_default : mem_wf memory_default.
Proof. intros o E. exfalso. destruct o as [[]|[]]; discriminate E. Qed.

Lemma mem_wf_write mem ops : mem_wf mem → Forall op_wf ops → mem_wf (foldl memory_apply mem ops).
Proof.
  intros Hm Hops. revert mem Hm. induction Hops as [|o ops Ho Hops IH]; intros mem Hm; [done|]. cbn. apply IH.
  intros o' E. rewrite memory_state_apply in E. case_decide as Hk; [|by apply Hm]. by rewrite (op_ext o' o).
Qed.

Lemma mem_wf_drained mem : mem_wf mem → Forall op_wf (operations (fst (drain_transaction mem))).
Proof. intros Hm. apply Forall_forall. intros o Ho. by apply Hm, drain_elem. Qed.

Context (c : DatabaseConfig) (Hcols : columns c = Some COL_COUNT).

Lemma disk_writes d v tx : shows c d v → Forall op_wf (operations tx) →
  ∃ d', kv_write tx d = (Ok tt, d') ∧ shows c d' (apply_ops v (operations tx)).
Proof. intros Hd Ho. destruct (disk_write_shows c Hcols d v tx Hd Ho) as (d' & E & Hd'). exists d'. cbn. by rewrite E. Qed.

Definition overlay_shows (a : AutoFlushingOverlayDatabase (Database F)) v : Prop :=
  ∃ v0, shows c (af_db a) v0 ∧ mem_wf (af_overlay a) ∧ v = layer_view (af_overlay a) v0.

Lemma overlay_flushes a v : overlay_shows a v → ∃ a', auto_flush_flush a = (Ok tt, a') ∧ shows c (af_db a') v ∧
  af_overlay a' = memory_default ∧ af_operations a' = af_operations a ∧ af_max_operations a' = af_max_operations a.
Proof.
  destruct a as [d mem n mx]. intros (v0 & Hd & Hm & ->). cbn in Hd, Hm. unfold auto_flush_flush.
  destruct (disk_writes d v0 (fst (drain_transaction mem)) Hd (mem_wf_drained mem Hm)) as (d' & E & Hd').
  rewrite (drain_apply mem) in Hd' by done. unfold drain_transaction in E |- *. cbn [fst af_overlay af_db] in E |- *. rewrite E. by eexists.
Qed.

Lemma overlay_writes a v tx : overlay_shows a v → Forall op_wf (operations tx) →
  ∃ a', kv_write tx a = (Ok tt, a') ∧ overlay_shows a' (apply_ops v (operations tx)).
Proof.
  destruct a as [d mem n mx]. intros (v0 & Hd & Hm & ->) Ho. unfold kv_write, auto_flush_kv, auto_flush_write. cbn [af_overlay af_db af_operations af_max_operations].
  change (kv_write tx mem) with (Ok tt : result string unit, foldl memory_apply mem (operations tx)). cbv iota beta.
  set (mem' := foldl memory_apply mem (operations tx)). assert (mem_wf mem') as Hm' by (by apply mem_wf_write).
  assert (overlay_shows (mkAutoFlush d mem' (n + 1) mx) (apply_ops (layer_view mem v0) (operations tx))) as Hs.
  { exists v0. split; [done|]. split; [done|]. by rewrite <-layer_view_write. }
  cbn [af_max_operations]. destruct (n + 1 =? mx); [|by eexists].
  destruct (overlay_flushes _ _ Hs) as (a' & -> & Hd' & Eo & _). eexists. split; [done|].
  exists (apply_ops (layer_view mem v0) (operations tx)). cbn. rewrite Eo. split; [done|]. split; [apply mem_wf_default|]. by rewrite layer_view_default.
Qed.

Lemma overlay_reads a v k : overlay_shows a v → key_wf k → ∃ st a', kv_get k a = (Ok st, a') ∧ into_option st = v k ∧ overlay_shows a' v.
Proof.
  destruct a as [d mem n mx]. intros (v0 & Hd & Hm & ->) Hk. unfold kv_get, auto_flush_kv, auto_flush_get. cbn [af_overlay af_db af_operations af_max_operations].
  change (kv_get k mem) with (Ok (memory_state mem k) : result string (KeyState Value), mem). cbv iota beta. unfold layer_view at 1.
  destruct (memory_state mem k) as [x| |] eqn:E; [eexists _, _; split; [done|]; split; [done|]; by exists v0..|].
  destruct (disk_get_shows c Hcols d v0 k Hd Hk) as (st & Eg & Hst). cbn. rewrite Eg. eexists _, _. split; [done|]. split; [done|]. by exists v0.
Qed.

Abbreviation Stack := (CacheDatabase (AutoFlushingOverlayDatabase (Database F))).

Definition stack_shows (x : Stack) v : Prop := overlay_shows (ca_db x) v ∧ cache_coherent v (ca_block x).

Lemma stack_writes x v tx : stack_shows x v → Forall op_wf (operations tx) →
  ∃ x', kv_write tx x = (Ok tt, x') ∧ stack_shows x' (apply_ops v (operations tx)).
Proof.
  destruct x as [a l]. intros [Ha Hl] Ho. unfold kv_write, cache_kv, cache_write. cbn [ca_db ca_block].
  destruct (overlay_writes a v tx Ha Ho) as (a' & E & Ha'). rewrite E. eexists. split; [done|]. split; [done|]. by apply cache_ops_coherent.
Qed.

Lemma stack_reads x v k : stack_shows x v → key_wf k → ∃ st x', kv_get k x = (Ok st, x') ∧ into_option st = v k ∧ stack_shows x' v.
Proof.
  destruct x as [a l]. intros [Ha Hl] Hk. cbn in Ha, Hl. unfold kv_get, cache_kv, cache_get. cbn [ca_db ca_block].
  destruct (overlay_reads a v k Ha Hk) as (st & a' & E & Hst & Ha'). 
  assert (∀ h, cache_coherent v (snd (lru_get_mut h l))) as Hl'.
  { intros h h' st' Hh'. rewrite lru_get_mut_keeps in Hh'. by apply Hl. }
  destruct k as [k|k|k|k|k].
  3: { pose proof (lru_get_mut_view k l) as Hv. specialize (Hl' k). destruct (lru_get_mut k l) as [[st'|] l'] eqn:El; simpl in *.
       - eexists _, _. split; [reflexivity|]. split; [by apply Hl|done].
       - rewrite E. eexists _, _. split; [reflexivity|]. done. }
  all: rewrite E; eexists _, _; split; [reflexivity|]; done.
Qed.

Definition step_wf (s : KvStep) : Prop := match s with StepWrite tx => Forall op_wf (operations tx) | StepGet k => key_wf k end.

Lemma stack_runs steps x v : stack_shows x v → Forall step_wf steps →
  ∃ x', kv_run steps x = (fst (view_run steps v), x') ∧ stack_shows x' (snd (view_run steps v)).
Proof.
  intros Hx Hs. revert x v Hx. induction Hs as [|[tx|k] steps Hw Hs IH]; intros x v Hx; cbn [kv_run view_run]; [by exists x| |].
  - destruct (stack_writes x v tx Hx Hw) as (x1 & -> & Hx1). by apply IH.
  - destruct (stack_reads x v k Hx Hw) as (st & x1 & -> & Hst & Hx1). destruct (IH x1 v Hx1) as (x' & -> & Hx').
    exists x'. destruct (view_run steps v). cbn in *. by rewrite Hst.
Qed.
End stack.

(** ** The database of the node *)

(** src: db/src/block_chain_db.rs 58-68 cfg *)
Definition path_config (total_cache : Z) : DatabaseConfig :=
  set_cache (Some COL_BLOCK_NUMBERS) (total_cache / 12)
    (set_cache (Some COL_BLOCK_HASHES) (total_cache / 12)
      (set_cache (Some COL_BLOCKS) (total_cache / 4) (with_columns (Some COL_COUNT)))).

Section at_path.
Context {F : Type} {RD : RocksDb F}.
Context {V : VrfOps} {R : RugOps} {P : Profile} {L : LruOps (KeyState Block)}.

(** The directory is there; [None] is a panic of [open_with_cache]. *)
(** src: db/src/block_chain_db.rs 53-74 open_at_path *)
Definition open_at_path (total_cache : Z) (f : F) :
    option (result DbError (BlockChainDatabase (CacheDatabase (AutoFlushingOverlayDatabase (Database F))))) :=
  match disk_open (path_config total_cache) f with
  | (Ok db, _) => Ok <$> open_with_cache db
  | (Err err, _) => Some (Err (DatabaseError err))
  end.
End at_path.

Section restart.
Context {F : Type} {RD : RocksDb F} {RL : RocksLaws F}.
Context {V : VrfOps} {R : RugOps} {RGL : RugLaws R} {VL : VrfLaws V} {P : Profile}.
Context {L : LruOps (KeyState Block)} {LL : LruLaws (KeyState Block) L}.

Lemma view_run_app steps more v : view_run (steps ++ more) v =
  (fst (view_run steps v) ++ fst (view_run more (snd (view_run steps v))), snd (view_run more (snd (view_run steps v)))).
Proof.
  revert v. induction steps as [|[tx|k] steps IH]; intros v; cbn [app view_run fst snd]; [by destruct (view_run more v)|apply IH|].
  rewrite IH. by destruct (view_run steps v).
Qed.

Lemma memory_runs steps : fst (kv_run steps memory_default) = fst (view_run steps (λ _, None)).
Proof.
  destruct (kv_run_spec (KS:=memory_spec) steps memory_default I) as (m & -> & _). cbn.
  assert (kv_view (KvSpec:=memory_spec) memory_default = λ _, None) as E by (apply functional_extensionality; by intros []). by rewrite <-E.
Qed.

Lemma new_stack_shows c d v : shows c d v → stack_shows c (cache_new (auto_flush_new d 50)) v.
Proof.
  intros Hd. split.
  - exists v. split; [done|]. split; [apply mem_wf_default|]. symmetry. apply layer_view_default.
  - intros h st. cbn. by rewrite lru_view_new.
Qed.

Lemma empty_shows c d : columns c = Some COL_COUNT → opened c d → (∀ name key, name ∈ cf_names c → rocks_contents (dd_db d) (Some name) key = None) →
  shows c d (λ _, None).
Proof.
  intros Hc Hd Hnone. split; [done|]. intros k Hk. cbn [place fst]. rewrite Hnone; [done|].
  unfold cf_names. rewrite Hc. apply list_elem_of_fmap. eexists. split; [done|].
  change (Z.to_nat (default 0 (Some COL_COUNT))) with 10%nat. apply elem_of_seq. destruct k; cbn; lia.
Qed.

(** C10: the database survives a restart.  A node opens a database in an empty
    directory, writes and reads through its cache and overlay, ends, so that the
    overlay is flushed, and is started again on the same directory.  As long as
    the disk works, every read before and after gets the answer that a database
    in memory which never stopped would give: the columns are found by their
    names, the raw keys of different keys are different, and what was encoded
    is decoded to the same value. *)
Theorem database_survives_restart total_cache steps more (f : F) : rocks_sound f → rocks_columns f = [] →
  Forall step_wf steps → Forall step_wf more →
  let c := path_config total_cache in
  ∃ d f1 answers x d' d'' f2, disk_open c f = (Ok d, f1) ∧
    kv_run steps (cache_new (auto_flush_new d 50)) = (answers, x) ∧ auto_flush_drop (ca_db x) = Some d' ∧
    disk_open c (dd_db d') = (Ok d'', f2) ∧
    answers ++ fst (kv_run more (cache_new (auto_flush_new d'' 50))) = fst (kv_run (steps ++ more) memory_default).
Proof.
  intros Hf Hempty Hsteps Hmore c. assert (columns c = Some COL_COUNT) as Hc by done.
  destruct (disk_open_exact c COL_COUNT f Hc ltac:(done) Hf) as (Hnew & _). destruct (Hnew Hempty) as (d & f1 & Ed & <- & Hd & Hnone).
  pose proof (empty_shows c d Hc Hd Hnone) as Hs.
  destruct (stack_runs c Hc steps _ _ (new_stack_shows c d _ Hs) Hsteps) as (x & Ex & [Hx _]).
  destruct (overlay_flushes c Hc _ _ Hx) as (a' & Ea & Hshow & _).
  destruct (disk_open_exact c COL_COUNT (dd_db (af_db a')) Hc ltac:(done) (proj1 (proj2 (proj1 Hshow)))) as (_ & Hagain & _).
  destruct (Hagain (proj2 (proj2 (proj1 Hshow)))) as (d'' & f2 & Ed2 & <- & Hd2 & Hcont).
  assert (shows c d'' (snd (view_run steps (λ _, None)))) as Hs2 by (split; [done|]; rewrite Hcont; apply Hshow).
  destruct (stack_runs c Hc more _ _ (new_stack_shows c d'' _ Hs2) Hmore) as (x2 & Ex2 & _).
  exists d, (dd_db d), (fst (view_run steps (λ _, None))), x, (af_db a'), d'', (dd_db d''). split_and!; [exact Ed|exact Ex| |exact Ed2|].
  - unfold auto_flush_drop. by rewrite Ea.
  - by rewrite Ex2, memory_runs, view_run_app.
Qed.
End restart.

(** ** After a repair *)

Section repaired.
Context {F : Type} {RD : RocksDb F} {V : VrfOps} {R : RugOps}.

(** C11: a database that was repaired cannot be used.  When a directory is
    corrupt, and its repair and its opening after it succeed, [open] succeeds
    with a database that has no handles of columns, although the columns were
    opened: every read and every write that is not empty then panics. *)
Theorem repaired_database_panics c n (f : F) e f1 f2 f3 : columns c = Some n → 0 < n →
  open_attempt c f = (Ok (Err e), f1) → corruption e = true →
  rocks_repair (open_options c) f1 = (Ok tt, f2) → rocks_open_cf (open_options c) (cf_names c) (cf_options c) f2 = (Ok tt, f3) →
  ∃ d, disk_open c f = (Ok d, f3) ∧ dd_db d = f3 ∧ (∀ k, disk_get k d = None) ∧
    ∀ tx, operations tx ≠ [] → disk_write tx d = None.
Proof.
  intros Hn Hpos Ea He Er Eo. unfold disk_open. rewrite Ea, He, Er. rewrite decide_False.
  2: { intros E. apply (f_equal length) in E. unfold cf_names in E. rewrite length_fmap, length_seq, Hn in E. cbn in E. lia. }
  rewrite Eo. eexists. split; [done|]. split; [done|]. split; [by intros []|].
  intros [ops] Hops. unfold disk_write, raw_write, raw_transaction. cbn [operations] in *. destruct ops as [|o ops]; [done|].
  by destruct o as [[]|[]].
Qed.
End repaired.

(** ** A directory in memory *)

Section disk_example.
Import Reference.
#[local] Existing Instances map_lru map_lru_laws.
#[local] Instance disk_checked : Profile := true.

(** Its columns, what they hold, and whether it is corrupt. *)
Record Files := mkFiles { fl_columns : list string; fl_contents : Contents; fl_corrupt : bool }.

#[local] Instance files_rocks : RocksDb Files := {|
  rocks_open o f := if fl_corrupt f then (Err "Corruption: bad block"%string, f) else if decide (fl_columns f = []) then (Ok tt, f) else (Err "columns"%string, f);
  rocks_open_cf o names os f :=
    if fl_corrupt f then (Err "Corruption: bad block"%string, f) else if decide (names ≡ₚ fl_columns f) then (Ok tt, f) else (Err "columns"%string, f);
  rocks_create_cf name o f :=
    (Ok tt, mkFiles (fl_columns f ++ [name]) (λ cf key, if decide (cf = Some name) then None else fl_contents f cf key) (fl_corrupt f));
  rocks_repair o f := (Ok tt, mkFiles (fl_columns f) (fl_contents f) false);
  rocks_write wal batch f := (Ok tt, mkFiles (fl_columns f) (foldl batch_apply (fl_contents f) batch) (fl_corrupt f));
  rocks_get cf key f := Ok (fl_contents f cf key);
|}.

#[local] Program Instance files_laws : RocksLaws Files :=
  {| rocks_sound f := fl_corrupt f = false; rocks_columns := fl_columns; rocks_contents := fl_contents |}.
Next Obligation. intros o names os f Hf Hp. cbn. rewrite Hf, decide_True by done. by exists f. Qed.
Next Obligation. intros o names os f Hf Hp. cbn. rewrite Hf, decide_False by done. by eexists _, f. Qed.
Next Obligation. intros name o f Hf Hn. by eexists. Qed.
Next Obligation. intros wal batch f Hf Hb. by eexists. Qed.
Next Obligation. done. Qed.

Definition ex_directory : Files := mkFiles [] (λ _ _, None) false.

Definition ex_steps : list KvStep :=
  [StepWrite (tx_insert (tx_insert transaction_new (KvBlockHash 7 (hash_from_u8 3))) (KvBlock (hash_from_u8 3) example_block));
   StepGet (KeyBlockHash 7)].

Lemma ex_steps_wf : Forall step_wf ex_steps.
Proof.
  unfold ex_steps. apply Forall_cons. split; [|apply Forall_cons; split; [cbn; unfold fits; lia|by apply Forall_nil]].
  cbn. apply Forall_cons. split; [split; cbn; unfold fits; lia|]. apply Forall_cons. split; [|by apply Forall_nil]. split; [done|exact example_block_wf].
Qed.

(** A block that was written is read after a restart. *)
Lemma database_survives_restart_witness : ∃ d f1 answers x d' d'' f2,
  disk_open (path_config 512) ex_directory = (Ok d, f1) ∧ kv_run ex_steps (cache_new (auto_flush_new d 50)) = (answers, x) ∧
  auto_flush_drop (ca_db x) = Some d' ∧ disk_open (path_config 512) (dd_db d') = (Ok d'', f2) ∧
  answers ++ fst (kv_run [StepGet (KeyBlock (hash_from_u8 3))] (cache_new (auto_flush_new d'' 50))) =
    fst (kv_run (ex_steps ++ [StepGet (KeyBlock (hash_from_u8 3))]) memory_default).
Proof.
  exact (database_survives_restart 512 ex_steps [StepGet (KeyBlock (hash_from_u8 3))] ex_directory eq_refl eq_refl ex_steps_wf
    (Forall_cons_2 _ (StepGet (KeyBlock (hash_from_u8 3))) [] I (Forall_nil_2 _))).
Defined.

Definition ex_damaged : Files := mkFiles (cf_names (path_config 512)) (λ _ _, None) true.

Lemma repaired_database_panics_witness : ∃ d f3, disk_open (path_config 512) ex_damaged = (Ok d, f3) ∧ disk_get (KeyBlockHash 0) d = None.
Proof.
  destruct (repaired_database_panics (path_config 512) COL_COUNT ex_damaged "Corruption: bad block"%string ex_damaged
    (mkFiles (cf_names (path_config 512)) (λ _ _, None) false) (mkFiles (cf_names (path_config 512)) (λ _ _, None) false)) as (d & E & _ & Hg & _);
    [reflexivity|reflexivity|reflexivity|reflexivity|reflexivity|cbn; rewrite decide_True by reflexivity; reflexivity|].
  eexists d, _. split; [exact E|apply Hg].
Defined.
End disk_example.
