(* ===== verification/ChainInv.v ===== *)
(** * The canonical chain invariant

    The database holds a chain: a list of hashes, oldest first, that the
    number and hash columns index both ways, whose blocks are stored and linked
    by their parent hashes down to a block with the zero parent, and whose last
    element is the best block, in memory and in the meta entries.  Every
    operation of [BlockChainDb] is specified by its effect on that list, over
    any database that meets [KvSpec]. *)

From Stdlib Require Import FunctionalExtensionality.
From S2P Require Import Prelude External Primitives Serialization Compact Crypto Chain.
From S2P Require Import Storage Network Kv KvRefine BlockChainDb.

Section chain_inv.
Context {V : VrfOps} {R : RugOps} {P : Profile}.

(** ** Views of the columns *)

Definition v_hash (v : View) (n : Z) : option H256 := v (KeyBlockHash n) ≫= as_block_hash.
Definition v_number (v : View) (h : H256) : option Z := v (KeyBlockNumber h) ≫= as_block_number.
Definition v_block (v : View) (h : H256) : option Block := v (KeyBlock h) ≫= as_block.
Definition v_meta (v : View) (k : string) : option (list byte) := v (KeyMeta k) ≫= as_meta.
Definition v_resolve (v : View) (r : BlockRef) : option H256 :=
  match r with RefNumber n => v_hash v n | RefHash h => Some h end.

Definition best_of (hs : list H256) : BestBlock :=
  match list.last hs with
  | None => best_block_default
  | Some h => mkBestBlock (Z.of_nat (length hs) - 1) h
  end.

Definition parent_in (hs : list H256) (i : nat) : H256 :=
  match i with O => hash_default | S j => default hash_default (hs !! j) end.

Definition parent_of (b : Block) : H256 := previous_header_hash (block_header b).

Record chain_inv (v : View) (best : BestBlock) (hs : list H256) : Prop := {
  ci_best : best = best_of hs;
  ci_hash n : v_hash v n = if 0 <=? n then hs !! Z.to_nat n else None;
  ci_number h n : v_number v h = Some n ↔ 0 ≤ n ∧ hs !! Z.to_nat n = Some h;
  ci_link i h : hs !! i = Some h → ∃ b, v_block v h = Some b ∧ parent_of b = parent_in hs i;
  ci_nonzero : v (KeyBlock hash_default) = None;
  ci_typed h x : v (KeyBlock h) = Some x → is_Some (as_block x);
  ci_meta : ∃ o, decode_best (v_meta v KEY_BEST_BLOCK_NUMBER) (v_meta v KEY_BEST_BLOCK_HASH) = Some o ∧
    default best_block_default o = best;
  ci_len : Z.of_nat (length hs) ≤ 2 ^ 32;
}.

(** ** Facts about the chain *)

Lemma ci_hash_nat v best hs i : chain_inv v best hs → v_hash v (Z.of_nat i) = hs !! i.
Proof. intros Hi. rewrite (ci_hash _ _ _ Hi), (proj2 (Z.leb_le _ _)) by lia. by rewrite Nat2Z.id. Qed.

Lemma ci_number_nat v best hs h i : chain_inv v best hs → hs !! i = Some h → v_number v h = Some (Z.of_nat i).
Proof. intros Hi Hh. apply (ci_number _ _ _ Hi). rewrite Nat2Z.id. split; [lia|done]. Qed.

Lemma ci_member_nonzero v best hs i h : chain_inv v best hs → hs !! i = Some h → h ≠ hash_default.
Proof.
  intros Hi Hh ->. destruct (ci_link _ _ _ Hi _ _ Hh) as (b & Hb & _).
  unfold v_block in Hb. by rewrite (ci_nonzero _ _ _ Hi) in Hb.
Qed.

Lemma ci_nodup v best hs i j h : chain_inv v best hs → hs !! i = Some h → hs !! j = Some h → i = j.
Proof.
  intros Hi H1 H2. apply (ci_number_nat _ _ _ _ _ Hi) in H1. apply (ci_number_nat _ _ _ _ _ Hi) in H2.
  rewrite H1 in H2. injection H2 as H2. lia.
Qed.

Lemma ci_not_member v best hs h : chain_inv v best hs → v_number v h = None ↔ h ∉ hs.
Proof.
  intros Hi. split.
  - intros Hn Hin. apply list_elem_of_lookup in Hin as [i Hin].
    by rewrite (ci_number_nat _ _ _ _ _ Hi Hin) in Hn.
  - intros Hn. destruct (v_number v h) as [n|] eqn:E; [|done].
    apply (ci_number _ _ _ Hi) in E as [_ E]. apply list_elem_of_lookup_2 in E. done.
Qed.

Lemma best_of_nil : best_of [] = best_block_default.
Proof. done. Qed.

Lemma best_of_snoc hs h : best_of (hs ++ [h]) = mkBestBlock (Z.of_nat (length hs)) h.
Proof. unfold best_of. rewrite last_snoc, length_app. simpl. f_equal. lia. Qed.

(** The best hash is zero exactly when the chain is empty. *)
Lemma ci_best_zero v best hs : chain_inv v best hs → bb_hash best = hash_default ↔ hs = [].
Proof.
  intros Hi. rewrite (ci_best _ _ _ Hi). split; [|by intros ->].
  destruct hs as [|h hs _] using rev_ind; [done|]. rewrite best_of_snoc. simpl. intros ->.
  exfalso. by apply (ci_member_nonzero v best _ (length hs) hash_default Hi);
    [rewrite lookup_app_r, Nat.sub_diag|].
Qed.

(** ** Reading computations *)

Section generic.
Context {T : Type} {K : KeyValueDatabase T} {KS : KvSpec T}.

Definition db_valid (s : BlockChainDatabase T) : Prop := kv_valid (bc_db s).
Definition db_view (s : BlockChainDatabase T) : View := kv_view (bc_db s).

(** Nothing a client can see has changed. *)
Definition unchanged (s s' : BlockChainDatabase T) : Prop :=
  db_valid s' ∧ bc_best_block s' = bc_best_block s ∧ db_view s' = db_view s.

Lemma unchanged_trans s1 s2 s3 : unchanged s1 s2 → unchanged s2 s3 → unchanged s1 s3.
Proof. intros (? & E1 & E2) (? & E3 & E4). split; [done|]. by rewrite E3, E4. Qed.

(** [m] computes [f] of the view and the best block and changes neither; it
    panics where [f] is undefined. *)
Definition reads {A} (m : DM T A) (f : View → BestBlock → option A) : Prop :=
  ∀ s, db_valid s →
    match f (db_view s) (bc_best_block s) with
    | Some a => ∃ s', m s = Some (a, s') ∧ unchanged s s'
    | None => m s = None
    end.

Lemma reads_ret {A} (a : A) : reads (mret a) (λ _ _, Some a).
Proof. intros s Hs. by exists s. Qed.

Lemma reads_lift {A} (o : option A) : reads (lift o) (λ _ _, o).
Proof. intros s Hs. unfold lift. destruct o; simpl; [by exists s|done]. Qed.

Lemma reads_get_best : reads get_best (λ _ b, Some b).
Proof. intros s Hs. by exists s. Qed.

Lemma reads_bind {A B} (m : DM T A) (k : A → DM T B) f g :
  reads m f → (∀ a, reads (k a) (g a)) → reads (m ≫= k) (λ v b, a ← f v b; g a v b).
Proof.
  intros Hm Hk s Hs. specialize (Hm s Hs).
  change ((m ≫= k) s) with (match m s with Some (a, s') => k a s' | None => None end).
  destruct (f (db_view s) (bc_best_block s)) as [a|]; simpl; [|by rewrite Hm].
  destruct Hm as (s1 & -> & Hs1). specialize (Hk a s1 (proj1 Hs1)).
  pose proof Hs1 as (_ & Eb & Ev). rewrite Eb, Ev in Hk.
  destruct (g a _ _) as [b|]; [|done]. destruct Hk as (s2 & -> & Hs2).
  exists s2. split; [done|]. by eapply unchanged_trans.
Qed.

Lemma reads_ext {A} (m : DM T A) f g : reads m f → (∀ v b, f v b = g v b) → reads m g.
Proof. intros Hm E s Hs. rewrite <-E. by apply Hm. Qed.

Lemma reads_db_get k : reads (db_get k) (λ v _, Some (v k)).
Proof.
  intros s Hs. unfold db_get, db_view.
  destruct (kv_get_spec k (bc_db s) Hs) as (st & t' & -> & <- & Hv & E).
  eexists. split; [reflexivity|]. by split_and!.
Qed.

Lemma reads_block_hash n : reads (block_hash n) (λ v _, Some (v_hash v n)).
Proof. eapply reads_ext; [eapply reads_bind; [apply reads_db_get|intros; apply reads_ret]|done]. Qed.

Lemma reads_block_number h : reads (block_number h) (λ v _, Some (v_number v h)).
Proof. eapply reads_ext; [eapply reads_bind; [apply reads_db_get|intros; apply reads_ret]|done]. Qed.

Lemma reads_resolve_hash r : reads (resolve_hash r) (λ v _, Some (v_resolve v r)).
Proof. destruct r as [n|h]; [apply reads_block_hash|exact (reads_ret (Some h))]. Qed.

Definition v_stored (v : View) (r : BlockRef) : option (H256 * Value) :=
  h ← v_resolve v r; x ← v (KeyBlock h); Some (h, x).

Lemma reads_stored_block r : reads (stored_block r) (λ v _, Some (v_stored v r)).
Proof.
  eapply reads_ext.
  - unfold stored_block. eapply reads_bind; [apply reads_resolve_hash|].
    intros o. instantiate (1 := λ o v _, Some (h ← o; x ← v (KeyBlock h); Some (h, x))).
    destruct o as [h|]; [|exact (reads_ret None)].
    eapply reads_ext; [eapply reads_bind; [apply reads_db_get|intros; apply reads_ret]|].
    intros v b. simpl. by destruct (v (KeyBlock h)).
  - intros v b. done.
Qed.

Definition v_header (v : View) (r : BlockRef) : option IndexedBlockHeader :=
  '(h, x) ← v_stored v r; b ← as_block x; Some (mkIndexedBlockHeader h (block_header b)).

Lemma reads_db_block_header r : reads (db_block_header r) (λ v _, Some (v_header v r)).
Proof.
  eapply reads_ext; [eapply reads_bind; [apply reads_stored_block|intros; apply reads_ret]|done].
Qed.

Definition v_full (v : View) (r : BlockRef) : option IndexedBlock :=
  '(h, x) ← v_stored v r; b ← as_block x;
  Some (mkIndexedBlock (mkIndexedBlockHeader h (block_header b)) (block_proof b)).

Lemma reads_db_block r : reads (db_block r) (λ v _, Some (v_full v r)).
Proof.
  eapply reads_ext; [eapply reads_bind; [apply reads_stored_block|intros; apply reads_ret]|done].
Qed.

Definition v_contains (v : View) (h : H256) : bool := bool_decide (is_Some (v (KeyBlock h))).

Lemma reads_contains_block h : reads (contains_block (RefHash h)) (λ v _, Some (v_contains v h)).
Proof.
  eapply reads_ext; [eapply reads_bind; [apply reads_stored_block|intros; apply reads_ret]|].
  intros v b. simpl. unfold v_contains, v_stored. simpl. f_equal. apply bool_decide_ext.
  destruct (v (KeyBlock h)); simpl; [by split|done].
Qed.

Lemma v_full_hash v h b : v_block v h = Some b →
  v_full v (RefHash h) = Some (mkIndexedBlock (mkIndexedBlockHeader h (block_header b)) (block_proof b)).
Proof.
  unfold v_block, v_full, v_stored. simpl. destruct (v (KeyBlock h)) as [x|]; [|done].
  simpl. intros ->. done.
Qed.

Lemma v_full_none v h : v_block v h = None → v_full v (RefHash h) = None.
Proof.
  unfold v_block, v_full, v_stored. simpl. destruct (v (KeyBlock h)) as [x|]; [|done].
  simpl. intros ->. done.
Qed.

(** Using a reading computation in front of another one. *)
Lemma reads_run {A B} (m : DM T A) f (k : A → DM T B) s a :
  reads m f → db_valid s → f (db_view s) (bc_best_block s) = Some a →
  ∃ s', (m ≫= k) s = k a s' ∧ unchanged s s'.
Proof.
  intros Hm Hs E. specialize (Hm s Hs). rewrite E in Hm. destruct Hm as (s' & Em & Hs').
  exists s'. unfold mbind, DM_bind. by rewrite Em.
Qed.

Lemma db_write_run {B} tx (k : unit → DM T (result DbError B)) s : db_valid s →
  ∃ s', try_bind (db_write tx) k s = k tt s' ∧ db_valid s' ∧
    bc_best_block s' = bc_best_block s ∧ db_view s' = apply_ops (db_view s) (operations tx).
Proof.
  intros Hs. unfold try_bind, mbind, DM_bind, db_write.
  destruct (kv_write_spec tx (bc_db s) Hs) as (t' & -> & Hv & E). simpl.
  eexists. split; [reflexivity|]. done.
Qed.
End generic.

(** ** The updates of [canonize] and [decanonize] on the view *)

Definition best_ops (best : BestBlock) : list Operation :=
  [OpInsert (KvMeta KEY_BEST_BLOCK_HASH (serialize (ser_hash 32) (bb_hash best)));
   OpInsert (KvMeta KEY_BEST_BLOCK_NUMBER (serialize ser_u32 (bb_number best)))].

Definition canonize_ops (n : Z) (h : H256) : list Operation :=
  OpInsert (KvBlockHash n h) :: OpInsert (KvBlockNumber h n) :: best_ops (mkBestBlock n h).

Definition decanonize_ops (n : Z) (h : H256) (best : BestBlock) : list Operation :=
  OpDelete (KeyBlockHash n) :: OpDelete (KeyBlockNumber h) :: best_ops best.

Lemma decode_best_ser best : u32 (bb_number best) →
  decode_best (Some (serialize ser_u32 (bb_number best)))
    (Some (serialize (ser_hash 32) (bb_hash best))) = Some (Some best).
Proof.
  intros Hn. unfold decode_best. destruct best as [n h]. cbn [bb_number bb_hash] in *.
  rewrite (deserialize_serialize ser_u32 de_u32 u32 n Hn).
  by rewrite (deserialize_serialize (ser_hash 32) (de_hash 32) (λ _, True) h I).
Qed.

Lemma canonize_view v n h :
  let v' := apply_ops v (canonize_ops n h) in
  (∀ m, v_hash v' m = if decide (m = n) then Some h else v_hash v m) ∧
  (∀ g, v_number v' g = if decide (g = h) then Some n else v_number v g) ∧
  (∀ g, v' (KeyBlock g) = v (KeyBlock g)) ∧
  v_meta v' KEY_BEST_BLOCK_NUMBER = Some (serialize ser_u32 n) ∧
  v_meta v' KEY_BEST_BLOCK_HASH = Some (serialize (ser_hash 32) h).
Proof.
  unfold v_hash, v_number, v_meta, apply_ops, view_set.
  cbn [foldl canonize_ops best_ops op_key op_value kv_key kv_value bb_hash bb_number].
  split_and!; intros; repeat case_decide; simplify_eq; done.
Qed.

Lemma decanonize_view v n h best :
  let v' := apply_ops v (decanonize_ops n h best) in
  (∀ m, v_hash v' m = if decide (m = n) then None else v_hash v m) ∧
  (∀ g, v_number v' g = if decide (g = h) then None else v_number v g) ∧
  (∀ g, v' (KeyBlock g) = v (KeyBlock g)) ∧
  v_meta v' KEY_BEST_BLOCK_NUMBER = Some (serialize ser_u32 (bb_number best)) ∧
  v_meta v' KEY_BEST_BLOCK_HASH = Some (serialize (ser_hash 32) (bb_hash best)).
Proof.
  unfold v_hash, v_number, v_meta, apply_ops, view_set.
  cbn [foldl decanonize_ops best_ops op_key op_value kv_key kv_value].
  split_and!; intros; repeat case_decide; simplify_eq; done.
Qed.

(** The parent of a new last block is the old last block. *)
Lemma parent_in_snoc hs h i : (i ≤ length hs)%nat →
  parent_in (hs ++ [h]) i = if decide (i = length hs) then bb_hash (best_of hs) else parent_in hs i.
Proof.
  intros Hi. destruct i as [|j]; simpl.
  - case_decide; [|done]. by destruct hs.
  - rewrite lookup_app_l by lia. case_decide as Ej; [|done].
    destruct hs as [|x hs _] using rev_ind; [done|].
    rewrite best_of_snoc, length_app in *. simpl in *.
    replace j with (length hs) by lia. by rewrite lookup_app_r, Nat.sub_diag by lia.
Qed.

(** A stored child of the best block is not yet in the chain. *)
Lemma child_of_best_new v best hs h b :
  chain_inv v best hs → v_block v h = Some b → parent_of b = bb_hash best → h ∉ hs.
Proof.
  intros Hi Hb Hp Hin. apply list_elem_of_lookup in Hin as [i Hin].
  destruct (ci_link _ _ _ Hi _ _ Hin) as (b' & Hb' & Hp').
  rewrite Hb in Hb'. injection Hb' as <-. rewrite Hp in Hp'. destruct i as [|j]; simpl in Hp'.
  - apply (ci_best_zero _ _ _ Hi) in Hp'. by subst.
  - pose proof (lookup_lt_Some _ _ _ Hin) as Hlt.
    destruct (lookup_lt_is_Some_2 hs j) as [x Hx]; [lia|]. rewrite Hx in Hp'. simpl in Hp'.
    rewrite (ci_best _ _ _ Hi) in Hp'.
    destruct hs as [|y hs _] using rev_ind; [done|]. rewrite best_of_snoc in Hp'. simpl in Hp'. subst y.
    rewrite length_app in Hlt. simpl in Hlt.
    pose proof (ci_nodup v best _ j (length hs) x Hi Hx) as Ej.
    rewrite lookup_app_r, Nat.sub_diag in Ej by lia. specialize (Ej eq_refl). lia.
Qed.

Lemma inv_canonize v best hs h b :
  chain_inv v best hs → v_block v h = Some b → parent_of b = bb_hash best →
  Z.of_nat (length hs) < 2 ^ 32 →
  chain_inv (apply_ops v (canonize_ops (Z.of_nat (length hs)) h))
    (mkBestBlock (Z.of_nat (length hs)) h) (hs ++ [h]).
Proof.
  intros Hi Hb Hp Hlen.
  pose proof (child_of_best_new _ _ _ _ _ Hi Hb Hp) as Hnew.
  destruct (canonize_view v (Z.of_nat (length hs)) h) as (Ehash & Enum & Eblk & Em1 & Em2).
  split.
  - by rewrite best_of_snoc.
  - intros n. rewrite Ehash, (ci_hash _ _ _ Hi). case_decide as En.
    + subst n. rewrite (proj2 (Z.leb_le _ _)) by lia.
      by rewrite Nat2Z.id, lookup_app_r, Nat.sub_diag by lia.
    + destruct (Z.leb_spec 0 n); [|done]. destruct (decide (Z.to_nat n < length hs)%nat).
      * by rewrite lookup_app_l by lia.
      * rewrite !lookup_ge_None_2; [done|rewrite length_app; simpl; lia|lia].
  - intros g n. rewrite Enum. case_decide as Eg.
    + subst g. split.
      * intros [= <-]. rewrite Nat2Z.id, lookup_app_r, Nat.sub_diag by lia. split; [lia|done].
      * intros [Hn Hl]. apply lookup_app_Some in Hl as [Hl|[Hge Hl]].
        -- exfalso. apply Hnew. by apply list_elem_of_lookup_2 in Hl.
        -- apply list_lookup_singleton_Some in Hl as [Hl _]. f_equal. lia.
    + rewrite (ci_number _ _ _ Hi). split; intros [Hn Hl]; (split; [done|]).
      * by apply lookup_app_l_Some.
      * apply lookup_app_Some in Hl as [Hl|[Hge Hl]]; [done|].
        apply list_lookup_singleton_Some in Hl as [_ <-]. done.
  - intros i g Hg. unfold v_block. setoid_rewrite Eblk.
    pose proof (lookup_lt_Some _ _ _ Hg) as Hlt. rewrite length_app in Hlt. simpl in Hlt.
    rewrite parent_in_snoc by lia. apply lookup_app_Some in Hg as [Hg|[Hge Hg]].
    + rewrite decide_False by (apply lookup_lt_Some in Hg; lia). by apply (ci_link _ _ _ Hi).
    + apply list_lookup_singleton_Some in Hg as [Hi0 <-]. rewrite decide_True by lia.
      exists b. rewrite <-(ci_best _ _ _ Hi). done.
  - rewrite Eblk. apply (ci_nonzero _ _ _ Hi).
  - intros g x. rewrite Eblk. apply (ci_typed _ _ _ Hi).
  - exists (Some (mkBestBlock (Z.of_nat (length hs)) h)). rewrite Em1, Em2. split; [|done].
    apply (decode_best_ser (mkBestBlock (Z.of_nat (length hs)) h)). simpl. unfold fits. lia.
  - rewrite length_app. simpl. lia.
Qed.

Lemma inv_decanonize v best hs h :
  chain_inv v best (hs ++ [h]) →
  chain_inv (apply_ops v (decanonize_ops (Z.of_nat (length hs)) h (best_of hs))) (best_of hs) hs.
Proof.
  intros Hi.
  destruct (decanonize_view v (Z.of_nat (length hs)) h (best_of hs)) as (Ehash & Enum & Eblk & Em1 & Em2).
  pose proof (ci_len _ _ _ Hi) as Hlen. rewrite length_app in Hlen. simpl in Hlen.
  split.
  - done.
  - intros n. rewrite Ehash, (ci_hash _ _ _ Hi). case_decide as En.
    + subst n. rewrite (proj2 (Z.leb_le _ _)), Nat2Z.id by lia.
      by rewrite lookup_ge_None_2.
    + destruct (Z.leb_spec 0 n); [|done]. destruct (decide (Z.to_nat n < length hs)%nat).
      * by rewrite lookup_app_l by lia.
      * rewrite !lookup_ge_None_2; [done|lia|rewrite length_app; simpl; lia].
  - intros g n. rewrite Enum. case_decide as Eg.
    + subst g. split; [done|]. intros [Hn Hl]. exfalso.
      pose proof (lookup_lt_Some _ _ _ Hl) as Hlt.
      pose proof (ci_nodup v best _ (Z.to_nat n) (length hs) h Hi) as Ej.
      rewrite lookup_app_l, lookup_app_r, Nat.sub_diag in Ej by lia.
      specialize (Ej Hl eq_refl). lia.
    + rewrite (ci_number _ _ _ Hi). split; intros [Hn Hl]; (split; [done|]).
      * apply lookup_app_Some in Hl as [Hl|[Hge Hl]]; [done|].
        apply list_lookup_singleton_Some in Hl as [_ <-]. done.
      * by apply lookup_app_l_Some.
  - intros i g Hg. pose proof (lookup_lt_Some _ _ _ Hg) as Hlt.
    destruct (ci_link _ _ _ Hi i g) as (b & Hb & Hp); [by apply lookup_app_l_Some|].
    exists b. unfold v_block. rewrite Eblk. split; [done|].
    rewrite Hp, parent_in_snoc by lia. rewrite decide_False by lia. done.
  - rewrite Eblk. apply (ci_nonzero _ _ _ Hi).
  - intros g x. rewrite Eblk. apply (ci_typed _ _ _ Hi).
  - exists (Some (best_of hs)). rewrite Em1, Em2. split; [|done].
    apply decode_best_ser. destruct hs as [|x hs _] using rev_ind; [done|].
    rewrite best_of_snoc. simpl. rewrite length_app in Hlen. simpl in Hlen. unfold fits. lia.
  - lia.
Qed.
End chain_inv.
