(* ===== verification/ChainOps.v ===== *)
(** * Operations on the canonical chain

    What [insert], [canonize], [decanonize], [open], [block_origin], [fork] and
    [switch_to_fork] do to the chain of [ChainInv], on every branch. *)

From S2P Require Import Prelude External Primitives Serialization Compact Crypto Chain.
From S2P Require Import Storage Network Kv KvRefine BlockChainDb ChainInv.

(** Runs the reading computation at the head of the goal. *)
Ltac run_read lem Hv s' Hs' :=
  match goal with
  | |- context [(?m ≫= ?k) ?s] =>
      destruct (reads_run m _ k s _ lem Hv eq_refl) as (s' & -> & Hs')
  end; cbv beta.

Section ops.
Context {V : VrfOps} {R : RugOps} {P : Profile}.

Section generic.
Context {T : Type} {K : KeyValueDatabase T} {KS : KvSpec T}.

Definition state_inv (s : BlockChainDatabase T) (hs : list H256) : Prop :=
  db_valid s ∧ chain_inv (db_view s) (bc_best_block s) hs.

Definition same_blocks (s s' : BlockChainDatabase T) : Prop :=
  ∀ h, db_view s' (KeyBlock h) = db_view s (KeyBlock h).

Lemma unchanged_inv s s' hs : state_inv s hs → unchanged s s' → state_inv s' hs.
Proof. intros [Hv Hi] (Hv' & Eb & Ev). split; [done|]. by rewrite Eb, Ev. Qed.

Lemma unchanged_blocks s s' : unchanged s s' → same_blocks s s'.
Proof. intros (_ & _ & Ev) h. by rewrite Ev. Qed.

Lemma is_zero_hash (h : H256) : is_zero h = bool_decide (h = hash_default).
Proof.
  apply eq_true_iff_eq. rewrite bool_decide_eq_true. apply is_zero_default.
Qed.

(** The computation after the read-only prefix of [canonize] or
    [decanonize]. *)
Lemma write_best_spec {A} (s : BlockChainDatabase T) tx best' (a : A) :
  db_valid s →
  ∃ s', try_bind (db_write tx) (λ _, _ ← set_best best'; mret (Ok a)) s = Some (Ok a, s') ∧
    db_valid s' ∧ bc_best_block s' = best' ∧ db_view s' = apply_ops (db_view s) (operations tx).
Proof.
  intros Hv.
  destruct (db_write_run tx (λ _, _ ← set_best best'; mret (Ok a) : DM T (result DbError A)) s Hv)
    as (s1 & -> & Hv1 & _ & Ev).
  eexists. split; [reflexivity|]. by split_and!.
Qed.

Lemma canonize_ok s hs h b :
  state_inv s hs → v_block (db_view s) h = Some b → parent_of b = bb_hash (bc_best_block s) →
  Z.of_nat (length hs) < 2 ^ 32 →
  ∃ s', canonize h s = Some (Ok tt, s') ∧ state_inv s' (hs ++ [h]) ∧ same_blocks s s'.
Proof.
  intros [Hv Hi] Hb Hp Hlen. unfold canonize. run_read reads_get_best Hv s1 Hs1.
  run_read (reads_db_block (RefHash h)) (proj1 Hs1) s2 Hs2.
  pose proof (unchanged_trans _ _ _ Hs1 Hs2) as (Hv2 & Eb2 & Ev2).
  destruct Hs1 as (_ & _ & ->). rewrite (v_full_hash _ _ _ Hb). cbv beta iota zeta.
  change (previous_header_hash _) with (parent_of b). rewrite Hp, (proj2 (hash_eq_true _ _)) by done.
  cbn [negb]. rewrite is_zero_hash.
  replace (if bool_decide (bb_hash (bc_best_block s) = hash_default)
    then _ ← rust_assert (bb_number (bc_best_block s) =? 0); Some 0
    else u32_add (bb_number (bc_best_block s)) 1) with (Some (Z.of_nat (length hs))).
  2: { pose proof (ci_best_zero _ _ _ Hi) as Hz. case_bool_decide as Hd.
       - apply Hz in Hd as ->. by rewrite (ci_best _ _ _ Hi).
       - rewrite (ci_best _ _ _ Hi). destruct hs as [|x hs' _] using rev_ind; [by destruct Hd; apply Hz|].
         rewrite best_of_snoc. cbn [bb_number]. rewrite length_app in *. simpl in *.
         rewrite u32_add_fits by (unfold fits; lia). f_equal. lia. }
  run_read (reads_lift (Some (Z.of_nat (length hs)))) Hv2 s3 Hs3.
  edestruct (@write_best_spec unit s3) as (s' & -> & Hv' & Eb' & Ev'); [apply Hs3|].
  exists s'. split; [done|]. destruct Hs3 as (_ & _ & Ev3). rewrite Ev3, Ev2 in Ev'.
  split; [split; [done|]|].
  - rewrite Eb', Ev'. by apply (inv_canonize _ _ hs h b Hi).
  - intros g. rewrite Ev'. apply (canonize_view (db_view s) (Z.of_nat (length hs)) h).
Qed.

(** Canonization is refused, and changes nothing, unless the block is stored
    and extends the best block. *)
Lemma canonize_err s hs h :
  state_inv s hs →
  (∀ b, v_block (db_view s) h = Some b → parent_of b ≠ bb_hash (bc_best_block s)) →
  ∃ s', canonize h s = Some (Err CannotCanonize, s') ∧ unchanged s s'.
Proof.
  intros [Hv Hi] Hb. unfold canonize. run_read reads_get_best Hv s1 Hs1.
  run_read (reads_db_block (RefHash h)) (proj1 Hs1) s2 Hs2.
  pose proof (unchanged_trans _ _ _ Hs1 Hs2) as Hs.
  destruct Hs1 as (_ & _ & ->). destruct (v_block (db_view s) h) as [b|] eqn:E.
  - rewrite (v_full_hash _ _ _ E). cbv beta iota zeta.
    change (previous_header_hash _) with (parent_of b).
    destruct (hash_eq (bb_hash (bc_best_block s)) (parent_of b)) eqn:Eq.
    + apply hash_eq_true in Eq. by destruct (Hb b eq_refl).
    + by exists s2.
  - rewrite (v_full_none _ _ E). by exists s2.
Qed.

Lemma decanonize_ok s hs h :
  state_inv s (hs ++ [h]) →
  ∃ s', decanonize s = Some (Ok h, s') ∧ state_inv s' hs ∧ same_blocks s s'.
Proof.
  intros [Hv Hi]. unfold decanonize. run_read reads_get_best Hv s1 Hs1.
  run_read (reads_db_block (RefHash (bb_hash (bc_best_block s)))) (proj1 Hs1) s2 Hs2.
  pose proof (unchanged_trans _ _ _ Hs1 Hs2) as (Hv2 & Eb2 & Ev2).
  destruct Hs1 as (_ & _ & ->).
  pose proof (ci_best _ _ _ Hi) as Ebest. rewrite best_of_snoc in Ebest. rewrite Ebest.
  destruct (ci_link _ _ _ Hi (length hs) h) as (b & Hb & Hp).
  { by rewrite lookup_app_r, Nat.sub_diag by lia. }
  rewrite parent_in_snoc, decide_True in Hp by done.
  cbn [bb_hash bb_number]. rewrite (v_full_hash _ _ _ Hb). cbv beta iota zeta.
  change (previous_header_hash _) with (parent_of b). rewrite Hp.
  replace (if 0 <? Z.of_nat (length hs) then Some (Z.of_nat (length hs) - 1)
    else _ ← rust_assert (is_zero (bb_hash (best_of hs))); Some 0) with (Some (bb_number (best_of hs))).
  2: { destruct hs as [|x hs' _] using rev_ind; [done|]. rewrite best_of_snoc, length_app. simpl.
       rewrite (proj2 (Z.ltb_lt _ _)) by lia. f_equal. lia. }
  run_read (reads_lift (Some (bb_number (best_of hs)))) Hv2 s3 Hs3.
  edestruct (@write_best_spec H256 s3) as (s' & -> & Hv' & Eb' & Ev'); [apply Hs3|].
  exists s'. split; [done|]. destruct Hs3 as (_ & _ & Ev3). rewrite Ev3, Ev2 in Ev'.
  replace (mkBestBlock (bb_number (best_of hs)) (bb_hash (best_of hs))) with (best_of hs) in *
    by (by destruct (best_of hs)).
  split; [split; [done|]|].
  - rewrite Eb', Ev'. by apply (inv_decanonize _ _ hs h Hi).
  - intros g. rewrite Ev'. apply (decanonize_view (db_view s) (Z.of_nat (length hs)) h (best_of hs)).
Qed.

Lemma decanonize_err s : state_inv s [] →
  ∃ s', decanonize s = Some (Err CannotDecanonize, s') ∧ unchanged s s'.
Proof.
  intros [Hv Hi]. unfold decanonize. run_read reads_get_best Hv s1 Hs1.
  run_read (reads_db_block (RefHash (bb_hash (bc_best_block s)))) (proj1 Hs1) s2 Hs2.
  pose proof (unchanged_trans _ _ _ Hs1 Hs2) as Hs. destruct Hs1 as (_ & _ & ->).
  rewrite (ci_best _ _ _ Hi). rewrite v_full_none; [by exists s2|].
  unfold v_block. change (bb_hash (best_of [])) with (@hash_default 32).
  by rewrite (ci_nonzero _ _ _ Hi).
Qed.

(** ** Insertion *)

(** The view with one more block. *)
Lemma insert_view v h b k :
  apply_ops v [OpInsert (KvBlock h b)] k = if decide (k = KeyBlock h) then Some (VBlock b) else v k.
Proof. done. Qed.

Lemma inv_insert v best hs h b :
  chain_inv v best hs → h ≠ hash_default → v (KeyBlock h) = None →
  chain_inv (apply_ops v [OpInsert (KvBlock h b)]) best hs.
Proof.
  intros Hi Hne Hnew. split.
  - apply (ci_best _ _ _ Hi).
  - apply (ci_hash _ _ _ Hi).
  - apply (ci_number _ _ _ Hi).
  - intros i g Hg. destruct (ci_link _ _ _ Hi i g Hg) as (b' & Hb' & Hp). exists b'.
    split; [|done]. unfold v_block in *. rewrite insert_view, decide_False; [done|].
    intros [= ->]. by rewrite Hnew in Hb'.
  - rewrite insert_view, decide_False by congruence. apply (ci_nonzero _ _ _ Hi).
  - intros g x. rewrite insert_view. case_decide; [by intros [= <-]|]. apply (ci_typed _ _ _ Hi).
  - apply (ci_meta _ _ _ Hi).
  - apply (ci_len _ _ _ Hi).
Qed.

Definition block_of (b : IndexedBlock) : Block := mkBlock (ih_raw (ib_header b)) (ib_proof b).

(** A known block is left alone, an orphan is refused, any other block is
    stored and the chain does not change. *)
Lemma insert_spec s hs (blk : IndexedBlock) :
  state_inv s hs → ib_hash blk ≠ hash_default →
  let h := ib_hash blk in
  let parent := parent_of (block_of blk) in
  ∃ s', if v_contains (db_view s) h then db_insert blk s = Some (Ok tt, s') ∧ unchanged s s'
        else if negb (v_contains (db_view s) parent) && negb (is_zero parent)
             then db_insert blk s = Some (Err UnknownParent, s') ∧ unchanged s s'
             else db_insert blk s = Some (Ok tt, s') ∧ state_inv s' hs ∧
                  ∀ k, db_view s' k = if decide (k = KeyBlock h) then Some (VBlock (block_of blk))
                                     else db_view s k.
Proof.
  intros [Hv Hi] Hne h parent. unfold db_insert.
  run_read (reads_contains_block h) Hv s1 Hs1.
  destruct (v_contains (db_view s) h) eqn:Eh; [by exists s1|].
  fold parent. change (previous_header_hash (ih_raw (ib_header blk))) with parent.
  run_read (reads_contains_block parent) (proj1 Hs1) s2 Hs2.
  pose proof (unchanged_trans _ _ _ Hs1 Hs2) as Hs. destruct Hs1 as (_ & _ & ->).
  destruct (negb (v_contains (db_view s) parent) && negb (is_zero parent)); [by exists s2|].
  destruct Hs as (Hv2 & Eb2 & Ev2). unfold db_write.
  edestruct (kv_write_spec (T:=T)) as (t' & -> & Hv' & Ev'); [exact Hv2|].
  eexists. split; [reflexivity|]. change (kv_view (bc_db s2)) with (db_view s2) in Ev'. rewrite Ev2 in Ev'.
  split.
  - split; [done|]. unfold db_view. simpl. rewrite Ev', Eb2. apply inv_insert; [done|done|].
    unfold v_contains in Eh. apply bool_decide_eq_false in Eh.
    destruct (db_view s (KeyBlock h)) eqn:E; [|done]. by destruct Eh.
  - intros k. unfold db_view at 1. simpl. rewrite Ev'. done.
Qed.

(** ** Opening a database again *)

Lemma get_meta_spec key (t : T) : kv_valid t →
  ∃ t', get_meta key t = (Some (v_meta (kv_view t) key), t') ∧ kv_valid t' ∧ kv_view t' = kv_view t.
Proof.
  intros Hv. unfold get_meta. destruct (kv_get_spec (KeyMeta key) t Hv) as (st & t' & -> & E & ? & ?).
  exists t'. rewrite E. done.
Qed.

(** Reading the meta entries back gives the best block. *)
Lemma open_spec (t : T) best hs : kv_valid t → chain_inv (kv_view t) best hs →
  ∃ s, open t = Some s ∧ state_inv s hs ∧ db_view s = kv_view t ∧ bc_best_block s = best.
Proof.
  intros Hv Hi. unfold open, read_best_block.
  destruct (get_meta_spec KEY_BEST_BLOCK_NUMBER t Hv) as (t1 & -> & Hv1 & E1).
  destruct (get_meta_spec KEY_BEST_BLOCK_HASH t1 Hv1) as (t2 & -> & Hv2 & E2).
  rewrite E1 in *. destruct (ci_meta _ _ _ Hi) as (o & -> & Ho).
  eexists. split; [reflexivity|]. rewrite Ho. unfold state_inv, db_valid, db_view. simpl.
  by rewrite E2.
Qed.

(** ** Routes *)

(** [route] is a path of stored blocks, oldest first, on top of [from]. *)
Fixpoint linked_from (v : View) (from : H256) (route : list H256) : Prop :=
  match route with
  | [] => True
  | h :: route => (∃ b, v_block v h = Some b ∧ parent_of b = from) ∧ linked_from v h route
  end.

Lemma linked_from_blocks v v' from route :
  (∀ h, v' (KeyBlock h) = v (KeyBlock h)) → linked_from v from route → linked_from v' from route.
Proof.
  intros E. revert from. induction route as [|h route IH]; intros from; [done|].
  simpl. unfold v_block. rewrite E. intros [? ?]. split; [done|by apply IH].
Qed.

Lemma decanonize_route_spec s hs route :
  state_inv s (hs ++ route) →
  ∃ s', decanonize_route (reverse route) s = Some (Ok tt, s') ∧ state_inv s' hs ∧ same_blocks s s'.
Proof.
  revert s. induction route as [|h route IH] using rev_ind; intros s Hs.
  - rewrite app_nil_r in Hs. by exists s.
  - rewrite reverse_app. simpl. rewrite app_assoc in Hs.
    destruct (decanonize_ok s (hs ++ route) h Hs) as (s1 & E1 & Hs1 & Hb1).
    destruct (IH s1 Hs1) as (s2 & E2 & Hs2 & Hb2).
    exists s2. unfold try_bind, mbind, DM_bind. rewrite E1. unfold lift.
    rewrite bool_decide_true by done. simpl. rewrite E2. split; [done|]. split; [done|].
    intros g. by rewrite Hb2, Hb1.
Qed.

Lemma canonize_route_spec s hs route :
  state_inv s hs → linked_from (db_view s) (bb_hash (bc_best_block s)) route →
  Z.of_nat (length hs + length route) ≤ 2 ^ 32 →
  ∃ s', canonize_route route s = Some (Ok tt, s') ∧ state_inv s' (hs ++ route) ∧ same_blocks s s'.
Proof.
  revert s hs. induction route as [|h route IH]; intros s hs Hs Hl Hlen.
  - rewrite app_nil_r. by exists s.
  - destruct Hl as [(b & Hb & Hp) Hl]. simpl in Hlen.
    destruct (canonize_ok s hs h b Hs Hb Hp) as (s1 & E1 & Hs1 & Hb1); [lia|].
    destruct (IH s1 (hs ++ [h]) Hs1) as (s2 & E2 & Hs2 & Hb2).
    + rewrite (ci_best _ _ _ (proj2 Hs1)), best_of_snoc. simpl.
      by apply (linked_from_blocks (db_view s)).
    + rewrite length_app. simpl. lia.
    + exists s2. simpl. unfold try_bind, mbind, DM_bind. rewrite E1, E2.
      rewrite <-app_assoc in Hs2. split; [done|]. split; [done|]. intros g. by rewrite Hb2, Hb1.
Qed.

(** ** The origin of a block *)

Lemma collect_hashes_spec s hs n i :
  state_inv s hs → (i + n = length hs)%nat →
  ∃ s', collect_hashes n (Z.of_nat i) s = Some (drop i hs, s') ∧ unchanged s s'.
Proof.
  revert s i. induction n as [|n IH]; intros s i Hs Hlen.
  - exists s. rewrite drop_ge by lia. by destruct Hs.
  - cbn [collect_hashes]. run_read (reads_block_hash (Z.of_nat i)) (proj1 Hs) s1 Hs1.
    rewrite (ci_hash_nat _ _ _ i (proj2 Hs)).
    destruct (lookup_lt_is_Some_2 hs i) as [h Hh]; [lia|]. rewrite Hh.
    destruct (IH s1 (S i)) as (s2 & E2 & Hs2); [by eapply unchanged_inv|lia|].
    replace (Z.of_nat i + 1) with (Z.of_nat (S i)) by lia.
    exists s2. unfold mbind, DM_bind. rewrite E2. split; [|by eapply unchanged_trans].
    by rewrite (drop_S _ _ _ Hh).
Qed.

(** The last element of a route on top of [from]. *)
Definition tip (from : H256) (route : list H256) : H256 := List.last route from.

Lemma tip_snoc from route h : tip from (route ++ [h]) = h.
Proof. apply List.last_last. Qed.

Lemma tip_cons from x route : tip from (x :: route) = tip x route.
Proof.
  destruct route as [|y route _] using rev_ind; [done|].
  by rewrite app_comm_cons, !tip_snoc.
Qed.

Lemma linked_from_snoc v from route h :
  linked_from v from (route ++ [h]) ↔
  linked_from v from route ∧ ∃ b, v_block v h = Some b ∧ parent_of b = tip from route.
Proof.
  revert from. induction route as [|x route IH]; intros from; [simpl; naive_solver|].
  rewrite tip_cons. simpl. rewrite IH. tauto.
Qed.

Definition side_origin (a : nat) (route hs : list H256) : BlockOrigin :=
  let number := Z.of_nat (a + length route + 1) in
  let origin := mkSideChainOrigin (Z.of_nat a) route (drop (S a) hs) number in
  if Z.of_nat (length hs) - 1 <? number then SideChainBecomingCanonChain origin else SideChain origin.

Lemma v_header_hash v h b : v_block v h = Some b →
  v_header v (RefHash h) = Some (mkIndexedBlockHeader h (block_header b)).
Proof.
  unfold v_block, v_header, v_stored. simpl. destruct (v (KeyBlock h)); [|done]. simpl. by intros ->.
Qed.

Lemma origin_loop_spec s hs a anc fuel route acc :
  state_inv s hs → hs !! a = Some anc → linked_from (db_view s) anc route →
  (∀ h, h ∈ route → h ∉ hs) → Z.of_nat (length hs) < 2 ^ 32 →
  Z.of_nat (a + length acc + length route + 1) < 2 ^ 32 →
  ∃ s', unchanged s s' ∧
    origin_loop fuel (best_of hs) (Z.of_nat (length acc)) acc (tip anc route) s =
    Some (if decide (length route < fuel)%nat then Ok (side_origin a (route ++ reverse acc) hs)
          else Err AncientFork, s').
Proof.
  intros Hs Ha. revert s fuel acc Hs.
  induction route as [|h route IH] using rev_ind; intros s fuel acc Hs Hl Hout Hlen Hfit.
  - destruct fuel as [|fuel]; [exists s; by destruct Hs|]. cbn [origin_loop]. unfold tip. simpl List.last.
    run_read (reads_block_number anc) (proj1 Hs) s1 Hs1.
    rewrite (ci_number_nat _ _ _ _ _ (proj2 Hs) Ha). simpl length in *.
    pose proof (lookup_lt_Some _ _ _ Ha) as Hlt.
    assert (bb_number (best_of hs) = Z.of_nat (length hs) - 1) as Ebest.
    { destruct hs as [|x hs' _] using rev_ind; [done|].
      rewrite best_of_snoc, length_app. simpl. lia. }
    rewrite Ebest. rewrite !u32_add_fits by (unfold fits; lia). cbn [mbind option_bind].
    rewrite !u32_add_fits by (unfold fits; lia).
    run_read (reads_lift (T:=T) (Some (Z.of_nat a + Z.of_nat (length acc) + 1))) (proj1 Hs1) s2 Hs2.
    run_read (reads_lift (T:=T) (Some (Z.of_nat a + 1))) (proj1 Hs2) s3 Hs3.
    run_read (reads_lift (T:=T) (Some (Z.of_nat (length hs) - 1 + 1))) (proj1 Hs3) s4 Hs4.
    assert (unchanged s s4) as Hs04
      by (do 2 (eapply unchanged_trans; [|eassumption]); by eapply unchanged_trans).
    destruct (collect_hashes_spec s4 hs (length hs - S a) (S a)) as (s5 & E5 & Hs5);
      [by eapply unchanged_inv|lia|].
    exists s5. split; [by eapply unchanged_trans|]. unfold mbind, DM_bind.
    replace (Z.to_nat (Z.of_nat (length hs) - 1 + 1 - (Z.of_nat a + 1))) with (length hs - S a)%nat by lia.
    replace (Z.of_nat a + 1) with (Z.of_nat (S a)) by lia. rewrite E5.
    rewrite decide_True by (simpl; lia). unfold side_origin. rewrite app_nil_l, length_reverse.
    replace (Z.of_nat a + Z.of_nat (length acc) + 1) with (Z.of_nat (a + length acc + 1)) by lia.
    by destruct (_ <? _).
  - apply linked_from_snoc in Hl as [Hl (b & Hb & Hp)]. rewrite tip_snoc.
    destruct fuel as [|fuel]; [exists s; by destruct Hs|]. cbn [origin_loop].
    run_read (reads_block_number h) (proj1 Hs) s1 Hs1.
    rewrite (proj2 (ci_not_member _ _ _ h (proj2 Hs))) by (apply Hout; set_solver).
    run_read (reads_db_block_header (RefHash h)) (proj1 Hs1) s2 Hs2.
    pose proof (unchanged_trans _ _ _ Hs1 Hs2) as Hs02. destruct Hs1 as (_ & _ & ->).
    rewrite (v_header_hash _ _ _ Hb).
    run_read (reads_lift (T:=T) (Some (mkIndexedBlockHeader h (block_header b)))) (proj1 Hs2) s3 Hs3.
    pose proof (unchanged_trans _ _ _ Hs02 Hs3) as Hs03.
    change (previous_header_hash _) with (parent_of b). rewrite Hp, length_app in *. simpl in Hfit.
    destruct (IH s3 fuel (acc ++ [h])) as (s4 & Hs4 & E4); try done.
    + by eapply unchanged_inv.
    + destruct Hs03 as (_ & _ & ->). done.
    + intros g Hg. apply Hout. set_solver.
    + rewrite length_app. simpl. lia.
    + exists s4. split; [by eapply unchanged_trans|].
      replace (Z.of_nat (length acc) + 1) with (Z.of_nat (length (acc ++ [h])))
        by (rewrite length_app; simpl; lia).
      rewrite E4.
      rewrite reverse_app. simpl. rewrite <-app_assoc. simpl.
      do 3 f_equal. by apply decide_ext; lia.
Qed.

(** ** Canonization *)

(** Canonization appends and decanonization removes, exactly.  On a
    database that holds the chain [hs], [canonize h] returns [Ok] and makes the
    chain [hs ++ [h]] when [h] is stored and its parent is the best block, and
    returns [CannotCanonize] without any visible change otherwise; after a
    success [decanonize] returns [h] and restores the chain.  Stored blocks are
    never touched. *)
Theorem canonize_exact s hs h :
  state_inv s hs → Z.of_nat (length hs) < 2 ^ 32 →
  match v_block (db_view s) h with
  | Some b =>
      if decide (parent_of b = bb_hash (bc_best_block s)) then
        ∃ s' s'', canonize h s = Some (Ok tt, s') ∧ state_inv s' (hs ++ [h]) ∧ same_blocks s s' ∧
          bc_best_block s' = mkBestBlock (Z.of_nat (length hs)) h ∧
          decanonize s' = Some (Ok h, s'') ∧ state_inv s'' hs ∧ same_blocks s s''
      else ∃ s', canonize h s = Some (Err CannotCanonize, s') ∧ unchanged s s'
  | None => ∃ s', canonize h s = Some (Err CannotCanonize, s') ∧ unchanged s s'
  end.
Proof.
  intros Hs Hlen. destruct (v_block (db_view s) h) as [b|] eqn:E.
  - case_decide as Hp.
    + destruct (canonize_ok s hs h b Hs E Hp Hlen) as (s' & E' & Hs' & Hb').
      destruct (decanonize_ok s' hs h Hs') as (s'' & E'' & Hs'' & Hb'').
      exists s', s''. split_and!; try done; [|by intros g; rewrite Hb'', Hb'].
      by rewrite (ci_best _ _ _ (proj2 Hs')), best_of_snoc.
    + apply (canonize_err s hs h Hs). intros b' Hb'. rewrite E in Hb'. by injection Hb' as <-.
  - apply (canonize_err s hs h Hs). intros b' Hb'. by rewrite E in Hb'.
Qed.

Lemma canonize_cases s hs h : state_inv s hs → Z.of_nat (length hs) < 2 ^ 32 →
  (∃ s', canonize h s = Some (Ok tt, s') ∧ state_inv s' (hs ++ [h]) ∧ same_blocks s s') ∨
  (∃ s', canonize h s = Some (Err CannotCanonize, s') ∧ unchanged s s').
Proof.
  intros Hs Hlen. destruct (v_block (db_view s) h) as [b|] eqn:E.
  - destruct (decide (parent_of b = bb_hash (bc_best_block s))) as [Hp|Hp].
    + left. by apply (canonize_ok s hs h b).
    + right. apply (canonize_err s hs h Hs). intros b' Hb'. rewrite E in Hb'. by injection Hb' as <-.
  - right. apply (canonize_err s hs h Hs). intros b' Hb'. by rewrite E in Hb'.
Qed.

(** ** Reachable states *)

(** A step of a client of the store: a block with a non-zero hash is inserted,
    a block is canonized below the last block number, the best block is
    decanonized, or the database is opened again. *)
Inductive db_step : BlockChainDatabase T → BlockChainDatabase T → Prop :=
| step_insert s blk r s' :
    ib_hash blk ≠ hash_default → db_insert blk s = Some (r, s') → db_step s s'
| step_canonize s h r s' :
    bb_number (bc_best_block s) < 2 ^ 32 - 1 → canonize h s = Some (r, s') → db_step s s'
| step_decanonize s r s' : decanonize s = Some (r, s') → db_step s s'
| step_reopen s s' : open (bc_db s) = Some s' → db_step s s'.

Lemma length_of_best v best hs : chain_inv v best hs →
  bb_number best < 2 ^ 32 - 1 → Z.of_nat (length hs) < 2 ^ 32.
Proof.
  intros Hi Hn. rewrite (ci_best _ _ _ Hi) in Hn.
  destruct hs as [|x hs _] using rev_ind; [done|].
  rewrite best_of_snoc in Hn. rewrite length_app. simpl in *. lia.
Qed.

Lemma db_step_inv s s' hs : db_step s s' → state_inv s hs → ∃ hs', state_inv s' hs'.
Proof.
  intros Hstep Hs. destruct Hstep as [s blk r s' Hne E|s h r s' Hn E|s r s' E|s s' E].
  - destruct (insert_spec s hs blk Hs Hne) as (s1 & Hif). exists hs.
    destruct (v_contains _ _); [|destruct (_ && _)]; destruct Hif as (E1 & Hs1);
      rewrite E in E1; injection E1 as -> ->; [by eapply unchanged_inv..|apply Hs1].
  - pose proof (length_of_best _ _ _ (proj2 Hs) Hn) as Hlen.
    destruct (canonize_cases s hs h Hs Hlen) as [(s1 & E1 & Hs1 & _)|(s1 & E1 & Hs1)];
      rewrite E in E1; injection E1 as -> ->; [by exists (hs ++ [h])|].
    exists hs. by eapply unchanged_inv.
  - destruct hs as [|h hs _] using rev_ind.
    + destruct (decanonize_err s Hs) as (s1 & E1 & Hs1). rewrite E in E1. injection E1 as -> ->.
      exists []. by eapply unchanged_inv.
    + destruct (decanonize_ok s hs h Hs) as (s1 & E1 & Hs1 & _). rewrite E in E1.
      injection E1 as -> ->. by exists hs.
  - destruct Hs as [Hv Hi]. destruct (open_spec (bc_db s) _ hs Hv Hi) as (s1 & E1 & Hs1 & _).
    rewrite E in E1. injection E1 as ->. by exists hs.
Qed.

Lemma db_steps_inv s s' hs : rtc db_step s s' → state_inv s hs → ∃ hs', state_inv s' hs'.
Proof.
  intros Hsteps. revert hs. induction Hsteps as [s|s s1 s' Hstep _ IH]; intros hs Hs; [by exists hs|].
  destruct (db_step_inv s s1 hs Hstep Hs) as [hs1 Hs1]. by apply (IH hs1).
Qed.

(** An empty database holds the empty chain. *)
Lemma empty_chain (t : T) : (∀ k, kv_view t k = None) → chain_inv (kv_view t) best_block_default [].
Proof.
  intros E. split; unfold v_hash, v_number, v_block, v_meta; try done.
  - intros n. rewrite E. by destruct (0 <=? n).
  - intros h n. rewrite E. split; [done|]. by intros [_ ?].
  - intros h x. by rewrite E.
  - exists None. by rewrite !E.
Qed.

(** C2: a database that was empty when it was opened always holds a chain:
    after any sequence of insertions of blocks with a non-zero hash,
    canonizations while the best number is below [2 ^ 32 - 1], decanonizations
    and reopenings, each of which answered (with success or an error) and did
    not panic, the number and hash columns index one list of linked blocks both
    ways and the best block, in memory and in the meta entries, is its last; in
    particular the check the verifier and the origin computation assert holds
    whenever the chain is not empty. *)
Theorem reachable_chain t s0 s : kv_valid t → (∀ k, kv_view t k = None) → open t = Some s0 →
  rtc db_step s0 s →
  ∃ hs, state_inv s hs ∧
    (hs ≠ [] → v_hash (db_view s) (bb_number (bc_best_block s)) = Some (bb_hash (bc_best_block s))) ∧
    ∀ i h, hs !! i = Some h →
      v_hash (db_view s) (Z.of_nat i) = Some h ∧ v_number (db_view s) h = Some (Z.of_nat i).
Proof.
  intros Ht Hempty Hopen Hsteps.
  destruct (open_spec t _ [] Ht (empty_chain t Hempty)) as (s1 & E1 & Hs1 & _).
  rewrite Hopen in E1. injection E1 as <-.
  destruct (db_steps_inv s0 s [] Hsteps Hs1) as [hs Hs]. exists hs. split; [done|].
  destruct Hs as [_ Hi]. split.
  - intros Hne. rewrite (ci_best _ _ _ Hi). destruct hs as [|h hs _] using rev_ind; [done|].
    rewrite best_of_snoc. simpl. rewrite (ci_hash_nat _ _ _ _ Hi).
    by rewrite lookup_app_r, Nat.sub_diag by lia.
  - intros i h Hh. rewrite (ci_hash_nat _ _ _ _ Hi). split; [done|]. by apply (ci_number_nat _ _ _ _ _ Hi).
Qed.

(** Insertion is idempotent and keeps the chain.  A block that is already
    stored is accepted without change, a block whose parent is neither stored
    nor zero is refused with [UnknownParent] without change, any other block
    is stored as it is, and nothing else changes. *)
Theorem insert_exact s hs blk : state_inv s hs → ib_hash blk ≠ hash_default →
  let h := ib_hash blk in
  let parent := previous_header_hash (ih_raw (ib_header blk)) in
  ∃ s', if v_contains (db_view s) h then db_insert blk s = Some (Ok tt, s') ∧ unchanged s s'
        else if negb (v_contains (db_view s) parent) && negb (is_zero parent)
             then db_insert blk s = Some (Err UnknownParent, s') ∧ unchanged s s'
             else db_insert blk s = Some (Ok tt, s') ∧ state_inv s' hs ∧
                  v_full (db_view s') (RefHash h) = Some blk ∧
                  ∀ k, k ≠ KeyBlock h → db_view s' k = db_view s k.
Proof.
  intros Hs Hne h parent. destruct (insert_spec s hs blk Hs Hne) as (s' & Hif). exists s'.
  fold h in Hif. change (parent_of (block_of blk)) with parent in Hif.
  destruct (v_contains (db_view s) h); [done|]. destruct (_ && _); [done|].
  destruct Hif as (E & Hs' & Hview). split_and!; try done.
  - destruct blk as [[bh raw] proof]. unfold v_full, v_stored. simpl. rewrite Hview.
    by rewrite decide_True.
  - intros k Hk. by rewrite Hview, decide_False.
Qed.

Lemma ci_best_contained v best hs : chain_inv v best hs → hs ≠ [] → v_contains v (bb_hash best) = true.
Proof.
  intros Hi Hne. destruct hs as [|h hs _] using rev_ind; [done|].
  rewrite (ci_best _ _ _ Hi), best_of_snoc. simpl.
  destruct (ci_link _ _ _ Hi (length hs) h) as (b & Hb & _).
  { by rewrite lookup_app_r, Nat.sub_diag by lia. }
  unfold v_contains, v_block in *. apply bool_decide_eq_true. by destruct (v (KeyBlock h)).
Qed.

(** The checks in front of the search for the fork point. *)
Lemma block_origin_checks s hs header :
  state_inv s hs → Z.of_nat (length hs) < 2 ^ 32 → hs ≠ [] →
  let parent := previous_header_hash (ih_raw header) in
  ∃ s', unchanged s s' ∧ block_origin header s =
    if v_contains (db_view s) (ih_hash header) then Some (Ok KnownBlock, s')
    else if hash_eq (bb_hash (bc_best_block s)) parent
    then Some (Ok (CanonChain (Z.of_nat (length hs))), s')
    else if negb (v_contains (db_view s) parent) then Some (Err UnknownParent, s')
    else origin_loop MAX_FORK_ROUTE_PRESET (best_of hs) 0 [] parent s'.
Proof.
  intros Hs Hlen Hne parent. pose proof Hs as [Hv Hi]. unfold block_origin.
  run_read (reads_get_best (T:=T)) Hv s1 Hs1.
  run_read (reads_block_hash (T:=T) (bb_number (bc_best_block s))) (proj1 Hs1) s2 Hs2.
  pose proof (unchanged_trans _ _ _ Hs1 Hs2) as Hs02. destruct Hs1 as (_ & _ & ->).
  rewrite (ci_best _ _ _ Hi).
  destruct hs as [|h0 hs0 _] using rev_ind; [done|]. rewrite best_of_snoc. cbn [bb_hash bb_number].
  rewrite (ci_hash_nat _ _ _ _ Hi), lookup_app_r, Nat.sub_diag by lia. cbn [lookup list_lookup].
  rewrite bool_decide_true by done.
  run_read (reads_lift (T:=T) (Some tt)) (proj1 Hs02) s3 Hs3.
  pose proof (unchanged_trans _ _ _ Hs02 Hs3) as Hs03.
  run_read (reads_contains_block (T:=T) (ih_hash header)) (proj1 Hs03) s4 Hs4.
  pose proof (unchanged_trans _ _ _ Hs03 Hs4) as Hs04. destruct Hs03 as (_ & _ & ->). fold parent.
  destruct (v_contains (db_view s) (ih_hash header)); [by exists s4|].
  rewrite length_app in Hlen |- *. cbn [length] in Hlen |- *.
  destruct (hash_eq h0 parent).
  - rewrite u32_add_fits by (unfold fits; lia).
    run_read (reads_lift (T:=T) (Some (Z.of_nat (length hs0) + 1))) (proj1 Hs04) s5 Hs5.
    exists s5. split; [by eapply unchanged_trans|].
    by replace (Z.of_nat (length hs0) + 1) with (Z.of_nat (length hs0 + 1)) by lia.
  - run_read (reads_contains_block (T:=T) parent) (proj1 Hs04) s5 Hs5.
    pose proof (unchanged_trans _ _ _ Hs04 Hs5) as Hs05. destruct Hs04 as (_ & _ & ->).
    exists s5. split; [done|]. by destruct (v_contains (db_view s) parent).
Qed.

(** A block whose parent is stored: the origin is found from any description of
    the side route. *)
Lemma block_origin_side s hs header a anc route :
  state_inv s hs → Z.of_nat (length hs) < 2 ^ 32 → hs ≠ [] →
  let parent := previous_header_hash (ih_raw header) in
  v_contains (db_view s) (ih_hash header) = false → v_contains (db_view s) parent = true →
  hs !! a = Some anc → linked_from (db_view s) anc route → (∀ h, h ∈ route → h ∉ hs) →
  Z.of_nat (a + length route + 1) < 2 ^ 32 → parent = tip anc route →
  ∃ s', block_origin header s =
      Some (if decide (parent = bb_hash (bc_best_block s)) then Ok (CanonChain (Z.of_nat (length hs)))
            else if decide (length route < MAX_FORK_ROUTE_PRESET)%nat then Ok (side_origin a route hs)
            else Err AncientFork, s') ∧ unchanged s s'.
Proof.
  intros Hs Hlen Hne parent Hk Hc Ha Hl Hout Hfit Htip.
  destruct (block_origin_checks s hs header Hs Hlen Hne) as (s1 & Hs1 & E). fold parent in E.
  rewrite Hk, Hc in E. cbn [negb] in E.
  destruct (hash_eq _ parent) eqn:Eb.
  - apply hash_eq_true in Eb. rewrite decide_True by done. by exists s1.
  - rewrite decide_False by (intros Heq; symmetry in Heq; apply hash_eq_true in Heq; congruence).
    destruct (origin_loop_spec s1 hs a anc MAX_FORK_ROUTE_PRESET route []) as (s2 & Hs2 & E2);
      [by eapply unchanged_inv|done| |done|done|simpl; lia|].
    { by destruct Hs1 as (_ & _ & ->). }
    rewrite <-Htip, app_nil_r in E2. exists s2. split; [by rewrite E|by eapply unchanged_trans].
Qed.

(** C12: the origin of a header.  A stored header is [KnownBlock]; a header
    whose parent is not stored is refused with [UnknownParent].  When the
    parent is reached from block number [a] of the chain by a side route of
    stored blocks, the origin is the canonical chain if the parent is the best
    block, and otherwise names [a], the side route and the canonical blocks
    above [a], each from oldest to newest, and the new block's number, and
    says that the side chain becomes canonical exactly when that number
    exceeds the best one; routes of 2048 blocks or more are refused as
    [AncientFork].  Nothing changes. *)
Theorem block_origin_exact s hs header :
  state_inv s hs → Z.of_nat (length hs) < 2 ^ 32 → hs ≠ [] →
  let known := v_contains (db_view s) (ih_hash header) in
  let parent := previous_header_hash (ih_raw header) in
  (known = true → ∃ s', block_origin header s = Some (Ok KnownBlock, s') ∧ unchanged s s') ∧
  (known = false → v_contains (db_view s) parent = false →
     ∃ s', block_origin header s = Some (Err UnknownParent, s') ∧ unchanged s s') ∧
  (∀ a anc route, known = false → v_contains (db_view s) parent = true →
     hs !! a = Some anc → linked_from (db_view s) anc route → (∀ h, h ∈ route → h ∉ hs) →
     Z.of_nat (a + length route + 1) < 2 ^ 32 → parent = tip anc route →
     ∃ s', block_origin header s =
         Some (if decide (parent = bb_hash (bc_best_block s)) then Ok (CanonChain (Z.of_nat (length hs)))
               else if decide (length route < MAX_FORK_ROUTE_PRESET)%nat then Ok (side_origin a route hs)
               else Err AncientFork, s') ∧ unchanged s s').
Proof.
  intros Hs Hlen Hne known parent.
  destruct (block_origin_checks s hs header Hs Hlen Hne) as (s1 & Hs1 & E). fold known parent in E.
  split_and!.
  - intros Hk. rewrite Hk in E. by exists s1.
  - intros Hk Hc. rewrite Hk, Hc in E. destruct (hash_eq _ parent) eqn:Eb; [|by exists s1].
    apply hash_eq_true in Eb. rewrite <-Eb in Hc.
    by rewrite (ci_best_contained _ _ _ (proj2 Hs) Hne) in Hc.
  - intros a anc route. by apply block_origin_side.
Qed.
End generic.

(** ** Forks *)

Section forks.
Context {T : Type} {K : KeyValueDatabase T} {KS : KvSpec T}.

(** The side chain of an origin that [block_origin] computes. *)
Definition side_chain_of (a : nat) (route hs : list H256) : SideChainOrigin :=
  mkSideChainOrigin (Z.of_nat a) route (drop (S a) hs) (Z.of_nat (a + length route + 1)).

Lemma fork_spec (s : BlockChainDatabase T) hs a anc route :
  state_inv s hs → hs !! a = Some anc → linked_from (db_view s) anc route →
  Z.of_nat (S a + length route) ≤ 2 ^ 32 →
  ∃ f, fork s (side_chain_of a route hs) = Some (Ok f) ∧
    state_inv (fork_blockchain T f) (take (S a) hs ++ route) ∧
    (∀ h, db_view (fork_blockchain T f) (KeyBlock h) = db_view s (KeyBlock h)).
Proof.
  intros [Hv Hi] Ha Hl Hlen. unfold fork.
  pose proof (lookup_lt_Some _ _ _ Ha) as Hlt.
  destruct (open_spec (T:=OverlayDatabase T) (overlay_new (bc_db s)) (bc_best_block s) hs)
    as (s0 & -> & Hs0 & Ev0 & _).
  { exact Hv. } { by rewrite overlay_new_view. }
  rewrite overlay_new_view in Ev0. cbn [mbind option_bind side_chain_of decanonized_route canonized_route].
  rewrite <-(take_drop (S a) hs) in Hs0 at 1.
  destruct (decanonize_route_spec s0 (take (S a) hs) (drop (S a) hs) Hs0) as (s1 & -> & Hs1 & Hb1).
  cbn [mbind option_bind].
  destruct (canonize_route_spec s1 (take (S a) hs) route Hs1) as (s2 & -> & Hs2 & Hb2).
  - rewrite (ci_best _ _ _ (proj2 Hs1)), (take_S_r _ _ _ Ha), best_of_snoc. cbn [bb_hash].
    apply (linked_from_blocks (db_view s)); [|done]. intros h. rewrite Hb1, Ev0. done.
  - rewrite length_take. lia.
  - cbn [mbind option_bind]. eexists. split; [reflexivity|]. split; [done|].
    intros h. cbn [fork_blockchain]. rewrite Hb2, Hb1, Ev0. done.
Qed.

(** Adopting a fork: the database becomes what the fork shows. *)
Lemma switch_spec (s : BlockChainDatabase T) (f : ForkChainDatabase T) hs :
  state_inv (fork_blockchain T f) hs →
  ∃ s', switch_to_fork s f = (Ok tt, s') ∧ state_inv s' hs ∧
    db_view s' = db_view (fork_blockchain T f) ∧
    bc_best_block s' = bc_best_block (fork_blockchain T f).
Proof.
  intros Hf. destruct (overlay_flush_spec (bc_db (fork_blockchain T f)) (proj1 Hf))
    as (o' & Eo & _ & _ & Eview & Hv').
  exists (mkBlockChainDatabase (bc_best_block (fork_blockchain T f)) (ov_db o')).
  assert (db_view (mkBlockChainDatabase (bc_best_block (fork_blockchain T f)) (ov_db o')) =
    db_view (fork_blockchain T f)) as Ev by exact Eview.
  split_and!; [unfold switch_to_fork; by rewrite Eo| |exact Ev|done].
  split; [exact Hv'|]. rewrite Ev. apply Hf.
Qed.

(** C3: reorganization.  A fork made for a side chain that branches off at
    block [a] holds the chain up to [a] followed by the side chain, whose
    blocks are the stored ones; making it does not touch the database.
    Switching to it succeeds and leaves the database itself, also after it is
    opened again, with exactly that chain. *)
Theorem fork_and_switch (s : BlockChainDatabase T) hs a anc route :
  state_inv s hs → hs !! a = Some anc → linked_from (db_view s) anc route →
  Z.of_nat (S a + length route) ≤ 2 ^ 32 →
  ∃ f s' s'', fork s (side_chain_of a route hs) = Some (Ok f) ∧
    state_inv (fork_blockchain T f) (take (S a) hs ++ route) ∧
    switch_to_fork s f = (Ok tt, s') ∧ state_inv s' (take (S a) hs ++ route) ∧
    (∀ h, db_view s' (KeyBlock h) = db_view s (KeyBlock h)) ∧
    open (bc_db s') = Some s'' ∧ state_inv s'' (take (S a) hs ++ route) ∧
    bc_best_block s'' = bc_best_block (fork_blockchain T f).
Proof.
  intros Hs Ha Hl Hlen.
  destruct (fork_spec s hs a anc route Hs Ha Hl Hlen) as (f & Ef & Hf & Hb).
  destruct (switch_spec s f _ Hf) as (s' & Es & Hs' & Ev & Eb).
  destruct (open_spec (bc_db s') (bc_best_block s') _ (proj1 Hs') (proj2 Hs')) as (s'' & E'' & Hs'' & _ & Eb'').
  exists f, s', s''. split_and!; try done; try apply Hf; try apply Hs'; try apply Hs''.
  - intros h. rewrite Ev. apply Hb.
  - by rewrite Eb''.
Qed.
End forks.
End ops.

(** ** A concrete database: one canonical block and a stored child of it *)

Section chain_examples.
Import Reference.
#[local] Instance checked_db : Profile := true.

Definition ex_h0 : H256 := hash_from_u8 1.
Definition ex_h1 : H256 := hash_from_u8 2.
Definition ex_h2 : H256 := hash_from_u8 3.

Definition ex_block (previous : H256) : Block :=
  mkBlock (mkBlockHeader 1 previous 4 (mkCompact 5) example_key 1024 3) [].

Definition ex_ops : list Operation :=
  [OpInsert (KvBlock ex_h0 (ex_block hash_default))] ++ canonize_ops 0 ex_h0 ++
  [OpInsert (KvBlock ex_h1 (ex_block ex_h0))].

Definition ex_state : BlockChainDatabase MemoryDatabase :=
  mkBlockChainDatabase (mkBestBlock 0 ex_h0) (foldl memory_apply memory_default ex_ops).

(** The child of the stored child. *)
Definition ex_new : IndexedBlock :=
  mkIndexedBlock (mkIndexedBlockHeader ex_h2 (block_header (ex_block ex_h1))) [].

Lemma ex_hashes : ex_h0 ≠ hash_default ∧ ex_h1 ≠ hash_default ∧ ex_h2 ≠ hash_default ∧
  ex_h1 ≠ ex_h0 ∧ ex_h2 ≠ ex_h0 ∧ ex_h2 ≠ ex_h1.
Proof. split_and!; intros E; apply (f_equal hash_bytes) in E; vm_compute in E; discriminate E. Qed.

Lemma ex_view : db_view ex_state = apply_ops (kv_view memory_default) ex_ops.
Proof.
  destruct (kv_write_spec (KvSpec:=memory_spec) (mkTransaction ex_ops) memory_default I) as (t' & E & _ & Hview).
  injection E as <-. exact Hview.
Qed.

Lemma ex_inv : state_inv ex_state [ex_h0].
Proof.
  split; [exact I|]. rewrite ex_view. unfold ex_ops. rewrite !apply_ops_app.
  destruct ex_hashes as (H0 & H1 & _ & H10 & _).
  assert (chain_inv (kv_view memory_default) best_block_default []) as Hi0.
  { apply empty_chain. intros k. by destruct k. }
  apply inv_insert; [|done|].
  - apply (inv_canonize _ best_block_default [] ex_h0 (ex_block hash_default));
      [apply inv_insert; [done|done|done]| |done|done].
    unfold v_block. rewrite insert_view, decide_True by done. done.
  - rewrite (proj1 (proj2 (proj2 (canonize_view _ 0 ex_h0)))).
    rewrite insert_view, decide_False by congruence. done.
Qed.

Lemma ex_blocks : v_block (db_view ex_state) ex_h1 = Some (ex_block ex_h0) ∧
  v_contains (db_view ex_state) ex_h1 = true ∧ v_contains (db_view ex_state) ex_h2 = false.
Proof.
  destruct ex_hashes as (_ & _ & _ & _ & H20 & H21). rewrite ex_view. unfold ex_ops.
  rewrite !apply_ops_app. unfold v_block, v_contains.
  split_and!; rewrite ?insert_view; [by rewrite decide_True..|].
  rewrite decide_False by congruence.
  rewrite (proj1 (proj2 (proj2 (canonize_view _ 0 ex_h0)))).
  rewrite insert_view, decide_False by congruence. done.
Qed.

Lemma ex_stored h : v_block (db_view ex_state) h =
  if decide (h = ex_h1) then Some (ex_block ex_h0) else if decide (h = ex_h0) then Some (ex_block hash_default) else None.
Proof.
  rewrite ex_view. unfold ex_ops. rewrite !apply_ops_app. unfold v_block. rewrite insert_view.
  destruct (decide (h = ex_h1)) as [->|Hh1]; [by rewrite decide_True|]. rewrite decide_False by congruence.
  rewrite (proj1 (proj2 (proj2 (canonize_view _ 0 ex_h0)))), insert_view.
  destruct (decide (h = ex_h0)) as [->|Hh0]; [by rewrite decide_True|]. by rewrite decide_False by congruence.
Qed.

Lemma canonize_exact_witness :
  ∃ s' s'', canonize ex_h1 ex_state = Some (Ok tt, s') ∧ decanonize s' = Some (Ok ex_h1, s'').
Proof.
  pose proof (canonize_exact ex_state [ex_h0] ex_h1 ex_inv eq_refl) as Hex.
  rewrite (proj1 ex_blocks) in Hex. rewrite decide_True in Hex by reflexivity.
  destruct Hex as (s' & s'' & E' & _ & _ & _ & E'' & _).
  exists s', s''. split; [exact E'|exact E''].
Defined.

(** A genesis block and a child are inserted and made canonical, the child is
    taken back, and the database is opened again. *)
Definition ex_genesis_block : IndexedBlock := mkIndexedBlock (mkIndexedBlockHeader ex_h0 (block_header (ex_block hash_default))) [].
Definition ex_child_block : IndexedBlock := mkIndexedBlock (mkIndexedBlockHeader ex_h1 (block_header (ex_block ex_h0))) [].

Definition ex_opened : BlockChainDatabase MemoryDatabase := mkBlockChainDatabase best_block_default memory_default.

Definition ex_steps : option (BlockChainDatabase MemoryDatabase) :=
  '(_, s) ← db_insert ex_genesis_block ex_opened; '(_, s) ← canonize ex_h0 s;
  '(_, s) ← db_insert ex_child_block s; '(_, s) ← canonize ex_h1 s;
  '(_, s) ← decanonize s; open (bc_db s).

(** A sequence of steps that answers takes the steps one after the other. *)
Lemma ex_steps_taken s : ex_steps = Some s → rtc db_step ex_opened s.
Proof.
  unfold ex_steps. intros E. apply bind_Some in E as ([r1 s1] & E1 & E). apply bind_Some in E as ([r2 s2] & E2 & E).
  apply bind_Some in E as ([r3 s3] & E3 & E). apply bind_Some in E as ([r4 s4] & E4 & E). apply bind_Some in E as ([r5 s5] & E5 & E).
  assert ((s ← ('(_, s) ← db_insert ex_genesis_block ex_opened; Some s); Some (bb_number (bc_best_block s))) = Some 0) as N1 by (vm_compute; reflexivity).
  assert ((s ← ('(_, s) ← db_insert ex_genesis_block ex_opened; '(_, s) ← canonize ex_h0 s; '(_, s) ← db_insert ex_child_block s; Some s);
    Some (bb_number (bc_best_block s))) = Some 0) as N3 by (vm_compute; reflexivity).
  rewrite E1 in N1, N3. cbn [mbind option_bind] in N1, N3. rewrite E2 in N3. cbn [mbind option_bind] in N3. rewrite E3 in N3.
  cbn [mbind option_bind] in N3. injection N1 as N1. injection N3 as N3.
  eapply rtc_l; [eapply (step_insert _ ex_genesis_block); [apply ex_hashes|exact E1]|].
  eapply rtc_l; [eapply (step_canonize _ ex_h0); [rewrite N1; done|exact E2]|].
  eapply rtc_l; [eapply (step_insert _ ex_child_block); [apply ex_hashes|exact E3]|].
  eapply rtc_l; [eapply (step_canonize _ ex_h1); [rewrite N3; done|exact E4]|].
  eapply rtc_l; [eapply step_decanonize; exact E5|]. eapply rtc_once, step_reopen. exact E.
Qed.

Lemma reachable_chain_witness : ∃ s hs, ex_steps = Some s ∧ state_inv s hs ∧
  v_hash (db_view s) 0 = Some ex_h0 ∧ v_hash (db_view s) 1 = None ∧ hs = [ex_h0].
Proof.
  assert ((s ← ex_steps; Some (bc_best_block s)) = Some (mkBestBlock 0 ex_h0)) as Eb by (vm_compute; reflexivity).
  destruct ex_steps as [s|] eqn:E; [|discriminate Eb]. cbn [mbind option_bind] in Eb. injection Eb as Eb.
  destruct (reachable_chain (KS:=memory_spec) memory_default ex_opened s I
    ltac:(intros k; by destruct k) eq_refl (ex_steps_taken s E)) as (hs & Hs & _ & Hi).
  assert (hs = [ex_h0]) as Ehs.
  { pose proof (ci_best _ _ _ (proj2 Hs)) as Ebest. rewrite Eb in Ebest. destruct hs as [|h hs _] using rev_ind; [discriminate Ebest|].
    rewrite best_of_snoc in Ebest. destruct hs; cbn in Ebest; [by injection Ebest as ->|injection Ebest; lia]. }
  exists s, hs. split; [reflexivity|]. split; [exact Hs|]. pose proof (ci_hash_nat _ _ _ 1 (proj2 Hs)) as E1. rewrite Ehs in Hi, E1.
  split; [exact (proj1 (Hi O ex_h0 eq_refl))|]. split; [exact E1|exact Ehs].
Defined.

Lemma insert_exact_witness : ∃ s', db_insert ex_new ex_state = Some (Ok tt, s').
Proof.
  destruct (insert_exact ex_state [ex_h0] ex_new ex_inv (proj1 (proj2 (proj2 ex_hashes))))
    as (s' & Hs').
  change (ib_hash ex_new) with ex_h2 in Hs'.
  change (previous_header_hash (ih_raw (ib_header ex_new))) with ex_h1 in Hs'.
  rewrite (proj2 (proj2 ex_blocks)), (proj1 (proj2 ex_blocks)) in Hs'.
  exists s'. exact (proj1 Hs').
Defined.

Lemma ex_linked : linked_from (db_view ex_state) ex_h0 [ex_h1].
Proof. split; [|exact I]. exists (ex_block ex_h0). split; [apply ex_blocks|reflexivity]. Qed.

Lemma block_origin_exact_witness :
  ∃ s', block_origin (ib_header ex_new) ex_state =
    Some (Ok (SideChainBecomingCanonChain (mkSideChainOrigin 0 [ex_h1] [] 2)), s').
Proof.
  destruct (proj2 (proj2 (block_origin_exact ex_state [ex_h0] (ib_header ex_new) ex_inv eq_refl
    ltac:(discriminate))) 0%nat ex_h0 [ex_h1]) as (s' & E & _).
  - exact (proj2 (proj2 ex_blocks)).
  - exact (proj1 (proj2 ex_blocks)).
  - reflexivity.
  - exact ex_linked.
  - intros h Hh. apply list_elem_of_singleton in Hh as ->. intros Hin.
    apply list_elem_of_singleton in Hin. by apply ex_hashes.
  - reflexivity.
  - reflexivity.
  - exists s'. rewrite E. rewrite decide_False by apply ex_hashes.
    rewrite decide_True by (apply Nat.ltb_lt; reflexivity). reflexivity.
Defined.

Lemma fork_and_switch_witness :
  ∃ f s', fork ex_state (mkSideChainOrigin 0 [ex_h1] [] 2) = Some (Ok f) ∧
    switch_to_fork ex_state f = (Ok tt, s').
Proof.
  destruct (fork_and_switch ex_state [ex_h0] 0 ex_h0 [ex_h1] ex_inv eq_refl ex_linked)
    as (f & s' & s'' & Ef & _ & Es & _); [discriminate|].
  exists f, s'. split; [exact Ef|exact Es].
Defined.
End chain_examples.
