(* ===== verification/HashQueue.v ===== *)
(** * Queues of hashes ([sync/src/utils/hash_queue.rs])

    A [HashQueue] keeps its elements twice: in order, in a deque, and as a set
    for constant-time membership.  It is verified against the plain list without
    repetitions that it stands for.  A [HashQueueChain] is a fixed number of such
    queues; positions run through all of them in order.  [None] is a panic. *)

From S2P Require Import Prelude External Primitives.

(** src: sync/src/utils/hash_queue.rs 6-15 HashPosition *)
Inductive HashPosition :=
| Missing
| Front
| Inside (position : Z).

#[global] Instance HashPosition_eq_dec : EqDecision HashPosition.
Proof. solve_decision. Defined.

(** src: sync/src/utils/hash_queue.rs 17-22 HashQueue *)
Record HashQueue := mkHashQueue { hq_queue : list H256; hq_set : gset H256 }.

(** The struct [HashQueueChain] has one field, the vector of its queues. *)
Abbreviation HashQueueChain := (list HashQueue).

(** ** The operations of a queue *)

(** src: sync/src/utils/hash_queue.rs 31-36 new *)
Definition hq_new : HashQueue := mkHashQueue [] ∅.

(** src: sync/src/utils/hash_queue.rs 38-42 clear *)
Definition hq_clear (q : HashQueue) : HashQueue := mkHashQueue [] ∅.

(** src: sync/src/utils/hash_queue.rs 44-47 len *)
Definition hq_len (q : HashQueue) : Z := wrap 32 (Z.of_nat (length (hq_queue q))).

(** src: sync/src/utils/hash_queue.rs 49-52 front *)
Definition hq_front (q : HashQueue) : option H256 := head (hq_queue q).

(** src: sync/src/utils/hash_queue.rs 54-57 back *)
Definition hq_back (q : HashQueue) : option H256 := list.last (hq_queue q).

(** src: sync/src/utils/hash_queue.rs 59-66 position *)
Definition hq_position (q : HashQueue) (hash : H256) : option Z :=
  (λ '(pos, _), wrap 32 (Z.of_nat pos)) <$> list_find (λ h, hash = h) (hq_queue q).

(** src: sync/src/utils/hash_queue.rs 68-71 at *)
Definition hq_at (q : HashQueue) (position : Z) : option H256 :=
  hq_queue q !! Z.to_nat position.

(** src: sync/src/utils/hash_queue.rs 73-80 pre_back *)
Definition hq_pre_back (q : HashQueue) : option H256 :=
  let queue_len := length (hq_queue q) in
  if (queue_len <=? 1)%nat then None else hq_queue q !! (queue_len - 2)%nat.

(** src: sync/src/utils/hash_queue.rs 82-85 contains *)
Definition hq_contains (q : HashQueue) (hash : H256) : bool := bool_decide (hash ∈ hq_set q).

(** src: sync/src/utils/hash_queue.rs 87-90 front_n *)
Definition hq_front_n (q : HashQueue) (n : Z) : list H256 := take (Z.to_nat n) (hq_queue q).

(** src: sync/src/utils/hash_queue.rs 92-101 pop_front *)
Definition hq_pop_front (q : HashQueue) : option H256 * HashQueue :=
  match hq_queue q with
  | hash :: queue => (Some hash, mkHashQueue queue (hq_set q ∖ {[hash]}))
  | [] => (None, q)
  end.

(** The loop of [pop_front_n], with [result] as it grows. *)
Fixpoint hq_pop_front_loop (n : nat) (result : list H256) (q : HashQueue) : list H256 * HashQueue :=
  match n with
  | O => (result, q)
  | S n =>
      match hq_pop_front q with
      | (Some hash, q) => hq_pop_front_loop n (result ++ [hash]) q
      | (None, q) => (result, q)
      end
  end.

(** src: sync/src/utils/hash_queue.rs 103-113 pop_front_n *)
Definition hq_pop_front_n (q : HashQueue) (n : Z) : list H256 * HashQueue :=
  hq_pop_front_loop (Z.to_nat n) [] q.

(** src: sync/src/utils/hash_queue.rs 115-124 pop_back *)
Definition hq_pop_back (q : HashQueue) : option H256 * HashQueue :=
  match list.last (hq_queue q) with
  | Some hash =>
      (Some hash, mkHashQueue (take (length (hq_queue q) - 1) (hq_queue q)) (hq_set q ∖ {[hash]}))
  | None => (None, q)
  end.

(** src: sync/src/utils/hash_queue.rs 126-132 push_back *)
Definition hq_push_back (q : HashQueue) (hash : H256) : option HashQueue :=
  if decide (hash ∈ hq_set q) then None
  else Some (mkHashQueue (hq_queue q ++ [hash]) ({[hash]} ∪ hq_set q)).

(** src: sync/src/utils/hash_queue.rs 134-139 push_back_n *)
Fixpoint hq_push_back_n (q : HashQueue) (hashes : list H256) : option HashQueue :=
  match hashes with
  | [] => Some q
  | hash :: hashes => q ← hq_push_back q hash; hq_push_back_n q hashes
  end.

(** src: sync/src/utils/hash_queue.rs 141-161 remove *)
Definition hq_remove (q : HashQueue) (hash : H256) : option (HashPosition * HashQueue) :=
  if negb (bool_decide (hash ∈ hq_set q)) then Some (Missing, q)
  else
    let set := hq_set q ∖ {[hash]} in
    match hq_queue q with
    | [] => None
    | front :: rest =>
        if decide (front = hash) then Some (Front, mkHashQueue rest set)
        else
          match list_find (λ h, h = hash) (hq_queue q) with
          | Some (i, _) =>
              Some (Inside (wrap 32 (Z.of_nat i)), mkHashQueue (delete i (hq_queue q)) set)
          | None => None
          end
    end.

(** src: sync/src/utils/hash_queue.rs 163-169 remove_all *)
Definition hq_remove_all (q : HashQueue) : list H256 * HashQueue :=
  (hq_queue q, mkHashQueue [] ∅).

(** src: sync/src/utils/hash_queue.rs 172-178 index *)
Definition hq_index (q : HashQueue) (index : Z) : option H256 := hq_queue q !! Z.to_nat index.

(** ** The operations of a chain of queues *)

(** src: sync/src/utils/hash_queue.rs 181-187 with_number_of_queues *)
Definition hqc_with_number_of_queues (number_of_queues : nat) : option HashQueueChain :=
  _ ← rust_assert (negb (number_of_queues =? 0)%nat);
  Some (replicate number_of_queues hq_new).

(** src: sync/src/utils/hash_queue.rs 189-194 len *)
Definition hqc_len {P : Profile} (c : HashQueueChain) : option Z :=
  foldl (λ total chain, total ← total; u32_add total (hq_len chain)) (Some 0) c.

(** src: sync/src/utils/hash_queue.rs 196-199 len_of *)
Definition hqc_len_of (c : HashQueueChain) (queue_index : nat) : option Z :=
  hq_len <$> c !! queue_index.

(** src: sync/src/utils/hash_queue.rs 201-213 at *)
Fixpoint hqc_at (c : HashQueueChain) (index : Z) : option H256 :=
  match c with
  | [] => None
  | queue :: c =>
      if index <? hq_len queue then hq_at queue index else hqc_at c (index - hq_len queue)
  end.

(** src: sync/src/utils/hash_queue.rs 215-219 front_at *)
Definition hqc_front_at (c : HashQueueChain) (queue_index : nat) : option (option H256) :=
  hq_front <$> c !! queue_index.

(** src: sync/src/utils/hash_queue.rs 221-225 back_at *)
Definition hqc_back_at (c : HashQueueChain) (queue_index : nat) : option (option H256) :=
  hq_back <$> c !! queue_index.

(** src: sync/src/utils/hash_queue.rs 227-231 pre_back_at *)
Definition hqc_pre_back_at (c : HashQueueChain) (chain_index : nat) : option (option H256) :=
  hq_pre_back <$> c !! chain_index.

(** The loop of [back].  Below queue 0 the subtraction panics, or wraps to an
    index that panics in the next round. *)
Fixpoint hqc_back_loop (c : HashQueueChain) (queue_index : nat) : option (option H256) :=
  queue ← c !! queue_index;
  match hq_back queue with
  | Some hash => Some (Some hash)
  | None =>
      match queue_index with
      | O => None
      | S O => Some None
      | S queue_index => hqc_back_loop c queue_index
      end
  end.

(** src: sync/src/utils/hash_queue.rs 233-248 back *)
Definition hqc_back (c : HashQueueChain) : option (option H256) :=
  match c with [] => None | _ => hqc_back_loop c (length c - 1) end.

(** src: sync/src/utils/hash_queue.rs 250-254 is_contained_in *)
Definition hqc_is_contained_in (c : HashQueueChain) (queue_index : nat) (hash : H256) : option bool :=
  (λ queue, hq_contains queue hash) <$> c !! queue_index.

(** src: sync/src/utils/hash_queue.rs 256-264 contains_in *)
Definition hqc_contains_in (c : HashQueueChain) (hash : H256) : option nat :=
  fst <$> list_find (λ queue, hq_contains queue hash = true) c.

(** src: sync/src/utils/hash_queue.rs 266-269 front_n_at *)
Definition hqc_front_n_at (c : HashQueueChain) (queue_index : nat) (n : Z) : option (list H256) :=
  (λ queue, hq_front_n queue n) <$> c !! queue_index.

(** src: sync/src/utils/hash_queue.rs 271-274 pop_front_n_at *)
Definition hqc_pop_front_n_at (c : HashQueueChain) (queue_index : nat) (n : Z) :
    option (list H256 * HashQueueChain) :=
  queue ← c !! queue_index;
  let '(popped, queue) := hq_pop_front_n queue n in
  Some (popped, <[queue_index := queue]> c).

(** src: sync/src/utils/hash_queue.rs 276-279 push_back_at *)
Definition hqc_push_back_at (c : HashQueueChain) (queue_index : nat) (hash : H256) :
    option HashQueueChain :=
  queue ← c !! queue_index;
  queue ← hq_push_back queue hash;
  Some (<[queue_index := queue]> c).

(** src: sync/src/utils/hash_queue.rs 281-284 push_back_n_at *)
Definition hqc_push_back_n_at (c : HashQueueChain) (queue_index : nat) (hashes : list H256) :
    option HashQueueChain :=
  queue ← c !! queue_index;
  queue ← hq_push_back_n queue hashes;
  Some (<[queue_index := queue]> c).

(** src: sync/src/utils/hash_queue.rs 286-289 remove_at *)
Definition hqc_remove_at (c : HashQueueChain) (queue_index : nat) (hash : H256) :
    option (HashPosition * HashQueueChain) :=
  queue ← c !! queue_index;
  '(position, queue) ← hq_remove queue hash;
  Some (position, <[queue_index := queue]> c).

(** src: sync/src/utils/hash_queue.rs 291-294 remove_all_at *)
Definition hqc_remove_all_at (c : HashQueueChain) (queue_index : nat) :
    option (list H256 * HashQueueChain) :=
  queue ← c !! queue_index;
  let '(removed, queue) := hq_remove_all queue in
  Some (removed, <[queue_index := queue]> c).

(** src: sync/src/utils/hash_queue.rs 297-312 index *)
Fixpoint hqc_index (c : HashQueueChain) (index : Z) : option H256 :=
  match c with
  | [] => None
  | queue :: c =>
      if index <? hq_len queue then hq_index queue index else hqc_index c (index - hq_len queue)
  end.

(** ** The queue a list without repetitions *)

(** A queue stands for the list [l]: the deque is [l], which has no repetition
    and exactly the elements of the set. *)
Definition hq_rep (q : HashQueue) (l : list H256) : Prop :=
  hq_queue q = l ∧ NoDup l ∧ hq_set q = list_to_set l.

Inductive QueueOp :=
| OpClear
| OpPopFront
| OpPopFrontN (n : Z)
| OpPopBack
| OpPushBack (hash : H256)
| OpPushBackN (hashes : list H256)
| OpRemove (hash : H256)
| OpRemoveAll.

Inductive QueueAnswer :=
| AnsUnit
| AnsHash (h : option H256)
| AnsHashes (hs : list H256)
| AnsPosition (p : HashPosition).

(** One call of a method of the queue that changes it. *)
Definition hq_step (op : QueueOp) (q : HashQueue) : option (QueueAnswer * HashQueue) :=
  match op with
  | OpClear => Some (AnsUnit, hq_clear q)
  | OpPopFront => let '(h, q) := hq_pop_front q in Some (AnsHash h, q)
  | OpPopFrontN n => let '(hs, q) := hq_pop_front_n q n in Some (AnsHashes hs, q)
  | OpPopBack => let '(h, q) := hq_pop_back q in Some (AnsHash h, q)
  | OpPushBack h => q ← hq_push_back q h; Some (AnsUnit, q)
  | OpPushBackN hs => q ← hq_push_back_n q hs; Some (AnsUnit, q)
  | OpRemove h => '(p, q) ← hq_remove q h; Some (AnsPosition p, q)
  | OpRemoveAll => let '(hs, q) := hq_remove_all q in Some (AnsHashes hs, q)
  end.

(** What the method means for the list. *)
Definition list_step (op : QueueOp) (l : list H256) : option (QueueAnswer * list H256) :=
  match op with
  | OpClear => Some (AnsUnit, [])
  | OpPopFront => Some (AnsHash (head l), tail l)
  | OpPopFrontN n => Some (AnsHashes (take (Z.to_nat n) l), drop (Z.to_nat n) l)
  | OpPopBack => Some (AnsHash (list.last l), take (length l - 1) l)
  | OpPushBack h => if decide (h ∈ l) then None else Some (AnsUnit, l ++ [h])
  | OpPushBackN hs => if decide (NoDup (l ++ hs)) then Some (AnsUnit, l ++ hs) else None
  | OpRemove h =>
      Some (AnsPosition
              (match list_find (λ x, x = h) l with
               | None => Missing
               | Some (O, _) => Front
               | Some (i, _) => Inside (wrap 32 (Z.of_nat i))
               end), filter (λ x, x ≠ h) l)
  | OpRemoveAll => Some (AnsHashes l, [])
  end.

(** A run: the answers of a sequence of calls, up to the first panic. *)
Fixpoint run_steps {S O A} (step : O → S → option (A * S)) (ops : list O) (s : S) :
    list A * option S :=
  match ops with
  | [] => ([], Some s)
  | op :: ops =>
      match step op s with
      | None => ([], None)
      | Some (a, s) => let '(answers, r) := run_steps step ops s in (a :: answers, r)
      end
  end.

(** ** Lemmas *)

Lemma hq_rep_new : hq_rep hq_new [].
Proof. by split_and!; [|constructor|]. Qed.

Lemma hq_rep_contains q l h : hq_rep q l → (h ∈ hq_set q ↔ h ∈ l).
Proof. intros (_ & _ & ->). apply elem_of_list_to_set. Qed.

Lemma hq_rep_pop_front q h l : hq_rep q (h :: l) →
  ∃ q', hq_pop_front q = (Some h, q') ∧ hq_rep q' l.
Proof.
  intros (Hq & Hnd & Hs). apply list.NoDup_cons in Hnd as [Hh Hnd].
  unfold hq_pop_front. rewrite Hq. eexists. split; [done|].
  split_and!; [done..|]. simpl. rewrite Hs. set_solver.
Qed.

Lemma hq_rep_pop_front_loop n acc q l : hq_rep q l →
  ∃ q', hq_pop_front_loop n acc q = (acc ++ take n l, q') ∧ hq_rep q' (drop n l).
Proof.
  revert acc q l. induction n as [|n IH]; intros acc q l Hq; simpl.
  - exists q. by rewrite app_nil_r.
  - destruct l as [|h l].
    + exists q. unfold hq_pop_front. destruct Hq as (E & ?). rewrite E.
      by rewrite app_nil_r.
    + destruct (hq_rep_pop_front _ _ _ Hq) as (q1 & -> & Hq1).
      destruct (IH (acc ++ [h]) _ _ Hq1) as (q2 & -> & Hq2).
      exists q2. by rewrite <-app_assoc.
Qed.

Lemma hq_rep_pop_back q l : hq_rep q l →
  ∃ q', hq_pop_back q = (list.last l, q') ∧ hq_rep q' (take (length l - 1) l).
Proof.
  intros (Hq & Hnd & Hs). unfold hq_pop_back. rewrite Hq.
  destruct l as [|h l _] using rev_ind; [by exists q|].
  rewrite last_snoc, length_app, take_app_le, take_ge by (simpl; lia).
  eexists. split; [done|]. apply list.NoDup_app in Hnd as (Hnd & Hh & _).
  split_and!; [done..|]. simpl. rewrite Hs, list_to_set_app_L. set_solver.
Qed.

Lemma hq_rep_push_back q l h : hq_rep q l →
  match hq_push_back q h with
  | Some q' => (h ∉ l) ∧ hq_rep q' (l ++ [h])
  | None => h ∈ l
  end.
Proof.
  intros Hq. unfold hq_push_back. pose proof (hq_rep_contains _ _ h Hq) as Hc.
  destruct Hq as (-> & Hnd & Hs). case_decide as Hh; [by apply Hc|].
  split; [naive_solver|]. split_and!; [done| |].
  - apply list.NoDup_app. split_and!; [done| |apply list.NoDup_singleton].
    intros x Hx ->%list_elem_of_singleton. naive_solver.
  - simpl. rewrite Hs, list_to_set_app_L. set_solver.
Qed.

Lemma hq_rep_push_back_n q l hs : hq_rep q l →
  match hq_push_back_n q hs with
  | Some q' => hq_rep q' (l ++ hs)
  | None => ¬ NoDup (l ++ hs)
  end.
Proof.
  revert q l. induction hs as [|h hs IH]; intros q l Hq; simpl; [by rewrite app_nil_r|].
  pose proof (hq_rep_push_back q l h Hq) as Hp.
  destruct (hq_push_back q h) as [q'|]; simpl.
  - destruct Hp as [_ Hq']. rewrite (assoc_L _ l [h] hs : l ++ h :: hs = _). by apply IH.
  - intros (_ & Hd & _)%list.NoDup_app. apply (Hd h Hp). left.
Qed.

(** Removing the element at its position, or every element equal to it. *)
Lemma nodup_delete_filter (l : list H256) i h :
  NoDup l → l !! i = Some h → delete i l = filter (λ x, x ≠ h) l.
Proof.
  revert i. induction l as [|x l IH]; intros i Hnd Hi; [done|].
  apply list.NoDup_cons in Hnd as [Hx Hnd]. rewrite filter_cons. destruct i as [|i]; simpl.
  - injection Hi as ->. rewrite decide_False by auto.
    symmetry. apply filter_all. intros y Hy ->. done.
  - simpl in Hi. rewrite decide_True, (IH i) by
      (try done; intros ->; by apply Hx, list_elem_of_lookup_2 with i). done.
Qed.

Lemma filter_ne_absent (l : list H256) h : h ∉ l → filter (λ x, x ≠ h) l = l.
Proof. intros Hh. apply filter_all. intros y Hy ->. done. Qed.

Lemma hq_rep_remove q l h : hq_rep q l →
  ∃ q', hq_remove q h =
    Some (match list_find (λ x, x = h) l with
          | None => Missing
          | Some (O, _) => Front
          | Some (i, _) => Inside (wrap 32 (Z.of_nat i))
          end, q') ∧ hq_rep q' (filter (λ x, x ≠ h) l).
Proof.
  intros Hq. pose proof (hq_rep_contains _ _ h Hq) as Hc.
  pose proof Hq as (E & Hnd & Hs). unfold hq_remove. rewrite E.
  destruct (list_find (λ x, x = h) l) as [[i x]|] eqn:Hf.
  - apply list_find_Some in Hf as (Hi & -> & Hlt).
    rewrite bool_decide_true by (by apply Hc, list_elem_of_lookup_2 with i). simpl.
    assert (hq_rep (mkHashQueue (delete i l) (hq_set q ∖ {[h]})) (filter (λ x, x ≠ h) l)) as Hrep.
    { split_and!; [by apply nodup_delete_filter|by apply list.NoDup_filter|].
      simpl. rewrite Hs. apply set_eq. intros y.
      rewrite elem_of_difference, !elem_of_list_to_set, list_elem_of_filter. set_solver. }
    destruct l as [|f l]; [done|]. destruct i as [|i].
    + injection Hi as ->. rewrite decide_True by done. by eexists.
    + rewrite decide_False by (intros ->; apply (Hlt O h); [done|lia|done]).
      simpl. by eexists.
  - apply list_find_None in Hf. rewrite list.Forall_forall in Hf.
    assert (h ∉ l) as Hh by (intros Hin; by apply (Hf h)).
    rewrite bool_decide_false by naive_solver. exists q.
    by rewrite filter_ne_absent.
Qed.

Lemma hq_step_rep op q l : hq_rep q l →
  match hq_step op q, list_step op l with
  | Some (a, q'), Some (a', l') => a = a' ∧ hq_rep q' l'
  | None, None => True
  | _, _ => False
  end.
Proof.
  intros Hq. destruct op as [| |n| |h|hs|h|]; simpl.
  - split; [done|apply hq_rep_new].
  - destruct l as [|h l].
    + unfold hq_pop_front. pose proof Hq as (-> & _). by simpl.
    + by destruct (hq_rep_pop_front _ _ _ Hq) as (q' & -> & ?).
  - unfold hq_pop_front_n. by destruct (hq_rep_pop_front_loop (Z.to_nat n) [] _ _ Hq) as (q' & -> & ?).
  - by destruct (hq_rep_pop_back _ _ Hq) as (q' & -> & ?).
  - pose proof (hq_rep_push_back q l h Hq) as Hp.
    destruct (hq_push_back q h); simpl; [|by rewrite decide_True].
    destruct Hp as [Hh ?]. by rewrite decide_False.
  - pose proof (hq_rep_push_back_n q l hs Hq) as Hp.
    destruct (hq_push_back_n q hs); simpl; [|by rewrite decide_False].
    rewrite decide_True; [done|]. by destruct Hp as (_ & ? & _).
  - by destruct (hq_rep_remove q l h Hq) as (q' & -> & ?).
  - split; [by destruct Hq as [-> _]|apply hq_rep_new].
Qed.

Lemma hq_run_rep ops q l : hq_rep q l →
  (run_steps hq_step ops q).1 = (run_steps list_step ops l).1 ∧
  option_Forall2 hq_rep (run_steps hq_step ops q).2 (run_steps list_step ops l).2.
Proof.
  revert q l. induction ops as [|op ops IH]; intros q l Hq; simpl; [by split; [|constructor]|].
  pose proof (hq_step_rep op q l Hq) as Hs.
  destruct (hq_step op q) as [[a q']|], (list_step op l) as [[a' l']|]; try done; [|by split; [|constructor]].
  destruct Hs as [-> Hq']. specialize (IH q' l' Hq').
  destruct (run_steps hq_step ops q'), (run_steps list_step ops l'). simpl in *. naive_solver.
Qed.

(** The queries of a queue, on the list it stands for. *)
Lemma hq_queries q l : hq_rep q l → u32 (Z.of_nat (length l)) →
  hq_len q = Z.of_nat (length l) ∧
  hq_front q = head l ∧ hq_back q = list.last l ∧
  (∀ i, hq_at q i = l !! Z.to_nat i) ∧
  (∀ h, hq_contains q h = bool_decide (h ∈ l)) ∧
  (∀ h i, hq_position q h = Some i ↔ 0 ≤ i ∧ l !! Z.to_nat i = Some h).
Proof.
  intros Hq Hfit. pose proof Hq as (E & Hnd & Hs).
  unfold hq_len, hq_front, hq_back, hq_at, hq_contains, hq_position. rewrite E.
  split_and!; [by apply wrap_small|done..| |].
  - intros h. apply bool_decide_ext, (hq_rep_contains _ _ h Hq).
  - intros h i. rewrite fmap_Some. split.
    + intros ((j & x) & (Hj & -> & _)%list_find_Some & ->).
      pose proof (lookup_lt_Some _ _ _ Hj). rewrite wrap_small by (unfold fits in *; lia).
      split; [lia|]. by rewrite Nat2Z.id.
    + intros [Hi Hl]. exists (Z.to_nat i, h). pose proof (lookup_lt_Some _ _ _ Hl). split.
      * apply list_find_Some. split_and!; [done..|]. intros j y Hj Hlt <-.
        pose proof (NoDup_lookup _ _ _ _ Hnd Hj Hl). lia.
      * rewrite wrap_small by (unfold fits in *; lia). lia.
Qed.

(** ** Chains of queues *)

Definition hqc_rep (c : HashQueueChain) (ls : list (list H256)) : Prop := Forall2 hq_rep c ls.

Lemma hqc_rep_new n : (n ≠ 0)%nat →
  ∃ c, hqc_with_number_of_queues n = Some c ∧ hqc_rep c (replicate n []).
Proof.
  intros Hn. exists (replicate n hq_new). unfold hqc_with_number_of_queues.
  apply Nat.eqb_neq in Hn as ->. split; [done|]. clear.
  induction n; simpl; constructor; auto using hq_rep_new.
Qed.

Lemma hqc_rep_fold {P : Profile} c ls total :
  hqc_rep c ls → 0 ≤ total → u32 (total + Z.of_nat (length (concat ls))) →
  foldl (λ t q, t ← t; u32_add t (hq_len q)) (Some total) c = Some (total + Z.of_nat (length (concat ls))).
Proof.
  intros Hc. revert total. induction Hc as [|q l c ls Hq Hc IH]; intros total Ht Hfit; simpl in *.
  - f_equal. lia.
  - rewrite length_app in *. destruct (hq_queries q l Hq) as (-> & _); [unfold fits in *; lia|].
    rewrite u32_add_fits by (unfold fits in *; lia). rewrite IH by (unfold fits in *; lia).
    f_equal. lia.
Qed.

Lemma hqc_at_concat c ls i :
  hqc_rep c ls → 0 ≤ i → u32 (Z.of_nat (length (concat ls))) →
  hqc_at c i = concat ls !! Z.to_nat i ∧ hqc_index c i = concat ls !! Z.to_nat i.
Proof.
  intros Hc. revert i. induction Hc as [|q l c ls Hq Hc IH]; intros i Hi Hfit; simpl in *; [done|].
  rewrite length_app in Hfit.
  destruct (hq_queries q l Hq) as (-> & _ & _ & Hat & _); [unfold fits in *; lia|].
  destruct (Z.ltb_spec i (Z.of_nat (length l))).
  - rewrite lookup_app_l by lia. split; [apply Hat|]. apply (Hat i).
  - rewrite lookup_app_r by lia.
    replace (Z.to_nat i - length l)%nat with (Z.to_nat (i - Z.of_nat (length l))) by lia.
    apply IH; unfold fits in *; lia.
Qed.

Lemma hqc_contains_in_spec c ls h : hqc_rep c ls →
  hqc_contains_in c h = fst <$> list_find (λ l, h ∈ l) ls.
Proof.
  unfold hqc_contains_in. induction 1 as [|q l c ls Hq Hc IH]; [done|]. simpl.
  pose proof (hq_rep_contains q l h Hq) as Hin. unfold hq_contains.
  destruct (decide (h ∈ l)) as [Hh|Hh].
  - by rewrite decide_True by (apply bool_decide_true, Hin, Hh).
  - rewrite decide_False by (rewrite bool_decide_false by naive_solver; done).
    apply (f_equal (fmap S)) in IH. revert IH. unfold hq_contains.
    destruct (list_find _ c) as [[]|], (list_find _ ls) as [[]|]; simpl; naive_solver.
Qed.

Lemma last_concat_nonempty {A} (ls : list (list A)) l : l ≠ [] → list.last (concat ls ++ l) = list.last l.
Proof. intros Hl. rewrite last_app. by destruct l using rev_ind; [|rewrite last_snoc]. Qed.

Lemma hqc_back_loop_spec c q0 l0 ls i :
  hqc_rep c (l0 :: ls) → (1 ≤ i ≤ length ls)%nat → c !! O = Some q0 →
  hqc_back_loop c i = Some (list.last (concat (take i ls))).
Proof.
  intros Hc Hi H0. induction i as [|i IH]; [lia|].
  destruct (lookup_lt_is_Some_2 ls i) as [l Hl]; [lia|].
  destruct (Forall2_lookup_r _ _ _ (S i) l Hc) as (q & Hq & Hrep); [done|].
  cbn [hqc_back_loop]. rewrite Hq. cbn [mbind option_bind]. unfold hq_back. pose proof Hrep as (-> & _).
  rewrite (take_S_r _ _ _ Hl), concat_app. simpl. rewrite app_nil_r.
  destruct (list.last l) as [h|] eqn:El.
  - by rewrite last_concat_nonempty, El by (intros ->; done).
  - apply last_None in El as ->. rewrite app_nil_r. destruct i as [|i]; [done|]. apply IH. lia.
Qed.

(** ** Claims *)

(** A [HashQueue] behaves like a list without repetitions: on every
    sequence of [clear], [pop_front], [pop_front_n], [pop_back], [push_back],
    [push_back_n], [remove] and [remove_all] from an empty queue it gives the
    answers the list gives, panics exactly where a hash would be queued twice
    (so neither [expect] nor [unreachable!] is hit), and what it holds at the end
    is the list, with the set of its elements; every query on it ([len],
    [front], [back], [at], [contains], [position]) is that of the list. *)
Theorem hash_queue_refines (ops : list QueueOp) :
  (run_steps hq_step ops hq_new).1 = (run_steps list_step ops []).1 ∧
  match (run_steps hq_step ops hq_new).2, (run_steps list_step ops []).2 with
  | Some q, Some l =>
      (u32 (Z.of_nat (length l)) →
       hq_len q = Z.of_nat (length l) ∧
       hq_front q = head l ∧ hq_back q = list.last l ∧
       (∀ i, hq_at q i = l !! Z.to_nat i) ∧
       (∀ h, hq_contains q h = bool_decide (h ∈ l)) ∧
       (∀ h i, hq_position q h = Some i ↔ 0 ≤ i ∧ l !! Z.to_nat i = Some h))
  | None, None => True
  | _, _ => False
  end.
Proof.
  destruct (hq_run_rep ops _ _ hq_rep_new) as [Ha Hr]. split; [done|].
  destruct Hr as [q l Hq|]; [|done]. by apply hq_queries.
Qed.

(** A chain of queues is indexed as the concatenation of its queues, first
    queue first: [len] is its length, [at] and indexing its elements by
    position, and [contains_in] the first queue that holds the hash. *)
Theorem hash_queue_chain_concat {P : Profile} (c : HashQueueChain) (ls : list (list H256)) :
  hqc_rep c ls → u32 (Z.of_nat (length (concat ls))) →
  hqc_len c = Some (Z.of_nat (length (concat ls))) ∧
  (∀ i, 0 ≤ i → hqc_at c i = concat ls !! Z.to_nat i) ∧
  (∀ i, 0 ≤ i → hqc_index c i = concat ls !! Z.to_nat i) ∧
  (∀ h, hqc_contains_in c h = fst <$> list_find (λ l, h ∈ l) ls).
Proof.
  intros Hc Hfit. split_and!.
  - apply (hqc_rep_fold c ls 0 Hc); [done|]. done.
  - intros i Hi. by apply hqc_at_concat.
  - intros i Hi. by apply hqc_at_concat.
  - intros h. by apply hqc_contains_in_spec.
Qed.

(** [HashQueueChain::back] never looks at queue 0: for a chain of two or
    more queues it returns the last element of the concatenation of the others,
    and reports an empty chain when only queue 0 has elements. *)
Theorem hash_queue_chain_back (c : HashQueueChain) (l0 : list H256) (ls : list (list H256)) :
  hqc_rep c (l0 :: ls) → ls ≠ [] →
  hqc_back c = Some (list.last (concat ls)).
Proof.
  intros Hc Hls. pose proof (list.Forall2_length _ _ _ Hc) as Hlen. simpl in Hlen.
  destruct c as [|q0 c]; [done|].
  assert (length ls ≠ 0)%nat by (by destruct ls).
  unfold hqc_back. rewrite Hlen, (hqc_back_loop_spec _ q0 l0 ls) by (done || simpl; lia).
  by rewrite firstn_all2 by (simpl; lia).
Qed.

(** A chain with one block under verification and nothing requested or
    scheduled. *)
Definition ex_chain : HashQueueChain :=
  [mkHashQueue [hash_from_u8 1] {[hash_from_u8 1]}; hq_new; hq_new].

Lemma ex_chain_rep : hqc_rep ex_chain [[hash_from_u8 1]; []; []].
Proof.
  repeat constructor; simpl; try apply hq_rep_new; try apply list.NoDup_singleton.
  set_solver.
Qed.

Lemma hash_queue_refines_witness :
  (run_steps hq_step [OpPushBackN [hash_from_u8 1; hash_from_u8 2]; OpRemove (hash_from_u8 2)] hq_new).1 =
  [AnsUnit; AnsPosition (Inside 1)].
Proof.
  destruct (hash_queue_refines [OpPushBackN [hash_from_u8 1; hash_from_u8 2]; OpRemove (hash_from_u8 2)])
    as [-> _]. reflexivity.
Defined.

Lemma hash_queue_chain_concat_witness :
  hqc_contains_in ex_chain (hash_from_u8 1) = Some 0%nat.
Proof.
  destruct (hash_queue_chain_concat (P:=true) ex_chain _ ex_chain_rep) as (_ & _ & _ & H);
    [done|]. by rewrite H.
Defined.

Lemma hash_queue_chain_back_witness : hqc_back ex_chain = Some None.
Proof. by rewrite (hash_queue_chain_back ex_chain _ _ ex_chain_rep). Defined.
