(* ===== verification/HeadersChain.v ===== *)
(** * The best headers chain ([sync/src/utils/best_headers_chain.rs])

    The headers known beyond the best stored block: a queue of hashes in chain
    order and the headers by hash.  It is verified against the list of headers it
    stands for, which is linked: each header names the one before it as its
    parent.  [None] is a panic. *)

From S2P Require Import Prelude External Primitives Serialization Compact Crypto Chain.
From S2P Require Import HashQueue.

Section headers_chain.
Context {V : VrfOps}.

(** src: sync/src/utils/best_headers_chain.rs 6-13 Information *)
Record HeadersInformation := mkHeadersInformation { hi_best : Z; hi_total : Z }.

(** src: sync/src/utils/best_headers_chain.rs 17-25 BestHeadersChain *)
Record BestHeadersChain := mkBestHeadersChain {
  bhc_storage_best_hash : H256;
  bhc_headers : gmap H256 IndexedBlockHeader;
  bhc_best : HashQueue;
}.

(** src: sync/src/utils/best_headers_chain.rs 28-35 new *)
Definition bhc_new (storage_best_hash : H256) : BestHeadersChain :=
  mkBestHeadersChain storage_best_hash ∅ hq_new.

(** src: sync/src/utils/best_headers_chain.rs 37-43 information *)
Definition bhc_information (c : BestHeadersChain) : HeadersInformation :=
  mkHeadersInformation (hq_len (bhc_best c)) (wrap 32 (Z.of_nat (size (bhc_headers c)))).

(** src: sync/src/utils/best_headers_chain.rs 45-50 at *)
Definition bhc_at (c : BestHeadersChain) (height : Z) : option IndexedBlockHeader :=
  hash ← hq_at (bhc_best c) height; bhc_headers c !! hash.

(** src: sync/src/utils/best_headers_chain.rs 52-55 by_hash *)
Definition bhc_by_hash (c : BestHeadersChain) (hash : H256) : option IndexedBlockHeader :=
  bhc_headers c !! hash.

(** src: sync/src/utils/best_headers_chain.rs 57-60 height *)
Definition bhc_height (c : BestHeadersChain) (hash : H256) : option Z :=
  hq_position (bhc_best c) hash.

(** src: sync/src/utils/best_headers_chain.rs 62-69 children *)
Definition bhc_children {P : Profile} (c : BestHeadersChain) (hash : H256) : option (list H256) :=
  match hq_position (bhc_best c) hash with
  | None => Some []
  | Some pos =>
      next ← u32_add pos 1;
      Some (match hq_at (bhc_best c) next with Some child => [child] | None => [] end)
  end.

(** src: sync/src/utils/best_headers_chain.rs 71-77 best_block_hash *)
Definition bhc_best_block_hash (c : BestHeadersChain) : H256 :=
  match hq_back (bhc_best c) with
  | Some hash => hash
  | None => bhc_storage_best_hash c
  end.

(** src: sync/src/utils/best_headers_chain.rs 79-88 insert *)
Definition bhc_insert (c : BestHeadersChain) (header : IndexedBlockHeader) : option BestHeadersChain :=
  if decide (bhc_best_block_hash c = previous_header_hash (ih_raw header)) then
    let headers := <[ih_hash header := header]> (bhc_headers c) in
    best ← hq_push_back (bhc_best c) (ih_hash header);
    Some (mkBestHeadersChain (bhc_storage_best_hash c) headers best)
  else Some c.

(** src: sync/src/utils/best_headers_chain.rs 90-95 insert_n *)
Fixpoint bhc_insert_n (c : BestHeadersChain) (headers : list IndexedBlockHeader) :
    option BestHeadersChain :=
  match headers with
  | [] => Some c
  | header :: headers => c ← bhc_insert c header; bhc_insert_n c headers
  end.

(** src: sync/src/utils/best_headers_chain.rs 124-128 clear *)
Definition bhc_clear (c : BestHeadersChain) : BestHeadersChain :=
  mkBestHeadersChain (bhc_storage_best_hash c) ∅ (hq_clear (bhc_best c)).

(** The loop of [clear_after]; each round shortens the queue. *)
Fixpoint bhc_clear_loop (fuel : nat) (c : BestHeadersChain) (position : Z) : option BestHeadersChain :=
  if hq_len (bhc_best c) >? position then
    match fuel, hq_pop_back (bhc_best c) with
    | S fuel, (Some hash, best) =>
        bhc_clear_loop fuel
          (mkBestHeadersChain (bhc_storage_best_hash c) (delete hash (bhc_headers c)) best) position
    | _, _ => None
    end
  else Some c.

(** src: sync/src/utils/best_headers_chain.rs 130-140 clear_after *)
Definition bhc_clear_after (c : BestHeadersChain) (position : Z) : option BestHeadersChain :=
  if position =? 0 then Some (bhc_clear c)
  else bhc_clear_loop (length (hq_queue (bhc_best c))) c position.

(** src: sync/src/utils/best_headers_chain.rs 97-106 remove *)
Definition bhc_remove (c : BestHeadersChain) (hash : H256) : option BestHeadersChain :=
  match bhc_headers c !! hash with
  | None => Some c
  | Some _ =>
      '(position, best) ← hq_remove (bhc_best c) hash;
      let c := mkBestHeadersChain (bhc_storage_best_hash c) (delete hash (bhc_headers c)) best in
      match position with
      | Front => Some (bhc_clear c)
      | Inside position => bhc_clear_after c position
      | Missing => Some c
      end
  end.

(** src: sync/src/utils/best_headers_chain.rs 108-113 remove_n *)
Fixpoint bhc_remove_n (c : BestHeadersChain) (hashes : list H256) : option BestHeadersChain :=
  match hashes with
  | [] => Some c
  | hash :: hashes => c ← bhc_remove c hash; bhc_remove_n c hashes
  end.

(** src: sync/src/utils/best_headers_chain.rs 115-122 block_inserted_to_storage *)
Definition bhc_block_inserted_to_storage (c : BestHeadersChain) (hash storage_best_hash : H256) :
    BestHeadersChain :=
  if decide (hq_front (bhc_best c) = Some hash) then
    let '(_, best) := hq_pop_front (bhc_best c) in
    mkBestHeadersChain storage_best_hash (delete hash (bhc_headers c)) best
  else mkBestHeadersChain storage_best_hash (bhc_headers c) (bhc_best c).

(** ** The chain as a list of headers *)

Abbreviation hashes_of := (fmap ih_hash).

(** Each header names the one before it as its parent. *)
Definition linked (hs : list IndexedBlockHeader) : Prop :=
  ∀ i a b, hs !! i = Some a → hs !! S i = Some b → previous_header_hash (ih_raw b) = ih_hash a.

(** The state holds the headers [hs], in this order. *)
Definition bhc_holds (c : BestHeadersChain) (best : H256) (hs : list IndexedBlockHeader) : Prop :=
  bhc_storage_best_hash c = best ∧
  hq_rep (bhc_best c) (hashes_of hs) ∧
  (∀ h x, bhc_headers c !! h = Some x ↔ x ∈ hs ∧ ih_hash x = h).

Definition bhc_rep (c : BestHeadersChain) (best : H256) (hs : list IndexedBlockHeader) : Prop :=
  bhc_holds c best hs ∧ linked hs.

Inductive HeadersOp :=
| HInsert (header : IndexedBlockHeader)
| HRemove (hash : H256)
| HStored (hash storage_best_hash : H256)
| HClear.

Definition bhc_step (op : HeadersOp) (c : BestHeadersChain) : option (unit * BestHeadersChain) :=
  pair tt <$>
  match op with
  | HInsert header => bhc_insert c header
  | HRemove hash => bhc_remove c hash
  | HStored hash best => Some (bhc_block_inserted_to_storage c hash best)
  | HClear => Some (bhc_clear c)
  end.

(** The hash a new header must extend. *)
Definition headers_tip (best : H256) (hs : list IndexedBlockHeader) : H256 :=
  default best (ih_hash <$> list.last hs).

(** What the operations mean for the best stored hash and the list of headers:
    insertion extends the tip or does nothing, removal cuts the list at the
    removed header, and storing a block drops it when it is the first. *)
Definition headers_step (op : HeadersOp) (s : H256 * list IndexedBlockHeader) :
    option (unit * (H256 * list IndexedBlockHeader)) :=
  let '(best, hs) := s in
  pair tt <$>
  match op with
  | HInsert header =>
      if decide (headers_tip best hs = previous_header_hash (ih_raw header)) then
        if decide (ih_hash header ∈ hashes_of hs) then None else Some (best, hs ++ [header])
      else Some (best, hs)
  | HRemove hash =>
      Some (best, match list_find (λ x, ih_hash x = hash) hs with
                  | Some (i, _) => take i hs
                  | None => hs
                  end)
  | HStored hash best =>
      Some (best, if decide (ih_hash <$> head hs = Some hash) then tail hs else hs)
  | HClear => Some (best, [])
  end.

(** ** Lemmas *)

Lemma linked_take hs n : linked hs → linked (take n hs).
Proof.
  intros Hl i a b Ha Hb. rewrite lookup_take_Some in Ha, Hb.
  destruct Ha, Hb. by apply (Hl i).
Qed.

Lemma linked_tail hs : linked hs → linked (tail hs).
Proof. intros Hl i a b Ha Hb. destruct hs; [done|]. by apply (Hl (S i)). Qed.

Lemma linked_snoc hs x best :
  linked hs → headers_tip best hs = previous_header_hash (ih_raw x) → linked (hs ++ [x]).
Proof.
  intros Hl Ht i a b Ha Hb. apply lookup_snoc_Some in Hb as [[Hlt Hb]|[Hi ->]].
  - rewrite lookup_app_l in Ha by lia. by apply (Hl i).
  - rewrite lookup_app_l in Ha by lia. unfold headers_tip in Ht.
    rewrite last_lookup, <-Hi in Ht. simpl in Ht. by rewrite Ha in Ht.
Qed.

Lemma bhc_holds_new best : bhc_holds (bhc_new best) best [].
Proof.
  split_and!; [done|apply hq_rep_new|].
  intros h x. simpl. rewrite lookup_empty. set_solver.
Qed.

Lemma bhc_holds_clear c best hs : bhc_holds c best hs → bhc_holds (bhc_clear c) best [].
Proof. intros (<- & _). apply bhc_holds_new. Qed.

Lemma bhc_best_tip c best hs : bhc_holds c best hs → bhc_best_block_hash c = headers_tip best hs.
Proof.
  intros (<- & (Hq & _) & _). unfold bhc_best_block_hash, hq_back, headers_tip.
  rewrite Hq, fmap_last. by destruct (list.last hs).
Qed.

Lemma bhc_rep_insert c best hs x : bhc_rep c best hs →
  headers_tip best hs = previous_header_hash (ih_raw x) →
  match hq_push_back (bhc_best c) (ih_hash x) with
  | Some q => (ih_hash x ∉ hashes_of hs) ∧
      bhc_rep (mkBestHeadersChain (bhc_storage_best_hash c) (<[ih_hash x := x]> (bhc_headers c)) q)
        best (hs ++ [x])
  | None => ih_hash x ∈ hashes_of hs
  end.
Proof.
  intros [(Hb & Hq & Hh) Hl] Ht. pose proof (hq_rep_push_back _ _ (ih_hash x) Hq) as Hp.
  destruct (hq_push_back _ _) as [q|]; [|done]. destruct Hp as [Hx Hq']. split; [done|].
  split; [|by eapply linked_snoc]. split_and!; [done|by rewrite fmap_app|].
  intros h y. simpl. rewrite elem_of_app, list_elem_of_singleton.
  destruct (decide (ih_hash x = h)) as [<-|Hne].
  - rewrite lookup_insert_eq. split; [intros [= ->]; by split; [right|]|].
    intros [[Hy| ->] Hyx]; [|done]. destruct Hx. rewrite <-Hyx. by apply list_elem_of_fmap_2.
  - rewrite lookup_insert_ne by done. rewrite Hh. naive_solver.
Qed.

(** Deleting the header at position [i] from the map. *)
Lemma bhc_delete_headers (m : gmap H256 IndexedBlockHeader) hs i x :
  NoDup (hashes_of hs) → hs !! i = Some x →
  (∀ h y, m !! h = Some y ↔ y ∈ hs ∧ ih_hash y = h) →
  ∀ h y, delete (ih_hash x) m !! h = Some y ↔ y ∈ delete i hs ∧ ih_hash y = h.
Proof.
  intros Hnd Hi Hm h y.
  assert (∀ j z, hs !! j = Some z → ih_hash z = ih_hash x → j = i) as Huniq.
  { intros j z Hj E. apply (NoDup_lookup _ _ _ (ih_hash x) Hnd);
      rewrite list_lookup_fmap; [by rewrite Hj; simpl; rewrite E|by rewrite Hi]. }
  rewrite lookup_delete_Some, Hm. split.
  - intros (Hne & [j Hj]%list_elem_of_lookup_1 & <-). split; [|done].
    destruct (decide (j < i)%nat).
    + apply list_elem_of_lookup_2 with j. by rewrite list_lookup_delete_lt.
    + assert (j ≠ i) by (intros ->; naive_solver).
      destruct j as [|j]; [lia|]. apply list_elem_of_lookup_2 with j.
      by rewrite list_lookup_delete_ge by lia.
  - intros [[j Hj]%list_elem_of_lookup_1 <-].
    assert (∃ k, k ≠ i ∧ hs !! k = Some y) as (k & Hk & Hy).
    { destruct (decide (j < i)%nat).
      - rewrite list_lookup_delete_lt in Hj by done. exists j. split; [lia|done].
      - rewrite list_lookup_delete_ge in Hj by lia. exists (S j). split; [lia|done]. }
    split_and!; [|by apply list_elem_of_lookup_2 with k|done].
    intros E. by apply Hk, (Huniq k y).
Qed.

Lemma fmap_delete_at {A B} (f : A → B) i (l : list A) : f <$> delete i l = delete i (f <$> l).
Proof. by rewrite !delete_take_drop, fmap_app, fmap_take, fmap_drop. Qed.

Lemma delete_last {A} (l : list A) : l ≠ [] → delete (length l - 1)%nat l = take (length l - 1) l.
Proof.
  intros Hl. rewrite delete_take_drop, drop_ge, app_nil_r; [done|].
  destruct l; [done|]. simpl. lia.
Qed.

Lemma bhc_clear_loop_holds n c best hs (p : nat) :
  bhc_holds c best hs → u32 (Z.of_nat (length hs)) → (length hs ≤ n)%nat →
  ∃ c', bhc_clear_loop n c (Z.of_nat p) = Some c' ∧ bhc_holds c' best (take p hs).
Proof.
  revert c hs. induction n as [|n IH]; intros c hs Hc Hfit Hn;
    pose proof Hc as (Hb & Hq & Hh); pose proof Hq as (E & Hnd & _);
    (destruct (hq_queries _ _ Hq) as (Hlen & _); [by rewrite length_fmap|]);
    cbn [bhc_clear_loop]; rewrite Hlen, length_fmap.
  - destruct hs; [|simpl in Hn; lia]. destruct (Z.gtb_spec (Z.of_nat (length (@nil IndexedBlockHeader))) (Z.of_nat p)); [simpl in *; lia|].
    exists c. by rewrite take_nil.
  - destruct (Z.gtb_spec (Z.of_nat (length hs)) (Z.of_nat p)) as [Hgt|Hle].
    + destruct (hq_rep_pop_back _ _ Hq) as (q' & -> & Hq').
      destruct (last_is_Some hs) as [_ Hne]. destruct Hne as [x Hx]; [by intros ->; simpl in Hgt; lia|].
      rewrite fmap_last, Hx. simpl. rewrite last_lookup in Hx.
      assert (length hs - 1 = pred (length hs))%nat as El by lia.
      destruct (IH (mkBestHeadersChain (bhc_storage_best_hash c)
                      (delete (ih_hash x) (bhc_headers c)) q') (take (length hs - 1) hs))
        as (c' & -> & Hc').
      * split_and!; [done|by rewrite fmap_take, <-(length_fmap ih_hash hs)|].
        rewrite <-delete_last by (intros ->; simpl in Hgt; lia).
        apply bhc_delete_headers; [done|by rewrite El|done].
      * rewrite length_take. unfold fits in *. lia.
      * rewrite length_take. lia.
      * exists c'. split; [done|]. rewrite take_take in Hc'.
        by replace (p `min` (length hs - 1))%nat with p in Hc' by lia.
    + exists c. by rewrite take_ge by lia.
Qed.

Lemma bhc_rep_remove c best hs h : bhc_rep c best hs → u32 (Z.of_nat (length hs)) →
  ∃ c', bhc_remove c h = Some c' ∧
    bhc_rep c' best (match list_find (λ x, ih_hash x = h) hs with
                     | Some (i, _) => take i hs
                     | None => hs
                     end).
Proof.
  intros [Hc Hl] Hfit. pose proof Hc as (Hb & Hq & Hh). pose proof Hq as (E & Hnd & _).
  unfold bhc_remove. destruct (list_find _ hs) as [[i x]|] eqn:Hf.
  - apply list_find_Some in Hf as (Hi & <- & Hlt).
    rewrite (proj2 (Hh (ih_hash x) x)) by (split; [by apply list_elem_of_lookup_2 with i|done]).
    destruct (hq_rep_remove _ _ (ih_hash x) Hq) as (q' & Er & Hq').
    rewrite Er. cbn [mbind option_bind].
    assert (hashes_of hs !! i = Some (ih_hash x)) as Hix by (by rewrite list_lookup_fmap, Hi).
    rewrite <-(nodup_delete_filter _ i) in Hq' by done. rewrite <-fmap_delete_at in Hq'.
    pose proof (bhc_delete_headers _ _ _ _ Hnd Hi Hh) as Hh'.
    rewrite (proj2 (list_find_Some _ _ i (ih_hash x))) by
      (split_and!; [done..|]; intros j y Hj Hji Ey; rewrite list_lookup_fmap in Hj;
       apply fmap_Some in Hj as (z & Hz & ->); by apply (Hlt j z)).
    set (c1 := mkBestHeadersChain _ _ _).
    assert (bhc_holds c1 best (delete i hs)) as Hc1 by done.
    pose proof (lookup_lt_Some _ _ _ Hi).
    destruct i as [|i].
    + eexists. split; [done|]. split; [by eapply bhc_holds_clear|done].
    + rewrite wrap_small by (unfold fits in *; lia). unfold bhc_clear_after.
      rewrite (proj2 (Z.eqb_neq _ _)) by lia.
      destruct (bhc_clear_loop_holds (length (hq_queue (bhc_best c1))) c1 best (delete (S i) hs) (S i))
        as (c' & -> & Hc'); [done|rewrite length_delete by (by eexists); unfold fits in *; lia| |].
      * pose proof Hc1 as (_ & (E1 & _) & _). by rewrite E1, length_fmap.
      * exists c'. split; [done|]. split; [|by apply linked_take].
        rewrite delete_take_drop, take_app_le, take_take in Hc' by (rewrite length_take; lia).
        by rewrite Nat.min_id in Hc'.
  - apply list_find_None in Hf. rewrite list.Forall_forall in Hf.
    destruct (bhc_headers c !! h) as [x|] eqn:Ex; [|by exists c].
    apply Hh in Ex as [Hx Ex]. by destruct (Hf x Hx).
Qed.

Lemma bhc_rep_stored c best hs h best' : bhc_rep c best hs →
  bhc_rep (bhc_block_inserted_to_storage c h best') best'
    (if decide (ih_hash <$> head hs = Some h) then tail hs else hs).
Proof.
  intros [Hc Hl]. pose proof Hc as (Hb & Hq & Hh). pose proof Hq as (E & Hnd & _).
  unfold bhc_block_inserted_to_storage, hq_front. rewrite E.
  replace (head (hashes_of hs)) with (ih_hash <$> head hs) by (by destruct hs).
  case_decide as Hd; [|by split].
  destruct hs as [|x hs]; [done|]. injection Hd as <-.
  destruct (hq_rep_pop_front _ _ _ Hq) as (q' & -> & Hq').
  split; [|by apply linked_tail in Hl]. split_and!; [done..|].
  apply (bhc_delete_headers _ (x :: hs) 0 x Hnd eq_refl Hh).
Qed.
Lemma bhc_step_rep op c best hs : bhc_rep c best hs → u32 (Z.of_nat (length hs)) →
  match bhc_step op c, headers_step op (best, hs) with
  | Some (_, c'), Some (_, (best', hs')) => bhc_rep c' best' hs' ∧ (length hs' ≤ S (length hs))%nat
  | None, None => True
  | _, _ => False
  end.
Proof.
  intros Hc Hfit. destruct op as [x|h|h best'|]; unfold bhc_step; cbn [headers_step].
  - unfold bhc_insert. rewrite (bhc_best_tip c best hs) by apply Hc.
    case_decide as Ht; simpl; [|auto].
    pose proof (bhc_rep_insert c best hs x Hc Ht) as Hp.
    destruct (hq_push_back _ _); simpl; [|by rewrite decide_True].
    destruct Hp as [Hx Hc']. rewrite decide_False by done. split; [done|].
    rewrite length_app. simpl. lia.
  - destruct (bhc_rep_remove c best hs h Hc Hfit) as (c' & -> & Hc'). simpl.
    split; [done|]. destruct (list_find _ _) as [[]|]; [rewrite length_take|]; lia.
  - simpl. split; [by eapply bhc_rep_stored|]. case_decide; [|lia]. destruct hs; simpl; lia.
  - simpl. split; [split; [by eapply bhc_holds_clear, Hc|done]|lia].
Qed.

Lemma bhc_run_rep ops c best hs : bhc_rep c best hs →
  u32 (Z.of_nat (length hs + length ops)) →
  match (run_steps bhc_step ops c).2, (run_steps headers_step ops (best, hs)).2 with
  | Some c', Some (best', hs') => bhc_rep c' best' hs' ∧ u32 (Z.of_nat (length hs'))
  | None, None => True
  | _, _ => False
  end.
Proof.
  revert c best hs. induction ops as [|op ops IH]; intros c best hs Hc Hfit.
  - simpl. split; [done|]. simpl in Hfit. by rewrite Nat.add_0_r in Hfit.
  - cbn [run_steps]. pose proof (bhc_step_rep op c best hs Hc) as Hs. simpl in Hfit.
    destruct (bhc_step op c) as [[u c']|], (headers_step op (best, hs)) as [[u' [best' hs']]|];
      try (exfalso; apply Hs; unfold fits in *; lia); try done.
    destruct Hs as [Hc' Hlen]; [unfold fits in *; lia|].
    specialize (IH c' best' hs' Hc'). destruct (run_steps bhc_step ops c').
    destruct (run_steps headers_step ops (best', hs')). apply IH. unfold fits in *. lia.
Qed.

Lemma bhc_total c best hs : bhc_holds c best hs → size (bhc_headers c) = length hs.
Proof.
  intros (_ & (_ & Hnd & _) & Hh). rewrite <-size_dom, <-(length_fmap ih_hash hs).
  rewrite <-(size_list_to_set (C:=gset H256)) by done. f_equal. apply set_eq. intros h.
  rewrite elem_of_dom, elem_of_list_to_set, list_elem_of_fmap. unfold is_Some.
  setoid_rewrite Hh. naive_solver.
Qed.

Lemma bhc_at_spec c best hs i : bhc_holds c best hs → bhc_at c i = hs !! Z.to_nat i.
Proof.
  intros (_ & (E & _) & Hh). unfold bhc_at, hq_at. rewrite E, list_lookup_fmap.
  destruct (hs !! Z.to_nat i) as [x|] eqn:Hx; [|done]. simpl. apply Hh.
  split; [|done]. by apply list_elem_of_lookup_2 with (Z.to_nat i).
Qed.

Lemma bhc_children_spec {P : Profile} c best hs i x :
  bhc_holds c best hs → u32 (Z.of_nat (length hs)) → hs !! i = Some x →
  bhc_children c (ih_hash x) = Some (option_list (ih_hash <$> hs !! S i)).
Proof.
  intros (_ & Hq & _) Hfit Hi. pose proof (lookup_lt_Some _ _ _ Hi). unfold bhc_children.
  destruct (hq_queries _ _ Hq) as (_ & _ & _ & Hat & _ & Hpos); [by rewrite length_fmap|].
  rewrite (proj2 (Hpos (ih_hash x) (Z.of_nat i))) by
    (split; [lia|by rewrite Nat2Z.id, list_lookup_fmap, Hi]).
  cbn [mbind option_bind]. rewrite u32_add_fits by (unfold fits in *; lia). simpl. rewrite Hat.
  replace (Z.to_nat (Z.of_nat i + 1)) with (S i) by lia. rewrite list_lookup_fmap.
  by destruct (hs !! S i).
Qed.

(** The loops over several headers or hashes are sequences of the operations. *)
Lemma bhc_insert_n_run c headers :
  bhc_insert_n c headers = (run_steps bhc_step (HInsert <$> headers) c).2.
Proof.
  revert c. induction headers as [|x headers IH]; intros c; [done|].
  cbn [bhc_insert_n fmap list_fmap run_steps].
  change (bhc_step (HInsert x) c) with (pair tt <$> bhc_insert c x).
  destruct (bhc_insert c x) as [c'|]; [|done]. cbn. rewrite IH.
  by destruct (run_steps bhc_step (HInsert <$> headers) c').
Qed.

Lemma bhc_remove_n_run c hashes :
  bhc_remove_n c hashes = (run_steps bhc_step (HRemove <$> hashes) c).2.
Proof.
  revert c. induction hashes as [|x hashes IH]; intros c; [done|].
  cbn [bhc_remove_n fmap list_fmap run_steps].
  change (bhc_step (HRemove x) c) with (pair tt <$> bhc_remove c x).
  destruct (bhc_remove c x) as [c'|]; [|done]. cbn. rewrite IH.
  by destruct (run_steps bhc_step (HRemove <$> hashes) c').
Qed.

(** C33: [BestHeadersChain] is a linked list of headers on top of the best stored
    block.  After every sequence of [insert], [remove],
    [block_inserted_to_storage] and [clear], it holds exactly the list that the
    abstract operations give (insertion extends the tip only, removal drops the
    header and all its descendants), each header names the one before it as its
    parent, and [information], [at], [by_hash], [height], [children] and
    [best_block_hash] report that list.  The only panic is the insertion of a
    hash that is already queued. *)
Theorem headers_chain_refines {P : Profile} (best : H256) (ops : list HeadersOp) :
  u32 (Z.of_nat (length ops)) →
  match (run_steps bhc_step ops (bhc_new best)).2, (run_steps headers_step ops (best, [])).2 with
  | Some c, Some (best', hs) =>
      linked hs ∧ NoDup (ih_hash <$> hs) ∧
      bhc_information c = mkHeadersInformation (Z.of_nat (length hs)) (Z.of_nat (length hs)) ∧
      (∀ i, bhc_at c i = hs !! Z.to_nat i) ∧
      (∀ h x, bhc_by_hash c h = Some x ↔ x ∈ hs ∧ ih_hash x = h) ∧
      (∀ h i, bhc_height c h = Some i ↔ 0 ≤ i ∧ (ih_hash <$> hs !! Z.to_nat i) = Some h) ∧
      (∀ i x, hs !! i = Some x →
        bhc_children c (ih_hash x) = Some (option_list (ih_hash <$> hs !! S i))) ∧
      bhc_best_block_hash c = headers_tip best' hs
  | None, None => True
  | _, _ => False
  end.
Proof.
  intros Hfit. pose proof (bhc_run_rep ops (bhc_new best) best []) as Hr.
  destruct (run_steps bhc_step ops (bhc_new best)) as [a [c|]],
    (run_steps headers_step ops (best, [])) as [a' [[best' hs]|]]; simpl in *;
    try (by apply Hr; [split; [apply bhc_holds_new|]|]).
  destruct Hr as [[Hc Hl] Hlen]; [by split; [apply bhc_holds_new|]|done|].
  pose proof Hc as (_ & Hq & Hh). pose proof Hq as (_ & Hnd & _).
  destruct (hq_queries _ _ Hq) as (El & _ & _ & _ & _ & Hpos); [by rewrite length_fmap|].
  split_and!; [done..| | | | | |].
  - unfold bhc_information. rewrite El, length_fmap, (bhc_total _ _ _ Hc). f_equal. by apply wrap_small.
  - intros i. by eapply bhc_at_spec.
  - done.
  - intros h i. unfold bhc_height. rewrite Hpos. by rewrite list_lookup_fmap.
  - intros i x. by eapply bhc_children_spec.
  - by apply bhc_best_tip.
Qed.
End headers_chain.

(** ** Witness *)

Section examples.
Import Reference.

Definition ex_header (h parent : Z) : IndexedBlockHeader :=
  mkIndexedBlockHeader (hash_from_u8 h)
    (mkBlockHeader 1 (hash_from_u8 parent) 4 (mkCompact 0x207fffff) (exist _ 6 I) 100 123456789).

(** Headers 1, 2, 3 on top of block 0, a header that does not extend the tip,
    and the removal of header 2, which takes header 3 with it. *)
Definition ex_headers_ops : list HeadersOp :=
  [HInsert (ex_header 1 0); HInsert (ex_header 2 1); HInsert (ex_header 7 1);
   HInsert (ex_header 3 2); HRemove (hash_from_u8 2)].

Lemma headers_chain_refines_witness :
  u32 (Z.of_nat (length ex_headers_ops)) ∧
  ∃ c, (run_steps bhc_step ex_headers_ops (bhc_new (hash_from_u8 0))).2 = Some c ∧
    bhc_information c = mkHeadersInformation 1 1.
Proof.
  split; [done|].
  pose proof (headers_chain_refines (P:=true) (hash_from_u8 0) ex_headers_ops ltac:(done)) as H.
  destruct (run_steps bhc_step ex_headers_ops (bhc_new (hash_from_u8 0))) as [a [c|]]; [|done].
  exists c. split; [done|].
  destruct H as (_ & _ & H & _). exact H.
Defined.
End examples.
