(* ===== verification/SyncChain.v ===== *)
(** * The chain as synchronization sees it ([sync/src/synchronization_chain.rs])

    The stored blocks, followed by three queues of hashes: blocks under
    verification, requested from peers and scheduled for requesting, with the
    headers known beyond the best stored block.  The store is the block chain
    database of [BlockChainDb].  Operations are computations over this state that
    may panic ([None]). *)

From S2P Require Import Prelude External Primitives Serialization Compact Crypto Chain.
From S2P Require Import Storage Network Kv KvRefine BlockChainDb ChainInv ChainOps.
From S2P Require Import HashQueue HeadersChain.

(** src: sync/src/synchronization_chain.rs 10-17 NUMBER_OF_QUEUES *)
Definition VERIFYING_QUEUE : nat := 0.
Definition REQUESTED_QUEUE : nat := 1.
Definition SCHEDULED_QUEUE : nat := 2.
Definition NUMBER_OF_QUEUES : nat := 3.

(** src: sync/src/synchronization_chain.rs 19-24 BlockInsertionResult *)
Record BlockInsertionResult := mkBlockInsertionResult { canonized_blocks_hashes : list H256 }.

(** src: sync/src/synchronization_chain.rs 50-65 BlockState *)
Inductive BlockState := Unknown | Scheduled | Requested | Verifying | Stored | DeadEnd.

#[global] Instance BlockState_eq_dec : EqDecision BlockState.
Proof. solve_decision. Defined.

(** src: sync/src/synchronization_chain.rs 67-79 Information *)
Record Information := mkInformation {
  info_scheduled : Z;
  info_requested : Z;
  info_verifying : Z;
  info_stored : Z;
  info_headers : HeadersInformation;
}.

(** src: sync/src/synchronization_chain.rs 81-99 Chain *)
Record SyncChain {V : VrfOps} (T : Type) := mkSyncChain {
  sc_genesis_block_hash : H256;
  sc_best_storage_block : BestBlock;
  sc_storage : BlockChainDatabase T;
  sc_hash_chain : HashQueueChain;
  sc_headers_chain : BestHeadersChain;
  sc_dead_end_blocks : gset H256;
}.
Arguments mkSyncChain {V T} _ _ _ _ _ _.
Arguments sc_genesis_block_hash {V T} _.
Arguments sc_best_storage_block {V T} _.
Arguments sc_storage {V T} _.
Arguments sc_hash_chain {V T} _.
Arguments sc_headers_chain {V T} _.
Arguments sc_dead_end_blocks {V T} _.

(** src: sync/src/synchronization_chain.rs 102-109 from_queue_index *)
Definition from_queue_index (queue_index : nat) : option BlockState :=
  if (queue_index =? SCHEDULED_QUEUE)%nat then Some Scheduled
  else if (queue_index =? REQUESTED_QUEUE)%nat then Some Requested
  else if (queue_index =? VERIFYING_QUEUE)%nat then Some Verifying
  else None.

(** src: sync/src/synchronization_chain.rs 111-118 to_queue_index *)
Definition to_queue_index (state : BlockState) : option nat :=
  match state with
  | Scheduled => Some SCHEDULED_QUEUE
  | Requested => Some REQUESTED_QUEUE
  | Verifying => Some VERIFYING_QUEUE
  | _ => None
  end.

Definition SM {V : VrfOps} (T A : Type) : Type := SyncChain T → option (A * SyncChain T).

#[global] Instance SM_ret {V : VrfOps} T : MRet (SM T) := λ A a s, Some (a, s).
#[global] Instance SM_bind {V : VrfOps} T : MBind (SM T) := λ A B k m s,
  match m s with Some (a, s') => k a s' | None => None end.

Section sync_chain.
Context {V : VrfOps} {R : RugOps} {P : Profile} {T : Type} {K : KeyValueDatabase T}.

(** ** Access to the parts of the state *)

Definition set_storage (s : BlockChainDatabase T) (c : SyncChain T) : SyncChain T :=
  mkSyncChain (sc_genesis_block_hash c) (sc_best_storage_block c) s (sc_hash_chain c)
    (sc_headers_chain c) (sc_dead_end_blocks c).

Definition set_hash_chain (q : HashQueueChain) (c : SyncChain T) : SyncChain T :=
  mkSyncChain (sc_genesis_block_hash c) (sc_best_storage_block c) (sc_storage c) q
    (sc_headers_chain c) (sc_dead_end_blocks c).

Definition set_headers_chain (h : BestHeadersChain) (c : SyncChain T) : SyncChain T :=
  mkSyncChain (sc_genesis_block_hash c) (sc_best_storage_block c) (sc_storage c)
    (sc_hash_chain c) h (sc_dead_end_blocks c).

Definition set_best_storage_block (b : BestBlock) (c : SyncChain T) : SyncChain T :=
  mkSyncChain (sc_genesis_block_hash c) b (sc_storage c) (sc_hash_chain c)
    (sc_headers_chain c) (sc_dead_end_blocks c).

Definition sm_lift {A} (o : option A) : SM T A := λ c, a ← o; Some (a, c).
Definition sm_gets {A} (f : SyncChain T → option A) : SM T A := λ c, a ← f c; Some (a, c).
Definition sm_modify (f : SyncChain T → SyncChain T) : SM T unit := λ c, Some (tt, f c).

(** A call of the store. *)
Definition on_storage {A} (m : DM T A) : SM T A := λ c,
  '(a, s) ← m (sc_storage c); Some (a, set_storage s c).

(** A call of the chain of queues, and of the headers chain. *)
Definition on_hashes {A} (m : HashQueueChain → option (A * HashQueueChain)) : SM T A := λ c,
  '(a, q) ← m (sc_hash_chain c); Some (a, set_hash_chain q c).

Definition on_headers (m : BestHeadersChain → option BestHeadersChain) : SM T unit := λ c,
  h ← m (sc_headers_chain c); Some (tt, set_headers_chain h c).

(** [x?] on a computation that returns a [Result]. *)
Definition sm_try {A B} (m : SM T (result DbError A)) (k : A → SM T (result DbError B)) :
    SM T (result DbError B) :=
  r ← m; match r with Ok a => k a | Err e => mret (Err e) end.

(** ** Construction and queries *)

(** src: sync/src/synchronization_chain.rs 122-139 new *)
Definition chain_new (storage : BlockChainDatabase T) : option (SyncChain T) :=
  '(genesis, storage) ← block_hash 0 storage;
  genesis_block_hash ← genesis;
  '(best_storage_block, storage) ← best_block storage;
  queues ← hqc_with_number_of_queues NUMBER_OF_QUEUES;
  Some (mkSyncChain genesis_block_hash best_storage_block storage queues
          (bhc_new (bb_hash best_storage_block)) ∅).

(** src: sync/src/synchronization_chain.rs 141-150 information *)
Definition information (c : SyncChain T) : option Information :=
  scheduled ← hqc_len_of (sc_hash_chain c) SCHEDULED_QUEUE;
  requested ← hqc_len_of (sc_hash_chain c) REQUESTED_QUEUE;
  verifying ← hqc_len_of (sc_hash_chain c) VERIFYING_QUEUE;
  stored ← u32_add (bb_number (sc_best_storage_block c)) 1;
  Some (mkInformation scheduled requested verifying stored (bhc_information (sc_headers_chain c))).

(** src: sync/src/synchronization_chain.rs 157-163 length_of_blocks_state *)
Definition length_of_blocks_state (c : SyncChain T) (state : BlockState) : option Z :=
  match state with
  | Stored => u32_add (bb_number (sc_best_storage_block c)) 1
  | _ => i ← to_queue_index state; hqc_len_of (sc_hash_chain c) i
  end.

(** src: sync/src/synchronization_chain.rs 165-173 best_n_of_blocks_state *)
Definition best_n_of_blocks_state (c : SyncChain T) (state : BlockState) (n : Z) : option (list H256) :=
  match state with
  | Scheduled | Requested | Verifying =>
      i ← to_queue_index state; hqc_front_n_at (sc_hash_chain c) i n
  | _ => None
  end.

(** src: sync/src/synchronization_chain.rs 175-184 best_block *)
Definition chain_best_block (c : SyncChain T) : option BestBlock :=
  back ← hqc_back (sc_hash_chain c);
  match back with
  | Some hash =>
      len ← hqc_len (sc_hash_chain c);
      number ← u32_add (bb_number (sc_best_storage_block c)) len;
      Some (mkBestBlock number hash)
  | None => Some (sc_best_storage_block c)
  end.

(** src: sync/src/synchronization_chain.rs 191-205 best_block_header *)
Definition best_block_header (c : SyncChain T) : option BestBlock :=
  let best := hi_best (bhc_information (sc_headers_chain c)) in
  if best =? 0 then Some (sc_best_storage_block c)
  else
    number ← u32_add (bb_number (sc_best_storage_block c)) best;
    header ← bhc_at (sc_headers_chain c) (best - 1);
    Some (mkBestBlock number (ih_hash header)).

(** src: sync/src/synchronization_chain.rs 207-215 block_hash *)
Definition chain_block_hash (number : Z) : SM T (option H256) := λ c,
  if number <=? bb_number (sc_best_storage_block c) then on_storage (block_hash number) c
  else Some (hqc_at (sc_hash_chain c) (number - bb_number (sc_best_storage_block c)), c).

(** src: sync/src/synchronization_chain.rs 217-225 block_number *)
Definition chain_block_number (hash : H256) : SM T (option Z) :=
  stored ← on_storage (block_number hash);
  match stored with
  | Some number => mret (Some number)
  | None => sm_gets (λ c,
      match bhc_height (sc_headers_chain c) hash with
      | None => Some None
      | Some p =>
          n ← u32_add (bb_number (sc_best_storage_block c)) p;
          n ← u32_add n 1;
          Some (Some n)
      end)
  end.

(** src: sync/src/synchronization_chain.rs 227-235 block_header_by_number *)
Definition block_header_by_number (number : Z) : SM T (option IndexedBlockHeader) := λ c,
  if number <=? bb_number (sc_best_storage_block c)
  then on_storage (db_block_header (RefNumber number)) c
  else Some (bhc_at (sc_headers_chain c) (number - bb_number (sc_best_storage_block c)), c).

(** src: sync/src/synchronization_chain.rs 237-243 block_header_by_hash *)
Definition block_header_by_hash (hash : H256) : SM T (option IndexedBlockHeader) :=
  header ← on_storage (db_block_header (RefHash hash));
  match header with
  | Some header => mret (Some header)
  | None => sm_gets (λ c, Some (bhc_by_hash (sc_headers_chain c) hash))
  end.

(** src: sync/src/synchronization_chain.rs 536-541 block_header *)
Definition chain_block_header (block_ref : BlockRef) : SM T (option IndexedBlockHeader) :=
  match block_ref with
  | RefHash hash => block_header_by_hash hash
  | RefNumber n => block_header_by_number n
  end.

(** src: sync/src/synchronization_chain.rs 531-534 block_header_bytes *)
Definition chain_block_header_bytes (block_ref : BlockRef) : SM T (option (list byte)) :=
  h ← chain_block_header block_ref;
  mret ((λ h, serialize ser_block_header (ih_raw h)) <$> h).

(** src: sync/src/synchronization_chain.rs 245-259 block_state *)
Definition block_state (hash : H256) : SM T BlockState := λ c,
  match hqc_contains_in (sc_hash_chain c) hash with
  | Some queue_index => sm_lift (from_queue_index queue_index) c
  | None =>
      '(stored, c) ← on_storage (contains_block (RefHash hash)) c;
      Some (if stored : bool then Stored
            else if decide (hash ∈ sc_dead_end_blocks c) then DeadEnd
            else Unknown, c)
  end.

(** ** The block locator *)

(** [step <<= 1] once ten hashes are collected. *)
Definition locator_step (hashes : list H256) (step : Z) : Z :=
  if (10 <=? length hashes)%nat then wrap 32 (Z.shiftl step 1) else step.

(** The loop over the queues; each round lowers the index. *)
Fixpoint locator_queue_loop (fuel : nat) (queues : HashQueueChain) (index step : Z)
    (hashes : list H256) : option (list H256 * (Z * Z)) :=
  match fuel with
  | O => None
  | S fuel =>
      block_hash ← hqc_index queues index;
      let hashes := hashes ++ [block_hash] in
      let step := locator_step hashes step in
      if index <? step then Some (hashes, (step - index - 1, step))
      else locator_queue_loop fuel queues (index - step) step hashes
  end.

(** src: sync/src/synchronization_chain.rs 477-498 block_locator_hashes_for_queue *)
Definition block_locator_hashes_for_queue (c : SyncChain T) (hashes : list H256) :
    option (list H256 * (Z * Z)) :=
  queue_len ← hqc_len (sc_hash_chain c);
  if queue_len =? 0 then Some (hashes, (0, 1))
  else locator_queue_loop (Z.to_nat queue_len) (sc_hash_chain c) (queue_len - 1) 1 hashes.

(** The loop over the store, with at most [fuel] rounds. *)
Fixpoint locator_storage_loop (fuel : nat) (genesis : H256) (index step : Z) (hashes : list H256) :
    DM T (list H256) :=
  match fuel with
  | O => panic
  | S fuel =>
      hash ← block_hash index;
      block_hash ← lift hash;
      let hashes := hashes ++ [block_hash] in
      let step := locator_step hashes step in
      if index <? step then mret (if negb (index =? 0) then hashes ++ [genesis] else hashes)
      else locator_storage_loop fuel genesis (index - step) step hashes
  end.

(** src: sync/src/synchronization_chain.rs 500-527 block_locator_hashes_for_storage *)
Definition block_locator_hashes_for_storage (index step : Z) (hashes : list H256) :
    SM T (list H256) := λ c,
  on_storage
    (locator_storage_loop (Z.to_nat (index + 1)) (sc_genesis_block_hash c) index step hashes) c.

(** src: sync/src/synchronization_chain.rs 267-281 block_locator_hashes *)
Definition block_locator_hashes : SM T (list H256) := λ c,
  '(hashes, (local_index, step)) ← block_locator_hashes_for_queue c [];
  let storage_index :=
    if bb_number (sc_best_storage_block c) <? local_index then 0
    else bb_number (sc_best_storage_block c) - local_index in
  block_locator_hashes_for_storage storage_index step hashes c.

(** ** The queues *)

(** src: sync/src/synchronization_chain.rs 283-290 schedule_blocks_headers *)
Definition schedule_blocks_headers (headers : list IndexedBlockHeader) : SM T unit :=
  _ ← on_hashes (λ q, pair tt <$> hqc_push_back_n_at q SCHEDULED_QUEUE (ih_hash <$> headers));
  on_headers (λ h, bhc_insert_n h headers).

(** src: sync/src/synchronization_chain.rs 292-298 request_blocks_hashes *)
Definition request_blocks_hashes (n : Z) : SM T (list H256) :=
  scheduled ← on_hashes (λ q, hqc_pop_front_n_at q SCHEDULED_QUEUE n);
  _ ← on_hashes (λ q, pair tt <$> hqc_push_back_n_at q REQUESTED_QUEUE scheduled);
  mret scheduled.

(** src: sync/src/synchronization_chain.rs 300-306 verify_block *)
Definition chain_verify_block (header : IndexedBlockHeader) : SM T unit :=
  _ ← on_hashes (λ q, pair tt <$> hqc_push_back_at q VERIFYING_QUEUE (ih_hash header));
  on_headers (λ h, bhc_insert h header).

(** src: sync/src/synchronization_chain.rs 308-313 verify_blocks *)
Fixpoint verify_blocks (blocks : list IndexedBlockHeader) : SM T unit :=
  match blocks with
  | [] => mret tt
  | block :: blocks => _ ← chain_verify_block block; verify_blocks blocks
  end.

(** src: sync/src/synchronization_chain.rs 315-322 verify_blocks_hashes *)
Definition verify_blocks_hashes (n : Z) : SM T (list H256) :=
  requested ← on_hashes (λ q, hqc_pop_front_n_at q REQUESTED_QUEUE n);
  _ ← on_hashes (λ q, pair tt <$> hqc_push_back_n_at q VERIFYING_QUEUE requested);
  mret requested.

(** src: sync/src/synchronization_chain.rs 324-327 mark_dead_end_block *)
Definition mark_dead_end_block (hash : H256) : SM T unit :=
  sm_modify (λ c, mkSyncChain (sc_genesis_block_hash c) (sc_best_storage_block c) (sc_storage c)
    (sc_hash_chain c) (sc_headers_chain c) ({[hash]} ∪ sc_dead_end_blocks c)).

(** src: sync/src/synchronization_chain.rs 420-429 forget_block_leave_header *)
Definition forget_block_leave_header (hash : H256) : SM T HashPosition :=
  position ← on_hashes (λ q, hqc_remove_at q VERIFYING_QUEUE hash);
  match position with
  | Missing =>
      position ← on_hashes (λ q, hqc_remove_at q REQUESTED_QUEUE hash);
      match position with
      | Missing => on_hashes (λ q, hqc_remove_at q SCHEDULED_QUEUE hash)
      | position => mret position
      end
  | position => mret position
  end.

(** src: sync/src/synchronization_chain.rs 407-411 forget_block *)
Definition forget_block (hash : H256) : SM T HashPosition :=
  _ ← on_headers (λ h, bhc_remove h hash);
  forget_block_leave_header hash.

(** src: sync/src/synchronization_chain.rs 413-418 forget_blocks *)
Fixpoint forget_blocks (hashes : list H256) : SM T unit :=
  match hashes with
  | [] => mret tt
  | hash :: hashes => _ ← forget_block hash; forget_blocks hashes
  end.

(** src: sync/src/synchronization_chain.rs 431-436 forget_blocks_leave_header *)
Fixpoint forget_blocks_leave_header (hashes : list H256) : SM T unit :=
  match hashes with
  | [] => mret tt
  | hash :: hashes => _ ← forget_block_leave_header hash; forget_blocks_leave_header hashes
  end.

(** src: sync/src/synchronization_chain.rs 445-452 forget_block_with_state_leave_header *)
Definition forget_block_with_state_leave_header (hash : H256) (state : BlockState) : SM T HashPosition :=
  i ← sm_lift (to_queue_index state);
  on_hashes (λ q, hqc_remove_at q i hash).

(** src: sync/src/synchronization_chain.rs 438-443 forget_block_with_state *)
Definition forget_block_with_state (hash : H256) (state : BlockState) : SM T HashPosition :=
  _ ← on_headers (λ h, bhc_remove h hash);
  forget_block_with_state_leave_header hash state.

(** The first loop of [forget_block_with_children]: the hash and its known
    descendants, in order. *)
Fixpoint collect_children (fuel : nat) (h : BestHeadersChain) (removal_queue removal_stack : list H256) :
    option (list H256) :=
  match removal_queue with
  | [] => Some removal_stack
  | hash :: removal_queue =>
      match fuel with
      | O => None
      | S fuel =>
          children ← bhc_children h hash;
          collect_children fuel h (removal_queue ++ children) (removal_stack ++ [hash])
      end
  end.

(** Each round moves to the next header of the best chain, so there are at most
    as many as headers, and one for a hash that is not among them. *)
(** src: sync/src/synchronization_chain.rs 454-469 forget_block_with_children *)
Definition forget_block_with_children (hash : H256) : SM T unit :=
  removal_stack ← sm_gets (λ c,
    collect_children (S (length (hq_queue (bhc_best (sc_headers_chain c))))) (sc_headers_chain c) [hash] []);
  forget_blocks (reverse removal_stack).

(** src: sync/src/synchronization_chain.rs 471-475 forget_all_blocks_with_state *)
Definition forget_all_blocks_with_state (state : BlockState) : SM T unit :=
  i ← sm_lift (to_queue_index state);
  hashes ← on_hashes (λ q, hqc_remove_all_at q i);
  on_headers (λ h, bhc_remove_n h hashes).

(** ** Insertion into the store *)

(** [fork], the insertion and canonization in the fork, and [switch_to_fork], on
    the store. *)
Definition reorganize (block : IndexedBlock) (origin : SideChainOrigin) : DM T (result DbError unit) := λ s,
  f ← fork s origin;
  match f with
  | Err e => Some (Err e, s)
  | Ok f =>
      '(r, store) ← db_insert block (fork_blockchain T f);
      match r with
      | Err e => Some (Err e, s)
      | Ok _ =>
          '(r, store) ← canonize (ib_hash block) store;
          match r with
          | Err e => Some (Err e, s)
          | Ok _ => Some (switch_to_fork s (mkForkChainDatabase T store))
          end
      end
  end.

(** [self.best_storage_block = self.storage.best_block()], then
    [block_inserted_to_storage]. *)
Definition block_inserted (block : IndexedBlock) : SM T unit :=
  best ← on_storage best_block;
  _ ← sm_modify (set_best_storage_block best);
  on_headers (λ h, Some (bhc_block_inserted_to_storage h (ib_hash block) (bb_hash best))).

(** src: sync/src/synchronization_chain.rs 329-405 insert_best_block *)
Definition insert_best_block (block : IndexedBlock) : SM T (result DbError BlockInsertionResult) :=
  best ← on_storage best_block;
  canon ← on_storage (block_hash (bb_number best));
  _ ← sm_lift (rust_assert (bool_decide (Some (bb_hash best) = canon)));
  sm_try (on_storage (block_origin (ib_header block))) (λ origin,
    match origin with
    | KnownBlock => sm_lift None
    | CanonChain _ =>
        sm_try (on_storage (db_insert block)) (λ _,
        sm_try (on_storage (canonize (ib_hash block))) (λ _,
        _ ← block_inserted block;
        _ ← sm_gets (λ c, rust_assert (bool_decide (bb_hash (sc_best_storage_block c) = ib_hash block)));
        mret (Ok (mkBlockInsertionResult [ib_hash block]))))
    | SideChainBecomingCanonChain origin =>
        sm_try (on_storage (reorganize block origin)) (λ _,
        _ ← block_inserted block;
        mret (Ok (mkBlockInsertionResult (canonized_route origin ++ [ib_hash block]))))
    | SideChain _ =>
        sm_try (on_storage (db_insert block)) (λ _,
        best ← sm_gets (λ c, Some (sc_best_storage_block c));
        _ ← on_headers (λ h, Some (bhc_block_inserted_to_storage h (ib_hash block) (bb_hash best)));
        mret (Ok (mkBlockInsertionResult [])))
    end).
End sync_chain.
