(* ===== verification/SyncOps.v ===== *)
(** * What the operations of the synchronization chain do

    Over any store that meets the key-value contract: the insertion of a block
    into the store on every branch, the block locator, the movement of hashes
    through the queues, and the lookups by number. *)

From S2P Require Import Prelude External Primitives Serialization Compact Crypto Chain.
From S2P Require Import Storage Network Kv KvRefine BlockChainDb ChainInv ChainOps.
From S2P Require Import HashQueue HeadersChain SyncChain.

Section store.
Context {V : VrfOps} {R : RugOps} {P : Profile}.

Section generic.
Context {T : Type} {K : KeyValueDatabase T} {KS : KvSpec T}.

(** [s'] has the blocks of [s], and [blk]. *)
Definition stores (blk : IndexedBlock) (s s' : BlockChainDatabase T) : Prop :=
  ∀ g, db_view s' (KeyBlock g) =
    if decide (g = ib_hash blk) then Some (VBlock (block_of blk)) else db_view s (KeyBlock g).

Lemma state_best s hs : state_inv s hs → bc_best_block s = best_of hs.
Proof. intros [_ Hi]. apply Hi. Qed.

Lemma insert_new s hs blk :
  state_inv s hs → ib_hash blk ≠ hash_default →
  v_contains (db_view s) (ib_hash blk) = false →
  v_contains (db_view s) (parent_of (block_of blk)) = true →
  ∃ s', db_insert blk s = Some (Ok tt, s') ∧ state_inv s' hs ∧ stores blk s s'.
Proof.
  intros Hs Hne Hk Hp. destruct (insert_spec s hs blk Hs Hne) as (s' & Hif).
  rewrite Hk, Hp in Hif. destruct Hif as (E & Hs' & Hview). exists s'. split_and!; [done|done|].
  intros g. rewrite Hview. destruct (decide (g = ib_hash blk)) as [->|Hg];
    [by rewrite decide_True|by rewrite decide_False by congruence].
Qed.

Lemma stores_block blk s s' : stores blk s s' → v_block (db_view s') (ib_hash blk) = Some (block_of blk).
Proof. intros Hst. unfold v_block. by rewrite Hst, decide_True. Qed.

(** Insertion and canonization of a new block on top of the best one. *)
Lemma extend_spec s hs blk :
  state_inv s hs → hs ≠ [] → Z.of_nat (length hs) < 2 ^ 32 → ib_hash blk ≠ hash_default →
  v_contains (db_view s) (ib_hash blk) = false →
  parent_of (block_of blk) = bb_hash (bc_best_block s) →
  ∃ s1 s2, db_insert blk s = Some (Ok tt, s1) ∧ canonize (ib_hash blk) s1 = Some (Ok tt, s2) ∧
    state_inv s2 (hs ++ [ib_hash blk]) ∧ stores blk s s2.
Proof.
  intros Hs Hne Hlen Hh Hk Hp.
  destruct (insert_new s hs blk Hs Hh Hk) as (s1 & E1 & Hs1 & Hst).
  { rewrite Hp. apply (ci_best_contained _ _ _ (proj2 Hs) Hne). }
  destruct (canonize_ok s1 hs (ib_hash blk) (block_of blk) Hs1) as (s2 & E2 & Hs2 & Hb).
  - by eapply stores_block.
  - by rewrite (state_best _ _ Hs1), <-(state_best _ _ Hs).
  - done.
  - exists s1, s2. split_and!; [done..|]. intros g. by rewrite (Hb g), Hst.
Qed.
End generic.

Context {T : Type} {K : KeyValueDatabase T} {KS : KvSpec T}.

Lemma best_of_route hs a anc route : hs !! a = Some anc →
  bb_hash (best_of (take (S a) hs ++ route)) = tip anc route.
Proof.
  intros Ha. destruct route as [|h route _] using rev_ind.
  - rewrite app_nil_r, (take_S_r _ _ _ Ha), best_of_snoc. done.
  - by rewrite tip_snoc, app_assoc, best_of_snoc.
Qed.

Lemma v_contains_blocks v v' h : v' (KeyBlock h) = v (KeyBlock h) → v_contains v' h = v_contains v h.
Proof. intros E. unfold v_contains. by rewrite E. Qed.

(** A reorganization to the side chain extended by the new block. *)
Lemma reorganize_spec (s : BlockChainDatabase T) hs a anc route blk :
  state_inv s hs → hs !! a = Some anc → linked_from (db_view s) anc route →
  Z.of_nat (a + length route + 1) < 2 ^ 32 → ib_hash blk ≠ hash_default →
  v_contains (db_view s) (ib_hash blk) = false → parent_of (block_of blk) = tip anc route →
  ∃ s', reorganize blk (side_chain_of a route hs) s = Some (Ok tt, s') ∧
    state_inv s' (take (S a) hs ++ route ++ [ib_hash blk]) ∧ stores blk s s'.
Proof.
  intros Hs Ha Hl Hlen Hh Hk Hp. unfold reorganize.
  destruct (fork_spec s hs a anc route Hs Ha Hl) as (f & -> & Hf & Hb); [lia|].
  destruct (extend_spec (fork_blockchain T f) _ blk Hf) as (s1 & s2 & E1 & E2 & Hs2 & Hst).
  - destruct hs; [by destruct a|done].
  - rewrite length_app, length_take. lia.
  - done.
  - by rewrite (v_contains_blocks (db_view s)).
  - by rewrite (state_best _ _ Hf), (best_of_route hs a anc).
  - cbn [mbind option_bind]. rewrite E1. cbn [mbind option_bind]. rewrite E2.
    cbn [mbind option_bind].
    destruct (switch_spec s (mkForkChainDatabase T s2) _ Hs2) as (s' & -> & Hs' & Ev & _).
    exists s'. rewrite app_assoc. split_and!; [done..|].
    intros g. rewrite Ev. cbn [fork_blockchain]. by rewrite Hst, Hb.
Qed.
End store.

(** ** The invariant *)

Section sync.
Context {V : VrfOps} {R : RugOps} {P : Profile}.
Context {T : Type} {K : KeyValueDatabase T} {KS : KvSpec T}.

(** The store holds the chain [hs], the queues hold [qs], the headers chain
    [headers], and the cached best block is the stored one. *)
Record sync_inv (c : SyncChain T) (hs : list H256) (qs : list (list H256))
    (headers : list IndexedBlockHeader) : Prop := {
  si_store : state_inv (sc_storage c) hs;
  si_genesis : hs !! O = Some (sc_genesis_block_hash c);
  si_best : sc_best_storage_block c = best_of hs;
  si_queues : hqc_rep (sc_hash_chain c) qs;
  si_count : length qs = NUMBER_OF_QUEUES;
  si_headers : bhc_rep (sc_headers_chain c) (bb_hash (best_of hs)) headers;
}.

Lemma si_nonempty c hs qs headers : sync_inv c hs qs headers → hs ≠ [].
Proof. intros Hc ->. by pose proof (si_genesis _ _ _ _ Hc). Qed.

(** Reading the store leaves the invariant in place. *)
Lemma si_read c hs qs headers s : sync_inv c hs qs headers → unchanged (sc_storage c) s →
  sync_inv (set_storage s c) hs qs headers.
Proof.
  intros [] Hu. split; try done. by eapply unchanged_inv.
Qed.

Lemma on_storage_run {A B} (m : DM T A) (k : A → SM T B) c a s :
  m (sc_storage c) = Some (a, s) → (on_storage m ≫= k) c = k a (set_storage s c).
Proof. intros E. unfold mbind, SM_bind, on_storage. rewrite E. done. Qed.

Lemma on_storage_try {A B} (m : DM T (result DbError A)) (k : A → SM T (result DbError B)) c r s :
  m (sc_storage c) = Some (r, s) →
  sm_try (on_storage m) k c =
    match r with Ok a => k a (set_storage s c) | Err e => Some (Err e, set_storage s c) end.
Proof. intros E. unfold sm_try. rewrite (on_storage_run _ _ _ _ _ E). by destruct r. Qed.

(** The best block is where the number column says. *)
Lemma best_hash_stored s hs : state_inv s hs → hs ≠ [] →
  v_hash (db_view s) (bb_number (best_of hs)) = Some (bb_hash (best_of hs)).
Proof.
  intros [_ Hi] Hne. destruct hs as [|h hs _] using rev_ind; [done|].
  rewrite best_of_snoc. simpl. rewrite (ci_hash_nat _ _ _ _ Hi).
  by rewrite lookup_app_r, Nat.sub_diag by lia.
Qed.

(** The hash of the new block leaves the front of the headers chain. *)
Definition headers_after (h : H256) (headers : list IndexedBlockHeader) : list IndexedBlockHeader :=
  if decide (ih_hash <$> head headers = Some h) then tail headers else headers.

(** What [insert_best_block] answers for a block [h] whose parent is reached
    from block [a] of the chain [hs] by the side route [route], and the chain
    it leaves. *)
Definition insertion (hs : list H256) (a : nat) (anc : H256) (route : list H256) (h : H256) :
    result DbError BlockInsertionResult * list H256 :=
  if decide (tip anc route = bb_hash (best_of hs)) then (Ok (mkBlockInsertionResult [h]), hs ++ [h])
  else if decide (length route < MAX_FORK_ROUTE_PRESET)%nat then
    if decide (length hs ≤ a + length route + 1)%nat
    then (Ok (mkBlockInsertionResult (route ++ [h])), take (S a) hs ++ route ++ [h])
    else (Ok (mkBlockInsertionResult []), hs)
  else (Err AncientFork, hs).

(** The store after the insertion. *)
Definition after_insertion (blk : IndexedBlock) (c c' : SyncChain T)
    (r : result DbError BlockInsertionResult) : Prop :=
  if is_ok r then stores blk (sc_storage c) (sc_storage c') else unchanged (sc_storage c) (sc_storage c').

(** The end of a successful insertion that changed the chain. *)
Lemma block_inserted_run {B} blk (k : unit → SM T B) c s hs hs' qs headers :
  sync_inv c hs qs headers → state_inv s hs' → hs' !! O = Some (sc_genesis_block_hash c) →
  ∃ c', (block_inserted blk ≫= k) (set_storage s c) = k tt c' ∧
    sync_inv c' hs' qs (headers_after (ib_hash blk) headers) ∧ sc_storage c' = s.
Proof.
  intros Hc Hs Hg. eexists. split; [reflexivity|]. split; [|done]. split; cbn.
  - apply Hs.
  - done.
  - by apply state_best.
  - apply Hc.
  - apply Hc.
  - rewrite (state_best _ _ Hs). eapply bhc_rep_stored, Hc.
Qed.

(** The checks before the three cases. *)
Lemma insert_best_block_checks blk c hs qs headers r :
  sync_inv c hs qs headers →
  (∀ s0, unchanged (sc_storage c) s0 → ∃ s1, block_origin (ib_header blk) s0 = Some (r, s1) ∧ unchanged s0 s1) →
  ∃ s1, unchanged (sc_storage c) s1 ∧ insert_best_block blk c =
    match r with
    | Err e => Some (Err e, set_storage s1 c)
    | Ok KnownBlock => None
    | Ok (CanonChain _) =>
        sm_try (on_storage (db_insert blk)) (λ _,
        sm_try (on_storage (canonize (ib_hash blk))) (λ _,
        _ ← block_inserted blk;
        _ ← sm_gets (λ c, rust_assert (bool_decide (bb_hash (sc_best_storage_block c) = ib_hash blk)));
        mret (Ok (mkBlockInsertionResult [ib_hash blk])))) (set_storage s1 c)
    | Ok (SideChainBecomingCanonChain origin) =>
        sm_try (on_storage (reorganize blk origin)) (λ _,
        _ ← block_inserted blk;
        mret (Ok (mkBlockInsertionResult (canonized_route origin ++ [ib_hash blk])))) (set_storage s1 c)
    | Ok (SideChain _) =>
        sm_try (on_storage (db_insert blk)) (λ _,
        best ← sm_gets (λ c, Some (sc_best_storage_block c));
        _ ← on_headers (λ h, Some (bhc_block_inserted_to_storage h (ib_hash blk) (bb_hash best)));
        mret (Ok (mkBlockInsertionResult []))) (set_storage s1 c)
    end.
Proof.
  intros Hc Horigin. pose proof (si_store _ _ _ _ Hc) as Hs. pose proof (si_nonempty _ _ _ _ Hc) as Hne.
  unfold insert_best_block.
  rewrite (on_storage_run best_block _ c (bc_best_block (sc_storage c)) (sc_storage c)) by done.
  rewrite (state_best _ _ Hs).
  pose proof (reads_block_hash (bb_number (best_of hs)) (sc_storage c) (proj1 Hs)) as (s2 & E2 & Hu2).
  rewrite (on_storage_run (block_hash (bb_number (best_of hs))) _ _ _ s2) by exact E2.
  rewrite (best_hash_stored _ _ Hs Hne), bool_decide_true by done.
  match goal with |- context [(sm_lift (rust_assert true) ≫= ?k) ?c0] =>
    change ((sm_lift (rust_assert true) ≫= k) c0) with (k tt c0) end.
  destruct (Horigin s2 Hu2) as (s3 & E3 & Hu3).
  rewrite (on_storage_try (block_origin (ib_header blk)) _ _ r s3) by exact E3.
  exists s3. split; [by eapply unchanged_trans|]. by destruct r as [[]|].
Qed.

(** The three cases. *)
Lemma insert_canon c s1 hs qs headers blk :
  sync_inv c hs qs headers → unchanged (sc_storage c) s1 →
  Z.of_nat (length hs) < 2 ^ 32 → ib_hash blk ≠ hash_default →
  v_contains (db_view (sc_storage c)) (ib_hash blk) = false →
  parent_of (block_of blk) = bb_hash (best_of hs) →
  ∃ c', sm_try (on_storage (db_insert blk)) (λ _,
        sm_try (on_storage (canonize (ib_hash blk))) (λ _,
        _ ← block_inserted blk;
        _ ← sm_gets (λ c, rust_assert (bool_decide (bb_hash (sc_best_storage_block c) = ib_hash blk)));
        mret (Ok (mkBlockInsertionResult [ib_hash blk])))) (set_storage s1 c)
      = Some (Ok (mkBlockInsertionResult [ib_hash blk]), c') ∧
    sync_inv c' (hs ++ [ib_hash blk]) qs (headers_after (ib_hash blk) headers) ∧
    stores blk (sc_storage c) (sc_storage c').
Proof.
  intros Hc Hu Hlen Hh Hk Hp. pose proof (si_nonempty _ _ _ _ Hc) as Hne.
  pose proof (unchanged_inv _ _ _ (si_store _ _ _ _ Hc) Hu) as Hs1. pose proof Hu as (_ & _ & Ev).
  destruct (extend_spec s1 hs blk Hs1 Hne Hlen Hh) as (s2 & s3 & E2 & E3 & Hs3 & Hst).
  - by rewrite Ev.
  - by rewrite (state_best _ _ Hs1).
  - rewrite (on_storage_try (db_insert blk) _ _ (Ok tt) s2) by exact E2. cbv beta iota.
    rewrite (on_storage_try (canonize (ib_hash blk)) _ _ (Ok tt) s3) by exact E3. cbv beta iota.
    pose proof (lookup_app_l_Some _ [ib_hash blk] _ _ (si_genesis _ _ _ _ Hc)) as Hg.
    match goal with |- context [(block_inserted blk ≫= ?k) ?c0] =>
      destruct (block_inserted_run blk k c s3 hs _ qs headers Hc Hs3 Hg) as (c' & E' & Hc' & Es');
      exists c'; split; [etrans; [exact E'|]|] end.
    + unfold sm_gets, mbind, SM_bind, option_bind.
      by rewrite (si_best _ _ _ _ Hc'), best_of_snoc, bool_decide_true.
    + split; [done|]. rewrite Es'. intros g. by rewrite Hst, Ev.
Qed.

Lemma insert_reorganizing c s1 hs qs headers a anc route blk :
  sync_inv c hs qs headers → unchanged (sc_storage c) s1 →
  hs !! a = Some anc → linked_from (db_view (sc_storage c)) anc route →
  Z.of_nat (a + length route + 1) < 2 ^ 32 → ib_hash blk ≠ hash_default →
  v_contains (db_view (sc_storage c)) (ib_hash blk) = false → parent_of (block_of blk) = tip anc route →
  ∃ c', sm_try (on_storage (reorganize blk (side_chain_of a route hs))) (λ _,
        _ ← block_inserted blk;
        mret (Ok (mkBlockInsertionResult (route ++ [ib_hash blk])))) (set_storage s1 c)
      = Some (Ok (mkBlockInsertionResult (route ++ [ib_hash blk])), c') ∧
    sync_inv c' (take (S a) hs ++ route ++ [ib_hash blk]) qs (headers_after (ib_hash blk) headers) ∧
    stores blk (sc_storage c) (sc_storage c').
Proof.
  intros Hc Hu Ha Hl Hlen Hh Hk Hp.
  pose proof (unchanged_inv _ _ _ (si_store _ _ _ _ Hc) Hu) as Hs1. pose proof Hu as (_ & _ & Ev).
  destruct (reorganize_spec s1 hs a anc route blk Hs1 Ha) as (s2 & E2 & Hs2 & Hst);
    [by rewrite Ev|done|done|by rewrite Ev|done|].
  rewrite (on_storage_try _ _ _ (Ok tt) s2) by exact E2. cbv beta iota.
  assert ((take (S a) hs ++ route ++ [ib_hash blk]) !! O = Some (sc_genesis_block_hash c)) as Hg.
  { pose proof (si_genesis _ _ _ _ Hc) as Hg. by destruct hs. }
  match goal with |- context [(block_inserted blk ≫= ?k) ?c0] =>
    destruct (block_inserted_run blk k c s2 hs _ qs headers Hc Hs2 Hg) as (c' & E' & Hc' & Es') end.
  exists c'. split_and!; [exact E'|done|]. rewrite Es'. intros g. by rewrite Hst, Ev.
Qed.

Lemma insert_side c s1 hs qs headers blk :
  sync_inv c hs qs headers → unchanged (sc_storage c) s1 → ib_hash blk ≠ hash_default →
  v_contains (db_view (sc_storage c)) (ib_hash blk) = false →
  v_contains (db_view (sc_storage c)) (parent_of (block_of blk)) = true →
  ∃ c', sm_try (on_storage (db_insert blk)) (λ _,
        best ← sm_gets (λ c, Some (sc_best_storage_block c));
        _ ← on_headers (λ h, Some (bhc_block_inserted_to_storage h (ib_hash blk) (bb_hash best)));
        mret (Ok (mkBlockInsertionResult []))) (set_storage s1 c)
      = Some (Ok (mkBlockInsertionResult []), c') ∧
    sync_inv c' hs qs (headers_after (ib_hash blk) headers) ∧
    stores blk (sc_storage c) (sc_storage c').
Proof.
  intros Hc Hu Hh Hk Hp. pose proof (unchanged_inv _ _ _ (si_store _ _ _ _ Hc) Hu) as Hs1.
  pose proof Hu as (_ & _ & Ev).
  destruct (insert_new s1 hs blk Hs1 Hh) as (s2 & E2 & Hs2 & Hst); [by rewrite Ev..|].
  rewrite (on_storage_try (db_insert blk) _ _ (Ok tt) s2) by exact E2.
  eexists. split; [reflexivity|]. split; [|intros g; cbn; by rewrite Hst, Ev].
  destruct Hc as [Hs Hg Hb Hq Hn Hd]. split; try done. cbn. rewrite Hb. by eapply bhc_rep_stored.
Qed.

Lemma side_origin_cases a route hs : hs ≠ [] →
  side_origin a route hs =
    if decide (length hs ≤ a + length route + 1)%nat
    then SideChainBecomingCanonChain (side_chain_of a route hs)
    else SideChain (side_chain_of a route hs).
Proof.
  intros Hne. unfold side_origin, side_chain_of. case_decide as Hd.
  - by rewrite (proj2 (Z.ltb_lt _ _)) by lia.
  - by rewrite (proj2 (Z.ltb_ge _ _)) by lia.
Qed.

Lemma unchanged_state c hs qs headers s0 : sync_inv c hs qs headers → unchanged (sc_storage c) s0 →
  state_inv s0 hs ∧ db_view s0 = db_view (sc_storage c) ∧ bc_best_block s0 = best_of hs.
Proof.
  intros Hc Hu. pose proof (unchanged_inv _ _ _ (si_store _ _ _ _ Hc) Hu) as H0.
  split; [done|]. split; [apply Hu|by apply state_best].
Qed.

Lemma insert_known c hs qs headers blk :
  sync_inv c hs qs headers → Z.of_nat (length hs) < 2 ^ 32 →
  v_contains (db_view (sc_storage c)) (ib_hash blk) = true → insert_best_block blk c = None.
Proof.
  intros Hc Hlen Hk. pose proof (si_nonempty _ _ _ _ Hc) as Hne.
  destruct (insert_best_block_checks blk c hs qs headers (Ok KnownBlock) Hc) as (s1 & _ & E); [|exact E].
  intros s0 (H0 & Ev & _)%(unchanged_state _ _ _ _ _ Hc).
  destruct (block_origin_checks s0 hs (ib_header blk) H0 Hlen Hne) as (s1 & Hu1 & E1).
  exists s1. split; [|done]. rewrite E1, Ev. unfold ib_hash in Hk. by rewrite Hk.
Qed.

Lemma insert_orphan c hs qs headers blk :
  sync_inv c hs qs headers → Z.of_nat (length hs) < 2 ^ 32 →
  v_contains (db_view (sc_storage c)) (ib_hash blk) = false →
  v_contains (db_view (sc_storage c)) (parent_of (block_of blk)) = false →
  ∃ c', insert_best_block blk c = Some (Err UnknownParent, c') ∧ sync_inv c' hs qs headers ∧
    unchanged (sc_storage c) (sc_storage c').
Proof.
  intros Hc Hlen Hk Hp. pose proof (si_nonempty _ _ _ _ Hc) as Hne.
  destruct (insert_best_block_checks blk c hs qs headers (Err UnknownParent) Hc) as (s1 & Hu & E).
  2: { exists (set_storage s1 c). split; [exact E|]. split; [by apply si_read|exact Hu]. }
  intros s0 (H0 & Ev & Eb)%(unchanged_state _ _ _ _ _ Hc).
  destruct (block_origin_checks s0 hs (ib_header blk) H0 Hlen Hne) as (s1 & Hu1 & E1).
  exists s1. split; [|done]. unfold ib_hash in Hk. rewrite E1, Ev, Hk, Eb.
  change (parent_of (block_of blk)) with (previous_header_hash (ih_raw (ib_header blk))) in Hp.
  rewrite Hp. match goal with |- context [if ?b then _ else if negb false then _ else _] => destruct b eqn:Eq end; [|done]. apply hash_eq_true in Eq. rewrite <-Eq in Hp.
  pose proof (ci_best_contained _ _ _ (proj2 H0) Hne) as Hb. rewrite Ev, Eb in Hb. congruence.
Qed.

(** A new block whose parent is reached from block [a] of the chain. *)
Lemma insert_best_block_new c hs qs headers blk a anc route :
  sync_inv c hs qs headers → Z.of_nat (length hs) < 2 ^ 32 → ib_hash blk ≠ hash_default →
  let v := db_view (sc_storage c) in
  let parent := previous_header_hash (ih_raw (ib_header blk)) in
  v_contains v (ib_hash blk) = false → v_contains v parent = true →
  hs !! a = Some anc → linked_from v anc route → (∀ h, h ∈ route → h ∉ hs) →
  Z.of_nat (a + length route + 1) < 2 ^ 32 → parent = tip anc route →
  let '(r, hs') := insertion hs a anc route (ib_hash blk) in
  ∃ c', insert_best_block blk c = Some (r, c') ∧
    sync_inv c' hs' qs (if is_ok r then headers_after (ib_hash blk) headers else headers) ∧
    after_insertion blk c c' r.
Proof.
  intros Hc Hlen Hh v parent Hk Hp Ha Hl Hout Hfit Htip. pose proof (si_nonempty _ _ _ _ Hc) as Hne.
  assert (∀ s0, unchanged (sc_storage c) s0 → ∃ s1, block_origin (ib_header blk) s0 =
    Some (if decide (parent = bb_hash (best_of hs)) then Ok (CanonChain (Z.of_nat (length hs)))
          else if decide (length route < MAX_FORK_ROUTE_PRESET)%nat then Ok (side_origin a route hs)
          else Err AncientFork, s1) ∧ unchanged s0 s1) as Horigin.
  { intros s0 (H0 & Ev & Eb)%(unchanged_state _ _ _ _ _ Hc). rewrite <-Eb.
    apply (block_origin_side s0 hs (ib_header blk) a anc route); try done; by rewrite Ev. }
  destruct (insert_best_block_checks blk c hs qs headers _ Hc Horigin) as (s1 & Hu & E).
  rewrite E. unfold insertion. rewrite <-Htip. case_decide as Hcan; [|case_decide as Hroute].
  - destruct (insert_canon c s1 hs qs headers blk) as (c' & Ec & Hc' & Hst); try done.
    exists c'. by rewrite Ec.
  - rewrite side_origin_cases by done. case_decide as Hlong.
    + destruct (insert_reorganizing c s1 hs qs headers a anc route blk) as (c' & Ec & Hc' & Hst); try done.
      exists c'. cbn [side_chain_of canonized_route]. by rewrite Ec.
    + destruct (insert_side c s1 hs qs headers blk) as (c' & Ec & Hc' & Hst); try done.
      exists c'. by rewrite Ec.
  - exists (set_storage s1 c). split; [done|]. split; [by apply si_read|exact Hu].
Qed.

(** A new chain on a store. *)
Lemma chain_new_inv storage hs : state_inv storage hs → hs ≠ [] →
  ∃ chain, chain_new storage = Some chain ∧ sync_inv chain hs [[]; []; []] [] ∧ unchanged storage (sc_storage chain).
Proof.
  intros Hinv Hne. pose proof Hinv as [Hv Hi]. pose proof (reads_block_hash 0 storage Hv) as Hr. cbn in Hr.
  rewrite (ci_hash_nat _ _ _ 0 Hi : v_hash _ 0 = _) in Hr. destruct hs as [|h hs]; [done|]. destruct Hr as (s & E & Hu).
  unfold chain_new. rewrite E. cbn [mbind option_bind lookup list_lookup best_block get_best].
  eexists. split; [reflexivity|]. split; [|exact Hu]. pose proof (unchanged_inv _ _ _ Hinv Hu) as Hinv'.
  assert (bc_best_block s = best_of (h :: hs)) as Eb by apply (state_best _ _ Hinv').
  split; cbn; try done.
  - repeat constructor; by apply hq_rep_new.
  - split; [|by intros i a b Ha]. rewrite Eb. apply bhc_holds_new.
Qed.

(** ** Claims *)

(** C8: insertion of a block into the chain, on every branch.  A block that is
    already stored is a panic; a block whose parent is not stored is refused
    with [UnknownParent] and nothing changes.  For a new block whose parent is
    reached from block [a] of the stored chain by a route of stored side blocks:
    if the parent is the best block the chain grows by the block; if the side
    chain becomes longer than the chain, the chain is cut at [a] and continued
    by the route and the block, and exactly these are reported as canonized; if
    it does not, the block is only stored and nothing is reported; a route of
    2048 blocks or more is refused with [AncientFork].  No branch panics.  The
    queues are untouched, the block leaves the front of the headers chain, and
    the cached best block is again the stored one. *)
Theorem insert_best_block_exact c hs qs headers blk :
  sync_inv c hs qs headers → Z.of_nat (length hs) < 2 ^ 32 → ib_hash blk ≠ hash_default →
  let v := db_view (sc_storage c) in
  let parent := previous_header_hash (ih_raw (ib_header blk)) in
  (v_contains v (ib_hash blk) = true → insert_best_block blk c = None) ∧
  (v_contains v (ib_hash blk) = false → v_contains v parent = false →
     ∃ c', insert_best_block blk c = Some (Err UnknownParent, c') ∧ sync_inv c' hs qs headers ∧
       unchanged (sc_storage c) (sc_storage c')) ∧
  (∀ a anc route, v_contains v (ib_hash blk) = false → v_contains v parent = true →
     hs !! a = Some anc → linked_from v anc route → (∀ h, h ∈ route → h ∉ hs) →
     Z.of_nat (a + length route + 1) < 2 ^ 32 → parent = tip anc route →
     let '(r, hs') := insertion hs a anc route (ib_hash blk) in
     ∃ c', insert_best_block blk c = Some (r, c') ∧
       sync_inv c' hs' qs (if is_ok r then headers_after (ib_hash blk) headers else headers) ∧
       after_insertion blk c c' r).
Proof.
  intros Hc Hlen Hh v parent. pose proof (si_nonempty _ _ _ _ Hc) as Hne.
  split; [by apply (insert_known c hs qs headers blk)|]. split; [by apply (insert_orphan c hs qs headers blk)|].
  intros a anc route. by apply (insert_best_block_new c hs qs headers blk a anc route).
Qed.
End sync.

(** ** A concrete chain: one stored block, and a stored child of it *)

Section sync_examples.
Import Reference.
#[local] Instance checked_sync : Profile := true.

(** A header on top of the stored block, under verification. *)
Definition ex_child : IndexedBlockHeader := mkIndexedBlockHeader ex_h2 (block_header (ex_block ex_h0)).

Definition ex_sync : SyncChain MemoryDatabase :=
  mkSyncChain ex_h0 (mkBestBlock 0 ex_h0) ex_state
    [mkHashQueue [ex_h2] ({[ex_h2]} ∪ ∅); hq_new; hq_new]
    (mkBestHeadersChain ex_h0 (<[ex_h2 := ex_child]> ∅) (mkHashQueue [ex_h2] ({[ex_h2]} ∪ ∅)))
    ∅.

Lemma ex_queue_rep : hq_rep (mkHashQueue [ex_h2] ({[ex_h2]} ∪ ∅)) [ex_h2].
Proof. split_and!; [done|apply list.NoDup_singleton|]. cbn [hq_set]. set_solver. Qed.

Lemma ex_sync_inv : sync_inv ex_sync [ex_h0] [[ex_h2]; []; []] [ex_child].
Proof.
  split.
  - exact ex_inv.
  - done.
  - done.
  - apply Forall2_cons; [exact ex_queue_rep|].
    by do 2 (apply Forall2_cons; [exact hq_rep_new|]).
  - done.
  - split; [|by intros [|i] a b]. split_and!; [done|exact ex_queue_rep|].
    intros h x. cbn [bhc_headers sc_headers_chain ex_sync].
    rewrite lookup_insert_Some, lookup_empty, list_elem_of_singleton.
    split; [intros [[<- <-]|[_ [=]]]; done|intros [-> <-]; by left].
Qed.

Lemma insert_best_block_exact_witness :
  ∃ c', insert_best_block ex_new ex_sync = Some (Ok (mkBlockInsertionResult [ex_h1; ex_h2]), c') ∧
    sync_inv c' [ex_h0; ex_h1; ex_h2] [[ex_h2]; []; []] [].
Proof.
  pose proof (proj2 (proj2 (insert_best_block_exact ex_sync [ex_h0] _ _ ex_new ex_sync_inv eq_refl
    (proj1 (proj2 (proj2 ex_hashes))))) 0%nat ex_h0 [ex_h1] (proj2 (proj2 ex_blocks))
    (proj1 (proj2 ex_blocks)) eq_refl ex_linked) as Hins.
  unfold insertion in Hins. rewrite decide_False in Hins by apply ex_hashes.
  rewrite decide_True in Hins by (apply Nat.ltb_lt; reflexivity).
  rewrite decide_True in Hins by (simpl; lia).
  destruct Hins as (c' & E & Hc' & _).
  - intros h Hh. apply list_elem_of_singleton in Hh as ->. intros Hin.
    apply list_elem_of_singleton in Hin. by apply ex_hashes.
  - reflexivity.
  - reflexivity.
  - exists c'. split; [exact E|]. unfold headers_after in Hc'. cbn [is_ok] in Hc'.
    rewrite decide_True in Hc' by reflexivity. exact Hc'.
Defined.
End sync_examples.
