(* ===== verification/Locator.v ===== *)
(** * The block locator of the synchronization chain

    [block_locator_hashes] walks down the queues and then the store in two loops.
    It is verified against one walk over the heights of the whole chain. *)

From S2P Require Import Prelude External Primitives Serialization Compact Crypto Chain.
From S2P Require Import Storage Network Kv KvRefine BlockChainDb ChainInv ChainOps.
From S2P Require Import HashQueue HeadersChain SyncChain SyncOps.

(** The step down after [k] hashes: it doubles from the tenth hash on. *)
Definition next_step (k : nat) (step : Z) : Z := if (10 <=? k)%nat then 2 * step else step.

(** The heights of a locator: from height [i], with [k] heights above it, the
    last of them [step] higher.  The walk ends with height 0. *)
Inductive locator : Z → Z → nat → list Z → Prop :=
| locator_stop i step k : 0 ≤ i < next_step (S k) step →
    locator i step k (i :: if i =? 0 then [] else [0])
| locator_go i step k l : next_step (S k) step ≤ i →
    locator (i - next_step (S k) step) (next_step (S k) step) (S k) l →
    locator i step k (i :: l).

(** The steps taken so far are below the distance covered from the top. *)
Definition ok_step (top i step : Z) (k : nat) : Prop :=
  0 ≤ i ≤ top ∧ top < 2 ^ 31 ∧
  (step = 1 ∧ (k ≤ 9)%nat ∧ top - i = Z.of_nat k ∨
   (10 ≤ k)%nat ∧ 2 ≤ step ∧ 2 * step ≤ top - i).

Lemma ok_step_start top : 0 ≤ top < 2 ^ 31 → ok_step top top 1 0.
Proof. unfold ok_step. intros. split_and!; lia. Qed.

Lemma ok_step_next top i step k : ok_step top i step k →
  1 ≤ next_step (S k) step < 2 ^ 31 ∧
  (next_step (S k) step ≤ i → ok_step top (i - next_step (S k) step) (next_step (S k) step) (S k)).
Proof.
  unfold ok_step, next_step. intros (Hi & Ht & Hs).
  destruct (Nat.leb_spec 10 (S k)); split; [lia| |lia|]; intros; split_and!; lia.
Qed.

Lemma locator_step_next top i (hashes : list H256) h step : ok_step top i step (length hashes) →
  locator_step (hashes ++ [h]) step = next_step (S (length hashes)) step.
Proof.
  unfold ok_step, next_step, locator_step. intros (Hi & Ht & Hs). rewrite length_app, Nat.add_1_r.
  destruct (10 <=? S (length hashes))%nat; [|done].
  rewrite Z.shiftl_mul_pow2 by lia. rewrite wrap_small by (unfold fits; lia). lia.
Qed.

(** A locator starts at the top, goes down strictly and ends at genesis. *)
Lemma locator_facts i step k l : locator i step k l → 1 ≤ step →
  head l = Some i ∧ list.last l = Some 0 ∧
  (∀ p a b, l !! p = Some a → l !! S p = Some b → b < a) ∧ (∀ a, a ∈ l → 0 ≤ a ≤ i).
Proof.
  assert (∀ k step, 1 ≤ step → 1 ≤ next_step k step) as Hn.
  { intros k' s ?. unfold next_step. destruct (10 <=? k')%nat; lia. }
  induction 1 as [i step k Hi|i step k l Hi Hl IH]; intros Hs.
  - destruct (Z.eqb_spec i 0) as [->|Hne].
    + split_and!; try done. intros a ->%list_elem_of_singleton. lia.
    + split_and!; try done.
      * intros [|[|]] a b; simpl; try done. intros [= ->] [= <-]. lia.
      * intros a Ha. apply elem_of_cons in Ha as [->|Ha]; [lia|].
        apply list_elem_of_singleton in Ha. lia.
  - destruct IH as (Hh & Hla & Hd & Hr); [by apply Hn|]. pose proof (Hn (S k) step Hs).
    split_and!; [done| | |].
    + by rewrite last_cons, Hla.
    + intros [|p] a b; simpl; [|by apply Hd]. intros [= ->] Hb.
      assert (b ∈ l) as Hbl by (by apply list_elem_of_lookup_2 with O). apply Hr in Hbl. lia.
    + intros a Ha. apply elem_of_cons in Ha as [->|Ha]; [lia|]. apply Hr in Ha. lia.
Qed.

(** [new] are the hashes of [chain] at the heights [l]. *)
Abbreviation at_heights chain l new :=
  (Forall2 (λ n (h : H256), chain !! Z.to_nat n = Some h) l new).

(** What is left of a locator below the queues, which stand on [base] stored
    blocks: the walk left them at position [i] with step [step]. *)
Definition below_queues (top base i step : Z) (k : nat) (rest : list Z) : Prop :=
  (base + i < step ∧ rest = [0]) ∨
  (step ≤ base + i ∧ locator (base + i - step) step k rest).

Lemma locator_queue_spec fuel c qs top base i step hashes :
  hqc_rep c qs → u32 (Z.of_nat (length (concat qs))) → 1 ≤ base →
  0 ≤ i < Z.of_nat (length (concat qs)) → i < Z.of_nat fuel →
  ok_step top (base + i) step (length hashes) →
  ∃ l new i' step', locator_queue_loop fuel c i step hashes = Some (hashes ++ new, (step' - i' - 1, step')) ∧
    0 ≤ i' < step' ∧ step' < 2 ^ 31 ∧
    (step' ≤ base + i' → ok_step top (base + i' - step') step' (length (hashes ++ new))) ∧
    Forall2 (λ n h, base ≤ n ∧ concat qs !! Z.to_nat (n - base) = Some h) l new ∧
    ∀ rest, below_queues top base i' step' (length (hashes ++ new)) rest →
      locator (base + i) step (length hashes) (l ++ rest).
Proof.
  intros Hc Hfit Hbase. revert i step hashes. induction fuel as [|fuel IH]; intros i step hashes Hi Hf Hok; [lia|].
  destruct (lookup_lt_is_Some_2 (concat qs) (Z.to_nat i)) as [h Hh]; [lia|].
  cbn [locator_queue_loop]. rewrite (proj2 (hqc_at_concat c qs i Hc ltac:(lia) Hfit)), Hh.
  cbn [mbind option_bind]. rewrite (locator_step_next top (base + i)) by done.
  destruct (ok_step_next _ _ _ _ Hok) as [Hstep Hnext].
  assert (length (hashes ++ [h]) = S (length hashes)) as Elen by (rewrite length_app; simpl; lia).
  destruct (Z.ltb_spec i (next_step (S (length hashes)) step)) as [Hlt|Hge].
  - exists [base + i], [h], i, (next_step (S (length hashes)) step). rewrite Elen.
    split_and!; [done|lia|lia|lia|done| |].
    + repeat constructor; [lia|]. by replace (base + i - base) with i by lia.
    + intros rest [[Hr ->]|[Hr Hl]]; simpl.
      * pose proof (locator_stop (base + i) step (length hashes) ltac:(lia)) as Hstop.
        rewrite (proj2 (Z.eqb_neq (base + i) 0)) in Hstop by lia. done.
      * by apply locator_go.
  - destruct (IH (i - next_step (S (length hashes)) step) (next_step (S (length hashes)) step) (hashes ++ [h]))
      as (l & new & i' & step' & E & Hi' & Hs' & Hok' & Hat & Hrest); [lia|lia| |].
    { rewrite Elen, Z.add_sub_assoc. apply Hnext. lia. }
    exists (base + i :: l), (h :: new), i', step'.
    rewrite (assoc_L _ hashes [h] new : hashes ++ h :: new = _). split_and!; [done|lia|lia|lia|done| |].
    + constructor; [|done]. split; [lia|]. by replace (base + i - base) with i by lia.
    + intros rest Hr. apply locator_go; [lia|]. rewrite Elen in Hrest.
      rewrite <-Z.add_sub_assoc. by apply Hrest.
Qed.

Section loops.
Context {V : VrfOps} {R : RugOps} {P : Profile}.
Context {T : Type} {K : KeyValueDatabase T} {KS : KvSpec T}.

Lemma locator_storage_spec fuel hs genesis top i step hashes (s : BlockChainDatabase T) :
  state_inv s hs → hs !! O = Some genesis → i < Z.of_nat (length hs) → i < Z.of_nat fuel →
  ok_step top i step (length hashes) →
  ∃ l new s', locator i step (length hashes) l ∧
    locator_storage_loop fuel genesis i step hashes s = Some (hashes ++ new, s') ∧
    unchanged s s' ∧ at_heights hs l new.
Proof.
  revert i step hashes s. induction fuel as [|fuel IH]; intros i step hashes s Hs Hg Hi Hf Hok.
  { unfold ok_step in Hok. lia. }
  assert (0 ≤ i) as H0 by (unfold ok_step in Hok; lia).
  destruct (lookup_lt_is_Some_2 hs (Z.to_nat i)) as [h Hh]; [lia|].
  cbn [locator_storage_loop].
  run_read (reads_block_hash (T:=T) i) (proj1 Hs) s1 Hs1.
  rewrite (ci_hash _ _ _ (proj2 Hs)), (proj2 (Z.leb_le 0 i)), Hh by lia.
  match goal with |- context [(lift (Some h) ≫= ?k) s1] =>
    change ((lift (Some h) ≫= k) s1) with (k h s1) end.
  cbv beta zeta.
  rewrite (locator_step_next top i) by done.
  destruct (ok_step_next _ _ _ _ Hok) as [Hstep Hnext].
  destruct (Z.ltb_spec i (next_step (S (length hashes)) step)) as [Hlt|Hge].
  - exists (i :: if i =? 0 then [] else [0]), (h :: if i =? 0 then [] else [genesis]), s1.
    split; [by apply locator_stop|]. destruct (Z.eqb_spec i 0) as [->|Hne]; simpl.
    + split; [done|]. split; [done|]. by repeat constructor.
    + rewrite <-app_assoc. split; [done|]. split; [done|]. by repeat constructor.
  - destruct (IH (i - next_step (S (length hashes)) step) (next_step (S (length hashes)) step)
      (hashes ++ [h]) s1) as (l & new & s' & Hl & E & Hs' & Hat);
      [by eapply unchanged_inv|done|lia|lia| |].
    { rewrite length_app, Nat.add_1_r. by apply Hnext. }
    rewrite length_app, Nat.add_1_r in Hl.
    exists (i :: l), (h :: new), s'. split_and!; [by apply locator_go| |by eapply unchanged_trans..|by constructor].
    by rewrite E, <-app_assoc.
Qed.
(** Heights in the queues are heights of the whole chain. *)
Lemma queue_heights (hs q : list H256) l new :
  Forall2 (λ n h, Z.of_nat (length hs) ≤ n ∧ q !! Z.to_nat (n - Z.of_nat (length hs)) = Some h) l new →
  at_heights (hs ++ q) l new.
Proof.
  intros Hf. eapply list.Forall2_impl; [exact Hf|]. intros n h [Hn Hh].
  rewrite lookup_app_r by lia. by replace (Z.to_nat n - length hs)%nat with (Z.to_nat (n - Z.of_nat (length hs))) by lia.
Qed.

Lemma store_heights (hs q : list H256) l new : at_heights hs l new → at_heights (hs ++ q) l new.
Proof. intros Hf. eapply list.Forall2_impl; [exact Hf|]. intros n h Hh. by apply lookup_app_l_Some. Qed.

Lemma locator_for_storage_spec c hs qs headers top i step hashes :
  sync_inv c hs qs headers → i < Z.of_nat (length hs) → ok_step top i step (length hashes) →
  ∃ l new c', locator i step (length hashes) l ∧
    block_locator_hashes_for_storage i step hashes c = Some (hashes ++ new, c') ∧
    sync_inv c' hs qs headers ∧ at_heights hs l new.
Proof.
  intros Hc Hi Hok.
  destruct (locator_storage_spec (Z.to_nat (i + 1)) hs (sc_genesis_block_hash c) top i step hashes
    (sc_storage c)) as (l & new & s' & Hl & E & Hs' & Hat); try apply Hc; try done.
  { unfold ok_step in Hok. lia. }
  exists l, new, (set_storage s' c). split; [done|]. split; [|split; [by apply si_read|done]].
  unfold block_locator_hashes_for_storage, on_storage. by rewrite E.
Qed.

(** The walk jumps below genesis: only genesis is left. *)
Lemma locator_for_storage_genesis c hs qs headers step hashes :
  sync_inv c hs qs headers → 1 ≤ step < 2 ^ 31 →
  ∃ c', block_locator_hashes_for_storage 0 step hashes c = Some (hashes ++ [sc_genesis_block_hash c], c') ∧
    sync_inv c' hs qs headers.
Proof.
  intros Hc Hstep. pose proof (si_store _ _ _ _ Hc) as Hs.
  unfold block_locator_hashes_for_storage, on_storage. change (Z.to_nat (0 + 1)) with 1%nat.
  cbn [locator_storage_loop].
  run_read (reads_block_hash (T:=T) 0) (proj1 Hs) s1 Hs1.
  rewrite (ci_hash _ _ _ (proj2 Hs)). change (if 0 <=? 0 then hs !! Z.to_nat 0 else None) with (hs !! 0%nat).
  rewrite (si_genesis _ _ _ _ Hc).
  match goal with |- context [(lift (Some ?h) ≫= ?k) s1] =>
    change ((lift (Some h) ≫= k) s1) with (k h s1) end. cbv beta zeta.
  rewrite (proj2 (Z.ltb_lt 0 _)).
  - exists (set_storage s1 c). split; [done|]. by apply si_read.
  - unfold locator_step. destruct (10 <=? _)%nat; [|lia].
    rewrite Z.shiftl_mul_pow2, wrap_small by (unfold fits; lia). lia.
Qed.

Lemma best_number c hs qs headers : sync_inv c hs qs headers →
  bb_number (sc_best_storage_block c) = Z.of_nat (length hs) - 1.
Proof.
  intros Hc. pose proof (si_nonempty _ _ _ _ Hc) as Hne. rewrite (si_best _ _ _ _ Hc).
  destruct hs as [|x hs _] using rev_ind; [done|]. rewrite best_of_snoc, length_app. simpl. lia.
Qed.

(** The two loops make one walk. *)
Lemma locator_two_loops c hs qs headers top :
  sync_inv c hs qs headers → top = Z.of_nat (length hs) + Z.of_nat (length (concat qs)) - 1 →
  top < 2 ^ 31 → length (concat qs) ≠ 0%nat →
  ∃ l hashes c', locator top 1 0 l ∧ block_locator_hashes c = Some (hashes, c') ∧
    sync_inv c' hs qs headers ∧ at_heights (hs ++ concat qs) l hashes.
Proof.
  intros Hc Htop Hlen Hq. pose proof (si_genesis _ _ _ _ Hc) as Hg.
  assert (1 ≤ Z.of_nat (length hs)) as H1 by (destruct hs; [done|simpl; lia]).
  assert (u32 (Z.of_nat (length (concat qs)))) as Hfit by (unfold fits; lia).
  pose proof (hqc_rep_fold (sc_hash_chain c) qs 0 (si_queues _ _ _ _ Hc) ltac:(lia) Hfit : hqc_len _ = _) as Elen.
  unfold block_locator_hashes, block_locator_hashes_for_queue.
  rewrite Elen, (best_number _ _ _ _ Hc), Z.add_0_l. cbn [mbind option_bind].
  rewrite (proj2 (Z.eqb_neq _ 0)) by lia.
  destruct (locator_queue_spec (Z.to_nat (Z.of_nat (length (concat qs)))) (sc_hash_chain c) qs top
    (Z.of_nat (length hs)) (Z.of_nat (length (concat qs)) - 1) 1 [])
    as (l & new & i & step & -> & Hi & Hs & Hok & Hat & Hrest); try apply Hc; try done; [lia..| |].
  { replace (Z.of_nat (length hs) + (Z.of_nat (length (concat qs)) - 1)) with top by lia.
    apply ok_step_start. lia. }
  rewrite Z.add_sub_assoc, <-Htop in Hrest. apply queue_heights in Hat. cbn [mbind option_bind].
  destruct (Z.ltb_spec (Z.of_nat (length hs) - 1) (step - i - 1)) as [Hlt|Hge].
  - destruct (locator_for_storage_genesis c hs qs headers step ([] ++ new) Hc) as (c' & E & Hc'); [lia|].
    exists (l ++ [0]), (new ++ [sc_genesis_block_hash c]), c'. split_and!; [|done..|].
    + apply Hrest. left. split; [lia|done].
    + apply Forall2_app; [done|]. repeat constructor. by apply lookup_app_l_Some.
  - replace (Z.of_nat (length hs) - 1 - (step - i - 1)) with (Z.of_nat (length hs) + i - step) by lia.
    destruct (locator_for_storage_spec c hs qs headers top (Z.of_nat (length hs) + i - step) step ([] ++ new) Hc)
      as (l' & new' & c' & Hl' & E & Hc' & Hat'); [lia|apply Hok; lia|].
    exists (l ++ l'), (new ++ new'), c'. split_and!; [|done..|].
    + apply Hrest. right. split; [lia|done].
    + by apply Forall2_app; [|apply store_heights].
Qed.

Lemma locator_store_only c hs qs headers top :
  sync_inv c hs qs headers → top = Z.of_nat (length hs) - 1 → top < 2 ^ 31 → length (concat qs) = 0%nat →
  ∃ l hashes c', locator top 1 0 l ∧ block_locator_hashes c = Some (hashes, c') ∧
    sync_inv c' hs qs headers ∧ at_heights (hs ++ concat qs) l hashes.
Proof.
  intros Hc Htop Hlen Hq. pose proof (si_nonempty _ _ _ _ Hc) as Hne.
  assert (1 ≤ Z.of_nat (length hs)) as H1 by (destruct hs; [done|simpl; lia]).
  pose proof (hqc_rep_fold (sc_hash_chain c) qs 0 (si_queues _ _ _ _ Hc) ltac:(lia)) as Elen.
  unfold block_locator_hashes, block_locator_hashes_for_queue, hqc_len.
  rewrite Elen, Hq, (best_number _ _ _ _ Hc) by (rewrite Hq; done).
  change (0 + Z.of_nat 0) with 0. cbn [mbind option_bind]. rewrite Z.eqb_refl. cbn [mbind option_bind].
  rewrite (proj2 (Z.ltb_ge _ 0)) by lia.
  destruct (locator_for_storage_spec c hs qs headers top top 1 [] Hc) as (l & new & c' & Hl & E & Hc' & Hat);
    [lia|apply ok_step_start; lia|].
  exists l, new, c'. rewrite Z.sub_0_r, <-Htop. split_and!; [done..|by apply store_heights].
Qed.

Lemma block_locator_spec (c : SyncChain T) hs qs headers :
  sync_inv c hs qs headers → Z.of_nat (length (hs ++ concat qs)) ≤ 2 ^ 31 →
  ∃ l hashes c', locator (Z.of_nat (length (hs ++ concat qs)) - 1) 1 0 l ∧
    block_locator_hashes c = Some (hashes, c') ∧ sync_inv c' hs qs headers ∧
    at_heights (hs ++ concat qs) l hashes ∧
    head l = Some (Z.of_nat (length (hs ++ concat qs)) - 1) ∧ list.last l = Some 0 ∧
    (∀ p a b, l !! p = Some a → l !! S p = Some b → b < a).
Proof.
  intros Hc Hlen. rewrite length_app in *.
  assert (∃ l hashes c', locator (Z.of_nat (length hs + length (concat qs)) - 1) 1 0 l ∧
    block_locator_hashes c = Some (hashes, c') ∧ sync_inv c' hs qs headers ∧
    at_heights (hs ++ concat qs) l hashes) as (l & hashes & c' & Hl & E & Hc' & Hat).
  { destruct (decide (length (concat qs) = 0%nat)); [apply locator_store_only|apply locator_two_loops];
      first [done|lia]. }
  destruct (locator_facts _ _ _ _ Hl) as (? & ? & ? & _); [lia|]. exists l, hashes, c'. by split_and!.
Qed.
(** C24: the block locator.  For a stored chain [hs] with the queues [qs] on top
    of it (up to 2^31 blocks in all) [block_locator_hashes] does not panic or
    loop, changes nothing, and returns the hashes of the whole chain
    [hs ++ concat qs] at the heights of one walk from its top: ten consecutive
    heights, then with a step that doubles each time, and genesis at the end. *)
Theorem block_locator_exact (c : SyncChain T) hs qs headers :
  sync_inv c hs qs headers → Z.of_nat (length (hs ++ concat qs)) ≤ 2 ^ 31 →
  ∃ l hashes c', locator (Z.of_nat (length (hs ++ concat qs)) - 1) 1 0 l ∧
    block_locator_hashes c = Some (hashes, c') ∧ sync_inv c' hs qs headers ∧
    at_heights (hs ++ concat qs) l hashes ∧
    head l = Some (Z.of_nat (length (hs ++ concat qs)) - 1) ∧ list.last l = Some 0 ∧
    (∀ p a b, l !! p = Some a → l !! S p = Some b → b < a).
Proof. apply block_locator_spec. Qed.
End loops.

Section locator_examples.
Import Reference.
#[local] Instance checked_locator : Profile := true.

Lemma block_locator_exact_witness :
  ∃ c', block_locator_hashes ex_sync = Some ([ex_h2; ex_h0], c').
Proof.
  destruct (block_locator_exact ex_sync [ex_h0] _ _ ex_sync_inv ltac:(done))
    as (l & hashes & c' & Hl & E & _ & Hat & _).
  exists c'. rewrite E. do 2 f_equal. change (locator 1 1 0 l) in Hl.
  inversion Hl as [? ? ? Hs|? ? ? l1 Hs Hl1]; subst; [exfalso; unfold next_step in Hs; simpl in Hs; lia|].
  change (locator 0 1 1 l1) in Hl1.
  inversion Hl1 as [? ? ? Hs1|? ? ? l2 Hs1 Hl2]; subst; [|exfalso; unfold next_step in Hs1; simpl in Hs1; lia].
  inversion Hat as [|? h1 ? t1 E1 Hat1]; subst. inversion Hat1 as [|? h2 ? t2 E2 Hat2]; subst.
  inversion Hat2; subst. injection E1 as <-. injection E2 as <-. reflexivity.
Defined.
End locator_examples.
