(* ===== verification/SyncQueues.v ===== *)
(** * The in-memory part of the synchronization chain

    The three queues of hashes and the headers chain, verified against three
    lists and a linked list of headers. *)

From S2P Require Import Prelude External Primitives Serialization Compact Crypto Chain.
From S2P Require Import Storage Network Kv KvRefine BlockChainDb ChainInv ChainOps.
From S2P Require Import HashQueue HeadersChain SyncChain SyncOps Locator.

Section queues.
Context {V : VrfOps} {R : RugOps} {P : Profile}.
Context {T : Type} {K : KeyValueDatabase T} {KS : KvSpec T}.

(** ** The abstract state *)

(** The queues by index: verifying, requested, scheduled. *)
Record Mem := mkMem { mem_queues : list (list H256); mem_headers : list IndexedBlockHeader }.

Inductive SyncOp :=
| SSchedule (headers : list IndexedBlockHeader)
| SRequest (n : Z)
| SVerify (header : IndexedBlockHeader)
| SVerifyHashes (n : Z)
| SForget (hash : H256)
| SForgetLeaveHeader (hash : H256)
| SForgetInState (hash : H256) (state : BlockState)
| SForgetAll (state : BlockState).

(** The answers: the hashes that moved, or the position of the forgotten hash. *)
Definition sync_step (op : SyncOp) : SM T QueueAnswer :=
  match op with
  | SSchedule headers => _ ← schedule_blocks_headers headers; mret AnsUnit
  | SRequest n => hs ← request_blocks_hashes n; mret (AnsHashes hs)
  | SVerify header => _ ← chain_verify_block header; mret AnsUnit
  | SVerifyHashes n => hs ← verify_blocks_hashes n; mret (AnsHashes hs)
  | SForget h => p ← forget_block h; mret (AnsPosition p)
  | SForgetLeaveHeader h => p ← forget_block_leave_header h; mret (AnsPosition p)
  | SForgetInState h state => p ← forget_block_with_state_leave_header h state; mret (AnsPosition p)
  | SForgetAll state => _ ← forget_all_blocks_with_state state; mret AnsUnit
  end.

(** An operation on queue [i]. *)
Definition mem_queue (i : nat) (op : QueueOp) (m : Mem) : option (QueueAnswer * Mem) :=
  l ← mem_queues m !! i;
  '(a, l) ← list_step op l;
  Some (a, mkMem (<[i := l]> (mem_queues m)) (mem_headers m)).

(** Operations on the headers, which stand on the block [best]. *)
Definition mem_on_headers (best : H256) (ops : list HeadersOp) (m : Mem) : option (unit * Mem) :=
  '(_, hs) ← (run_steps headers_step ops (best, mem_headers m)).2;
  Some (tt, mkMem (mem_queues m) hs).

(** The hash moves out of the first queue that holds it. *)
Fixpoint mem_forget (queues : list nat) (h : H256) (m : Mem) : option (QueueAnswer * Mem) :=
  match queues with
  | [] => None
  | [i] => mem_queue i (OpRemove h) m
  | i :: queues =>
      '(a, m) ← mem_queue i (OpRemove h) m;
      match a with
      | AnsPosition Missing => mem_forget queues h m
      | a => Some (a, m)
      end
  end.

(** Hashes move from the front of queue [i] to the back of queue [j]. *)
Definition mem_move (i j : nat) (n : Z) (m : Mem) : option (QueueAnswer * Mem) :=
  '(a, m) ← mem_queue i (OpPopFrontN n) m;
  match a with
  | AnsHashes hs => '(_, m) ← mem_queue j (OpPushBackN hs) m; Some (a, m)
  | _ => None
  end.

Definition mem_step (best : H256) (op : SyncOp) (m : Mem) : option (QueueAnswer * Mem) :=
  match op with
  | SSchedule headers =>
      '(_, m) ← mem_queue SCHEDULED_QUEUE (OpPushBackN (ih_hash <$> headers)) m;
      '(_, m) ← mem_on_headers best (HInsert <$> headers) m;
      Some (AnsUnit, m)
  | SRequest n => mem_move SCHEDULED_QUEUE REQUESTED_QUEUE n m
  | SVerify header =>
      '(_, m) ← mem_queue VERIFYING_QUEUE (OpPushBack (ih_hash header)) m;
      '(_, m) ← mem_on_headers best [HInsert header] m;
      Some (AnsUnit, m)
  | SVerifyHashes n => mem_move REQUESTED_QUEUE VERIFYING_QUEUE n m
  | SForget h =>
      '(_, m) ← mem_on_headers best [HRemove h] m;
      mem_forget [VERIFYING_QUEUE; REQUESTED_QUEUE; SCHEDULED_QUEUE] h m
  | SForgetLeaveHeader h =>
      mem_forget [VERIFYING_QUEUE; REQUESTED_QUEUE; SCHEDULED_QUEUE] h m
  | SForgetInState h state => i ← to_queue_index state; mem_queue i (OpRemove h) m
  | SForgetAll state =>
      i ← to_queue_index state;
      '(a, m) ← mem_queue i OpRemoveAll m;
      match a with
      | AnsHashes hs => '(_, m) ← mem_on_headers best (HRemove <$> hs) m; Some (AnsUnit, m)
      | _ => None
      end
  end.

(** ** Simulation *)

(** Both computations panic, or their answers agree by [f] and the states stay
    related. *)
Definition simulates {A B} (f : A → B) (hs : list H256)
    (x : option (A * SyncChain T)) (y : option (B * Mem)) : Prop :=
  match x, y with
  | Some (a, c), Some (b, m) => f a = b ∧ sync_inv c hs (mem_queues m) (mem_headers m)
  | None, None => True
  | _, _ => False
  end.

Abbreviation related hs c m := (sync_inv c hs (mem_queues m) (mem_headers m)).

Lemma sim_ret {A B} (f : A → B) hs (a : A) b c m :
  related hs c m → f a = b → simulates f hs ((mret a : SM T A) c) (Some (b, m)).
Proof. done. Qed.

Lemma sim_bind {A B C D} (f : A → B) (g : C → D) hs (x : SM T A) c y
    (k : A → SM T C) (k' : B → Mem → option (D * Mem)) :
  simulates f hs (x c) y →
  (∀ a c' m', x c = Some (a, c') → y = Some (f a, m') → related hs c' m' →
     simulates g hs (k a c') (k' (f a) m')) →
  simulates g hs ((x ≫= k) c) ('(b, m) ← y; k' b m).
Proof.
  intros Hx Hk. unfold mbind at 1, SM_bind. unfold simulates in Hx.
  destruct (x c) as [[a c']|], y as [[b m']|]; try done. destruct Hx as [<- Hc]. by apply Hk.
Qed.

(** Replacing one queue. *)
Lemma si_set_queue c hs qs headers i q l :
  sync_inv c hs qs headers → hq_rep q l →
  sync_inv (set_hash_chain (<[i := q]> (sc_hash_chain c)) c) hs (<[i := l]> qs) headers.
Proof.
  intros [] Hq. split; try done; cbn.
  - by apply Forall2_insert.
  - by rewrite length_insert.
Qed.

Lemma si_queue c hs qs headers i : sync_inv c hs qs headers →
  match sc_hash_chain c !! i, qs !! i with
  | Some q, Some l => hq_rep q l
  | None, None => True
  | _, _ => False
  end.
Proof.
  intros Hc. by destruct (proj1 (Forall2_lookup _ _ _) (si_queues _ _ _ _ Hc) i).
Qed.

Lemma SM_bind_run {A B} (m : SM T A) (k : A → SM T B) c : (m ≫= k) c = ('(a, c) ← m c; k a c).
Proof. unfold mbind at 1, SM_bind. by destruct (m c) as [[]|]. Qed.

(** An operation on queue [i] of the chain of queues. *)
Definition hqc_op (i : nat) (op : QueueOp) (q : HashQueueChain) : option (QueueAnswer * HashQueueChain) :=
  queue ← q !! i; '(a, queue) ← hq_step op queue; Some (a, <[i := queue]> q).

Lemma sim_queue {A} (f : A → QueueAnswer) hs c m i op g : related hs c m →
  (∀ q, ('(a, q) ← g q; Some (f a, q)) = hqc_op i op q) →
  simulates f hs (on_hashes g c) (mem_queue i op m).
Proof.
  intros Hc Hg. specialize (Hg (sc_hash_chain c)). unfold on_hashes, mem_queue. unfold hqc_op in Hg.
  pose proof (si_queue _ _ _ _ i Hc) as Hq.
  destruct (sc_hash_chain c !! i) as [q|], (mem_queues m !! i) as [l|]; try done; cbn in Hg |- *;
    [|by destruct (g _) as [[]|]].
  pose proof (hq_step_rep op q l Hq) as Hs.
  destruct (hq_step op q) as [[a q']|], (list_step op l) as [[b l']|], (g _) as [[x y]|]; try done.
  cbn in Hg |- *. injection Hg as -> ->. destruct Hs as [-> Hq']. split; [done|]. by apply si_set_queue.
Qed.

(** Closes the equation of [sim_queue] for a method of the chain of queues. *)
Ltac queue_op :=
  let q := fresh in let l := fresh in
  intros q; unfold hqc_push_back_n_at, hqc_push_back_at, hqc_pop_front_n_at, hqc_remove_at,
    hqc_remove_all_at, hqc_op;
  destruct (q !! _) as [l|]; [cbn|done];
  repeat match goal with
  | |- context [hq_push_back_n ?q ?h] => destruct (hq_push_back_n q h)
  | |- context [hq_push_back ?q ?h] => destruct (hq_push_back q h)
  | |- context [hq_pop_front_n ?q ?h] => destruct (hq_pop_front_n q h)
  | |- context [hq_remove ?q ?h] => destruct (hq_remove q h) as [[]|]
  end; done.

Lemma sim_push_n hs c m i l : related hs c m →
  simulates (λ _, AnsUnit) hs (on_hashes (λ q, pair tt <$> hqc_push_back_n_at q i l) c)
    (mem_queue i (OpPushBackN l) m).
Proof. intros Hc. apply sim_queue; [done|]. queue_op. Qed.

Lemma sim_push hs c m i h : related hs c m →
  simulates (λ _, AnsUnit) hs (on_hashes (λ q, pair tt <$> hqc_push_back_at q i h) c)
    (mem_queue i (OpPushBack h) m).
Proof. intros Hc. apply sim_queue; [done|]. queue_op. Qed.

Lemma sim_pop_n hs c m i n : related hs c m →
  simulates AnsHashes hs (on_hashes (λ q, hqc_pop_front_n_at q i n) c) (mem_queue i (OpPopFrontN n) m).
Proof. intros Hc. apply sim_queue; [done|]. queue_op. Qed.

Lemma sim_remove hs c m i h : related hs c m →
  simulates AnsPosition hs (on_hashes (λ q, hqc_remove_at q i h) c) (mem_queue i (OpRemove h) m).
Proof. intros Hc. apply sim_queue; [done|]. queue_op. Qed.

Lemma sim_remove_all hs c m i : related hs c m →
  simulates AnsHashes hs (on_hashes (λ q, hqc_remove_all_at q i) c) (mem_queue i OpRemoveAll m).
Proof. intros Hc. apply sim_queue; [done|]. queue_op. Qed.

(** Operations on the headers chain that do not concern the store. *)
Definition mem_only (op : HeadersOp) : Prop :=
  match op with HStored _ _ => False | _ => True end.

Lemma headers_run_best ops best hs best' hs' : Forall mem_only ops →
  (run_steps headers_step ops (best, hs)).2 = Some (best', hs') → best' = best.
Proof.
  intros Hops. revert hs. induction Hops as [|op ops Hop Hops IH]; intros hs; cbn [run_steps]; [simpl; congruence|].
  assert (∀ u s, headers_step op (best, hs) = Some (u, s) → s.1 = best) as Hst.
  { intros u s. destruct op; simpl in *; try done; repeat case_decide; simpl; intros; simplify_eq/=; done. }
  destruct (headers_step op (best, hs)) as [[u [b1 h1]]|]; [|simpl; discriminate].
  specialize (Hst u (b1, h1) eq_refl). simpl in Hst. subst b1. specialize (IH h1).
  destruct (run_steps headers_step ops (best, h1)). done.
Qed.

Lemma sim_headers hs c m ops g : related hs c m → Forall mem_only ops →
  u32 (Z.of_nat (length (mem_headers m) + length ops)) →
  (∀ h, g h = (run_steps bhc_step ops h).2) →
  simulates id hs (on_headers g c) (mem_on_headers (bb_hash (best_of hs)) ops m).
Proof.
  intros Hc Hops Hfit Hg. unfold on_headers, mem_on_headers. rewrite Hg.
  pose proof (bhc_run_rep ops _ _ _ (si_headers _ _ _ _ Hc) Hfit) as Hr.
  pose proof (headers_run_best ops (bb_hash (best_of hs)) (mem_headers m)) as Hb.
  destruct (run_steps bhc_step ops _) as [a [h|]], (run_steps headers_step ops _) as [a' [[best' hdrs]|]];
    simpl in *; try done.
  split; [done|]. rewrite (Hb best' hdrs) in Hr by done. destruct Hc. by split; try apply Hr.
Qed.

Lemma sim_forget hs c m h : related hs c m →
  simulates AnsPosition hs (forget_block_leave_header h c)
    (mem_forget [VERIFYING_QUEUE; REQUESTED_QUEUE; SCHEDULED_QUEUE] h m).
Proof.
  intros Hc. unfold forget_block_leave_header. cbn [mem_forget].
  apply (sim_bind AnsPosition); [by apply sim_remove|]. intros [| |i] c1 m1 _ _ Hc1; try done.
  apply (sim_bind AnsPosition); [by apply sim_remove|]. intros [| |i] c2 m2 _ _ Hc2; try done.
  by apply sim_remove.
Qed.

Lemma sim_move hs c m i j n : related hs c m →
  simulates AnsHashes hs ((l ← on_hashes (λ q, hqc_pop_front_n_at q i n);
      _ ← on_hashes (λ q, pair tt <$> hqc_push_back_n_at q j l); mret l) c)
    (mem_move i j n m).
Proof.
  intros Hc. unfold mem_move.
  apply (sim_bind AnsHashes); [by apply sim_pop_n|]. intros l c1 m1 _ _ Hc1.
  apply (sim_bind (λ _, AnsUnit)); [by apply sim_push_n|]. intros u c2 m2 _ _ Hc2. done.
Qed.

(** How many headers an operation may touch. *)
Definition op_size (op : SyncOp) : nat :=
  match op with SSchedule headers => length headers | _ => 1%nat end.

Lemma fmap_answer {A} (f : A → QueueAnswer) hs (x : SM T A) c y : simulates f hs (x c) y →
  simulates id hs ((a ← x; mret (f a)) c) y.
Proof.
  unfold simulates, mbind, SM_bind. intros Hx.
  by destruct (x c) as [[a c']|], y as [[b m]|].
Qed.

Lemma sim_unit hs (x : SM T unit) c y :
  simulates (λ _, AnsUnit) hs (x c) y → simulates id hs ((_ ← x; mret AnsUnit) c) y.
Proof. apply (fmap_answer (λ _ : unit, AnsUnit)). Qed.

Lemma sim_then_unit hs (x : option (unit * SyncChain T)) y : simulates id hs x y →
  simulates (λ _, AnsUnit) hs x ('(_, m) ← y; Some (AnsUnit, m)).
Proof. unfold simulates. intros Hx. destruct x as [[]|], y as [[]|]; try done. naive_solver. Qed.

Lemma mem_queue_headers i op a m m' : mem_queue i op m = Some (a, m') → mem_headers m' = mem_headers m.
Proof.
  unfold mem_queue. intros E. destruct (mem_queues m !! i); [|done]. cbn in E.
  destruct (list_step op _) as [[]|]; [|done]. by injection E as _ <-.
Qed.

Lemma bhc_step_run op h y : bhc_step op h = pair tt <$> y → y = (run_steps bhc_step [op] h).2.
Proof. cbn [run_steps]. intros ->. by destruct y. Qed.

Lemma length_mem_queue m i l op m' : mem_queue i op m = Some (AnsHashes l, m') → op = OpRemoveAll →
  (length l ≤ length (concat (mem_queues m)))%nat ∧ mem_headers m' = mem_headers m.
Proof.
  intros E ->. unfold mem_queue in E. destruct (mem_queues m !! i) as [k|] eqn:Ek; [|done].
  cbn in E. injection E as <- <-. split; [|done].
  rewrite <-(take_drop_middle _ _ _ Ek), concat_app. simpl. rewrite !length_app. lia.
Qed.

Lemma sim_schedule hs c m l : related hs c m → u32 (Z.of_nat (length (mem_headers m) + length l)) →
  simulates (λ _, AnsUnit) hs (schedule_blocks_headers l c) (mem_step (bb_hash (best_of hs)) (SSchedule l) m).
Proof.
  intros Hc Hfit. unfold schedule_blocks_headers. cbn [mem_step].
  apply (sim_bind (λ _, AnsUnit)); [by apply sim_push_n|]. intros u c1 m1 _ E1 Hc1.
  apply sim_then_unit, sim_headers; [done|by apply Forall_fmap, Forall_true| |intros h; apply bhc_insert_n_run].
  by rewrite length_fmap, (mem_queue_headers _ _ _ _ _ E1).
Qed.

Lemma sim_verify hs c m x : related hs c m → u32 (Z.of_nat (length (mem_headers m) + 1)) →
  simulates (λ _, AnsUnit) hs (chain_verify_block x c) (mem_step (bb_hash (best_of hs)) (SVerify x) m).
Proof.
  intros Hc Hfit. unfold chain_verify_block. cbn [mem_step].
  apply (sim_bind (λ _, AnsUnit)); [by apply sim_push|]. intros u c1 m1 _ E1 Hc1.
  apply sim_then_unit, sim_headers; [done|by apply list.Forall_singleton| |intros h; by apply bhc_step_run].
  by rewrite (mem_queue_headers _ _ _ _ _ E1).
Qed.

Lemma sim_forget_block hs c m h : related hs c m → u32 (Z.of_nat (length (mem_headers m) + 1)) →
  simulates AnsPosition hs (forget_block h c) (mem_step (bb_hash (best_of hs)) (SForget h) m).
Proof.
  intros Hc Hfit. apply (sim_bind id); [|intros u c1 m1 _ _ Hc1; by apply sim_forget].
  apply sim_headers; [done|by apply list.Forall_singleton|done|]. intros h'. by apply bhc_step_run.
Qed.

Lemma sim_forget_all hs c m st : related hs c m →
  u32 (Z.of_nat (length (mem_headers m) + length (concat (mem_queues m)))) →
  simulates (λ _, AnsUnit) hs (forget_all_blocks_with_state st c) (mem_step (bb_hash (best_of hs)) (SForgetAll st) m).
Proof.
  intros Hc Hfit. unfold forget_all_blocks_with_state. cbn [mem_step]. destruct (to_queue_index st); [|done].
  apply (sim_bind AnsHashes); [by apply sim_remove_all|]. intros l c1 m1 _ E1 Hc1.
  apply sim_then_unit, sim_headers; [done|by apply Forall_fmap, Forall_true| |intros h; apply bhc_remove_n_run].
  destruct (length_mem_queue _ _ _ _ _ E1 eq_refl) as [Hl ->]. rewrite length_fmap.
  unfold fits in *. lia.
Qed.

(** C25: the in-memory operations of the synchronization chain act on three
    lists of hashes and a list of headers.  [schedule_blocks_headers] appends to
    the scheduled queue and extends the headers, [request_blocks_hashes] moves
    hashes from the front of the scheduled queue to the back of the requested
    one, [verify_block] and [verify_blocks_hashes] fill the verifying queue, and
    the [forget] operations take a hash out of the first queue that holds it
    and cut the headers there.  Each gives the answer the lists give, keeps the
    stored chain, and panics exactly where the lists do: when a queue would
    hold a hash twice or the state has no queue. *)
Theorem sync_queues_refine hs c m op :
  related hs c m →
  u32 (Z.of_nat (length (mem_headers m) + length (concat (mem_queues m)) + op_size op)) →
  simulates id hs (sync_step op c) (mem_step (bb_hash (best_of hs)) op m).
Proof.
  intros Hc Hfit. destruct op as [l|n|x|n|h|h|h st|st]; cbn [sync_step op_size] in *.
  - apply sim_unit, sim_schedule; [done|]. unfold fits in *. lia.
  - apply fmap_answer, sim_move, Hc.
  - apply sim_unit, sim_verify; [done|]. unfold fits in *. lia.
  - apply fmap_answer, sim_move, Hc.
  - apply fmap_answer, sim_forget_block; [done|]. unfold fits in *. lia.
  - by apply fmap_answer, sim_forget.
  - apply fmap_answer. cbn [mem_step]. unfold forget_block_with_state_leave_header.
    destruct (to_queue_index st); [|done]. by apply sim_remove.
  - apply sim_unit, sim_forget_all; [done|]. unfold fits in *. lia.
Qed.

(** ** Forgetting a block and its descendants *)

Lemma list_step_remove h l : ∃ p, list_step (OpRemove h) l = Some (AnsPosition p, filter (λ x, x ≠ h) l) ∧
  (p = Missing ↔ h ∉ l).
Proof.
  eexists. split; [reflexivity|].
  destruct (list_find (λ x, x = h) l) as [[i x]|] eqn:Hf.
  - apply list_find_Some in Hf as (Hi & -> & _). apply list_elem_of_lookup_2 in Hi.
    destruct i; split; done.
  - apply list_find_None in Hf. rewrite list.Forall_forall in Hf. split; [|done].
    intros _ Hin. by apply (Hf h).
Qed.

(** When every hash is in one queue at most, forgetting one removes it
    everywhere. *)
Lemma mem_forget_filter m h v r q : mem_queues m = [v; r; q] → NoDup (v ++ r ++ q) →
  ∃ a, mem_forget [VERIFYING_QUEUE; REQUESTED_QUEUE; SCHEDULED_QUEUE] h m =
    Some (AnsPosition a, mkMem (filter (λ x, x ≠ h) <$> mem_queues m) (mem_headers m)).
Proof.
  intros Em (_ & Hv & (_ & Hr & _)%list.NoDup_app)%list.NoDup_app.
  cbn [mem_forget]. unfold mem_queue. rewrite Em.
  cbn [lookup list_lookup VERIFYING_QUEUE REQUESTED_QUEUE SCHEDULED_QUEUE mbind option_bind].
  destruct (list_step_remove h v) as (p & -> & Hp). cbn -[list_step].
  assert (p ≠ Missing → filter (λ x, x ≠ h) r = r ∧ filter (λ x, x ≠ h) q = q) as Hskip.
  { intros Hne. assert (h ∈ v) as Hin by (destruct (decide (h ∈ v)); naive_solver).
    specialize (Hv h Hin). rewrite not_elem_of_app in Hv. split; apply filter_ne_absent; naive_solver. }
  destruct p as [| |i]; [|destruct Hskip as [-> ->]; [done|by eexists]..].
  destruct (list_step_remove h r) as (p & -> & Hp'). cbn -[list_step].
  assert (p ≠ Missing → filter (λ x, x ≠ h) q = q) as Hskip'.
  { intros Hne. assert (h ∈ r) as Hin by (destruct (decide (h ∈ r)); naive_solver).
    apply filter_ne_absent, (Hr h Hin). }
  destruct p as [| |i]; [|rewrite Hskip' by done; by eexists..].
  destruct (list_step_remove h q) as (p & -> & Hp''). cbn. by eexists.
Qed.

(** The headers that remain when the header [h] and those after it go. *)
Definition cut (h : H256) (headers : list IndexedBlockHeader) : list IndexedBlockHeader :=
  match list_find (λ x, ih_hash x = h) headers with Some (i, _) => take i headers | None => headers end.

Lemma forget_block_spec hs c m h v r q : related hs c m → mem_queues m = [v; r; q] → NoDup (v ++ r ++ q) →
  u32 (Z.of_nat (length (mem_headers m) + 1)) →
  ∃ a c', forget_block h c = Some (a, c') ∧
    related hs c' (mkMem (filter (λ x, x ≠ h) <$> mem_queues m) (cut h (mem_headers m))).
Proof.
  intros Hc Em Hnd Hfit.
  pose proof (sim_forget_block hs c m h Hc Hfit) as Hsim.
  cbn [mem_step] in Hsim.
  change (mem_on_headers (bb_hash (best_of hs)) [HRemove h] m)
    with (Some (tt, mkMem (mem_queues m) (cut h (mem_headers m)))) in Hsim. cbn [mbind option_bind] in Hsim.
  destruct (mem_forget_filter (mkMem (mem_queues m) (cut h (mem_headers m))) h v r q Em Hnd) as [a Ea].
  rewrite Ea in Hsim. unfold simulates in Hsim.
  destruct (forget_block h c) as [[a' c']|]; [|done]. exists a', c'. split; [done|]. apply Hsim.
Qed.

Lemma filter_nodup_triple (g : list H256 → list H256) v r q :
  (∀ l, g l `sublist_of` l) → NoDup (v ++ r ++ q) → NoDup (g v ++ g r ++ g q).
Proof.
  intros Hg Hnd. apply (sublist_NoDup _ (v ++ r ++ q)); [done|].
  apply sublist_app; [|apply sublist_app]; apply Hg.
Qed.

Lemma forget_blocks_spec hs l c m v r q : related hs c m → mem_queues m = [v; r; q] →
  NoDup (v ++ r ++ q) → u32 (Z.of_nat (length (mem_headers m) + 1)) →
  ∃ c', forget_blocks l c = Some (tt, c') ∧
    related hs c' (mkMem (filter (λ x, x ∉ l) <$> mem_queues m) (foldl (λ hd h, cut h hd) (mem_headers m) l)).
Proof.
  revert c m v r q. induction l as [|h l IH]; intros c m v r q Hc Em Hnd Hfit.
  - exists c. split; [done|]. simpl. replace (filter (λ x, x ∉ []) <$> mem_queues m) with (mem_queues m).
    { by destruct m. }
    rewrite <-list_fmap_id at 1. apply list_fmap_ext. intros i k _. symmetry. apply filter_all. set_solver.
  - cbn [forget_blocks]. destruct (forget_block_spec hs c m h v r q Hc Em Hnd Hfit) as (a & c1 & E1 & Hc1).
    rewrite SM_bind_run, E1. cbn [mbind option_bind].
    destruct (IH c1 _ (filter (λ x, x ≠ h) v) (filter (λ x, x ≠ h) r) (filter (λ x, x ≠ h) q) Hc1)
      as (c' & -> & Hc').
    + simpl. by rewrite Em.
    + by apply (filter_nodup_triple (filter (λ x, x ≠ h))); [intros; apply sublist_filter|].
    + simpl. unfold cut. destruct (list_find _ _) as [[]|]; [rewrite length_take|]; unfold fits in *; lia.
    + exists c'. split; [done|]. simpl in Hc'. rewrite <-list_fmap_compose in Hc'.
      erewrite list_fmap_ext; [exact Hc'|]. intros i k _. simpl. rewrite list_filter_filter.
      apply list_filter_iff. set_solver.
Qed.

Lemma collect_children_chain fuel h best hd i x acc :
  bhc_holds h best hd → u32 (Z.of_nat (length hd)) → hd !! i = Some x → (length hd - i ≤ fuel)%nat →
  collect_children fuel h [ih_hash x] acc = Some (acc ++ (ih_hash <$> drop i hd)).
Proof.
  intros Hh Hfit. revert i x acc. induction fuel as [|fuel IH]; intros i x acc Hi Hf;
    pose proof (lookup_lt_Some _ _ _ Hi); [lia|].
  cbn [collect_children]. rewrite (bhc_children_spec h best hd i x Hh Hfit Hi). cbn [mbind option_bind app].
  rewrite (drop_S _ _ _ Hi). destruct (hd !! S i) as [y|] eqn:Hy; simpl.
  - rewrite (IH (S i) y) by (done || lia). by rewrite <-app_assoc.
  - rewrite drop_ge by (apply lookup_ge_None in Hy; lia). by destruct fuel.
Qed.

Lemma collect_children_absent fuel h best hd g :
  bhc_holds h best hd → u32 (Z.of_nat (length hd)) → g ∉ ih_hash <$> hd →
  collect_children (S fuel) h [g] [] = Some [g].
Proof.
  intros (_ & Hq & _) Hfit Hg. cbn [collect_children]. unfold bhc_children.
  destruct (hq_queries _ _ Hq) as (_ & _ & _ & _ & _ & Hpos); [by rewrite length_fmap|].
  destruct (hq_position _ g) as [i|] eqn:Ei; [|by destruct fuel].
  apply Hpos in Ei as [_ Ei]. apply list_elem_of_lookup_2 in Ei. done.
Qed.

(** Cutting the headers from the last one up to position [i]. *)
Lemma cut_from_end hd i : NoDup (ih_hash <$> hd) →
  foldl (λ l h, cut h l) hd (reverse (ih_hash <$> drop i hd)) = take i hd.
Proof.
  induction hd as [|x hd IH] using rev_ind; intros Hnd; [by rewrite drop_nil, take_nil|].
  destruct (decide (i ≤ length hd)%nat).
  - rewrite drop_app_le, fmap_app, reverse_app by done. simpl.
    rewrite fmap_app in Hnd. apply list.NoDup_app in Hnd as (Hnd & Hx & _).
    assert (cut (ih_hash x) (hd ++ [x]) = hd) as ->.
    { unfold cut. rewrite (proj2 (list_find_Some _ (hd ++ [x]) (length hd) x)).
      - by rewrite take_app_length.
      - rewrite lookup_app_r, Nat.sub_diag by done. split_and!; [done..|].
        intros j y Hj Hlt E. rewrite lookup_app_l in Hj by done.
        apply (Hx (ih_hash y)); [apply list_elem_of_fmap_2; by eapply list_elem_of_lookup_2|].
        simpl. rewrite E. by left. }
    rewrite (IH Hnd), take_app_le by done. done.
  - rewrite drop_ge, take_ge by (rewrite length_app; simpl; lia). done.
Qed.

(** The hashes [forget_block_with_children] takes: the block and, when its
    header is known, those of all headers after it. *)
Definition doomed (h : H256) (hd : list IndexedBlockHeader) : list H256 :=
  match list_find (λ x, ih_hash x = h) hd with
  | Some (i, _) => ih_hash <$> drop i hd
  | None => [h]
  end.

(** Forgetting a block forgets its descendants.  When every hash is in one
    queue at most, [forget_block_with_children] terminates without a panic and
    removes from all queues exactly the given hash and the hashes of the known
    headers above it, cuts the headers chain below the block, and leaves the
    store and everything else in place. *)
Theorem forget_with_children_exact hs c m h v r q :
  related hs c m → mem_queues m = [v; r; q] → NoDup (v ++ r ++ q) →
  u32 (Z.of_nat (length (mem_headers m) + 1)) →
  ∃ c', forget_block_with_children h c = Some (tt, c') ∧
    related hs c' (mkMem (filter (λ x, x ∉ doomed h (mem_headers m)) <$> [v; r; q])
                         (cut h (mem_headers m))).
Proof.
  intros Hc Em Hnd Hfit. pose proof (si_headers _ _ _ _ Hc) as [Hh _]. pose proof Hh as (_ & (E & Hndh & _) & _).
  unfold forget_block_with_children. rewrite SM_bind_run. unfold sm_gets.
  assert (collect_children (S (length (hq_queue (bhc_best (sc_headers_chain c))))) (sc_headers_chain c) [h] [] =
    Some (doomed h (mem_headers m)) ∧
    foldl (λ l g, cut g l) (mem_headers m) (reverse (doomed h (mem_headers m))) = cut h (mem_headers m)) as [-> Ecut].
  { unfold doomed. unfold cut at 2. rewrite E, length_fmap. destruct (list_find _ _) as [[i x]|] eqn:Hf.
    - apply list_find_Some in Hf as (Hi & <- & _). split; [|by apply cut_from_end].
      eapply (collect_children_chain _ _ _ (mem_headers m) i x []); [exact Hh|unfold fits in *; lia|done|lia].
    - pose proof Hf as Hn. apply list_find_None in Hn. rewrite list.Forall_forall in Hn. split.
      + eapply collect_children_absent; [exact Hh|unfold fits in *; lia|].
        intros (x & -> & Hx)%list_elem_of_fmap. by apply (Hn x).
      + simpl. unfold cut. by rewrite Hf. }
  cbn [mbind option_bind].
  destruct (forget_blocks_spec hs (reverse (doomed h (mem_headers m))) c m v r q Hc Em Hnd Hfit) as (c' & -> & Hc').
  exists c'. split; [done|]. rewrite Ecut, Em in Hc'. simpl in Hc' |- *.
  by rewrite !(list_filter_iff (λ x, x ∉ reverse (doomed h (mem_headers m))) (λ x, x ∉ doomed h (mem_headers m)))
    in Hc' by (intros; by rewrite elem_of_reverse).
Qed.

(** ** Lookups *)

(** The state of a block.  [block_state] answers by the first queue that
    holds the hash, and for a hash in no queue by the store, then by the set of
    dead ends; it changes nothing. *)
Theorem block_state_exact hs c m h v r q :
  related hs c m → mem_queues m = [v; r; q] →
  ∃ c', block_state h c =
      Some (if decide (h ∈ v) then Verifying
            else if decide (h ∈ r) then Requested
            else if decide (h ∈ q) then Scheduled
            else if v_contains (db_view (sc_storage c)) h then Stored
            else if decide (h ∈ sc_dead_end_blocks c) then DeadEnd else Unknown, c') ∧
    related hs c' m.
Proof.
  intros Hc Em. unfold block_state. rewrite Em in Hc |- *.
  rewrite (hqc_contains_in_spec _ _ h (si_queues _ _ _ _ Hc)). cbn [list_find]. do 3 (destruct (decide (h ∈ _)); [eexists; by split|]). cbn [fmap option_fmap option_map].
  destruct (reads_contains_block h (sc_storage c) (proj1 (si_store _ _ _ _ Hc))) as (s' & E & Hu).
  unfold on_storage. rewrite E. cbn [mbind option_bind]. eexists. split; [done|]. by apply si_read.
Qed.

(** Numbers of headers that are not stored yet are off by one.  For the
    [i]-th header above the stored chain [hs], [block_number] answers
    [length hs + i], the number that [best_block_header] counts with, but
    [block_header_by_number] and [block_hash] answer for that number with
    header and queued hash [i + 1]; for the number of the best header they
    answer nothing, and no number gives the first header. *)
Theorem header_numbers_off_by_one c hs qs headers :
  sync_inv c hs qs headers →
  u32 (Z.of_nat (length hs + length headers)) → u32 (Z.of_nat (length (concat qs))) →
  (∀ i x, headers !! i = Some x → ih_hash x ∉ hs →
     ∃ c', chain_block_number (ih_hash x) c = Some (Some (Z.of_nat (length hs + i)), c')) ∧
  (∀ i, block_header_by_number (Z.of_nat (length hs + i)) c = Some (headers !! S i, c) ∧
     chain_block_hash (Z.of_nat (length hs + i)) c = Some (concat qs !! S i, c)) ∧
  (∀ x, list.last headers = Some x →
     ∃ n, best_block_header c = Some (mkBestBlock n (ih_hash x)) ∧ block_header_by_number n c = Some (None, c)).
Proof.
  intros Hc Hfit Hfitq. pose proof (si_headers _ _ _ _ Hc) as [Hh _]. pose proof (best_number _ _ _ _ Hc) as Eb.
  pose proof Hh as (_ & Hq & _).
  assert (1 ≤ length hs)%nat as H1 by (pose proof (si_nonempty _ _ _ _ Hc); destruct hs; [done|simpl; lia]).
  destruct (hq_queries _ _ Hq) as (El & _ & _ & _ & _ & Hpos); [rewrite length_fmap; unfold fits in *; lia|].
  assert (∀ i, block_header_by_number (Z.of_nat (length hs + i)) c = Some (headers !! S i, c)) as Hby.
  { intros i. unfold block_header_by_number. rewrite Eb, (proj2 (Z.leb_gt _ _)) by lia.
    rewrite (bhc_at_spec _ _ _ _ Hh). do 3 f_equal. lia. }
  split_and!.
  - intros i x Hi Hx. unfold chain_block_number. rewrite SM_bind_run.
    pose proof (lookup_lt_Some _ _ _ Hi). pose proof (si_store _ _ _ _ Hc) as [Hv Hci].
    destruct (reads_block_number (ih_hash x) (sc_storage c) Hv) as (s' & E & Hu).
    unfold on_storage. rewrite E, (proj2 (ci_not_member _ _ _ _ Hci) Hx). cbn [mbind option_bind].
    unfold sm_gets, bhc_height. cbn [sc_headers_chain set_storage sc_best_storage_block].
    rewrite (proj2 (Hpos (ih_hash x) (Z.of_nat i))), Eb by
      (split; [lia|by rewrite Nat2Z.id, list_lookup_fmap, Hi]). cbn [mbind option_bind].
    rewrite u32_add_fits by (unfold fits in *; lia). cbn [mbind option_bind].
    rewrite u32_add_fits by (unfold fits in *; lia). eexists.
    by replace (Z.of_nat (length hs) - 1 + Z.of_nat i + 1) with (Z.of_nat (length hs + i)) by lia.
  - intros i. split; [apply Hby|]. unfold chain_block_hash. rewrite Eb, (proj2 (Z.leb_gt _ _)) by lia.
    rewrite (proj1 (hqc_at_concat _ qs (Z.of_nat (length hs + i) - (Z.of_nat (length hs) - 1))
      (si_queues _ _ _ _ Hc) ltac:(lia) Hfitq)). do 3 f_equal. lia.
  - intros x Hx. pose proof Hx as Hl. rewrite last_lookup in Hl. pose proof (lookup_lt_Some _ _ _ Hl).
    exists (Z.of_nat (length hs + pred (length headers))). split.
    + unfold best_block_header, bhc_information. cbn [hi_best]. rewrite El, length_fmap, Eb.
      rewrite (proj2 (Z.eqb_neq _ 0)), u32_add_fits by (unfold fits in *; lia). cbn [mbind option_bind].
      rewrite (bhc_at_spec _ _ _ _ Hh).
      replace (Z.to_nat (Z.of_nat (length headers) - 1)) with (pred (length headers)) by lia.
      rewrite Hl. cbn. do 2 f_equal. lia.
    + rewrite Hby. do 2 f_equal. apply lookup_ge_None. lia.
Qed.
End queues.

Section queue_examples.
Import Reference.
#[local] Instance checked_queues : Profile := true.

Lemma sync_queues_refine_witness :
  ∃ c', sync_step (SForget ex_h2) ex_sync = Some (AnsPosition Front, c') ∧
    sync_inv c' [ex_h0] [[]; []; []] [].
Proof.
  pose proof (sync_queues_refine [ex_h0] ex_sync (mkMem [[ex_h2]; []; []] [ex_child]) (SForget ex_h2)
    ex_sync_inv ltac:(done)) as Hsim.
  destruct (sync_step (SForget ex_h2) ex_sync) as [[a c']|]; [|done].
  exists c'. destruct Hsim as [Ea Hc']. split; [|exact Hc']. do 2 f_equal. exact Ea.
Defined.

Lemma forget_with_children_exact_witness :
  ∃ c', forget_block_with_children ex_h2 ex_sync = Some (tt, c') ∧ sync_inv c' [ex_h0] [[]; []; []] [].
Proof.
  exact (forget_with_children_exact [ex_h0] ex_sync (mkMem [[ex_h2]; []; []] [ex_child]) ex_h2
    [ex_h2] [] [] ex_sync_inv eq_refl (list.NoDup_singleton ex_h2) ltac:(done)).
Defined.

Lemma block_state_exact_witness : ∃ c', block_state ex_h1 ex_sync = Some (Stored, c').
Proof.
  destruct (block_state_exact [ex_h0] ex_sync (mkMem [[ex_h2]; []; []] [ex_child]) ex_h1 [ex_h2] [] []
    ex_sync_inv eq_refl) as (c' & E & _).
  assert (ex_h1 ∉ [ex_h2]) as H12.
  { intros Hin. apply list_elem_of_singleton in Hin. symmetry in Hin. revert Hin. apply ex_hashes. }
  exists c'. rewrite E, (decide_False (P := ex_h1 ∈ [ex_h2])) by exact H12.
  rewrite !(decide_False (P := ex_h1 ∈ [])) by apply not_elem_of_nil.
  change (db_view (sc_storage ex_sync)) with (db_view ex_state). rewrite (proj1 (proj2 ex_blocks)).
  reflexivity.
Defined.

Lemma header_numbers_off_by_one_witness :
  best_block_header ex_sync = Some (mkBestBlock 1 ex_h2) ∧
  block_header_by_number 1 ex_sync = Some (None, ex_sync).
Proof.
  destruct (header_numbers_off_by_one ex_sync [ex_h0] _ _ ex_sync_inv ltac:(done) ltac:(done))
    as (_ & Hby & Hlast).
  split; [|exact (proj1 (Hby 0%nat))].
  destruct (Hlast ex_child eq_refl) as (n & En & _). reflexivity.
Defined.
End queue_examples.
