(* ===== verification/Utf8.v ===== *)
(** * Strings on the wire ([serialization/src/impls.rs], [String])

    A [String] is its UTF-8 bytes.  Reading one goes through the standard
    library's [String::from_utf8_lossy], which replaces each maximal
    ill-formed prefix by the replacement character U+FFFD; it is written here
    as its decoder works, one character or one ill-formed prefix at a time. *)

From S2P Require Import Prelude External Primitives Serialization Compact.

Definition in_range (lo hi : Z) (b : byte) : bool := (lo <=? byte_val b) && (byte_val b <=? hi).

(** A continuation byte. *)
Definition is_cont (b : byte) : bool := in_range 0x80 0xBF b.

(** The second bytes a first byte of a three- or four-byte character admits. *)
Definition second_ok (b0 b1 : byte) : bool :=
  let v := byte_val b0 in
  if v =? 0xE0 then in_range 0xA0 0xBF b1
  else if v =? 0xED then in_range 0x80 0x9F b1
  else if v =? 0xF0 then in_range 0x90 0xBF b1
  else if v =? 0xF4 then in_range 0x80 0x8F b1
  else is_cont b1.

(** How many of the expected continuation bytes are there. *)
Fixpoint take_conts (oks : list (byte → bool)) (bs : list byte) : nat :=
  match oks, bs with
  | ok :: oks, b :: bs => if ok b then S (take_conts oks bs) else O
  | _, _ => O
  end.

(** The checks on the bytes after the first one, by the width it announces;
    [None] for a byte that starts no character. *)
Definition conts_of (b0 : byte) : option (list (byte → bool)) :=
  if in_range 0 0x7F b0 then Some []
  else if in_range 0xC2 0xDF b0 then Some [is_cont]
  else if in_range 0xE0 0xEF b0 then Some [second_ok b0; is_cont]
  else if in_range 0xF0 0xF4 b0 then Some [second_ok b0; is_cont; is_cont]
  else None.

(** Whether the input starts with a character, and the bytes of the character
    or of the ill-formed prefix that follow the first. *)
Definition utf8_next (b0 : byte) (bs : list byte) : bool * nat :=
  match conts_of b0 with
  | Some oks => let n := take_conts oks bs in ((n =? length oks)%nat, n)
  | None => (false, O)
  end.

(** U+FFFD. *)
Definition REPLACEMENT : list byte := [byte_of 0xEF; byte_of 0xBF; byte_of 0xBD].

(** [fuel] bounds the characters left; the length of the input is enough. *)
Fixpoint lossy_loop (fuel : nat) (bs : list byte) : list byte :=
  match fuel, bs with
  | S fuel, b0 :: bs =>
      let '(ok, n) := utf8_next b0 bs in
      (if ok then b0 :: take n bs else REPLACEMENT) ++ lossy_loop fuel (drop n bs)
  | _, _ => []
  end.

(** [String::from_utf8_lossy] *)
Definition from_utf8_lossy (bs : list byte) : list byte := lossy_loop (length bs) bs.

(** Well-formed UTF-8: characters only. *)
Inductive utf8 : list byte → Prop :=
| utf8_nil : utf8 []
| utf8_char b0 conts oks bs :
    conts_of b0 = Some oks → Forall2 (λ (ok : byte → bool) b, ok b) oks conts →
    utf8 bs → utf8 (b0 :: conts ++ bs).

Lemma take_conts_all oks conts bs :
  Forall2 (λ (ok : byte → bool) b, ok b) oks conts →
  take_conts oks (conts ++ bs) = length oks.
Proof. induction 1 as [|ok b oks conts Hok _ IH]; [by destruct bs|]. simpl. rewrite IH. by destruct (ok b). Qed.

Lemma lossy_loop_utf8 bs : utf8 bs → ∀ fuel, (length bs ≤ fuel)%nat → lossy_loop fuel bs = bs.
Proof.
  induction 1 as [|b0 conts oks bs E Hc _ IH]; intros fuel Hf; [by destruct fuel|].
  destruct fuel as [|fuel]; [simpl in Hf; lia|]. cbn [lossy_loop].
  unfold utf8_next. rewrite E. rewrite (take_conts_all _ _ bs Hc), Nat.eqb_refl.
  rewrite (list.Forall2_length _ _ _ Hc), take_app_length, drop_app_length, IH; [done|].
  simpl in Hf. rewrite length_app in Hf. lia.
Qed.

(** A string the program holds is unchanged by the lossy conversion. *)
Lemma from_utf8_lossy_utf8 bs : utf8 bs → from_utf8_lossy bs = bs.
Proof. intros H. by apply lossy_loop_utf8. Qed.

Lemma utf8_ascii bs : Forall (λ b, byte_val b < 128) bs → utf8 bs.
Proof.
  induction 1 as [|b bs Hb _ IH]; [constructor|].
  apply (utf8_char b [] []); [|constructor|done].
  pose proof (byte_val_range b). unfold conts_of, in_range.
  by rewrite (proj2 (Z.leb_le _ _)), (proj2 (Z.leb_le _ _)) by lia.
Qed.

(** src: serialization/src/impls.rs 169-182 String *)
Definition ser_string : Serializable (list byte) :=
  mkSerializable
    (λ s st, append_slice s (append ser_compact_integer (Z.of_nat (length s)) st))
    (λ s, serialized_size ser_compact_integer (Z.of_nat (length s)) + Z.of_nat (length s)).

(** src: serialization/src/impls.rs 199-207 String *)
Definition de_string : Deserializable (list byte) := λ S _,
  bytes ← read de_bytes; mret (from_utf8_lossy bytes).

Definition string_wf (s : list byte) : Prop := utf8 s ∧ u64 (Z.of_nat (length s)).

Lemma serialize_string s : serialize ser_string s = serialize ser_bytes s.
Proof. done. Qed.

#[global] Instance string_codec : Codec ser_string de_string string_wf.
Proof.
  split.
  - intros s st. exact (codec_append ser_bytes de_bytes (λ bs, u64 (Z.of_nat (length bs))) s st).
  - intros s [_ Hl]. exact (codec_size (s:=ser_bytes) (d:=de_bytes) (wf:=λ bs, u64 (Z.of_nat (length bs))) s Hl).
  - intros s [Hs Hl] S R HS. unfold de_string. rewrite serialize_string.
    apply decodes_at_app_nil. eapply decodes_at_bind.
    + by apply (decodes_at_codec ser_bytes de_bytes (λ bs, u64 (Z.of_nat (length bs)))).
    + rewrite from_utf8_lossy_utf8 by done. apply decodes_at_ret.
Qed.
