(* ===== verification/Message.v ===== *)
(** * Message framing and common wire types ([message/src/common],
    [message/src/message], [message/src/serialization])

    Addresses, commands and inventory vectors, the 24-byte message header with
    its magic number and checksum, and the interface [Payload] every message
    type implements.  Network byte order is used for ports and addresses,
    little-endian for the rest.  Strings are their UTF-8 bytes. *)

From S2P Require Import Prelude External Primitives Serialization Compact Crypto Network.

(** src: message/src/error.rs 6-18 Error *)
Inductive MessageError :=
| Deserialize
| InvalidCommand
| InvalidMagic
| InvalidChecksum
| InvalidVersion.

#[global] Instance MessageError_eq_dec : EqDecision MessageError.
Proof. solve_decision. Defined.

(** src: message/src/error.rs 20-24 from *)
Definition from_reader_error (e : Error) : MessageError := Deserialize.

(** ** Services *)

(** The struct [Services] is its [u64] field. *)
Abbreviation Services := Z (only parsing).

(** src: message/src/common/service.rs 37-39 bit_at *)
Definition bit_at (s : Services) (bit : Z) : bool := negb (Z.land s (Z.shiftl 1 bit) =? 0).

(** src: message/src/common/service.rs 29-35 set_bit *)
Definition set_bit (s : Services) (bit : Z) (bit_value : bool) : Services :=
  if bit_value then Z.lor s (Z.shiftl 1 bit)
  else Z.land s (wrap 64 (Z.lnot (Z.shiftl 1 bit))).

(** src: message/src/common/service.rs 17-19 network *)
Definition services_network (s : Services) : bool := bit_at s 0.

(** src: message/src/common/service.rs 21-24 with_network *)
Definition with_network (s : Services) (v : bool) : Services := set_bit s 0 v.

(** src: message/src/common/service.rs 26-28 includes *)
Definition includes (s other : Services) : bool := Z.land s other =? other.

(** ** Ports and addresses *)

(** src: message/src/common/port.rs 20-24 serialize *)
Definition ser_port : Serializable Z :=
  mkSerializable (λ p, append_slice (be_bytes 2 p))
    (default_serialized_size (λ p, append_slice (be_bytes 2 p))).

(** src: message/src/common/port.rs 26-33 deserialize *)
Definition de_port : Deserializable Z := λ S _, bs ← read_slice 2; mret (be_val bs).

(** [std::net::IpAddr]: four octets, or eight 16-bit segments. *)
Inductive IpAddr :=
| V4 (octets : list byte)
| V6 (segments : list Z).

#[global] Instance IpAddr_eq_dec : EqDecision IpAddr.
Proof. solve_decision. Defined.

Definition ip_wf (ip : IpAddr) : Prop :=
  match ip with
  | V4 octets => length octets = 4%nat
  | V6 segments => length segments = 8%nat ∧ Forall u16 segments
  end.

(** src: message/src/common/ip.rs 8-12 default *)
Definition ip_default : IpAddr := V4 (replicate 4 (byte_of 0)).

Definition ser_ip_stream (ip : IpAddr) (st : Stream) : Stream :=
  match ip with
  | V4 octets => append_slice octets (append_slice (replicate 12 (byte_of 0)) st)
  | V6 segments => foldl (λ st segment, append_slice (be_bytes 2 segment) st) st segments
  end.

(** src: message/src/common/ip.rs 40-55 serialize *)
Definition ser_ip : Serializable IpAddr :=
  mkSerializable ser_ip_stream (default_serialized_size ser_ip_stream).

(** [read_u16::<BigEndian>] until the slice is used up. *)
Fixpoint be_segments (bs : list byte) : list Z :=
  match bs with
  | a :: b :: bs => be_val [a; b] :: be_segments bs
  | _ => []
  end.

(** src: message/src/common/ip.rs 57-86 deserialize *)
Definition de_ip : Deserializable IpAddr := λ S _,
  bytes ← read_slice 12;
  if decide (bytes = replicate 12 (byte_of 0)) then
    address ← read_slice 4;
    mret (V4 address)
  else
    s6 ← read de_port;
    s7 ← read de_port;
    mret (V6 (be_segments bytes ++ [s6; s7])).

(** src: message/src/common/address.rs 5-10 NetAddress *)
Record NetAddress := mkNetAddress {
  na_services : Services;
  na_address : IpAddr;
  na_port : Z;
}.

#[global] Instance NetAddress_eq_dec : EqDecision NetAddress.
Proof. solve_decision. Defined.

Definition ser_net_address_stream (a : NetAddress) (st : Stream) : Stream :=
  append ser_port (na_port a) (append ser_ip (na_address a) (append ser_u64 (na_services a) st)).

(** The derived codec: field by field. *)
Definition ser_net_address : Serializable NetAddress :=
  mkSerializable ser_net_address_stream
    (λ a, serialized_size ser_u64 (na_services a) + serialized_size ser_ip (na_address a)
          + serialized_size ser_port (na_port a)).

Definition de_net_address : Deserializable NetAddress := λ S _,
  services ← read de_u64;
  address ← read de_ip;
  port ← read de_port;
  mret (mkNetAddress services address port).

(** ** Commands *)

(** src: message/src/common/command.rs 5-6 Command *)
Record Command := mkCommand { command_hash : hash 12 }.

#[global] Instance Command_eq_dec : EqDecision Command.
Proof. solve_decision. Defined.

Definition is_ascii (s : list byte) : bool := forallb (λ b, byte_val b <? 128) s.

(** src: message/src/common/command.rs 11-19 from_str *)
Definition command_from_str (s : list byte) : result MessageError Command :=
  if negb (is_ascii s) || (12 <? length s)%nat then Err InvalidCommand
  else Ok (mkCommand (hash_of (s ++ drop (length s) (hash_bytes (@hash_default 12))))).

(** The zeros at the end. *)
Fixpoint leading_zeros (bs : list byte) : nat :=
  match bs with
  | b :: bs => if byte_val b =? 0 then S (leading_zeros bs) else O
  | [] => O
  end.

(** src: message/src/common/command.rs 29-32 len *)
Definition command_len (c : Command) : nat :=
  let trailing_zeros := leading_zeros (reverse (hash_bytes (command_hash c))) in
  (length (hash_bytes (command_hash c)) - trailing_zeros)%nat.

(** src: message/src/common/command.rs 34-36 is_empty *)
Definition command_is_empty (c : Command) : bool := is_zero (command_hash c).

(** [&self.0[..other.len()]] is in range once the lengths agree. *)
(** src: message/src/common/command.rs 55-59 eq *)
Definition command_eq_str (c : Command) (other : list byte) : bool :=
  (command_len c =? length other)%nat
  && bool_decide (take (length other) (hash_bytes (command_hash c)) = other).

(** The derived codec: the field. *)
Definition ser_command : Serializable Command :=
  mkSerializable (λ c, append (ser_hash 12) (command_hash c))
    (λ c, serialized_size (ser_hash 12) (command_hash c)).

Definition de_command : Deserializable Command := λ S _,
  h ← read (de_hash 12); mret (mkCommand h).

(** ** Inventory *)

(** src: message/src/common/inventory.rs 5-10 InventoryType *)
Inductive InventoryType := InvError | MessageBlock.

#[global] Instance InventoryType_eq_dec : EqDecision InventoryType.
Proof. solve_decision. Defined.

(** src: message/src/common/inventory.rs 13-19 from_u32 *)
Definition inventory_from_u32 (v : Z) : option InventoryType :=
  if v =? 0 then Some InvError else if v =? 1 then Some MessageBlock else None.

(** src: message/src/common/inventory.rs 22-26 from *)
Definition inventory_to_u32 (i : InventoryType) : Z :=
  match i with InvError => 0 | MessageBlock => 1 end.

Definition ser_inventory_type_stream (i : InventoryType) (st : Stream) : Stream :=
  append ser_u32 (inventory_to_u32 i) st.

(** src: message/src/common/inventory.rs 28-32 serialize *)
Definition ser_inventory_type : Serializable InventoryType :=
  mkSerializable ser_inventory_type_stream (default_serialized_size ser_inventory_type_stream).

(** src: message/src/common/inventory.rs 34-42 deserialize *)
Definition de_inventory_type : Deserializable InventoryType := λ S _,
  t ← read de_u32;
  match inventory_from_u32 t with
  | Some i => mret i
  | None => RM_fail MalformedData
  end.

(** src: message/src/common/inventory.rs 44-48 InventoryVector *)
Record InventoryVector := mkInventoryVector { inv_type : InventoryType; inv_hash : H256 }.

#[global] Instance InventoryVector_eq_dec : EqDecision InventoryVector.
Proof. solve_decision. Defined.

(** src: message/src/common/inventory.rs 51-56 block *)
Definition inventory_block (hash : H256) : InventoryVector := mkInventoryVector MessageBlock hash.

Definition ser_inventory_vector_stream (v : InventoryVector) (st : Stream) : Stream :=
  append (ser_hash 32) (inv_hash v) (append ser_inventory_type (inv_type v) st).

(** src: message/src/common/inventory.rs 59-63 serialize *)
Definition ser_inventory_vector : Serializable InventoryVector :=
  mkSerializable ser_inventory_vector_stream (default_serialized_size ser_inventory_vector_stream).

(** src: message/src/common/inventory.rs 65-77 deserialize *)
Definition de_inventory_vector : Deserializable InventoryVector := λ S _,
  inv_type ← read de_inventory_type;
  hash ← read (de_hash 32);
  mret (mkInventoryVector inv_type hash).

(** ** Message headers *)

(** src: message/src/message/message_header.rs 8-14 MessageHeader *)
Record MessageHeader := mkMessageHeader {
  mh_magic : Z;
  mh_command : Command;
  mh_len : Z;
  mh_checksum : H32;
}.

#[global] Instance MessageHeader_eq_dec : EqDecision MessageHeader.
Proof. solve_decision. Defined.

Section framing.
Context {H : Sha256Ops}.

(** src: message/src/message/message_header.rs 16-25 for_data *)
Definition header_for_data (magic : Z) (command : Command) (data : list byte) : MessageHeader :=
  mkMessageHeader magic command (wrap 32 (Z.of_nat (length data))) (checksum data).

Definition ser_message_header_stream (h : MessageHeader) (st : Stream) : Stream :=
  append (ser_hash 4) (mh_checksum h)
    (append ser_u32 (mh_len h)
      (append ser_command (mh_command h) (append ser_u32 (mh_magic h) st))).

(** src: message/src/message/message_header.rs 52-60 serialize *)
Definition ser_message_header : Serializable MessageHeader :=
  mkSerializable ser_message_header_stream (default_serialized_size ser_message_header_stream).

(** The fields after the magic number. *)
Definition de_header_rest (magic : Z) : Deserializable MessageHeader := λ S _,
  command ← read de_command;
  len ← read de_u32;
  checksum ← read (de_hash 4);
  mret (mkMessageHeader magic command len checksum).

(** src: message/src/message/message_header.rs 28-49 deserialize *)
Definition header_deserialize (data : list byte) (expected : Z) : result MessageError MessageHeader :=
  if negb (length data =? 24)%nat then Err Deserialize
  else
    match read de_u32 (from_read data) with
    | (Err e, _) => Err (from_reader_error e)
    | (Ok magic, reader) =>
        if negb (expected =? magic) then Err InvalidMagic
        else map_err from_reader_error (fst (read (de_header_rest magic) reader))
    end.

(** src: message/src/message/message.rs 8-14 to_raw_message *)
Definition to_raw_message (magic : Z) (command : Command) (payload : list byte) : list byte :=
  let header := header_for_data magic command payload in
  out (append_slice payload (append ser_message_header header stream_new)).

(** ** Payloads *)

(** The trait [Payload]: the version that introduced the message, its command,
    and its codec, which may depend on the version spoken. *)
(** src: message/src/message/payload.rs 5-13 Payload *)
Class Payload (T : Type) := {
  payload_version : Z;
  payload_command : list byte;
  payload_de : Z → Deserializable T;
  payload_ser : T → Z → Stream → result MessageError Stream;
}.

(** src: message/src/serialization/stream.rs 5-12 serialize_payload *)
Definition serialize_payload {T} `{Payload T} (t : T) (version : Z) : result MessageError (list byte) :=
  if version <? payload_version then Err InvalidVersion
  else st ← payload_ser t version stream_new; Ok (out st).

(** src: message/src/serialization/reader.rs 4-15 deserialize_payload *)
Definition deserialize_payload {T} `{Payload T} (buffer : list byte) (version : Z) : result MessageError T :=
  if version <? payload_version then Err InvalidVersion
  else
    match read (payload_de version) (from_read buffer) with
    | (Err e, _) => Err (from_reader_error e)
    | (Ok t, reader) =>
        if fst (is_finished reader) then Ok t else Err Deserialize
    end.

(** [T::command().into()]: [From<&'static str>] unwraps, [None] is a panic. *)
(** src: message/src/message/message.rs 24-32 new *)
Definition message_new {T} `{Payload T} (magic version : Z) (payload : T) :
    option (result MessageError (list byte)) :=
  match serialize_payload payload version with
  | Err e => Some (Err e)
  | Ok serialized =>
      match command_from_str payload_command with
      | Ok command => Some (Ok (to_raw_message magic command serialized))
      | Err _ => None
      end
  end.
End framing.

(** ** Codecs *)

#[global] Arguments serialize : simpl never.

(** Reads the next field of a record whose bytes are its fields' encodings. *)
Ltac read_field :=
  eapply decodes_at_bind; [eapply decodes_at_codec; [typeclasses eauto|first [eassumption|done|tauto]]|].

(** The last field. *)
Ltac read_last := apply decodes_at_app_nil; read_field; apply decodes_at_ret.

(** Rewrites the appends of fields to one slice. *)
Ltac append_fields :=
  rewrite ?append_slice_append;
  repeat (erewrite codec_append by typeclasses eauto; rewrite ?append_slice_append).

(** A codec from the bytes it writes. *)
Lemma codec_by {T} (s : Serializable T) d wf (enc : T → list byte) :
  (∀ v st, ser s v st = append_slice (enc v) st) →
  (∀ v, wf v → serialized_size s v = Z.of_nat (length (enc v))) →
  (∀ v, wf v → decodes d (enc v) v) → Codec s d wf.
Proof.
  intros Hser Hsize Hdec.
  assert (∀ v, serialize s v = enc v) as E by (intros v; unfold serialize, append; by rewrite Hser).
  split; intros v; rewrite E; auto.
Qed.

(** The same for a type with the default [serialized_size]. *)
Lemma codec_default {T} (f : T → Stream → Stream) d wf (enc : T → list byte) :
  (∀ v st, f v st = append_slice (enc v) st) →
  (∀ v, wf v → decodes d (enc v) v) → Codec (mkSerializable f (default_serialized_size f)) d wf.
Proof.
  intros Hf Hd. apply (codec_by _ _ _ enc); [done| |done].
  intros v _. cbn [serialized_size]. unfold default_serialized_size. by rewrite Hf.
Qed.

Lemma decodes_at_be {S} `{ReadSource S} z : u16 z →
  decodes_at (read de_port : RM S Z) (be_bytes 2 z) z.
Proof.
  intros Hz. unfold read, de_port. apply decodes_at_app_nil.
  eapply decodes_at_bind; [apply decodes_at_read_slice, length_be_bytes|].
  rewrite be_val_be_bytes by done. apply decodes_at_ret.
Qed.

#[global] Instance port_codec : Codec ser_port de_port u16.
Proof.
  split; [done|done|]. intros v Hv S R HS. by apply decodes_at_be.
Qed.

Lemma ser_segments segments st :
  foldl (λ st segment, append_slice (be_bytes 2 segment) st) st segments =
  append_slice (concat (be_bytes 2 <$> segments)) st.
Proof.
  revert st. induction segments as [|x l IH]; intros st; simpl; [by rewrite append_slice_nil|].
  by rewrite IH, append_slice_append.
Qed.

(** An IPv6 address whose first twelve bytes are zero has the encoding of an
    IPv4 address. *)
Definition ip_sendable (ip : IpAddr) : Prop :=
  ip_wf ip ∧ match ip with V4 _ => True | V6 segments => Exists (λ s, s ≠ 0) (take 6 segments) end.

Lemma serialize_ip ip :
  serialize ser_ip ip =
  match ip with
  | V4 octets => replicate 12 (byte_of 0) ++ octets
  | V6 segments => concat (be_bytes 2 <$> segments)
  end.
Proof.
  unfold serialize, append. destruct ip; cbn [ser ser_ip ser_ip_stream]; [done|].
  by rewrite ser_segments.
Qed.

Lemma be_segments_bytes segments : Forall u16 segments →
  be_segments (concat (be_bytes 2 <$> segments)) = segments.
Proof.
  induction 1 as [|x l Hx _ IH]; [done|]. rewrite fmap_cons. cbn [concat].
  pose proof (length_be_bytes 2 x) as Hl. pose proof (be_val_be_bytes 2 x Hx) as Hv.
  destruct (be_bytes 2 x) as [|a [|b [|]]]; try done. simpl. by rewrite Hv, IH.
Qed.

Lemma length_segments segments : length (concat (be_bytes 2 <$> segments)) = (2 * length segments)%nat.
Proof.
  induction segments as [|x l IH]; [done|]. rewrite fmap_cons. cbn [concat].
  rewrite length_app, IH, length_be_bytes. simpl. lia.
Qed.

Lemma be_bytes_zero : be_bytes 2 0 = replicate 2 (byte_of 0).
Proof. done. Qed.

Lemma segments_zero segments : Forall u16 segments →
  concat (be_bytes 2 <$> segments) = replicate (2 * length segments) (byte_of 0) →
  Forall (λ s, s = 0) segments.
Proof.
  intros Hs E. apply (f_equal be_segments) in E. rewrite be_segments_bytes in E by done.
  rewrite E. clear. generalize (length segments). intros n.
  induction n as [|n IH]; [by constructor|].
  replace (2 * S n)%nat with (S (S (2 * n))) by lia. simpl. constructor; [done|exact IH].
Qed.

#[global] Instance ip_codec : Codec ser_ip de_ip ip_sendable.
Proof.
  split.
  - intros ip st. rewrite serialize_ip. destruct ip; cbn [ser ser_ip ser_ip_stream];
      [by rewrite append_slice_append|by rewrite ser_segments].
  - done.
  - intros ip [Hwf Hne] S R HS. rewrite serialize_ip. unfold de_ip. destruct ip as [octets|segments].
    + eapply decodes_at_bind; [by apply decodes_at_read_slice|]. rewrite decide_True by done.
      apply decodes_at_app_nil. eapply decodes_at_bind; [by apply decodes_at_read_slice|].
      apply decodes_at_ret.
    + destruct Hwf as [Hlen Hs]. rewrite <-(take_drop 6 segments) in Hs |- *.
      apply Forall_app in Hs as [Hs1 Hs2]. rewrite fmap_app, concat_app.
      assert (length (drop 6 segments) = 2%nat) as Hd by (rewrite length_drop; lia).
      assert (length (take 6 segments) = 6%nat) as Ht by (rewrite length_take; lia).
      destruct (drop 6 segments) as [|x [|y [|]]]; try done.
      apply list.Forall_cons in Hs2 as [Hx Hs2]. apply list.Forall_cons in Hs2 as [Hy _].
      eapply decodes_at_bind; [apply decodes_at_read_slice; by rewrite length_segments, Ht|].
      rewrite decide_False.
      * cbn [fmap list_fmap concat]. rewrite be_segments_bytes by done.
        eapply decodes_at_bind; [by apply decodes_at_be|].
        eapply decodes_at_bind; [by apply decodes_at_be|]. apply decodes_at_ret.
      * intros E. apply list.Exists_exists in Hne as (s & Hin & Hne).
        pose proof (segments_zero (take 6 segments) Hs1) as Hz. rewrite Ht in Hz.
        apply Hz in E. rewrite list.Forall_forall in E. by apply Hne, E.
Qed.

(** An IPv6 address whose first six segments are zero, [::1] among them, is
    written like an IPv4 address, and so read back as one. *)
Lemma ip_encoding_ambiguous x y :
  serialize ser_ip (V6 [0; 0; 0; 0; 0; 0; x; y]) = serialize ser_ip (V4 (be_bytes 2 x ++ be_bytes 2 y)).
Proof. rewrite !serialize_ip. cbn [fmap list_fmap concat]. by rewrite app_nil_r. Qed.

Lemma ipv6_loopback_read_as_ipv4 :
  deserialize de_ip (serialize ser_ip (V6 [0; 0; 0; 0; 0; 0; 0; 1])) =
  Ok (V4 [byte_of 0; byte_of 0; byte_of 0; byte_of 1]).
Proof. vm_compute. reflexivity. Qed.

Definition net_address_wf (a : NetAddress) : Prop :=
  u64 (na_services a) ∧ ip_sendable (na_address a) ∧ u16 (na_port a).

Lemma ser_net_address_eq a st : ser ser_net_address a st =
  append_slice (serialize ser_u64 (na_services a) ++ serialize ser_ip (na_address a) ++
                serialize ser_port (na_port a)) st.
Proof.
  cbn [ser ser_net_address]. unfold ser_net_address_stream. by append_fields.
Qed.

#[global] Instance net_address_codec : Codec ser_net_address de_net_address net_address_wf.
Proof.
  eapply codec_by; [exact ser_net_address_eq| |].
  - intros a (Hs & Hi & Hp). cbn [serialized_size ser_net_address]. rewrite !length_app.
    rewrite (codec_size (s:=ser_u64) (d:=de_u64) _ Hs), (codec_size (s:=ser_ip) (d:=de_ip) _ Hi).
    rewrite (codec_size (s:=ser_port) (d:=de_port) _ Hp). lia.
  - intros [sv ip p] (Hs & Hi & Hp) S R HS. unfold de_net_address.
    cbn [na_services na_address na_port] in *.
    read_field. read_field. read_last.
Qed.

#[global] Instance command_codec : Codec ser_command de_command (λ _, True).
Proof.
  apply (codec_by _ _ _ (λ c, serialize (ser_hash 12) (command_hash c))).
  - intros c st. cbn [ser ser_command]. by append_fields.
  - intros c _. cbn [serialized_size ser_command]. by apply (codec_size (d:=de_hash 12)).
  - intros [h] _ S R HS. unfold de_command. cbn [command_hash]. read_last.
Qed.

#[global] Instance inventory_type_codec : Codec ser_inventory_type de_inventory_type (λ _, True).
Proof.
  apply (codec_default _ _ _ (λ i, serialize ser_u32 (inventory_to_u32 i))).
  - intros i st. unfold ser_inventory_type_stream. by append_fields.
  - intros i _ S R HS. unfold de_inventory_type. apply decodes_at_app_nil.
    eapply decodes_at_bind; [apply (decodes_at_codec ser_u32 de_u32 u32); by destruct i|].
    destruct i; apply decodes_at_ret.
Qed.

Lemma ser_inventory_vector_eq v st : ser_inventory_vector_stream v st =
  append_slice (serialize ser_inventory_type (inv_type v) ++ serialize (ser_hash 32) (inv_hash v)) st.
Proof. unfold ser_inventory_vector_stream. by append_fields. Qed.

#[global] Instance inventory_vector_codec : Codec ser_inventory_vector de_inventory_vector (λ _, True).
Proof.
  eapply codec_default; [exact ser_inventory_vector_eq|].
  intros [i h] _ S R HS. unfold de_inventory_vector. read_field. read_last.
Qed.

(** A list within its limit. *)
Lemma decodes_at_read_list_max {T S} {R : Read S} {HS : ReadSource S}
    (s : Serializable T) d wf `{!Codec s d wf} max l :
  list_wf wf l → Z.of_nat (length l) ≤ max →
  decodes_at (read (read_list_max d max) : RM S _) (serialize_list s l) l.
Proof.
  intros [Hlen Hl] Hmax. erewrite serialize_list_eq by done. eapply decodes_at_bind.
  - by apply (decodes_at_codec ser_compact_integer de_compact_integer u64).
  - rewrite (proj2 (Z.ltb_ge _ _)) by done. rewrite Nat2Z.id. by eapply decodes_at_read_n.
Qed.

Lemma append_list_slice {T} (s : Serializable T) d wf `{!Codec s d wf} l bs st :
  append_list s l (append_slice bs st) = append_slice (bs ++ serialize_list s l) st.
Proof. erewrite append_list_stream by done. by rewrite append_slice_append. Qed.

(** ** Framing *)

Section framing_proofs.
Context {H : Sha256Ops} {HL : Sha256Laws H}.

Definition message_header_wf (h : MessageHeader) : Prop := u32 (mh_magic h) ∧ u32 (mh_len h).

Lemma ser_message_header_eq h st : ser_message_header_stream h st =
  append_slice (serialize ser_u32 (mh_magic h) ++ serialize ser_command (mh_command h) ++
                serialize ser_u32 (mh_len h) ++ serialize (ser_hash 4) (mh_checksum h)) st.
Proof. unfold ser_message_header_stream. by append_fields. Qed.

Lemma serialize_message_header h : serialize ser_message_header h =
  serialize ser_u32 (mh_magic h) ++ serialize ser_command (mh_command h) ++
  serialize ser_u32 (mh_len h) ++ serialize (ser_hash 4) (mh_checksum h).
Proof. unfold serialize at 1, append. cbn [ser ser_message_header]. by rewrite ser_message_header_eq. Qed.

Lemma length_message_header h : length (serialize ser_message_header h) = 24%nat.
Proof.
  rewrite serialize_message_header, !length_app. unfold serialize, append. simpl.
  by rewrite !hash_length.
Qed.

(** A header is read back under its own magic number and refused under any
    other. *)
Lemma header_deserialize_spec h expected : message_header_wf h →
  header_deserialize (serialize ser_message_header h) expected =
    if decide (expected = mh_magic h) then Ok h else Err InvalidMagic.
Proof.
  intros [Hm Hl]. unfold header_deserialize. rewrite length_message_header. cbn [Nat.eqb negb].
  rewrite serialize_message_header.
  destruct (decodes_at_codec (S:=list byte) ser_u32 de_u32 u32 _ Hm) as [Hok _].
  destruct (Hok (from_read (serialize ser_u32 (mh_magic h) ++ serialize ser_command (mh_command h) ++
    serialize ser_u32 (mh_len h) ++ serialize (ser_hash 4) (mh_checksum h))) _ I eq_refl)
    as (r & -> & Er & Hr & _).
  destruct (Z.eqb_spec expected (mh_magic h)) as [->|Hne]; cbn [negb];
    [rewrite decide_True by done|by rewrite decide_False].
  assert (decodes_at (read (de_header_rest (mh_magic h)) : RM (list byte) MessageHeader)
    (serialize ser_command (mh_command h) ++ serialize ser_u32 (mh_len h) ++
     serialize (ser_hash 4) (mh_checksum h)) h) as [Hrest _].
  { unfold read, de_header_rest. destruct h as [m c l k].
    cbn [mh_magic mh_command mh_len mh_checksum] in *. read_field. read_field. read_last. }
  destruct (Hrest r [] Hr) as (r' & -> & _); [by rewrite app_nil_r|]. done.
Qed.

(** A command is what its name says. *)
Lemma command_from_str_Ok s c : command_from_str s = Ok c →
  hash_bytes (command_hash c) = s ++ replicate (12 - length s) (byte_of 0) ∧ (length s ≤ 12)%nat.
Proof.
  unfold command_from_str. destruct (negb (is_ascii s)); [done|]. cbn [orb].
  destruct (Nat.ltb_spec 12 (length s)); [done|]. intros E. apply (inj Ok) in E as <-. split; [|lia].
  cbn [command_hash]. rewrite hash_bytes_default, drop_replicate.
  apply hash_bytes_of. rewrite length_app, length_replicate. lia.
Qed.
End framing_proofs.
