(* ===== verification/MessageTypes.v ===== *)
(** * The messages ([message/src/types])

    One record or enum per message with its [Payload] instance, and for each
    instance the proof that its bytes decode to it.  The class [PayloadCodec]
    collects what the framing needs of a message type. *)

From S2P Require Import Prelude External Primitives Serialization Compact Crypto Chain Network Utf8 Message.
From stdpp Require Import strings.
#[local] Open Scope Z_scope.

Definition name (s : string) : list byte := String.list_byte_of_string s.
#[global] Arguments name s%_string_scope.

(** ** Version *)

(** src: message/src/types/version.rs 106-112 V0 *)
Record VersionV0 := mkVersionV0 {
  ver_version : Z;
  ver_services : Services;
  ver_timestamp : Z;
  ver_receiver : NetAddress;
}.

(** src: message/src/types/version.rs 115-121 V106 *)
Record VersionV106 := mkVersionV106 {
  ver_from : NetAddress;
  ver_nonce : Z;
  ver_user_agent : list byte;
  ver_start_height : Z;
}.

(** src: message/src/types/version.rs 124-127 V70001 *)
Record VersionV70001 := mkVersionV70001 { ver_relay : bool }.

(** src: message/src/types/version.rs 8-13 Version *)
Inductive Version :=
| Version_V0 (s : VersionV0)
| Version_V106 (s : VersionV0) (v : VersionV106)
| Version_V70001 (s : VersionV0) (v : VersionV106) (w : VersionV70001).

#[global] Instance VersionV0_eq_dec : EqDecision VersionV0.
Proof. solve_decision. Defined.
#[global] Instance VersionV106_eq_dec : EqDecision VersionV106.
Proof. solve_decision. Defined.
#[global] Instance VersionV70001_eq_dec : EqDecision VersionV70001.
Proof. solve_decision. Defined.
#[global] Instance Version_eq_dec : EqDecision Version.
Proof. solve_decision. Defined.

(** src: message/src/types/version.rs 129-137 serialize *)
Definition ser_version_v0 : Serializable VersionV0 :=
  let f (v : VersionV0) (st : Stream) :=
    append ser_net_address (ver_receiver v) (append ser_i64 (ver_timestamp v)
      (append ser_u64 (ver_services v) (append ser_u32 (ver_version v) st))) in
  mkSerializable f (default_serialized_size f).

(** src: message/src/types/version.rs 139-153 deserialize *)
Definition de_version_v0 : Deserializable VersionV0 := λ S _,
  version ← read de_u32;
  services ← read de_u64;
  timestamp ← read de_i64;
  receiver ← read de_net_address;
  mret (mkVersionV0 version services timestamp receiver).

(** src: message/src/types/version.rs 155-163 serialize *)
Definition ser_version_v106 : Serializable VersionV106 :=
  let f (v : VersionV106) (st : Stream) :=
    append ser_i32 (ver_start_height v) (append ser_string (ver_user_agent v)
      (append ser_u64 (ver_nonce v) (append ser_net_address (ver_from v) st))) in
  mkSerializable f (default_serialized_size f).

(** src: message/src/types/version.rs 165-179 deserialize *)
Definition de_version_v106 : Deserializable VersionV106 := λ S _,
  from ← read de_net_address;
  nonce ← read de_u64;
  user_agent ← read de_string;
  start_height ← read de_i32;
  mret (mkVersionV106 from nonce user_agent start_height).

(** src: message/src/types/version.rs 181-185 serialize *)
Definition ser_version_v70001 : Serializable VersionV70001 :=
  let f (v : VersionV70001) (st : Stream) := append ser_bool (ver_relay v) st in
  mkSerializable f (default_serialized_size f).

(** src: message/src/types/version.rs 187-198 deserialize *)
Definition de_version_v70001 : Deserializable VersionV70001 := λ S _,
  relay ← read de_bool; mret (mkVersionV70001 relay).

(** The part every version has. *)
Definition ver_simple (v : Version) : VersionV0 :=
  match v with Version_V0 s | Version_V106 s _ | Version_V70001 s _ _ => s end.

(** src: message/src/types/version.rs 67-73 version *)
Definition version_version (v : Version) : Z := ver_version (ver_simple v).

(** src: message/src/types/version.rs 75-80 nonce *)
Definition version_nonce (v : Version) : option Z :=
  match v with
  | Version_V0 _ => None
  | Version_V106 _ v | Version_V70001 _ v _ => Some (ver_nonce v)
  end.

(** src: message/src/types/version.rs 82-88 services *)
Definition version_services (v : Version) : Services := ver_services (ver_simple v).

(** src: message/src/types/version.rs 90-96 relay_transactions *)
Definition relay_transactions (v : Version) : bool :=
  match v with
  | Version_V0 _ => true
  | Version_V106 _ _ => true
  | Version_V70001 _ _ w => ver_relay w
  end.

(** src: message/src/types/version.rs 98-103 user_agent *)
Definition version_user_agent (v : Version) : option (list byte) :=
  match v with
  | Version_V0 _ => None
  | Version_V106 _ v | Version_V70001 _ v _ => Some (ver_user_agent v)
  end.

(** The version message is read by the version it carries, not by the version
    of the protocol. *)
(** src: message/src/types/version.rs 31-48 deserialize_payload *)
Definition de_version : Deserializable Version := λ S _,
  simple ← read de_version_v0;
  if ver_version simple <? 106 then mret (Version_V0 simple)
  else
    v106 ← read de_version_v106;
    if ver_version simple <? 70001 then mret (Version_V106 simple v106)
    else
      v70001 ← read de_version_v70001;
      mret (Version_V70001 simple v106 v70001).

(** src: message/src/types/version.rs 50-63 serialize_payload *)
Definition ser_version (v : Version) (st : Stream) : Stream :=
  match v with
  | Version_V0 simple => append ser_version_v0 simple st
  | Version_V106 simple v106 => append ser_version_v106 v106 (append ser_version_v0 simple st)
  | Version_V70001 simple v106 v70001 =>
      append ser_version_v70001 v70001
        (append ser_version_v106 v106 (append ser_version_v0 simple st))
  end.

(** src: message/src/types/version.rs 21-28 Version *)
#[global] Instance version_payload : Payload Version := {|
  payload_version := 0;
  payload_command := name "version";
  payload_de _ := de_version;
  payload_ser v _ st := Ok (ser_version v st);
|}.

(** ** Addresses *)

(** src: message/src/types/addr.rs 60-63 AddressEntry *)
Record AddressEntry := mkAddressEntry { ae_timestamp : Z; ae_address : NetAddress }.

#[global] Instance AddressEntry_eq_dec : EqDecision AddressEntry.
Proof. solve_decision. Defined.

(** The structs [V0] and [V31402] are their one field. *)
(** src: message/src/types/addr.rs 8-11 Addr *)
Inductive Addr :=
| Addr_V0 (addresses : list NetAddress)
| Addr_V31402 (addresses : list AddressEntry).

(** src: message/src/types/addr.rs 14-18 new *)
Definition addr_new (addresses : list AddressEntry) : Addr := Addr_V31402 addresses.

(** src: message/src/types/addr.rs 65-69 serialize *)
Definition ser_address_entry : Serializable AddressEntry :=
  let f (e : AddressEntry) (st : Stream) :=
    append ser_net_address (ae_address e) (append ser_u32 (ae_timestamp e) st) in
  mkSerializable f (default_serialized_size f).

(** src: message/src/types/addr.rs 71-83 deserialize *)
Definition de_address_entry : Deserializable AddressEntry := λ S _,
  timestamp ← read de_u32;
  address ← read de_net_address;
  mret (mkAddressEntry timestamp address).

(** src: message/src/types/addr.rs 96-107 deserialize *)
Definition de_addr_v31402 : Deserializable (list AddressEntry) := read_list_max de_address_entry 1000.

(** src: message/src/types/addr.rs 120-131 deserialize *)
Definition de_addr_v0 : Deserializable (list NetAddress) := read_list_max de_net_address 1000.

(** src: message/src/types/addr.rs 143-148 serialize *)
Definition ser_v31402_as_v0 (addresses : list AddressEntry) (st : Stream) : Stream :=
  append_list ser_net_address (ae_address <$> addresses) st.

(** src: message/src/types/addr.rs 30-41 deserialize_payload *)
Definition de_addr (version : Z) : Deserializable Addr := λ S _,
  if version <? 31402 then l ← read de_addr_v0; mret (Addr_V0 l)
  else l ← read de_addr_v31402; mret (Addr_V31402 l).

(** src: message/src/types/addr.rs 43-56 serialize_payload *)
Definition ser_addr (a : Addr) (version : Z) (st : Stream) : Stream :=
  match a with
  | Addr_V0 addr => append_list ser_net_address addr st
  | Addr_V31402 addr =>
      if version <? 31402 then ser_v31402_as_v0 addr st
      else append_list ser_address_entry addr st
  end.

(** src: message/src/types/addr.rs 21-28 Addr *)
#[global] Instance addr_payload : Payload Addr := {|
  payload_version := 0;
  payload_command := name "addr";
  payload_de version := de_addr version;
  payload_ser a version st := Ok (ser_addr a version st);
|}.

(** ** Messages without a body *)

(** src: message/src/types/getaddr.rs 6-6 GetAddr *)
Inductive GetAddr := mkGetAddr.

(** src: message/src/types/getaddr.rs 8-27 GetAddr *)
#[global] Instance getaddr_payload : Payload GetAddr := {|
  payload_version := 0;
  payload_command := name "getaddr";
  payload_de _ := λ S _, mret mkGetAddr;
  payload_ser _ _ st := Ok st;
|}.

(** src: message/src/types/sendheaders.rs 6-6 SendHeaders *)
Inductive SendHeaders := mkSendHeaders.

(** src: message/src/types/sendheaders.rs 8-28 SendHeaders *)
#[global] Instance sendheaders_payload : Payload SendHeaders := {|
  payload_version := 70012;
  payload_command := name "sendheaders";
  payload_de _ := λ S _, mret mkSendHeaders;
  payload_ser _ _ st := Ok st;
|}.

(** src: message/src/types/verack.rs 6-6 Verack *)
Inductive Verack := mkVerack.

(** src: message/src/types/verack.rs 8-27 Verack *)
#[global] Instance verack_payload : Payload Verack := {|
  payload_version := 0;
  payload_command := name "verack";
  payload_de _ := λ S _, mret mkVerack;
  payload_ser _ _ st := Ok st;
|}.

(** ** Requests for blocks and headers *)

(** src: message/src/types/getblocks.rs 6-6 GETBLOCKS_MAX_RESPONSE_HASHES *)
Definition GETBLOCKS_MAX_RESPONSE_HASHES : nat := 500.

(** src: message/src/types/getblocks.rs 8-13 GetBlocks *)
Record GetBlocks := mkGetBlocks {
  gb_version : Z;
  gb_block_locator_hashes : list H256;
  gb_hash_stop : H256;
}.

(** src: message/src/types/getblocks.rs 24-35 deserialize_payload *)
Definition de_getblocks : Deserializable GetBlocks := λ S _,
  version ← read de_u32;
  block_locator_hashes ← read (read_list_max (de_hash 32) 500);
  hash_stop ← read (de_hash 32);
  mret (mkGetBlocks version block_locator_hashes hash_stop).

(** src: message/src/types/getblocks.rs 37-43 serialize_payload *)
Definition ser_getblocks (g : GetBlocks) (st : Stream) : Stream :=
  append (ser_hash 32) (gb_hash_stop g)
    (append_list (ser_hash 32) (gb_block_locator_hashes g) (append ser_u32 (gb_version g) st)).

(** src: message/src/types/getblocks.rs 15-22 GetBlocks *)
#[global] Instance getblocks_payload : Payload GetBlocks := {|
  payload_version := 0;
  payload_command := name "getblocks";
  payload_de _ := de_getblocks;
  payload_ser g _ st := Ok (ser_getblocks g st);
|}.

(** src: message/src/types/getheaders.rs 6-6 GETHEADERS_MAX_RESPONSE_HEADERS *)
Definition GETHEADERS_MAX_RESPONSE_HEADERS : nat := 2000.

(** src: message/src/types/getheaders.rs 8-13 GetHeaders *)
Record GetHeaders := mkGetHeaders {
  gh_version : Z;
  gh_block_locator_hashes : list H256;
  gh_hash_stop : H256;
}.

(** src: message/src/types/getheaders.rs 16-22 with_block_locator_hashes *)
Definition with_block_locator_hashes (block_locator_hashes : list H256) : GetHeaders :=
  mkGetHeaders 0 block_locator_hashes (@hash_default 32).

(** src: message/src/types/getheaders.rs 34-45 deserialize_payload *)
Definition de_getheaders : Deserializable GetHeaders := λ S _,
  version ← read de_u32;
  block_locator_hashes ← read (read_list_max (de_hash 32) 2000);
  hash_stop ← read (de_hash 32);
  mret (mkGetHeaders version block_locator_hashes hash_stop).

(** src: message/src/types/getheaders.rs 47-53 serialize_payload *)
Definition ser_getheaders (g : GetHeaders) (st : Stream) : Stream :=
  append (ser_hash 32) (gh_hash_stop g)
    (append_list (ser_hash 32) (gh_block_locator_hashes g) (append ser_u32 (gh_version g) st)).

(** src: message/src/types/getheaders.rs 25-32 GetHeaders *)
#[global] Instance getheaders_payload : Payload GetHeaders := {|
  payload_version := 0;
  payload_command := name "getheaders";
  payload_de _ := de_getheaders;
  payload_ser g _ st := Ok (ser_getheaders g st);
|}.

(** ** Inventories *)

(** src: message/src/types/getdata.rs 6-6 GETDATA_MAX_INVENTORY_LEN *)
Definition GETDATA_MAX_INVENTORY_LEN : nat := Z.to_nat 50000.

(** src: message/src/types/getdata.rs 8-11 GetData *)
Record GetData := mkGetData { gd_inventory : list InventoryVector }.

(** src: message/src/types/getdata.rs 21-45 GetData *)
#[global] Instance getdata_payload : Payload GetData := {|
  payload_version := 0;
  payload_command := name "getdata";
  payload_de _ := λ S _,
    inventory ← read (read_list_max de_inventory_vector 50000); mret (mkGetData inventory);
  payload_ser g _ st := Ok (append_list ser_inventory_vector (gd_inventory g) st);
|}.

(** src: message/src/types/inv.rs 6-6 INV_MAX_INVENTORY_LEN *)
Definition INV_MAX_INVENTORY_LEN : nat := Z.to_nat 50000.

(** src: message/src/types/inv.rs 8-11 Inv *)
Record Inv := mkInv { inv_inventory : list InventoryVector }.

(** src: message/src/types/inv.rs 21-45 Inv *)
#[global] Instance inv_payload : Payload Inv := {|
  payload_version := 0;
  payload_command := name "inv";
  payload_de _ := λ S _,
    inventory ← read (read_list_max de_inventory_vector 50000); mret (mkInv inventory);
  payload_ser g _ st := Ok (append_list ser_inventory_vector (inv_inventory g) st);
|}.

(** src: message/src/types/notfound.rs 6-9 NotFound *)
Record NotFound := mkNotFound { nf_inventory : list InventoryVector }.

(** src: message/src/types/notfound.rs 19-43 NotFound *)
#[global] Instance notfound_payload : Payload NotFound := {|
  payload_version := 0;
  payload_command := name "notfound";
  payload_de _ := λ S _,
    inventory ← read (read_list_max de_inventory_vector 50000); mret (mkNotFound inventory);
  payload_ser g _ st := Ok (append_list ser_inventory_vector (nf_inventory g) st);
|}.

(** ** Ping and pong *)

(** src: message/src/types/ping.rs 5-14 Ping *)
Record Ping := mkPing { ping_nonce : Z }.

(** src: message/src/types/ping.rs 16-40 Ping *)
#[global] Instance ping_payload : Payload Ping := {|
  payload_version := 0;
  payload_command := name "ping";
  payload_de _ := λ S _, nonce ← read de_u64; mret (mkPing nonce);
  payload_ser p _ st := Ok (append ser_u64 (ping_nonce p) st);
|}.

(** src: message/src/types/pong.rs 5-14 Pong *)
Record Pong := mkPong { pong_nonce : Z }.

(** src: message/src/types/pong.rs 16-40 Pong *)
#[global] Instance pong_payload : Payload Pong := {|
  payload_version := 0;
  payload_command := name "pong";
  payload_de _ := λ S _, nonce ← read de_u64; mret (mkPong nonce);
  payload_ser p _ st := Ok (append ser_u64 (pong_nonce p) st);
|}.

(** ** Rejections *)

(** src: message/src/types/reject.rs 5-14 RejectCode *)
Inductive RejectCode :=
| Malformed | Invalid | Obsolate | Duplicate | Nonstandard | Checkpoint.

(** src: message/src/types/reject.rs 16-20 from *)
Definition reject_code_u8 (c : RejectCode) : Z :=
  match c with
  | Malformed => 0x01
  | Invalid => 0x10
  | Obsolate => 0x11
  | Duplicate => 0x12
  | Nonstandard => 0x40
  | Checkpoint => 0x41
  end.

(** src: message/src/types/reject.rs 23-35 from_u8 *)
Definition reject_code_from_u8 (v : Z) : option RejectCode :=
  if v =? 0x01 then Some Malformed
  else if v =? 0x10 then Some Invalid
  else if v =? 0x11 then Some Obsolate
  else if v =? 0x12 then Some Duplicate
  else if v =? 0x40 then Some Nonstandard
  else if v =? 0x41 then Some Checkpoint
  else None.

(** src: message/src/types/reject.rs 38-42 serialize *)
Definition ser_reject_code : Serializable RejectCode :=
  let f (c : RejectCode) (st : Stream) := append ser_u8 (reject_code_u8 c) st in
  mkSerializable f (default_serialized_size f).

(** src: message/src/types/reject.rs 44-52 deserialize *)
Definition de_reject_code : Deserializable RejectCode := λ S _,
  v ← read de_u8;
  match reject_code_from_u8 v with
  | Some c => mret c
  | None => RM_fail MalformedData
  end.

(** src: message/src/types/reject.rs 54-60 Reject *)
Record Reject := mkReject {
  rej_message : list byte;
  rej_code : RejectCode;
  rej_reason : list byte;
}.

(** src: message/src/types/reject.rs 71-82 deserialize_payload *)
Definition de_reject : Deserializable Reject := λ S _,
  message ← read de_string;
  code ← read de_reject_code;
  reason ← read de_string;
  mret (mkReject message code reason).

(** src: message/src/types/reject.rs 84-90 serialize_payload *)
Definition ser_reject (r : Reject) (st : Stream) : Stream :=
  append ser_string (rej_reason r)
    (append ser_reject_code (rej_code r) (append ser_string (rej_message r) st)).

(** src: message/src/types/reject.rs 62-69 Reject *)
#[global] Instance reject_payload : Payload Reject := {|
  payload_version := 0;
  payload_command := name "reject";
  payload_de _ := de_reject;
  payload_ser r _ st := Ok (ser_reject r st);
|}.

(** ** Blocks and headers *)

Section block_messages.
Context {R : RugOps} {H : Sha256Ops} {V : VrfOps}.

(** src: message/src/types/block.rs 6-9 Block *)
Record BlockMessage := mkBlockMessage { bm_block : Block }.

(** src: message/src/types/block.rs 17-41 Block *)
#[global] Instance block_payload : Payload BlockMessage := {|
  payload_version := 0;
  payload_command := name "block";
  payload_de _ := λ S _, block ← read de_block; mret (mkBlockMessage block);
  payload_ser b _ st := Ok (append ser_block (bm_block b) st);
|}.

(** src: message/src/types/headers.rs 6-6 HEADERS_MAX_HEADERS_LEN *)
Definition HEADERS_MAX_HEADERS_LEN : nat := 2000.

(** src: message/src/types/headers.rs 8-11 Headers *)
Record Headers := mkHeaders { hm_headers : list BlockHeader }.

(** The wrappers [HeaderRef] and [Header] are the header they hold. *)
(** src: message/src/types/headers.rs 69-75 serialize *)
Definition ser_header_ref : Serializable BlockHeader :=
  let f (h : BlockHeader) (st : Stream) :=
    append ser_compact_integer 0 (append ser_block_header h st) in
  mkSerializable f (default_serialized_size f).

(** src: message/src/types/headers.rs 77-93 deserialize *)
Definition de_header_entry : Deserializable BlockHeader := λ S _,
  header ← read de_block_header;
  txn_count ← read de_compact_integer;
  if negb (txn_count =? 0) then RM_fail MalformedData else mret header.

(** No limit on the number of headers. *)
(** src: message/src/types/headers.rs 41-67 Headers *)
#[global] Instance headers_payload : Payload Headers := {|
  payload_version := 0;
  payload_command := name "headers";
  payload_de _ := λ S _, headers ← read (read_list de_header_entry); mret (mkHeaders headers);
  payload_ser h _ st := Ok (append_list ser_header_ref (hm_headers h) st);
|}.
End block_messages.

(** ** What a message type promises *)

(** [wf version t]: [t] may be sent under [version]. *)
Class PayloadCodec (T : Type) {P : Payload T} (wf : Z → T → Prop) := {
  payload_enc : Z → T → list byte;
  payload_command_ok :
    is_ok (command_from_str payload_command) && is_ascii payload_command
    && match list.last payload_command with Some b => negb (byte_val b =? 0) | None => true end = true;
  payload_ser_enc v t st : payload_ser t v st = Ok (append_slice (payload_enc v t) st);
  payload_enc_decodes v t : wf v t → decodes (payload_de v) (payload_enc v t) t;
}.
#[global] Hint Mode PayloadCodec + - - : typeclass_instances.

(** The field codecs of the records above. *)
Definition version_v0_wf (v : VersionV0) : Prop :=
  u32 (ver_version v) ∧ u64 (ver_services v) ∧ - 2 ^ 63 ≤ ver_timestamp v < 2 ^ 63 ∧
  net_address_wf (ver_receiver v).

#[global] Instance version_v0_codec : Codec ser_version_v0 de_version_v0 version_v0_wf.
Proof.
  pose (enc v := serialize ser_u32 (ver_version v) ++ serialize ser_u64 (ver_services v) ++
                 serialize ser_i64 (ver_timestamp v) ++ serialize ser_net_address (ver_receiver v)).
  apply (codec_default _ _ _ enc).
  - intros v st. by append_fields.
  - intros [v s t r] (Hv & Hs & Ht & Hr) S R HS. unfold enc, de_version_v0.
    cbn [ver_version ver_services ver_timestamp ver_receiver] in *.
    read_field. read_field. read_field. read_last.
Qed.

Definition version_v106_wf (v : VersionV106) : Prop :=
  net_address_wf (ver_from v) ∧ u64 (ver_nonce v) ∧ string_wf (ver_user_agent v) ∧
  - 2 ^ 31 ≤ ver_start_height v < 2 ^ 31.

#[global] Instance version_v106_codec : Codec ser_version_v106 de_version_v106 version_v106_wf.
Proof.
  pose (enc v := serialize ser_net_address (ver_from v) ++ serialize ser_u64 (ver_nonce v) ++
                 serialize ser_string (ver_user_agent v) ++ serialize ser_i32 (ver_start_height v)).
  apply (codec_default _ _ _ enc).
  - intros v st. by append_fields.
  - intros [f n u s] (Hf & Hn & Hu & Hs) S R HS. unfold enc, de_version_v106.
    cbn [ver_from ver_nonce ver_user_agent ver_start_height] in *.
    read_field. read_field. read_field. read_last.
Qed.

#[global] Instance version_v70001_codec : Codec ser_version_v70001 de_version_v70001 (λ _, True).
Proof.
  apply (codec_default _ _ _ (λ v, serialize ser_bool (ver_relay v))).
  - intros v st. by append_fields.
  - intros [r] _ S R HS. unfold de_version_v70001. cbn [ver_relay]. read_last.
Qed.

Definition address_entry_wf (e : AddressEntry) : Prop :=
  u32 (ae_timestamp e) ∧ net_address_wf (ae_address e).

#[global] Instance address_entry_codec : Codec ser_address_entry de_address_entry address_entry_wf.
Proof.
  pose (enc e := serialize ser_u32 (ae_timestamp e) ++ serialize ser_net_address (ae_address e)).
  apply (codec_default _ _ _ enc).
  - intros v st. by append_fields.
  - intros [t a] (Ht & Ha) S R HS. unfold enc, de_address_entry. cbn [ae_timestamp ae_address] in *.
    read_field. read_last.
Qed.

#[global] Instance reject_code_codec : Codec ser_reject_code de_reject_code (λ _, True).
Proof.
  apply (codec_default _ _ _ (λ c, serialize ser_u8 (reject_code_u8 c))).
  - intros c st. by append_fields.
  - intros c _ S R HS. unfold de_reject_code. apply decodes_at_app_nil.
    eapply decodes_at_bind; [apply (decodes_at_codec ser_u8 de_u8 u8); by destruct c|].
    destruct c; apply decodes_at_ret.
Qed.

Section header_entries.
Context {R : RugOps} {H : Sha256Ops} {V : VrfOps}.
Context {RL : RugLaws R} {HL : Sha256Laws H} {VL : VrfLaws V}.

#[global] Instance header_entry_codec : Codec ser_header_ref de_header_entry header_wf.
Proof.
  pose (enc h := serialize ser_block_header h ++ serialize ser_compact_integer 0).
  apply (codec_default _ _ _ enc).
  - intros v st.
    rewrite (codec_append _ de_block_header header_wf), (codec_append _ de_compact_integer u64).
    by rewrite append_slice_append.
  - intros h Hh S RS HS. unfold enc, de_header_entry.
    eapply decodes_at_bind; [by apply (decodes_at_codec ser_block_header de_block_header header_wf)|].
    apply decodes_at_app_nil.
    eapply decodes_at_bind; [by apply (decodes_at_codec ser_compact_integer de_compact_integer u64)|].
    apply decodes_at_ret.
Qed.
End header_entries.

(** ** The message types keep the promise *)

(** Reads a list within its limit. *)
Ltac read_list_field :=
  eapply decodes_at_bind; [eapply decodes_at_read_list_max; [typeclasses eauto|done..]|].

(** What a [version] message announces agrees with its shape. *)
Definition version_wf (v : Version) : Prop :=
  version_v0_wf (ver_simple v) ∧
  match v with
  | Version_V0 s => ver_version s < 106
  | Version_V106 s v => 106 ≤ ver_version s < 70001 ∧ version_v106_wf v
  | Version_V70001 s v _ => 70001 ≤ ver_version s ∧ version_v106_wf v
  end.

#[global] Program Instance version_payload_codec : PayloadCodec Version (λ _, version_wf) := {|
  payload_enc _ v :=
    serialize ser_version_v0 (ver_simple v) ++
    match v with
    | Version_V0 _ => []
    | Version_V106 _ v => serialize ser_version_v106 v
    | Version_V70001 _ v w => serialize ser_version_v106 v ++ serialize ser_version_v70001 w
    end |}.
Next Obligation. done. Qed.
Next Obligation.
  intros ? v st. cbn [payload_ser version_payload]. f_equal.
  destruct v; cbn [ser_version ver_simple]; append_fields; by rewrite ?app_nil_r.
Qed.
Next Obligation.
  intros ? v [Hs Hv] S R HS. unfold read, payload_de, version_payload, de_version.
  eapply decodes_at_bind; [by apply (decodes_at_codec ser_version_v0 de_version_v0 version_v0_wf)|].
  destruct v as [s|s v|s v w]; cbn [ver_simple] in *.
  - rewrite (proj2 (Z.ltb_lt _ _)) by lia. apply decodes_at_ret.
  - destruct Hv as [Hr Hv]. rewrite (proj2 (Z.ltb_ge _ _)) by lia. apply decodes_at_app_nil.
    read_field. rewrite (proj2 (Z.ltb_lt _ _)) by lia. apply decodes_at_ret.
  - destruct Hv as [Hr Hv]. rewrite (proj2 (Z.ltb_ge _ _)) by lia.
    read_field. rewrite (proj2 (Z.ltb_ge _ _)) by lia. read_last.
Qed.

(** A list of entries is only read back under a version that has them, and up
    to a thousand of them. *)
Definition addr_wf (version : Z) (a : Addr) : Prop :=
  match a with
  | Addr_V0 l => version < 31402 ∧ list_wf net_address_wf l ∧ Z.of_nat (length l) ≤ 1000
  | Addr_V31402 l => 31402 ≤ version ∧ list_wf address_entry_wf l ∧ Z.of_nat (length l) ≤ 1000
  end.

#[global] Program Instance addr_payload_codec : PayloadCodec Addr addr_wf := {|
  payload_enc version a :=
    match a with
    | Addr_V0 l => serialize_list ser_net_address l
    | Addr_V31402 l =>
        if version <? 31402 then serialize_list ser_net_address (ae_address <$> l)
        else serialize_list ser_address_entry l
    end |}.
Next Obligation. done. Qed.
Next Obligation.
  intros v a st. cbn [payload_ser addr_payload]. f_equal. destruct a; cbn [ser_addr].
  - eapply append_list_stream; typeclasses eauto.
  - unfold ser_v31402_as_v0. destruct (v <? 31402); eapply append_list_stream; typeclasses eauto.
Qed.
Next Obligation.
  intros v a Ha S R HS. unfold read, payload_de, addr_payload, de_addr.
  destruct a as [l|l]; destruct Ha as (Hv & Hl & Hmax).
  - rewrite (proj2 (Z.ltb_lt _ _)) by lia. apply decodes_at_app_nil.
    read_list_field. apply decodes_at_ret.
  - rewrite (proj2 (Z.ltb_ge _ _)) by lia. apply decodes_at_app_nil.
    read_list_field. apply decodes_at_ret.
Qed.

#[global] Program Instance getaddr_payload_codec : PayloadCodec GetAddr (λ _ _, True) :=
  {| payload_enc _ _ := [] |}.
Next Obligation. done. Qed.
Next Obligation. intros ? [] st. by rewrite append_slice_nil. Qed.
Next Obligation. intros ? [] _ S R HS. apply decodes_at_ret. Qed.

#[global] Program Instance sendheaders_payload_codec : PayloadCodec SendHeaders (λ _ _, True) :=
  {| payload_enc _ _ := [] |}.
Next Obligation. done. Qed.
Next Obligation. intros ? [] st. by rewrite append_slice_nil. Qed.
Next Obligation. intros ? [] _ S R HS. apply decodes_at_ret. Qed.

#[global] Program Instance verack_payload_codec : PayloadCodec Verack (λ _ _, True) :=
  {| payload_enc _ _ := [] |}.
Next Obligation. done. Qed.
Next Obligation. intros ? [] st. by rewrite append_slice_nil. Qed.
Next Obligation. intros ? [] _ S R HS. apply decodes_at_ret. Qed.

(** A list of hashes within a limit. *)
Definition hashes_wf (max : Z) (l : list H256) : Prop :=
  list_wf (λ _, True) l ∧ Z.of_nat (length l) ≤ max.

#[global] Program Instance getblocks_payload_codec :
  PayloadCodec GetBlocks (λ _ g, u32 (gb_version g) ∧ hashes_wf 500 (gb_block_locator_hashes g)) := {|
  payload_enc _ g := serialize ser_u32 (gb_version g) ++
    serialize_list (ser_hash 32) (gb_block_locator_hashes g) ++ serialize (ser_hash 32) (gb_hash_stop g) |}.
Next Obligation. done. Qed.
Next Obligation.
  intros ? g st. cbn [payload_ser getblocks_payload]. f_equal. unfold ser_getblocks. append_fields.
  erewrite append_list_slice by typeclasses eauto. append_fields. by rewrite <-app_assoc.
Qed.
Next Obligation.
  intros ? [v l h] [Hv [Hl Hmax]] S R HS. unfold read, payload_de, getblocks_payload, de_getblocks.
  cbn [gb_version gb_block_locator_hashes gb_hash_stop] in *. read_field.
  read_list_field. read_last.
Qed.

#[global] Program Instance getheaders_payload_codec :
  PayloadCodec GetHeaders (λ _ g, u32 (gh_version g) ∧ hashes_wf 2000 (gh_block_locator_hashes g)) := {|
  payload_enc _ g := serialize ser_u32 (gh_version g) ++
    serialize_list (ser_hash 32) (gh_block_locator_hashes g) ++ serialize (ser_hash 32) (gh_hash_stop g) |}.
Next Obligation. done. Qed.
Next Obligation.
  intros ? g st. cbn [payload_ser getheaders_payload]. f_equal. unfold ser_getheaders. append_fields.
  erewrite append_list_slice by typeclasses eauto. append_fields. by rewrite <-app_assoc.
Qed.
Next Obligation.
  intros ? [v l h] [Hv [Hl Hmax]] S R HS. unfold read, payload_de, getheaders_payload, de_getheaders.
  cbn [gh_version gh_block_locator_hashes gh_hash_stop] in *. read_field.
  read_list_field. read_last.
Qed.

(** The three inventory messages have one body. *)
Definition inventory_wf (l : list InventoryVector) : Prop :=
  list_wf (λ _, True) l ∧ Z.of_nat (length l) ≤ 50000.

Lemma append_inventory l st :
  append_list ser_inventory_vector l st = append_slice (serialize_list ser_inventory_vector l) st.
Proof. eapply append_list_stream; typeclasses eauto. Qed.

Lemma decodes_inventory {S T} `{ReadSource S} (f : list InventoryVector → T) l : inventory_wf l →
  decodes_at (inventory ← read (read_list_max de_inventory_vector 50000); mret (f inventory) : RM S T)
    (serialize_list ser_inventory_vector l) (f l).
Proof. intros [Hl Hmax]. apply decodes_at_app_nil. read_list_field. apply decodes_at_ret. Qed.

#[global] Program Instance getdata_payload_codec :
  PayloadCodec GetData (λ _ g, inventory_wf (gd_inventory g)) :=
  {| payload_enc _ g := serialize_list ser_inventory_vector (gd_inventory g) |}.
Next Obligation. done. Qed.
Next Obligation. intros ? g st. cbn [payload_ser getdata_payload]. by rewrite append_inventory. Qed.
Next Obligation. intros ? [l] Hl S R HS. by apply (decodes_inventory mkGetData). Qed.

#[global] Program Instance inv_payload_codec :
  PayloadCodec Inv (λ _ g, inventory_wf (inv_inventory g)) :=
  {| payload_enc _ g := serialize_list ser_inventory_vector (inv_inventory g) |}.
Next Obligation. done. Qed.
Next Obligation. intros ? g st. cbn [payload_ser inv_payload]. by rewrite append_inventory. Qed.
Next Obligation. intros ? [l] Hl S R HS. by apply (decodes_inventory mkInv). Qed.

#[global] Program Instance notfound_payload_codec :
  PayloadCodec NotFound (λ _ g, inventory_wf (nf_inventory g)) :=
  {| payload_enc _ g := serialize_list ser_inventory_vector (nf_inventory g) |}.
Next Obligation. done. Qed.
Next Obligation. intros ? g st. cbn [payload_ser notfound_payload]. by rewrite append_inventory. Qed.
Next Obligation. intros ? [l] Hl S R HS. by apply (decodes_inventory mkNotFound). Qed.

#[global] Program Instance ping_payload_codec : PayloadCodec Ping (λ _ p, u64 (ping_nonce p)) :=
  {| payload_enc _ p := serialize ser_u64 (ping_nonce p) |}.
Next Obligation. done. Qed.
Next Obligation. intros ? p st. cbn [payload_ser ping_payload]. by append_fields. Qed.
Next Obligation. intros ? [n] Hn S R HS. cbn [ping_nonce] in *. read_last. Qed.

#[global] Program Instance pong_payload_codec : PayloadCodec Pong (λ _ p, u64 (pong_nonce p)) :=
  {| payload_enc _ p := serialize ser_u64 (pong_nonce p) |}.
Next Obligation. done. Qed.
Next Obligation. intros ? p st. cbn [payload_ser pong_payload]. by append_fields. Qed.
Next Obligation. intros ? [n] Hn S R HS. cbn [pong_nonce] in *. read_last. Qed.

#[global] Program Instance reject_payload_codec :
  PayloadCodec Reject (λ _ r, string_wf (rej_message r) ∧ string_wf (rej_reason r)) := {|
  payload_enc _ r := serialize ser_string (rej_message r) ++
    serialize ser_reject_code (rej_code r) ++ serialize ser_string (rej_reason r) |}.
Next Obligation. done. Qed.
Next Obligation.
  intros ? r st. cbn [payload_ser reject_payload]. unfold ser_reject. by append_fields.
Qed.
Next Obligation.
  intros ? [m c r] [Hm Hr] S R HS. unfold read, payload_de, reject_payload, de_reject.
  cbn [rej_message rej_code rej_reason] in *. read_field. read_field. read_last.
Qed.

Section block_codecs.
Context {R : RugOps} {H : Sha256Ops} {V : VrfOps}.
Context {RL : RugLaws R} {HL : Sha256Laws H} {VL : VrfLaws V}.

#[global] Program Instance block_payload_codec :
  PayloadCodec BlockMessage (λ _ b, block_wf (bm_block b)) :=
  {| payload_enc _ b := serialize ser_block (bm_block b) |}.
Next Obligation. done. Qed.
Next Obligation.
  intros ? b st. cbn [payload_ser block_payload].
  by rewrite (codec_append ser_block de_block block_wf).
Qed.
Next Obligation.
  intros ? [b] Hb S RS HS. cbn [bm_block] in *. apply decodes_at_app_nil.
  eapply decodes_at_bind; [by apply (decodes_at_codec ser_block de_block block_wf)|].
  apply decodes_at_ret.
Qed.

#[global] Program Instance headers_payload_codec :
  PayloadCodec Headers (λ _ h, list_wf header_wf (hm_headers h)) :=
  {| payload_enc _ h := serialize_list ser_header_ref (hm_headers h) |}.
Next Obligation. done. Qed.
Next Obligation.
  intros ? h st. cbn [payload_ser headers_payload].
  by rewrite (append_list_stream ser_header_ref de_header_entry header_wf).
Qed.
Next Obligation.
  intros ? [l] Hl S RS HS. cbn [hm_headers] in *. apply decodes_at_app_nil.
  eapply decodes_at_bind; [by apply (decodes_at_read_list ser_header_ref de_header_entry header_wf)|].
  apply decodes_at_ret.
Qed.
End block_codecs.

(** ** Example: the version message of a node *)

Definition example_address (port : Z) : NetAddress :=
  mkNetAddress 1 (V4 [byte_of 127; byte_of 0; byte_of 0; byte_of 1]) port.

Definition example_version (version nonce : Z) : Version :=
  Version_V70001 (mkVersionV0 version 1 1600000000 (example_address 8333))
    (mkVersionV106 (example_address 8334) nonce (name "/randchain/") 5)
    (mkVersionV70001 true).

Lemma example_version_wf version nonce : 70001 ≤ version < 2 ^ 32 → u64 nonce →
  version_wf (example_version version nonce).
Proof.
  intros Hv Hn. assert (∀ p, u16 p → net_address_wf (example_address p)) as Ha.
  { intros p Hp. by split_and!. }
  split.
  - split_and!; cbn [ver_version ver_services ver_timestamp ver_receiver ver_simple example_version];
      try (unfold fits; lia). by apply Ha.
  - split; [cbn; lia|]. split_and!; cbn [ver_from ver_nonce ver_user_agent ver_start_height]; try lia.
    + by apply Ha.
    + done.
    + split; [|done]. apply utf8_ascii. by apply (bool_decide_unpack _).
Qed.
