(* ===== verification/MessageIo.v ===== *)
(** * Reading and writing messages on a connection ([p2p/src/io])

    The futures [ReadHeader], [ReadPayload], [ReadMessage], [ReadAnyMessage]
    and [WriteMessage] as state machines that are polled.  The connection with
    tokio's [read_exact] and [write_all] on it is a parameter: the class
    [AsyncIo], with their documented behaviour in [AsyncIoLaws].  A poll that
    finds too few bytes is pending and is repeated when more have arrived, so
    what a future returns must not depend on how the bytes were cut:
    [poll_read_message_parses] says it is a function of the bytes alone. *)

From S2P Require Import Prelude External Primitives Serialization Compact Crypto Chain Network Utf8.
From S2P Require Import Message MessageTypes.
#[local] Open Scope Z_scope.

(** ** Connections *)

(** What a poll of tokio's futures gives. *)
Inductive IoPoll (T : Type) :=
| IoReady (t : T)
| IoNotReady
| IoFailed.
Arguments IoReady {T}.
Arguments IoNotReady {T}.
Arguments IoFailed {T}.

(** A connection [A]: one poll of [read_exact] and of [write_all], the bytes
    that have arrived and were not read, the bytes written so far, whether
    the socket takes more bytes now; and what the network does to it. *)
Class AsyncIo (A : Type) := {
  poll_read_exact : nat → A → IoPoll (list byte) * A;
  poll_write_all : list byte → A → IoPoll unit * A;
  incoming : A → list byte;
  outgoing : A → list byte;
  writable : A → bool;
  arrive : list byte → A → A;
  drained : A → A;
}.

(** A connection that does not break. *)
Class AsyncIoLaws (A : Type) {I : AsyncIo A} : Prop := {
  read_exact_ready n a : (n ≤ length (incoming a))%nat →
    ∃ a', poll_read_exact n a = (IoReady (take n (incoming a)), a') ∧
      incoming a' = drop n (incoming a) ∧ outgoing a' = outgoing a ∧ writable a' = writable a;
  read_exact_pending n a : (length (incoming a) < n)%nat →
    ∃ a', poll_read_exact n a = (IoNotReady, a') ∧
      incoming a' = incoming a ∧ outgoing a' = outgoing a ∧ writable a' = writable a;
  write_all_ready bs a : writable a = true →
    ∃ a', poll_write_all bs a = (IoReady tt, a') ∧
      incoming a' = incoming a ∧ outgoing a' = outgoing a ++ bs;
  write_all_pending bs a : writable a = false →
    ∃ a', poll_write_all bs a = (IoNotReady, a') ∧
      incoming a' = incoming a ∧ outgoing a' = outgoing a ∧ writable a' = false;
  arrive_spec bs a : incoming (arrive bs a) = incoming a ++ bs ∧
    outgoing (arrive bs a) = outgoing a ∧ writable (arrive bs a) = writable a;
  drained_spec a : incoming (drained a) = incoming a ∧
    outgoing (drained a) = outgoing a ∧ writable (drained a) = true;
}.

(** A connection in memory, whose socket takes one message at a time. *)
Record Pipe := mkPipe { pipe_in : list byte; pipe_out : list byte; pipe_free : bool }.

#[global] Instance pipe_io : AsyncIo Pipe := {|
  poll_read_exact n p :=
    if (length (pipe_in p) <? n)%nat then (IoNotReady, p)
    else (IoReady (take n (pipe_in p)), mkPipe (drop n (pipe_in p)) (pipe_out p) (pipe_free p));
  poll_write_all bs p :=
    if pipe_free p then (IoReady tt, mkPipe (pipe_in p) (pipe_out p ++ bs) false)
    else (IoNotReady, p);
  incoming := pipe_in;
  outgoing := pipe_out;
  writable := pipe_free;
  arrive bs p := mkPipe (pipe_in p ++ bs) (pipe_out p) (pipe_free p);
  drained p := mkPipe (pipe_in p) (pipe_out p) true;
|}.

#[global] Instance pipe_io_laws : AsyncIoLaws Pipe.
Proof.
  split; cbn [poll_read_exact poll_write_all incoming outgoing writable arrive drained pipe_io].
  - intros n p Hn. rewrite (proj2 (Nat.ltb_ge _ _)) by done. by eexists.
  - intros n p Hn. rewrite (proj2 (Nat.ltb_lt _ _)) by done. by eexists.
  - intros bs p ->. by eexists.
  - intros bs p Hp. rewrite Hp. by eexists.
  - done.
  - done.
Qed.

(** ** Futures *)

(** A round of a [poll] loop: the next state, the result, the state to come
    back to, an error of the connection, or a panic. *)
Inductive Flow (S T : Type) :=
| Next (s : S)
| Done (t : T)
| Pending (s : S)
| IoError
| Panic.
Arguments Next {S T}.
Arguments Done {S T}.
Arguments Pending {S T}.
Arguments IoError {S T}.
Arguments Panic {S T}.

(** [loop { … self.state = next_state; }]; [fuel] bounds the rounds, and
    running out of it is shown as a [Next] that is never met. *)
Fixpoint poll_loop {S T A} (step : S → A → Flow S T * A) (fuel : nat) (s : S) (a : A) : Flow S T * A :=
  match fuel with
  | O => (Next s, a)
  | Datatypes.S fuel =>
      match step s a with
      | (Next s', a') => poll_loop step fuel s' a'
      | r => r
      end
  end.

Lemma poll_loop_S {S T A} (step : S → A → Flow S T * A) fuel s a :
  poll_loop step (Datatypes.S fuel) s a =
  match step s a with (Next s', a') => poll_loop step fuel s' a' | r => r end.
Proof. done. Qed.

(** [try_ready!] around the poll of an inner future that is in state [s0]. *)
Definition try_ready {S T X A} (r : IoPoll X * A) (s0 : S) (k : X → A → Flow S T * A) : Flow S T * A :=
  match r with
  | (IoReady x, a) => k x a
  | (IoNotReady, a) => (Pending s0, a)
  | (IoFailed, a) => (IoError, a)
  end.

(** The same for a future of this file, which keeps its own state. *)
Definition try_future {S T S' X A} (r : Flow S' X * A) (wrap_state : S' → S)
    (k : X → A → Flow S T * A) : Flow S T * A :=
  match r with
  | (Done x, a) => k x a
  | (Pending s, a) => (Pending (wrap_state s), a)
  | (IoError, a) => (IoError, a)
  | (Panic, a) => (Panic, a)
  | (Next s, a) => (Next (wrap_state s), a)
  end.

Section io.
Context {H : Sha256Ops} {A : Type} {I : AsyncIo A}.

(** src: p2p/src/io/read_header.rs 30-34 poll *)
Definition poll_read_header (magic : Z) (a : A) : IoPoll (result MessageError MessageHeader) * A :=
  match poll_read_exact 24 a with
  | (IoReady data, a) => (IoReady (header_deserialize data magic), a)
  | (IoNotReady, a) => (IoNotReady, a)
  | (IoFailed, a) => (IoFailed, a)
  end.

(** src: p2p/src/io/read_payload.rs 39-46 poll *)
Definition poll_read_payload {M} `{Payload M} (version : Z) (len : nat) (sum : H32) (a : A) :
    IoPoll (result MessageError M) * A :=
  match poll_read_exact len a with
  | (IoReady data, a) =>
      if bool_decide (checksum data ≠ sum) then (IoReady (Err InvalidChecksum), a)
      else (IoReady (deserialize_payload data version), a)
  | (IoNotReady, a) => (IoNotReady, a)
  | (IoFailed, a) => (IoFailed, a)
  end.

(** src: p2p/src/io/read_message.rs 23-26 ReadMessageState *)
Inductive ReadMessageState :=
| ReadHeader (version : Z)
| ReadPayload (version : Z) (len : nat) (sum : H32).

(** src: p2p/src/io/read_message.rs 9-21 read_message *)
Definition read_message (version : Z) : ReadMessageState := ReadHeader version.

(** src: p2p/src/io/read_message.rs 41-66 poll *)
Definition read_message_step (M : Type) `{Payload M} (magic : Z) (state : ReadMessageState) (a : A) :
    Flow ReadMessageState (result MessageError M) * A :=
  match state with
  | ReadHeader version =>
      try_ready (poll_read_header magic a) state (λ header a,
        match header with
        | Err err => (Done (Err err), a)
        | Ok header =>
            if negb (command_eq_str (mh_command header) payload_command)
            then (Done (Err InvalidCommand), a)
            else (Next (ReadPayload version (Z.to_nat (mh_len header)) (mh_checksum header)), a)
        end)
  | ReadPayload version len sum =>
      try_ready (poll_read_payload version len sum a) state (λ payload a, (Done payload, a))
  end.

(** Two states, in order. *)
Definition poll_read_message (M : Type) `{Payload M} (magic : Z) (state : ReadMessageState) (a : A) :=
  poll_loop (read_message_step M magic) 2 state a.

(** src: p2p/src/io/read_any_message.rs 20-26 ReadAnyMessageState *)
Inductive ReadAnyMessageState :=
| AnyHeader
| AnyPayload (header : MessageHeader).

(** src: p2p/src/io/read_any_message.rs 39-68 poll *)
Definition read_any_message_step (magic : Z) (state : ReadAnyMessageState) (a : A) :
    Flow ReadAnyMessageState (result MessageError (Command * list byte)) * A :=
  match state with
  | AnyHeader =>
      try_ready (poll_read_header magic a) state (λ header a,
        match header with
        | Err err => (Done (Err err), a)
        | Ok header => (Next (AnyPayload header), a)
        end)
  | AnyPayload header =>
      try_ready (poll_read_exact (Z.to_nat (mh_len header)) a) state (λ bytes a,
        if bool_decide (checksum bytes ≠ mh_checksum header) then (Done (Err InvalidChecksum), a)
        else (Done (Ok (mh_command header, bytes)), a))
  end.

Definition poll_read_any_message (magic : Z) (state : ReadAnyMessageState) (a : A) :=
  poll_loop (read_any_message_step magic) 2 state a.

(** ** What they compute *)

(** A message at the front of the bytes received: the result of reading it and
    the bytes after what was read, or [None] when it is not all there. *)
Definition parse_frame (M : Type) `{Payload M} (magic version : Z) (bs : list byte) :
    option (result MessageError M * list byte) :=
  if (length bs <? 24)%nat then None
  else
    let rest := drop 24 bs in
    match header_deserialize (take 24 bs) magic with
    | Err e => Some (Err e, rest)
    | Ok header =>
        if negb (command_eq_str (mh_command header) payload_command) then Some (Err InvalidCommand, rest)
        else
          let len := Z.to_nat (mh_len header) in
          if (length rest <? len)%nat then None
          else Some (if bool_decide (checksum (take len rest) ≠ mh_checksum header)
                     then Err InvalidChecksum else deserialize_payload (take len rest) version,
                     drop len rest)
    end.

(** The bytes a state of [ReadMessage] has behind it. *)
Definition reads_behind (M : Type) `{Payload M} (magic version : Z) (state : ReadMessageState)
    (bs : list byte) : Prop :=
  match state with
  | ReadHeader v => v = version ∧ bs = []
  | ReadPayload v len sum => v = version ∧ length bs = 24%nat ∧
      ∃ header, header_deserialize bs magic = Ok header ∧
        command_eq_str (mh_command header) payload_command = true ∧
        len = Z.to_nat (mh_len header) ∧ sum = mh_checksum header
  end.

Context {IL : AsyncIoLaws A}.

(** The views of a connection a read leaves alone. *)
Definition same_writes (a a' : A) : Prop := outgoing a' = outgoing a ∧ writable a' = writable a.

(** The step from the payload state. *)
Lemma read_payload_parses {M} `{Payload M} magic version len sum a behind :
  reads_behind M magic version (ReadPayload version len sum) behind →
  ∃ a', same_writes a a' ∧
    match parse_frame M magic version (behind ++ incoming a) with
    | Some (res, rest) =>
        read_message_step M magic (ReadPayload version len sum) a = (Done res, a') ∧ incoming a' = rest
    | None =>
        read_message_step M magic (ReadPayload version len sum) a =
          (Pending (ReadPayload version len sum), a') ∧ incoming a' = incoming a
    end.
Proof.
  intros (_ & Hl & header & Hh & Hc & -> & ->). unfold parse_frame.
  rewrite length_app, Hl, (proj2 (Nat.ltb_ge _ _)) by lia.
  rewrite take_app_length' , drop_app_length' by done. rewrite Hh, Hc. cbn [negb].
  unfold read_message_step, poll_read_payload.
  destruct (Nat.ltb_spec (length (incoming a)) (Z.to_nat (mh_len header))) as [Hlt|Hge].
  - destruct (read_exact_pending _ _ Hlt) as (a' & -> & Hi & Ho & Hw). by exists a'.
  - destruct (read_exact_ready _ _ Hge) as (a' & -> & Hi & Ho & Hw). exists a'. split; [done|].
    by case_bool_decide.
Qed.

(** A poll reads a whole message as soon as it has arrived, however it was cut,
    and otherwise keeps a state that goes on from where it was. *)
Lemma poll_read_message_parses {M} `{Payload M} magic version state a behind :
  reads_behind M magic version state behind →
  ∃ a', same_writes a a' ∧
    match parse_frame M magic version (behind ++ incoming a) with
    | Some (res, rest) => poll_read_message M magic state a = (Done res, a') ∧ incoming a' = rest
    | None =>
        ∃ state' behind', poll_read_message M magic state a = (Pending state', a') ∧
          reads_behind M magic version state' behind' ∧
          behind' ++ incoming a' = behind ++ incoming a
    end.
Proof.
  intros Hb. unfold poll_read_message. destruct state as [v|v len sum].
  - destruct Hb as [-> ->]. simpl app. rewrite poll_loop_S. cbn [read_message_step].
    unfold poll_read_header. destruct (Nat.ltb_spec (length (incoming a)) 24) as [Hlt|Hge].
    + destruct (read_exact_pending _ _ Hlt) as (a' & -> & Hi & Ho & Hw). exists a'.
      split; [done|]. unfold parse_frame. rewrite (proj2 (Nat.ltb_lt _ _)) by done.
      exists (ReadHeader version), []. cbn [try_ready]. by rewrite Hi.
    + destruct (read_exact_ready _ _ Hge) as (a1 & -> & Hi & Ho & Hw). cbn [try_ready].
      destruct (header_deserialize (take 24 (incoming a)) magic) as [header|e] eqn:Eh.
      2:{ exists a1. split; [done|]. unfold parse_frame.
          rewrite (proj2 (Nat.ltb_ge _ _)) by done. by rewrite Eh. }
      destruct (command_eq_str (mh_command header) payload_command) eqn:Ec; cbn [negb].
      2:{ exists a1. split; [done|]. unfold parse_frame.
          rewrite (proj2 (Nat.ltb_ge _ _)) by done. by rewrite Eh, Ec. }
      set (st := ReadPayload version (Z.to_nat (mh_len header)) (mh_checksum header)).
      assert (reads_behind M magic version st (take 24 (incoming a))) as Hst.
      { split; [done|]. split; [rewrite length_take; lia|]. by exists header. }
      destruct (read_payload_parses _ _ _ _ a1 _ Hst) as (a' & [Ho' Hw'] & Hp).
      rewrite Hi in Hp. rewrite take_drop in Hp. exists a'. split; [split; congruence|].
      destruct (parse_frame M magic version (incoming a)) as [[res rest]|].
      * destruct Hp as [Ep Hr]. fold st in Ep. rewrite poll_loop_S. by rewrite Ep.
      * destruct Hp as [Ep Hr]. fold st in Ep. rewrite poll_loop_S, Ep. exists st, (take 24 (incoming a)).
        split_and!; [done|done|]. by rewrite Hr, take_drop.
  - pose proof Hb as (<- & _). destruct (read_payload_parses _ _ _ _ a _ Hb) as (a' & Hs & Hp).
    exists a'. split; [done|]. rewrite poll_loop_S.
    destruct (parse_frame M magic v (behind ++ incoming a)) as [[res rest]|].
    + by destruct Hp as [-> Hr].
    + destruct Hp as [-> Hr]. exists (ReadPayload v len sum), behind. by rewrite Hr.
Qed.

(** What is read does not depend on what follows. *)
Lemma parse_frame_app {M} `{Payload M} magic version bs more res rest :
  parse_frame M magic version bs = Some (res, rest) →
  parse_frame M magic version (bs ++ more) = Some (res, rest ++ more).
Proof.
  unfold parse_frame. destruct (Nat.ltb_spec (length bs) 24) as [|H24]; [done|].
  rewrite length_app, (proj2 (Nat.ltb_ge _ _)) by lia.
  rewrite take_app_le, drop_app_le by done.
  destruct (header_deserialize (take 24 bs) magic) as [h|e]; [|by intros [= <- <-]].
  destruct (negb _); [by intros [= <- <-]|].
  destruct (Nat.ltb_spec (length (drop 24 bs)) (Z.to_nat (mh_len h))) as [|Hlen]; [done|].
  intros E. apply (inj Some) in E. apply (f_equal fst) in E as E1. apply (f_equal snd) in E as E2.
  cbn [fst snd] in E1, E2. rewrite <-E1, <-E2.
  rewrite length_app, (proj2 (Nat.ltb_ge _ _)) by lia.
  by rewrite take_app_le, drop_app_le by done.
Qed.

(** The future is polled when bytes arrive, until it is done. *)
Fixpoint poll_chunks (M : Type) `{Payload M} (magic : Z) (state : ReadMessageState)
    (chunks : list (list byte)) (a : A) : Flow ReadMessageState (result MessageError M) * A :=
  match chunks with
  | [] => (Pending state, a)
  | chunk :: chunks =>
      match poll_read_message M magic state (arrive chunk a) with
      | (Pending state, a) => poll_chunks M magic state chunks a
      | (r, a) => (r, foldl (λ a chunk, arrive chunk a) a chunks)
      end
  end.

Lemma incoming_arrivals chunks a :
  incoming (foldl (λ a chunk, arrive chunk a) a chunks) = incoming a ++ concat chunks.
Proof.
  revert a. induction chunks as [|c cs IH]; intros a; simpl; [by rewrite app_nil_r|].
  rewrite IH. destruct (arrive_spec c a) as (-> & _). by rewrite <-app_assoc.
Qed.

Lemma poll_chunks_parses {M} `{Payload M} magic version chunks state a behind res rest :
  reads_behind M magic version state behind →
  parse_frame M magic version (behind ++ incoming a) = None →
  parse_frame M magic version (behind ++ incoming a ++ concat chunks) = Some (res, rest) →
  ∃ a', poll_chunks M magic state chunks a = (Done res, a') ∧ incoming a' = rest.
Proof.
  revert state a behind. induction chunks as [|c cs IH]; intros state a behind Hb Hn Hp; simpl in *.
  { rewrite app_nil_r, Hn in Hp. done. }
  destruct (arrive_spec c a) as (Hi & _).
  assert (incoming a ++ c ++ concat cs = incoming (arrive c a) ++ concat cs) as Ec
    by by rewrite Hi, <-app_assoc.
  rewrite Ec in Hp.
  destruct (poll_read_message_parses magic version state (arrive c a) behind Hb) as (a' & _ & Hr).
  destruct (parse_frame M magic version (behind ++ incoming (arrive c a))) as [[res1 rest1]|] eqn:E1.
  - destruct Hr as [-> Hi']. apply (parse_frame_app _ _ _ (concat cs)) in E1.
    rewrite <-app_assoc, Hp in E1. injection E1 as -> ->.
    eexists; split; [done|]. by rewrite incoming_arrivals, Hi'.
  - destruct Hr as (st' & b' & -> & Hb' & Eq). eapply IH; [exact Hb'|by rewrite Eq|].
    by rewrite app_assoc, Eq, <-app_assoc.
Qed.
End io.

(** ** Commands *)

Lemma leading_zeros_replicate n bs :
  leading_zeros (replicate n (byte_of 0) ++ bs) = (n + leading_zeros bs)%nat.
Proof. induction n as [|n IH]; [done|]. simpl. by rewrite IH. Qed.

Definition no_trailing_zero (s : list byte) : Prop :=
  match list.last s with Some b => byte_val b ≠ 0 | None => True end.

Lemma leading_zeros_reverse s : no_trailing_zero s → leading_zeros (reverse s) = O.
Proof.
  unfold no_trailing_zero. destruct s as [|b l _] using rev_ind; [done|].
  rewrite last_snoc, reverse_snoc. simpl. intros Hb. by rewrite (proj2 (Z.eqb_neq _ _)).
Qed.

(** The name of a command determines it. *)
Lemma command_eq_from_str s s' c : command_from_str s = Ok c → no_trailing_zero s →
  command_eq_str c s' = bool_decide (s = s').
Proof.
  intros Hc Hz. apply command_from_str_Ok in Hc as [Hb Hl]. unfold command_eq_str, command_len.
  rewrite Hb, reverse_app, reverse_replicate, leading_zeros_replicate, leading_zeros_reverse by done.
  rewrite length_app, length_replicate.
  replace (length s + (12 - length s) - (12 - length s + 0))%nat with (length s) by lia.
  destruct (Nat.eqb_spec (length s) (length s')) as [El|El]; cbn [andb].
  - by rewrite <-El, take_app_length.
  - rewrite bool_decide_false; [done|]. by intros ->.
Qed.

Lemma payload_command_spec {M} {P : Payload M} {wf} {C : PayloadCodec M wf} :
  ∃ c, command_from_str payload_command = Ok c ∧ no_trailing_zero payload_command.
Proof.
  pose proof payload_command_ok as Ho. unfold no_trailing_zero.
  apply andb_prop in Ho as [Ho Hz]. apply andb_prop in Ho as [Ho _].
  destruct (command_from_str payload_command) as [c|]; [|done]. exists c. split; [done|].
  destruct (list.last payload_command); [|done]. by apply negb_true_iff, Z.eqb_neq in Hz.
Qed.

(** ** Frames *)

Section frames.
Context {H : Sha256Ops} {HL : Sha256Laws H}.

(** The bytes of a message. *)
Definition frame {M} {P : Payload M} {wf} {C : PayloadCodec M wf} (c : Command) (magic version : Z)
    (t : M) : list byte :=
  serialize ser_message_header (header_for_data magic c (payload_enc version t))
  ++ payload_enc version t.

Context {M : Type} {P : Payload M} {wf : Z → M → Prop} {C : PayloadCodec M wf}.

(** [Message::new] builds the frame, unless the message is newer than the
    version spoken. *)
Lemma message_new_frame magic version t c : command_from_str payload_command = Ok c →
  message_new magic version t =
    Some (if version <? payload_version then Err InvalidVersion else Ok (frame c magic version t)).
Proof.
  intros Hc. unfold message_new, serialize_payload. destruct (version <? payload_version); [done|].
  rewrite payload_ser_enc. cbn [mbind result_bind]. rewrite Hc. unfold to_raw_message, frame.
  rewrite serialize_message_header. unfold append. cbn [ser ser_message_header].
  by rewrite ser_message_header_eq.
Qed.

Lemma deserialize_payload_enc version t : payload_version ≤ version → wf version t →
  deserialize_payload (payload_enc version t) version = Ok t.
Proof.
  intros Hv Hw. unfold deserialize_payload, read. rewrite (proj2 (Z.ltb_ge _ _)) by done.
  destruct (payload_enc_decodes version t Hw (list byte) _ _) as [Hd _].
  destruct (Hd (from_read (payload_enc version t)) [] I) as (r & -> & Er & Hr & _).
  { by rewrite rcontent_from_read, app_nil_r. }
  rewrite (is_finished_spec r Hr). by rewrite bool_decide_true.
Qed.

Lemma frame_split c magic version t rest :
  take 24 (frame c magic version t ++ rest) =
    serialize ser_message_header (header_for_data magic c (payload_enc version t)) ∧
  drop 24 (frame c magic version t ++ rest) = payload_enc version t ++ rest ∧
  (24 ≤ length (frame c magic version t ++ rest))%nat.
Proof.
  unfold frame. rewrite <-app_assoc.
  pose proof (length_message_header (header_for_data magic c (payload_enc version t))) as Hl.
  rewrite take_app_length', drop_app_length' by done.
  split_and!; [done..|]. rewrite length_app. lia.
Qed.

(** A frame is read by a reader of [M'] under [magic'] as what it is. *)
Lemma parse_frame_frame (M' : Type) `{!Payload M'} c magic magic' version t rest :
  command_from_str (@payload_command M P) = Ok c → u32 magic →
  Z.of_nat (length (payload_enc version t)) < 2 ^ 32 →
  parse_frame M' magic' version (frame c magic version t ++ rest) =
    if decide (magic' = magic) then
      if bool_decide (@payload_command M P = @payload_command M' _) then
        Some (deserialize_payload (payload_enc version t) version, rest)
      else Some (Err InvalidCommand, payload_enc version t ++ rest)
    else Some (Err InvalidMagic, payload_enc version t ++ rest).
Proof.
  intros Hc Hm Hlen. destruct (frame_split c magic version t rest) as (Ht & Hd & Hl).
  unfold parse_frame. rewrite (proj2 (Nat.ltb_ge _ _)) by done. rewrite Ht, Hd.
  assert (u32 (Z.of_nat (length (payload_enc version t)))) as Hu by (split; lia).
  rewrite header_deserialize_spec.
  2:{ split; [done|]. cbn [mh_len header_for_data]. by rewrite wrap_small. }
  cbn [mh_magic header_for_data]. case_decide as Em; [|done].
  destruct (payload_command_spec (M:=M)) as (_ & _ & Hz). subst magic'.
  cbn [mh_command mh_len mh_checksum header_for_data].
  rewrite (command_eq_from_str _ _ _ Hc Hz).
  case_bool_decide as Ec; cbn [negb]; [|done].
  rewrite wrap_small, Nat2Z.id, length_app, (proj2 (Nat.ltb_ge _ _)) by (done || lia).
  rewrite take_app_length, drop_app_length. by rewrite bool_decide_false by tauto.
Qed.
End frames.

(** A message that a node sends is the message its peer reads, however the
    network cuts the bytes into pieces: [Message::new] succeeds for any message
    that may be sent under the version spoken (and is refused as
    [InvalidVersion] only when the message is newer than that version); a
    [ReadMessage] future for the same network and message type, polled as the
    pieces arrive, is done with that very message, leaving the bytes after it
    unread; under another magic number it ends in [InvalidMagic], and a reader
    of another message type ends in [InvalidCommand]. *)
Theorem message_roundtrip {H : Sha256Ops} {HL : Sha256Laws H} {A} {IO : AsyncIo A}
    {IL : AsyncIoLaws A} {M} {P : Payload M} {wf} {C : PayloadCodec M wf}
    magic version (t : M) (chunks : list (list byte)) rest (a : A) :
  u32 magic → wf version t → Z.of_nat (length (payload_enc version t)) < 2 ^ 32 →
  incoming a = [] →
  match message_new magic version t with
  | None => False
  | Some (Err e) => e = InvalidVersion ∧ version < payload_version
  | Some (Ok bytes) =>
      concat chunks = bytes ++ rest →
      (∃ a', poll_chunks M magic (read_message version) chunks a = (Done (Ok t), a') ∧
             incoming a' = rest) ∧
      (∀ magic', magic' ≠ magic →
        ∃ a', poll_chunks M magic' (read_message version) chunks a = (Done (Err InvalidMagic), a')) ∧
      (∀ M' (P' : Payload M'), @payload_command M P ≠ @payload_command M' P' →
        ∃ a', poll_chunks M' magic (read_message version) chunks a = (Done (Err InvalidCommand), a'))
  end.
Proof.
  intros Hm Hw Hlen Ha. destruct payload_command_spec as (c & Hc & _).
  rewrite (message_new_frame _ _ _ c Hc). destruct (Z.ltb_spec version payload_version) as [|Hv]; [done|].
  intros Hch.
  assert (∀ M' (P' : Payload M') magic' res rest',
    parse_frame M' magic' version (frame c magic version t ++ rest) = Some (res, rest') →
    ∃ a', poll_chunks M' magic' (read_message version) chunks a = (Done res, a') ∧ incoming a' = rest')
    as Hpoll.
  { intros M' P' magic' res rest' Hp. eapply (poll_chunks_parses magic' version _ _ _ []); [done|..].
    - by rewrite Ha.
    - by rewrite Ha, Hch. }
  pose proof (λ M' (P' : Payload M') m', parse_frame_frame M' c magic m' version t rest Hc Hm Hlen) as Hp.
  split_and!.
  - apply Hpoll. rewrite Hp, decide_True, bool_decide_true by done.
    by rewrite deserialize_payload_enc.
  - intros magic' Hne.
    destruct (Hpoll M P magic' _ _ (eq_trans (Hp _ _ _) (decide_False _ _ Hne))) as (a' & E & _). by exists a'.
  - intros M' P' Hne.
    assert (parse_frame M' magic version (frame c magic version t ++ rest) =
      Some (Err InvalidCommand, payload_enc version t ++ rest)) as E.
    { by rewrite Hp, decide_True, bool_decide_false. }
    destruct (Hpoll M' P' magic _ _ E) as (a' & E' & _). by exists a'.
Qed.

Import Reference.

Definition example_frame : list byte :=
  match message_new MAGIC_TESTNET 70012 (example_version 70012 5) with
  | Some (Ok bytes) => bytes
  | _ => []
  end.

Lemma message_roundtrip_witness :
  message_new MAGIC_TESTNET 70012 (example_version 70012 5) = Some (Ok example_frame) ∧
  ∃ a', poll_chunks Version MAGIC_TESTNET (read_message 70012)
    [take 10 example_frame; take 40 (drop 10 example_frame); drop 50 example_frame ++ [byte_of 7]]
    (mkPipe [] [] true) = (Done (Ok (example_version 70012 5)), a') ∧ incoming a' = [byte_of 7].
Proof.
  assert (message_new MAGIC_TESTNET 70012 (example_version 70012 5) = Some (Ok example_frame)) as E
    by (vm_compute; reflexivity).
  split; [exact E|].
  pose proof (message_roundtrip (A:=Pipe) MAGIC_TESTNET 70012 (example_version 70012 5)
    [take 10 example_frame; take 40 (drop 10 example_frame); drop 50 example_frame ++ [byte_of 7]]
    [byte_of 7] (mkPipe [] [] true)) as T.
  rewrite E in T. apply T.
  - unfold fits. vm_compute. split; [discriminate|reflexivity].
  - apply example_version_wf; [lia|unfold fits; lia].
  - vm_compute. reflexivity.
  - reflexivity.
  - vm_compute. reflexivity.
Defined.
