(* ===== verification/Handshake.v ===== *)
(** * The handshake ([p2p/src/io/handshake.rs])

    The node that connects runs [Handshake]: send its version, receive the
    peer's, send a verack, receive one.  The node that is connected to runs
    [AcceptHandshake]: receive, send its version, send a verack.  Both are
    futures that are polled as their connection makes progress.  The two are
    then run against each other over a network that delivers bytes when and
    in the pieces it likes. *)

From S2P Require Import Prelude External Primitives Serialization Compact Crypto Chain Network Utf8.
From S2P Require Import Message MessageTypes MessageIo.
#[local] Open Scope Z_scope.

(** src: p2p/src/io/handshake.rs 43-45 negotiate_version *)
Definition negotiate_version (local other : Z) : Z := Z.min local other.

(** src: p2p/src/io/handshake.rs 47-51 HandshakeResult *)
Record HandshakeResult := mkHandshakeResult {
  hr_version : Version;
  hr_negotiated_version : Z;
}.

(** src: p2p/src/io/handshake.rs 62-73 HandshakeState *)
Inductive HandshakeState :=
| SendVersion (message : list byte)
| ReceiveVersion (future : ReadMessageState)
| SendVerack (version : option Version) (message : list byte)
| ReceiveVerack (version : option Version) (future : ReadMessageState).

(** src: p2p/src/io/handshake.rs 75-88 AcceptHandshakeState *)
Inductive AcceptHandshakeState :=
| AcceptReceiveVersion (local_version : option Version) (future : ReadMessageState)
| AcceptSendVersion (version : option Version) (message : list byte)
| AcceptSendVerack (version : option Version) (message : list byte).

(** The fields of a handshake that do not change. *)
(** src: p2p/src/io/handshake.rs 90-96 Handshake *)
Record HandshakeConfig := mkHandshakeConfig {
  hs_magic : Z;
  hs_version : Z;
  hs_nonce : option Z;
  hs_min_version : Z;
}.

(** [expect]: [None] is a panic. *)
Definition expect_message (m : option (result MessageError (list byte))) : option (list byte) :=
  match m with Some (Ok bytes) => Some bytes | _ => None end.

Section handshake.
Context {H : Sha256Ops}.

(** src: p2p/src/io/handshake.rs 53-56 version_message *)
Definition version_message (magic : Z) (version : Version) : option (list byte) :=
  expect_message (message_new magic (version_version version) version).

(** src: p2p/src/io/handshake.rs 58-60 verack_message *)
Definition verack_message (magic : Z) : option (list byte) :=
  expect_message (message_new magic 0 mkVerack).

(** src: p2p/src/io/handshake.rs 9-20 handshake *)
Definition handshake (magic : Z) (version : Version) (min_version : Z) :
    option (HandshakeConfig * HandshakeState) :=
  message ← version_message magic version;
  Some (mkHandshakeConfig magic (version_version version) (version_nonce version) min_version,
        SendVersion message).

(** src: p2p/src/io/handshake.rs 22-41 accept_handshake *)
Definition accept_handshake (magic : Z) (version : Version) (min_version : Z) :
    HandshakeConfig * AcceptHandshakeState :=
  (mkHandshakeConfig magic (version_version version) (version_nonce version) min_version,
   AcceptReceiveVersion (Some version) (read_message 0)).

(** The two checks on the version of the peer, the same in both futures. *)
(** src: p2p/src/io/handshake.rs 127-134 poll *)
Definition version_refused (cfg : HandshakeConfig) (version : Version) : bool :=
  (version_version version <? hs_min_version cfg)
  || match hs_nonce cfg, version_nonce version with
     | Some self_nonce, Some nonce => self_nonce =? nonce
     | _, _ => false
     end.

Context {A : Type} {I : AsyncIo A}.

(** What a state does with a message that [expect] may refuse. *)
Definition or_panic {S T X} (o : option X) (k : X → Flow S T) : Flow S T :=
  match o with Some x => k x | None => Panic end.

(** src: p2p/src/io/handshake.rs 113-171 poll *)
Definition handshake_step (cfg : HandshakeConfig) (state : HandshakeState) (a : A) :
    Flow HandshakeState (result MessageError HandshakeResult) * A :=
  match state with
  | SendVersion message =>
      try_ready (poll_write_all message a) state (λ _ a, (Next (ReceiveVersion (read_message 0)), a))
  | ReceiveVersion future =>
      try_future (poll_read_message Version (hs_magic cfg) future a) ReceiveVersion (λ version a,
        match version with
        | Err err => (Done (Err err), a)
        | Ok version =>
            if version_refused cfg version then (Done (Err InvalidVersion), a)
            else (or_panic (verack_message (hs_magic cfg)) (λ message,
                    Next (SendVerack (Some version) message)), a)
        end)
  | SendVerack version message =>
      try_ready (poll_write_all message a) state (λ _ a,
        (or_panic version (λ version, Next (ReceiveVerack (Some version) (read_message 0))), a))
  | ReceiveVerack version future =>
      try_future (poll_read_message Verack (hs_magic cfg) future a) (ReceiveVerack version) (λ _verack a,
        (or_panic version (λ version,
           Done (Ok (mkHandshakeResult version
             (negotiate_version (hs_version cfg) (version_version version))))), a))
  end.

(** Four states, in order. *)
Definition poll_handshake (cfg : HandshakeConfig) (state : HandshakeState) (a : A) :=
  poll_loop (handshake_step cfg) 4 state a.

(** src: p2p/src/io/handshake.rs 181-237 poll *)
Definition accept_handshake_step (cfg : HandshakeConfig) (state : AcceptHandshakeState) (a : A) :
    Flow AcceptHandshakeState (result MessageError HandshakeResult) * A :=
  match state with
  | AcceptReceiveVersion local_version future =>
      try_future (poll_read_message Version (hs_magic cfg) future a)
        (AcceptReceiveVersion local_version) (λ version a,
        match version with
        | Err err => (Done (Err err), a)
        | Ok version =>
            if version_refused cfg version then (Done (Err InvalidVersion), a)
            else (or_panic local_version (λ local_version,
                    or_panic (version_message (hs_magic cfg) local_version) (λ message,
                      Next (AcceptSendVersion (Some version) message))), a)
        end)
  | AcceptSendVersion version message =>
      try_ready (poll_write_all message a) state (λ _ a,
        (or_panic (verack_message (hs_magic cfg)) (λ message,
           Next (AcceptSendVerack version message)), a))
  | AcceptSendVerack version message =>
      try_ready (poll_write_all message a) state (λ _ a,
        (or_panic version (λ version,
           Done (Ok (mkHandshakeResult version
             (negotiate_version (hs_version cfg) (version_version version))))), a))
  end.

(** Three states, in order. *)
Definition poll_accept_handshake (cfg : HandshakeConfig) (state : AcceptHandshakeState) (a : A) :=
  poll_loop (accept_handshake_step cfg) 3 state a.
End handshake.

(** ** Two nodes and a network *)

(** A node's future: running, finished with a result, or broken off by an
    error of the connection or a panic. *)
Inductive Node_state (S : Type) :=
| Running (s : S)
| Finished (r : result MessageError HandshakeResult)
| Broken.
Arguments Running {S}.
Arguments Finished {S}.
Arguments Broken {S}.

Definition after_poll {S} (f : Flow S (result MessageError HandshakeResult)) : Node_state S :=
  match f with
  | Next s | Pending s => Running s
  | Done r => Finished r
  | IoError | Panic => Broken
  end.

(** The connecting node with its connection, the accepting node with its
    connection, and how many bytes of each direction were delivered. *)
Record System (A : Type) := mkSystem {
  sys_out : Node_state HandshakeState;
  sys_out_conn : A;
  sys_in : Node_state AcceptHandshakeState;
  sys_in_conn : A;
  sys_to_in : nat;
  sys_to_out : nat;
}.
Arguments mkSystem {A}.
Arguments sys_out {A}.
Arguments sys_out_conn {A}.
Arguments sys_in {A}.
Arguments sys_in_conn {A}.
Arguments sys_to_in {A}.
Arguments sys_to_out {A}.

(** What may happen next: a node is polled, the next [n] bytes (or all) of those
    on the way in one direction arrive, a socket has room again. *)
Inductive Action :=
| PollOut
| PollIn
| DeliverIn (n : option nat)
| DeliverOut (n : option nat)
| DrainOut
| DrainIn.

Definition take_some {X} (n : option nat) (l : list X) : list X :=
  match n with Some n => take n l | None => l end.

Section system.
Context {H : Sha256Ops} {A : Type} {I : AsyncIo A}.

Definition act (cfg_out cfg_in : HandshakeConfig) (s : System A) (x : Action) : System A :=
  match x with
  | PollOut =>
      match sys_out s with
      | Running st =>
          let '(f, a) := poll_handshake cfg_out st (sys_out_conn s) in
          mkSystem (after_poll f) a (sys_in s) (sys_in_conn s) (sys_to_in s) (sys_to_out s)
      | _ => s
      end
  | PollIn =>
      match sys_in s with
      | Running st =>
          let '(f, b) := poll_accept_handshake cfg_in st (sys_in_conn s) in
          mkSystem (sys_out s) (sys_out_conn s) (after_poll f) b (sys_to_in s) (sys_to_out s)
      | _ => s
      end
  | DeliverIn n =>
      let bytes := take_some n (drop (sys_to_in s) (outgoing (sys_out_conn s))) in
      mkSystem (sys_out s) (sys_out_conn s) (sys_in s) (arrive bytes (sys_in_conn s))
        (sys_to_in s + length bytes) (sys_to_out s)
  | DeliverOut n =>
      let bytes := take_some n (drop (sys_to_out s) (outgoing (sys_in_conn s))) in
      mkSystem (sys_out s) (arrive bytes (sys_out_conn s)) (sys_in s) (sys_in_conn s)
        (sys_to_in s) (sys_to_out s + length bytes)
  | DrainOut =>
      mkSystem (sys_out s) (drained (sys_out_conn s)) (sys_in s) (sys_in_conn s)
        (sys_to_in s) (sys_to_out s)
  | DrainIn =>
      mkSystem (sys_out s) (sys_out_conn s) (sys_in s) (drained (sys_in_conn s))
        (sys_to_in s) (sys_to_out s)
  end.

Definition run (cfg_out cfg_in : HandshakeConfig) (s : System A) (l : list Action) : System A :=
  foldl (act cfg_out cfg_in) s l.
End system.

(** ** Loops *)

(** A loop whose rounds keep [ok] and come closer to the end, or wait. *)
Lemma poll_loop_ok {S T A} (step : S → A → Flow S T * A) (ok : S → A → Prop) (fin : T → A → Prop)
    (rank : S → nat) (blocked : S → A → Prop) :
  (∀ s a, ok s a →
    match step s a with
    | (Next s', a') => ok s' a' ∧ (rank s' < rank s)%nat
    | (Done t, a') => fin t a'
    | (Pending s', a') => ok s' a' ∧ rank s' = rank s ∧ blocked s a
    | _ => False
    end) →
  (∀ s, 0 < rank s)%nat →
  ∀ fuel s a, (rank s ≤ fuel)%nat → ok s a →
    match poll_loop step fuel s a with
    | (Done t, a') => fin t a'
    | (Pending s', a') => ok s' a' ∧ (rank s' ≤ rank s)%nat ∧ (rank s' = rank s → blocked s a)
    | _ => False
    end.
Proof.
  intros Hstep Hpos. induction fuel as [|fuel IH]; intros s a Hf Hok.
  { pose proof (Hpos s). lia. }
  rewrite poll_loop_S. pose proof (Hstep s a Hok) as Hs.
  destruct (step s a) as [[s'|t|s'| |] a']; [|done| |done..].
  - destruct Hs as [Hok' Hr]. pose proof (IH s' a' ltac:(lia) Hok') as Hl.
    destruct (poll_loop step fuel s' a') as [[?|?|s''| |] a'']; try done.
    destruct Hl as (? & ? & _). split_and!; [done|lia|lia].
  - destruct Hs as (? & -> & ?). done.
Qed.

(** ** Frames that read back *)

Section frames.
Context {H : Sha256Ops} {M : Type} {P : Payload M}.

(** [bytes] is the message [t] for a reader of [M]. *)
Definition reads_as (magic : Z) (bytes : list byte) (t : M) : Prop :=
  ∀ rest, parse_frame M magic 0 (bytes ++ rest) = Some (Ok t, rest).

(** Nothing is read from a part of a message. *)
Lemma parse_part magic F t p : reads_as magic F t → p `prefix_of` F → p ≠ F →
  parse_frame M magic 0 p = None.
Proof.
  intros HF [q ->] Hne. destruct (parse_frame M magic 0 p) as [[res rest]|] eqn:E; [|done].
  apply (parse_frame_app _ _ _ q) in E. specialize (HF []). rewrite app_nil_r, E in HF.
  injection HF as _ Hr. apply app_eq_nil in Hr as [_ ->]. by rewrite app_nil_r in Hne.
Qed.

(** The front of a conversation that starts with a message: not all of it yet,
    or the message. *)
Lemma parse_prefix magic F t more p : reads_as magic F t → p `prefix_of` F ++ more →
  (parse_frame M magic 0 p = None ∧ (length p < length F)%nat) ∨
  (∃ p', p = F ++ p' ∧ p' `prefix_of` more ∧ parse_frame M magic 0 p = Some (Ok t, p')).
Proof.
  intros HF Hp. destruct (decide (length p < length F)%nat) as [Hl|Hl].
  - left. split; [|done]. eapply parse_part; [exact HF| |intros ->; lia].
    apply (prefix_weak_total F p) in Hp as [Hp|Hp]; [| |done..|by exists more].
    + apply prefix_length in Hp. lia.
    + done.
  - right. assert (F `prefix_of` p) as [p' ->].
    { apply (prefix_weak_total F p) in Hp as [Hp|Hp]; [done| |by exists more].
      pose proof (prefix_length_eq _ _ Hp ltac:(lia)) as ->. done. }
    exists p'. split_and!; [done|by apply prefix_app_inv in Hp|apply HF].
Qed.
End frames.

(** ** The invariant of two honest nodes *)

Section honest.
Context {H : Sha256Ops} {A : Type} {IO : AsyncIo A} {IL : AsyncIoLaws A}.
Variables (magic : Z) (VA VB : Version) (min_a min_b : Z) (FA FB K : list byte).

Definition config_of (v : Version) (min : Z) : HandshakeConfig :=
  mkHandshakeConfig magic (version_version v) (version_nonce v) min.

Hypothesis HFA : reads_as magic FA VA.
Hypothesis HFB : reads_as magic FB VB.
Hypothesis HK : reads_as magic K mkVerack.
Hypothesis HmB : version_message magic VB = Some FB.
Hypothesis HmK : verack_message magic = Some K.
Hypothesis accept_a : version_refused (config_of VA min_a) VB = false.
Hypothesis accept_b : version_refused (config_of VB min_b) VA = false.

Definition negotiated (v : Version) : HandshakeResult :=
  mkHandshakeResult v (Z.min (version_version VA) (version_version VB)).

(** The connecting node, its connection, and all the bytes it was sent. *)
Definition out_ok (recv : list byte) (st : HandshakeState) (a : A) : Prop :=
  match st with
  | SendVersion m => m = FA ∧ outgoing a = [] ∧ recv = incoming a
  | ReceiveVersion f => outgoing a = FA ∧
      ∃ behind, reads_behind Version magic 0 f behind ∧ recv = behind ++ incoming a
  | SendVerack v m => v = Some VB ∧ m = K ∧ outgoing a = FA ∧ recv = FB ++ incoming a
  | ReceiveVerack v f => v = Some VB ∧ outgoing a = FA ++ K ∧
      ∃ behind, reads_behind Verack magic 0 f behind ∧ recv = FB ++ behind ++ incoming a
  end.

Definition out_done (r : result MessageError HandshakeResult) (a : A) : Prop :=
  r = Ok (negotiated VB) ∧ outgoing a = FA ++ K.

Definition out_rank (st : HandshakeState) : nat :=
  match st with
  | SendVersion _ => 4 | ReceiveVersion _ => 3 | SendVerack _ _ => 2 | ReceiveVerack _ _ => 1
  end.

(** Why it waits. *)
Definition out_blocked (recv : list byte) (st : HandshakeState) (a : A) : Prop :=
  match st with
  | SendVersion _ | SendVerack _ _ => writable a = false
  | ReceiveVersion _ => (length recv < length FB)%nat
  | ReceiveVerack _ _ => (length recv < length (FB ++ K))%nat
  end.

(** The accepting node. *)
Definition in_ok (recv : list byte) (st : AcceptHandshakeState) (b : A) : Prop :=
  match st with
  | AcceptReceiveVersion l f => l = Some VB ∧ outgoing b = [] ∧
      ∃ behind, reads_behind Version magic 0 f behind ∧ recv = behind ++ incoming b
  | AcceptSendVersion v m => v = Some VA ∧ m = FB ∧ outgoing b = []
  | AcceptSendVerack v m => v = Some VA ∧ m = K ∧ outgoing b = FB
  end.

Definition in_done (r : result MessageError HandshakeResult) (b : A) : Prop :=
  r = Ok (negotiated VA) ∧ outgoing b = FB ++ K.

Definition in_rank (st : AcceptHandshakeState) : nat :=
  match st with
  | AcceptReceiveVersion _ _ => 3 | AcceptSendVersion _ _ => 2 | AcceptSendVerack _ _ => 1
  end.

Definition in_blocked (recv : list byte) (st : AcceptHandshakeState) (b : A) : Prop :=
  match st with
  | AcceptReceiveVersion _ _ => (length recv < length FA)%nat
  | AcceptSendVersion _ _ | AcceptSendVerack _ _ => writable b = false
  end.

(** A read future on the front of a conversation. *)
Lemma poll_conversation {M} {P : Payload M} (t : M) F more f behind (a : A) :
  reads_as magic F t → reads_behind M magic 0 f behind →
  behind ++ incoming a `prefix_of` F ++ more →
  ∃ a', outgoing a' = outgoing a ∧
    ((∃ f' behind', poll_read_message M magic f a = (Pending f', a') ∧
        reads_behind M magic 0 f' behind' ∧ behind' ++ incoming a' = behind ++ incoming a ∧
        (length (behind ++ incoming a) < length F)%nat) ∨
     (poll_read_message M magic f a = (Done (Ok t), a') ∧ behind ++ incoming a = F ++ incoming a')).
Proof.
  intros HF Hb Hp. destruct (poll_read_message_parses magic 0 f a behind Hb) as (a' & [Ho _] & Hr).
  exists a'. split; [done|].
  destruct (parse_prefix magic F t more _ HF Hp) as [[E Hl]|(p' & Ep & Hp' & E)]; rewrite E in Hr.
  - left. destruct Hr as (f' & b' & ? & ? & ?). by exists f', b'.
  - right. destruct Hr as [Er Hi]. rewrite Er, Hi. done.
Qed.

Lemma out_step recv a0 st a : recv `prefix_of` FB ++ K →
  out_ok recv st a ∧ outgoing a0 `prefix_of` outgoing a →
  match handshake_step (config_of VA min_a) st a with
  | (Next st', a') =>
      (out_ok recv st' a' ∧ outgoing a0 `prefix_of` outgoing a') ∧ (out_rank st' < out_rank st)%nat
  | (Done r, a') => out_done r a' ∧ outgoing a0 `prefix_of` outgoing a'
  | (Pending st', a') =>
      (out_ok recv st' a' ∧ outgoing a0 `prefix_of` outgoing a') ∧ out_rank st' = out_rank st ∧
      out_blocked recv st a
  | _ => False
  end.
Proof.
  intros Hrecv [Hok Ha0]. destruct st as [m|f|v m|v f]; cbn [out_ok handshake_step] in *.
  - destruct Hok as (-> & Ho & ->). destruct (writable a) eqn:Hw.
    + destruct (write_all_ready FA a Hw) as (a' & -> & Hi & Ho'). cbn [try_ready out_ok out_rank].
      rewrite Ho in Ho'. rewrite Ho', Hi. split; [|lia]. split; [split; [done|]|].
      * by exists [].
      * rewrite Ho in Ha0. apply prefix_nil_inv in Ha0 as ->. apply prefix_nil.
    + destruct (write_all_pending FA a Hw) as (a' & -> & Hi & Ho' & _).
      cbn [try_ready out_ok out_rank out_blocked]. by rewrite Ho', Hi.
  - destruct Hok as (Ho & behind & Hb & ->).
    destruct (poll_conversation VB FB K f behind a HFB Hb Hrecv)
      as (a' & Ho' & [(f' & b' & Ep & Hb' & Eq & Hl)|[Ep Eq]]); cbn [hs_magic config_of];
      rewrite Ep; cbn [try_future].
    + cbn [out_ok out_rank out_blocked]. rewrite Ho'. split_and!; [done| |done..]. by exists b'.
    + rewrite accept_a. rewrite HmK. cbn [or_panic out_ok out_rank]. rewrite Ho'.
      split_and!; [done..|lia].
  - destruct Hok as (-> & -> & Ho & ->). destruct (writable a) eqn:Hw.
    + destruct (write_all_ready K a Hw) as (a' & -> & Hi & Ho'). cbn [try_ready or_panic out_ok out_rank].
      rewrite Ho', Hi, Ho. split_and!; [done..| | |lia]; [by exists []|].
      rewrite Ho in Ha0. by apply prefix_app_r.
    + destruct (write_all_pending K a Hw) as (a' & -> & Hi & Ho' & _).
      cbn [try_ready out_ok out_rank out_blocked]. by rewrite Ho', Hi.
  - destruct Hok as (-> & Ho & behind & Hb & ->). apply prefix_app_inv in Hrecv.
    rewrite <-(app_nil_r K) in Hrecv.
    destruct (poll_conversation mkVerack K [] f behind a HK Hb Hrecv)
      as (a' & Ho' & [(f' & b' & Ep & Hb' & Eq & Hl)|[Ep Eq]]); cbn [hs_magic config_of];
      rewrite Ep; cbn [try_future].
    + cbn [out_ok out_rank out_blocked]. rewrite Ho'. split_and!; [done|done| |done..|].
      * exists b'. by rewrite Eq.
      * rewrite !length_app in *. lia.
    + cbn [or_panic]. unfold out_done. rewrite Ho'. done.
Qed.

Lemma in_step recv b0 st b : recv `prefix_of` FA ++ K →
  in_ok recv st b ∧ outgoing b0 `prefix_of` outgoing b →
  match accept_handshake_step (config_of VB min_b) st b with
  | (Next st', b') =>
      (in_ok recv st' b' ∧ outgoing b0 `prefix_of` outgoing b') ∧ (in_rank st' < in_rank st)%nat
  | (Done r, b') => in_done r b' ∧ outgoing b0 `prefix_of` outgoing b'
  | (Pending st', b') =>
      (in_ok recv st' b' ∧ outgoing b0 `prefix_of` outgoing b') ∧ in_rank st' = in_rank st ∧
      in_blocked recv st b
  | _ => False
  end.
Proof.
  intros Hrecv [Hok Hb0]. destruct st as [l f|v m|v m]; cbn [in_ok accept_handshake_step] in *.
  - destruct Hok as (-> & Ho & behind & Hb & ->).
    destruct (poll_conversation VA FA K f behind b HFA Hb Hrecv)
      as (b' & Ho' & [(f' & bh' & Ep & Hb' & Eq & Hl)|[Ep Eq]]); cbn [hs_magic config_of];
      rewrite Ep; cbn [try_future].
    + cbn [in_ok in_rank in_blocked]. rewrite Ho'. split_and!; [done|done| |done..]. by exists bh'.
    + rewrite accept_b. cbn [or_panic]. rewrite HmB. cbn [or_panic in_ok in_rank]. rewrite Ho'.
      split_and!; [done..|lia].
  - destruct Hok as (-> & -> & Ho). destruct (writable b) eqn:Hw.
    + destruct (write_all_ready FB b Hw) as (b' & -> & Hi & Ho'). cbn [try_ready hs_magic config_of].
      rewrite HmK. cbn [or_panic in_ok in_rank]. rewrite Ho', Ho. split_and!; [done..| |lia].
      rewrite Ho in Hb0. apply prefix_nil_inv in Hb0 as ->. apply prefix_nil.
    + destruct (write_all_pending FB b Hw) as (b' & -> & Hi & Ho' & _).
      cbn [try_ready in_ok in_rank in_blocked]. by rewrite Ho'.
  - destruct Hok as (-> & -> & Ho). destruct (writable b) eqn:Hw.
    + destruct (write_all_ready K b Hw) as (b' & -> & Hi & Ho'). cbn [try_ready or_panic].
      unfold in_done, negotiated, negotiate_version. rewrite Ho', Ho. cbn [hs_version config_of].
      rewrite Z.min_comm. split_and!; [done..|]. rewrite Ho in Hb0. by apply prefix_app_r.
    + destruct (write_all_pending K b Hw) as (b' & -> & Hi & Ho' & _).
      cbn [try_ready in_ok in_rank in_blocked]. by rewrite Ho'.
Qed.

(** Polls of the two futures. *)
Definition out_node (recv : list byte) (n : Node_state HandshakeState) (a : A) : Prop :=
  match n with Running st => out_ok recv st a | Finished r => out_done r a | Broken => False end.

Definition in_node (recv : list byte) (n : Node_state AcceptHandshakeState) (b : A) : Prop :=
  match n with Running st => in_ok recv st b | Finished r => in_done r b | Broken => False end.

Definition node_rank {S} (rank : S → nat) (n : Node_state S) : nat :=
  match n with Running st => rank st | _ => 0 end.

Lemma poll_out_ok recv st a : recv `prefix_of` FB ++ K → out_ok recv st a →
  let '(f, a') := poll_handshake (config_of VA min_a) st a in
  out_node recv (after_poll f) a' ∧ outgoing a `prefix_of` outgoing a' ∧
  (node_rank out_rank (after_poll f) ≤ out_rank st)%nat ∧
  (node_rank out_rank (after_poll f) = out_rank st → out_blocked recv st a).
Proof.
  intros Hp Hok. unfold poll_handshake.
  pose proof (poll_loop_ok (handshake_step (config_of VA min_a))
    (λ st a', out_ok recv st a' ∧ outgoing a `prefix_of` outgoing a')
    (λ r a', out_done r a' ∧ outgoing a `prefix_of` outgoing a') out_rank (out_blocked recv)
    (λ st' a', out_step recv a st' a' Hp)) as Hl.
  specialize (Hl ltac:(intros []; simpl; lia) 4%nat st a ltac:(destruct st; simpl; lia) (conj Hok (reflexivity _))).
  destruct (poll_loop _ 4 st a) as [[?|r|st'| |] a']; try done.
  - destruct Hl as [? ?]. cbn [after_poll out_node node_rank]. split_and!; [done..|lia|].
    destruct st; simpl; lia.
  - destruct Hl as ([? ?] & ? & ?). by split_and!.
Qed.

Lemma poll_in_ok recv st b : recv `prefix_of` FA ++ K → in_ok recv st b →
  let '(f, b') := poll_accept_handshake (config_of VB min_b) st b in
  in_node recv (after_poll f) b' ∧ outgoing b `prefix_of` outgoing b' ∧
  (node_rank in_rank (after_poll f) ≤ in_rank st)%nat ∧
  (node_rank in_rank (after_poll f) = in_rank st → in_blocked recv st b).
Proof.
  intros Hp Hok. unfold poll_accept_handshake.
  pose proof (poll_loop_ok (accept_handshake_step (config_of VB min_b))
    (λ st b', in_ok recv st b' ∧ outgoing b `prefix_of` outgoing b')
    (λ r b', in_done r b' ∧ outgoing b `prefix_of` outgoing b') in_rank (in_blocked recv)
    (λ st' b', in_step recv b st' b' Hp)) as Hl.
  specialize (Hl ltac:(intros []; simpl; lia) 3%nat st b ltac:(destruct st; simpl; lia) (conj Hok (reflexivity _))).
  destruct (poll_loop _ 3 st b) as [[?|r|st'| |] b']; try done.
  - destruct Hl as [? ?]. cbn [after_poll in_node node_rank]. split_and!; [done..|lia|].
    destruct st; simpl; lia.
  - destruct Hl as ([? ?] & ? & ?). by split_and!.
Qed.

(** What each node was sent. *)
Definition to_out (s : System A) : list byte := take (sys_to_out s) (outgoing (sys_in_conn s)).
Definition to_in (s : System A) : list byte := take (sys_to_in s) (outgoing (sys_out_conn s)).

Definition sys_ok (s : System A) : Prop :=
  out_node (to_out s) (sys_out s) (sys_out_conn s) ∧ in_node (to_in s) (sys_in s) (sys_in_conn s) ∧
  (sys_to_in s ≤ length (outgoing (sys_out_conn s)))%nat ∧
  (sys_to_out s ≤ length (outgoing (sys_in_conn s)))%nat.

Definition sys_rank (s : System A) : nat :=
  (node_rank out_rank (sys_out s) + node_rank in_rank (sys_in s))%nat.

Lemma out_node_prefix recv n a : out_node recv n a → outgoing a `prefix_of` FA ++ K.
Proof.
  destruct n as [[]|r|]; [..|done]; cbn [out_node out_ok]; unfold out_done; intros;
    destruct_and?; repeat match goal with E : outgoing a = _ |- _ => rewrite E; clear E end;
    [apply prefix_nil|by apply prefix_app_r..|done|done].
Qed.

Lemma in_node_prefix recv n b : in_node recv n b → outgoing b `prefix_of` FB ++ K.
Proof.
  destruct n as [[]|r|]; [..|done]; cbn [in_node in_ok]; unfold in_done; intros;
    destruct_and?; repeat match goal with E : outgoing b = _ |- _ => rewrite E; clear E end;
    [apply prefix_nil|apply prefix_nil|by apply prefix_app_r|done].
Qed.

(** Bytes that arrive are received; room in the socket changes nothing else. *)
Lemma out_node_arrive recv n a bs : out_node recv n a → out_node (recv ++ bs) n (arrive bs a).
Proof.
  destruct (arrive_spec bs a) as (Hi & Ho & _). destruct n as [[m|f|v m|v f]|r|]; cbn [out_node out_ok];
    unfold out_done; rewrite ?Ho, ?Hi; [| | | |done|done].
  - intros (-> & ? & ->). done.
  - intros (? & b & ? & ->). split; [done|]. exists b. by rewrite app_assoc.
  - intros (-> & -> & ? & ->). by rewrite app_assoc.
  - intros (-> & ? & b & ? & ->). split_and!; [done..|]. exists b. by rewrite !app_assoc.
Qed.

Lemma in_node_arrive recv n b bs : in_node recv n b → in_node (recv ++ bs) n (arrive bs b).
Proof.
  destruct (arrive_spec bs b) as (Hi & Ho & _). destruct n as [[l f|v m|v m]|r|]; cbn [in_node in_ok];
    unfold in_done; rewrite ?Ho, ?Hi; [|done..].
  intros (-> & ? & bh & ? & ->). split_and!; [done..|]. exists bh. by rewrite app_assoc.
Qed.

Lemma out_node_drained recv n a : out_node recv n a → out_node recv n (drained a).
Proof.
  destruct (drained_spec a) as (Hi & Ho & _). destruct n as [[]|r|]; cbn [out_node out_ok];
    unfold out_done; rewrite ?Ho, ?Hi; done.
Qed.

Lemma in_node_drained recv n b : in_node recv n b → in_node recv n (drained b).
Proof.
  destruct (drained_spec b) as (Hi & Ho & _). destruct n as [[]|r|]; cbn [in_node in_ok];
    unfold in_done; rewrite ?Ho, ?Hi; done.
Qed.

Lemma take_prefix {X} n (l l' : list X) : l `prefix_of` l' → (n ≤ length l)%nat → take n l' = take n l.
Proof. intros [k ->] Hn. by rewrite take_app_le. Qed.

Lemma take_deliver {X} n (l : list X) m : (n ≤ length l)%nat →
  take (n + length (take_some m (drop n l))) l = take n l ++ take_some m (drop n l) ∧
  (n + length (take_some m (drop n l)) ≤ length l)%nat.
Proof.
  intros Hn. assert (take_some m (drop n l) = take (length (take_some m (drop n l))) (drop n l)) as E.
  { destruct m as [m|]; cbn [take_some]; [|by rewrite firstn_all].
    rewrite length_take. destruct (decide (m ≤ length (drop n l))%nat).
    - by rewrite Nat.min_l.
    - rewrite Nat.min_r by lia. rewrite firstn_all. apply take_ge. lia. }
  split.
  - rewrite E at 2. by rewrite take_take_drop.
  - assert (length (take_some m (drop n l)) ≤ length (drop n l))%nat as Hl.
    { rewrite E, length_take. lia. }
    rewrite length_drop in Hl. lia.
Qed.

#[local] Abbreviation step := (act (config_of VA min_a) (config_of VB min_b)).

Lemma to_out_prefix s : sys_ok s → to_out s `prefix_of` FB ++ K.
Proof.
  intros (_ & Hi & _). etrans; [|by eapply in_node_prefix].
  exists (drop (sys_to_out s) (outgoing (sys_in_conn s))). unfold to_out. by rewrite take_drop.
Qed.

Lemma to_in_prefix s : sys_ok s → to_in s `prefix_of` FA ++ K.
Proof.
  intros (Ho & _). etrans; [|by eapply out_node_prefix].
  exists (drop (sys_to_in s) (outgoing (sys_out_conn s))). unfold to_in. by rewrite take_drop.
Qed.

(** A poll keeps the invariant and tells why it made no progress. *)
Lemma act_poll_out s : sys_ok s →
  sys_ok (step s PollOut) ∧ (sys_rank (step s PollOut) ≤ sys_rank s)%nat ∧
  (sys_rank (step s PollOut) = sys_rank s →
   match sys_out s with
   | Running st => out_blocked (to_out s) st (sys_out_conn s)
   | _ => True
   end) ∧
  sys_in (step s PollOut) = sys_in s ∧ sys_in_conn (step s PollOut) = sys_in_conn s ∧
  to_in (step s PollOut) = to_in s.
Proof.
  intros Hs. pose proof (to_out_prefix s Hs) as Hp. pose proof Hs as (Ho & Hi & Hl1 & Hl2).
  cbn [act]. destruct (sys_out s) as [st|r|] eqn:Es; [|by rewrite ?Es..].
  pose proof (poll_out_ok _ st _ Hp Ho) as Hpoll. destruct (poll_handshake _ st (sys_out_conn s)) as [f a'].
  destruct Hpoll as (Hn & Hpre & Hr & Hb). unfold sys_ok, sys_rank, to_in, to_out. rewrite Es.
  cbn [sys_out sys_out_conn sys_in sys_in_conn sys_to_in sys_to_out node_rank].
  rewrite (take_prefix _ _ _ Hpre) by done. apply prefix_length in Hpre as Hpl.
  split_and!; try done; try lia. intros E. apply Hb. lia.
Qed.

Lemma act_poll_in s : sys_ok s →
  sys_ok (step s PollIn) ∧ (sys_rank (step s PollIn) ≤ sys_rank s)%nat ∧
  (sys_rank (step s PollIn) = sys_rank s →
   match sys_in s with
   | Running st => in_blocked (to_in s) st (sys_in_conn s)
   | _ => True
   end).
Proof.
  intros Hs. pose proof (to_in_prefix s Hs) as Hp. pose proof Hs as (Ho & Hi & Hl1 & Hl2).
  cbn [act]. destruct (sys_in s) as [st|r|] eqn:Es; [|by rewrite ?Es..].
  pose proof (poll_in_ok _ st _ Hp Hi) as Hpoll. destruct (poll_accept_handshake _ st (sys_in_conn s)) as [f b'].
  destruct Hpoll as (Hn & Hpre & Hr & Hb). unfold sys_ok, sys_rank, to_in, to_out. rewrite Es.
  cbn [sys_out sys_out_conn sys_in sys_in_conn sys_to_in sys_to_out node_rank].
  rewrite (take_prefix _ _ _ Hpre) by done. apply prefix_length in Hpre as Hpl.
  split_and!; try done; try lia. intros E. apply Hb. lia.
Qed.

(** The network keeps it too, and no action undoes progress. *)
Lemma act_ok s x : sys_ok s → sys_ok (step s x) ∧ (sys_rank (step s x) ≤ sys_rank s)%nat.
Proof.
  intros Hs. pose proof Hs as (Ho & Hi & Hl1 & Hl2).
  destruct x as [| |n|n| |]; [by apply act_poll_out in Hs as (? & ? & _)|
    by apply act_poll_in in Hs as (? & ? & _)|..]; cbn [act]; split; try done.
  - destruct (take_deliver _ _ n Hl1) as [Et Hle].
    destruct (arrive_spec (take_some n (drop (sys_to_in s) (outgoing (sys_out_conn s)))) (sys_in_conn s))
      as (_ & Hout & _).
    unfold sys_ok, to_in, to_out. cbn [sys_out sys_out_conn sys_in sys_in_conn sys_to_in sys_to_out].
    rewrite Et, Hout. split_and!; [done| |done..]. by apply in_node_arrive.
  - destruct (take_deliver _ _ n Hl2) as [Et Hle].
    destruct (arrive_spec (take_some n (drop (sys_to_out s) (outgoing (sys_in_conn s)))) (sys_out_conn s))
      as (_ & Hout & _).
    unfold sys_ok, to_in, to_out. cbn [sys_out sys_out_conn sys_in sys_in_conn sys_to_in sys_to_out].
    rewrite Et, Hout. split_and!; [|done..]. by apply out_node_arrive.
  - destruct (drained_spec (sys_out_conn s)) as (_ & Hout & _).
    unfold sys_ok, to_in, to_out. cbn [sys_out sys_out_conn sys_in sys_in_conn sys_to_in sys_to_out].
    rewrite Hout. split_and!; [|done..]. by apply out_node_drained.
  - destruct (drained_spec (sys_in_conn s)) as (_ & Hout & _).
    unfold sys_ok, to_in, to_out. cbn [sys_out sys_out_conn sys_in sys_in_conn sys_to_in sys_to_out].
    rewrite Hout. split_and!; [done| |done..]. by apply in_node_drained.
Qed.

Lemma run_ok l s : sys_ok s →
  sys_ok (run (config_of VA min_a) (config_of VB min_b) s l) ∧
  (sys_rank (run (config_of VA min_a) (config_of VB min_b) s l) ≤ sys_rank s)%nat.
Proof.
  revert s. induction l as [|x l IH]; intros s Hs; [done|]. cbn [run foldl].
  apply (act_ok _ x) in Hs as [Hs Hr]. destruct (IH _ Hs) as [? ?]. split; [done|]. etrans; done.
Qed.

(** With nothing on the way and room in both sockets, someone moves. *)
Lemma settled_moves s : sys_ok s →
  to_out s = outgoing (sys_in_conn s) → to_in s = outgoing (sys_out_conn s) →
  writable (sys_out_conn s) = true → writable (sys_in_conn s) = true → (0 < sys_rank s)%nat →
  (sys_rank (step (step s PollOut) PollIn) < sys_rank s)%nat.
Proof.
  intros Hs Eo Ei Hwo Hwi Hpos.
  destruct (act_poll_out s Hs) as (Hs1 & Hr1 & Hb1 & En & Ec & Et).
  destruct (act_poll_in _ Hs1) as (Hs2 & Hr2 & Hb2). rewrite En, Ec, Et in Hb2.
  destruct (decide (sys_rank (step (step s PollOut) PollIn) < sys_rank s)%nat) as [|Hnot]; [done|].
  exfalso. specialize (Hb1 ltac:(lia)). specialize (Hb2 ltac:(lia)).
  rewrite Eo in Hb1. rewrite Ei in Hb2. destruct Hs as (Ho & Hi & _).
  destruct (sys_out s) as [[]|r|] eqn:Es; [..|done]; destruct (sys_in s) as [[]|r'|] eqn:Es'; try done;
    cbn [out_node in_node out_ok in_ok out_blocked in_blocked] in *; unfold out_done, in_done in *;
    destruct_and?; try congruence;
    repeat match goal with E : outgoing _ = _ |- _ => rewrite E in *; clear E end;
    rewrite ?length_app in *; try lia.
  unfold sys_rank in Hpos. rewrite Es, Es' in Hpos. simpl in Hpos. lia.
Qed.

(** Everything on the way arrives, the sockets empty, both nodes are polled. *)
Definition round : list Action :=
  [DeliverIn None; DeliverOut None; DrainOut; DrainIn; PollOut; PollIn].

Lemma round_moves s : sys_ok s → (0 < sys_rank s)%nat →
  (sys_rank (run (config_of VA min_a) (config_of VB min_b) s round) < sys_rank s)%nat.
Proof.
  intros Hs Hpos.
  set (s4 := run (config_of VA min_a) (config_of VB min_b) s [DeliverIn None; DeliverOut None; DrainOut; DrainIn]).
  assert (sys_rank s4 = sys_rank s) as <- by done.
  destruct (run_ok [DeliverIn None; DeliverOut None; DrainOut; DrainIn] s Hs) as [Hs4 _].
  destruct Hs as (_ & _ & Hl1 & Hl2).
  assert (∀ n (l : list byte), (n ≤ length l)%nat → take (n + length (drop n l)) l = l) as Hall.
  { intros n l Hn. apply take_ge. rewrite length_drop. lia. }
  apply settled_moves; [exact Hs4|..|exact Hpos]; subst s4; unfold to_out, to_in;
    cbn [run foldl act sys_out sys_out_conn sys_in sys_in_conn sys_to_in sys_to_out take_some].
  - rewrite (proj1 (proj2 (drained_spec _))). rewrite !(proj1 (proj2 (arrive_spec _ _))). by rewrite Hall.
  - rewrite (proj1 (proj2 (drained_spec _))). rewrite !(proj1 (proj2 (arrive_spec _ _))). by rewrite Hall.
  - apply drained_spec.
  - apply drained_spec.
Qed.

(** Enough rounds, with anything in between, finish. *)
Lemma rounds_finish noises s : sys_ok s → (sys_rank s ≤ length noises)%nat →
  sys_rank (run (config_of VA min_a) (config_of VB min_b) s (concat ((λ noise, noise ++ round) <$> noises))) = O.
Proof.
  revert s. induction noises as [|l ls IH]; intros s Hs Hr; simpl in Hr; [simpl; lia|].
  rewrite fmap_cons. cbn [concat]. unfold run. rewrite !foldl_app.
  destruct (run_ok l s Hs) as [Hs1 Hr1]. destruct (run_ok round _ Hs1) as [Hs2 Hr2].
  apply IH; [exact Hs2|].
  pose proof (round_moves _ Hs1) as Hm. unfold run in *. lia.
Qed.

Lemma rank_zero_finished s : sys_ok s → sys_rank s = O →
  sys_out s = Finished (Ok (negotiated VB)) ∧ sys_in s = Finished (Ok (negotiated VA)).
Proof.
  intros (Ho & Hi & _) Hr. unfold sys_rank in Hr.
  destruct (sys_out s) as [[]|r|]; simpl in Hr; try (exfalso; lia); [|done].
  destruct (sys_in s) as [[]|r'|]; simpl in Hr; try (exfalso; lia); [|done].
  destruct Ho as [-> _], Hi as [-> _]. done.
Qed.
End honest.

(** ** What the handshake promises *)

Section theorems.
Context {H : Sha256Ops} {HL : Sha256Laws H}.

Lemma version_message_reads magic v : u32 magic → version_wf v →
  Z.of_nat (length (payload_enc 0 v)) < 2 ^ 32 →
  ∃ F, version_message magic v = Some F ∧ reads_as magic F v.
Proof.
  intros Hm Hv Hl. destruct (payload_command_spec (M:=Version)) as (c & Hc & _).
  exists (frame c magic 0 v). split.
  - unfold version_message. rewrite (message_new_frame _ _ _ c Hc).
    rewrite (proj2 (Z.ltb_ge _ _)) by apply Hv. done.
  - intros rest. rewrite (parse_frame_frame Version c magic magic 0 v rest Hc Hm Hl).
    rewrite decide_True, bool_decide_true by done. by rewrite deserialize_payload_enc.
Qed.

Lemma verack_message_reads magic : u32 magic →
  ∃ K, verack_message magic = Some K ∧ reads_as magic K mkVerack.
Proof.
  intros Hm. destruct (payload_command_spec (M:=Verack)) as (c & Hc & _).
  exists (frame c magic 0 mkVerack). split.
  - unfold verack_message. by rewrite (message_new_frame _ _ _ c Hc).
  - intros rest. rewrite (parse_frame_frame Verack c magic magic 0 mkVerack rest Hc Hm) by done.
    rewrite decide_True, bool_decide_true by done. by rewrite deserialize_payload_enc.
Qed.

Context {A : Type} {IO : AsyncIo A} {IL : AsyncIoLaws A}.

(** C36: two nodes of one network that accept each other's version complete the
    handshake.  The connecting node runs [Handshake], the accepting node
    [AcceptHandshake]; the schedule is any sequence of polls, of deliveries of
    any number of bytes in either direction and of sockets filling and
    draining, in which at least seven times everything on the way is delivered,
    the sockets drain and both nodes are polled, with anything before and
    between.  Then both are finished with the version message of the other and
    the smaller of the two protocol versions; and under every schedule
    whatsoever neither breaks off, panics, or finishes with anything else. *)
Theorem handshake_completes magic VA VB min_a min_b (a b : A) :
  u32 magic → version_wf VA → version_wf VB →
  Z.of_nat (length (payload_enc 0 VA)) < 2 ^ 32 → Z.of_nat (length (payload_enc 0 VB)) < 2 ^ 32 →
  min_a ≤ version_version VB → min_b ≤ version_version VA →
  (∀ n, version_nonce VA = Some n → version_nonce VB ≠ Some n) →
  incoming a = [] → outgoing a = [] → incoming b = [] → outgoing b = [] →
  ∃ cfg_a st_a, handshake magic VA min_a = Some (cfg_a, st_a) ∧
  let '(cfg_b, st_b) := accept_handshake magic VB min_b in
  let start := mkSystem (Running st_a) a (Running st_b) b 0 0 in
  let negotiated := Z.min (version_version VA) (version_version VB) in
  let out_result := Ok (mkHandshakeResult VB negotiated) in
  let in_result := Ok (mkHandshakeResult VA negotiated) in
  (∀ noises, (7 ≤ length noises)%nat →
    let s := run cfg_a cfg_b start (concat ((λ noise, noise ++ round) <$> noises)) in
    sys_out s = Finished out_result ∧ sys_in s = Finished in_result) ∧
  (∀ l, let s := run cfg_a cfg_b start l in
    match sys_out s with Running _ => True | Finished r => r = out_result | Broken => False end ∧
    match sys_in s with Running _ => True | Finished r => r = in_result | Broken => False end).
Proof.
  intros Hm HvA HvB HlA HlB Hma Hmb Hn Hia Hoa Hib Hob.
  destruct (version_message_reads magic VA Hm HvA HlA) as (FA & EA & RA).
  destruct (version_message_reads magic VB Hm HvB HlB) as (FB & EB & RB).
  destruct (verack_message_reads magic Hm) as (K & EK & RK).
  exists (config_of magic VA min_a), (SendVersion FA). unfold handshake. rewrite EA.
  split; [done|]. cbn [accept_handshake].
  set (start := mkSystem _ a _ b 0 0).
  assert (version_refused (config_of magic VA min_a) VB = false) as Aa.
  { unfold version_refused. cbn [hs_min_version hs_nonce config_of].
    rewrite (proj2 (Z.ltb_ge _ _)) by done. destruct (version_nonce VA) as [n|]; [|done].
    specialize (Hn n eq_refl). destruct (version_nonce VB) as [n'|]; [|done].
    apply Z.eqb_neq. congruence. }
  assert (version_refused (config_of magic VB min_b) VA = false) as Ab.
  { unfold version_refused. cbn [hs_min_version hs_nonce config_of].
    rewrite (proj2 (Z.ltb_ge _ _)) by done. destruct (version_nonce VB) as [n|]; [|done].
    destruct (version_nonce VA) as [n'|]; [|done]. specialize (Hn n' eq_refl).
    apply Z.eqb_neq. congruence. }
  assert (sys_ok magic VA VB FA FB K start) as Hs.
  { unfold sys_ok, to_out, to_in, start.
    cbn [sys_out sys_out_conn sys_in sys_in_conn sys_to_in sys_to_out out_node out_ok in_node in_ok].
    rewrite Hia, Hoa, Hib, Hob. split_and!; try done. by exists []. }
  split.
  - intros noises Hlen.
    eapply rank_zero_finished; [by eapply run_ok|by eapply rounds_finish].
  - intros l. destruct (run_ok magic VA VB min_a min_b FA FB K RA RB RK EB EK Aa Ab l start Hs) as [(Ho & Hi & _) _].
    fold (config_of magic VB min_b).
    split; [destruct (sys_out _); [done|apply Ho|done]|destruct (sys_in _); [done|apply Hi|done]].
Qed.

(** A node refuses a peer whose version is below its minimum, or that sends
    the nonce the node sent itself (a connection to itself): when such a
    version message has arrived, in whatever state of reading it the future is,
    both kinds of handshake end with [InvalidVersion] and nothing is sent in
    answer. *)
Theorem handshake_refuses cfg v F f local behind rest (a : A) :
  reads_as (hs_magic cfg) F v →
  version_version v < hs_min_version cfg ∨
    (∃ nonce, hs_nonce cfg = Some nonce ∧ version_nonce v = Some nonce) →
  reads_behind Version (hs_magic cfg) 0 f behind → behind ++ incoming a = F ++ rest →
  ∃ a', poll_handshake cfg (ReceiveVersion f) a = (Done (Err InvalidVersion), a') ∧
        poll_accept_handshake cfg (AcceptReceiveVersion local f) a = (Done (Err InvalidVersion), a') ∧
        outgoing a' = outgoing a ∧ incoming a' = rest.
Proof.
  intros HF Href Hb Hi.
  assert (version_refused cfg v = true) as E.
  { unfold version_refused. destruct Href as [Hlt|(n & -> & ->)].
    - by rewrite (proj2 (Z.ltb_lt _ _)).
    - by rewrite Z.eqb_refl, orb_true_r. }
  destruct (poll_read_message_parses (hs_magic cfg) 0 f a behind Hb) as (a' & [Ho _] & Hr).
  rewrite Hi, HF in Hr. destruct Hr as [Er Hi']. exists a'.
  unfold poll_handshake, poll_accept_handshake. rewrite !poll_loop_S.
  cbn [handshake_step accept_handshake_step]. rewrite Er. cbn [try_future]. by rewrite E.
Qed.

(** The answer to the verack is not looked at: a node that waits for it
    finishes the handshake successfully on any 24 bytes that do not parse as a
    header of its network, and on any header with another command, although
    reading them ended in an error. *)
Theorem handshake_ignores_verack cfg v (a : A) bytes rest :
  incoming a = bytes ++ rest → length bytes = 24%nat →
  match header_deserialize bytes (hs_magic cfg) with
  | Err _ => True
  | Ok header => command_eq_str (mh_command header) (name "verack") = false
  end →
  ∃ e a', poll_read_message Verack (hs_magic cfg) (read_message 0) a = (Done (Err e), a') ∧
    poll_handshake cfg (ReceiveVerack (Some v) (read_message 0)) a =
      (Done (Ok (mkHandshakeResult v (negotiate_version (hs_version cfg) (version_version v)))), a').
Proof.
  intros Hi Hl Hh.
  assert (∃ e, parse_frame Verack (hs_magic cfg) 0 (incoming a) = Some (Err e, rest)) as [e Ep].
  { unfold parse_frame. rewrite Hi, length_app, Hl. rewrite (proj2 (Nat.ltb_ge _ _)) by lia.
    rewrite take_app_length', drop_app_length' by done.
    destruct (header_deserialize bytes (hs_magic cfg)) as [h|e]; [|by exists e].
    cbn [payload_command verack_payload]. rewrite Hh. by exists InvalidCommand. }
  destruct (poll_read_message_parses (M:=Verack) (hs_magic cfg) 0 (read_message 0) a []) as (a' & _ & Hr);
    [done|]. simpl app in Hr. rewrite Ep in Hr. destruct Hr as [Er _].
  exists e, a'. split; [exact Er|]. unfold poll_handshake. rewrite poll_loop_S.
  cbn [handshake_step]. by rewrite Er.
Qed.
End theorems.

(** ** Runs *)

Import Reference.

Definition example_pipe : Pipe := mkPipe [] [] false.

Lemma example_version_size n : n < 2 ^ 32 → ∀ nonce,
  Z.of_nat (length (payload_enc 0 (example_version n nonce))) < 2 ^ 32.
Proof. intros _ nonce. vm_compute. reflexivity. Qed.

Lemma handshake_completes_witness :
  ∃ cfg_a st_a, handshake MAGIC_TESTNET (example_version 70012 5) 70001 = Some (cfg_a, st_a) ∧
  let '(cfg_b, st_b) := accept_handshake MAGIC_TESTNET (example_version 70015 6) 70001 in
  let start := mkSystem (Running st_a) example_pipe (Running st_b) example_pipe 0 0 in
  let noise := [PollOut; DrainOut; PollOut; DeliverIn (Some 3%nat); PollIn; PollIn] in
  let s := run cfg_a cfg_b start (concat ((λ noise, noise ++ round) <$> replicate 7 noise)) in
  sys_out s = Finished (Ok (mkHandshakeResult (example_version 70015 6) 70012)) ∧
  sys_in s = Finished (Ok (mkHandshakeResult (example_version 70012 5) 70012)).
Proof.
  destruct (handshake_completes (A:=Pipe) MAGIC_TESTNET (example_version 70012 5) (example_version 70015 6)
    70001 70001 example_pipe example_pipe) as (cfg_a & st_a & E & T & _);
    [unfold fits; vm_compute; split; [discriminate|reflexivity]
    |apply example_version_wf; unfold fits; lia|apply example_version_wf; unfold fits; lia
    |apply example_version_size; lia|apply example_version_size; lia|vm_compute; discriminate
    |vm_compute; discriminate|intros n En; vm_compute in En |- *; congruence|reflexivity..|].
  exists cfg_a, st_a. split; [exact E|].
  apply (T (replicate 7 [PollOut; DrainOut; PollOut; DeliverIn (Some 3%nat); PollIn; PollIn])).
  rewrite length_replicate. lia.
Defined.

Lemma handshake_refuses_witness :
  ∃ F a', version_message MAGIC_TESTNET (example_version 70012 5) = Some F ∧
    poll_handshake (config_of MAGIC_TESTNET (example_version 70012 5) 0)
      (ReceiveVersion (read_message 0)) (mkPipe F [] true) = (Done (Err InvalidVersion), a').
Proof.
  destruct (version_message_reads MAGIC_TESTNET (example_version 70012 5)) as (F & E & R);
    [unfold fits; vm_compute; split; [discriminate|reflexivity]
    |apply example_version_wf; unfold fits; lia|apply example_version_size; lia|].
  exists F.
  destruct (handshake_refuses (config_of MAGIC_TESTNET (example_version 70012 5) 0)
    (example_version 70012 5) F (read_message 0) None [] [] (mkPipe F [] true)) as (a' & Ea & _);
    [exact R|right; exists 5; split; reflexivity|split; reflexivity|symmetry; apply app_nil_r|].
  exists a'. split; [exact E|exact Ea].
Defined.

(** Twenty-four zero bytes for an answer. *)
Lemma handshake_ignores_verack_witness :
  ∃ e a', poll_read_message Verack MAGIC_TESTNET (read_message 0)
      (mkPipe (replicate 24 (byte_of 0)) [] true) = (Done (Err e), a') ∧
    poll_handshake (config_of MAGIC_TESTNET (example_version 70012 5) 0)
      (ReceiveVerack (Some (example_version 70015 6)) (read_message 0))
      (mkPipe (replicate 24 (byte_of 0)) [] true) =
      (Done (Ok (mkHandshakeResult (example_version 70015 6) 70012)), a').
Proof.
  apply (handshake_ignores_verack (config_of MAGIC_TESTNET (example_version 70012 5) 0)
    (example_version 70015 6) (mkPipe (replicate 24 (byte_of 0)) [] true)
    (replicate 24 (byte_of 0)) []).
  - reflexivity.
  - reflexivity.
  - vm_compute. exact I.
Defined.
