(* ===== verification/BTree.v ===== *)
(** * Ordered sets ([std::collections::BTreeSet])

    A [BTreeSet] is modelled by the list of its elements in order; [insert]
    keeps an element that compares equal to the new one, as the standard
    library does.  The orders of the program are built from a few combinators,
    each of which keeps the laws of [CmpLaws]. *)

From S2P Require Import Prelude.
From stdpp Require Import sorting.
#[local] Open Scope Z_scope.

(** ** Orders *)

Class CmpLaws {X : Type} (cmp : X → X → comparison) : Prop := {
  cmp_swap x y : cmp y x = CompOpp (cmp x y);
  cmp_eq_l x y z : cmp x y = Eq → cmp x z = cmp y z;
  cmp_lt_trans x y z : cmp x y = Lt → cmp y z = Lt → cmp x z = Lt;
}.

(** The second comparison when the first is equal. *)
Definition cmp_then {X} (c1 c2 : X → X → comparison) (x y : X) : comparison :=
  match c1 x y with Eq => c2 x y | c => c end.

Definition cmp_on {X Y} (f : X → Y) (c : Y → Y → comparison) (x y : X) : comparison := c (f x) (f y).

Definition cmp_flip {X} (c : X → X → comparison) (x y : X) : comparison := c y x.

#[global] Typeclasses Opaque cmp_then cmp_on cmp_flip.

(** [false < true] *)
Definition bool_cmp (a b : bool) : comparison :=
  match a, b with false, true => Lt | true, false => Gt | _, _ => Eq end.

(** Slices compare element by element, a shorter one before its extensions. *)
Fixpoint lex_cmp (a b : list Z) : comparison :=
  match a, b with
  | [], [] => Eq
  | [], _ :: _ => Lt
  | _ :: _, [] => Gt
  | x :: a, y :: b => match x ?= y with Eq => lex_cmp a b | c => c end
  end.

Section cmp.
Context {X : Type} (cmp : X → X → comparison) {L : CmpLaws cmp}.

Lemma cmp_refl x : cmp x x = Eq.
Proof. pose proof (cmp_swap x x) as E. by destruct (cmp x x). Qed.

Lemma cmp_eq_sym x y : cmp x y = Eq → cmp y x = Eq.
Proof. intros E. by rewrite (cmp_swap x y), E. Qed.

Lemma cmp_eq_r x y z : cmp x y = Eq → cmp z x = cmp z y.
Proof. intros E. rewrite (cmp_swap x z), (cmp_swap y z). by rewrite (cmp_eq_l x y z). Qed.

Lemma cmp_gt_lt x y : cmp x y = Gt → cmp y x = Lt.
Proof. intros E. by rewrite (cmp_swap x y), E. Qed.

#[global] Instance cmp_flip_laws : CmpLaws (cmp_flip cmp).
Proof.
  split; unfold cmp_flip.
  - intros x y. apply cmp_swap.
  - intros x y z E. apply cmp_eq_r. by apply cmp_eq_sym.
  - intros x y z H1 H2. by eapply cmp_lt_trans.
Qed.

#[global] Instance cmp_on_laws {Y} (f : Y → X) : CmpLaws (cmp_on f cmp).
Proof.
  split; unfold cmp_on.
  - intros x y. apply cmp_swap.
  - intros x y z. apply cmp_eq_l.
  - intros x y z. apply cmp_lt_trans.
Qed.

#[global] Instance cmp_then_laws (cmp2 : X → X → comparison) {L2 : CmpLaws cmp2} :
  CmpLaws (cmp_then cmp cmp2).
Proof.
  split; unfold cmp_then.
  - intros x y. rewrite (cmp_swap x y). destruct (cmp x y); [apply cmp_swap|done..].
  - intros x y z E. destruct (cmp x y) eqn:E1; [|done..].
    rewrite (cmp_eq_l x y z E1). destruct (cmp y z); [|done..]. by apply cmp_eq_l.
  - intros x y z Hxy Hyz. destruct (cmp x y) eqn:E1; [| |done].
    + rewrite (cmp_eq_l x y z E1). destruct (cmp y z); [|done..]. by eapply cmp_lt_trans.
    + destruct (cmp y z) eqn:E2; [| |done].
      * by rewrite <-(cmp_eq_r y z x E2), E1.
      * by rewrite (cmp_lt_trans x y z E1 E2).
Qed.
End cmp.

#[global] Instance Z_cmp_laws : CmpLaws Z.compare.
Proof.
  split.
  - intros x y. apply Z.compare_antisym.
  - intros x y z E. apply Z.compare_eq in E as ->. done.
  - intros x y z. rewrite !Z.compare_lt_iff. lia.
Qed.

#[global] Instance bool_cmp_laws : CmpLaws bool_cmp.
Proof. split; by intros [] [] *; try destruct z. Qed.

#[global] Instance lex_cmp_laws : CmpLaws lex_cmp.
Proof.
  split.
  - induction x as [|x a IH]; intros [|y b]; [done..|]. simpl. rewrite (Z.compare_antisym x y).
    destruct (x ?= y); [apply IH|done..].
  - induction x as [|x a IH]; intros [|y b] [|z c]; simpl; try done.
    destruct (x ?= y) eqn:E; [|done..]. apply Z.compare_eq in E as ->.
    destruct (y ?= z); [apply IH|done..].
  - induction x as [|x a IH]; intros [|y b] [|z c]; simpl; try done.
    destruct (Z.compare_spec x y), (Z.compare_spec y z), (Z.compare_spec x z); try done; try lia.
    apply IH.
Qed.

Lemma lex_cmp_eq a b : lex_cmp a b = Eq ↔ a = b.
Proof.
  split; [|intros ->; apply (cmp_refl lex_cmp)].
  revert b. induction a as [|x a IH]; intros [|y b]; simpl; try done.
  destruct (x ?= y) eqn:E; [|done..]. apply Z.compare_eq in E as ->. intros E. by rewrite (IH b).
Qed.

Lemma cmp_then_eq {X} (c1 c2 : X → X → comparison) x y :
  cmp_then c1 c2 x y = Eq ↔ c1 x y = Eq ∧ c2 x y = Eq.
Proof. unfold cmp_then. destruct (c1 x y); naive_solver. Qed.

(** ** Ordered lists *)

Section btree.
Context {X : Type} (cmp : X → X → comparison).

(** [BTreeSet::insert] *)
Fixpoint btree_insert (x : X) (l : list X) : list X :=
  match l with
  | [] => [x]
  | y :: l' =>
      match cmp x y with
      | Lt => x :: l
      | Eq => l
      | Gt => y :: btree_insert x l'
      end
  end.

(** [BTreeSet::remove], with whether the element was there. *)
Fixpoint btree_remove (x : X) (l : list X) : bool * list X :=
  match l with
  | [] => (false, [])
  | y :: l' =>
      match cmp x y with
      | Lt => (false, l)
      | Eq => (true, l')
      | Gt => let '(b, l'') := btree_remove x l' in (b, y :: l'')
      end
  end.

Abbreviation btree := (StronglySorted (λ x y, cmp x y = Lt)).

Context {L : CmpLaws cmp}.

Lemma btree_insert_elem x l z : btree l → (∀ y, y ∈ l → cmp x y ≠ Eq) →
  z ∈ btree_insert x l ↔ z = x ∨ z ∈ l.
Proof.
  induction 1 as [|y l Hl IH Hy]; intros Hne; simpl; [set_solver|].
  destruct (cmp x y) eqn:E; [|set_solver|].
  - destruct (Hne y); [set_solver|done].
  - rewrite !elem_of_cons, IH by set_solver. tauto.
Qed.

Lemma btree_insert_sorted x l : btree l → btree (btree_insert x l).
Proof.
  induction 1 as [|y l Hl IH Hy]; simpl; [by repeat constructor|].
  destruct (cmp x y) eqn:E; [by constructor| |].
  - constructor; [by constructor|]. constructor; [done|].
    eapply list.Forall_impl; [exact Hy|]. intros z Hz. by eapply cmp_lt_trans.
  - constructor; [done|]. apply (cmp_gt_lt cmp) in E. clear IH.
    induction Hl as [|z l Hl IH Hz]; simpl; [by constructor|].
    apply list.Forall_cons in Hy as [? ?]. destruct (cmp x z); repeat constructor; auto.
Qed.

Lemma btree_remove_elem x l : btree l → x ∈ l →
  ∃ l', btree_remove x l = (true, l') ∧ btree l' ∧ ∀ z, z ∈ l' ↔ z ∈ l ∧ cmp x z ≠ Eq.
Proof.
  induction 1 as [|y l Hl IH Hy]; intros Hx; [by apply not_elem_of_nil in Hx|]. simpl.
  destruct (cmp x y) eqn:E.
  - exists l. split_and!; [done..|]. intros z. rewrite elem_of_cons. split.
    + intros Hz. split; [by right|]. rewrite list.Forall_forall in Hy.
      by rewrite (cmp_eq_l x y z E), (Hy z Hz).
    + intros [[->|?] ?]; done.
  - apply elem_of_cons in Hx as [->|Hx]; [by rewrite (cmp_refl cmp) in E|].
    rewrite list.Forall_forall in Hy. specialize (Hy x Hx). by rewrite (cmp_swap x y), E in Hy.
  - apply elem_of_cons in Hx as [->|Hx]; [by rewrite (cmp_refl cmp) in E|].
    destruct (IH Hx) as (l' & -> & Hl' & Hiff). exists (y :: l'). split_and!; [done| |].
    + constructor; [done|]. rewrite list.Forall_forall in Hy |- *. intros z Hz. apply Hiff in Hz as [Hz _].
      by apply Hy.
    + intros z. rewrite !elem_of_cons, Hiff. split; [|tauto]. intros [->|?]; [|tauto].
      split; [by left|]. by rewrite E.
Qed.

(** An element that is not there. *)
Lemma btree_remove_none x l : btree l → (∀ y, y ∈ l → cmp x y ≠ Eq) → btree_remove x l = (false, l).
Proof.
  induction 1 as [|y l Hl IH Hy]; intros Hne; [done|]. simpl.
  destruct (cmp x y) eqn:E; [by destruct (Hne y); [set_solver|]|done|].
  rewrite IH; [done|]. set_solver.
Qed.

(** Two elements of a set that compare equal are one. *)
Lemma btree_eq l x y : btree l → x ∈ l → y ∈ l → cmp x y = Eq → x = y.
Proof.
  induction 1 as [|z l Hl IH Hz]; intros Hx Hy E; [by apply not_elem_of_nil in Hx|].
  rewrite list.Forall_forall in Hz.
  apply elem_of_cons in Hx as [->|Hx]; apply elem_of_cons in Hy as [->|Hy]; [done| | |by apply IH].
  - by rewrite (Hz y Hy) in E.
  - rewrite (cmp_swap z x), (Hz x Hx) in E. done.
Qed.

Lemma btree_nodup l : btree l → NoDup l.
Proof.
  induction 1 as [|z l Hl IH Hz]; constructor; [|done]. intros Hin.
  rewrite list.Forall_forall in Hz. specialize (Hz z Hin). by rewrite (cmp_refl cmp) in Hz.
Qed.

Lemma btree_filter (P : X → Prop) `{∀ x, Decision (P x)} l : btree l → btree (filter P l).
Proof.
  induction 1 as [|z l Hl IH Hz]; [constructor|]. rewrite filter_cons. case_decide; [|done].
  constructor; [done|]. rewrite list.Forall_forall in Hz |- *. intros x Hx.
  apply list_elem_of_filter in Hx as [_ Hx]. by apply Hz.
Qed.
End btree.
#[global] Arguments btree_insert {X}.
#[global] Arguments btree_remove {X}.
Abbreviation btree cmp := (StronglySorted (λ x y, cmp x y = Lt)).
