(* ===== verification/NodeTable.v ===== *)
(** * The table of known nodes ([p2p/src/util/node_table.rs])

    Every node is in three places: the map by address and the two ordered sets
    by score and by time.  The operations change all three; an [assert!] that
    the node to be replaced is in the sets is an [option], [None] being the
    panic.  The abstract table is the map alone: the theorems say that the
    sets follow it, that no assertion fails, and that the queries return the
    best nodes of the map. *)

From S2P Require Import Prelude External Primitives Serialization Compact Message MessageTypes BTree.
From stdpp Require Import gmap sorting.
#[local] Open Scope Z_scope.

(** ** Socket addresses *)

(** [std::net::SocketAddr]; an IPv6 address has a flow label and a scope. *)
Inductive SocketAddr :=
| SA4 (octets : list byte) (port : Z)
| SA6 (segments : list Z) (port : Z) (flowinfo : Z) (scope_id : Z).

#[global] Instance SocketAddr_eq_dec : EqDecision SocketAddr.
Proof. solve_decision. Defined.

#[global] Instance SocketAddr_countable : Countable SocketAddr.
Proof.
  apply (inj_countable'
    (λ a, match a with SA4 o p => inl (o, p) | SA6 s p f i => inr (s, p, f, i) end)
    (λ x, match x with inl (o, p) => SA4 o p | inr (s, p, f, i) => SA6 s p f i end)).
  by intros [].
Defined.

(** [SocketAddr::new]: no flow label, no scope. *)
Definition socket_addr_new (ip : IpAddr) (port : Z) : SocketAddr :=
  match ip with
  | V4 octets => SA4 octets port
  | V6 segments => SA6 segments port 0 0
  end.

Definition sa_ip (a : SocketAddr) : IpAddr :=
  match a with SA4 octets _ => V4 octets | SA6 segments _ _ _ => V6 segments end.

Definition sa_port (a : SocketAddr) : Z :=
  match a with SA4 _ port => port | SA6 _ port _ _ => port end.

(** [Ipv4Addr::to_ipv6_compatible], [Ipv6Addr::to_ipv4] *)
Definition to_ipv6_compatible (octets : list byte) : list Z :=
  replicate 6 0 ++ be_segments octets.

Definition to_ipv4 (segments : list Z) : option (list byte) :=
  match segments with
  | [0; 0; 0; 0; 0; f; g; h] =>
      if (f =? 0) || (f =? 0xffff) then Some (be_bytes 2 g ++ be_bytes 2 h) else None
  | _ => None
  end.

(** src: p2p/src/util/internet_protocol.rs 3-8 InternetProtocol *)
Inductive InternetProtocol := AnyProtocol | IpV4 | IpV6.

(** src: p2p/src/util/internet_protocol.rs 29-41 is_allowed *)
Definition protocol_is_allowed (p : InternetProtocol) (addr : SocketAddr) : bool :=
  match p with
  | AnyProtocol => true
  | IpV4 => match addr with SA4 _ _ => true | _ => false end
  | IpV6 => match addr with SA6 _ _ _ _ => true | _ => false end
  end.

(** ** Nodes and their orders *)

(** src: p2p/src/util/node_table.rs 12-24 Node *)
Record Node := mkNode {
  node_addr : SocketAddr;
  node_time : Z;
  node_services : Services;
  node_is_preferable : bool;
  node_failures : Z;
}.

#[global] Instance Node_eq_dec : EqDecision Node.
Proof. solve_decision. Defined.

(** src: p2p/src/util/node_table.rs 32-43 from *)
Definition address_entry_of_node (node : Node) : AddressEntry :=
  mkAddressEntry (wrap 32 (node_time node))
    (mkNetAddress (node_services node) (sa_ip (node_addr node)) (sa_port (node_addr node))).

(** [Ipv4Addr::cmp] and [Ipv6Addr::cmp]: by octets, by segments. *)
Definition octets_cmp (a b : list byte) : comparison := lex_cmp (byte_val <$> a) (byte_val <$> b).

(** src: p2p/src/util/node_table.rs 123-153 cmp *)
Definition node_cmp (self other : Node) : comparison :=
  match node_addr self with
  | SA4 self_ip self_port =>
      match node_addr other with
      | SA4 other_ip other_port =>
          if self_port =? other_port then octets_cmp self_ip other_ip
          else self_port ?= other_port
      | SA6 _ _ _ _ => Lt
      end
  | SA6 self_ip self_port _ _ =>
      match node_addr other with
      | SA4 _ _ => Gt
      | SA6 other_ip other_port _ _ =>
          if self_port =? other_port then lex_cmp self_ip other_ip
          else self_port ?= other_port
      end
  end.

(** src: p2p/src/util/node_table.rs 74-92 cmp *)
Definition score_cmp (self other : Node) : comparison :=
  if node_failures self =? node_failures other then
    if Bool.eqb (node_is_preferable self) (node_is_preferable other) then
      if node_time other =? node_time self then node_cmp other self
      else node_time other ?= node_time self
    else if node_is_preferable self then Lt
    else Gt
  else node_failures self ?= node_failures other.

(** src: p2p/src/util/node_table.rs 113-121 cmp *)
Definition time_cmp (self other : Node) : comparison :=
  if node_time other =? node_time self then node_cmp other self
  else node_time other ?= node_time self.

(** ** The table *)

(** src: p2p/src/util/node_table.rs 161-165 NodeTableError *)
Inductive NodeTableError := AddressAlreadyAdded | NoAddressInTable.

(** The time source is read by the operations: [now] below. *)
(** src: p2p/src/util/node_table.rs 167-182 NodeTable *)
Record NodeTable := mkNodeTable {
  preferable_services : Services;
  by_addr : gmap SocketAddr Node;
  by_score : list Node;
  by_time : list Node;
}.

(** src: p2p/src/util/node_table.rs 187-192 new *)
Definition node_table_new (services : Services) : NodeTable := mkNodeTable services ∅ [] [].

(** [node] takes the place of [old] under [addr]; [old] must be in both sets. *)
Definition replace_node (t : NodeTable) (addr : SocketAddr) (old node : Node) : option NodeTable :=
  let '(in_score, score) := btree_remove score_cmp old (by_score t) in
  _ ← rust_assert in_score;
  let '(in_time, time) := btree_remove time_cmp old (by_time t) in
  _ ← rust_assert in_time;
  Some (mkNodeTable (preferable_services t) (<[addr := node]> (by_addr t))
    (btree_insert score_cmp node score) (btree_insert time_cmp node time)).

Definition insert_node (t : NodeTable) (node : Node) : NodeTable :=
  mkNodeTable (preferable_services t) (<[node_addr node := node]> (by_addr t))
    (btree_insert score_cmp node (by_score t)) (btree_insert time_cmp node (by_time t)).

(** src: p2p/src/util/node_table.rs 222-247 insert *)
Definition table_insert (now : Z) (addr : SocketAddr) (services : Services) (t : NodeTable) :
    option NodeTable :=
  match by_addr t !! addr with
  | Some old =>
      replace_node t addr old
        (mkNode (node_addr old) now services (node_is_preferable old) (node_failures old))
  | None =>
      Some (insert_node t (mkNode addr now services (includes services (preferable_services t)) 0))
  end.

(** src: p2p/src/util/node_table.rs 249-251 exists *)
Definition table_exists (addr : SocketAddr) (t : NodeTable) : bool := bool_decide (is_Some (by_addr t !! addr)).

(** src: p2p/src/util/node_table.rs 253-260 add *)
Definition table_add (now : Z) (addr : SocketAddr) (services : Services) (t : NodeTable) :
    option (result NodeTableError unit * NodeTable) :=
  if table_exists addr t then Some (Err AddressAlreadyAdded, t)
  else t ← table_insert now addr services t; Some (Ok tt, t).

(** src: p2p/src/util/node_table.rs 265-275 remove *)
Definition table_remove (addr : SocketAddr) (t : NodeTable) : result NodeTableError unit * NodeTable :=
  match by_addr t !! addr with
  | Some val =>
      let time := snd (btree_remove time_cmp val (by_time t)) in
      let score := snd (btree_remove score_cmp val (by_score t)) in
      (Ok tt, mkNodeTable (preferable_services t) (delete addr (by_addr t)) score time)
  | None => (Err NoAddressInTable, t)
  end.

(** The body of the loop of [insert_many]. *)
(** src: p2p/src/util/node_table.rs 289-317 insert_many *)
Definition insert_entry (t : NodeTable) (e : AddressEntry) : option NodeTable :=
  let node := mkNode (socket_addr_new (na_address (ae_address e)) (na_port (ae_address e)))
    (ae_timestamp e) (na_services (ae_address e))
    (includes (na_services (ae_address e)) (preferable_services t)) 0 in
  match by_addr t !! node_addr node with
  | Some old =>
      if node_time old <? node_time node then
        replace_node t (node_addr node) old (mkNode (node_addr old) (node_time node) (node_services node)
          (node_is_preferable old) (node_failures old))
      else Some t
  | None => Some (insert_node t node)
  end.

(** src: p2p/src/util/node_table.rs 280-319 insert_many *)
Definition insert_many (now : Z) (addresses : list AddressEntry) (t : NodeTable) : option NodeTable :=
  foldl (λ t e, t ← t; insert_entry t e) (Some t)
    (filter (λ e, ae_timestamp e ≤ now) addresses).

(** The addresses under which an excluded node may be known. *)
(** src: p2p/src/util/node_table.rs 333-351 nodes_with_services *)
Definition not_excepted (except : gset SocketAddr) (addr : SocketAddr) : bool :=
  bool_decide (addr ∉ except)
  && match addr with
     | SA4 octets port => bool_decide (SA6 (to_ipv6_compatible octets) port 0 0 ∉ except)
     | SA6 segments port _ _ =>
         match to_ipv4 segments with
         | Some v4 => bool_decide (SA4 v4 port ∉ except)
         | None => true
         end
     end.

Definition eligible (services : Services) (protocol : InternetProtocol) (except : gset SocketAddr)
    (node : Node) : bool :=
  protocol_is_allowed protocol (node_addr node)
  && includes (node_services node) services
  && not_excepted except (node_addr node).

(** src: p2p/src/util/node_table.rs 322-355 nodes_with_services *)
Definition nodes_with_services (services : Services) (protocol : InternetProtocol)
    (except : gset SocketAddr) (limit : nat) (t : NodeTable) : list Node :=
  take limit (filter (λ n, eligible services protocol except n) (by_score t)).

(** src: p2p/src/util/node_table.rs 370-377 recently_active_nodes *)
Definition recently_active_nodes (protocol : InternetProtocol) (t : NodeTable) : list Node :=
  take 1000 (filter (λ n, protocol_is_allowed protocol (node_addr n)) (by_time t)).

(** src: p2p/src/util/node_table.rs 380-388 note_used *)
Definition note_used (now : Z) (addr : SocketAddr) (t : NodeTable) : option NodeTable :=
  match by_addr t !! addr with
  | Some node =>
      replace_node t addr node (mkNode (node_addr node) now (node_services node)
        (node_is_preferable node) (node_failures node))
  | None => Some t
  end.

(** src: p2p/src/util/node_table.rs 391-399 note_failure *)
Definition note_failure {P : Profile} (addr : SocketAddr) (t : NodeTable) : option NodeTable :=
  match by_addr t !! addr with
  | Some node =>
      failures ← u32_add (node_failures node) 1;
      replace_node t addr node (mkNode (node_addr node) (node_time node) (node_services node)
        (node_is_preferable node) failures)
  | None => Some t
  end.

(** A row of the file; its text and that of the address in it are parameters
    of [Csv] below. *)
Definition Row : Type := SocketAddr * Z * Z * Z.

(** src: p2p/src/util/node_table.rs 402-422 save *)
Definition save_rows (t : NodeTable) : list Row :=
  (λ n, (node_addr n, node_time n, node_services n, node_failures n)) <$> take 1000 (by_score t).

(** src: p2p/src/util/node_table.rs 440-456 load *)
Definition load_row (t : NodeTable) (row : Row) : NodeTable :=
  let '(addr, time, services, failures) := row in
  insert_node t (mkNode addr time services (includes services (preferable_services t)) failures).

(** The [csv] crate with the text form of addresses: a file of rows, and what
    reading it back gives, [None] for a file that does not parse. *)
Class Csv := {
  csv_write : list Row → list byte;
  csv_read : list byte → option (list Row);
}.

Section csv.
Context {C : Csv}.

Definition save (t : NodeTable) : list byte := csv_write (save_rows t).

(** src: p2p/src/util/node_table.rs 425-459 load *)
Definition load (preferable_services : Services) (file : list byte) : option NodeTable :=
  rows ← csv_read file; Some (foldl load_row (node_table_new preferable_services) rows).
End csv.

(** ** The orders *)

Definition sa_kind (a : SocketAddr) : Z := match a with SA4 _ _ => 0 | SA6 _ _ _ _ => 1 end.
Definition sa_ip_key (a : SocketAddr) : list Z :=
  match a with SA4 octets _ => byte_val <$> octets | SA6 segments _ _ _ => segments end.

(** The same orders from the combinators. *)
Definition node_lex : Node → Node → comparison :=
  cmp_then (cmp_on (sa_kind ∘ node_addr) Z.compare)
    (cmp_then (cmp_on (sa_port ∘ node_addr) Z.compare) (cmp_on (sa_ip_key ∘ node_addr) lex_cmp)).
Definition time_lex : Node → Node → comparison :=
  cmp_then (cmp_flip (cmp_on node_time Z.compare)) (cmp_flip node_cmp).
Definition score_lex : Node → Node → comparison :=
  cmp_then (cmp_on node_failures Z.compare)
    (cmp_then (cmp_flip (cmp_on node_is_preferable bool_cmp)) time_cmp).

Lemma node_cmp_lex x y : node_cmp x y = node_lex x y.
Proof.
  unfold node_lex, node_cmp, cmp_then, cmp_on, compose.
  destruct (node_addr x) as [o p|s p ? ?], (node_addr y) as [o' p'|s' p' ? ?]; cbn; try done;
    destruct (Z.eqb_spec p p') as [->|Hne]; rewrite ?Z.compare_refl; try done;
    rewrite <-Z.compare_eq_iff in Hne; by destruct (p ?= p').
Qed.

Lemma time_cmp_lex x y : time_cmp x y = time_lex x y.
Proof.
  unfold time_lex, time_cmp, cmp_then, cmp_on, cmp_flip.
  destruct (Z.eqb_spec (node_time y) (node_time x)) as [->|Hne]; [by rewrite Z.compare_refl|].
  rewrite <-Z.compare_eq_iff in Hne. by destruct (node_time y ?= node_time x).
Qed.

Lemma score_cmp_lex x y : score_cmp x y = score_lex x y.
Proof.
  unfold score_lex, score_cmp, cmp_then, cmp_on, cmp_flip. fold (time_cmp x y).
  destruct (Z.eqb_spec (node_failures x) (node_failures y)) as [->|Hne].
  - rewrite Z.compare_refl. by destruct (node_is_preferable x), (node_is_preferable y).
  - rewrite <-Z.compare_eq_iff in Hne. by destruct (node_failures x ?= node_failures y).
Qed.

Lemma cmp_laws_ext {X} (c c' : X → X → comparison) {L : CmpLaws c'} : (∀ x y, c x y = c' x y) → CmpLaws c.
Proof.
  intros E. split; intros *; rewrite !E; [apply cmp_swap|apply cmp_eq_l|apply cmp_lt_trans].
Qed.

#[global] Instance node_cmp_laws : CmpLaws node_cmp.
Proof. apply (cmp_laws_ext _ node_lex (L:=ltac:(unfold node_lex; apply _)) node_cmp_lex). Qed.

#[global] Instance time_cmp_laws : CmpLaws time_cmp.
Proof. apply (cmp_laws_ext _ time_lex (L:=ltac:(unfold time_lex; apply _)) time_cmp_lex). Qed.

#[global] Instance score_cmp_laws : CmpLaws score_cmp.
Proof. apply (cmp_laws_ext _ score_lex (L:=ltac:(unfold score_lex; apply _)) score_cmp_lex). Qed.

(** Addresses the orders tell apart: no flow label, no scope. *)
Definition canonical (a : SocketAddr) : Prop :=
  match a with SA4 _ _ => True | SA6 _ _ flowinfo scope_id => flowinfo = 0 ∧ scope_id = 0 end.

Lemma socket_addr_new_canonical ip port : canonical (socket_addr_new ip port).
Proof. by destruct ip. Qed.

Lemma node_cmp_eq x y : canonical (node_addr x) → canonical (node_addr y) →
  node_cmp x y = Eq → node_addr x = node_addr y.
Proof.
  rewrite node_cmp_lex. unfold node_lex. rewrite !cmp_then_eq. unfold cmp_on, compose.
  intros Hx Hy (Hk & Hp & Hi). apply Z.compare_eq in Hp. apply lex_cmp_eq in Hi.
  destruct (node_addr x) as [o p|s p f i], (node_addr y) as [o' p'|s' p' f' i']; try done; cbn in *.
  - apply (inj (fmap byte_val)) in Hi as ->. by subst.
  - destruct Hx as [-> ->], Hy as [-> ->]. by subst.
Qed.

(** Nodes that a set would not hold both of have one address. *)
Lemma score_cmp_eq x y : canonical (node_addr x) → canonical (node_addr y) →
  score_cmp x y = Eq → node_addr x = node_addr y.
Proof.
  intros Hx Hy. rewrite score_cmp_lex. unfold score_lex. rewrite !cmp_then_eq.
  rewrite time_cmp_lex. unfold time_lex. rewrite cmp_then_eq.
  intros (_ & _ & _ & E). symmetry. by apply node_cmp_eq.
Qed.

Lemma time_cmp_eq x y : canonical (node_addr x) → canonical (node_addr y) →
  time_cmp x y = Eq → node_addr x = node_addr y.
Proof.
  intros Hx Hy. rewrite time_cmp_lex. unfold time_lex. rewrite cmp_then_eq. intros (_ & E). symmetry. by apply node_cmp_eq.
Qed.

(** ** The invariant *)

(** A set that holds exactly the nodes of the map. *)
Definition set_of (cmp : Node → Node → comparison) (m : gmap SocketAddr Node) (l : list Node) : Prop :=
  btree cmp l ∧ ∀ n, n ∈ l ↔ m !! node_addr n = Some n.

Definition map_ok (m : gmap SocketAddr Node) : Prop :=
  ∀ a n, m !! a = Some n → node_addr n = a ∧ canonical a.

Definition table_ok (t : NodeTable) : Prop :=
  map_ok (by_addr t) ∧ set_of score_cmp (by_addr t) (by_score t) ∧ set_of time_cmp (by_addr t) (by_time t).

(** An order that tells canonical addresses apart. *)
Class NodeOrder (cmp : Node → Node → comparison) : Prop := {
  node_order_laws :: CmpLaws cmp;
  node_order_eq x y : canonical (node_addr x) → canonical (node_addr y) →
    cmp x y = Eq → node_addr x = node_addr y;
}.

#[global] Instance score_node_order : NodeOrder score_cmp.
Proof. split; [apply _|exact score_cmp_eq]. Qed.
#[global] Instance time_node_order : NodeOrder time_cmp.
Proof. split; [apply _|exact time_cmp_eq]. Qed.

Section node_sets.
Context (cmp : Node → Node → comparison) {O : NodeOrder cmp}.

(** The member of a set under the address of a node is that of the map. *)
Lemma set_of_eq m l n x : map_ok m → set_of cmp m l → m !! node_addr n = Some n →
  x ∈ l → cmp n x = Eq → x = n.
Proof.
  intros Hm [Hs Hl] Hn Hx E. apply Hl in Hx as Hx'.
  destruct (Hm _ _ Hn) as [_ Cn]. destruct (Hm _ _ Hx') as [_ Cx].
  pose proof (node_order_eq _ _ Cn Cx E) as Ea. rewrite <-Ea in Hx'. congruence.
Qed.

Lemma set_of_remove m l n : map_ok m → set_of cmp m l → m !! node_addr n = Some n →
  ∃ l', btree_remove cmp n l = (true, l') ∧ set_of cmp (delete (node_addr n) m) l'.
Proof.
  intros Hm Hs Hn. pose proof Hs as [Hsort Hl].
  destruct (btree_remove_elem cmp n l Hsort) as (l' & E & Hsort' & Hl'); [by apply Hl|].
  exists l'. split; [done|]. split; [done|]. intros x. rewrite Hl', Hl, lookup_delete_Some.
  split.
  - intros [Hx Hne]. split; [|done]. intros Ea. rewrite <-Ea, Hn in Hx. simplify_eq.
    by rewrite (cmp_refl cmp) in Hne.
  - intros [Hne Hx]. split; [done|]. intros E'.
    destruct (Hm _ _ Hn) as [_ Cn]. destruct (Hm _ _ Hx) as [_ Cx].
    by apply Hne, (node_order_eq _ _ Cn Cx).
Qed.

Lemma set_of_insert m l n : map_ok m → set_of cmp m l → m !! node_addr n = None →
  canonical (node_addr n) → set_of cmp (<[node_addr n := n]> m) (btree_insert cmp n l).
Proof.
  intros Hm [Hsort Hl] Hn Cn. split; [exact (btree_insert_sorted cmp n l Hsort)|]. intros x.
  rewrite (btree_insert_elem cmp); [|done|].
  - rewrite Hl, lookup_insert_Some. split.
    + intros [->|Hx]; [by left|]. right. split; [|done]. intros Ea. congruence.
    + intros [[Ea ->]|[_ Hx]]; [by left|by right].
  - intros y Hy E. apply Hl in Hy. destruct (Hm _ _ Hy) as [_ Cy].
    pose proof (node_order_eq _ _ Cn Cy E). congruence.
Qed.
End node_sets.

(** ** The operations keep it *)

Lemma map_ok_insert m n : map_ok m → canonical (node_addr n) → map_ok (<[node_addr n := n]> m).
Proof. intros Hm Cn a x. rewrite lookup_insert_Some. intros [[<- <-]|[_ Hx]]; [done|by apply Hm]. Qed.

Lemma map_ok_delete m a : map_ok m → map_ok (delete a m).
Proof. intros Hm a' x. rewrite lookup_delete_Some. intros [_ Hx]. by apply Hm. Qed.

Lemma insert_node_ok t n : table_ok t → by_addr t !! node_addr n = None → canonical (node_addr n) →
  table_ok (insert_node t n).
Proof.
  intros (Hm & Hs & Ht) Hn Cn. 
  split; [by apply map_ok_insert|]. split; by apply (set_of_insert _).
Qed.

(** A node is replaced by one of the same address, and no assertion fails. *)
Lemma replace_node_ok t addr old n : table_ok t → by_addr t !! addr = Some old → node_addr n = addr →
  ∃ t', replace_node t addr old n = Some t' ∧ table_ok t' ∧
    by_addr t' = <[addr := n]> (by_addr t) ∧ preferable_services t' = preferable_services t.
Proof.
  intros (Hm & Hs & Ht) Ho <-. destruct (Hm _ _ Ho) as [Eo Co].
  rewrite <-Eo in Ho. destruct (set_of_remove score_cmp _ _ _ Hm Hs Ho) as (ls & Es & Hs').
  destruct (set_of_remove time_cmp _ _ _ Hm Ht Ho) as (lt & Et & Ht').
  rewrite Eo in Hs', Ht'. unfold replace_node. rewrite Es. cbn [rust_assert mbind option_bind].
  rewrite Et. cbn [rust_assert mbind option_bind]. eexists. split; [done|].
  assert (∀ l cmp, NodeOrder cmp → set_of cmp (delete (node_addr n) (by_addr t)) l →
    set_of cmp (<[node_addr n := n]> (by_addr t)) (btree_insert cmp n l)) as Hins.
  { intros l cmp O Hl. rewrite <-insert_delete_eq. apply (set_of_insert cmp); [by apply map_ok_delete|done|apply lookup_delete_eq|done]. }
  split; [|done]. split; [by apply map_ok_insert|]. split; by apply Hins; [apply _|].
Qed.

Lemma table_remove_ok t addr : table_ok t →
  table_ok (snd (table_remove addr t)) ∧ by_addr (snd (table_remove addr t)) = delete addr (by_addr t) ∧
  preferable_services (snd (table_remove addr t)) = preferable_services t ∧
  fst (table_remove addr t) = if table_exists addr t then Ok tt else Err NoAddressInTable.
Proof.
  intros Hok. pose proof Hok as (Hm & Hs & Ht). unfold table_remove, table_exists.
  destruct (by_addr t !! addr) as [n|] eqn:E.
  - destruct (Hm _ _ E) as [Ea _]. subst addr.
    destruct (set_of_remove score_cmp _ _ _ Hm Hs E) as (ls & Es & Hs').
    destruct (set_of_remove time_cmp _ _ _ Hm Ht E) as (lt & Et & Ht').
    rewrite Es, Et. cbn [fst snd by_addr preferable_services].
    rewrite bool_decide_true by done. split; [|done]. split; [by apply map_ok_delete|done].
  - cbn [fst snd]. rewrite delete_id, bool_decide_false by first [done|by intros [? ?]]. done.
Qed.

(** ** The table as a map *)

(** What the operations do to the map. *)
Inductive TableOp :=
| OpInsert (now : Z) (addr : SocketAddr) (services : Services)
| OpAdd (now : Z) (addr : SocketAddr) (services : Services)
| OpRemove (addr : SocketAddr)
| OpInsertMany (now : Z) (entries : list AddressEntry)
| OpUsed (now : Z) (addr : SocketAddr)
| OpFailure (addr : SocketAddr).

Definition with_time_services (now : Z) (services : Services) (n : Node) : Node :=
  mkNode (node_addr n) now services (node_is_preferable n) (node_failures n).

Definition fresh_node (pref : Services) (addr : SocketAddr) (time : Z) (services : Services) : Node :=
  mkNode addr time services (includes services pref) 0.

Definition map_insert (pref : Services) (now : Z) (addr : SocketAddr) (services : Services)
    (m : gmap SocketAddr Node) : gmap SocketAddr Node :=
  partial_alter (λ old, Some match old with
    | Some n => with_time_services now services n
    | None => fresh_node pref addr now services
    end) addr m.

(** An advertised node is added when it is new, and updated when it was seen
    later than known. *)
Definition map_entry (pref : Services) (m : gmap SocketAddr Node) (e : AddressEntry) :
    gmap SocketAddr Node :=
  let addr := socket_addr_new (na_address (ae_address e)) (na_port (ae_address e)) in
  let services := na_services (ae_address e) in
  partial_alter (λ old, Some match old with
    | Some n => if node_time n <? ae_timestamp e then with_time_services (ae_timestamp e) services n else n
    | None => fresh_node pref addr (ae_timestamp e) services
    end) addr m.

Definition map_op (pref : Services) (m : gmap SocketAddr Node) (o : TableOp) : gmap SocketAddr Node :=
  match o with
  | OpInsert now addr services => map_insert pref now addr services m
  | OpAdd now addr services =>
      if decide (is_Some (m !! addr)) then m else map_insert pref now addr services m
  | OpRemove addr => delete addr m
  | OpInsertMany now entries =>
      foldl (map_entry pref) m (filter (λ e, ae_timestamp e ≤ now) entries)
  | OpUsed now addr => alter (λ n, with_time_services now (node_services n) n) addr m
  | OpFailure addr =>
      alter (λ n, mkNode (node_addr n) (node_time n) (node_services n) (node_is_preferable n)
                    (node_failures n + 1)) addr m
  end.

Definition table_op {P : Profile} (t : NodeTable) (o : TableOp) : option NodeTable :=
  match o with
  | OpInsert now addr services => table_insert now addr services t
  | OpAdd now addr services => snd <$> table_add now addr services t
  | OpRemove addr => Some (snd (table_remove addr t))
  | OpInsertMany now entries => insert_many now entries t
  | OpUsed now addr => note_used now addr t
  | OpFailure addr => note_failure addr t
  end.

Definition op_canonical (o : TableOp) : Prop :=
  match o with OpInsert _ addr _ | OpAdd _ addr _ => canonical addr | _ => True end.

(** [t'] is [t] after the map operation [f]. *)
Definition follows (t : NodeTable) (m' : gmap SocketAddr Node) (r : option NodeTable) : Prop :=
  ∃ t', r = Some t' ∧ table_ok t' ∧ by_addr t' = m' ∧ preferable_services t' = preferable_services t.

Lemma follows_insert t n m' : table_ok t → by_addr t !! node_addr n = None → canonical (node_addr n) →
  m' = <[node_addr n := n]> (by_addr t) → follows t m' (Some (insert_node t n)).
Proof. intros Hok Hn Cn ->. eexists. split_and!; [done|by apply insert_node_ok|done|done]. Qed.

Lemma follows_replace t addr old n m' : table_ok t → by_addr t !! addr = Some old → node_addr n = addr →
  m' = <[addr := n]> (by_addr t) → follows t m' (replace_node t addr old n).
Proof. intros Hok Ho En ->. by apply replace_node_ok. Qed.

Lemma follows_same t : table_ok t → follows t (by_addr t) (Some t).
Proof. intros. by exists t. Qed.

Lemma partial_alter_insert {K V} `{Countable K} (m : gmap K V) k f v :
  f (m !! k) = Some v → partial_alter f k m = <[k := v]> m.
Proof.
  intros E. apply map_eq. intros j. destruct (decide (k = j)) as [->|Hne].
  - by rewrite lookup_partial_alter_eq, lookup_insert_eq.
  - by rewrite lookup_partial_alter_ne, lookup_insert_ne.
Qed.

Lemma table_insert_follows t now addr services : table_ok t → canonical addr →
  follows t (map_insert (preferable_services t) now addr services (by_addr t))
    (table_insert now addr services t).
Proof.
  intros Hok Ca. unfold table_insert, map_insert. destruct (by_addr t !! addr) as [old|] eqn:E.
  - pose proof (proj1 Hok _ _ E) as [Ea _].
    apply follows_replace; [done..|]. apply partial_alter_insert. by rewrite E.
  - apply follows_insert; [done..|]. apply partial_alter_insert. cbn [node_addr]. by rewrite E.
Qed.

Lemma insert_entry_follows t e : table_ok t →
  follows t (map_entry (preferable_services t) (by_addr t) e) (insert_entry t e).
Proof.
  intros Hok. unfold insert_entry, map_entry. cbn [node_addr node_time node_services].
  destruct (by_addr t !! _) as [old|] eqn:E.
  - pose proof (proj1 Hok _ _ E) as [Ea _]. destruct (node_time old <? ae_timestamp e) eqn:Et.
    + apply follows_replace; [done..|]. apply partial_alter_insert. by rewrite E, Et.
    + rewrite (partial_alter_insert _ _ _ old) by by rewrite E, Et.
      rewrite insert_id by done. by apply follows_same.
  - apply follows_insert; [done|done|apply socket_addr_new_canonical|].
    apply partial_alter_insert. cbn [node_addr]. by rewrite E.
Qed.

Lemma insert_many_follows t l : table_ok t →
  follows t (foldl (map_entry (preferable_services t)) (by_addr t) l)
    (foldl (λ t e, t ← t; insert_entry t e) (Some t) l).
Proof.
  revert t. induction l as [|e l IH]; intros t Hok; [by apply follows_same|]. simpl.
  destruct (insert_entry_follows t e Hok) as (t1 & -> & Hok1 & <- & Ep). rewrite <-Ep.
  destruct (IH t1 Hok1) as (t' & ? & ? & ? & ?). exists t'. by rewrite <-Ep.
Qed.

Lemma follows_alter t addr old f : table_ok t → by_addr t !! addr = Some old →
  node_addr (f old) = node_addr old →
  follows t (alter f addr (by_addr t)) (replace_node t addr old (f old)).
Proof.
  intros Hok E Ef. pose proof (proj1 Hok _ _ E) as [Ea _].
  apply follows_replace; [done|done|congruence|]. apply map_eq. intros j.
  destruct (decide (addr = j)) as [->|Hne].
  - by rewrite lookup_alter_eq, lookup_insert_eq, E.
  - by rewrite lookup_alter_ne, lookup_insert_ne.
Qed.

Lemma alter_none {K V} `{Countable K} (m : gmap K V) k f : m !! k = None → alter f k m = m.
Proof.
  intros E. apply map_eq. intros j. destruct (decide (k = j)) as [->|Hne].
  - by rewrite lookup_alter_eq, E.
  - by rewrite lookup_alter_ne.
Qed.

(** Every operation follows the map, provided the failure counter of a node is
    not at the end of its range. *)
Lemma table_op_follows {P : Profile} t o : table_ok t → op_canonical o →
  (∀ a n, by_addr t !! a = Some n → 0 ≤ node_failures n < 2 ^ 32 - 1) →
  follows t (map_op (preferable_services t) (by_addr t) o) (table_op t o).
Proof.
  intros Hok Ho Hf. destruct o as [now addr sv|now addr sv|addr|now l|now addr|addr]; cbn [map_op table_op].
  - by apply table_insert_follows.
  - unfold table_add, table_exists. case_decide as Hs.
    + rewrite bool_decide_true by done. by apply follows_same.
    + rewrite bool_decide_false by done.
      by destruct (table_insert_follows t now addr sv Hok Ho) as (t' & -> & ?); exists t'.
  - destruct (table_remove_ok t addr Hok) as (? & ? & ? & _). by eexists.
  - by apply insert_many_follows.
  - unfold note_used. destruct (by_addr t !! addr) as [n|] eqn:E.
    + by apply (follows_alter t addr n (λ n, with_time_services now (node_services n) n)).
    + rewrite alter_none by done. by apply follows_same.
  - unfold note_failure. destruct (by_addr t !! addr) as [n|] eqn:E.
    + pose proof (Hf _ _ E). rewrite u32_add_fits by (unfold fits; lia). cbn [mbind option_bind].
      by apply (follows_alter t addr n (λ n, mkNode (node_addr n) (node_time n) (node_services n)
        (node_is_preferable n) (node_failures n + 1))).
    + rewrite alter_none by done. by apply follows_same.
Qed.

(** Counters grow by at most one an operation. *)
Definition failures_below (k : Z) (m : gmap SocketAddr Node) : Prop :=
  ∀ a n, m !! a = Some n → 0 ≤ node_failures n ≤ k.

Lemma failures_partial_alter k m addr f : 0 ≤ k → failures_below k m →
  (∀ n, f None = Some n → node_failures n = 0) →
  (∀ old n, f (Some old) = Some n → node_failures n = node_failures old) →
  failures_below k (partial_alter f addr m).
Proof.
  intros Hk Hm Hn Hs a n. destruct (decide (addr = a)) as [->|Hne].
  - rewrite lookup_partial_alter_eq. destruct (m !! a) as [old|] eqn:E.
    + intros Ef. rewrite (Hs _ _ Ef). by eapply Hm.
    + intros Ef. rewrite (Hn _ Ef). lia.
  - rewrite lookup_partial_alter_ne by done. apply Hm.
Qed.

Lemma map_op_failures pref k m o : 0 ≤ k → failures_below k m →
  failures_below (k + 1) (map_op pref m o).
Proof.
  intros Hk Hm.
  assert (∀ now addr sv m, failures_below k m → failures_below k (map_insert pref now addr sv m)) as Hi.
  { intros now addr sv m' Hm'. apply failures_partial_alter; [done|done|by intros n [= <-]|].
    by intros old n [= <-]. }
  assert (∀ m, failures_below k m → failures_below (k + 1) m) as Hle.
  { intros m' Hm' a n E. specialize (Hm' a n E). lia. }
  destruct o as [now addr sv|now addr sv|addr|now l|now addr|addr]; cbn [map_op].
  - apply Hle, Hi, Hm.
  - case_decide; [by apply Hle|]. apply Hle, Hi, Hm.
  - apply Hle. intros a n. rewrite lookup_delete_Some. intros [_ E]. by eapply Hm.
  - apply Hle. generalize (filter (λ e, ae_timestamp e ≤ now) l). intros l'. revert m Hm.
    induction l' as [|e l' IH]; intros m Hm; [done|]. cbn [foldl]. apply IH.
    apply failures_partial_alter; [done|done|by intros n [= <-]|].
    intros old n. case_match; by intros [= <-].
  - apply Hle. intros a n. rewrite lookup_alter_Some.
    intros [(-> & old & E & ->)|[_ E]]; exact (Hm _ _ E).
  - intros a n. rewrite lookup_alter_Some. intros [(-> & old & E & ->)|[_ E]].
    + specialize (Hm _ _ E). cbn [node_failures]. lia.
    + specialize (Hm _ _ E). lia.
Qed.

Lemma table_ok_new services : table_ok (node_table_new services).
Proof.
  unfold node_table_new. split; [intros a n; cbn [by_addr]; by rewrite lookup_empty|].
  split; (split; [constructor|intros n; cbn [by_addr by_score by_time]; rewrite lookup_empty; set_solver]).
Qed.

Lemma table_ops_follow {P : Profile} ops t k : table_ok t → 0 ≤ k → failures_below k (by_addr t) →
  k + Z.of_nat (length ops) < 2 ^ 32 → Forall op_canonical ops →
  follows t (foldl (map_op (preferable_services t)) (by_addr t) ops)
    (foldl (λ t o, t ← t; table_op t o) (Some t) ops).
Proof.
  revert t k. induction ops as [|o ops IH]; intros t k Hok Hk Hf Hlen Hc; [by apply follows_same|].
  apply list.Forall_cons in Hc as [Ho Hc]. cbn [length] in Hlen. cbn [foldl].
  destruct (table_op_follows t o Hok Ho) as (t1 & E1 & Hok1 & Em & Ep).
  { intros a n E. specialize (Hf a n E). lia. }
  cbn [mbind option_bind]. rewrite E1. rewrite <-Em, <-Ep.
  destruct (IH t1 (k + 1) Hok1) as (t' & ? & ? & ? & ?); [lia| |lia|done|].
  - rewrite Em. by apply map_op_failures.
  - exists t'. by rewrite <-Ep.
Qed.

(** ** Queries *)

(** The nodes of the map. *)
Definition table_nodes (t : NodeTable) : list Node := (map_to_list (by_addr t)).*2.

Lemma table_nodes_addrs t : map_ok (by_addr t) →
  node_addr <$> table_nodes t = (map_to_list (by_addr t)).*1.
Proof.
  intros Hm. unfold table_nodes. rewrite <-list_fmap_compose. apply list_fmap_ext. intros i [a n] E. cbn.
  apply list_elem_of_lookup_2, elem_of_map_to_list in E. by apply Hm in E as [? _].
Qed.

Lemma set_of_permutation (cmp : Node → Node → comparison) {O : NodeOrder cmp} t l :
  map_ok (by_addr t) → set_of cmp (by_addr t) l → l ≡ₚ table_nodes t.
Proof.
  intros Hm [Hs Hl]. apply NoDup_Permutation.
  - exact (btree_nodup cmp l Hs).
  - apply (NoDup_fmap_1 node_addr). rewrite table_nodes_addrs by done. apply NoDup_fst_map_to_list.
  - intros n. rewrite Hl. unfold table_nodes. rewrite list_elem_of_fmap. split.
    + intros E. exists (node_addr n, n). split; [done|]. by apply elem_of_map_to_list.
    + intros ([a n'] & -> & E). apply elem_of_map_to_list in E. cbn.
      by apply Hm in E as Ha; destruct Ha as [-> _].
Qed.

(** [l] is the first [limit] nodes, in the order [cmp], of those of the table
    with [P]. *)
Definition best (cmp : Node → Node → comparison) (P : Node → Prop) `{∀ n, Decision (P n)}
    (limit : nat) (t : NodeTable) (l : list Node) : Prop :=
  ∃ all, btree cmp all ∧ all ≡ₚ filter P (table_nodes t) ∧ l = take limit all.

Lemma set_of_best cmp {O : NodeOrder cmp} P `{∀ n, Decision (P n)} limit t l :
  map_ok (by_addr t) → set_of cmp (by_addr t) l → best cmp P limit t (take limit (filter P l)).
Proof.
  intros Hm Hs. exists (filter P l). split_and!; [|by rewrite (set_of_permutation cmp t l Hm Hs)|done].
  apply (btree_filter cmp), Hs.
Qed.

(** C38: the node table is its map of nodes by address, whatever is done to it.
    After any sequence of fewer than [2 ^ 32] operations, in which addresses
    given to [insert] and [add] have no flow label and scope, no assertion has
    failed; the map is what the operations on the map alone give; and the two
    ordered sets hold exactly its nodes: [nodes_with_services] returns the
    first [limit], by failures, then preference, then time, of all nodes of
    the map that speak the protocol, offer the services and are not excluded,
    and [recently_active_nodes] the thousand nodes of the protocol seen last. *)
Theorem node_table_refines {P : Profile} (services : Services) (ops : list TableOp) :
  Z.of_nat (length ops) < 2 ^ 32 → Forall op_canonical ops →
  ∃ t, foldl (λ t o, t ← t; table_op t o) (Some (node_table_new services)) ops = Some t ∧
    by_addr t = foldl (map_op services) ∅ ops ∧
    (∀ wanted protocol except limit,
      best score_cmp (λ n, eligible wanted protocol except n) limit t
        (nodes_with_services wanted protocol except limit t)) ∧
    (∀ protocol,
      best time_cmp (λ n, protocol_is_allowed protocol (node_addr n)) 1000 t
        (recently_active_nodes protocol t)).
Proof.
  intros Hlen Hc.
  destruct (table_ops_follow ops (node_table_new services) 0 (table_ok_new services))
    as (t & E & (Hm & Hs & Ht) & Em & _); [lia| |lia|done|].
  { intros a n. cbn. by rewrite lookup_empty. }
  exists t. split_and!; [done|done| |].
  - intros. by apply (set_of_best score_cmp).
  - intros. by apply (set_of_best time_cmp).
Qed.

(** Two lists in order with the same elements are equal. *)
Lemma btree_unique {X} (cmp : X → X → comparison) {L : CmpLaws cmp} l l' :
  btree cmp l → btree cmp l' → (∀ x, x ∈ l ↔ x ∈ l') → l = l'.
Proof.
  intros Hl. revert l'. induction Hl as [|x l Hl IH Hx]; intros l' Hl' E.
  - destruct l' as [|y l']; [done|]. destruct (not_elem_of_nil y). apply E. set_solver.
  - destruct Hl' as [|y l' Hl' Hy]; [destruct (not_elem_of_nil x); apply E; set_solver|].
    rewrite list.Forall_forall in Hx, Hy.
    assert (x = y) as <-.
    { assert (x ∈ y :: l') as Hxy by (apply E; set_solver).
      assert (y ∈ x :: l) as Hyx by (apply E; set_solver).
      apply elem_of_cons in Hxy as [|Hxy]; [done|]. apply elem_of_cons in Hyx as [|Hyx]; [done|].
      pose proof (Hx _ Hyx) as E1. pose proof (Hy _ Hxy) as E2. rewrite (cmp_swap x y), E1 in E2. done. }
    f_equal. apply IH; [done|]. intros z. specialize (E z). rewrite !elem_of_cons in E.
    split; intros Hz.
    + destruct (proj1 E (or_intror Hz)) as [->|]; [|done].
      specialize (Hx x Hz). by rewrite (cmp_refl cmp) in Hx.
    + destruct (proj2 E (or_intror Hz)) as [->|]; [|done].
      specialize (Hy x Hz). by rewrite (cmp_refl cmp) in Hy.
Qed.

(** The table is determined by its map. *)
Lemma table_ok_unique t t' : table_ok t → table_ok t' → by_addr t = by_addr t' →
  preferable_services t = preferable_services t' → t = t'.
Proof.
  intros (_ & [Hs Es] & [Ht Et]) (_ & [Hs' Es'] & [Ht' Et']) Em Ep.
  destruct t as [p m s l], t' as [p' m' s' l']; cbn in *. subst p' m'.
  rewrite (btree_unique score_cmp s s'), (btree_unique time_cmp l l'); [done|done..| |done|done|];
    intros n; [by rewrite Et, Et'|by rewrite Es, Es'].
Qed.

(** The node of a row. *)
Definition row_node (pref : Services) (row : Row) : Node :=
  let '(addr, time, services, failures) := row in
  mkNode addr time services (includes services pref) failures.

Lemma load_rows_ok rows t : table_ok t →
  NoDup (node_addr ∘ row_node (preferable_services t) <$> rows) →
  (∀ row, row ∈ rows → canonical (node_addr (row_node (preferable_services t) row)) ∧
    by_addr t !! node_addr (row_node (preferable_services t) row) = None) →
  let t' := foldl load_row t rows in
  table_ok t' ∧ preferable_services t' = preferable_services t ∧
  ∀ a n, by_addr t' !! a = Some n ↔
    by_addr t !! a = Some n ∨ (a = node_addr n ∧ ∃ row, row ∈ rows ∧ n = row_node (preferable_services t) row).
Proof.
  revert t. induction rows as [|row rows IH]; intros t Hok Hnd Hrows.
  { split_and!; [done|done|]. intros a n. cbn. set_solver. }
  rewrite fmap_cons in Hnd. apply list.NoDup_cons in Hnd as [Hnin Hnd].
  cbn [foldl]. assert (load_row t row = insert_node t (row_node (preferable_services t) row)) as ->.
  { by destruct row as [[[? ?] ?] ?]. }
  set (n0 := row_node (preferable_services t) row) in *.
  destruct (Hrows row) as [Hc Hn]; [set_solver|]. fold n0 in Hc, Hn.
  destruct (IH (insert_node t n0)) as (Hok' & Ep & Em); [by apply insert_node_ok|done| |].
  { intros r Hr. cbn [preferable_services insert_node by_addr].
    destruct (Hrows r) as [Hcr Hnr]; [set_solver|]. split; [done|].
    rewrite lookup_insert_ne; [done|]. intros Ea. apply Hnin.
    change ((node_addr ∘ row_node (preferable_services t)) row) with (node_addr n0). rewrite Ea.
    by apply (list_elem_of_fmap_2 (node_addr ∘ row_node (preferable_services t))). }
  split_and!; [done|done|]. intros a n. rewrite Em. cbn [preferable_services insert_node by_addr].
  rewrite lookup_insert_Some. split.
  - intros [[[<- <-]|[_ E]]|(-> & r & Hr & ->)]; [right|by left|right].
    + split; [done|]. exists row. split; [set_solver|done].
    + split; [done|]. exists r. split; [set_solver|done].
  - intros [E|(-> & r & Hr & ->)].
    + left. right. split; [|done]. intros <-. congruence.
    + apply elem_of_cons in Hr as [->|Hr]; [by left; left|].
      right. split; [done|]. by exists r.
Qed.

(** What was written is read back. *)
Class CsvLaws (C : Csv) : Prop := csv_roundtrip rows : csv_read (csv_write rows) = Some rows.

(** The preference of a node by its services, as [load] computes it. *)
Definition refreshed (pref : Services) (n : Node) : Node :=
  mkNode (node_addr n) (node_time n) (node_services n) (includes (node_services n) pref) (node_failures n).

(** The rows of a saved table have different addresses. *)
Lemma save_rows_addrs t pref : table_ok t →
  NoDup (node_addr ∘ row_node pref <$> save_rows t) ∧
  ∀ row, row ∈ save_rows t → canonical (node_addr (row_node pref row)).
Proof.
  intros (Hm & Hs & Ht). unfold save_rows. split.
  - rewrite <-list_fmap_compose. change (NoDup (node_addr <$> take 1000 (by_score t))).
    rewrite fmap_take. eapply sublist_NoDup; [|apply sublist_take].
    rewrite (set_of_permutation score_cmp t _ Hm Hs), table_nodes_addrs by done.
    apply NoDup_fst_map_to_list.
  - intros row Hr. apply list_elem_of_fmap in Hr as (n0 & -> & Hn0). cbn.
    apply (sublist_subseteq _ _ (sublist_take _ _)), Hs in Hn0. by apply Hm in Hn0 as [_ ?].
Qed.

(** A table that is saved and loaded again, for the same preferable
    services, holds the thousand best nodes of the saved one, each with its
    address, time, services and failures and its preference computed anew; the
    loaded table is again one whose sets follow its map; and it is the saved
    table itself when that had at most a thousand nodes whose preferences
    agree with their services. *)
Theorem node_table_save_load {C : Csv} {CL : CsvLaws C} t : table_ok t →
  ∃ t', load (preferable_services t) (save t) = Some t' ∧ table_ok t' ∧
    (∀ a n, by_addr t' !! a = Some n ↔
      a = node_addr n ∧
      ∃ n0, n0 ∈ take 1000 (by_score t) ∧ n = refreshed (preferable_services t) n0) ∧
    ((size (by_addr t) ≤ 1000)%nat →
     (∀ a n, by_addr t !! a = Some n →
        node_is_preferable n = includes (node_services n) (preferable_services t)) → t' = t).
Proof.
  intros Hok. pose proof Hok as (Hm & Hs & Ht). unfold load, save. rewrite csv_roundtrip.
  set (pref := preferable_services t). cbn [mbind option_bind].
  assert (∀ n0, row_node pref (node_addr n0, node_time n0, node_services n0, node_failures n0)
    = refreshed pref n0) as Er by done.
  destruct (load_rows_ok (save_rows t) (node_table_new pref) (table_ok_new pref)) as (Hok' & Ep & Em).
  - by apply (save_rows_addrs t pref).
  - intros row Hr. split; [by apply (save_rows_addrs t pref)|]. cbn. by rewrite lookup_empty.
  - set (t' := foldl load_row (node_table_new pref) (save_rows t)) in *.
    assert (∀ a n, by_addr t' !! a = Some n ↔ a = node_addr n ∧
      ∃ n0, n0 ∈ take 1000 (by_score t) ∧ n = refreshed pref n0) as Emap.
    { intros a n. rewrite Em. cbn. rewrite lookup_empty. split.
      - intros [?|(-> & row & Hr & ->)]; [done|]. apply list_elem_of_fmap in Hr as (n0 & -> & Hn0).
        split; [done|]. by exists n0.
      - intros (-> & n0 & Hn0 & ->). right. split; [done|].
        exists (node_addr n0, node_time n0, node_services n0, node_failures n0). split; [|done].
        apply list_elem_of_fmap. by exists n0. }
    exists t'. split_and!; [done|done|done|]. intros Hsize Hpref.
    apply table_ok_unique; [done|done| |by rewrite Ep]. apply map_eq. intros a.
    assert (length (by_score t) ≤ 1000)%nat as Hlen.
    { rewrite (set_of_permutation score_cmp t _ Hm Hs). unfold table_nodes.
      by rewrite length_fmap, length_map_to_list. }
    apply option_eq. intros n. rewrite Emap, take_ge by done. split.
    + intros (-> & n0 & Hn0 & ->). apply Hs in Hn0.
      assert (refreshed pref n0 = n0) as ->; [|done].
      unfold refreshed. rewrite <-(Hpref _ _ Hn0). by destruct n0.
    + intros E. destruct (Hm _ _ E) as [Ea _]. split; [done|]. exists n. rewrite <-Ea in E.
      split; [by apply Hs|]. unfold refreshed. rewrite <-(Hpref _ _ E). by destruct n.
Qed.

(** ** Where the table goes wrong *)

(** The preference of a node is computed once.  When a known node is
    inserted again with other services, as [insert] and [insert_many] do, the
    services are updated and the preference is not, so that a node that now
    offers the preferable services keeps its place behind those that always
    did. *)
Theorem stale_preference now addr services t old : table_ok t → canonical addr →
  by_addr t !! addr = Some old →
  includes services (preferable_services t) ≠ node_is_preferable old →
  ∃ t' n, table_insert now addr services t = Some t' ∧ by_addr t' !! addr = Some n ∧
    node_services n = services ∧
    node_is_preferable n ≠ includes (node_services n) (preferable_services t').
Proof.
  intros Hok Hc Ho Hne.
  destruct (table_insert_follows t now addr services Hok Hc) as (t' & E & _ & Em & Ep).
  exists t', (with_time_services now services old). split_and!; [done| |done|].
  - rewrite Em. unfold map_insert. by rewrite lookup_partial_alter_eq, Ho.
  - rewrite Ep. cbn. congruence.
Qed.

(** The orders do not look at the scope of an IPv6 address, but the map
    does.  Two nodes whose addresses differ only in the scope (the same
    link-local address on two interfaces), inserted in the same second, are
    two entries of the map and one of the sets, and once both have been used
    the assertion that a node is in its set fails: the node panics. *)
Theorem scopes_panic {P : Profile} ip port services now later last_use scope scope' pref :
  scope ≠ scope' → later ≠ now →
  let a := SA6 ip port 0 scope in
  let a' := SA6 ip port 0 scope' in
  foldl (λ t o, t ← t; table_op t o) (Some (node_table_new pref))
    [OpInsert now a services; OpInsert now a' services; OpUsed later a'; OpUsed last_use a] = None.
Proof.
  intros Hs Hl a a'. assert (a ≠ a') as Hne by (intros [=]; done).
  set (n := fresh_node pref a now services). set (n' := fresh_node pref a' now services).
  assert (score_cmp n' n = Eq ∧ time_cmp n' n = Eq) as [Es Et].
  { unfold score_cmp, time_cmp, node_cmp. cbn. rewrite Bool.eqb_reflx, !Z.eqb_refl.
    split; apply (cmp_refl lex_cmp). }
  set (n3 := with_time_services later services n').
  set (m1 := <[a := n]> (∅ : gmap SocketAddr Node)).
  assert (m1 !! a' = None) as E1 by (unfold m1; by rewrite lookup_insert_ne).
  assert (table_insert now a services (node_table_new pref) = Some (mkNodeTable pref m1 [n] [n])) as H1.
  { unfold table_insert. cbn [by_addr node_table_new]. rewrite lookup_empty. done. }
  assert (table_insert now a' services (mkNodeTable pref m1 [n] [n]) =
    Some (mkNodeTable pref (<[a' := n']> m1) [n] [n])) as H2.
  { unfold table_insert. cbn [by_addr]. rewrite E1. unfold insert_node.
    cbn [by_score by_time by_addr preferable_services btree_insert]. fold (fresh_node pref a' now services). fold n'. by rewrite Es, Et. }
  assert (note_used later a' (mkNodeTable pref (<[a' := n']> m1) [n] [n]) =
    Some (mkNodeTable pref (<[a' := n3]> (<[a' := n']> m1)) [n3] [n3])) as H3.
  { unfold note_used. cbn [by_addr]. rewrite lookup_insert_eq. unfold replace_node.
    cbn [by_score by_time by_addr btree_remove]. by rewrite Es, Et. }
  assert (score_cmp n n3 ≠ Eq) as Hns.
  { unfold score_cmp. cbn. rewrite Bool.eqb_reflx. rewrite (proj2 (Z.eqb_neq _ _)) by done.
    by rewrite Z.compare_eq_iff. }
  cbn [foldl mbind option_bind table_op]. rewrite H1. cbn [mbind option_bind]. rewrite H2.
  cbn [mbind option_bind]. rewrite H3. cbn [mbind option_bind]. unfold note_used. cbn [by_addr].
  rewrite !lookup_insert_ne by done. unfold m1. rewrite lookup_insert_eq. unfold replace_node.
  cbn [by_score btree_remove]. by destruct (score_cmp n n3).
Qed.

(** ** Runs *)

Definition addr4 (a b c d port : Z) : SocketAddr :=
  SA4 [byte_of a; byte_of b; byte_of c; byte_of d] port.

Definition example_ops : list TableOp :=
  [OpInsert 1 (addr4 10 0 0 1 8333) 1; OpInsert 2 (addr4 10 0 0 2 8333) 0;
   OpInsertMany 5 [mkAddressEntry 4 (mkNetAddress 1 (V4 (byte_of <$> [10; 0; 0; 3])) 8333);
                   mkAddressEntry 9 (mkNetAddress 1 (V4 (byte_of <$> [10; 0; 0; 4])) 8333)];
   OpFailure (addr4 10 0 0 1 8333); OpUsed 7 (addr4 10 0 0 2 8333); OpRemove (addr4 9 9 9 9 1)].

Definition release : Profile := false.

Lemma node_table_refines_witness :
  Z.of_nat (length example_ops) < 2 ^ 32 ∧
  ∃ t, foldl (λ t o, t ← t; table_op (P:=release) t o) (Some (node_table_new 1)) example_ops = Some t ∧
    by_addr t = foldl (map_op 1) ∅ example_ops ∧
    node_addr <$> nodes_with_services 0 AnyProtocol ∅ 2 t = [addr4 10 0 0 3 8333; addr4 10 0 0 2 8333].
Proof.
  split; [reflexivity|].
  destruct (node_table_refines (P:=release) 1 example_ops) as (t & E & Em & _);
    [reflexivity|repeat constructor|].
  exists t. split; [exact E|]. split; [exact Em|].
  assert (foldl (λ t o, t ← t; table_op (P:=release) t o) (Some (node_table_new 1)) example_ops ≫=
    (λ t, Some (node_addr <$> nodes_with_services 0 AnyProtocol ∅ 2 t)) =
    Some [addr4 10 0 0 3 8333; addr4 10 0 0 2 8333]) as Eq by (vm_compute; reflexivity).
  rewrite E in Eq. cbn in Eq. injection Eq as Eq. exact Eq.
Defined.

(** A file that is the number of its rows. *)
Definition example_csv : Csv := {|
  csv_write rows := le_bytes (Z.to_nat (Z.pos (encode rows))) (Z.pos (encode rows));
  csv_read file := decode (Z.to_pos (le_val file));
|}.

Lemma example_csv_laws : CsvLaws example_csv.
Proof.
  intros rows. cbn. rewrite le_val_le_bytes; [by rewrite Pos2Z.id, decode_encode|].
  unfold fits. split; [lia|]. rewrite Z2Nat.id by lia.
  eapply Z.lt_le_trans; [apply Z.pow_gt_lin_r with (a:=2)|]; [lia|lia|].
  apply Z.pow_le_mono_r; lia.
Qed.

Definition example_table : NodeTable :=
  insert_node (insert_node (node_table_new 1) (fresh_node 1 (addr4 10 0 0 1 8333) 1 1))
    (mkNode (addr4 10 0 0 2 8333) 2 1 false 0).

Lemma example_table_ok : table_ok example_table.
Proof. repeat apply insert_node_ok; [apply table_ok_new|reflexivity|done|reflexivity|done]. Qed.

Lemma node_table_save_load_witness :
  ∃ t', load (C:=example_csv) (preferable_services example_table) (save (C:=example_csv) example_table) = Some t' ∧
    by_addr t' !! addr4 10 0 0 2 8333 = Some (mkNode (addr4 10 0 0 2 8333) 2 1 true 0).
Proof.
  destruct (@node_table_save_load example_csv example_csv_laws example_table example_table_ok)
    as (t' & E & _ & Em & _).
  exists t'. split; [exact E|]. apply Em. split; [reflexivity|].
  exists (mkNode (addr4 10 0 0 2 8333) 2 1 false 0). split; [|reflexivity].
  apply (bool_decide_unpack _). vm_compute. exact I.
Defined.

Lemma stale_preference_witness :
  ∃ t' n, table_insert 3 (addr4 10 0 0 2 8333) 1 example_table = Some t' ∧
    by_addr t' !! addr4 10 0 0 2 8333 = Some n ∧ node_services n = 1 ∧
    node_is_preferable n ≠ includes (node_services n) (preferable_services t').
Proof.
  apply (stale_preference 3 (addr4 10 0 0 2 8333) 1 example_table (mkNode (addr4 10 0 0 2 8333) 2 1 false 0)).
  - exact example_table_ok.
  - exact I.
  - vm_compute. reflexivity.
  - vm_compute. discriminate.
Defined.

Lemma scopes_panic_witness :
  foldl (λ t o, t ← t; table_op (P:=release) t o) (Some (node_table_new 1))
    [OpInsert 5 (SA6 [0xfe80; 0; 0; 0; 0; 0; 0; 1] 8333 0 2) 1;
     OpInsert 5 (SA6 [0xfe80; 0; 0; 0; 0; 0; 0; 1] 8333 0 3) 1;
     OpUsed 6 (SA6 [0xfe80; 0; 0; 0; 0; 0; 0; 1] 8333 0 3);
     OpUsed 7 (SA6 [0xfe80; 0; 0; 0; 0; 0; 0; 1] 8333 0 2)] = None.
Proof. apply (scopes_panic (P:=release) _ 8333 1 5 6 7 2 3 1); discriminate. Defined.
