(* ===== verification/Responses.v ===== *)
(** * Answering in order ([p2p/src/util/synchronizer.rs], [response_queue.rs],
    [net/peer_context.rs])

    A request that will be answered declares its response and gets an id; when
    the answer is ready it is sent if it is its turn and queued otherwise.
    The theorem of this file is that a peer gets the answers in the order of
    its requests, whatever the order in which they become ready.  The model
    records the messages in the order in which their sending is started. *)

From S2P Require Import Prelude External Primitives Serialization Compact Crypto Chain Network Utf8.
From S2P Require Import Message MessageTypes MessageIo.
From stdpp Require Import gmap.
#[local] Open Scope Z_scope.

(** ** Synchronizers *)

(** src: p2p/src/util/synchronizer.rs 10-19 Synchronizer *)
Class Synchronizer (S : Type) := {
  declare_response : S → Z * S;
  is_permitted : S → Z → bool;
  permission_for_response : S → Z → bool * S;
}.

(** [overflowing_add(1).0], [overflowing_sub(n).0] *)
Definition next_id (id : Z) : Z := wrap 32 (id + 1).

(** src: p2p/src/util/synchronizer.rs 22-26 FifoSynchronizer *)
Record FifoSynchronizer := mkFifo { fifo_declared_responses : Z; fifo_next_to_grant : Z }.

(** src: p2p/src/util/synchronizer.rs 28-49 FifoSynchronizer *)
#[global] Instance fifo_synchronizer : Synchronizer FifoSynchronizer := {|
  declare_response s :=
    let result := fifo_declared_responses s in
    (result, mkFifo (next_id (fifo_declared_responses s)) (fifo_next_to_grant s));
  is_permitted s id := id =? fifo_next_to_grant s;
  permission_for_response s id :=
    if id =? fifo_next_to_grant s then
      (true, mkFifo (fifo_declared_responses s) (next_id (fifo_next_to_grant s)))
    else (false, s);
|}.

(** src: p2p/src/util/synchronizer.rs 52-55 NoopSynchronizer *)
Record NoopSynchronizer := mkNoop { noop_declared_responses : Z }.

(** src: p2p/src/util/synchronizer.rs 57-71 NoopSynchronizer *)
#[global] Instance noop_synchronizer : Synchronizer NoopSynchronizer := {|
  declare_response s :=
    let result := noop_declared_responses s in (result, mkNoop (next_id (noop_declared_responses s)));
  is_permitted s _ := true;
  permission_for_response s _ := (true, s);
|}.

(** src: p2p/src/util/synchronizer.rs 77-82 ThresholdSynchronizer *)
Record ThresholdSynchronizer := mkThreshold {
  thr_inner : FifoSynchronizer;
  thr_to_grant_min : Z;
  thr_to_grant_max : Z;
}.

(** src: p2p/src/util/synchronizer.rs 85-94 new *)
Definition threshold_new (declared threshold : Z) : ThresholdSynchronizer :=
  mkThreshold (mkFifo declared declared) (wrap 32 (declared - threshold)) declared.

(** src: p2p/src/util/synchronizer.rs 96-104 within_threshold *)
Definition within_threshold (s : ThresholdSynchronizer) (id : Z) : bool :=
  if thr_to_grant_min s <=? thr_to_grant_max s then
    (thr_to_grant_min s <=? id) && (id <? thr_to_grant_max s)
  else (thr_to_grant_min s <=? id) || (id <? thr_to_grant_max s).

(** [||] does not look at the threshold when the inner one permits. *)
(** src: p2p/src/util/synchronizer.rs 107-119 ThresholdSynchronizer *)
#[global] Instance threshold_synchronizer : Synchronizer ThresholdSynchronizer := {|
  declare_response s :=
    let '(id, inner) := declare_response (thr_inner s) in
    (id, mkThreshold inner (thr_to_grant_min s) (thr_to_grant_max s));
  is_permitted s id := is_permitted (thr_inner s) id || within_threshold s id;
  permission_for_response s id :=
    let '(permitted, inner) := permission_for_response (thr_inner s) id in
    (permitted || within_threshold s id, mkThreshold inner (thr_to_grant_min s) (thr_to_grant_max s));
|}.

(** src: p2p/src/util/synchronizer.rs 121-125 InnerSynchronizer *)
Inductive ConfigurableSynchronizer :=
| Noop (s : NoopSynchronizer)
| Threshold (s : ThresholdSynchronizer).

(** src: p2p/src/util/synchronizer.rs 3-3 CONFIGURABLE_SYNCHRONIZER_THRESHOLD *)
Definition CONFIGURABLE_SYNCHRONIZER_THRESHOLD : Z := 10.

(** src: p2p/src/util/synchronizer.rs 128-134 new *)
Definition configurable_new (sync : bool) : ConfigurableSynchronizer :=
  if sync then Threshold (threshold_new 0 0) else Noop (mkNoop 0).

(** src: p2p/src/util/synchronizer.rs 158-176 change_sync_policy *)
Definition change_sync_policy (s : ConfigurableSynchronizer) (sync : bool) : ConfigurableSynchronizer :=
  match s with
  | Threshold t => if negb sync then Noop (mkNoop (fifo_declared_responses (thr_inner t))) else s
  | Noop n =>
      if sync then Threshold (threshold_new (noop_declared_responses n) CONFIGURABLE_SYNCHRONIZER_THRESHOLD)
      else s
  end.

(** src: p2p/src/util/synchronizer.rs 179-200 ConfigurableSynchronizer *)
#[global] Instance configurable_synchronizer : Synchronizer ConfigurableSynchronizer := {|
  declare_response s :=
    match s with
    | Noop n => let '(id, n) := declare_response n in (id, Noop n)
    | Threshold t => let '(id, t) := declare_response t in (id, Threshold t)
    end;
  is_permitted s id :=
    match s with Noop n => is_permitted n id | Threshold t => is_permitted t id end;
  permission_for_response s id :=
    match s with
    | Noop n => let '(p, n) := permission_for_response n id in (p, Noop n)
    | Threshold t => let '(p, t) := permission_for_response t id in (p, Threshold t)
    end;
|}.

(** ** The queue of responses that are not yet due *)

(** src: p2p/src/util/response_queue.rs 5-10 ResponseQueue *)
Record ResponseQueue := mkResponseQueue {
  unfinished : gmap Z (list (list byte));
  finished : gmap Z (list (list byte));
  ignored : gset Z;
}.

(** src: p2p/src/util/response_queue.rs 12-16 Responses *)
Inductive Responses :=
| Unfinished_responses (l : list (list byte))
| Finished_responses (l : list (list byte))
| Ignored_response.

Definition response_queue_default : ResponseQueue := mkResponseQueue ∅ ∅ ∅.

(** src: p2p/src/util/response_queue.rs 19-24 push_unfinished_response *)
Definition push_unfinished_response (id : Z) (response : list byte) (q : ResponseQueue) : ResponseQueue :=
  mkResponseQueue (<[id := default [] (unfinished q !! id) ++ [response]]> (unfinished q))
    (finished q) (ignored q).

(** src: p2p/src/util/response_queue.rs 26-34 push_finished_response *)
Definition push_finished_response (id : Z) (response : list byte) (q : ResponseQueue) :
    option ResponseQueue :=
  let responses := default [] (unfinished q !! id) ++ [response] in
  let previous := finished q !! id in
  _ ← rust_assert (bool_decide (previous = None));
  Some (mkResponseQueue (delete id (unfinished q)) (<[id := responses]> (finished q)) (ignored q)).

(** src: p2p/src/util/response_queue.rs 36-41 push_ignored_response *)
Definition push_ignored_response (id : Z) (q : ResponseQueue) : option ResponseQueue :=
  _ ← rust_assert (bool_decide (id ∉ ignored q));
  Some (mkResponseQueue (unfinished q) (finished q) ({[id]} ∪ ignored q)).

(** src: p2p/src/util/response_queue.rs 43-55 responses *)
Definition responses (id : Z) (q : ResponseQueue) : option Responses * ResponseQueue :=
  match unfinished q !! id with
  | Some l => (Some (Unfinished_responses l), mkResponseQueue (delete id (unfinished q)) (finished q) (ignored q))
  | None =>
      match finished q !! id with
      | Some l => (Some (Finished_responses l), mkResponseQueue (unfinished q) (delete id (finished q)) (ignored q))
      | None =>
          if decide (id ∈ ignored q)
          then (Some Ignored_response, mkResponseQueue (unfinished q) (finished q) (ignored q ∖ {[id]}))
          else (None, q)
      end
  end.

(** ** The context of a peer *)

(** [sent]: the messages whose sending was started, in the order in which the
    futures that write them were spawned.  The threads of the pool perform these
    futures; in which order their bytes reach the connection is the matter of
    [Wire.v].  [connected]: the peer's channel is still there. *)
(** src: p2p/src/net/peer_context.rs 9-15 PeerContext *)
Record PeerContext := mkPeerContext {
  pc_magic : Z;
  pc_version : Z;
  pc_connected : bool;
  pc_synchronizer : ConfigurableSynchronizer;
  pc_response_queue : ResponseQueue;
  pc_sent : list (list byte);
}.

(** src: p2p/src/net/peer_context.rs 18-26 new *)
Definition peer_context_new (magic version : Z) (synchronous : bool) : PeerContext :=
  mkPeerContext magic version true (configurable_new synchronous) response_queue_default [].

Definition set_sync (s : ConfigurableSynchronizer) (c : PeerContext) : PeerContext :=
  mkPeerContext (pc_magic c) (pc_version c) (pc_connected c) s (pc_response_queue c) (pc_sent c).
Definition set_queue (q : ResponseQueue) (c : PeerContext) : PeerContext :=
  mkPeerContext (pc_magic c) (pc_version c) (pc_connected c) (pc_synchronizer c) q (pc_sent c).
Definition add_sent (l : list (list byte)) (c : PeerContext) : PeerContext :=
  mkPeerContext (pc_magic c) (pc_version c) (pc_connected c) (pc_synchronizer c)
    (pc_response_queue c) (pc_sent c ++ l).

(** The messages are sent if the channel is still there: for each a future that
    writes it is spawned. *)
(** src: p2p/src/p2p.rs 456-468 send_message_to_peer *)
Definition send_message_to_peer (l : list (list byte)) (c : PeerContext) : PeerContext :=
  if pc_connected c then add_sent l c else c.

Section peer_context.
Context {H : Sha256Ops}.

(** src: p2p/src/net/peer_context.rs 28-34 to_message *)
Definition to_message {M} `{Payload M} (payload : M) (c : PeerContext) : option (list byte) :=
  match message_new (pc_magic c) (pc_version c) payload with Some (Ok bytes) => Some bytes | _ => None end.

(** src: p2p/src/p2p.rs 432-454 send_to_peer *)
Definition send_to_peer {M} `{Payload M} (payload : M) (c : PeerContext) : option PeerContext :=
  if pc_connected c then m ← to_message payload c; Some (add_sent [m] c) else Some c.

(** The loop; [None] stands for a failed assertion or for [fuel] running out:
    every round that goes on takes an entry out of the queue. *)
(** src: p2p/src/net/peer_context.rs 43-76 send_awaiting *)
Fixpoint send_awaiting_loop (fuel : nat) (id : Z) (c : PeerContext) : option PeerContext :=
  match fuel with
  | O => None
  | S fuel =>
      let id := next_id id in
      let '(r, queue) := responses id (pc_response_queue c) in
      let c := set_queue queue c in
      match r with
      | Some (Finished_responses messages) =>
          let '(permitted, sync) := permission_for_response (pc_synchronizer c) id in
          _ ← rust_assert permitted;
          send_awaiting_loop fuel id (send_message_to_peer messages (set_sync sync c))
      | Some Ignored_response =>
          let '(permitted, sync) := permission_for_response (pc_synchronizer c) id in
          _ ← rust_assert permitted;
          send_awaiting_loop fuel id (set_sync sync c)
      | Some (Unfinished_responses messages) =>
          _ ← rust_assert (is_permitted (pc_synchronizer c) id);
          Some (send_message_to_peer messages c)
      | None => Some c
      end
  end.

(** src: p2p/src/net/peer_context.rs 36-77 send_awaiting *)
Definition send_awaiting (start_id : Z) (c : PeerContext) : option PeerContext :=
  let q := pc_response_queue c in
  send_awaiting_loop (S (size (finished q) + size (ignored q))) start_id c.

(** The future that writes the message is spawned. *)
(** src: p2p/src/net/peer_context.rs 80-86 send_request *)
Definition send_request {M} `{Payload M} (payload : M) (c : PeerContext) : option PeerContext :=
  send_to_peer payload c.

(** src: p2p/src/net/peer_context.rs 88-92 declare_response *)
Definition pc_declare_response (c : PeerContext) : Z * PeerContext :=
  let '(d, sync) := declare_response (pc_synchronizer c) in (d, set_sync sync c).

(** src: p2p/src/net/peer_context.rs 103-111 ignore_response *)
Definition ignore_response (id : Z) (c : PeerContext) : option PeerContext :=
  let '(permitted, sync) := permission_for_response (pc_synchronizer c) id in
  let c := set_sync sync c in
  if permitted then send_awaiting id c
  else queue ← push_ignored_response id (pc_response_queue c); Some (set_queue queue c).

(** src: p2p/src/net/peer_context.rs 114-140 send_response *)
Definition send_response {M} `{Payload M} (payload : M) (id : Z) (is_final : bool) (c : PeerContext) :
    option PeerContext :=
  if is_final then
    let '(permitted, sync) := permission_for_response (pc_synchronizer c) id in
    let c := set_sync sync c in
    if permitted then c ← send_to_peer payload c; send_awaiting id c
    else
      m ← to_message payload c;
      queue ← push_finished_response id m (pc_response_queue c);
      Some (set_queue queue c)
  else if is_permitted (pc_synchronizer c) id then send_to_peer payload c
  else m ← to_message payload c; Some (set_queue (push_unfinished_response id m (pc_response_queue c)) c).

(** src: p2p/src/net/peer_context.rs 94-100 send_response_inline *)
Definition send_response_inline {M} `{Payload M} (payload : M) (c : PeerContext) : option PeerContext :=
  let '(id, c) := pc_declare_response c in send_response payload id true c.
End peer_context.

(** ** Histories *)

(** A message of some type. *)
Record AnyMessage := mkAny { am_type : Type; am_payload : Payload am_type; am_value : am_type }.

(** What happens to a peer's context: a request declares its response; a
    message of the response of the [g]-th request is ready, its last one if
    [final]; the [g]-th request will not be answered. *)
Inductive Event :=
| Request
| Respond (g : nat) (m : AnyMessage) (final : bool)
| Ignore (g : nat).

Section histories.
Context {H : Sha256Ops}.

(** The [g]-th response is known by the id its declaration returned. *)
Definition run_event (s : option (PeerContext * list Z)) (e : Event) : option (PeerContext * list Z) :=
  '(c, ids) ← s;
  match e with
  | Request => let '(id, c) := pc_declare_response c in Some (c, ids ++ [id])
  | Respond g m final =>
      id ← ids !! g;
      c ← send_response (H0:=am_payload m) (am_value m) id final c;
      Some (c, ids)
  | Ignore g => id ← ids !! g; c ← ignore_response id c; Some (c, ids)
  end.

Variables (magic version : Z).

Definition bytes_of (m : AnyMessage) : list byte :=
  match @message_new H _ (am_payload m) magic version (am_value m) with Some (Ok bytes) => bytes | _ => [] end.

(** The messages of the [g]-th response, and what became of it. *)
Definition event_msgs (g : nat) (e : Event) : list (list byte) :=
  match e with Respond g' m _ => if decide (g' = g) then [bytes_of m] else [] | _ => [] end.
Definition msgs_of (h : list Event) (g : nat) : list (list byte) := concat (event_msgs g <$> h).

Inductive Status := SOpen | SFinal | SIgnored.
#[global] Instance Status_eq_dec : EqDecision Status.
Proof. solve_decision. Defined.

Definition event_status (g : nat) (e : Event) (s : Status) : Status :=
  match s, e with
  | SOpen, Respond g' _ true => if decide (g' = g) then SFinal else SOpen
  | SOpen, Ignore g' => if decide (g' = g) then SIgnored else SOpen
  | _, _ => s
  end.
Definition status (h : list Event) (g : nat) : Status := foldl (λ s e, event_status g e s) SOpen h.

Definition is_declare (e : Event) : bool := match e with Request => true | _ => false end.
Definition declared (h : list Event) : nat := length (filter (λ e, is_declare e) h).

(** The next event is one the program can cause: there are fewer than [2 ^ 32]
    requests after the oldest open one; a response is declared before it is
    given and not given after its end; its messages can be serialized; and a
    response that was begun out of turn is not ignored. *)
Definition event_ok (h : list Event) (e : Event) : Prop :=
  match e with
  | Request => ∀ g, (g < declared h)%nat → status h g = SOpen →
      Z.of_nat (declared h) - Z.of_nat g < 2 ^ 32 - 1
  | Respond g m _ => (g < declared h)%nat ∧ status h g = SOpen ∧
      is_Some (bytes ← @message_new H _ (am_payload m) magic version (am_value m);
               match bytes with Ok b => Some b | Err _ => None end)
  | Ignore g => (g < declared h)%nat ∧ status h g = SOpen ∧
      (msgs_of h g = [] ∨ ∀ g', (g' < g)%nat → status h g' ≠ SOpen)
  end.

Inductive history : list Event → Prop :=
| history_nil : history []
| history_snoc h e : history h → event_ok h e → history (h ++ [e]).

Lemma msgs_of_snoc h e g : msgs_of (h ++ [e]) g = msgs_of h g ++ event_msgs g e.
Proof. unfold msgs_of. rewrite fmap_app, concat_app. simpl. by rewrite app_nil_r. Qed.

Lemma status_snoc h e g : status (h ++ [e]) g = event_status g e (status h g).
Proof. unfold status. by rewrite foldl_snoc. Qed.

Lemma declared_snoc h e : declared (h ++ [e]) = (declared h + if is_declare e then 1 else 0)%nat.
Proof.
  unfold declared. rewrite filter_app, length_app. f_equal. by destruct e.
Qed.

(** Nothing is said of a response before it is declared. *)
Lemma history_fresh h g : history h → (declared h ≤ g)%nat → msgs_of h g = [] ∧ status h g = SOpen.
Proof.
  induction 1 as [|h e Hh IH He]; intros Hg; [done|]. rewrite declared_snoc in Hg.
  destruct IH as [IHm IHs]; [lia|]. rewrite msgs_of_snoc, status_snoc, IHm, IHs.
  destruct e as [|g' m []|g']; cbn in He |- *; try done; rewrite !decide_False; try done;
    intros ->; lia.
Qed.

(** ** Ids *)

Definition wid (g : nat) : Z := wrap 32 (Z.of_nat g).

Lemma wid_next g : next_id (wid g) = wid (S g).
Proof. unfold next_id, wid, wrap. rewrite Zplus_mod_idemp_l. f_equal. lia. Qed.

Lemma wid_inj g g' : wid g = wid g' → Z.abs (Z.of_nat g - Z.of_nat g') < 2 ^ 32 → g = g'.
Proof.
  unfold wid, wrap. intros E Hd.
  assert ((Z.of_nat g - Z.of_nat g') mod 2 ^ 32 = 0) as Em.
  { rewrite Zminus_mod, E, Z.sub_diag. done. }
  apply Z.mod_divide in Em as [k Hk]; [|lia]. assert (k = 0) by nia. lia.
Qed.

(** ** The queue holds what is not due *)

(** The entries for the responses from [lo] on, up to those declared. *)
Record queue_ok (h : list Event) (lo n : nat) (q : ResponseQueue) : Prop := {
  queue_unfinished id l : unfinished q !! id = Some l ↔
    ∃ g, (lo ≤ g < n)%nat ∧ id = wid g ∧ status h g = SOpen ∧ l = msgs_of h g ∧ l ≠ [];
  queue_finished id l : finished q !! id = Some l ↔
    ∃ g, (lo ≤ g < n)%nat ∧ id = wid g ∧ status h g = SFinal ∧ l = msgs_of h g;
  queue_ignored id : id ∈ ignored q ↔
    ∃ g, (lo ≤ g < n)%nat ∧ id = wid g ∧ status h g = SIgnored;
}.

(** The entry of the first response. *)
Lemma queue_head_unfinished h lo n q : queue_ok h lo n q → Z.of_nat n - Z.of_nat lo < 2 ^ 32 → (lo < n)%nat →
  unfinished q !! wid lo =
    if decide (status h lo = SOpen ∧ msgs_of h lo ≠ []) then Some (msgs_of h lo) else None.
Proof.
  intros Hq Hn Hlo. apply option_eq. intros l. rewrite (queue_unfinished _ _ _ _ Hq). split.
  - intros (g & Hg & E & Hs & -> & Hne). apply wid_inj in E as <-; [|lia]. by rewrite decide_True.
  - case_decide as Hd; [|done]. intros [= <-]. destruct Hd. exists lo. split_and!; done || lia.
Qed.

Lemma queue_head_finished h lo n q : queue_ok h lo n q → Z.of_nat n - Z.of_nat lo < 2 ^ 32 → (lo < n)%nat →
  finished q !! wid lo = if decide (status h lo = SFinal) then Some (msgs_of h lo) else None.
Proof.
  intros Hq Hn Hlo. apply option_eq. intros l. rewrite (queue_finished _ _ _ _ Hq). split.
  - intros (g & Hg & E & Hs & ->). apply wid_inj in E as <-; [|lia]. by rewrite decide_True.
  - case_decide as Hd; [|done]. intros [= <-]. exists lo. split_and!; done || lia.
Qed.

Lemma queue_head_ignored h lo n q : queue_ok h lo n q → Z.of_nat n - Z.of_nat lo < 2 ^ 32 → (lo < n)%nat →
  wid lo ∈ ignored q ↔ status h lo = SIgnored.
Proof.
  intros Hq Hn Hlo. rewrite (queue_ignored _ _ _ _ Hq). split.
  - intros (g & Hg & E & Hs). by apply wid_inj in E as <-; [|lia].
  - intros Hs. exists lo. split_and!; done || lia.
Qed.

(** Without it. *)
Lemma queue_ok_tail h lo n q u f i : queue_ok h lo n q → Z.of_nat n - Z.of_nat lo < 2 ^ 32 →
  (∀ id l, u !! id = Some l ↔ unfinished q !! id = Some l ∧ (id ≠ wid lo)) →
  (∀ id l, f !! id = Some l ↔ finished q !! id = Some l ∧ (id ≠ wid lo)) →
  (∀ id, id ∈ i ↔ id ∈ ignored q ∧ (id ≠ wid lo)) →
  queue_ok h (S lo) n (mkResponseQueue u f i).
Proof.
  intros Hq Hn Hu Hf Hi.
  assert (∀ g, (lo ≤ g < n)%nat → (wid g ≠ wid lo) ↔ (S lo ≤ g < n)%nat) as Hw.
  { intros g Hg. split.
    - intros Hne. assert (g ≠ lo) by congruence. lia.
    - intros Hlt E. apply wid_inj in E; lia. }
  split; cbn [unfinished finished ignored].
  - intros id l. rewrite Hu, (queue_unfinished _ _ _ _ Hq). split.
    + intros [(g & Hg & -> & ?) Hne]. exists g. by apply Hw in Hne.
    + intros (g & Hg & -> & ?). split; [exists g; split; [lia|done]|]. apply Hw; lia.
  - intros id l. rewrite Hf, (queue_finished _ _ _ _ Hq). split.
    + intros [(g & Hg & -> & ?) Hne]. exists g. by apply Hw in Hne.
    + intros (g & Hg & -> & ?). split; [exists g; split; [lia|done]|]. apply Hw; lia.
  - intros id. rewrite Hi, (queue_ignored _ _ _ _ Hq). split.
    + intros [(g & Hg & -> & ?) Hne]. exists g. by apply Hw in Hne.
    + intros (g & Hg & -> & ?). split; [exists g; split; [lia|done]|]. apply Hw; lia.
Qed.

(** ** Sending what has become due *)

(** A synchronous context with [n] responses declared, the [base]-th due. *)
Definition sync_of (n base : nat) : ConfigurableSynchronizer :=
  Threshold (mkThreshold (mkFifo (wid n) (wid base)) 0 0).

Definition ctx (n base : nat) (q : ResponseQueue) (sent : list (list byte)) : PeerContext :=
  mkPeerContext magic version true (sync_of n base) q sent.

#[local] Arguments within_threshold : simpl never.

Lemma within_nothing f id : 0 ≤ id → within_threshold (mkThreshold f 0 0) id = false.
Proof. intros Hid. unfold within_threshold. cbn [thr_to_grant_min thr_to_grant_max].
  destruct (Z.leb_spec 0 id), (Z.ltb_spec id 0); try done; lia. Qed.

Lemma wid_nonneg g : 0 ≤ wid g.
Proof. apply wrap_fits. lia. Qed.

Lemma sync_is_permitted n base g : is_permitted (sync_of n base) (wid g) = (wid g =? wid base).
Proof. cbn. by rewrite within_nothing, orb_false_r by apply wid_nonneg. Qed.

Lemma sync_permission n base g :
  permission_for_response (sync_of n base) (wid g) =
    if wid g =? wid base then (true, sync_of n (S base)) else (false, sync_of n base).
Proof.
  cbn. destruct (wid g =? wid base).
  - unfold sync_of. by rewrite wid_next.
  - by rewrite within_nothing by apply wid_nonneg.
Qed.

(** What was sent when the [base]-th response is due. *)
Definition sent_upto (h : list Event) (base : nat) : list (list byte) := concat (msgs_of h <$> seq 0 base).

Lemma sent_upto_S h base : sent_upto h (S base) = sent_upto h base ++ msgs_of h base.
Proof. unfold sent_upto. rewrite seq_S, fmap_app, concat_app. simpl. by rewrite app_nil_r. Qed.

Lemma delete_lookup_iff {V} (m : gmap Z V) k id l :
  delete k m !! id = Some l ↔ m !! id = Some l ∧ id ≠ k.
Proof. rewrite lookup_delete_Some. naive_solver. Qed.

Lemma head_absent {V} (m : gmap Z V) k id l : m !! k = None → m !! id = Some l ↔ m !! id = Some l ∧ id ≠ k.
Proof. intros E. split; [|tauto]. intros E'. split; [done|]. intros ->. congruence. Qed.

(** Looking at the first response of the queue. *)
Lemma responses_head h lo n q : history h → queue_ok h lo n q → Z.of_nat n - Z.of_nat lo < 2 ^ 32 →
  (lo ≤ n)%nat → n = declared h →
  ∃ q', queue_ok h (S lo) n q' ∧
    responses (wid lo) q =
      (match status h lo with
       | SFinal => Some (Finished_responses (msgs_of h lo))
       | SIgnored => Some Ignored_response
       | SOpen => if decide (msgs_of h lo = []) then None else Some (Unfinished_responses (msgs_of h lo))
       end, q') ∧
    (size (finished q') + size (ignored q') +
      match status h lo with SOpen => 0 | _ => 1 end = size (finished q) + size (ignored q))%nat.
Proof.
  intros Hh Hq Hn Hlo En. destruct (decide (lo = n)) as [->|Hne].
  - destruct (history_fresh h n Hh) as [-> ->]; [lia|]. rewrite decide_True by done.
    assert (∀ id, unfinished q !! id = None ∧ finished q !! id = None ∧ (id ∉ ignored q)) as Hnone.
    { intros id. split_and!.
      - apply eq_None_not_Some. intros [l E]. apply (queue_unfinished _ _ _ _ Hq) in E as (g & ? & _). lia.
      - apply eq_None_not_Some. intros [l E]. apply (queue_finished _ _ _ _ Hq) in E as (g & ? & _). lia.
      - intros E. apply (queue_ignored _ _ _ _ Hq) in E as (g & ? & _). lia. }
    exists q. unfold responses. destruct (Hnone (wid n)) as (-> & -> & Hi).
    rewrite decide_False by done. split_and!; [|done|lia].
    split; intros id; [intros l|intros l|]; destruct (Hnone id) as (Eu & Ef & Ei);
      rewrite ?Eu, ?Ef; split; try done; intros (g & ? & _); lia.
  - assert (lo < n)%nat as Hlt by lia.
    pose proof (queue_head_unfinished _ _ _ _ Hq Hn Hlt) as Eu.
    pose proof (queue_head_finished _ _ _ _ Hq Hn Hlt) as Ef.
    pose proof (queue_head_ignored _ _ _ _ Hq Hn Hlt) as Ei.
    unfold responses. destruct (status h lo) eqn:Es.
    + rewrite decide_False in Ef by done.
      assert (wid lo ∉ ignored q) as Hni by (rewrite Ei; done).
      assert (∀ id, id ∈ ignored q ↔ id ∈ ignored q ∧ id ≠ wid lo) as Hi by (intros; set_solver).
      destruct (decide (msgs_of h lo = [])) as [Hm|Hm]; [rewrite decide_False in Eu by (intros [_ ?]; done)|
        rewrite decide_True in Eu by done]; rewrite Eu.
      * rewrite Ef, decide_False by done. exists q. split_and!; [|done|lia].
        replace q with (mkResponseQueue (unfinished q) (finished q) (ignored q)) by by destruct q.
        eapply queue_ok_tail; [done|done|..|done]; intros; by apply head_absent.
      * eexists. split; [|split; [done|cbn; lia]].
        eapply queue_ok_tail; [done|done|..|done]; intros; [apply delete_lookup_iff|by apply head_absent].
    + rewrite decide_True in Ef by done. rewrite decide_False in Eu by (intros [? _]; done). rewrite Eu, Ef.
      assert (wid lo ∉ ignored q) as Hni by (rewrite Ei; done).
      eexists. split; [|split; [done|]].
      * eapply queue_ok_tail; [done|done|..|intros; set_solver]; intros;
          [by apply head_absent|apply delete_lookup_iff].
      * cbn. rewrite map_size_delete, Ef. cbn.
        assert (size (finished q) ≠ O); [|lia]. apply map_size_ne_0_lookup_2 with (i:=wid lo). by rewrite Ef.
    + rewrite decide_False in Ef by done. rewrite decide_False in Eu by (intros [? _]; done). rewrite Eu, Ef.
      assert (wid lo ∈ ignored q) as Hin by (by apply Ei). rewrite decide_True by done.
      eexists. split; [|split; [done|]].
      * eapply queue_ok_tail; [done|done|..|intros; set_solver]; intros; by apply head_absent.
      * cbn. rewrite size_difference, size_singleton by set_solver.
        assert (size (ignored q) ≠ O); [|lia]. intros E. apply size_empty_iff in E. set_solver.
Qed.

(** The invariant: [base] is the first open response, everything before it was
    sent in order, and what there is of it; the queue holds the rest. *)
Record ctx_ok (h : list Event) (c : PeerContext) : Prop := {
  ctx_history : history h;
  ctx_state : ∃ base q, c = ctx (declared h) base q (sent_upto h base ++ msgs_of h base) ∧
    (base ≤ declared h)%nat ∧ Z.of_nat (declared h) - Z.of_nat base < 2 ^ 32 ∧
    queue_ok h (S base) (declared h) q ∧ status h base = SOpen ∧
    (∀ g, (g < base)%nat → status h g ≠ SOpen) ∧
    (∀ g, (base < g)%nat → status h g = SIgnored → msgs_of h g = []);
}.

(** The responses that follow a completed one are sent up to the first open
    one. *)
Lemma send_awaiting_loop_ok h fuel base prev q :
  history h → next_id prev = wid base → queue_ok h base (declared h) q →
  Z.of_nat (declared h) - Z.of_nat base < 2 ^ 32 → (base ≤ declared h)%nat →
  (∀ g, (g < base)%nat → status h g ≠ SOpen) →
  (∀ g, (base ≤ g)%nat → status h g = SIgnored → msgs_of h g = []) →
  (size (finished q) + size (ignored q) < fuel)%nat →
  ∃ c', send_awaiting_loop fuel prev (ctx (declared h) base q (sent_upto h base)) = Some c' ∧ ctx_ok h c'.
Proof.
  intros Hh. revert base prev q. induction fuel as [|fuel IH]; intros base prev q Eid Hq Hn Hb Hlt Hig Hf; [lia|].
  cbn [send_awaiting_loop]. rewrite Eid. cbn [pc_response_queue ctx].
  destruct (responses_head h base (declared h) q Hh Hq Hn Hb eq_refl) as (q' & Hq' & -> & Hsz).
  assert (set_queue q' (ctx (declared h) base q (sent_upto h base)) =
    ctx (declared h) base q' (sent_upto h base)) as -> by done.
  assert (∀ g, (S base ≤ g)%nat → status h g = SIgnored → msgs_of h g = []) as Hig'.
  { intros g Hg. apply Hig. lia. }
  assert (status h base ≠ SOpen → (base < declared h)%nat) as Hdecl.
  { intros Hs. destruct (decide (base < declared h)%nat); [done|].
    destruct Hs. apply (history_fresh h base Hh). lia. }
  assert (∀ g, status h base ≠ SOpen → (g < S base)%nat → status h g ≠ SOpen) as Hlt'.
  { intros g Hs Hg. destruct (decide (g = base)) as [->|]; [done|]. apply Hlt. lia. }
  destruct (status h base) eqn:Es.
  - case_decide as Hm.
    + eexists. split; [done|]. split; [done|]. exists base, q'. rewrite Hm, app_nil_r. split_and!; done.
    + cbn [pc_synchronizer ctx]. rewrite sync_is_permitted, Z.eqb_refl. cbn [rust_assert mbind option_bind].
      eexists. split; [done|]. split; [done|]. exists base, q'. split_and!; done.
  - cbn [pc_synchronizer ctx]. rewrite sync_permission, Z.eqb_refl. cbn [rust_assert mbind option_bind].
    specialize (Hdecl ltac:(done)).
    destruct (IH (S base) (wid base) q') as (c' & E & Hc');
      [apply wid_next|done|lia|lia|intros g Hg; by apply Hlt'|done|lia|].
    exists c'. split; [|done]. rewrite <-E, sent_upto_S. done.
  - cbn [pc_synchronizer ctx]. rewrite sync_permission, Z.eqb_refl. cbn [rust_assert mbind option_bind].
    specialize (Hdecl ltac:(done)).
    destruct (IH (S base) (wid base) q') as (c' & E & Hc');
      [apply wid_next|done|lia|lia|intros g Hg; by apply Hlt'|done|lia|].
    exists c'. split; [|done]. rewrite <-E, sent_upto_S, (Hig base), app_nil_r by (done || lia). done.
Qed.

(** An event about another response does not touch the entries. *)
Lemma queue_ok_same h h' lo n q :
  (∀ g, (lo ≤ g < n)%nat → msgs_of h' g = msgs_of h g ∧ status h' g = status h g) →
  queue_ok h lo n q → queue_ok h' lo n q.
Proof.
  intros Hsame Hq. split.
  - intros id l. rewrite (queue_unfinished _ _ _ _ Hq). split; intros (g & Hg & ?); exists g;
      destruct (Hsame g Hg) as [Em Es]; rewrite ?Em, ?Es in *; done.
  - intros id l. rewrite (queue_finished _ _ _ _ Hq). split; intros (g & Hg & ?); exists g;
      destruct (Hsame g Hg) as [Em Es]; rewrite ?Em, ?Es in *; done.
  - intros id. rewrite (queue_ignored _ _ _ _ Hq). split; intros (g & Hg & ?); exists g;
      destruct (Hsame g Hg) as [Em Es]; rewrite ?Em, ?Es in *; done.
Qed.

(** A new response has no entry. *)
Lemma queue_ok_declare h lo n q : history h → declared h = n → queue_ok h lo n q → queue_ok h lo (S n) q.
Proof.
  intros Hh En Hq. destruct (history_fresh h n Hh) as [Em Es]; [lia|]. split.
  - intros id l. rewrite (queue_unfinished _ _ _ _ Hq). split; intros (g & Hg & ? & Hs & El & Hne); exists g;
      (split; [|done]); [lia|]. destruct (decide (g = n)) as [->|]; [by rewrite Em in El|lia].
  - intros id l. rewrite (queue_finished _ _ _ _ Hq). split; intros (g & Hg & ? & Hs & El); exists g;
      (split; [|done]); [lia|]. destruct (decide (g = n)) as [->|]; [by rewrite Es in Hs|lia].
  - intros id. rewrite (queue_ignored _ _ _ _ Hq). split; intros (g & Hg & ? & Hs); exists g;
      (split; [|done]); [lia|]. destruct (decide (g = n)) as [->|]; [by rewrite Es in Hs|lia].
Qed.

Lemma event_other h e g0 g : match e with Request => True | Respond g' _ _ | Ignore g' => g' = g0 end →
  g ≠ g0 → msgs_of (h ++ [e]) g = msgs_of h g ∧ status (h ++ [e]) g = status h g.
Proof.
  intros He Hne. rewrite msgs_of_snoc, status_snoc.
  destruct e as [|g' m []|g']; cbn; try subst g'; rewrite ?decide_False by congruence; rewrite ?app_nil_r;
    destruct (status h g); try done; cbn; by rewrite decide_False by congruence.
Qed.

(** ** The events *)

Lemma ctx_to_message n base q sent m bytes :
  @message_new H _ (am_payload m) magic version (am_value m) = Some (Ok bytes) →
  to_message (H0:=am_payload m) (am_value m) (ctx n base q sent) = Some (bytes_of m).
Proof. intros E. unfold to_message, bytes_of. cbn [pc_magic pc_version ctx]. by rewrite E. Qed.

(** Completing the response that is due. *)
Lemma complete_head h e q sent : history h → event_ok h e →
  ∀ base, queue_ok h (S base) (declared h) q → (base < declared h)%nat →
  Z.of_nat (declared h) - Z.of_nat base < 2 ^ 32 →
  (∀ g, (g < base)%nat → status h g ≠ SOpen) →
  (∀ g, (base < g)%nat → status h g = SIgnored → msgs_of h g = []) →
  match e with Request => False | Respond g _ final => g = base ∧ final = true | Ignore g => g = base end →
  sent = sent_upto (h ++ [e]) (S base) → status (h ++ [e]) base ≠ SOpen →
  ∃ c', send_awaiting (wid base) (ctx (declared h) (S base) q sent) = Some c' ∧ ctx_ok (h ++ [e]) c'.
Proof.
  intros Hh He base Hq Hb Hn Hlt Hig Hev -> Hcl.
  assert (declared (h ++ [e]) = declared h) as Ed by (rewrite declared_snoc; destruct e; [done|cbn; lia..]).
  assert (∀ g, g ≠ base → msgs_of (h ++ [e]) g = msgs_of h g ∧ status (h ++ [e]) g = status h g) as Ho.
  { intros g Hg. apply (event_other h e base g); [|done]. destruct e; [done|by destruct Hev|done]. }
  unfold send_awaiting. cbn [pc_response_queue ctx]. rewrite <-Ed.
  apply send_awaiting_loop_ok; [by constructor|apply wid_next| | |rewrite Ed; lia| | |lia]; rewrite ?Ed.
  - eapply queue_ok_same; [|done]. intros g Hg. apply Ho. lia.
  - lia.
  - intros g Hg. destruct (decide (g = base)) as [->|Hne]; [done|].
    destruct (Ho g Hne) as [_ ->]. apply Hlt. lia.
  - intros g Hg. destruct (Ho g) as [-> ->]; [lia|]. apply Hig. lia.
Qed.

(** An entry for a response that is not due. *)
Lemma queue_ok_entry h e lo n q q' g : queue_ok h lo n q → (lo ≤ g < n)%nat →
  Z.of_nat n - Z.of_nat lo < 2 ^ 32 →
  (∀ g', g' ≠ g → msgs_of (h ++ [e]) g' = msgs_of h g' ∧ status (h ++ [e]) g' = status h g') →
  (∀ id, id ≠ wid g → unfinished q' !! id = unfinished q !! id ∧ finished q' !! id = finished q !! id ∧
    (id ∈ ignored q' ↔ id ∈ ignored q)) →
  (∀ l, unfinished q' !! wid g = Some l ↔
    status (h ++ [e]) g = SOpen ∧ l = msgs_of (h ++ [e]) g ∧ l ≠ []) →
  (∀ l, finished q' !! wid g = Some l ↔ status (h ++ [e]) g = SFinal ∧ l = msgs_of (h ++ [e]) g) →
  (wid g ∈ ignored q' ↔ status (h ++ [e]) g = SIgnored) →
  queue_ok (h ++ [e]) lo n q'.
Proof.
  intros Hq Hg Hn Ho Hoth Hu Hf Hi.
  assert (∀ g', (lo ≤ g' < n)%nat → wid g' = wid g → g' = g) as Hinj by (intros; apply wid_inj; [done|lia]).
  assert (∀ g', (lo ≤ g' < n)%nat → wid g' ≠ wid g → g' ≠ g) as Hne by congruence.
  split.
  - intros id l. destruct (decide (id = wid g)) as [->|Hid].
    + rewrite Hu. split; [intros (? & ? & ?); by exists g|].
      intros (g' & Hg' & E & ?). by rewrite <-(Hinj g' Hg') by done.
    + destruct (Hoth id Hid) as (-> & _). rewrite (queue_unfinished _ _ _ _ Hq).
      split; intros (g' & Hg' & -> & ?); exists g'; destruct (Ho g') as [Em Es]; [by apply Hne| |by apply Hne|];
        rewrite ?Em, ?Es in *; done.
  - intros id l. destruct (decide (id = wid g)) as [->|Hid].
    + rewrite Hf. split; [intros (? & ?); by exists g|].
      intros (g' & Hg' & E & ?). by rewrite <-(Hinj g' Hg') by done.
    + destruct (Hoth id Hid) as (_ & -> & _). rewrite (queue_finished _ _ _ _ Hq).
      split; intros (g' & Hg' & -> & ?); exists g'; destruct (Ho g') as [Em Es]; [by apply Hne| |by apply Hne|];
        rewrite ?Em, ?Es in *; done.
  - intros id. destruct (decide (id = wid g)) as [->|Hid].
    + rewrite Hi. split; [intros ?; by exists g|].
      intros (g' & Hg' & E & ?). by rewrite <-(Hinj g' Hg') by done.
    + destruct (Hoth id Hid) as (_ & _ & ->). rewrite (queue_ignored _ _ _ _ Hq).
      split; intros (g' & Hg' & -> & ?); exists g'; destruct (Ho g') as [Em Es]; [by apply Hne| |by apply Hne|];
        rewrite ?Em, ?Es in *; done.
Qed.

Lemma declared_other h e : is_declare e = false → declared (h ++ [e]) = declared h.
Proof. intros E. rewrite declared_snoc, E. lia. Qed.

Lemma sent_upto_same h h' base : (∀ g, (g < base)%nat → msgs_of h' g = msgs_of h g) →
  sent_upto h' base = sent_upto h base.
Proof.
  intros Hs. unfold sent_upto. f_equal. apply list_fmap_ext. intros i g E.
  apply list_elem_of_lookup_2, elem_of_seq in E. apply Hs. lia.
Qed.

(** The invariant after an event on response [g0] that left the synchronizer
    alone. *)
Lemma ctx_ok_event h e g0 base q' sent : history h → event_ok h e → is_declare e = false →
  match e with Request => False | Respond g' _ _ | Ignore g' => g' = g0 end →
  (base ≤ declared h)%nat → Z.of_nat (declared h) - Z.of_nat base < 2 ^ 32 →
  (∀ g, (g < base)%nat → status h g ≠ SOpen) →
  (∀ g, (base < g)%nat → status h g = SIgnored → msgs_of h g = []) →
  status h base = SOpen → (base ≤ g0)%nat →
  queue_ok (h ++ [e]) (S base) (declared h) q' →
  status (h ++ [e]) base = SOpen →
  ((base < g0)%nat → status (h ++ [e]) g0 = SIgnored → msgs_of (h ++ [e]) g0 = []) →
  sent = sent_upto h base ++ msgs_of (h ++ [e]) base →
  ctx_ok (h ++ [e]) (ctx (declared h) base q' sent).
Proof.
  intros Hh He Hd Hev Hb Hn Hlt Hig Hs Hg0 Hq' Hs' Hig0 ->.
  assert (∀ g, g ≠ g0 → msgs_of (h ++ [e]) g = msgs_of h g ∧ status (h ++ [e]) g = status h g) as Ho.
  { intros g. apply event_other. by destruct e. }
  split; [by constructor|]. rewrite (declared_other _ _ Hd).
  exists base, q'. split_and!; [|done..| |].
  - rewrite (sent_upto_same h (h ++ [e])); [done|]. intros g Hg. apply Ho. lia.
  - intros g Hg. destruct (Ho g) as [_ ->]; [lia|]. by apply Hlt.
  - intros g Hg. destruct (decide (g = g0)) as [->|Hne]; [by apply Hig0|].
    destruct (Ho g Hne) as [-> ->]. by apply Hig.
Qed.

Lemma wid_eqb g g' : Z.abs (Z.of_nat g - Z.of_nat g') < 2 ^ 32 → (wid g =? wid g') = bool_decide (g = g').
Proof.
  intros Hd. case_bool_decide as E; [subst; apply Z.eqb_refl|]. apply Z.eqb_neq.
  intros Ew. by apply wid_inj in Ew.
Qed.

Lemma declare_ok h c : ctx_ok h c → event_ok h Request →
  pc_declare_response c = (wid (declared h), snd (pc_declare_response c)) ∧
  ctx_ok (h ++ [Request]) (snd (pc_declare_response c)).
Proof.
  intros [Hh (base & q & -> & Hb & Hn & Hq & Hs & Hlt & Hig)] He.
  assert (∀ g, msgs_of (h ++ [Request]) g = msgs_of h g ∧ status (h ++ [Request]) g = status h g) as Ho.
  { intros g. apply (event_other h Request (S g) g); [done|lia]. }
  split; [done|]. split; [by constructor|]. exists base, q.
  rewrite declared_snoc. cbn [is_declare]. rewrite Nat.add_1_r.
  assert (Z.of_nat (S (declared h)) - Z.of_nat base < 2 ^ 32) as Hn'.
  { destruct (decide (base = declared h)) as [->|]; [lia|]. specialize (He base ltac:(lia) Hs). lia. }
  destruct (Ho base) as [Em Es]. rewrite Em, Es.
  split_and!; [|lia|done| |done| |].
  - cbn. rewrite wid_next. rewrite (sent_upto_same h (h ++ [Request])); [done|]. intros g _. apply Ho.
  - eapply queue_ok_same; [intros g _; apply Ho|]. by apply queue_ok_declare.
  - intros g. destruct (Ho g) as [_ ->]. apply Hlt.
  - intros g. destruct (Ho g) as [-> ->]. apply Hig.
Qed.

(** The response events find their place. *)
Lemma open_place h base g : (∀ g, (g < base)%nat → status h g ≠ SOpen) → status h g = SOpen → (base ≤ g)%nat.
Proof. intros Hlt Hs. destruct (decide (base ≤ g)%nat); [done|]. destruct (Hlt g); [lia|done]. Qed.

(** What the queue has of an open response that is not due. *)
Lemma queue_open h lo n q g : queue_ok h lo n q → Z.of_nat n - Z.of_nat lo < 2 ^ 32 → (lo ≤ g < n)%nat →
  status h g = SOpen →
  default [] (unfinished q !! wid g) = msgs_of h g ∧
  (unfinished q !! wid g = None ↔ msgs_of h g = []) ∧
  finished q !! wid g = None ∧ (wid g ∉ ignored q).
Proof.
  intros Hq Hn Hg Hs.
  assert (unfinished q !! wid g = if decide (msgs_of h g = []) then None else Some (msgs_of h g)) as Eu.
  { apply option_eq. intros l. rewrite (queue_unfinished _ _ _ _ Hq). split.
    - intros (g' & Hg' & E & _ & -> & Hne). apply wid_inj in E as <-; [|lia]. by rewrite decide_False.
    - case_decide as Hd; [done|]. intros [= <-]. exists g. split_and!; done || lia. }
  rewrite Eu. split_and!.
  - by case_decide.
  - by case_decide.
  - apply eq_None_not_Some. intros [l E]. apply (queue_finished _ _ _ _ Hq) in E as (g' & Hg' & E & Hsg' & _).
    apply wid_inj in E as <-; [|lia]. congruence.
  - intros E. apply (queue_ignored _ _ _ _ Hq) in E as (g' & Hg' & E & Hsg').
    apply wid_inj in E as <-; [|lia]. congruence.
Qed.

(** A response that is due: the message goes out. *)
Lemma respond_due h g m final q : history h → event_ok h (Respond g m final) →
  (g < declared h)%nat → Z.of_nat (declared h) - Z.of_nat g < 2 ^ 32 → queue_ok h (S g) (declared h) q →
  status h g = SOpen → (∀ g', (g' < g)%nat → status h g' ≠ SOpen) →
  (∀ g', (g < g')%nat → status h g' = SIgnored → msgs_of h g' = []) →
  let sent := (sent_upto h g ++ msgs_of h g) ++ [bytes_of m] in
  ∃ c', (if final then send_awaiting (wid g) (ctx (declared h) (S g) q sent)
         else Some (ctx (declared h) g q sent)) = Some c' ∧ ctx_ok (h ++ [Respond g m final]) c'.
Proof.
  intros Hh He Hg Hn Hq Hs Hlt Hig sent. set (e := Respond g m final).
  assert (∀ g', g' ≠ g → msgs_of (h ++ [e]) g' = msgs_of h g' ∧ status (h ++ [e]) g' = status h g') as Ho
    by (intros g'; by apply event_other).
  assert (msgs_of (h ++ [e]) g = msgs_of h g ++ [bytes_of m]) as Emsg.
  { rewrite msgs_of_snoc. cbn. by rewrite decide_True. }
  assert (status (h ++ [e]) g = if final then SFinal else SOpen) as Est.
  { rewrite status_snoc, Hs. cbn. destruct final; [by rewrite decide_True|done]. }
  destruct final.
  - apply complete_head; try done; [|by rewrite Est].
    rewrite sent_upto_S, Emsg. unfold sent. rewrite !app_assoc. do 2 f_equal. symmetry. apply sent_upto_same.
    intros g' Hg'. apply Ho. lia.
  - eexists. split; [done|]. apply (ctx_ok_event h e g); try done; try lia.
    + eapply queue_ok_same; [|done]. intros g' Hg'. apply Ho. lia.
    + rewrite Emsg. unfold sent. by rewrite app_assoc.
Qed.

(** One that is not: it is queued. *)
Lemma respond_queued h g m final base q : history h → event_ok h (Respond g m final) →
  (base < g < declared h)%nat → Z.of_nat (declared h) - Z.of_nat base < 2 ^ 32 →
  queue_ok h (S base) (declared h) q → status h g = SOpen → status h base = SOpen →
  (∀ g', (g' < base)%nat → status h g' ≠ SOpen) →
  (∀ g', (base < g')%nat → status h g' = SIgnored → msgs_of h g' = []) →
  ∃ q', (if final then push_finished_response (wid g) (bytes_of m) q
         else Some (push_unfinished_response (wid g) (bytes_of m) q)) = Some q' ∧
    ctx_ok (h ++ [Respond g m final]) (ctx (declared h) base q' (sent_upto h base ++ msgs_of h base)).
Proof.
  intros Hh He Hg Hn Hq Hs Hsb Hlt Hig. set (e := Respond g m final).
  assert (∀ g', g' ≠ g → msgs_of (h ++ [e]) g' = msgs_of h g' ∧ status (h ++ [e]) g' = status h g') as Ho
    by (intros g'; by apply event_other).
  assert (msgs_of (h ++ [e]) g = msgs_of h g ++ [bytes_of m]) as Emsg.
  { rewrite msgs_of_snoc. cbn. by rewrite decide_True. }
  assert (status (h ++ [e]) g = if final then SFinal else SOpen) as Est.
  { rewrite status_snoc, Hs. cbn. destruct final; [by rewrite decide_True|done]. }
  destruct (queue_open _ _ _ _ g Hq) as (Ed & _ & Ef & Hni); [lia|lia|done|].
  destruct (Ho base) as [Eb Esb]; [lia|].
  assert (∀ q', queue_ok (h ++ [e]) (S base) (declared h) q' →
    ctx_ok (h ++ [e]) (ctx (declared h) base q' (sent_upto h base ++ msgs_of h base))) as Hfin.
  { intros q' Hq'. apply (ctx_ok_event h e g); try done; try lia.
    - by rewrite Esb.
    - rewrite Est. by destruct final.
    - by rewrite Eb. }
  destruct final.
  - unfold push_finished_response. rewrite bool_decide_true by done. cbn [rust_assert mbind option_bind].
    rewrite Ed. eexists. split; [done|]. apply Hfin.
    eapply (queue_ok_entry h e _ _ q _ g); [done|lia|lia|done|..]; cbn [unfinished finished ignored]; rewrite ?Est, ?Emsg.
    + intros id Hid. rewrite lookup_delete_ne, lookup_insert_ne by done. done.
    + intros l. rewrite lookup_delete_eq. naive_solver.
    + intros l. rewrite lookup_insert_eq. naive_solver.
    + naive_solver.
  - eexists. split; [done|]. apply Hfin. unfold push_unfinished_response. rewrite Ed.
    eapply (queue_ok_entry h e _ _ q _ g); [done|lia|lia|done|..]; cbn [unfinished finished ignored]; rewrite ?Est, ?Emsg.
    + intros id Hid. rewrite lookup_insert_ne by done. done.
    + intros l. rewrite lookup_insert_eq. split; [intros [= <-]; split_and!; [done|done|by destruct (msgs_of h g)]|].
      by intros (_ & -> & _).
    + intros l. rewrite Ef. naive_solver.
    + naive_solver.
Qed.

Lemma respond_ok h c g m final : ctx_ok h c → event_ok h (Respond g m final) →
  ∃ c', send_response (H0:=am_payload m) (am_value m) (wid g) final c = Some c' ∧
    ctx_ok (h ++ [Respond g m final]) c'.
Proof.
  intros [Hh (base & q & -> & Hb & Hn & Hq & Hs & Hlt & Hig)] He.
  pose proof He as (Hg & Hsg & [bytes0 Hm]).
  destruct (message_new magic version (am_value m)) as [[bytes|]|] eqn:Em; try done. clear Hm bytes0.
  pose proof (open_place h base g Hlt Hsg) as Hbg.
  assert (∀ n base q sent, to_message (H0:=am_payload m) (am_value m) (ctx n base q sent) = Some (bytes_of m))
    as Etm by (intros; by eapply ctx_to_message).
  assert (∀ n base q sent, send_to_peer (H0:=am_payload m) (am_value m) (ctx n base q sent) =
    Some (ctx n base q (sent ++ [bytes_of m]))) as Esend.
  { intros. unfold send_to_peer. rewrite Etm. done. }
  assert (∀ n b b' q sent, set_sync (sync_of n b') (ctx n b q sent) = ctx n b' q sent) as Esync by done.
  assert (∀ n b q q' sent, set_queue q' (ctx n b q sent) = ctx n b q' sent) as Equeue by done.
  unfold send_response.
  assert (pc_synchronizer (ctx (declared h) base q (sent_upto h base ++ msgs_of h base)) =
    sync_of (declared h) base) as -> by done.
  rewrite sync_is_permitted, sync_permission, wid_eqb by lia. case_bool_decide as Eg.
  - subst g. rewrite Esync, !Esend. cbn [mbind option_bind].
    by apply (respond_due h base m final q).
  - rewrite Esync, Etm. cbn [mbind option_bind].
    destruct (respond_queued h g m final base q) as (q' & E & Hok); try done; [lia|].
    eexists. split; [|exact Hok]. destruct final; cbn [pc_response_queue ctx].
    + rewrite E. done.
    + injection E as <-. done.
Qed.

Lemma ignore_ok h c g : ctx_ok h c → event_ok h (Ignore g) →
  ∃ c', ignore_response (wid g) c = Some c' ∧ ctx_ok (h ++ [Ignore g]) c'.
Proof.
  intros [Hh (base & q & -> & Hb & Hn & Hq & Hs & Hlt & Hig)] He. set (e := Ignore g).
  pose proof He as (Hg & Hsg & Hempty). pose proof (open_place h base g Hlt Hsg) as Hbg.
  assert (∀ g', g' ≠ g → msgs_of (h ++ [e]) g' = msgs_of h g' ∧ status (h ++ [e]) g' = status h g') as Ho
    by (intros g'; by apply event_other).
  assert (msgs_of (h ++ [e]) g = msgs_of h g) as Emsg by (rewrite msgs_of_snoc; apply app_nil_r).
  assert (status (h ++ [e]) g = SIgnored) as Est.
  { rewrite status_snoc, Hsg. cbn. by rewrite decide_True. }
  unfold ignore_response.
  assert (pc_synchronizer (ctx (declared h) base q (sent_upto h base ++ msgs_of h base)) =
    sync_of (declared h) base) as -> by done.
  rewrite sync_permission, wid_eqb by lia. case_bool_decide as Eg.
  - subst g. apply complete_head; try done; [|by rewrite Est].
    rewrite sent_upto_S, Emsg. cbn [pc_sent ctx]. f_equal. symmetry. apply sent_upto_same.
    intros g' Hg'. apply Ho. lia.
  - destruct Hempty as [Hempty|Hempty]; [|destruct (Hempty base); [lia|done]].
    destruct (queue_open _ _ _ _ g Hq) as (_ & Eu & Ef & Hni); [lia|lia|done|].
    unfold push_ignored_response. cbn [pc_response_queue ctx set_sync]. rewrite bool_decide_true by done.
    cbn [rust_assert mbind option_bind]. eexists. split; [done|].
    destruct (Ho base) as [Eb Esb]; [lia|].
    apply (ctx_ok_event h e g); try done; try lia.
    + eapply (queue_ok_entry h e _ _ q _ g); [done|lia|lia|done|..]; cbn [unfinished finished ignored]; rewrite ?Est, ?Emsg.
      * intros id Hid. split_and!; [done..|]. set_solver.
      * intros l. rewrite (proj2 Eu Hempty). naive_solver.
      * intros l. rewrite Ef. naive_solver.
      * set_solver.
    + by rewrite Esb.
    + by rewrite Emsg.
    + by rewrite Eb.
Qed.

Definition run_events (s : option (PeerContext * list Z)) (h : list Event) := foldl run_event s h.

Lemma run_events_ok h : history h →
  ∃ c, run_events (Some (peer_context_new magic version true, [])) h = Some (c, wid <$> seq 0 (declared h)) ∧
    ctx_ok h c.
Proof.
  induction 1 as [|h e Hh IH He].
  - eexists. split; [done|]. split; [constructor|]. exists O, response_queue_default.
    split_and!; try done; try lia. split; cbn [unfinished finished ignored response_queue_default].
    + intros id l. rewrite lookup_empty. split; [done|]. intros (g & ? & _). cbn in *. lia.
    + intros id l. rewrite lookup_empty. split; [done|]. intros (g & ? & _). cbn in *. lia.
    + intros id. split; [set_solver|]. intros (g & ? & _). cbn in *. lia.
  - destruct IH as (c & E & Hc). unfold run_events in *. rewrite foldl_snoc, E. cbn [run_event mbind option_bind].
    assert (∀ g, (g < declared h)%nat → (wid <$> seq 0 (declared h)) !! g = Some (wid g)) as Hid.
    { intros g Hg. rewrite list_lookup_fmap, lookup_seq_lt by done. done. }
    destruct e as [|g m final|g].
    + destruct (declare_ok h c Hc He) as [Ed Hc']. destruct (pc_declare_response c) as [id c'] eqn:Ep.
      cbn [snd] in *. injection Ed as ->. exists c'. split; [|done].
      rewrite declared_snoc. cbn [is_declare]. rewrite Nat.add_1_r, seq_S, fmap_app. done.
    + rewrite (declared_other h (Respond g m final)) by done. rewrite Hid by apply He. cbn [mbind option_bind].
      destruct (respond_ok h c g m final Hc He) as (c' & -> & Hc'). by exists c'.
    + rewrite (declared_other h (Ignore g)) by done. rewrite Hid by apply He. cbn [mbind option_bind].
      destruct (ignore_ok h c g Hc He) as (c' & -> & Hc'). by exists c'.
Qed.

(** C39: a peer gets the answers to its requests in the order of the requests.
    For every history of declarations, of messages of responses becoming ready
    in any order and of responses given up, no assertion of the context or of
    the queue fails, and the messages sent are all those of the first response,
    then all those of the second, and so on up to the first response that is
    still open, of which everything that is ready has been sent; this holds
    across the wrap-around of the 32-bit ids, as long as fewer than [2 ^ 32]
    requests are waiting at once. *)
Theorem responses_in_order h : history h →
  ∃ c ids base, run_events (Some (peer_context_new magic version true, [])) h = Some (c, ids) ∧
    pc_sent c = concat (msgs_of h <$> seq 0 (S base)) ∧
    status h base = SOpen ∧ (base ≤ declared h)%nat ∧
    ∀ g, (g < base)%nat → status h g ≠ SOpen.
Proof.
  intros Hh. destruct (run_events_ok h Hh) as (c & E & [_ (base & q & -> & Hb & _ & _ & Hs & Hlt & _)]).
  eexists _, _, base. split; [exact E|]. split_and!; try done.
  change (pc_sent (ctx (declared h) base q (sent_upto h base ++ msgs_of h base)))
    with (sent_upto h base ++ msgs_of h base).
  by rewrite <-sent_upto_S.
Qed.
End histories.

Import Reference.

Definition example_pong (nonce : Z) : AnyMessage := mkAny Pong pong_payload (mkPong nonce).

Definition example_history : list Event :=
  [Request; Request; Request; Respond 2 (example_pong 7) true; Ignore 1; Respond 0 (example_pong 5) true].

Lemma declare_short magic version h : Z.of_nat (length h) < 2 ^ 32 - 1 → event_ok magic version h Request.
Proof.
  intros Hl g Hg _. assert (declared h ≤ length h)%nat; [apply length_filter|lia].
Qed.

Lemma example_history_ok : history MAGIC_TESTNET 70012 example_history.
Proof.
  pose proof (history_nil MAGIC_TESTNET 70012) as Hh. unfold example_history.
  do 3 (apply (history_snoc _ _ _ Request) in Hh; [|apply declare_short; reflexivity]).
  apply (history_snoc _ _ _ (Respond 2 (example_pong 7) true)) in Hh;
    [|split_and!; [apply Nat.ltb_lt; reflexivity|reflexivity|vm_compute; eexists; reflexivity]].
  apply (history_snoc _ _ _ (Ignore 1)) in Hh; [|split_and!; [apply Nat.ltb_lt; reflexivity|reflexivity|left; reflexivity]].
  apply (history_snoc _ _ _ (Respond 0 (example_pong 5) true)) in Hh;
    [|split_and!; [apply Nat.ltb_lt; reflexivity|reflexivity|vm_compute; eexists; reflexivity]].
  exact Hh.
Qed.

(** The answer to the third request waits for the first. *)
Lemma responses_in_order_witness :
  ∃ c ids base,
    run_events (Some (peer_context_new MAGIC_TESTNET 70012 true, [])) example_history = Some (c, ids) ∧
    pc_sent c = concat (msgs_of MAGIC_TESTNET 70012 example_history <$> seq 0 (S base)) ∧
    status example_history base = SOpen ∧
    (pc_sent <$> (fst <$> run_events (Some (peer_context_new MAGIC_TESTNET 70012 true, [])) example_history)) =
      Some [bytes_of MAGIC_TESTNET 70012 (example_pong 5); bytes_of MAGIC_TESTNET 70012 (example_pong 7)].
Proof.
  destruct (responses_in_order MAGIC_TESTNET 70012 example_history example_history_ok)
    as (c & ids & base & E & Hs & Hb & _).
  exists c, ids, base. split; [exact E|]. split; [exact Hs|]. split; [exact Hb|].
  vm_compute. reflexivity.
Defined.
