(* ===== verification/Session.v ===== *)
(** * Sessions with a peer ([p2p/src/protocol], [p2p/src/session.rs])

    A session passes every message of its peer to its protocols in turn: ping,
    addresses, and either synchronization or, with a seed node, disconnecting.
    What a protocol sends goes through the peer's context of [Responses.v];
    what it does to the node (closing the connection, updating the table of
    nodes, calling the synchronization component) is recorded as an effect.
    Times are counted in nanoseconds; [precise_time_s] is a double whose
    rounding is not modelled. *)

From S2P Require Import Prelude External Primitives Serialization Compact Crypto Chain Network Utf8.
From S2P Require Import Message MessageTypes MessageIo Responses BTree NodeTable.
#[local] Open Scope Z_scope.

(** src: p2p/src/util/peer.rs 7-11 Direction *)
Inductive Direction := Inbound | Outbound.

#[global] Instance Direction_eq_dec : EqDecision Direction.
Proof. solve_decision. Defined.

(** src: p2p/src/util/peer.rs 13-22 PeerInfo *)
Record PeerInfo := mkPeerInfo {
  pi_id : Z;
  pi_address : SocketAddr;
  pi_user_agent : list byte;
  pi_direction : Direction;
  pi_version : Z;
  pi_version_message : Version;
  pi_magic : Z;
}.

Section session.
Context {R : RugOps} {H : Sha256Ops} {V : VrfOps}.

(** The calls of [InboundSyncConnection]. *)
(** src: p2p/src/protocol/sync.rs 25-37 InboundSyncConnection *)
Inductive SyncCall :=
| StartSyncSession (version : Version)
| CloseSession
| OnInventory (message : Inv)
| OnGetData (message : GetData)
| OnGetBlocks (message : GetBlocks)
| OnGetHeaders (message : GetHeaders) (id : Z)
| OnBlock (message : BlockMessage)
| OnHeaders (message : Headers)
| OnSendHeaders (message : SendHeaders)
| OnNotFound (message : NotFound).

Inductive Effect :=
| CloseChannel
| CloseChannelAfter (seconds : Z)
| UpdateNodeTable (entries : list AddressEntry)
| SyncEffect (call : SyncCall).

(** The peer's context and what was done to the node, oldest first. *)
Record World := mkWorld { w_context : PeerContext; w_effects : list Effect }.

Definition effect (e : Effect) (w : World) : World := mkWorld (w_context w) (w_effects w ++ [e]).
Definition with_context (f : PeerContext → option PeerContext) (w : World) : option World :=
  c ← f (w_context w); Some (mkWorld c (w_effects w)).

(** What the protocols read of the node: the time, a random nonce, the nodes to
    advertise, whether blocks are being synchronized. *)
Record Env := mkEnv {
  env_now : Z;
  env_nonce : Z;
  env_nodes : list Node;
  env_synchronizing : bool;
}.

Definition NANOS : Z := 10 ^ 9.

(** src: p2p/src/protocol/ping.rs 12-14 PING_INTERVAL_S *)
Definition PING_INTERVAL : Z := 60 * NANOS.
Definition MAX_PING_RESPONSE_TIME : Z := 60 * NANOS.

(** src: p2p/src/protocol/ping.rs 17-23 State *)
Inductive PingState := WaitingTimeout (time : Z) | WaitingPong (time : Z).

(** src: p2p/src/protocol/ping.rs 25-34 PingProtocol *)
Record PingProtocol := mkPingProtocol { ping_state : PingState; last_ping_nonce : option Z }.

(** src: p2p/src/protocol/ping.rs 37-44 new *)
Definition ping_new (now : Z) : PingProtocol := mkPingProtocol (WaitingTimeout now) None.

(** src: p2p/src/protocol/ping.rs 53-78 maintain *)
Definition ping_maintain (env : Env) (p : PingProtocol) (w : World) : option (PingProtocol * World) :=
  match ping_state p with
  | WaitingTimeout time =>
      if PING_INTERVAL <? env_now env - time then
        w ← with_context (send_request (mkPing (env_nonce env))) w;
        Some (mkPingProtocol (WaitingPong (env_now env)) (Some (env_nonce env)), w)
      else Some (p, w)
  | WaitingPong time =>
      if MAX_PING_RESPONSE_TIME <? env_now env - time then Some (p, effect CloseChannel w)
      else Some (p, w)
  end.

(** src: p2p/src/protocol/ping.rs 48-51 initialize *)
Definition ping_initialize (env : Env) (p : PingProtocol) (w : World) : option (PingProtocol * World) :=
  ping_maintain env p w.

(** The outcome of a handler; the outer [None] is a panic. *)
Abbreviation Handled P := (option (result MessageError unit * P * World)).

(** src: p2p/src/protocol/ping.rs 80-96 on_message *)
Definition ping_on_message (env : Env) (command : Command) (payload : list byte) (p : PingProtocol)
    (w : World) : Handled PingProtocol :=
  let p := mkPingProtocol (WaitingTimeout (env_now env)) (last_ping_nonce p) in
  let version := pc_version (w_context w) in
  if command_eq_str command (@payload_command Ping _) then
    match deserialize_payload payload version with
    | Err e => Some (Err e, p, w)
    | Ok ping =>
        w ← with_context (send_response_inline (mkPong (ping_nonce ping))) w;
        Some (Ok tt, p, w)
    end
  else if command_eq_str command (@payload_command Pong _) then
    match deserialize_payload payload version with
    | Err e => Some (Err e, p, w)
    | Ok pong =>
        let taken := mkPingProtocol (ping_state p) None in
        if decide (Some (pong_nonce pong) = last_ping_nonce p) then Some (Ok tt, taken, w)
        else Some (Err InvalidCommand, taken, w)
    end
  else Some (Ok tt, p, w).

(** src: p2p/src/protocol/addr.rs 10-15 AddrProtocol *)
Record AddrProtocol := mkAddrProtocol { is_seed_node_connection : bool }.

(** src: p2p/src/protocol/addr.rs 27-31 initialize *)
Definition addr_initialize (direction : Direction) (w : World) : option World :=
  match direction with
  | Outbound => with_context (send_request mkGetAddr) w
  | Inbound => Some w
  end.

(** [unreachable!] is a panic. *)
(** src: p2p/src/protocol/addr.rs 33-66 on_message *)
Definition addr_on_message (env : Env) (command : Command) (payload : list byte) (p : AddrProtocol)
    (w : World) : Handled AddrProtocol :=
  let version := pc_version (w_context w) in
  if command_eq_str command (@payload_command GetAddr _) then
    match deserialize_payload payload version with
    | Err e => Some (Err e, p, w)
    | Ok mkGetAddr =>
        let entries := address_entry_of_node <$> env_nodes env in
        w ← with_context (send_response_inline (addr_new entries)) w;
        Some (Ok tt, p, w)
    end
  else if command_eq_str command (@payload_command Addr _) then
    match deserialize_payload payload version with
    | Err e => Some (Err e, p, w)
    | Ok (Addr_V0 _) => None
    | Ok (Addr_V31402 addresses) =>
        let w := effect (UpdateNodeTable addresses) w in
        let w := if is_seed_node_connection p && (1 <? length addresses)%nat
                 then effect CloseChannel w else w in
        Some (Ok tt, p, w)
    end
  else Some (Ok tt, p, w).

(** src: p2p/src/protocol/addr.rs 69-74 SeednodeProtocol *)
Record SeednodeProtocol := mkSeednodeProtocol { disconnecting : bool }.

(** src: p2p/src/protocol/addr.rs 85-101 on_message *)
Definition seednode_on_message (command : Command) (p : SeednodeProtocol) (w : World) :
    Handled SeednodeProtocol :=
  if negb (disconnecting p) && command_eq_str command (@payload_command Addr _)
  then Some (Ok tt, mkSeednodeProtocol true, effect (CloseChannelAfter 60) w)
  else Some (Ok tt, p, w).

(** Deserializes a message and passes it on. *)
Definition sync_deliver {M} `{Payload M} (payload : list byte) (f : M → SyncCall) (w : World) :
    option (result MessageError unit * World) :=
  match deserialize_payload payload (pc_version (w_context w)) with
  | Err e => Some (Err e, w)
  | Ok message => Some (Ok tt, effect (SyncEffect (f message)) w)
  end.

(** src: p2p/src/protocol/sync.rs 144-198 on_message *)
Definition sync_on_message (env : Env) (command : Command) (payload : list byte) (w : World) :
    option (result MessageError unit * World) :=
  if command_eq_str command (@payload_command Inv _) then
    if env_synchronizing env then Some (Ok tt, w) else sync_deliver payload OnInventory w
  else if command_eq_str command (@payload_command GetData _) then
    if env_synchronizing env then Some (Ok tt, w) else sync_deliver payload OnGetData w
  else if command_eq_str command (@payload_command GetBlocks _) then
    if env_synchronizing env then Some (Ok tt, w) else sync_deliver payload OnGetBlocks w
  else if command_eq_str command (@payload_command GetHeaders _) then
    if env_synchronizing env then Some (Ok tt, w)
    else
      match deserialize_payload payload (pc_version (w_context w)) with
      | Err e => Some (Err e, w)
      | Ok message =>
          let '(id, c) := pc_declare_response (w_context w) in
          Some (Ok tt, effect (SyncEffect (OnGetHeaders message id)) (mkWorld c (w_effects w)))
      end
  else if command_eq_str command (@payload_command BlockMessage _) then sync_deliver payload OnBlock w
  else if command_eq_str command (@payload_command Headers _) then sync_deliver payload OnHeaders w
  else if command_eq_str command (@payload_command SendHeaders _) then sync_deliver payload OnSendHeaders w
  else if command_eq_str command (@payload_command NotFound _) then sync_deliver payload OnNotFound w
  else Some (Ok tt, w).

(** ** The session *)

Inductive Protocol :=
| PPing (p : PingProtocol)
| PAddr (p : AddrProtocol)
| PSeednode (p : SeednodeProtocol)
| PSync.

(** src: p2p/src/protocol/mod.rs 17-37 Protocol *)
Definition protocol_initialize (env : Env) (info : PeerInfo) (p : Protocol) (w : World) :
    option (Protocol * World) :=
  match p with
  | PPing p => '(p, w) ← ping_initialize env p w; Some (PPing p, w)
  | PAddr p => w ← addr_initialize (pi_direction info) w; Some (PAddr p, w)
  | PSeednode p => Some (PSeednode p, w)
  | PSync => Some (PSync, effect (SyncEffect (StartSyncSession (pi_version_message info))) w)
  end.

Definition protocol_maintain (env : Env) (p : Protocol) (w : World) : option (Protocol * World) :=
  match p with
  | PPing p => '(p, w) ← ping_maintain env p w; Some (PPing p, w)
  | _ => Some (p, w)
  end.

Definition protocol_on_message (env : Env) (command : Command) (payload : list byte) (p : Protocol)
    (w : World) : Handled Protocol :=
  match p with
  | PPing p => '(r, p, w) ← ping_on_message env command payload p w; Some (r, PPing p, w)
  | PAddr p => '(r, p, w) ← addr_on_message env command payload p w; Some (r, PAddr p, w)
  | PSeednode p => '(r, p, w) ← seednode_on_message command p w; Some (r, PSeednode p, w)
  | PSync => '(r, w) ← sync_on_message env command payload w; Some (r, PSync, w)
  end.

Definition protocol_on_close (p : Protocol) (w : World) : World :=
  match p with PSync => effect (SyncEffect CloseSession) w | _ => w end.

(** src: p2p/src/session.rs 38-41 Session *)
Record Session := mkSession {
  ses_info : PeerInfo;
  ses_protocols : list Protocol;
}.

(** src: p2p/src/session.rs 16-24 SeednodeSessionFactory *)
Definition seednode_session (now : Z) (info : PeerInfo) : Session :=
  mkSession info [PPing (ping_new now); PAddr (mkAddrProtocol true); PSeednode (mkSeednodeProtocol false)].

(** src: p2p/src/session.rs 28-36 NormalSessionFactory *)
Definition normal_session (now : Z) (info : PeerInfo) : Session :=
  mkSession info [PPing (ping_new now); PAddr (mkAddrProtocol false); PSync].

(** One protocol after the other. *)
Fixpoint each_protocol (f : Protocol → World → option (Protocol * World)) (l : list Protocol) (w : World) :
    option (list Protocol * World) :=
  match l with
  | [] => Some ([], w)
  | p :: l =>
      '(p, w) ← f p w;
      '(l, w) ← each_protocol f l w;
      Some (p :: l, w)
  end.

(** src: p2p/src/session.rs 51-55 initialize *)
Definition session_initialize (env : Env) (s : Session) (w : World) : option (Session * World) :=
  '(l, w) ← each_protocol (protocol_initialize env (ses_info s)) (ses_protocols s) w;
  Some (mkSession (ses_info s) l, w).

(** src: p2p/src/session.rs 57-61 maintain *)
Definition session_maintain (env : Env) (s : Session) (w : World) : option (Session * World) :=
  '(l, w) ← each_protocol (protocol_maintain env) (ses_protocols s) w;
  Some (mkSession (ses_info s) l, w).

(** Collecting the results stops at the first error: the protocols after it do
    not see the message. *)
Fixpoint each_on_message (env : Env) (command : Command) (payload : list byte) (l : list Protocol)
    (w : World) : option (result MessageError unit * list Protocol * World) :=
  match l with
  | [] => Some (Ok tt, [], w)
  | p :: l =>
      '(r, p, w) ← protocol_on_message env command payload p w;
      match r with
      | Err e => Some (Err e, p :: l, w)
      | Ok _ =>
          '(r, l, w) ← each_on_message env command payload l w;
          Some (r, p :: l, w)
      end
  end.

(** src: p2p/src/session.rs 63-74 on_message *)
Definition session_on_message (env : Env) (command : Command) (payload : list byte) (s : Session)
    (w : World) : option (result MessageError unit * Session * World) :=
  '(r, l, w) ← each_on_message env command payload (ses_protocols s) w;
  Some (r, mkSession (ses_info s) l, w).

(** src: p2p/src/session.rs 76-80 on_close *)
Definition session_on_close (s : Session) (w : World) : World :=
  foldl (λ w p, protocol_on_close p w) w (ses_protocols s).
End session.

(** ** Keeping a connection alive *)

Section keepalive.
Context {R : RugOps} {H : Sha256Ops} {V : VrfOps} {HL : Sha256Laws H}.

(** A request can be sent under any version that its message knows. *)
Lemma send_request_ok {M} {P : Payload M} {wf} {C : PayloadCodec M wf} (t : M) c :
  payload_version ≤ pc_version c → ∃ l, send_request t c = Some (add_sent l c).
Proof.
  intros Hv. unfold send_request, send_to_peer, to_message.
  destruct (payload_command_spec (M:=M)) as (cmd & Hc & _).
  destruct (pc_connected c).
  - rewrite (message_new_frame _ _ _ cmd Hc), (proj2 (Z.ltb_ge _ _)) by done. by eexists.
  - exists []. destruct c. unfold add_sent. cbn. by rewrite app_nil_r.
Qed.

(** Any message counts as a sign of life, whatever comes of it. *)
Lemma ping_heard env command payload p w r p' w' :
  ping_on_message env command payload p w = Some (r, p', w') →
  ping_state p' = WaitingTimeout (env_now env).
Proof.
  unfold ping_on_message. intros E. by repeat (case_match || simplify_option_eq).
Qed.

(** The calls of [maintain] at the times and with the nonces given. *)
Fixpoint ping_ticks (ticks : list Env) (p : PingProtocol) (w : World) : option (PingProtocol * World) :=
  match ticks with
  | [] => Some (p, w)
  | env :: ticks => '(p, w) ← ping_maintain env p w; ping_ticks ticks p w
  end.

(** Ticks in order, from time [t] on, at most [d] apart. *)
Fixpoint ticks_from (t d : Z) (ticks : list Env) : Prop :=
  match ticks with
  | [] => True
  | env :: ticks => t ≤ env_now env ≤ t + d ∧ ticks_from (env_now env) d ticks
  end.

Definition last_tick (t : Z) (ticks : list Env) : Z :=
  match list.last ticks with Some env => env_now env | None => t end.

Lemma last_tick_cons t env ticks : last_tick t (env :: ticks) = last_tick (env_now env) ticks.
Proof. unfold last_tick. rewrite last_cons. by destruct (list.last ticks). Qed.

Lemma ticks_from_last t d ticks : ticks_from t d ticks → t ≤ last_tick t ticks.
Proof.
  revert t. induction ticks as [|env ticks IH]; intros t Ht; [unfold last_tick; cbn; lia|].
  destruct Ht as [? Ht]. rewrite last_tick_cons. specialize (IH _ Ht). lia.
Qed.

Lemma elem_of_effect e w : e ∈ w_effects (effect e w).
Proof. cbn. set_solver. Qed.

(** One call: what it does by the state and the time. *)
Lemma ping_maintain_spec env p w : 0 ≤ pc_version (w_context w) →
  ∃ w', pc_version (w_context w') = pc_version (w_context w) ∧
  match ping_state p with
  | WaitingTimeout time =>
      if PING_INTERVAL <? env_now env - time then
        ping_maintain env p w =
          Some (mkPingProtocol (WaitingPong (env_now env)) (Some (env_nonce env)), w') ∧
        w_effects w' = w_effects w
      else ping_maintain env p w = Some (p, w') ∧ w_effects w' = w_effects w
  | WaitingPong time =>
      ping_maintain env p w = Some (p, w') ∧
      w_effects w' = w_effects w ++ if MAX_PING_RESPONSE_TIME <? env_now env - time then [CloseChannel] else []
  end.
Proof.
  intros Hv. unfold ping_maintain. destruct (ping_state p) as [time|time].
  - destruct (_ <? _); [|by exists w]. unfold with_context.
    destruct (send_request_ok (mkPing (env_nonce env)) (w_context w)) as [l ->]; [done|].
    exists (mkWorld (add_sent l (w_context w)) (w_effects w)). done.
  - destruct (_ <? _); [by exists (effect CloseChannel w)|]. exists w. by rewrite app_nil_r.
Qed.

(** Waiting for a pong, the last call decides. *)
Lemma waiting_pong_ticks ticks t d time p w : 0 ≤ pc_version (w_context w) →
  ping_state p = WaitingPong time → ticks_from t d ticks → ticks ≠ [] →
  ∃ w', ping_ticks ticks p w = Some (p, w') ∧
    (∀ e, e ∈ w_effects w → e ∈ w_effects w') ∧
    (MAX_PING_RESPONSE_TIME < last_tick t ticks - time → CloseChannel ∈ w_effects w') ∧
    (last_tick t ticks - time ≤ MAX_PING_RESPONSE_TIME → w_effects w' = w_effects w).
Proof.
  revert t w. induction ticks as [|env ticks IH]; intros t w Hv Hp Ht Hne; [done|].
  destruct Ht as [Ht0 Ht]. destruct (ping_maintain_spec env p w Hv) as (w1 & Ev & Hm). rewrite Hp in Hm.
  destruct Hm as [Em Ew]. cbn [ping_ticks]. rewrite Em. cbn [mbind option_bind]. rewrite last_tick_cons.
  destruct (decide (ticks = [])) as [->|Hne'].
  - exists w1. unfold last_tick. cbn. split_and!; [done|rewrite Ew; set_solver|..]; intros Hl.
    + rewrite Ew, (proj2 (Z.ltb_lt _ _)) by lia. set_solver.
    + rewrite Ew, (proj2 (Z.ltb_ge _ _)) by lia. by rewrite app_nil_r.
  - destruct (IH (env_now env) w1) as (w' & E & Hsub & Hc & Hk); [congruence|done..|].
    exists w'. split_and!; [done| |done|].
    + intros e He. apply Hsub. rewrite Ew. set_solver.
    + intros Hl. rewrite (Hk Hl), Ew. pose proof (ticks_from_last _ _ _ Ht).
      rewrite (proj2 (Z.ltb_ge _ _)) by lia. by rewrite app_nil_r.
Qed.

Lemma waiting_timeout_ticks ticks t d heard p w : 0 ≤ pc_version (w_context w) → 0 ≤ d →
  ping_state p = WaitingTimeout heard → ticks_from t d ticks → heard ≤ t ≤ heard + PING_INTERVAL →
  ∃ p' w', ping_ticks ticks p w = Some (p', w') ∧
    (heard + PING_INTERVAL + MAX_PING_RESPONSE_TIME + d < last_tick t ticks → CloseChannel ∈ w_effects w') ∧
    (last_tick t ticks ≤ heard + PING_INTERVAL + MAX_PING_RESPONSE_TIME → w_effects w' = w_effects w).
Proof.
  revert t w. induction ticks as [|env ticks IH]; intros t w Hv Hd Hp Ht Hr.
  { exists p, w. split_and!; [done| |done]. unfold last_tick. cbn. unfold MAX_PING_RESPONSE_TIME, NANOS. lia. }
  destruct Ht as [Ht0 Ht]. destruct (ping_maintain_spec env p w Hv) as (w1 & Ev & Hm). rewrite Hp in Hm.
  cbn [ping_ticks]. rewrite last_tick_cons.
  destruct (Z.ltb_spec PING_INTERVAL (env_now env - heard)) as [Hlt|Hge]; destruct Hm as [-> Ew];
    cbn [mbind option_bind].
  - destruct (decide (ticks = [])) as [->|Hne].
    + eexists _, w1. split_and!; [done| |done]. unfold last_tick. cbn.
      unfold MAX_PING_RESPONSE_TIME, NANOS. lia.
    + destruct (waiting_pong_ticks ticks (env_now env) d (env_now env)
        (mkPingProtocol (WaitingPong (env_now env)) (Some (env_nonce env))) w1) as (w' & E & _ & Hc & Hk);
        [congruence|done..|].
      eexists _, w'. split_and!; [exact E| |].
      * intros Hl. apply Hc. lia.
      * intros Hl. rewrite <-Ew. apply Hk. lia.
  - destruct (IH (env_now env) w1) as (p' & w' & E & Hc & Hk); [congruence|done..|lia|].
    exists p', w'. split_and!; [done|done|]. intros Hl. rewrite <-Ew. by apply Hk.
Qed.

(** The connection to a peer that has fallen silent is closed, and only
    that of such a peer.  After the last message of a peer, at time [heard],
    let the session be maintained at any times at most [d] apart (the node
    does it every ten seconds): it never fails; as soon as a call comes more
    than [120] seconds and [d] after [heard], the channel has been closed; and
    as long as no call comes later than [120] seconds after [heard], it has
    not. *)
Theorem silent_peer_closed ticks heard d nonce w : 0 ≤ pc_version (w_context w) → 0 ≤ d →
  ticks_from heard d ticks →
  ∃ p' w', ping_ticks ticks (mkPingProtocol (WaitingTimeout heard) nonce) w = Some (p', w') ∧
    (heard + 120 * NANOS + d < last_tick heard ticks → CloseChannel ∈ w_effects w') ∧
    (last_tick heard ticks ≤ heard + 120 * NANOS → w_effects w' = w_effects w).
Proof.
  intros Hv Hd Ht.
  destruct (waiting_timeout_ticks ticks heard d heard (mkPingProtocol (WaitingTimeout heard) nonce) w)
    as (p' & w' & E & Hc & Hk); [done..|unfold PING_INTERVAL, NANOS; lia|].
  exists p', w'. unfold PING_INTERVAL, MAX_PING_RESPONSE_TIME in *. split_and!; [done| |].
  - intros Hl. apply Hc. lia.
  - intros Hl. apply Hk. lia.
Qed.
End keepalive.

(** The connection is new when the session starts: the first call of
    [maintain], made by [initialize], sends no ping. *)
Lemma no_initial_ping {R : RugOps} {H : Sha256Ops} {V : VrfOps} env now w :
  env_now env - now ≤ PING_INTERVAL →
  ping_initialize env (ping_new now) w = Some (ping_new now, w).
Proof.
  intros Hn. unfold ping_initialize, ping_maintain. cbn [ping_state ping_new].
  by rewrite (proj2 (Z.ltb_ge _ _)).
Qed.

(** ** Exchanging addresses *)

Section addresses.
Context {R : RugOps} {H : Sha256Ops} {V : VrfOps}.
Context {HL : Sha256Laws H}.

(** A whole message is read by [ReadAnyMessage] as its command and its bytes. *)
Lemma poll_read_any_frame {A} {IO : AsyncIo A} {IL : AsyncIoLaws A} {M} {P : Payload M} {wf}
    {C : PayloadCodec M wf} cmd magic version (t : M) rest (a : A) :
  u32 magic → Z.of_nat (length (payload_enc version t)) < 2 ^ 32 →
  incoming a = frame cmd magic version t ++ rest →
  ∃ a', poll_read_any_message magic AnyHeader a = (Done (Ok (cmd, payload_enc version t)), a') ∧
    incoming a' = rest.
Proof.
  intros Hm Hlen Hi. destruct (frame_split cmd magic version t rest) as (Ht & Hd & Hl).
  assert (u32 (Z.of_nat (length (payload_enc version t)))) as Hu by (split; lia).
  unfold poll_read_any_message. rewrite poll_loop_S. cbn [read_any_message_step]. unfold poll_read_header.
  destruct (read_exact_ready 24 a) as (a1 & -> & Hi1 & _); [by rewrite Hi|]. rewrite Hi in *.
  rewrite Ht, header_deserialize_spec.
  2:{ split; [done|]. cbn [mh_len header_for_data]. by rewrite wrap_small. }
  cbn [mh_magic header_for_data]. rewrite decide_True by done. cbn [try_ready].
  rewrite poll_loop_S. cbn [read_any_message_step mh_len header_for_data].
  rewrite wrap_small, Nat2Z.id by done. rewrite Hd in Hi1.
  destruct (read_exact_ready (length (payload_enc version t)) a1) as (a2 & -> & Hi2 & _).
  { rewrite Hi1, length_app. lia. }
  rewrite Hi1, take_app_length, drop_app_length in *. cbn [try_ready mh_checksum header_for_data mh_command].
  rewrite bool_decide_false by tauto. by exists a2.
Qed.

(** The first response of a context is sent at once. *)
Lemma inline_fresh {M} {P : Payload M} {wf} {C : PayloadCodec M wf} magic version (t : M) cmd :
  command_from_str (@payload_command M P) = Ok cmd → payload_version ≤ version →
  ∃ c, send_response_inline t (peer_context_new magic version true) = Some c ∧
    pc_sent c = [frame cmd magic version t] ∧ pc_version c = version.
Proof.
  intros Hc Hv. unfold send_response_inline, pc_declare_response, send_response. cbn -[frame send_awaiting].
  unfold send_to_peer, to_message. cbn [pc_connected pc_magic pc_version set_sync].
  rewrite (message_new_frame _ _ _ cmd Hc), (proj2 (Z.ltb_ge _ _)) by done. cbn [mbind option_bind].
  unfold send_awaiting. cbn [pc_response_queue add_sent set_sync]. eexists. split; [reflexivity|done].
Qed.

(** A node as it is advertised. *)
Definition node_sendable (n : Node) : Prop :=
  u32 (node_time n) ∧ u64 (node_services n) ∧ ip_sendable (sa_ip (node_addr n)) ∧
  u16 (sa_port (node_addr n)) ∧ canonical (node_addr n).

Lemma address_entry_sendable n : node_sendable n → address_entry_wf (address_entry_of_node n).
Proof.
  intros (Ht & Hs & Hi & Hp & _). split; [|done]. cbn. by rewrite wrap_small.
Qed.

Lemma canonical_new a : canonical a → socket_addr_new (sa_ip a) (sa_port a) = a.
Proof. destruct a as [|s p f i]; [done|]. by intros [-> ->]. Qed.

(** Advertised nodes only ever get newer. *)
Lemma map_entry_time pref m e a n : m !! a = Some n →
  ∃ n', map_entry pref m e !! a = Some n' ∧ node_time n ≤ node_time n'.
Proof.
  intros E. unfold map_entry. destruct (decide (a = socket_addr_new (na_address (ae_address e)) (na_port (ae_address e)))) as [->|Hne].
  - rewrite lookup_partial_alter_eq, E. destruct (Z.ltb_spec (node_time n) (ae_timestamp e)); eexists; split; try done; cbn; lia.
  - rewrite lookup_partial_alter_ne by congruence. eexists. split; [done|lia].
Qed.

Lemma map_entries_time pref l m a n : m !! a = Some n →
  ∃ n', foldl (map_entry pref) m l !! a = Some n' ∧ node_time n ≤ node_time n'.
Proof.
  revert m n. induction l as [|e l IH]; intros m n E; [by exists n; split; [done|lia]|]. cbn [foldl].
  destruct (map_entry_time pref m e a n E) as (n1 & E1 & H1). destruct (IH _ _ E1) as (n' & E' & H').
  exists n'. split; [done|lia].
Qed.

Lemma map_entries_learn pref l m e : e ∈ l →
  ∃ n', foldl (map_entry pref) m l !!
      socket_addr_new (na_address (ae_address e)) (na_port (ae_address e)) = Some n' ∧
    ae_timestamp e ≤ node_time n'.
Proof.
  revert m. induction l as [|e' l IH]; intros m Hin; [by apply not_elem_of_nil in Hin|]. cbn [foldl].
  apply elem_of_cons in Hin as [<-|Hin]; [|by apply IH].
  assert (∃ n, map_entry pref m e !! socket_addr_new (na_address (ae_address e)) (na_port (ae_address e)) = Some n ∧
    ae_timestamp e ≤ node_time n) as (n & E & Hn).
  { unfold map_entry. rewrite lookup_partial_alter_eq. destruct (m !! _) as [n|]; [|by eexists].
    destruct (Z.ltb_spec (node_time n) (ae_timestamp e)); eexists; split; try done; cbn; lia. }
  destruct (map_entries_time pref l _ _ _ E) as (n' & E' & H'). exists n'. split; [done|lia].
Qed.

(** A session does with a message what the protocols it is for do. *)
Lemma normal_getaddr env cmd now info w :
  command_from_str (@payload_command GetAddr _) = Ok cmd →
  0 ≤ pc_version (w_context w) →
  session_on_message env cmd [] (normal_session now info) w =
    w ← with_context (send_response_inline (addr_new (address_entry_of_node <$> env_nodes env))) w;
    Some (Ok tt, mkSession info [PPing (mkPingProtocol (WaitingTimeout (env_now env)) None);
                                 PAddr (mkAddrProtocol false); PSync], w).
Proof.
  intros Hc Hv. assert (no_trailing_zero (@payload_command GetAddr _)) as Hz by done.
  pose proof (λ s', command_eq_from_str _ s' _ Hc Hz) as Heq.
  unfold session_on_message, normal_session, each_on_message, protocol_on_message.
  cbn [ses_protocols ses_info]. unfold ping_on_message, addr_on_message.
  rewrite !Heq. rewrite (bool_decide_false (@payload_command GetAddr _ = @payload_command Ping _)) by done.
  rewrite (bool_decide_false (@payload_command GetAddr _ = @payload_command Pong _)) by done.
  rewrite bool_decide_true by done. cbn [mbind option_bind].
  assert (deserialize_payload (T:=GetAddr) [] (pc_version (w_context w)) = Ok mkGetAddr) as ->.
  { exact (deserialize_payload_enc (M:=GetAddr) (pc_version (w_context w)) mkGetAddr Hv I). }
  destruct (with_context _ w) as [w1|]; [|done]. cbn [mbind option_bind].
  unfold sync_on_message. rewrite !Heq. rewrite !bool_decide_false by done. done.
Qed.

Lemma normal_addr env cmd now info entries w version :
  command_from_str (@payload_command Addr _) = Ok cmd →
  pc_version (w_context w) = version → addr_wf version (addr_new entries) → 0 ≤ version →
  session_on_message env cmd (payload_enc version (addr_new entries)) (normal_session now info) w =
    Some (Ok tt, mkSession info [PPing (mkPingProtocol (WaitingTimeout (env_now env)) None);
                                 PAddr (mkAddrProtocol false); PSync],
          effect (UpdateNodeTable entries) w).
Proof.
  intros Hc Hv Hw Hv0. assert (no_trailing_zero (@payload_command Addr _)) as Hz by done.
  pose proof (λ s', command_eq_from_str _ s' _ Hc Hz) as Heq.
  unfold session_on_message, normal_session, each_on_message, protocol_on_message.
  cbn [ses_protocols ses_info]. unfold ping_on_message, addr_on_message.
  rewrite !Heq. rewrite (bool_decide_false (@payload_command Addr _ = @payload_command Ping _)) by done.
  rewrite (bool_decide_false (@payload_command Addr _ = @payload_command Pong _)) by done.
  rewrite (bool_decide_false (@payload_command Addr _ = @payload_command GetAddr _)) by done.
  rewrite bool_decide_true by done. cbn [mbind option_bind].
  rewrite Hv, deserialize_payload_enc by done. cbn [addr_new is_seed_node_connection andb].
  cbn [mbind option_bind].
  unfold sync_on_message. rewrite !Heq. rewrite !bool_decide_false by done. done.
Qed.

(** A node learns the nodes its peer knows.  A peer asked with [getaddr]
    answers with one [addr] message for the nodes of its table that were seen
    last, up to a thousand; the node that asked reads it off the connection,
    its session accepts it and updates its own table with exactly those
    entries; and afterwards it knows every advertised node that does not claim
    to be seen in the future, as seen at least as late as advertised. *)
Theorem address_exchange {A} {IO : AsyncIo A} {IL : AsyncIoLaws A} magic version protocol
    (table table' : NodeTable) env env' info info' now now' cmd w' :
  u32 magic → 31402 ≤ version →
  table_ok table' → env_nodes env = recently_active_nodes protocol table →
  (∀ n, n ∈ recently_active_nodes protocol table → node_sendable n) →
  let entries := address_entry_of_node <$> recently_active_nodes protocol table in
  Z.of_nat (length (payload_enc version (addr_new entries))) < 2 ^ 32 →
  command_from_str (@payload_command GetAddr _) = Ok cmd →
  pc_version (w_context w') = version →
  ∃ s w bytes,
    session_on_message env cmd [] (normal_session now info)
      (mkWorld (peer_context_new magic version true) []) = Some (Ok tt, s, w) ∧
    pc_sent (w_context w) = [bytes] ∧
    (∀ (a : A) rest, incoming a = bytes ++ rest →
     ∃ cmd' payload a' s',
       poll_read_any_message magic AnyHeader a = (Done (Ok (cmd', payload)), a') ∧ incoming a' = rest ∧
       session_on_message env' cmd' payload (normal_session now' info') w' =
         Some (Ok tt, s', effect (UpdateNodeTable entries) w')) ∧
    ∃ learned, insert_many (env_now env') entries table' = Some learned ∧ table_ok learned ∧
      ∀ n, n ∈ recently_active_nodes protocol table → node_time n ≤ env_now env' →
        ∃ n', by_addr learned !! node_addr n = Some n' ∧ node_time n ≤ node_time n'.
Proof.
  intros Hm Hv Ht' Henv Hsend entries Hlen Hc Hw'.
  destruct (payload_command_spec (M:=Addr)) as (cmd' & Hc' & _).
  assert (Forall address_entry_wf entries) as Hwf.
  { apply Forall_fmap, list.Forall_forall. intros n Hn. by apply address_entry_sendable, Hsend. }
  assert (Z.of_nat (length entries) ≤ 1000) as Hmax.
  { unfold entries, recently_active_nodes. rewrite length_fmap, length_take. lia. }
  assert (addr_wf version (addr_new entries)) as Haddr.
  { split; [done|]. split; [|done]. split; [|done]. unfold fits. lia. }
  rewrite (normal_getaddr env cmd now info) by (done || cbn; lia). unfold with_context. cbn [w_context].
  destruct (inline_fresh magic version (addr_new entries) cmd' Hc') as (c & Ec & Es & _); [cbn; lia|].
  rewrite Henv. fold entries. rewrite Ec. cbn [mbind option_bind w_effects].
  eexists _, _, _. split; [reflexivity|]. split; [exact Es|]. split.
  - intros a rest Hi.
    destruct (poll_read_any_frame cmd' magic version (addr_new entries) rest a Hm Hlen Hi) as (a' & E & Hr).
    eexists _, _, a', _. split; [exact E|]. split; [exact Hr|]. apply normal_addr; (done || lia).
  - destruct (insert_many_follows table' (filter (λ e, ae_timestamp e ≤ env_now env') entries) Ht')
      as (learned & E & Hok & Em & _).
    exists learned. split; [exact E|]. split; [done|]. intros n Hn Hnow.
    destruct (Hsend n Hn) as (Hu & _ & _ & _ & Hca).
    assert (ae_timestamp (address_entry_of_node n) = node_time n) as Et by (cbn; by rewrite wrap_small).
    destruct (map_entries_learn (preferable_services table')
      (filter (λ e, ae_timestamp e ≤ env_now env') entries) (by_addr table') (address_entry_of_node n))
      as (n' & E' & Hn').
    { apply list_elem_of_filter. rewrite Et. split; [done|]. by apply list_elem_of_fmap_2. }
    exists n'. cbn [address_entry_of_node ae_address na_address na_port] in E'.
    rewrite canonical_new in E' by done. rewrite Em. split; [done|]. by rewrite Et in Hn'.
Qed.
End addresses.

(** ** Runs *)

Import Reference.

Definition example_tick (seconds : Z) : Env := mkEnv (seconds * NANOS) seconds [] false.
Definition example_world : World := mkWorld (peer_context_new MAGIC_TESTNET 70012 true) [].

(** Called every ten seconds, the session closes after a hundred and thirty. *)
Lemma silent_peer_closed_witness :
  ∃ p' w', ping_ticks (example_tick <$> ((λ i, Z.of_nat i * 10) <$> seq 1 14))
      (mkPingProtocol (WaitingTimeout 0) None) example_world = Some (p', w') ∧
    CloseChannel ∈ w_effects w'.
Proof.
  destruct (silent_peer_closed (example_tick <$> ((λ i, Z.of_nat i * 10) <$> seq 1 14)) 0 (10 * NANOS) None
    example_world) as (p' & w' & E & Hc & _).
  - vm_compute. discriminate.
  - vm_compute. discriminate.
  - cbn. unfold NANOS. lia.
  - exists p', w'. split; [exact E|]. apply Hc. vm_compute. reflexivity.
Defined.

Definition example_info : PeerInfo :=
  mkPeerInfo 1 (addr4 10 0 0 9 8333) [] Inbound 70012 (example_version 70012 5) MAGIC_TESTNET.

Lemma example_sendable n : n ∈ recently_active_nodes AnyProtocol example_table → node_sendable n.
Proof.
  intros Hn. apply (list.Forall_forall (λ n, node_sendable n) (recently_active_nodes AnyProtocol example_table)); [|done].
  repeat constructor; cbn; try lia; try done.
Qed.

Lemma address_exchange_witness :
  ∃ cmd s w bytes learned,
    command_from_str (name "getaddr") = Ok cmd ∧
    session_on_message (mkEnv 0 0 (recently_active_nodes AnyProtocol example_table) false) cmd []
      (normal_session 0 example_info) (mkWorld (peer_context_new MAGIC_TESTNET 70012 true) []) =
      Some (Ok tt, s, w) ∧ pc_sent (w_context w) = [bytes] ∧
    insert_many 100 (address_entry_of_node <$> recently_active_nodes AnyProtocol example_table)
      (node_table_new 1) = Some learned ∧
    is_Some (by_addr learned !! addr4 10 0 0 2 8333).
Proof.
  destruct (payload_command_spec (M:=GetAddr)) as (cmd & Hc & _).
  destruct (address_exchange (A:=Pipe) MAGIC_TESTNET 70012 AnyProtocol example_table (node_table_new 1)
    (mkEnv 0 0 (recently_active_nodes AnyProtocol example_table) false) (mkEnv 100 0 [] false)
    example_info example_info 0 0 cmd example_world)
    as (s & w & bytes & E & Es & _ & learned & El & _ & Hl).
  - unfold fits. vm_compute. split; [discriminate|reflexivity].
  - lia.
  - apply table_ok_new.
  - reflexivity.
  - exact example_sendable.
  - vm_compute. reflexivity.
  - exact Hc.
  - reflexivity.
  - exists cmd, s, w, bytes, learned. split; [exact Hc|]. split; [exact E|]. split; [exact Es|].
    split; [exact El|].
    destruct (Hl (mkNode (addr4 10 0 0 2 8333) 2 1 false 0)) as (n' & En & _);
      [apply (bool_decide_unpack _); vm_compute; exact I|cbn; lia|]. exists n'. exact En.
Defined.
