(* ===== verification/P2pContext.v ===== *)
(** * The connections of a node ([p2p/src/p2p.rs], [p2p/src/net])

    The context counts open connections in two atomic counters, keeps the
    channels by peer id, and feeds the node table.  The futures that are under
    way (a connection being made, a handshake being answered) are part of the
    state, so that the counters can be compared with what is really open.  A
    session's part in handling a message is its result and its effects
    ([Session.v]); they are data of the event here. *)

From S2P Require Import Prelude External Primitives Serialization Compact Crypto Chain Network Utf8.
From S2P Require Import Message MessageTypes MessageIo Responses BTree NodeTable Session.
From stdpp Require Import gmap.
#[local] Open Scope Z_scope.

(** ** Counters *)

(** src: p2p/src/net/connection_counter.rs 5-14 ConnectionCounter *)
Record ConnectionCounter := mkCounter {
  current_inbound_connections : Z;
  current_outbound_connections : Z;
  max_inbound_connections : Z;
  max_outbound_connections : Z;
}.

(** src: p2p/src/net/connection_counter.rs 17-24 new *)
Definition counter_new (max_in max_out : Z) : ConnectionCounter := mkCounter 0 0 max_in max_out.

(** [fetch_add(1)] and [fetch_sub(1)] on a [usize]. *)
Definition fetch_add1 (n : Z) : Z := wrap 64 (n + 1).
Definition fetch_sub1 (n : Z) : Z := wrap 64 (n - 1).

(** src: p2p/src/net/connection_counter.rs 27-30 note_new_inbound_connection *)
Definition note_new_inbound_connection (c : ConnectionCounter) : ConnectionCounter :=
  mkCounter (fetch_add1 (current_inbound_connections c)) (current_outbound_connections c)
    (max_inbound_connections c) (max_outbound_connections c).

(** src: p2p/src/net/connection_counter.rs 34-37 note_close_inbound_connection *)
Definition note_close_inbound_connection (c : ConnectionCounter) : ConnectionCounter :=
  mkCounter (fetch_sub1 (current_inbound_connections c)) (current_outbound_connections c)
    (max_inbound_connections c) (max_outbound_connections c).

(** src: p2p/src/net/connection_counter.rs 40-43 note_new_outbound_connection *)
Definition note_new_outbound_connection (c : ConnectionCounter) : ConnectionCounter :=
  mkCounter (current_inbound_connections c) (fetch_add1 (current_outbound_connections c))
    (max_inbound_connections c) (max_outbound_connections c).

(** src: p2p/src/net/connection_counter.rs 47-50 note_close_outbound_connection *)
Definition note_close_outbound_connection (c : ConnectionCounter) : ConnectionCounter :=
  mkCounter (current_inbound_connections c) (fetch_sub1 (current_outbound_connections c))
    (max_inbound_connections c) (max_outbound_connections c).

(** src: p2p/src/net/connection_counter.rs 65-68 inbound_connections *)
Definition inbound_connections (c : ConnectionCounter) : Z * Z :=
  (wrap 32 (current_inbound_connections c), max_inbound_connections c).

(** src: p2p/src/net/connection_counter.rs 71-74 outbound_connections *)
Definition outbound_connections (c : ConnectionCounter) : Z * Z :=
  (wrap 32 (current_outbound_connections c), max_outbound_connections c).

(** src: p2p/src/net/connection_counter.rs 53-56 inbound_connections_needed *)
Definition inbound_connections_needed (c : ConnectionCounter) : Z :=
  let ic := inbound_connections c in ic.2 - Z.min ic.1 ic.2.

(** src: p2p/src/net/connection_counter.rs 59-62 outbound_connections_needed *)
Definition outbound_connections_needed (c : ConnectionCounter) : Z :=
  let oc := outbound_connections c in oc.2 - Z.min oc.1 oc.2.

(** ** Connections *)

(** src: p2p/src/net/connection.rs 7-14 Connection *)
Record Connection := mkConnection {
  con_version : Z;
  con_version_message : Version;
  con_magic : Z;
  con_services : Services;
  con_address : SocketAddr;
}.

(** A channel is what is known of its peer; its stream and session are not
    looked at here. *)
(** src: p2p/src/net/connections.rs 14-20 Connections *)
Record Connections := mkConnections {
  peer_counter : Z;
  channels : gmap Z PeerInfo;
}.

(** src: p2p/src/net/connections.rs 56-84 store *)
Definition connections_store (connection : Connection) (direction : Direction) (cs : Connections) :
    PeerInfo * Connections :=
  let id := peer_counter cs in
  let peer_info := mkPeerInfo id (con_address connection)
    (default (name "unknown") (version_user_agent (con_version_message connection)))
    direction (con_version connection) (con_version_message connection) (con_magic connection) in
  (peer_info, mkConnections (fetch_add1 id) (<[id := peer_info]> (channels cs))).

(** src: p2p/src/net/connections.rs 87-89 remove *)
Definition connections_remove (id : Z) (cs : Connections) : option PeerInfo * Connections :=
  (channels cs !! id, mkConnections (peer_counter cs) (delete id (channels cs))).

(** src: p2p/src/net/connections.rs 34-39 addresses *)
Definition connections_addresses (cs : Connections) : gset SocketAddr :=
  list_to_set ((λ kv, pi_address kv.2) <$> map_to_list (channels cs)).

(** ** The context *)

(** A future under way. *)
Inductive PendingConnection :=
| Connecting (socket : SocketAddr)
| Accepting (socket : SocketAddr).

(** The last field is the servers that listen, each a stream of connections that
    are handled one after another: [None] is one that waits for a connection,
    [Some socket] one that has found a connection to be needed and has not
    accepted it yet. *)
(** src: p2p/src/p2p.rs 29-45 Context *)
Record Context := mkContext {
  cx_connections : Connections;
  cx_counter : ConnectionCounter;
  cx_table : NodeTable;
  cx_services : Services;
  cx_protocol : InternetProtocol;
  cx_port : Z;
  cx_pending : list PendingConnection;
  cx_listeners : list (option SocketAddr);
}.

Definition cx_with (cs : Connections) (cc : ConnectionCounter) (t : NodeTable)
    (pending : list PendingConnection) (c : Context) : Context :=
  mkContext cs cc t (cx_services c) (cx_protocol c) (cx_port c) pending (cx_listeners c).

(** What becomes of a connection attempt: [DeadlineStatus::Meet(Ok)], or one of
    the three failures, which are handled alike. *)
Inductive ConnectResult :=
| Meet (connection : Connection)
| MeetError
| TimedOut
| NetworkError.

(** src: p2p/src/p2p.rs 255-269 connect *)
Definition context_connect (socket : SocketAddr) (c : Context) : Context :=
  cx_with (cx_connections c) (note_new_outbound_connection (cx_counter c)) (cx_table c)
    (cx_pending c ++ [Connecting socket]) c.

Section context.
Context {P : Profile}.

(** src: p2p/src/p2p.rs 206-249 connect_future *)
Definition connect_done (now : Z) (socket : SocketAddr) (r : ConnectResult) (c : Context) : option Context :=
  match r with
  | Meet connection =>
      t ← table_insert now (con_address connection) (con_services connection) (cx_table c);
      let '(_, cs) := connections_store connection Outbound (cx_connections c) in
      Some (cx_with cs (cx_counter c) t (cx_pending c) c)
  | _ =>
      t ← note_failure socket (cx_table c);
      Some (cx_with (cx_connections c) (note_close_outbound_connection (cx_counter c)) t (cx_pending c) c)
  end.

(** [SocketAddr::set_port] *)
Definition set_port (a : SocketAddr) (port : Z) : SocketAddr :=
  match a with SA4 ip _ => SA4 ip port | SA6 ip _ f s => SA6 ip port f s end.

(** src: p2p/src/p2p.rs 284-336 accept_connection_future *)
Definition accept_done (now : Z) (socket : SocketAddr) (r : ConnectResult) (c : Context) : option Context :=
  match r with
  | Meet connection =>
      let addr := set_port (con_address connection) (cx_port c) in
      t ← table_insert now addr (con_services connection) (cx_table c);
      let '(_, cs) := connections_store connection Inbound (cx_connections c) in
      Some (cx_with cs (cx_counter c) t (cx_pending c) c)
  | _ =>
      t ← note_failure socket (cx_table c);
      Some (cx_with (cx_connections c) (note_close_inbound_connection (cx_counter c)) t (cx_pending c) c)
  end.

(** src: p2p/src/p2p.rs 341-356 accept_connection *)
Definition accept_connection (socket : SocketAddr) (c : Context) : Context :=
  cx_with (cx_connections c) (note_new_inbound_connection (cx_counter c)) (cx_table c)
    (cx_pending c ++ [Accepting socket]) c.

Definition set_listener (j : nat) (l : option SocketAddr) (c : Context) : Context :=
  mkContext (cx_connections c) (cx_counter c) (cx_table c) (cx_services c) (cx_protocol c) (cx_port c)
    (cx_pending c) (<[j := l]> (cx_listeners c)).

(** A server is started; it waits for its first connection. *)
(** src: p2p/src/p2p.rs 359-368 listen *)
Definition context_listen (c : Context) : Context :=
  mkContext (cx_connections c) (cx_counter c) (cx_table c) (cx_services c) (cx_protocol c) (cx_port c)
    (cx_pending c) (cx_listeners c ++ [None]).

(** The counter is read when a connection comes in and written when it is
    accepted; in between other futures may run.  First the reading, by the
    server at place [j] if it is not busy with another connection: one that is
    not needed is shut down. *)
(** src: p2p/src/p2p.rs 369-378 listen *)
Definition incoming_connection (j : nat) (socket : SocketAddr) (c : Context) : Context :=
  match cx_listeners c !! j with
  | Some None => if 0 <? inbound_connections_needed (cx_counter c) then set_listener j (Some socket) c else c
  | _ => c
  end.

(** Then the accepting; the server takes the next connection. *)
(** src: p2p/src/p2p.rs 374-381 listen *)
Definition incoming_accepted (j : nat) (c : Context) : Context :=
  match cx_listeners c !! j with
  | Some (Some socket) => set_listener j None (accept_connection socket c)
  | _ => c
  end.

Definition note_close (d : Direction) (cc : ConnectionCounter) : ConnectionCounter :=
  match d with
  | Inbound => note_close_inbound_connection cc
  | Outbound => note_close_outbound_connection cc
  end.

(** src: p2p/src/p2p.rs 493-504 close_channel *)
Definition close_channel (id : Z) (c : Context) : Context :=
  match connections_remove id (cx_connections c) with
  | (Some info, cs) => cx_with cs (note_close (pi_direction info) (cx_counter c)) (cx_table c) (cx_pending c) c
  | (None, _) => c
  end.

(** src: p2p/src/p2p.rs 507-523 close_channel_with_error *)
Definition close_channel_with_error (id : Z) (c : Context) : option Context :=
  match connections_remove id (cx_connections c) with
  | (Some info, cs) =>
      t ← note_failure (pi_address info) (cx_table c);
      Some (cx_with cs (note_close (pi_direction info) (cx_counter c)) t (cx_pending c) c)
  | (None, _) => Some c
  end.

(** What reading a message from a channel and handing it to its session gave. *)
Inductive ReadOutcome := Handled_ok | Handled_error | Read_error.

(** The future has the channel itself, also after the channel was removed from
    the connections. *)
(** src: p2p/src/p2p.rs 388-429 on_message *)
Definition context_on_message (now : Z) (info : PeerInfo) (r : ReadOutcome) (c : Context) : option Context :=
  match r with
  | Handled_ok =>
      t ← note_used now (pi_address info) (cx_table c);
      Some (cx_with (cx_connections c) (cx_counter c) t (cx_pending c) c)
  | Handled_error | Read_error => close_channel_with_error (pi_id info) c
  end.

(** The part of the ten-second timer that makes connections. *)
(** src: p2p/src/p2p.rs 156-174 autoconnect *)
Definition autoconnect (c : Context) : Context :=
  let needed := outbound_connections_needed (cx_counter c) in
  if needed =? 0 then c
  else
    let used_addresses := connections_addresses (cx_connections c) in
    let peers := nodes_with_services 0 (cx_protocol c) used_addresses (Z.to_nat needed) (cx_table c) in
    foldl (λ c address, context_connect address c) c (node_addr <$> peers).

(** src: p2p/src/p2p.rs 112-115 update_node_table *)
Definition update_node_table (now : Z) (nodes : list AddressEntry) (c : Context) : option Context :=
  t ← insert_many now nodes (cx_table c);
  Some (cx_with (cx_connections c) (cx_counter c) t (cx_pending c) c).

(** src: p2p/src/p2p.rs 118-121 penalize_node *)
Definition penalize_node (addr : SocketAddr) (c : Context) : option Context :=
  t ← note_failure addr (cx_table c);
  Some (cx_with (cx_connections c) (cx_counter c) t (cx_pending c) c).

(** src: p2p/src/p2p.rs 124-129 add_node *)
Definition add_node (now : Z) (addr : SocketAddr) (c : Context) :
    option (result NodeTableError unit * Context) :=
  '(r, t) ← table_add now addr (cx_services c) (cx_table c);
  Some (r, cx_with (cx_connections c) (cx_counter c) t (cx_pending c) c).

(** src: p2p/src/p2p.rs 132-135 remove_node *)
Definition remove_node (addr : SocketAddr) (c : Context) : result NodeTableError unit * Context :=
  let '(r, t) := table_remove addr (cx_table c) in
  (r, cx_with (cx_connections c) (cx_counter c) t (cx_pending c) c).

(** src: p2p/src/p2p.rs 105-109 node_table_entries *)
Definition node_table_entries (c : Context) : list Node := recently_active_nodes (cx_protocol c) (cx_table c).
End context.

(** src: p2p/src/p2p.rs 49-72 new *)
Definition context_new (table : NodeTable) (services : Services) (protocol : InternetProtocol)
    (port max_in max_out : Z) : Context :=
  mkContext (mkConnections 0 ∅) (counter_new max_in max_out) table services protocol port [] [].

(** ** Runs of the context *)

Inductive P2pEvent :=
| EvConnect (socket : SocketAddr)
| EvConnectDone (i : nat) (now : Z) (r : ConnectResult)
| EvIncoming (j : nat) (socket : SocketAddr)
| EvAccept (j : nat)
| EvAcceptDone (i : nat) (now : Z) (r : ConnectResult)
| EvMessage (now : Z) (info : PeerInfo) (r : ReadOutcome)
| EvClose (id : Z)
| EvAutoconnect
| EvUpdateTable (now : Z) (entries : list AddressEntry)
| EvPenalize (addr : SocketAddr)
| EvAdd (now : Z) (addr : SocketAddr)
| EvRemove (addr : SocketAddr).

Section runs.
Context {P : Profile}.

Definition drop_pending (i : nat) (c : Context) : Context :=
  cx_with (cx_connections c) (cx_counter c) (cx_table c) (delete i (cx_pending c)) c.

(** A future completes once: [i] is its place among those under way. *)
Definition p2p_step (c : Context) (e : P2pEvent) : option Context :=
  match e with
  | EvConnect socket => Some (context_connect socket c)
  | EvConnectDone i now r =>
      match cx_pending c !! i with
      | Some (Connecting socket) => connect_done now socket r (drop_pending i c)
      | _ => Some c
      end
  | EvIncoming j socket => Some (incoming_connection j socket c)
  | EvAccept j => Some (incoming_accepted j c)
  | EvAcceptDone i now r =>
      match cx_pending c !! i with
      | Some (Accepting socket) => accept_done now socket r (drop_pending i c)
      | _ => Some c
      end
  | EvMessage now info r => context_on_message now info r c
  | EvClose id => Some (close_channel id c)
  | EvAutoconnect => Some (autoconnect c)
  | EvUpdateTable now entries => update_node_table now entries c
  | EvPenalize addr => penalize_node addr c
  | EvAdd now addr => snd <$> add_node now addr c
  | EvRemove addr => Some (snd (remove_node addr c))
  end.

Definition result_canonical (r : ConnectResult) : Prop :=
  match r with Meet connection => canonical (con_address connection) | _ => True end.

Definition event_canonical (e : P2pEvent) : Prop :=
  match e with
  | EvConnectDone _ _ r | EvAcceptDone _ _ r => result_canonical r
  | EvAdd _ addr => canonical addr
  | _ => True
  end.

(** ** What is open *)

Definition pending_dir (p : PendingConnection) : Direction :=
  match p with Connecting _ => Outbound | Accepting _ => Inbound end.

Definition pending_count (d : Direction) (l : list PendingConnection) : nat :=
  length (filter (λ p, pending_dir p = d) l).

Definition channel_count (d : Direction) (m : gmap Z PeerInfo) : nat :=
  size (filter (λ kv, pi_direction kv.2 = d) m).

Definition open_count (d : Direction) (c : Context) : nat :=
  (pending_count d (cx_pending c) + channel_count d (channels (cx_connections c)))%nat.

Definition current (d : Direction) (cc : ConnectionCounter) : Z :=
  match d with Inbound => current_inbound_connections cc | Outbound => current_outbound_connections cc end.

Lemma pending_count_snoc d l p :
  pending_count d (l ++ [p]) = (pending_count d l + if bool_decide (pending_dir p = d) then 1 else 0)%nat.
Proof.
  unfold pending_count. rewrite filter_app, length_app, filter_cons, filter_nil.
  case_decide as Hd; [rewrite bool_decide_true by done|rewrite bool_decide_false by done]; done.
Qed.

Lemma pending_count_delete d l i p : l !! i = Some p →
  pending_count d l = (pending_count d (delete i l) + if bool_decide (pending_dir p = d) then 1 else 0)%nat.
Proof.
  intros E. unfold pending_count. rewrite (delete_Permutation l i p E) at 1.
  rewrite filter_cons.
  case_decide as Hd; [rewrite bool_decide_true by done|rewrite bool_decide_false by done]; cbn; lia.
Qed.

Lemma channel_count_insert d m id info : m !! id = None →
  channel_count d (<[id := info]> m) = (channel_count d m + if bool_decide (pi_direction info = d) then 1 else 0)%nat.
Proof.
  intros E. unfold channel_count. case_bool_decide as Hd.
  - rewrite map_filter_insert_True by done. rewrite map_size_insert_None; [lia|].
    apply map_lookup_filter_None. by left.
  - rewrite map_filter_insert_False by done. rewrite delete_id by done. lia.
Qed.

Lemma channel_count_delete d m id info : m !! id = Some info →
  channel_count d m = (channel_count d (delete id m) + if bool_decide (pi_direction info = d) then 1 else 0)%nat.
Proof.
  intros E. rewrite <-(channel_count_insert d (delete id m) id info) by apply lookup_delete_eq.
  by rewrite insert_delete_id.
Qed.

(** ** The invariant *)

(** The servers that have found a connection to be needed and have yet to count it. *)
Definition checked_count (c : Context) : nat := length (filter is_Some (cx_listeners c)).

Section counting.
Variables (max_in : Z) (listeners : nat).

(** After [k] events, with at most [total] connections open: the counters are
    what is open, peer ids are fresh, the connections let in and about to be let
    in are at most the configured number and one more for every server after the
    first, and the node table is in order. *)
Record context_ok (k : nat) (total : Z) (c : Context) : Prop := {
  ok_counter d : current d (cx_counter c) = Z.of_nat (open_count d c);
  ok_total : Z.of_nat (length (cx_pending c) + size (channels (cx_connections c))) ≤ total;
  ok_ids id info : channels (cx_connections c) !! id = Some info →
    pi_id info = id ∧ 0 ≤ id < peer_counter (cx_connections c);
  ok_peer_counter : 0 ≤ peer_counter (cx_connections c) ≤ Z.of_nat k;
  ok_limits : max_inbound_connections (cx_counter c) = max_in ∧ u32 (max_outbound_connections (cx_counter c)) ∧
    current_inbound_connections (cx_counter c) + Z.of_nat (checked_count c) ≤ max_in + Z.of_nat (pred listeners);
  ok_table : table_ok (cx_table c) ∧ failures_below (Z.of_nat k) (by_addr (cx_table c));
  ok_listeners : length (cx_listeners c) = listeners ∧ 0 ≤ max_in ∧ max_in + Z.of_nat (pred listeners) < 2 ^ 32;
}.

Lemma length_pending_count l : (length l = pending_count Inbound l + pending_count Outbound l)%nat.
Proof.
  induction l as [|p l IH]; [done|]. unfold pending_count in *. rewrite !filter_cons.
  destruct p; cbn [pending_dir]; do 2 (case_decide; try done); cbn [length]; lia.
Qed.

Lemma size_channel_count m : (size m = channel_count Inbound m + channel_count Outbound m)%nat.
Proof.
  induction m as [|id info m E IH] using map_ind; [done|].
  rewrite map_size_insert_None, !channel_count_insert by done.
  destruct (pi_direction info); repeat case_bool_decide; try done; lia.
Qed.

(** The node table moves by one of its operations. *)
Lemma table_moves k T c t' o : context_ok k T c → Z.of_nat k + 1 < 2 ^ 32 → op_canonical o →
  table_op (cx_table c) o = Some t' →
  table_ok t' ∧ failures_below (Z.of_nat (S k)) (by_addr t').
Proof.
  intros Hok Hk Ho E. destruct (ok_table _ _ _ Hok) as [Ht Hf].
  destruct (table_op_follows (cx_table c) o Ht Ho) as (t & Et & Htok & Em & _).
  { intros a n Ea. specialize (Hf a n Ea). lia. }
  rewrite E in Et. injection Et as <-. split; [done|]. rewrite Em, Nat2Z.inj_succ.
  apply map_op_failures; [lia|done].
Qed.

Lemma table_defined k T c o : context_ok k T c → Z.of_nat k + 1 < 2 ^ 32 → op_canonical o →
  ∃ t', table_op (cx_table c) o = Some t' ∧ table_ok t' ∧ failures_below (Z.of_nat (S k)) (by_addr t').
Proof.
  intros Hok Hk Ho. destruct (ok_table _ _ _ Hok) as [Ht Hf].
  destruct (table_op_follows (cx_table c) o Ht Ho) as (t & Et & _).
  { intros a n Ea. specialize (Hf a n Ea). lia. }
  exists t. split; [done|]. by eapply table_moves.
Qed.

(** The counters after an event, from what is open after it. *)
Lemma counter_step n : 0 ≤ n < 2 ^ 64 - 1 → fetch_add1 n = n + 1.
Proof. intros. unfold fetch_add1. apply wrap_small. unfold fits. lia. Qed.

Lemma counter_back n : 0 < n < 2 ^ 64 → fetch_sub1 n = n - 1.
Proof. intros. unfold fetch_sub1. apply wrap_small. unfold fits. lia. Qed.

Lemma open_total c : (open_count Inbound c + open_count Outbound c =
  length (cx_pending c) + size (channels (cx_connections c)))%nat.
Proof. unfold open_count. rewrite length_pending_count, size_channel_count. lia. Qed.

Lemma failures_weaken k k' m : k ≤ k' → failures_below k m → failures_below k' m.
Proof. intros Hk Hf a n E. specialize (Hf a n E). lia. Qed.

(** Decides the directions of a case and computes the counters. *)
Ltac count_cases :=
  cbn [pending_dir pi_direction] in *; repeat case_bool_decide; try done;
  cbn [current note_close note_new_inbound_connection note_new_outbound_connection
    note_close_inbound_connection note_close_outbound_connection current_inbound_connections
    current_outbound_connections max_inbound_connections max_outbound_connections] in *.

(** Only the table changes. *)
Lemma ok_set_table k T c t : context_ok k T c →
  table_ok t ∧ failures_below (Z.of_nat (S k)) (by_addr t) →
  context_ok (S k) T (cx_with (cx_connections c) (cx_counter c) t (cx_pending c) c).
Proof.
  intros [H1 H2 H3 H4 H5 H6 H7] Ht. split; try done. cbn. lia.
Qed.

Lemma ok_same k T c : context_ok k T c → context_ok (S k) T c.
Proof.
  intros [H1 H2 H3 H4 H5 [Ht Hf] H7]. split; try done; [lia|]. split; [done|].
  eapply failures_weaken; [|done]. lia.
Qed.

(** One more connection being made. *)
Lemma ok_pending k T c p cc : context_ok k T c → T < 2 ^ 64 - 1 →
  cc = match p with
       | Connecting _ => note_new_outbound_connection (cx_counter c)
       | Accepting _ => note_new_inbound_connection (cx_counter c)
       end →
  (pending_dir p = Inbound →
    current_inbound_connections (cx_counter c) + Z.of_nat (checked_count c) < max_in + Z.of_nat (pred listeners)) →
  context_ok k (T + 1) (cx_with (cx_connections c) cc (cx_table c) (cx_pending c ++ [p]) c).
Proof.
  intros Hok HT -> Hlim. pose proof (open_total c) as Hopen.
  pose proof (ok_counter _ _ _ Hok Inbound) as Hin. pose proof (ok_counter _ _ _ Hok Outbound) as Hout.
  destruct Hok as [H1 H2 H3 H4 (H5a & H5b & H5c) H6 H7]. cbn [current] in Hin, Hout.
  split; try done.
  - intros d. unfold open_count. cbn [cx_pending cx_connections cx_with cx_counter].
    rewrite pending_count_snoc. unfold open_count in *.
    destruct p, d; count_cases; rewrite ?counter_step by lia; lia.
  - cbn [cx_pending cx_connections cx_with]. rewrite length_app. cbn [length]. lia.
  - destruct p; cbn; [done|]. split; [exact H5a|]. split; [exact H5b|].
    specialize (Hlim eq_refl). unfold checked_count in *. rewrite counter_step by (cbn in *; lia).
    cbn [cx_listeners cx_with]. lia.
Qed.

(** A connection under way that failed. *)
Lemma ok_pending_failed k T c i p t : context_ok k T c → T < 2 ^ 64 → cx_pending c !! i = Some p →
  table_ok t ∧ failures_below (Z.of_nat (S k)) (by_addr t) →
  context_ok (S k) T
    (cx_with (cx_connections c) (note_close (pending_dir p) (cx_counter c)) t (delete i (cx_pending c)) c).
Proof.
  intros Hok HT Ei Ht. pose proof (open_total c) as Hopen.
  pose proof (ok_counter _ _ _ Hok Inbound) as Hin. pose proof (ok_counter _ _ _ Hok Outbound) as Hout.
  destruct Hok as [H1 H2 H3 H4 (H5a & H5b & H5c) H6 H7]. cbn [current] in Hin, Hout.
  pose proof (length_delete (cx_pending c) i (mk_is_Some _ _ Ei)) as Hlen.
  pose proof (lookup_lt_Some _ _ _ Ei) as Hi.
  assert (∀ d, pending_count d (cx_pending c) = (pending_count d (delete i (cx_pending c)) +
    if bool_decide (pending_dir p = d) then 1 else 0)%nat) as Hc by (intros; by apply pending_count_delete).
  pose proof (Hc Inbound) as HcI. pose proof (Hc Outbound) as HcO.
  split; try done.
  - intros d. unfold open_count in *. cbn [cx_pending cx_connections cx_with cx_counter].
    destruct p, d; count_cases; rewrite ?counter_back by lia; lia.
  - cbn [cx_pending cx_connections cx_with]. lia.
  - cbn. lia.
  - cbn [cx_counter cx_with]. unfold open_count in *.
    unfold checked_count in *. cbn [cx_listeners cx_with].
    destruct p; count_cases. rewrite counter_back by lia. split; [exact H5a|]. split; [exact H5b|lia].
Qed.

(** A server that has found a connection to be needed, and one that goes on. *)
Lemma filter_insert_listener j (l l' : option SocketAddr) ls : ls !! j = Some l →
  (length (filter is_Some (<[j := l']> ls)) + match l with Some _ => 1 | None => 0 end =
   length (filter is_Some ls) + match l' with Some _ => 1 | None => 0 end)%nat.
Proof.
  intros E. pose proof (lookup_lt_Some _ _ _ E) as Hj. pose proof (take_drop_middle ls j l E) as El.
  rewrite (insert_take_drop ls j l' Hj). set (before := take j ls) in *. set (after := drop (S j) ls) in *. rewrite <-El.
  rewrite !filter_app, !length_app, !filter_cons.
  destruct l, l'; repeat case_decide; cbn [length]; try lia;
    match goal with H : ¬ is_Some (Some _) |- _ => by destruct H | H : is_Some None |- _ => by destruct H end.
Qed.

Lemma ok_checked k T c j socket : context_ok k T c → cx_listeners c !! j = Some None →
  0 < inbound_connections_needed (cx_counter c) → context_ok k T (set_listener j (Some socket) c).
Proof.
  intros Hok Ej Hn. pose proof (filter_insert_listener j None (Some socket) _ Ej) as Hc.
  pose proof (ok_counter _ _ _ Hok Inbound) as Hin. cbn [current] in Hin.
  destruct Hok as [H1 H2 H3 H4 (H5a & H5b & H5c) H6 (H7a & H7b & H7c)].
  assert (length (filter is_Some (<[j := Some socket]> (cx_listeners c))) ≤ listeners)%nat as Hle.
  { rewrite <-H7a, <-(length_insert (cx_listeners c) j (Some socket)). apply length_filter. }
  unfold inbound_connections_needed, inbound_connections in Hn. cbn [fst snd] in Hn. unfold checked_count in *.
  rewrite wrap_small in Hn by (unfold fits; lia).
  split; try done; cbn [set_listener cx_counter cx_listeners]; [|by rewrite length_insert].
  split; [done|]. split; [done|]. unfold checked_count. cbn [set_listener cx_listeners]. lia.
Qed.

Lemma ok_freed k T c j socket : context_ok k T c → cx_listeners c !! j = Some (Some socket) →
  context_ok k T (set_listener j None c) ∧
  current_inbound_connections (cx_counter c) + Z.of_nat (checked_count (set_listener j None c)) <
    max_in + Z.of_nat (pred listeners).
Proof.
  intros [H1 H2 H3 H4 (H5a & H5b & H5c) H6 (H7a & H7b & H7c)] Ej.
  pose proof (filter_insert_listener j (Some socket) None _ Ej) as Hc. unfold checked_count in *.
  cbn [set_listener cx_listeners]. split; [|lia].
  split; try done; cbn [set_listener cx_counter cx_listeners]; [|by rewrite length_insert].
  split; [done|]. split; [done|]. unfold checked_count. cbn [set_listener cx_listeners]. lia.
Qed.

(** One that succeeded: the future becomes a channel. *)
Lemma ok_pending_met k T c i p connection t : context_ok k T c → Z.of_nat k + 1 < 2 ^ 32 →
  cx_pending c !! i = Some p → table_ok t ∧ failures_below (Z.of_nat (S k)) (by_addr t) →
  context_ok (S k) T
    (cx_with (snd (connections_store connection (pending_dir p) (cx_connections c))) (cx_counter c) t
       (delete i (cx_pending c)) c).
Proof.
  intros Hok Hk Ei Ht. destruct Hok as [H1 H2 H3 H4 H5 H6 H7].
  pose proof (length_delete (cx_pending c) i (mk_is_Some _ _ Ei)) as Hlen.
  pose proof (lookup_lt_Some _ _ _ Ei) as Hi.
  assert (channels (cx_connections c) !! peer_counter (cx_connections c) = None) as Hfresh.
  { apply eq_None_not_Some. intros [info E]. apply H3 in E as [_ ?]. lia. }
  split; cbn [cx_counter cx_with cx_connections cx_pending cx_table connections_store snd peer_counter channels].
  - intros d. rewrite H1. unfold open_count. cbn [cx_counter cx_with cx_connections cx_pending channels].
    rewrite (pending_count_delete d _ i p Ei), channel_count_insert by done. cbn [pi_direction]. lia.
  - rewrite map_size_insert_None by done. lia.
  - intros id info. rewrite counter_step by lia. rewrite lookup_insert_Some.
    intros [[<- <-]|[_ E]]; [cbn; lia|]. apply H3 in E. lia.
  - rewrite counter_step by lia. lia.
  - done.
  - done.
  - done.
Qed.

(** A channel that is closed. *)
Lemma ok_close k T c id info t : context_ok k T c → T < 2 ^ 64 →
  channels (cx_connections c) !! id = Some info →
  table_ok t ∧ failures_below (Z.of_nat (S k)) (by_addr t) →
  context_ok (S k) T
    (cx_with (snd (connections_remove id (cx_connections c))) (note_close (pi_direction info) (cx_counter c)) t
       (cx_pending c) c).
Proof.
  intros Hok HT Ei Ht. pose proof (open_total c) as Hopen.
  pose proof (ok_counter _ _ _ Hok Inbound) as Hin. pose proof (ok_counter _ _ _ Hok Outbound) as Hout.
  destruct Hok as [H1 H2 H3 H4 (H5a & H5b & H5c) H6 H7]. cbn [current] in Hin, Hout.
  pose proof (channel_count_delete Inbound _ _ _ Ei) as HcI.
  pose proof (channel_count_delete Outbound _ _ _ Ei) as HcO.
  pose proof (size_channel_count (delete id (channels (cx_connections c)))) as Hsz.
  pose proof (size_channel_count (channels (cx_connections c))) as Hsz'.
  split; cbn [cx_counter cx_with cx_connections cx_pending cx_table connections_remove snd peer_counter channels].
  - intros d. unfold open_count in *. cbn [cx_counter cx_with cx_connections cx_pending channels].
    destruct (pi_direction info), d; count_cases; rewrite ?counter_back by lia; lia.
  - lia.
  - intros id' info'. rewrite lookup_delete_Some. intros [_ E]. by apply H3.
  - lia.
  - unfold open_count, checked_count in *. cbn [cx_listeners cx_with].
    destruct (pi_direction info); count_cases; rewrite ?counter_back by lia;
      (split; [exact H5a|]); (split; [exact H5b|lia]).
  - done.
  - done.
Qed.

(** The connections that the timer makes. *)
Lemma ok_connects k T l c : context_ok k T c → T + Z.of_nat (length l) < 2 ^ 64 →
  context_ok k (T + Z.of_nat (length l)) (foldl (λ c address, context_connect address c) c l).
Proof.
  revert T c. induction l as [|a l IH]; intros T c Hok HT; cbn [foldl length].
  - by rewrite Z.add_0_r.
  - cbn [length] in HT. rewrite Nat2Z.inj_succ. replace (T + Z.succ (Z.of_nat (length l))) with (T + 1 + Z.of_nat (length l)) by lia.
    apply IH; [|lia]. by apply (ok_pending k T c (Connecting a)); [|lia| |].
Qed.

Lemma ok_weaken k T T' c : context_ok k T c → T ≤ T' → context_ok k T' c.
Proof. intros [H1 H2 H3 H4 H5 H6 H7] HT. split; try done. lia. Qed.

Lemma needed_bound cc : u32 (max_outbound_connections cc) → 0 ≤ outbound_connections_needed cc < 2 ^ 32.
Proof.
  intros [? ?]. unfold outbound_connections_needed, outbound_connections. cbn [fst snd].
  pose proof (wrap_fits 32 (current_outbound_connections cc) ltac:(lia)) as [? ?]. lia.
Qed.

Lemma autoconnect_ok k T c : context_ok k T c → T + 2 ^ 32 < 2 ^ 64 → context_ok (S k) (T + 2 ^ 32) (autoconnect c).
Proof.
  intros Hok HT. unfold autoconnect. case_match.
  { apply ok_same. eapply ok_weaken; [done|lia]. }
  destruct (ok_limits _ _ _ Hok) as (_ & Hmax & _). pose proof (needed_bound _ Hmax) as Hn.
  set (l := node_addr <$> _).
  assert (Z.of_nat (length l) < 2 ^ 32) as Hl.
  { subst l. rewrite length_fmap. unfold nodes_with_services. rewrite length_take. lia. }
  apply ok_same. eapply ok_weaken; [apply ok_connects; [done|lia]|lia].
Qed.

Lemma set_port_canonical a port : canonical a → canonical (set_port a port).
Proof. by destruct a. Qed.

Lemma connect_done_ok k T c i socket now r : context_ok k T c → Z.of_nat k + 1 < 2 ^ 32 → T < 2 ^ 64 →
  cx_pending c !! i = Some (Connecting socket) → result_canonical r →
  ∃ c', connect_done now socket r (drop_pending i c) = Some c' ∧ context_ok (S k) T c'.
Proof.
  intros Hok Hk HT Ei Hr.
  destruct (table_defined k T c (OpFailure socket) Hok Hk I) as (t1 & E1 & Ht1). cbn [table_op] in E1.
  destruct r as [connection| | |]; cbn [connect_done drop_pending cx_table cx_with];
    [|rewrite E1; eexists; (split; [reflexivity|]); by apply (ok_pending_failed k T c i (Connecting socket))..].
  destruct (table_defined k T c (OpInsert now (con_address connection) (con_services connection)) Hok Hk Hr)
    as (t & E & Ht). cbn [table_op] in E. rewrite E. cbn [mbind option_bind].
  eexists. split; [reflexivity|]. by apply (ok_pending_met k T c i (Connecting socket)).
Qed.

Lemma accept_done_ok k T c i socket now r : context_ok k T c → Z.of_nat k + 1 < 2 ^ 32 → T < 2 ^ 64 →
  cx_pending c !! i = Some (Accepting socket) → result_canonical r →
  ∃ c', accept_done now socket r (drop_pending i c) = Some c' ∧ context_ok (S k) T c'.
Proof.
  intros Hok Hk HT Ei Hr.
  destruct (table_defined k T c (OpFailure socket) Hok Hk I) as (t1 & E1 & Ht1). cbn [table_op] in E1.
  destruct r as [connection| | |]; cbn [accept_done drop_pending cx_table cx_with];
    [|rewrite E1; eexists; (split; [reflexivity|]); by apply (ok_pending_failed k T c i (Accepting socket))..].
  destruct (table_defined k T c (OpInsert now (set_port (con_address connection) (cx_port c))
    (con_services connection)) Hok Hk) as (t & E & Ht); [by apply set_port_canonical|].
  cbn [table_op] in E. cbn [cx_port drop_pending cx_with]. rewrite E. cbn [mbind option_bind].
  eexists. split; [reflexivity|]. by apply (ok_pending_met k T c i (Accepting socket)).
Qed.

Lemma close_with_error_ok k T c id : context_ok k T c → Z.of_nat k + 1 < 2 ^ 32 → T < 2 ^ 64 →
  ∃ c', close_channel_with_error id c = Some c' ∧ context_ok (S k) T c'.
Proof.
  intros Hok Hk HT. unfold close_channel_with_error. cbn [connections_remove].
  destruct (channels (cx_connections c) !! id) as [info|] eqn:Ei; [|exists c; split; [done|by apply ok_same]].
  destruct (table_defined k T c (OpFailure (pi_address info)) Hok Hk I) as (t & E & Ht). cbn [table_op] in E.
  rewrite E. eexists. split; [reflexivity|]. by apply (ok_close k T c id info).
Qed.

(** Every event keeps the invariant, and none fails an assertion. *)
Lemma p2p_step_ok k T c e : context_ok k T c → Z.of_nat k + 1 < 2 ^ 32 → T + 2 ^ 32 < 2 ^ 64 →
  event_canonical e → ∃ c', p2p_step c e = Some c' ∧ context_ok (S k) (T + 2 ^ 32) c'.
Proof.
  intros Hok Hk HT He.
  assert (∀ c', context_ok (S k) T c' → context_ok (S k) (T + 2 ^ 32) c') as Hw
    by (intros; eapply ok_weaken; [done|lia]).
  assert (∀ c', context_ok k (T + 1) c' → context_ok (S k) (T + 2 ^ 32) c') as Hw1
    by (intros; eapply ok_same, ok_weaken; [done|lia]).
  assert (∀ o, op_canonical o → ∃ t, table_op (cx_table c) o = Some t ∧ context_ok (S k) T
    (cx_with (cx_connections c) (cx_counter c) t (cx_pending c) c)) as Htab.
  { intros o Ho. destruct (table_defined k T c o Hok Hk Ho) as (t & E & Ht). exists t. split; [done|]. by apply ok_set_table. }
  destruct e as [socket|i now r|j socket|j|i now r|now info r|id| |now entries|addr|now addr|addr]; cbn [p2p_step].
  - eexists. split; [done|]. apply Hw1. by apply (ok_pending k T c (Connecting socket)); [|lia| |].
  - destruct (cx_pending c !! i) as [[socket|]|] eqn:Ei; [|by eexists; split; [done|]; apply Hw, ok_same..].
    destruct (connect_done_ok k T c i socket now r Hok Hk) as (c' & E & Hc'); [lia|done|done|]. exists c'. auto.
  - eexists. split; [done|]. unfold incoming_connection.
    destruct (cx_listeners c !! j) as [[|]|] eqn:Ej; [by apply Hw, ok_same| |by apply Hw, ok_same].
    destruct (Z.ltb_spec 0 (inbound_connections_needed (cx_counter c))); [|by apply Hw, ok_same].
    by apply Hw, ok_same, ok_checked.
  - eexists. split; [done|]. unfold incoming_accepted.
    destruct (cx_listeners c !! j) as [[socket|]|] eqn:Ej; [|by apply Hw, ok_same..].
    destruct (ok_freed k T c j socket Hok Ej) as [Hfree Hlim]. apply Hw1.
    by apply (ok_pending k T (set_listener j None c) (Accepting socket)); [|lia| |].
  - destruct (cx_pending c !! i) as [[|socket]|] eqn:Ei; [by eexists; split; [done|]; apply Hw, ok_same| |by eexists; split; [done|]; apply Hw, ok_same].
    destruct (accept_done_ok k T c i socket now r Hok Hk) as (c' & E & Hc'); [lia|done|done|]. exists c'. auto.
  - unfold context_on_message. destruct (close_with_error_ok k T c (pi_id info) Hok Hk) as (c' & E & Hc'); [lia|].
    destruct r; [|by exists c'; auto..].
    destruct (Htab (OpUsed now (pi_address info)) I) as (t & Et & Hc). cbn [table_op] in Et. rewrite Et.
    eexists. split; [reflexivity|]. by apply Hw.
  - eexists. split; [done|]. unfold close_channel. cbn [connections_remove].
    destruct (channels (cx_connections c) !! id) as [info|] eqn:Ei; [|by apply Hw, ok_same].
    apply Hw. apply (ok_close k T c id info); [done|lia|done|]. destruct (ok_table _ _ _ Hok) as [Ht Hf].
    split; [done|]. eapply failures_weaken; [|done]. lia.
  - eexists. split; [done|]. by apply autoconnect_ok.
  - destruct (Htab (OpInsertMany now entries) I) as (t & Et & Hc). cbn [table_op] in Et.
    unfold update_node_table. rewrite Et. eexists. split; [reflexivity|]. by apply Hw.
  - destruct (Htab (OpFailure addr) I) as (t & Et & Hc). cbn [table_op] in Et.
    unfold penalize_node. rewrite Et. eexists. split; [reflexivity|]. by apply Hw.
  - destruct (Htab (OpAdd now addr (cx_services c)) He) as (t & Et & Hc). cbn [table_op] in Et.
    unfold add_node. destruct (table_add now addr (cx_services c) (cx_table c)) as [[r t']|]; [|done].
    cbn in Et. injection Et as ->. eexists. split; [reflexivity|]. by apply Hw.
  - destruct (Htab (OpRemove addr) I) as (t & Et & Hc). cbn [table_op] in Et. injection Et as Et.
    unfold remove_node. destruct (table_remove addr (cx_table c)) as [r t']. cbn in Et. subst t'.
    eexists. split; [reflexivity|]. by apply Hw.
Qed.

Definition p2p_run (c : Context) (events : list P2pEvent) : option Context :=
  foldl (λ c e, c ← c; p2p_step c e) (Some c) events.

Lemma p2p_run_ok events k T c : context_ok k T c → Z.of_nat k + Z.of_nat (length events) < 2 ^ 32 →
  T + 2 ^ 32 * Z.of_nat (length events) < 2 ^ 64 → Forall event_canonical events →
  ∃ c' T', p2p_run c events = Some c' ∧ context_ok (k + length events) T' c'.
Proof.
  revert k T c. induction events as [|e l IH]; intros k T c Hok Hk HT He.
  { exists c, T. split; [done|]. cbn. by rewrite Nat.add_0_r. }
  apply list.Forall_cons in He as [He Hl]. cbn [length] in *.
  destruct (p2p_step_ok k T c e) as (c1 & E1 & Hok1); [done|lia|lia|done|].
  destruct (IH (S k) (T + 2 ^ 32) c1 Hok1) as (c' & T' & E' & Hok'); [lia|lia|done|].
  exists c', T'. split; [|by rewrite Nat.add_succ_r]. unfold p2p_run in *. cbn [foldl mbind option_bind].
  by rewrite E1.
Qed.

End counting.

Lemma listening n c : length (cx_listeners (Nat.iter n context_listen c)) = (length (cx_listeners c) + n)%nat ∧
  cx_connections (Nat.iter n context_listen c) = cx_connections c ∧ cx_counter (Nat.iter n context_listen c) = cx_counter c ∧
  cx_table (Nat.iter n context_listen c) = cx_table c ∧ cx_pending (Nat.iter n context_listen c) = cx_pending c ∧
  checked_count (Nat.iter n context_listen c) = checked_count c.
Proof.
  induction n as [|n (H1 & H2 & H3 & H4 & H5 & H6)]; [by rewrite Nat.add_0_r|].
  change (Nat.iter (S n) context_listen c) with (context_listen (Nat.iter n context_listen c)). unfold checked_count in *.
  cbn [context_listen cx_listeners cx_connections cx_counter cx_table cx_pending].
  rewrite length_app, filter_app, length_app, H1, H2, H3, H4, H5, H6. cbn. split_and!; try done; lia.
Qed.

(** C40: the counters of open connections are exact.  Starting from a node table
    in order (with failure counters at most [k]) and some number of servers that
    listen, after any sequence of fewer than [2 ^ 32 - k] events, connections
    made, coming in and accepted, futures that succeed, fail or time out, messages
    handled and failed on, channels closed, the timer, updates of the table, in
    any interleaving and with addresses without scope: no assertion has failed;
    each counter is the number of connections under way plus the number of
    channels of its direction, so that it never underflows; the ids of the
    channels are their keys and were all handed out; and the node table is in
    order.  Since a server reads the counter when a connection comes in and writes
    it when it accepts, and others may do the same in between, the inbound
    connections that are open may exceed the configured maximum, by at most one
    for every server after the first; with the one server that [P2P::run] starts
    they never do.  (The maximum and the number of further servers add up to less
    than [2 ^ 32].) *)
Theorem connection_counters_exact (k listeners : nat) table services protocol port max_in max_out events :
  table_ok table → failures_below (Z.of_nat k) (by_addr table) → u32 max_in → u32 max_out →
  max_in + Z.of_nat (pred listeners) < 2 ^ 32 →
  Z.of_nat k + Z.of_nat (length events) < 2 ^ 32 → Forall event_canonical events →
  ∃ c, p2p_run (Nat.iter listeners context_listen (context_new table services protocol port max_in max_out)) events = Some c ∧
    current_inbound_connections (cx_counter c) = Z.of_nat (open_count Inbound c) ∧
    current_outbound_connections (cx_counter c) = Z.of_nat (open_count Outbound c) ∧
    max_inbound_connections (cx_counter c) = max_in ∧
    Z.of_nat (open_count Inbound c) ≤ max_in + Z.of_nat (pred listeners) ∧
    (∀ id info, channels (cx_connections c) !! id = Some info →
      pi_id info = id ∧ 0 ≤ id < peer_counter (cx_connections c)) ∧
    table_ok (cx_table c).
Proof.
  intros Ht Hf Hi Ho Hm Hk He. set (c0 := context_new table services protocol port max_in max_out).
  destruct (listening listeners c0) as (L1 & L2 & L3 & L4 & L5 & L6).
  destruct (p2p_run_ok max_in listeners events k 0 (Nat.iter listeners context_listen c0))
    as (c & T & E & Hok); [|done|lia|done|].
  - destruct Hi. split; unfold open_count; rewrite ?L1, ?L2, ?L3, ?L4, ?L5, ?L6; cbn; try done; try lia.
    + by intros [].
    + split; [done|]. split; [done|lia].
  - exists c. pose proof (ok_counter _ _ _ _ _ Hok Inbound) as HI. pose proof (ok_counter _ _ _ _ _ Hok Outbound) as HO.
    cbn [current] in HI, HO. destruct (ok_limits _ _ _ _ _ Hok) as (Hmax & _ & Hlim).
    destruct (ok_table _ _ _ _ _ Hok) as [Htab _]. split_and!; try done; [lia|]. apply Hok.
Qed.
End runs.

(** One peer that is dialled, and two that come in at two servers at once: each
    server finds that the one inbound connection allowed is still needed, so both
    are accepted.  The third is refused.  One of the two misbehaves; a message of
    it that was read before is still handled after its channel is gone. *)
Definition example_connection (a : SocketAddr) : Connection :=
  mkConnection 70012 (example_version 70012 5) MAGIC_TESTNET 1 a.

Definition example_inbound : PeerInfo :=
  (connections_store (example_connection (addr4 5 6 7 8 5000)) Inbound (mkConnections 1 ∅)).1.

Definition example_p2p_events : list P2pEvent :=
  [EvConnect (addr4 1 2 3 4 8333); EvIncoming 0 (addr4 5 6 7 8 5000); EvIncoming 1 (addr4 9 9 9 9 5001);
   EvAccept 1; EvAccept 0; EvIncoming 0 (addr4 9 9 9 8 5002);
   EvConnectDone 0 100 (Meet (example_connection (addr4 1 2 3 4 8333)));
   EvAcceptDone 1 101 (Meet (example_connection (addr4 5 6 7 8 5000)))].

Definition example_p2p_close : list P2pEvent :=
  [EvMessage 102 example_inbound Handled_error; EvMessage 103 example_inbound Handled_ok; EvClose 1].

Lemma connection_counters_exact_witness :
  ∃ c, p2p_run (P:=release) (Nat.iter 2 context_listen (context_new (node_table_new 1) 1 AnyProtocol 8333 1 1))
      (example_p2p_events ++ example_p2p_close) = Some c ∧
    current_inbound_connections (cx_counter c) = Z.of_nat (open_count Inbound c) ∧
    current_outbound_connections (cx_counter c) = Z.of_nat (open_count Outbound c) ∧
    max_inbound_connections (cx_counter c) = 1 ∧
    Z.of_nat (open_count Inbound c) ≤ 1 + Z.of_nat (pred 2) ∧
    (∀ id info, channels (cx_connections c) !! id = Some info →
      pi_id info = id ∧ 0 ≤ id < peer_counter (cx_connections c)) ∧
    table_ok (cx_table c).
Proof.
  apply (connection_counters_exact (P:=release) 0 2 (node_table_new 1) 1 AnyProtocol 8333 1 1 (example_p2p_events ++ example_p2p_close)).
  - apply table_ok_new.
  - intros a n. cbn [by_addr node_table_new]. by rewrite lookup_empty.
  - split; lia.
  - split; lia.
  - lia.
  - cbn. lia.
  - by repeat constructor.
Defined.

(** More inbound connections than the maximum, as with the two servers. *)
Example example_p2p_counts :
  (λ c, (current_inbound_connections (cx_counter c), current_outbound_connections (cx_counter c),
         size (channels (cx_connections c)))) <$>
    p2p_run (P:=release) (Nat.iter 2 context_listen (context_new (node_table_new 1) 1 AnyProtocol 8333 1 1)) example_p2p_events =
      Some (2, 1, 2%nat).
Proof. vm_compute. reflexivity. Qed.

(** With one server the second has to wait for the first to be accepted, and is refused. *)
Example example_one_server :
  (λ c, (current_inbound_connections (cx_counter c), open_count Inbound c)) <$>
    p2p_run (P:=release) (context_listen (context_new (node_table_new 1) 1 AnyProtocol 8333 1 1))
      [EvIncoming 0 (addr4 5 6 7 8 5000); EvIncoming 0 (addr4 9 9 9 9 5001); EvAccept 0; EvIncoming 0 (addr4 9 9 9 9 5001); EvAccept 0] =
      Some (1, 1%nat).
Proof. vm_compute. reflexivity. Qed.
