(* ===== verification/Wire.v ===== *)
(** * From one node's executor to the other node's session
    ([p2p/src/protocol/sync.rs], [p2p/src/net/channel.rs], [p2p/src/p2p.rs])

    What the synchronization component sends goes through [OutboundSync] into
    the context of the peer ([Responses.v]), which spawns a future for every
    message; the threads of the pool perform these futures, each writing its
    message to the one stream of the connection; the peer reads message after
    message off its channel and hands each to its session ([Session.v]).  The
    theorem of this file composes the two sides: the calls made of
    [OutboundSyncConnection] here are, in the order in which the pool writes
    them, the calls of [InboundSyncConnection] there, provided that a message
    that is partly written is written to its end before another one is begun.
    Nothing in the program sees to that: [interleaved_writes_break] is what the
    peer makes of two messages whose writes alternate. *)

From S2P Require Import Prelude External Primitives Serialization Compact Crypto Chain Network Utf8.
From S2P Require Import Message MessageTypes MessageIo Responses BTree NodeTable Session P2pContext.
#[local] Open Scope Z_scope.

(** ** The sender *)

Section outbound.
Context {R : RugOps} {H : Sha256Ops} {V : VrfOps}.

(** The methods that send, in the order of the trait; [close] is
    [outbound_close] below. *)
(** src: p2p/src/protocol/sync.rs 39-51 OutboundSyncConnection *)
Inductive OutboundCall :=
| SendInventory (message : Inv)
| SendGetData (message : GetData)
| SendGetBlocks (message : GetBlocks)
| SendGetHeaders (message : GetHeaders)
| SendBlock (message : BlockMessage)
| SendHeadersMessage (message : Headers)
| RespondHeaders (message : Headers) (id : Z)
| SendSendHeaders (message : SendHeaders)
| SendNotFound (message : NotFound)
| IgnoredRequest (id : Z).

(** src: p2p/src/protocol/sync.rs 53-104 OutboundSync *)
Definition outbound_sync (call : OutboundCall) (c : PeerContext) : option PeerContext :=
  match call with
  | SendInventory message => send_request message c
  | SendGetData message => send_request message c
  | SendGetBlocks message => send_request message c
  | SendGetHeaders message => send_request message c
  | SendBlock message => send_request message c
  | SendHeadersMessage message => send_request message c
  | RespondHeaders message id => send_response message id true c
  | SendSendHeaders message => send_request message c
  | SendNotFound message => send_request message c
  | IgnoredRequest id => ignore_response id c
  end.

(** The node is penalized, then its channel is closed. *)
(** src: p2p/src/protocol/sync.rs 106-111 close *)
Definition outbound_close {Pr : Profile} (info : PeerInfo) (c : Context) : option Context :=
  c ← penalize_node (pi_address info) c;
  Some (close_channel (pi_id info) c).

(** One call after the other. *)
Definition outbound_calls (calls : list OutboundCall) (c : PeerContext) : option PeerContext :=
  foldl (λ c call, c ← c; outbound_sync call c) (Some c) calls.
End outbound.

(** ** The thread pool *)

(** A future that writes a message: [WriteAll] of tokio, with the buffer and how
    much of it is written. *)
(** src: p2p/src/net/channel.rs 21-26 write_message *)
Record Write := mkWrite { wr_message : list byte; wr_pos : nat }.

(** The futures that were spawned and what was written to the stream. *)
Definition Pool : Type := list Write * list byte.

(** src: p2p/src/p2p.rs 471-490 send *)
Definition spawned (sent : list (list byte)) : Pool := ((λ m, mkWrite m 0) <$> sent, []).

(** A thread that performs the [i]-th future writes what is left of its message
    to the stream, which takes [n] bytes of it or as many as there are. *)
(** src: p2p/src/io/sharedtcpstream.rs 44-46 write *)
Definition pool_write (i n : nat) (s : Pool) : Pool :=
  match s.1 !! i with
  | Some w =>
      let taken := take n (drop (wr_pos w) (wr_message w)) in
      (<[i := mkWrite (wr_message w) (wr_pos w + length taken)]> s.1, s.2 ++ taken)
  | None => s
  end.

(** Whose turn it is, and how much the stream takes each time. *)
Fixpoint pool_writes (schedule : list (nat * nat)) (s : Pool) : Pool :=
  match schedule with [] => s | (i, n) :: schedule => pool_writes schedule (pool_write i n s) end.

Definition written (w : Write) : Prop := wr_pos w = length (wr_message w).
Definition partly_written (w : Write) : Prop := (0 < wr_pos w < length (wr_message w))%nat.
#[global] Instance written_dec w : Decision (written w).
Proof. unfold written. apply _. Defined.
#[global] Instance partly_written_dec w : Decision (partly_written w).
Proof. unfold partly_written. apply _. Defined.

(** No message is written to while another one is partly written. *)
Fixpoint uninterrupted (schedule : list (nat * nat)) (s : Pool) : bool :=
  match schedule with
  | [] => true
  | (i, n) :: schedule =>
      bool_decide (Forall (λ w, ¬ partly_written w) (delete i s.1)) && uninterrupted schedule (pool_write i n s)
  end.

(** What was written: whole messages in some order, and the part of one. *)
Record writes_ok (sent : list (list byte)) (s : Pool) (order : list (list byte)) : Prop := {
  po_messages : wr_message <$> s.1 = sent;
  po_pos : Forall (λ w, (wr_pos w ≤ length (wr_message w))%nat) s.1;
  po_order : order ≡ₚ wr_message <$> filter written s.1;
  po_out : (Forall (λ w, ¬ partly_written w) s.1 ∧ s.2 = concat order) ∨
    (∃ i w, s.1 !! i = Some w ∧ partly_written w ∧ Forall (λ w, ¬ partly_written w) (delete i s.1) ∧
      s.2 = concat order ++ take (wr_pos w) (wr_message w));
}.

Lemma pool_start sent : ∃ order, writes_ok sent (spawned sent) order.
Proof.
  exists (wr_message <$> filter written (spawned sent).1). split; cbn.
  - rewrite <-list_fmap_compose. apply list_fmap_id.
  - apply list.Forall_fmap, list.Forall_true. cbn. lia.
  - done.
  - left. split; [apply list.Forall_fmap, list.Forall_true; intros m [Hm _]; cbn in Hm; lia|].
    induction sent as [|m l IH]; [done|]. cbn [fmap list_fmap]. rewrite filter_cons. case_decide as E; [|done].
    unfold written in E. cbn in E. destruct m; [|done]. done.
Qed.

Lemma insert_Permutation {T} (l : list T) i x y : l !! i = Some x → <[i := y]> l ≡ₚ y :: delete i l.
Proof.
  intros E. pose proof (lookup_lt_Some _ _ _ E) as Hi. rewrite (insert_take_drop l i y Hi), delete_take_drop.
  symmetry. apply Permutation_middle.
Qed.

Lemma delete_insert_same {T} (l : list T) i y : delete i (<[i := y]> l) = delete i l.
Proof. revert i. induction l as [|x l IH]; intros [|i]; [done..|]. cbn. by rewrite IH. Qed.

(** The future whose turn it is goes on from what it has written. *)
Lemma pool_turn sent s order i w : writes_ok sent s order → s.1 !! i = Some w → ¬ written w →
  Forall (λ w, ¬ partly_written w) (delete i s.1) → s.2 = concat order ++ take (wr_pos w) (wr_message w).
Proof.
  intros Hs Ei Hw Ha. destruct (po_out _ _ _ Hs) as [[Hn ->]|(j & w' & Ej & Hp & _ & ->)].
  - pose proof (proj1 (list.Forall_lookup _ _) Hn _ _ Ei) as Hn'. pose proof (proj1 (list.Forall_lookup _ _) (po_pos _ _ _ Hs) _ _ Ei) as Hl.
    cbn in Hn', Hl. unfold partly_written, written in *. assert (wr_pos w = 0%nat) as -> by lia. by rewrite app_nil_r.
  - destruct (decide (j = i)) as [->|Hne]; [by rewrite Ei in Ej; injection Ej as ->|]. exfalso.
    rewrite list.Forall_lookup in Ha. destruct (decide (j < i)%nat).
    + apply (Ha j w'); [|done]. by rewrite list_lookup_delete_lt.
    + apply (Ha (pred j) w'); [|done]. rewrite list_lookup_delete_ge by lia. by replace (S (pred j)) with j by lia.
Qed.

Lemma pool_write_ok sent s order i n : writes_ok sent s order → Forall (λ w, ¬ partly_written w) (delete i s.1) →
  ∃ order', writes_ok sent (pool_write i n s) order'.
Proof.
  intros Hs Ha. unfold pool_write. destruct (s.1 !! i) as [w|] eqn:Ei; [|by exists order].
  set (taken := take n (drop (wr_pos w) (wr_message w))). destruct (decide (written w)) as [Hw|Hw].
  { assert (taken = []) as Et. { subst taken. rewrite drop_ge; [by destruct n|]. unfold written in Hw. lia. }
    rewrite Et. cbn [length]. rewrite Nat.add_0_r, app_nil_r. assert (mkWrite (wr_message w) (wr_pos w) = w) as -> by by destruct w.
    rewrite list_insert_id by done. exists order. by destruct s. }
  pose proof (pool_turn _ _ _ _ _ Hs Ei Hw Ha) as Eout. set (w' := mkWrite (wr_message w) (wr_pos w + length taken)).
  pose proof (proj1 (list.Forall_lookup _ _) (po_pos _ _ _ Hs) _ _ Ei) as Hpos. cbn in Hpos.
  assert (length taken ≤ length (wr_message w) - wr_pos w)%nat as Ht.
  { subst taken. rewrite length_take, length_drop. lia. }
  assert (take (wr_pos w) (wr_message w) ++ taken = take (wr_pos w') (wr_message w')) as Etake.
  { cbn. rewrite <-take_take_drop. f_equal. subst taken. rewrite length_take.
    destruct (Nat.le_gt_cases n (length (drop (wr_pos w) (wr_message w)))); [by rewrite Nat.min_l|].
    rewrite Nat.min_r by lia. by rewrite !take_ge by lia. }
  pose proof (delete_Permutation _ _ _ Ei) as Hp. pose proof (insert_Permutation _ i w w' Ei) as Hp'.
  assert (wr_message <$> <[i := w']> s.1 = sent) as Hm.
  { rewrite list_fmap_insert, (po_messages _ _ _ Hs). apply list_insert_id.
    rewrite <-(po_messages _ _ _ Hs), list_lookup_fmap, Ei. done. }
  assert (Forall (λ w, (wr_pos w ≤ length (wr_message w))%nat) (<[i := w']> s.1)) as Hle.
  { apply list.Forall_insert; [apply Hs|cbn; lia]. }
  assert (filter written s.1 ≡ₚ filter written (delete i s.1)) as Hf.
  { rewrite Hp at 1. by rewrite filter_cons_False. }
  destruct (decide (written w')) as [Hw'|Hw'].
  - exists (order ++ [wr_message w]). split; cbn [fst snd]; [done|done| |left; split].
    + rewrite Hp', filter_cons_True by done. cbn [fmap list_fmap]. rewrite (po_order _ _ _ Hs), Hf.
      symmetry. apply Permutation_cons_append.
    + rewrite Hp'. constructor; [|done]. unfold written, partly_written in *. lia.
    + rewrite Eout, <-app_assoc, Etake. unfold written in Hw'. rewrite take_ge by lia. cbn [wr_message w'].
      rewrite concat_app. cbn [concat]. by rewrite app_nil_r.
  - exists order. split; cbn [fst snd]; [done|done| |].
    + rewrite Hp', filter_cons_False by done. by rewrite (po_order _ _ _ Hs), Hf.
    + rewrite Eout, <-app_assoc, Etake. destruct (decide (partly_written w')) as [Hpw|Hpw].
      * right. exists i, w'. rewrite list_lookup_insert_eq by (by eapply lookup_lt_Some). by rewrite delete_insert_same.
      * left. split; [rewrite Hp'; by constructor|]. unfold written, partly_written in *.
        assert (wr_pos w' = 0%nat) as -> by (cbn in *; lia). by rewrite app_nil_r.
Qed.

(** Once every message is written, the stream has them all, one after the other
    in some order. *)
Lemma pool_written schedule : ∀ sent s order ws out, writes_ok sent s order → uninterrupted schedule s = true →
  pool_writes schedule s = (ws, out) → Forall written ws → ∃ order', order' ≡ₚ sent ∧ out = concat order'.
Proof.
  induction schedule as [|[i n] schedule IH]; intros sent s order ws out Hs Hu E Hw; cbn [pool_writes uninterrupted] in *.
  - subst s. destruct Hs as [Hm _ Ho Hout]. cbn [fst snd] in *. exists order. split.
    + rewrite Ho, <-Hm. f_equiv. clear -Hw. induction Hw as [|w ws Hd Hw IH]; [done|]. rewrite filter_cons_True by done. by rewrite IH.
    + destruct Hout as [[_ ->]|(j & w & Ej & Hp & _)]; [done|]. pose proof (proj1 (list.Forall_lookup _ _) Hw _ _ Ej) as Hd.
      unfold written, partly_written in *. lia.
  - apply andb_true_iff in Hu as [Ha%bool_decide_eq_true Hu]. destruct (pool_write_ok _ _ _ i n Hs Ha) as (order' & Hs').
    by eapply IH.
Qed.

(** ** The receiver *)

Section channel.
Context {R : RugOps} {H : Sha256Ops} {V : VrfOps} {A : Type} {I : AsyncIo A}.

(** The future under way is part of the channel's state. *)
(** src: p2p/src/net/channel.rs 6-19 Channel *)
Record Channel := mkChannel {
  ch_stream : A;
  ch_peer_info : PeerInfo;
  ch_session : Session;
  ch_reading : ReadAnyMessageState;
  ch_world : World;
}.

(** src: p2p/src/net/channel.rs 28-30 read_message *)
Definition poll_channel (c : Channel) :
    Flow ReadAnyMessageState (result MessageError (Command * list byte)) * A :=
  poll_read_any_message (pi_magic (ch_peer_info c)) (ch_reading c) (ch_stream c).

Inductive Reading := Waiting | Broken (e : MessageError) | Lost.

(** The messages that have arrived are handled until the next one is not all
    there; an error of the protocol or of the connection ends the reading.
    [None] is a panic, or too little [fuel].  What the function does to the
    node's context, whatever the message, is [context_on_message]. *)
(** src: p2p/src/p2p.rs 388-429 on_message *)
Fixpoint on_messages (fuel : nat) (env : Env) (c : Channel) : option (Reading * Channel) :=
  match fuel with
  | O => None
  | S fuel =>
      match poll_channel c with
      | (Done (Ok (command, payload)), a) =>
          '(r, session, world) ← session_on_message env command payload (ch_session c) (ch_world c);
          let c := mkChannel a (ch_peer_info c) session AnyHeader world in
          match r with
          | Ok _ => on_messages fuel env c
          | Err e => Some (Broken e, c)
          end
      | (Done (Err e), a) => Some (Broken e, mkChannel a (ch_peer_info c) (ch_session c) AnyHeader (ch_world c))
      | (Pending state, a) => Some (Waiting, mkChannel a (ch_peer_info c) (ch_session c) state (ch_world c))
      | (IoError, a) => Some (Lost, mkChannel a (ch_peer_info c) (ch_session c) AnyHeader (ch_world c))
      | (_, _) => None
      end
  end.

(** Every message takes at least the 24 bytes of its header, of which the first
    message may have read all before. *)
Definition wake_up (env : Env) (chunk : list byte) (c : Channel) : option (Reading * Channel) :=
  let a := arrive chunk (ch_stream c) in
  on_messages (2 + length (incoming a)) env
    (mkChannel a (ch_peer_info c) (ch_session c) (ch_reading c) (ch_world c)).

(** The channel is woken up whenever bytes arrive. *)
Fixpoint wake_ups (arrivals : list (Env * list byte)) (c : Channel) : option (Reading * Channel) :=
  match arrivals with
  | [] => Some (Waiting, c)
  | (env, chunk) :: arrivals =>
      '(r, c) ← wake_up env chunk c;
      match r with Waiting => wake_ups arrivals c | _ => Some (r, c) end
  end.
End channel.

(** ** Messages of the synchronization protocol *)

Section messages.
Context {R : RugOps} {H : Sha256Ops} {V : VrfOps}.

Inductive SyncMessage :=
| MInv (m : Inv)
| MGetData (m : GetData)
| MGetBlocks (m : GetBlocks)
| MGetHeaders (m : GetHeaders)
| MBlock (m : BlockMessage)
| MHeaders (m : Headers)
| MSendHeaders (m : SendHeaders)
| MNotFound (m : NotFound).

Definition sm_any (m : SyncMessage) : AnyMessage :=
  match m with
  | MInv m => mkAny Inv _ m
  | MGetData m => mkAny GetData _ m
  | MGetBlocks m => mkAny GetBlocks _ m
  | MGetHeaders m => mkAny GetHeaders _ m
  | MBlock m => mkAny BlockMessage _ m
  | MHeaders m => mkAny Headers _ m
  | MSendHeaders m => mkAny SendHeaders _ m
  | MNotFound m => mkAny NotFound _ m
  end.

(** What a call gives to send. *)
Definition call_message (call : OutboundCall) : option SyncMessage :=
  match call with
  | SendInventory m => Some (MInv m)
  | SendGetData m => Some (MGetData m)
  | SendGetBlocks m => Some (MGetBlocks m)
  | SendGetHeaders m => Some (MGetHeaders m)
  | SendBlock m => Some (MBlock m)
  | SendHeadersMessage m | RespondHeaders m _ => Some (MHeaders m)
  | SendSendHeaders m => Some (MSendHeaders m)
  | SendNotFound m => Some (MNotFound m)
  | IgnoredRequest _ => None
  end.
Definition call_messages (calls : list OutboundCall) : list SyncMessage := omap call_message calls.

(** A call that sends at once. *)
Definition is_request (call : OutboundCall) : bool :=
  match call with RespondHeaders _ _ | IgnoredRequest _ => false | _ => true end.

(** What a message asks of the node that receives it; a node that is
    synchronizing answers no requests. *)
Definition deliver (synchronizing : bool) (w : World) (m : SyncMessage) : World :=
  let unless_synchronizing w' := if synchronizing then w else w' in
  match m with
  | MInv m => unless_synchronizing (effect (SyncEffect (OnInventory m)) w)
  | MGetData m => unless_synchronizing (effect (SyncEffect (OnGetData m)) w)
  | MGetBlocks m => unless_synchronizing (effect (SyncEffect (OnGetBlocks m)) w)
  | MGetHeaders m =>
      unless_synchronizing
        (let '(id, c) := pc_declare_response (w_context w) in
         effect (SyncEffect (OnGetHeaders m id)) (mkWorld c (w_effects w)))
  | MBlock m => effect (SyncEffect (OnBlock m)) w
  | MHeaders m => effect (SyncEffect (OnHeaders m)) w
  | MSendHeaders m => effect (SyncEffect (OnSendHeaders m)) w
  | MNotFound m => effect (SyncEffect (OnNotFound m)) w
  end.

Context {RL : RugLaws R} {HL : Sha256Laws H} {VL : VrfLaws V}.

(** A message with its encoding. *)
Record Encodable := mkEncodable {
  en_type : Type;
  en_payload : Payload en_type;
  en_wf : Z → en_type → Prop;
  en_codec : PayloadCodec en_type en_wf;
  en_value : en_type;
}.
#[local] Existing Instances en_payload en_codec.

Definition sm_encodable (m : SyncMessage) : Encodable :=
  match m with
  | MInv m => mkEncodable Inv _ _ _ m
  | MGetData m => mkEncodable GetData _ _ _ m
  | MGetBlocks m => mkEncodable GetBlocks _ _ _ m
  | MGetHeaders m => mkEncodable GetHeaders _ _ _ m
  | MBlock m => mkEncodable BlockMessage _ _ _ m
  | MHeaders m => mkEncodable Headers _ _ _ m
  | MSendHeaders m => mkEncodable SendHeaders _ _ _ m
  | MNotFound m => mkEncodable NotFound _ _ _ m
  end.

Definition en_any (e : Encodable) : AnyMessage := mkAny (en_type e) (en_payload e) (en_value e).

Lemma sm_encodable_any m : en_any (sm_encodable m) = sm_any m.
Proof. by destruct m. Qed.

Definition en_enc (version : Z) (e : Encodable) : list byte := payload_enc version (en_value e).

(** The message may be sent under the version spoken, and its length fits the
    header. *)
Definition sm_wf (version : Z) (m : SyncMessage) : Prop :=
  let e := sm_encodable m in
  en_wf e version (en_value e) ∧ payload_version (T:=en_type e) ≤ version ∧
  Z.of_nat (length (en_enc version e)) < 2 ^ 32.

Definition sm_bytes (magic version : Z) (m : SyncMessage) : list byte := bytes_of magic version (sm_any m).
Definition wire (magic version : Z) (ms : list SyncMessage) : list byte :=
  concat (sm_bytes magic version <$> ms).

Lemma sm_bytes_frame magic version m : sm_wf version m →
  ∃ cmd, command_from_str (payload_command (T:=en_type (sm_encodable m))) = Ok cmd ∧
    sm_bytes magic version m = frame cmd magic version (en_value (sm_encodable m)) ∧
    message_new magic version (en_value (sm_encodable m)) = Some (Ok (sm_bytes magic version m)).
Proof.
  intros (_ & Hv & _). destruct (payload_command_spec (M:=en_type (sm_encodable m))) as (cmd & Hc & _).
  exists cmd. unfold sm_bytes, bytes_of. rewrite <-sm_encodable_any. cbn [am_payload am_value en_any].
  assert (message_new magic version (en_value (sm_encodable m)) =
    Some (Ok (frame cmd magic version (en_value (sm_encodable m))))) as E.
  { by rewrite (message_new_frame _ _ _ cmd Hc), (proj2 (Z.ltb_ge _ _)). }
  split; [done|]. cbn [am_type en_any]. by rewrite !E.
Qed.

(** *** The session hands a message on *)

(** Compares the commands, whose names are known. *)
Ltac compare_commands Heq :=
  rewrite ?Heq;
  repeat match goal with
  | |- context [bool_decide (?a = ?b)] =>
      first [rewrite (bool_decide_false (a = b)) by done | rewrite (bool_decide_true (a = b)) by done]
  end; cbv iota.

Lemma session_delivers env m p info w version :
  sm_wf version m → pc_version (w_context w) = version →
  ∃ cmd, command_from_str (payload_command (T:=en_type (sm_encodable m))) = Ok cmd ∧
  session_on_message env cmd (en_enc version (sm_encodable m))
      (mkSession info [PPing p; PAddr (mkAddrProtocol false); PSync]) w =
    Some (Ok tt, mkSession info [PPing (mkPingProtocol (WaitingTimeout (env_now env)) (last_ping_nonce p));
                                 PAddr (mkAddrProtocol false); PSync],
          deliver (env_synchronizing env) w m).
Proof.
  intros (Hw & Hv & _) <-.
  destruct (payload_command_spec (M:=en_type (sm_encodable m))) as (cmd & Hc & Hz).
  exists cmd. split; [done|].
  pose proof (λ s', command_eq_from_str _ s' _ Hc Hz) as Heq.
  pose proof (deserialize_payload_enc (pc_version (w_context w)) _ Hv Hw) as Hd.
  unfold session_on_message, each_on_message, protocol_on_message. cbn [ses_protocols ses_info].
  unfold ping_on_message, addr_on_message, sync_on_message, sync_deliver, en_enc.
  destruct m; cbn [sm_encodable en_type en_payload en_value en_codec en_wf] in *; compare_commands Heq;
    cbn [mbind option_bind]; compare_commands Heq; cbn [deliver]; try rewrite Hd;
    try destruct (env_synchronizing env); try done.
  by destruct (pc_declare_response (w_context w)).
Qed.

(** *** Reading messages off the connection *)

(** The message at the front of the bytes received, as [parse_frame]. *)
Definition parse_any (magic : Z) (bs : list byte) :
    option (result MessageError (Command * list byte) * list byte) :=
  if (length bs <? 24)%nat then None
  else
    let rest := drop 24 bs in
    match header_deserialize (take 24 bs) magic with
    | Err e => Some (Err e, rest)
    | Ok header =>
        let len := Z.to_nat (mh_len header) in
        if (length rest <? len)%nat then None
        else Some (if bool_decide (checksum (take len rest) ≠ mh_checksum header) then Err InvalidChecksum
                   else Ok (mh_command header, take len rest), drop len rest)
    end.

(** The bytes a state of [ReadAnyMessage] has behind it. *)
Definition any_behind (magic : Z) (state : ReadAnyMessageState) (bs : list byte) : Prop :=
  match state with
  | AnyHeader => bs = []
  | AnyPayload header => length bs = 24%nat ∧ header_deserialize bs magic = Ok header
  end.

Lemma parse_any_app magic bs more res rest :
  parse_any magic bs = Some (res, rest) → parse_any magic (bs ++ more) = Some (res, rest ++ more).
Proof.
  unfold parse_any. destruct (Nat.ltb_spec (length bs) 24) as [|H24]; [done|].
  rewrite length_app, (proj2 (Nat.ltb_ge _ _)) by lia. rewrite take_app_le, drop_app_le by done.
  destruct (header_deserialize (take 24 bs) magic) as [h|e]; [|by intros [= <- <-]].
  destruct (Nat.ltb_spec (length (drop 24 bs)) (Z.to_nat (mh_len h))) as [|Hlen]; [done|].
  intros E. apply (inj Some) in E. apply (f_equal fst) in E as E1. apply (f_equal snd) in E as E2.
  cbn [fst snd] in E1, E2. rewrite <-E1, <-E2.
  rewrite length_app, (proj2 (Nat.ltb_ge _ _)) by lia. by rewrite take_app_le, drop_app_le by done.
Qed.

Lemma parse_any_bytes magic version m rest : u32 magic → sm_wf version m →
  ∃ cmd, command_from_str (payload_command (T:=en_type (sm_encodable m))) = Ok cmd ∧
    parse_any magic (sm_bytes magic version m ++ rest) = Some (Ok (cmd, en_enc version (sm_encodable m)), rest).
Proof.
  intros Hm Hw. destruct (sm_bytes_frame magic version m Hw) as (cmd & Hc & -> & _).
  exists cmd. split; [done|]. destruct Hw as (_ & _ & Hlen). unfold en_enc in *.
  set (t := en_value (sm_encodable m)) in *.
  destruct (frame_split cmd magic version t rest) as (Ht & Hd & Hl).
  assert (u32 (Z.of_nat (length (payload_enc version t)))) as Hu by (split; lia).
  unfold parse_any. rewrite (proj2 (Nat.ltb_ge _ _)) by done. rewrite Ht, Hd, header_deserialize_spec.
  2:{ split; [done|]. cbn [mh_len header_for_data]. by rewrite wrap_small. }
  cbn [mh_magic header_for_data]. rewrite decide_True by done.
  cbn [mh_command mh_len mh_checksum header_for_data].
  rewrite wrap_small, Nat2Z.id, length_app, (proj2 (Nat.ltb_ge _ _)) by (done || lia).
  rewrite take_app_length, drop_app_length. by rewrite bool_decide_false by tauto.
Qed.

(** A message of which bytes are missing is not read. *)
Lemma parse_any_prefix magic version m p q : u32 magic → sm_wf version m →
  sm_bytes magic version m = p ++ q → q ≠ [] → parse_any magic p = None.
Proof.
  intros Hm Hw E Hq. destruct (parse_any_bytes magic version m [] Hm Hw) as (cmd & _ & Ep).
  destruct (parse_any magic p) as [[res rest]|] eqn:E'; [|done].
  apply (parse_any_app _ _ q) in E'. rewrite app_nil_r, E, E' in Ep.
  apply (inj Some), (f_equal snd) in Ep. cbn in Ep. by apply app_nil in Ep as [_ ->].
Qed.

Lemma length_sm_bytes magic version m : sm_wf version m → (24 ≤ length (sm_bytes magic version m))%nat.
Proof.
  intros Hw. destruct (sm_bytes_frame magic version m Hw) as (cmd & _ & -> & _).
  destruct (frame_split cmd magic version (en_value (sm_encodable m)) []) as (_ & _ & Hl).
  by rewrite app_nil_r in Hl.
Qed.

Lemma wire_app magic version ms ms' : wire magic version (ms ++ ms') = wire magic version ms ++ wire magic version ms'.
Proof. unfold wire. by rewrite fmap_app, concat_app. Qed.

Lemma length_wire magic version ms : Forall (sm_wf version) ms →
  (24 * length ms ≤ length (wire magic version ms))%nat.
Proof.
  induction 1 as [|m ms Hm _ IH]; [done|]. unfold wire in *. cbn [fmap list_fmap concat length].
  rewrite length_app. pose proof (length_sm_bytes magic version m Hm). lia.
Qed.

(** What has arrived is some messages and a part of the next one. *)
Lemma wire_prefix magic version ms p q : u32 magic → Forall (sm_wf version) ms →
  p ++ q = wire magic version ms →
  ∃ ms1 ms2 part, ms = ms1 ++ ms2 ∧ p = wire magic version ms1 ++ part ∧
    part ++ q = wire magic version ms2 ∧ parse_any magic part = None.
Proof.
  intros Hm Hw. revert p. induction Hw as [|m ms Hwm Hw IH]; intros p E.
  { apply app_nil in E as [-> ->]. by exists [], [], []. }
  change (wire magic version (m :: ms)) with (sm_bytes magic version m ++ wire magic version ms) in E.
  set (b := sm_bytes magic version m) in *.
  destruct (decide (length b ≤ length p)%nat) as [Hle|Hlt].
  - assert (p = b ++ drop (length b) p) as Ep.
    { pose proof (f_equal (take (length b)) E) as Et. rewrite take_app_length, take_app_le in Et by done.
      rewrite <-Et at 1. by rewrite take_drop. }
    destruct (IH (drop (length b) p)) as (ms1 & ms2 & part & -> & Ed & Er & Hn).
    { rewrite Ep, <-app_assoc in E. by apply app_inv_head in E. }
    exists (m :: ms1), ms2, part. split_and!; [done| |done|done].
    rewrite Ep, Ed. apply app_assoc.
  - exists [], (m :: ms), p. split_and!; [done|done|exact E|].
    apply (parse_any_prefix magic version m p (drop (length p) b)); [done|done| |].
    + pose proof (f_equal (take (length p)) E) as Et. rewrite take_app_length, take_app_le in Et by lia.
      fold b. rewrite Et at 1. by rewrite take_drop.
    + intros Ed. apply (f_equal length) in Ed. rewrite length_drop in Ed. cbn in Ed. lia.
Qed.

Lemma deliver_version sy w m : pc_version (w_context (deliver sy w m)) = pc_version (w_context w).
Proof.
  destruct m; cbn [deliver]; destruct sy; try done. unfold pc_declare_response.
  by destruct (declare_response (pc_synchronizer (w_context w))).
Qed.

(** What becomes of the messages as bytes arrive: with each arrival the messages
    that are complete by then are handed on, under the environment of that
    arrival; [part] is what has arrived of the next one before. *)
Inductive handled (magic version : Z) : list byte → list (Env * list byte) → list SyncMessage → World → World → Prop :=
| handled_nil w : handled magic version [] [] [] w w
| handled_arrival part env chunk arrivals complete part' ms w w' :
    part ++ chunk = wire magic version complete ++ part' → parse_any magic part' = None →
    handled magic version part' arrivals ms (foldl (deliver (env_synchronizing env)) w complete) w' →
    handled magic version part ((env, chunk) :: arrivals) (complete ++ ms) w w'.

(** A receiver that is or is not synchronizing all the time gets them one after
    the other. *)
Lemma handled_steadily sy magic version part arrivals ms w w' : handled magic version part arrivals ms w w' →
  Forall (λ ec, env_synchronizing ec.1 = sy) arrivals → w' = foldl (deliver sy) w ms.
Proof.
  induction 1 as [w|part env chunk arrivals complete part' ms w w' E Hn Hh IH]; intros Hs; [done|].
  apply list.Forall_cons in Hs as [He Hs]. cbn in He. rewrite foldl_app, <-He. subst sy. by apply IH.
Qed.

Section reading.
Context {A : Type} {IO : AsyncIo A} {IL : AsyncIoLaws A}.

(** A poll reads the next message as soon as it has arrived, and otherwise
    keeps a state that goes on from where it was. *)
Lemma poll_read_any_parses magic state (a : A) behind : any_behind magic state behind →
  ∃ a', match parse_any magic (behind ++ incoming a) with
    | Some (res, rest) => poll_read_any_message magic state a = (Done res, a') ∧ incoming a' = rest
    | None =>
        ∃ state' behind', poll_read_any_message magic state a = (Pending state', a') ∧
          any_behind magic state' behind' ∧ behind' ++ incoming a' = behind ++ incoming a
    end.
Proof.
  assert (∀ header (a : A) behind, any_behind magic (AnyPayload header) behind →
    ∃ a', match parse_any magic (behind ++ incoming a) with
      | Some (res, rest) => read_any_message_step magic (AnyPayload header) a = (Done res, a') ∧ incoming a' = rest
      | None => read_any_message_step magic (AnyPayload header) a = (Pending (AnyPayload header), a') ∧
          incoming a' = incoming a
      end) as Hpay.
  { intros header b behind' [Hl Hh]. unfold parse_any.
    rewrite length_app, Hl, (proj2 (Nat.ltb_ge _ _)) by lia.
    rewrite take_app_length', drop_app_length', Hh by done. unfold read_any_message_step.
    destruct (Nat.ltb_spec (length (incoming b)) (Z.to_nat (mh_len header))) as [Hlt|Hge].
    - destruct (read_exact_pending _ _ Hlt) as (a' & -> & Hi & _). by exists a'.
    - destruct (read_exact_ready _ _ Hge) as (a' & -> & Hi & _). exists a'. cbn [try_ready].
      by case_bool_decide. }
  intros Hb. unfold poll_read_any_message. rewrite poll_loop_S. destruct state as [|header].
  - cbn in Hb. subst behind. simpl app. cbn [read_any_message_step]. unfold poll_read_header.
    destruct (Nat.ltb_spec (length (incoming a)) 24) as [Hlt|Hge].
    + destruct (read_exact_pending _ _ Hlt) as (a' & -> & Hi & _). exists a'.
      unfold parse_any. rewrite (proj2 (Nat.ltb_lt _ _)) by done. exists AnyHeader, []. by rewrite Hi.
    + destruct (read_exact_ready _ _ Hge) as (a1 & -> & Hi & _). cbn [try_ready].
      destruct (header_deserialize (take 24 (incoming a)) magic) as [header|e] eqn:Eh.
      2:{ exists a1. unfold parse_any. rewrite (proj2 (Nat.ltb_ge _ _)) by done. by rewrite Eh. }
      assert (any_behind magic (AnyPayload header) (take 24 (incoming a))) as Hst.
      { split; [rewrite length_take; lia|done]. }
      destruct (Hpay _ a1 _ Hst) as (a' & Hp). rewrite Hi, take_drop in Hp. exists a'.
      rewrite poll_loop_S. destruct (parse_any magic (incoming a)) as [[res rest]|].
      * by destruct Hp as [-> Hr].
      * destruct Hp as [-> Hr]. exists (AnyPayload header), (take 24 (incoming a)).
        split_and!; [done|apply Hst..|]. by rewrite Hr, take_drop.
  - destruct (Hpay _ a _ Hb) as (a' & Hp). exists a'.
    destruct (parse_any magic (behind ++ incoming a)) as [[res rest]|].
    + by destruct Hp as [-> Hr].
    + destruct Hp as [-> Hr]. exists (AnyPayload header), behind. by rewrite Hr.
Qed.

(** The channel of a normal session. *)
Definition normal_channel (a : A) (info : PeerInfo) (p : PingProtocol) (state : ReadAnyMessageState)
    (w : World) : Channel :=
  mkChannel a info (mkSession info [PPing p; PAddr (mkAddrProtocol false); PSync]) state w.

Lemma on_messages_wire env version info ms : ∀ fuel (a : A) p state w behind part,
  u32 (pi_magic info) → Forall (sm_wf version) ms → pc_version (w_context w) = version →
  any_behind (pi_magic info) state behind →
  behind ++ incoming a = wire (pi_magic info) version ms ++ part →
  parse_any (pi_magic info) part = None → (length ms < fuel)%nat →
  ∃ a' p' state' behind',
    on_messages fuel env (normal_channel a info p state w) =
      Some (Waiting, normal_channel a' info p' state' (foldl (deliver (env_synchronizing env)) w ms)) ∧
    any_behind (pi_magic info) state' behind' ∧ behind' ++ incoming a' = part.
Proof.
  induction ms as [|m ms IH]; intros [|fuel] a p state w behind part Hm Hw Hv Hb Hi Hn Hf; try (cbn in Hf; lia);
    cbn [on_messages]; unfold poll_channel; cbn [ch_peer_info ch_reading ch_stream normal_channel];
    destruct (poll_read_any_parses _ state a behind Hb) as (a' & Hp); rewrite Hi in Hp.
  - cbn [wire fmap list_fmap concat app] in Hp. rewrite Hn in Hp.
    destruct Hp as (state' & behind' & -> & Hb' & Ei). by exists a', p, state', behind'.
  - apply list.Forall_cons in Hw as [Hwm Hw].
    change (wire _ _ (m :: ms)) with (sm_bytes (pi_magic info) version m ++ wire (pi_magic info) version ms) in Hp.
    rewrite <-app_assoc in Hp.
    destruct (parse_any_bytes _ version m (wire (pi_magic info) version ms ++ part) Hm Hwm) as (cmd & Hc & E).
    rewrite E in Hp. destruct Hp as [-> Hi'].
    destruct (session_delivers env m p info w version Hwm Hv) as (cmd' & Hc' & Es).
    assert (cmd' = cmd) as -> by congruence.
    cbn [ch_session ch_world normal_channel]. rewrite Es. cbn [mbind option_bind foldl].
    eapply (IH fuel a' _ AnyHeader _ []); try done; [by rewrite deliver_version|cbn in *; lia].
Qed.

Lemma wake_ups_wire version info arrivals : ∀ (a : A) ms p state w behind,
  u32 (pi_magic info) → Forall (sm_wf version) ms → pc_version (w_context w) = version →
  any_behind (pi_magic info) state behind → parse_any (pi_magic info) (behind ++ incoming a) = None →
  behind ++ incoming a ++ concat (arrivals.*2) = wire (pi_magic info) version ms →
  ∃ a' p' w', wake_ups arrivals (normal_channel a info p state w) =
      Some (Waiting, normal_channel a' info p' AnyHeader w') ∧ incoming a' = [] ∧
    handled (pi_magic info) version (behind ++ incoming a) arrivals ms w w'.
Proof.
  induction arrivals as [|[env chunk] arrivals IH]; intros a ms p state w behind Hm Hw Hv Hb Hn Hi.
  - cbn in Hi. rewrite app_nil_r in Hi. rewrite Hi in Hn.
    destruct ms as [|m ms].
    2:{ apply list.Forall_cons in Hw as [Hwm _].
        destruct (parse_any_bytes _ version m (wire (pi_magic info) version ms) Hm Hwm) as (cmd & _ & E).
        exfalso. revert Hn. change (wire _ _ (m :: ms)) with
          (sm_bytes (pi_magic info) version m ++ wire (pi_magic info) version ms). by rewrite E. }
    rewrite Hi. apply app_nil in Hi as [-> Hi]. exists a, p, w.
    destruct state as [|h]; [|by destruct Hb]. split_and!; [done|done|constructor].
  - cbn [fst snd fmap list_fmap concat] in Hi. destruct (arrive_spec chunk a) as (Ha & _).
    assert ((behind ++ incoming (arrive chunk a)) ++ concat arrivals.*2 = wire (pi_magic info) version ms) as Hi'.
    { by rewrite Ha, <-!app_assoc. }
    destruct (wire_prefix _ version ms _ _ Hm Hw Hi') as (ms1 & ms2 & part & -> & E1 & E2 & Hpart).
    apply list.Forall_app in Hw as [Hw1 Hw2].
    destruct (on_messages_wire env version info ms1 (2 + length (incoming (arrive chunk a))) (arrive chunk a)
      p state w behind part) as (a' & p' & state' & behind' & E & Hb' & Er); try done.
    { pose proof (length_wire (pi_magic info) version ms1 Hw1) as Hl.
      apply (f_equal length) in E1. rewrite !length_app in E1.
      assert (length behind ≤ 24)%nat by (destruct state as [|h]; cbn in Hb; [subst; cbn; lia|lia]). lia. }
    cbn [wake_ups]. unfold wake_up. cbn [ch_stream ch_peer_info ch_session ch_reading ch_world normal_channel].
    fold (normal_channel (arrive chunk a) info p state w). rewrite E. cbn [mbind option_bind].
    destruct (IH a' ms2 p' state' (foldl (deliver (env_synchronizing env)) w ms1) behind') as (a'' & p'' & w' & Ew & Ei & Hh);
      [done|done| |done|by rewrite Er|by rewrite app_assoc, Er|].
    + clear -Hv. revert w Hv. induction ms1 as [|m ms1 IH]; intros w Hv; [done|]. cbn [foldl].
      apply IH. by rewrite deliver_version.
    + exists a'', p'', w'. split; [done|]. split; [done|]. rewrite Er in Hh. eapply handled_arrival; [|done|done].
      by rewrite <-app_assoc, <-Ha.
Qed.
End reading.

(** *** What is sent *)

(** The messages of responses whose turn has not come. *)
Definition waiting (c : PeerContext) : list (list byte) :=
  concat (map_to_list (finished (pc_response_queue c))).*2.

(** Sending what waits: the peer is still there, nothing is lost, nothing is
    added. *)
Definition advances (c c' : PeerContext) : Prop :=
  pc_magic c' = pc_magic c ∧ pc_version c' = pc_version c ∧ pc_connected c' = true ∧
  unfinished (pc_response_queue c') = ∅ ∧
  ∃ l, pc_sent c' = pc_sent c ++ l ∧ l ++ waiting c' ≡ₚ waiting c.

Lemma advances_trans c1 c2 c3 : advances c1 c2 → advances c2 c3 → advances c1 c3.
Proof.
  intros (Hm & Hv & _ & _ & l & Hs & Hl) (Hm' & Hv' & Hc' & Hu' & l' & Hs' & Hl').
  split_and!; [congruence..|done|done|]. exists (l ++ l'). rewrite Hs', Hs, <-app_assoc. split; [done|].
  by rewrite <-app_assoc, Hl'.
Qed.

Lemma advances_same c c' : pc_magic c' = pc_magic c → pc_version c' = pc_version c →
  pc_connected c' = true → unfinished (pc_response_queue c') = ∅ → pc_sent c' = pc_sent c →
  finished (pc_response_queue c') = finished (pc_response_queue c) → advances c c'.
Proof.
  intros Hm Hv Hc Hu Hs Hf. split_and!; [done..|]. exists []. unfold waiting. by rewrite Hf, app_nil_r.
Qed.

Lemma send_awaiting_advances fuel : ∀ id c c', pc_connected c = true →
  unfinished (pc_response_queue c) = ∅ → send_awaiting_loop fuel id c = Some c' → advances c c'.
Proof.
  induction fuel as [|fuel IH]; intros id c c' Hc Hu E; [done|]. cbn [send_awaiting_loop] in E.
  unfold responses in E. rewrite Hu, lookup_empty in E.
  destruct (finished (pc_response_queue c) !! next_id id) as [l|] eqn:El.
  - cbn [pc_synchronizer set_queue] in E.
    destruct (permission_for_response (pc_synchronizer c) (next_id id)) as [[] sync]; [|done].
    cbn [rust_assert mbind option_bind] in E. unfold send_message_to_peer in E.
    cbn [pc_connected set_sync set_queue] in E. rewrite Hc in E.
    eapply advances_trans; [|eapply IH, E; [done|done]].
    split_and!; [done..|]. exists l. split; [done|]. unfold waiting. cbn.
    rewrite <-(map_to_list_delete _ _ _ El). done.
  - destruct (decide (next_id id ∈ ignored (pc_response_queue c))).
    + cbn [pc_synchronizer set_queue] in E.
      destruct (permission_for_response (pc_synchronizer c) (next_id id)) as [[] sync]; [|done].
      cbn [rust_assert mbind option_bind] in E.
      eapply advances_trans; [|eapply IH, E; [done|done]]. by apply advances_same.
    + injection E as <-. apply advances_same; try done.
Qed.

Lemma to_message_bytes m c : sm_wf (pc_version c) m →
  to_message (en_value (sm_encodable m)) c = Some (sm_bytes (pc_magic c) (pc_version c) m).
Proof.
  intros Hw. unfold to_message. by destruct (sm_bytes_frame (pc_magic c) _ m Hw) as (cmd & _ & _ & ->).
Qed.

Lemma outbound_request call m c : is_request call = true → call_message call = Some m →
  pc_connected c = true → sm_wf (pc_version c) m →
  outbound_sync call c = Some (add_sent [sm_bytes (pc_magic c) (pc_version c) m] c).
Proof.
  intros Hr Hm Hc Hw.
  assert (outbound_sync call c = send_request (en_value (sm_encodable m)) c) as ->.
  { destruct call; cbn in Hm; try done; by injection Hm as <-. }
  unfold send_request, send_to_peer. by rewrite Hc, (to_message_bytes m c Hw).
Qed.

(** After [calls], every message is sent or waits for its turn, and requests
    are sent in their order. *)
Definition flowing (magic version : Z) (calls : list OutboundCall) (c : PeerContext) : Prop :=
  pc_magic c = magic ∧ pc_version c = version ∧ pc_connected c = true ∧
  unfinished (pc_response_queue c) = ∅ ∧
  pc_sent c ++ waiting c ≡ₚ sm_bytes magic version <$> call_messages calls ∧
  (sm_bytes magic version <$> call_messages (filter (λ call, is_request call) calls)) `sublist_of` pc_sent c.

Lemma call_messages_app calls calls' : call_messages (calls ++ calls') = call_messages calls ++ call_messages calls'.
Proof. apply omap_app. Qed.

Lemma requests_snoc calls call :
  filter (λ call, is_request call) (calls ++ [call]) =
    filter (λ call, is_request call) calls ++ (if is_request call then [call] else []).
Proof.
  rewrite list.filter_app. f_equal. rewrite filter_cons. by destruct (is_request call).
Qed.

(** Adds the messages [bs] of the last call to those sent or waiting. *)
Lemma flowing_advance magic version calls call c c1 c' bs :
  flowing magic version calls c → is_request call = false →
  sm_bytes magic version <$> call_messages [call] = bs →
  pc_magic c1 = magic → pc_version c1 = version →
  (∃ l, pc_sent c1 = pc_sent c ++ l ∧ l ++ waiting c1 ≡ₚ bs ++ waiting c) →
  advances c1 c' → flowing magic version (calls ++ [call]) c'.
Proof.
  intros (Hm & Hv & Hc & Hu & Hp & Hs) Hr Hbs Hm1 Hv1 (l & El & Hl) (Hm' & Hv' & Hc' & Hu' & l' & El' & Hl').
  split_and!; [congruence..|done|done| |].
  - rewrite call_messages_app, fmap_app, <-Hp, Hbs, El', El, <-!app_assoc, Hl', Hl.
    by rewrite (Permutation_app_comm bs).
  - rewrite requests_snoc, Hr, app_nil_r, El', El.
    by apply sublist_inserts_r, sublist_inserts_r.
Qed.

Lemma outbound_step magic version calls call c c' :
  flowing magic version calls c → Forall (sm_wf version) (call_messages [call]) →
  outbound_sync call c = Some c' → flowing magic version (calls ++ [call]) c'.
Proof.
  intros Hf Hw E. pose proof Hf as (Hm & Hv & Hc & Hu & Hp & Hs).
  destruct (is_request call) eqn:Hr.
  - destruct (call_message call) as [m|] eqn:Em; [|by destruct call].
    unfold call_messages in Hw. cbn in Hw. rewrite Em in Hw. apply Forall_inv in Hw. rewrite <-Hv in Hw.
    rewrite (outbound_request call m c Hr Em Hc Hw), Hm, Hv in E. injection E as <-.
    split_and!; [done..| |].
    + rewrite call_messages_app, fmap_app, <-Hp. unfold call_messages at 1. cbn. rewrite Em. cbn.
      rewrite <-!app_assoc. apply Permutation_app_head, Permutation_app_comm.
    + rewrite requests_snoc, Hr, call_messages_app, fmap_app. unfold call_messages at 2. cbn.
      rewrite Em. cbn. by apply sublist_app.
  - destruct call as [| | | | | |m id| | |id]; try done; cbn [outbound_sync] in E.
    + apply Forall_inv in Hw. cbn in Hw. rewrite <-Hv in Hw.
      pose proof (λ c, to_message_bytes (MHeaders m) c) as Ht. cbn [sm_encodable en_value] in Ht.
      unfold send_response in E.
      destruct (permission_for_response (pc_synchronizer c) id) as [[] sync].
      * unfold send_to_peer in E. cbn [pc_connected set_sync] in E. rewrite Hc, Ht in E by done.
        cbn [mbind option_bind pc_magic pc_version set_sync] in E. rewrite Hm, Hv in E.
        eapply flowing_advance; [exact Hf|done|done| | | |eapply send_awaiting_advances, E; done]; try done.
        eexists. split; [done|]. done.
      * rewrite Ht in E by done. cbn [mbind option_bind pc_magic pc_version set_sync] in E.
        unfold push_finished_response in E. cbn [pc_response_queue set_sync] in E.
        rewrite Hu, lookup_empty in E. cbn [default app] in E. case_bool_decide as En; [|done].
        cbn [rust_assert mbind option_bind] in E. injection E as <-.
        eapply (flowing_advance _ _ _ _ c); [exact Hf|done|done| | | |apply advances_same; done]; try done.
        exists []. rewrite app_nil_r. split; [done|]. unfold waiting. cbn.
        rewrite map_to_list_insert by done. cbn. by rewrite Hm, Hv.
    + unfold ignore_response in E.
      destruct (permission_for_response (pc_synchronizer c) id) as [[] sync].
      * eapply (flowing_advance _ _ _ _ c c); [exact Hf|done|done|done|done| |].
        { exists []. by rewrite app_nil_r. }
        eapply advances_trans; [|eapply send_awaiting_advances, E; done]. by apply advances_same.
      * unfold push_ignored_response in E. case_bool_decide as En; [|done].
        cbn [rust_assert mbind option_bind] in E. injection E as <-.
        eapply (flowing_advance _ _ _ _ c c); [exact Hf|done|done|done|done| |by apply advances_same].
        exists []. by rewrite app_nil_r.
Qed.

Lemma outbound_calls_snoc calls call c :
  outbound_calls (calls ++ [call]) c = c' ← outbound_calls calls c; outbound_sync call c'.
Proof. unfold outbound_calls. by rewrite foldl_app. Qed.

Lemma outbound_flows magic version synchronous calls : Forall (sm_wf version) (call_messages calls) →
  let c := peer_context_new magic version synchronous in
  (Forall (λ call, is_request call) calls → is_Some (outbound_calls calls c)) ∧
  ∀ c', outbound_calls calls c = Some c' → flowing magic version calls c'.
Proof.
  intros Hw c. induction calls as [|call calls IH] using rev_ind.
  { split; [by eexists|]. intros c' [= <-]. by split_and!. }
  rewrite call_messages_app in Hw. apply list.Forall_app in Hw as [Hw Hwc].
  destruct (IH Hw) as [Hs Hf]. split.
  - intros Hr. apply list.Forall_app in Hr as [Hr Hrc]. apply Forall_inv in Hrc.
    destruct (Hs Hr) as [c1 E]. rewrite outbound_calls_snoc, E. cbn [mbind option_bind].
    destruct (Hf c1 E) as (_ & Hv & Hc & _).
    destruct (call_message call) as [m|] eqn:Em; [|by destruct call].
    unfold call_messages in Hwc. cbn in Hwc. rewrite Em in Hwc. apply Forall_inv in Hwc. rewrite <-Hv in Hwc.
    rewrite (outbound_request call m c1); [by eexists|by apply Is_true_eq_true|done|done|done].
  - intros c' E. rewrite outbound_calls_snoc in E.
    destruct (outbound_calls calls c) as [c1|] eqn:E1; [|done].
    by apply (outbound_step magic version calls call c1), E; [apply Hf|].
Qed.

Lemma all_requests calls : Forall (λ call, is_request call) calls →
  filter (λ call, is_request call) calls = calls.
Proof. induction 1 as [|call calls Hc _ IH]; [done|]. by rewrite filter_cons_True, IH. Qed.

Lemma sublist_full {T} (l k : list T) : l `sublist_of` k → (length k ≤ length l)%nat → l = k.
Proof.
  induction 1 as [|x l k Hs IH|x l k Hs IH]; cbn; intros Hl; [done|f_equal; apply IH; lia|].
  apply sublist_length in Hs. lia.
Qed.

(** What was sent and what is held back, as messages. *)
Lemma flowing_messages magic version calls c : flowing magic version calls c →
  ∃ sent held, call_messages calls ≡ₚ sent ++ held ∧ pc_sent c = sm_bytes magic version <$> sent ∧
    waiting c = sm_bytes magic version <$> held ∧
    (Forall (λ call, is_request call) calls → sent = call_messages calls).
Proof.
  intros (_ & _ & _ & _ & Hp & Hs).
  destruct (decide (Forall (λ call, is_request call) calls)) as [Hr|Hr].
  - rewrite (all_requests calls Hr) in Hs. pose proof (Permutation_length Hp) as Hl. rewrite length_app in Hl.
    pose proof (sublist_length _ _ Hs) as Hl'.
    assert (waiting c = []) as Hw by (apply length_zero_iff_nil; lia).
    exists (call_messages calls), []. rewrite app_nil_r. split_and!; [done| |done|done].
    symmetry. apply sublist_full; [done|]. lia.
  - apply Permutation_map_inv in Hp as (ms & E & Hms). symmetry in E.
    apply map_eq_app in E as (sent & held & -> & <- & <-).
    exists sent, held. by split_and!.
Qed.
End messages.

(** C35: the messages that one node's synchronization component sends are the calls
    that the other node's receives.  A component that makes any calls of
    [OutboundSync] on a new connection, with messages that may be sent under the
    version spoken, has a future spawned for every message of its calls or, for a
    response, holds it back until its turn, none lost and none doubled, the futures
    of requests in the order of the calls; with requests only it never panics and
    a future is spawned for every message.  The pool performs the futures in any
    order, the stream taking any number of bytes at a time; if no message is
    written to while another one is partly written, which the program leaves to
    chance, then once all are written the stream has exactly those messages, each
    whole, in some order.  However the network cuts the bytes, the peer's channel,
    woken up as they arrive, reads them to the end without an error, and its
    session hands each message on as soon as it is complete, in that order, to the
    synchronization component there ([handled], [deliver]): a [getheaders] with a
    new id for its response, and [inv], [getdata], [getblocks] and [getheaders]
    dropped if that node is synchronizing at that time. *)
Theorem outbound_delivered {R : RugOps} {H : Sha256Ops} {V : VrfOps} {RL : RugLaws R} {HL : Sha256Laws H}
    {VL : VrfLaws V} {A} {IO : AsyncIo A} {IL : AsyncIoLaws A} magic version synchronous calls :
  u32 magic → Forall (sm_wf version) (call_messages calls) →
  let c := peer_context_new magic version synchronous in
  (Forall (λ call, is_request call) calls → is_Some (outbound_calls calls c)) ∧
  ∀ c', outbound_calls calls c = Some c' →
  ∃ sent held,
    call_messages calls ≡ₚ sent ++ held ∧
    pc_sent c' = sm_bytes magic version <$> sent ∧ waiting c' = sm_bytes magic version <$> held ∧
    (sm_bytes magic version <$> call_messages (filter (λ call, is_request call) calls))
      `sublist_of` pc_sent c' ∧
    (Forall (λ call, is_request call) calls → sent = call_messages calls) ∧
    ∀ schedule ws out,
      pool_writes schedule (spawned (pc_sent c')) = (ws, out) →
      uninterrupted schedule (spawned (pc_sent c')) = true → Forall written ws →
      ∃ order, order ≡ₚ sent ∧ out = wire magic version order ∧
      ∀ info (a : A) p w arrivals,
        pi_magic info = magic → pc_version (w_context w) = version → incoming a = [] →
        concat arrivals.*2 = out →
        ∃ a' p' w', wake_ups arrivals (normal_channel a info p AnyHeader w) =
            Some (Waiting, normal_channel a' info p' AnyHeader w') ∧
          incoming a' = [] ∧ handled magic version [] arrivals order w w'.
Proof.
  intros Hm Hw c. destruct (outbound_flows magic version synchronous calls Hw) as [Ht Hf].
  split; [exact Ht|]. intros c' E. specialize (Hf c' E) as Hfl.
  destruct (flowing_messages _ _ _ _ Hfl) as (sent & held & Hp & Es & Eh & Hr).
  exists sent, held. split_and!; [done|done|done|apply Hfl|done|].
  intros schedule ws out Erun Hun Hall. destruct (pool_start (pc_sent c')) as (o0 & Ho0).
  destruct (pool_written _ _ _ _ _ _ Ho0 Hun Erun Hall) as (bytes & Hbytes & ->). rewrite Es in Hbytes.
  apply Permutation_map_inv in Hbytes as (order & -> & Horder).
  exists order. split; [by symmetry|]. split; [done|]. intros info a p w arrivals <- Hv Ha Ec.
  destruct (wake_ups_wire version info arrivals a order p AnyHeader w []) as (a' & p' & w' & Ew & Ei & Hh); try done.
  - rewrite Hp in Hw. apply list.Forall_app in Hw as [Hw _]. by rewrite Horder in Hw.
  - by rewrite Ha.
  - by rewrite Ha, Ec.
  - exists a', p', w'. by rewrite Ha in Hh.
Qed.

(** Closing a connection for misbehaviour is two events of the context, so the
    counters stay exact ([P2pContext.v]). *)
Lemma outbound_close_run {Pr : Profile} info c :
  outbound_close info c = p2p_run c [EvPenalize (pi_address info); EvClose (pi_id info)].
Proof. unfold outbound_close, p2p_run. cbn. by destruct (penalize_node (pi_address info) c). Qed.

(** ** A run *)

Import Reference.

Definition ex_locator : list H256 := [hash_default; hash_default].
Definition ex_outbound : list OutboundCall :=
  [SendSendHeaders mkSendHeaders; SendGetHeaders (mkGetHeaders 70012 ex_locator hash_default);
   SendInventory (mkInv []); SendNotFound (mkNotFound [])].
Definition ex_sent : list (list byte) := sm_bytes MAGIC_TESTNET 70012 <$> call_messages ex_outbound.

(** The second message is written first, in two pieces, then the first one, the
    last one and the third. *)
Definition ex_schedule : list (nat * nat) := [(1, 30); (1, 1000); (0, 1000); (3, 1000); (2, 1000)]%nat.
Definition ex_wire : list byte := (pool_writes ex_schedule (spawned ex_sent)).2.
Definition ex_info : PeerInfo :=
  mkPeerInfo 0 (SA4 [byte_of 10; byte_of 0; byte_of 0; byte_of 2] 18333) [] Inbound 70012
    (example_version 70012 6) MAGIC_TESTNET.
Definition ex_receiver : World := mkWorld (peer_context_new MAGIC_TESTNET 70012 true) [].

(** Cut within the header of the second message that was written; by then the
    receiver has begun to synchronize. *)
Definition ex_arrivals : list (Env * list byte) :=
  [(mkEnv 1 7 [] false, take 130 ex_wire); (mkEnv 2 8 [] true, drop 130 ex_wire)].

Lemma ex_outbound_wf : Forall (sm_wf 70012) (call_messages ex_outbound).
Proof.
  repeat constructor; try (vm_compute; done); try (cbn; lia).
Qed.

Lemma ex_uninterrupted : uninterrupted ex_schedule (spawned ex_sent) = true.
Proof. vm_compute. reflexivity. Qed.

Lemma ex_all_written : Forall written (pool_writes ex_schedule (spawned ex_sent)).1.
Proof. apply (bool_decide_unpack _). vm_compute. exact I. Qed.

Lemma outbound_delivered_witness :
  ∃ order (a' : Pipe) p' w', order ≡ₚ call_messages ex_outbound ∧
    wake_ups ex_arrivals (normal_channel (mkPipe [] [] true) ex_info (ping_new 0) AnyHeader ex_receiver) =
      Some (Waiting, normal_channel a' ex_info p' AnyHeader w') ∧
    handled MAGIC_TESTNET 70012 [] ex_arrivals order ex_receiver w'.
Proof.
  destruct (outbound_delivered (A:=Pipe) MAGIC_TESTNET 70012 true ex_outbound) as [Ht Hd];
    [done|exact ex_outbound_wf|].
  destruct (Ht ltac:(by repeat constructor)) as [c' E].
  destruct (Hd c' E) as (sent & held & _ & Es & _ & _ & Hr & Hw).
  rewrite Hr in Es, Hw by by repeat constructor. fold ex_sent in Es. rewrite Es in Hw.
  destruct (Hw ex_schedule _ _ (surjective_pairing _) ex_uninterrupted ex_all_written) as (order & Ho & Eo & Hread).
  destruct (Hread ex_info (mkPipe [] [] true) (ping_new 0) ex_receiver ex_arrivals) as (a' & p' & w' & Ew & _ & Hh);
    [reflexivity|reflexivity|reflexivity| |exists order, a', p', w'; exact (conj Ho (conj Ew Hh))].
  cbn [ex_arrivals fmap list_fmap snd concat]. rewrite app_nil_r. apply take_drop.
Defined.

(** What the receiver's component is told: the [getheaders], then [sendheaders] and
    [notfound]; the [inv] came while it was synchronizing. *)
Definition ex_told (effects : list Effect) : list string :=
  (λ e, match e with
        | SyncEffect (OnGetHeaders m 0) => if decide (length (gh_block_locator_hashes m) = 2%nat) then "getheaders" else "other"
        | SyncEffect (OnSendHeaders _) => "sendheaders"
        | SyncEffect (OnNotFound _) => "notfound"
        | _ => "other"
        end)%string <$> effects.

Example ex_delivered :
  (λ rc, ex_told (w_effects (ch_world rc.2))) <$>
    wake_ups ex_arrivals (normal_channel (mkPipe [] [] true) ex_info (ping_new 0) AnyHeader ex_receiver) =
  Some ["getheaders"; "sendheaders"; "notfound"]%string.
Proof. vm_compute. reflexivity. Qed.

(** The stream has taken two bytes of the second message when a thread writes the
    first one to it: the peer does not find the magic of the network and closes
    the connection, without having been told anything. *)
Definition ex_interleaved : list byte := (pool_writes [(1, 2); (0, 1000); (1, 1000)]%nat (spawned (take 2 ex_sent))).2.

Example interleaved_writes_break :
  uninterrupted [(1, 2); (0, 1000); (1, 1000)]%nat (spawned (take 2 ex_sent)) = false ∧
  (λ rc, (rc.1, ex_told (w_effects (ch_world rc.2)))) <$>
    wake_ups [(mkEnv 1 7 [] false, ex_interleaved)] (normal_channel (mkPipe [] [] true) ex_info (ping_new 0) AnyHeader ex_receiver) =
  Some (Broken InvalidMagic, []).
Proof. split; vm_compute; reflexivity. Qed.
