(* ===== verification/SpeedMeter.v ===== *)
(** * Double-precision numbers and the speed meter
    ([sync/src/utils/average_speed_meter.rs])

    Times and speeds are [f64].  They are the binary64 numbers of the Standard
    Library's executable IEEE 754 arithmetic, so that every decision the
    synchronization client takes on them can be evaluated.  The readings of the
    clock are arguments. *)

From S2P Require Import Prelude.
From Stdlib Require Import SpecFloat.
#[local] Open Scope Z_scope.

(** ** [f64] *)

Abbreviation f64 := spec_float.

Definition f64_add : f64 → f64 → f64 := SFadd 53 1024.
Definition f64_sub : f64 → f64 → f64 := SFsub 53 1024.
Definition f64_mul : f64 → f64 → f64 := SFmul 53 1024.
Definition f64_div : f64 → f64 → f64 := SFdiv 53 1024.
Definition f64_lt : f64 → f64 → bool := SFltb.
Definition f64_le : f64 → f64 → bool := SFleb.

(** [n as f64] for an integer type. *)
Definition f64_of_Z (n : Z) : f64 := binary_normalize 53 1024 n 0 false.

(** [f64::is_normal] *)
Definition f64_is_normal (x : f64) : bool :=
  match SFclassify 53 x with FloatClass.PNormal | FloatClass.NNormal => true | _ => false end.

(** The integer part, for a finite number. *)
Definition f64_trunc (x : f64) : Z :=
  match x with
  | S754_finite s m e =>
      let n := if 0 <=? e then Z.shiftl (Z.pos m) e else Z.shiftr (Z.pos m) (- e) in
      if s then - n else n
  | _ => 0
  end.

(** [x as u32], which saturates and sends NaN to 0. *)
Definition f64_as_u32 (x : f64) : Z :=
  match x with
  | S754_infinity false => 2 ^ 32 - 1
  | _ => Z.min (2 ^ 32 - 1) (Z.max 0 (f64_trunc x))
  end.

Lemma f64_as_u32_range x : u32 (f64_as_u32 x).
Proof. unfold f64_as_u32, fits. destruct x as [|[]| |]; cbn -[Z.max Z.min]; lia. Qed.

#[global] Instance spec_float_eq_dec : EqDecision spec_float.
Proof. solve_decision. Defined.

(** ** The speed meter *)

(** src: sync/src/utils/average_speed_meter.rs 6-15 AverageSpeedMeter *)
Record AverageSpeedMeter := mkMeter {
  inspect_items : nat;
  inspected_items : list f64;
  meter_speed : f64;
  last_timestamp : option f64;
}.

(** src: sync/src/utils/average_speed_meter.rs 18-26 with_inspect_items *)
Definition with_inspect_items (n : nat) : option AverageSpeedMeter :=
  _ ← rust_assert (0 <? n)%nat;
  Some (mkMeter n [] (f64_of_Z 0) None).

(** src: sync/src/utils/average_speed_meter.rs 28-35 speed *)
Definition speed (s : AverageSpeedMeter) : f64 :=
  let items_per_second := f64_div (f64_of_Z 1) (meter_speed s) in
  if f64_is_normal items_per_second then items_per_second else f64_of_Z 0.

(** src: sync/src/utils/average_speed_meter.rs 37-39 inspected_items_len *)
Definition inspected_items_len (s : AverageSpeedMeter) : nat := length (inspected_items s).

(** The oldest item leaves a full meter. *)
Definition forget_oldest (s : AverageSpeedMeter) : option AverageSpeedMeter :=
  if (length (inspected_items s) =? inspect_items s)%nat then
    match inspected_items s with
    | [] => None
    | oldest :: items =>
        let n := f64_of_Z (Z.of_nat (inspect_items s)) in
        Some (mkMeter (inspect_items s) items
          (f64_div (f64_sub (f64_mul n (meter_speed s)) oldest) (f64_sub n (f64_of_Z 1)))
          (last_timestamp s))
    end
  else Some s.

(** src: sync/src/utils/average_speed_meter.rs 41-61 checkpoint *)
Definition checkpoint (now : f64) (s : AverageSpeedMeter) : option AverageSpeedMeter :=
  s ← forget_oldest s;
  Some match last_timestamp s with
       | Some last_timestamp =>
           let newest := f64_sub now last_timestamp in
           let len := f64_of_Z (Z.of_nat (length (inspected_items s))) in
           mkMeter (inspect_items s) (inspected_items s ++ [newest])
             (f64_div (f64_add (f64_mul len (meter_speed s)) newest) (f64_add len (f64_of_Z 1)))
             (Some now)
       | None => mkMeter (inspect_items s) (inspected_items s) (meter_speed s) (Some now)
       end.

(** src: sync/src/utils/average_speed_meter.rs 63-65 start *)
Definition meter_start (now : f64) (s : AverageSpeedMeter) : AverageSpeedMeter :=
  mkMeter (inspect_items s) (inspected_items s) (meter_speed s) (Some now).

(** src: sync/src/utils/average_speed_meter.rs 67-69 stop *)
Definition meter_stop (s : AverageSpeedMeter) : AverageSpeedMeter :=
  mkMeter (inspect_items s) (inspected_items s) (meter_speed s) None.

(** A meter holds between 0 and [inspect_items] items, and has room for one. *)
Definition meter_ok (s : AverageSpeedMeter) : Prop :=
  (0 < inspect_items s)%nat ∧ (length (inspected_items s) ≤ inspect_items s)%nat.

Lemma meter_ok_new n : (0 < n)%nat → ∃ s, with_inspect_items n = Some s ∧ meter_ok s.
Proof.
  intros Hn. unfold with_inspect_items, rust_assert. rewrite (proj2 (Nat.ltb_lt 0 n)) by done.
  eexists. split; [done|]. split; cbn; lia.
Qed.

Lemma meter_ok_checkpoint now s : meter_ok s → ∃ s', checkpoint now s = Some s' ∧ meter_ok s'.
Proof.
  intros [Hn Hl]. assert (∃ s1, forget_oldest s = Some s1 ∧ inspect_items s1 = inspect_items s ∧
    (length (inspected_items s1) < inspect_items s)%nat) as (s1 & E & Ei & Hl1).
  { unfold forget_oldest. destruct (Nat.eqb_spec (length (inspected_items s)) (inspect_items s)) as [Heq|Hne].
    - destruct (inspected_items s) as [|x l]; [cbn in Heq; lia|]. eexists. split; [done|]. cbn in *. lia.
    - exists s. split; [done|]. lia. }
  unfold checkpoint. rewrite E. cbn [mbind option_bind].
  destruct (last_timestamp s1); eexists; (split; [done|]); split; cbn [inspect_items inspected_items];
    rewrite ?length_app; cbn; lia.
Qed.

Lemma meter_ok_start now s : meter_ok s → meter_ok (meter_start now s).
Proof. done. Qed.

Lemma meter_ok_stop s : meter_ok s → meter_ok (meter_stop s).
Proof. done. Qed.

(** A meter of two items that saw blocks at 1, 2, 4 and 5 seconds remembers the
    last two intervals: 1.5 seconds per block. *)
Example meter_example :
  (s ← with_inspect_items 2; s ← checkpoint (f64_of_Z 1) s; s ← checkpoint (f64_of_Z 2) s;
   s ← checkpoint (f64_of_Z 4) s; s ← checkpoint (f64_of_Z 5) s; Some (meter_speed s)) =
  Some (f64_div (f64_of_Z 3) (f64_of_Z 2)).
Proof. reflexivity. Qed.
