(* ===== verification/P2pRun.v ===== *)
(** * Connections and the start of the network ([p2p/src/net/connect.rs],
    [accept_connection.rs], [config.rs], [stats.rs], [p2p/src/io/deadline.rs],
    [p2p/src/p2p.rs])

    The futures that turn a socket into a connection, with the deadline they run
    under; the statistics of a peer; what [P2P::run] starts. *)

From S2P Require Import Prelude External Primitives Serialization Compact Crypto Chain Network Utf8.
From S2P Require Import Message MessageTypes MessageIo Handshake NodeTable Session P2pContext SpeedMeter.
From stdpp Require Import gmap.
#[local] Open Scope Z_scope.

(** ** Configuration of a connection *)

(** src: p2p/src/net/config.rs 8-19 Config *)
Record NetConfig := mkNetConfig {
  nc_protocol_version : Z;
  nc_protocol_minimum : Z;
  nc_magic : Z;
  nc_local_address : SocketAddr;
  nc_services : Services;
  nc_user_agent : list byte;
  nc_start_height : Z;
  nc_relay : bool;
  nc_network : Network;
}.

(** The time in seconds and the random nonce are arguments. *)
(** src: p2p/src/net/config.rs 22-46 version *)
Definition net_version (now nonce : Z) (to : SocketAddr) (c : NetConfig) : Version :=
  Version_V70001
    (mkVersionV0 (nc_protocol_version c) (nc_services c) now
      (mkNetAddress (nc_services c) (sa_ip to) (sa_port to)))
    (mkVersionV106 (mkNetAddress (nc_services c) (sa_ip (nc_local_address c)) (sa_port (nc_local_address c)))
      nonce (nc_user_agent c) (nc_start_height c))
    (mkVersionV70001 (nc_relay c)).

(** src: p2p/src/config.rs 7-26 Config *)
Record P2pConfig := mkP2pConfig {
  pc_threads : Z;
  pc_inbound_connections : Z;
  pc_outbound_connections : Z;
  pc_connection : NetConfig;
  pc_peers : list SocketAddr;
  pc_seeds : list (list byte);
  pc_preferable_services : Services;
  pc_internet_protocol : InternetProtocol;
}.

(** ** The futures *)

(** src: p2p/src/io/deadline.rs 28-31 DeadlineStatus *)
Inductive DeadlineStatus (T : Type) := InTime (t : T) | OutOfTime.
Arguments InTime {T}.
Arguments OutOfTime {T}.

(** [Select] polls the timeout first. *)
(** src: p2p/src/io/deadline.rs 47-53 poll *)
Definition deadline_poll {S T} (elapsed : bool) (inner : Flow S T) : Flow S (DeadlineStatus T) :=
  if elapsed then Done OutOfTime
  else match inner with
       | Next s => Next s
       | Done t => Done (InTime t)
       | Pending s => Pending s
       | IoError => IoError
       | Panic => Panic
       end.

Section connect.
Context {H : Sha256Ops} {A : Type} {I : AsyncIo A}.
Context {N : Type} (poll_tcp : N → IoPoll A * N).

(** The connection a finished handshake makes, the same in both futures. *)
(** src: p2p/src/net/accept_connection.rs 47-54 Connection *)
Definition connection_of (magic : Z) (address : SocketAddr) (r : HandshakeResult) : Connection :=
  mkConnection (hr_negotiated_version r) (hr_version r) magic (version_services (hr_version r)) address.

(** The handshake keeps its stream. *)
(** src: p2p/src/net/connect.rs 27-34 ConnectState *)
Inductive ConnectState :=
| TcpConnecting (future : N) (version : option Version)
| ConnectHandshake (cfg : HandshakeConfig) (state : HandshakeState) (stream : A)
| Connected.

(** src: p2p/src/net/connect.rs 36-41 Connect *)
Record Connect := mkConnect {
  cn_state : ConnectState;
  cn_magic : Z;
  cn_address : SocketAddr;
  cn_protocol_minimum : Z;
}.

(** src: p2p/src/net/connect.rs 13-25 connect *)
Definition connect_future (future : N) (now nonce : Z) (address : SocketAddr) (c : NetConfig) : Connect :=
  mkConnect (TcpConnecting future (Some (net_version now nonce address c))) (nc_magic c) address (nc_protocol_minimum c).

(** A round of [poll]. *)
(** src: p2p/src/net/connect.rs 47-83 poll *)
Definition connect_step (c : Connect) (state : ConnectState) : Flow ConnectState (result MessageError Connection) :=
  match state with
  | TcpConnecting future version =>
      match poll_tcp future with
      | (IoReady stream, _) =>
          or_panic version (λ version,
            or_panic (handshake (cn_magic c) version (cn_protocol_minimum c)) (λ '(cfg, s),
              Next (ConnectHandshake cfg s stream)))
      | (IoNotReady, future) => Pending (TcpConnecting future version)
      | (IoFailed, _) => IoError
      end
  | ConnectHandshake cfg s stream =>
      match poll_handshake cfg s stream with
      | (Done (Ok r), _) => Done (Ok (connection_of (cn_magic c) (cn_address c) r))
      | (Done (Err err), _) => Done (Err err)
      | (Pending s, stream) => Pending (ConnectHandshake cfg s stream)
      | (Next s, stream) => Next (ConnectHandshake cfg s stream)
      | (IoError, _) => IoError
      | (Panic, _) => Panic
      end
  | Connected => Panic
  end.

(** Two states, in order.  A future that has ended is [Connected] and is not
    polled again. *)
Definition poll_connect (c : Connect) : Flow Connect (result MessageError Connection) :=
  let with_state s := mkConnect s (cn_magic c) (cn_address c) (cn_protocol_minimum c) in
  match poll_loop (λ s (_ : unit), (connect_step c s, tt)) 2 (cn_state c) tt with
  | (Next s, _) => Next (with_state s)
  | (Pending s, _) => Pending (with_state s)
  | (Done r, _) => Done r
  | (IoError, _) => IoError
  | (Panic, _) => Panic
  end.

(** src: p2p/src/net/accept_connection.rs 31-35 AcceptConnection *)
Record AcceptConnection := mkAcceptConnection {
  ac_config : HandshakeConfig;
  ac_state : AcceptHandshakeState;
  ac_stream : A;
  ac_magic : Z;
  ac_address : SocketAddr;
}.

(** src: p2p/src/net/accept_connection.rs 11-29 accept_connection *)
Definition accept_future (stream : A) (now nonce : Z) (address : SocketAddr) (c : NetConfig) : AcceptConnection :=
  let '(cfg, s) := accept_handshake (nc_magic c) (net_version now nonce address c) (nc_protocol_minimum c) in
  mkAcceptConnection cfg s stream (nc_magic c) address.

(** src: p2p/src/net/accept_connection.rs 41-56 poll *)
Definition poll_accept (c : AcceptConnection) : Flow AcceptConnection (result MessageError Connection) :=
  match poll_accept_handshake (ac_config c) (ac_state c) (ac_stream c) with
  | (Done (Ok r), _) => Done (Ok (connection_of (ac_magic c) (ac_address c) r))
  | (Done (Err err), _) => Done (Err err)
  | (Pending s, stream) => Pending (mkAcceptConnection (ac_config c) s stream (ac_magic c) (ac_address c))
  | (Next s, stream) => Next (mkAcceptConnection (ac_config c) s stream (ac_magic c) (ac_address c))
  | (IoError, _) => IoError
  | (Panic, _) => Panic
  end.

(** What the context sees of a future that has ended under its deadline. *)
(** src: p2p/src/p2p.rs 207-247 result *)
Definition connect_result {S} (f : Flow S (DeadlineStatus (result MessageError Connection))) : option ConnectResult :=
  match f with
  | Done (InTime (Ok connection)) => Some (P2pContext.Meet connection)
  | Done (InTime (Err _)) => Some MeetError
  | Done OutOfTime => Some TimedOut
  | IoError => Some NetworkError
  | _ => None
  end.
End connect.

(** ** Statistics of a peer *)

(** src: p2p/src/net/stats.rs 10-10 ENORMOUS_PING_DELAY *)
Definition ENORMOUS_PING_DELAY : f64 := f64_of_Z 10.

(** src: p2p/src/net/stats.rs 12-16 RunningAverage *)
Record RunningAverage := mkRunningAverage { ra_count : Z; ra_bytes : Z }.

(** src: p2p/src/net/stats.rs 19-24 new *)
Definition average_new (initial : Z) : RunningAverage := mkRunningAverage 1 initial.

(** [n as i64] *)
Definition as_i64 (n : Z) : Z := let m := wrap 64 n in if m <? 2 ^ 63 then m else m - 2 ^ 64.

Section stats.
Context {P : Profile}.

(** A signed result of 64 bits: an overflow panics when the profile checks. *)
Definition i64_checked (n : Z) : option Z :=
  if (- 2 ^ 63 <=? n) && (n <? 2 ^ 63) then Some n else if overflow_checks then None else Some (as_i64 n).

Definition u64_plus (a b : Z) : option Z :=
  if (2 ^ 64 <=? a + b) && overflow_checks then None else Some (wrap 64 (a + b)).

(** Signed division truncates; division by zero, and of the smallest number by
    -1, panic under every profile. *)
Definition i64_div (a b : Z) : option Z :=
  if b =? 0 then None else if (a =? - 2 ^ 63) && (b =? -1) then None else Some (Z.quot a b).

(** src: p2p/src/net/stats.rs 26-41 add *)
Definition average_add (bytes : Z) (a : RunningAverage) : option RunningAverage :=
  count ← u64_plus (ra_count a) 1;
  diff ← i64_checked (as_i64 bytes - as_i64 (ra_bytes a));
  step ← i64_div diff (as_i64 count);
  sum ← i64_checked (as_i64 (ra_bytes a) + step);
  Some (mkRunningAverage count (wrap 64 sum)).

(** src: p2p/src/net/stats.rs 48-51 Flow *)
Inductive Traffic := ReceiveFlow | SendFlow.

#[global] Instance Command_countable : Countable Command.
Proof. apply (inj_countable' command_hash mkCommand). by intros []. Defined.

(** The instant of the last ping is the reading of a clock in nanoseconds. *)
(** src: p2p/src/net/stats.rs 53-71 PeerStats *)
Record PeerTraffic := mkPeerTraffic {
  ps_last_send : Z;
  ps_last_recv : Z;
  ps_total_send : Z;
  ps_total_recv : Z;
  ps_avg_ping : f64;
  ps_min_ping : option f64;
  ps_send_avg : gmap Command RunningAverage;
  ps_recv_avg : gmap Command RunningAverage;
  ps_last_ping : option Z;
  ps_ping_count : Z;
}.

(** src: p2p/src/net/stats.rs 74-79 with_interval *)
Definition stats_new : PeerTraffic := mkPeerTraffic 0 0 0 0 (f64_of_Z 0) None ∅ ∅ None 0.

(** The entry of a command: a new average or one more sample. *)
(** src: p2p/src/net/stats.rs 89-96 entry *)
Definition sample (command : Command) (bytes : Z) (avgs : gmap Command RunningAverage) : option (gmap Command RunningAverage) :=
  match avgs !! command with
  | Some avg => avg ← average_add bytes avg; Some (<[command := avg]> avgs)
  | None => Some (<[command := average_new bytes]> avgs)
  end.

(** src: p2p/src/net/stats.rs 99-102 report_ping_send *)
Definition report_ping_send (instant : Z) (s : PeerTraffic) : option PeerTraffic :=
  count ← u64_plus (ps_ping_count s) 1;
  Some (mkPeerTraffic (ps_last_send s) (ps_last_recv s) (ps_total_send s) (ps_total_recv s) (ps_avg_ping s) (ps_min_ping s)
    (ps_send_avg s) (ps_recv_avg s) (Some instant) count).

Definition f64_min (a b : f64) : f64 := if f64_lt b a then b else a.

(** The time since the last ping, in nanoseconds, as seconds. *)
(** src: p2p/src/net/stats.rs 106-112 update *)
Definition ping_delay (nanos : Z) : f64 :=
  if 10 <? nanos / 10 ^ 9 then ENORMOUS_PING_DELAY
  else f64_add (f64_of_Z (nanos / 10 ^ 9)) (f64_div (f64_of_Z (nanos mod 10 ^ 9)) (f64_of_Z (10 ^ 9))).

(** src: p2p/src/net/stats.rs 104-116 report_pong_recv *)
Definition report_pong_recv (instant : Z) (s : PeerTraffic) : PeerTraffic :=
  match ps_last_ping s with
  | Some last_ping =>
      let update := ping_delay (instant - last_ping) in
      mkPeerTraffic (ps_last_send s) (ps_last_recv s) (ps_total_send s) (ps_total_recv s)
        (f64_add (ps_avg_ping s) (f64_div (f64_sub update (ps_avg_ping s)) (f64_of_Z (ps_ping_count s))))
        (Some (f64_min (default ENORMOUS_PING_DELAY (ps_min_ping s)) update))
        (ps_send_avg s) (ps_recv_avg s) (ps_last_ping s) (ps_ping_count s)
  | None => s
  end.

(** [now] in seconds, [instant] in nanoseconds. *)
(** src: p2p/src/net/stats.rs 81-97 report_send *)
Definition report_send (now instant : Z) (command : Command) (bytes : Z) (s : PeerTraffic) : option PeerTraffic :=
  total ← u64_plus (ps_total_send s) bytes;
  let s := mkPeerTraffic (wrap 32 now) (ps_last_recv s) total (ps_total_recv s) (ps_avg_ping s) (ps_min_ping s)
    (ps_send_avg s) (ps_recv_avg s) (ps_last_ping s) (ps_ping_count s) in
  s ← (if command_eq_str command (name "ping") then report_ping_send instant s else Some s);
  avgs ← sample command bytes (ps_send_avg s);
  Some (mkPeerTraffic (ps_last_send s) (ps_last_recv s) (ps_total_send s) (ps_total_recv s) (ps_avg_ping s) (ps_min_ping s)
    avgs (ps_recv_avg s) (ps_last_ping s) (ps_ping_count s)).

(** src: p2p/src/net/stats.rs 118-134 report_recv *)
Definition report_recv (now instant : Z) (command : Command) (bytes : Z) (s : PeerTraffic) : option PeerTraffic :=
  total ← u64_plus (ps_total_recv s) bytes;
  let s := mkPeerTraffic (ps_last_send s) (wrap 32 now) (ps_total_send s) total (ps_avg_ping s) (ps_min_ping s)
    (ps_send_avg s) (ps_recv_avg s) (ps_last_ping s) (ps_ping_count s) in
  let s := if command_eq_str command (name "pong") then report_pong_recv instant s else s in
  avgs ← sample command bytes (ps_recv_avg s);
  Some (mkPeerTraffic (ps_last_send s) (ps_last_recv s) (ps_total_send s) (ps_total_recv s) (ps_avg_ping s) (ps_min_ping s)
    (ps_send_avg s) avgs (ps_last_ping s) (ps_ping_count s)).

(** src: p2p/src/net/stats.rs 136-152 avg *)
Definition stats_avg (dir : Traffic) (command : Command) (s : PeerTraffic) : Z :=
  from_option ra_bytes 0 (match dir with ReceiveFlow => ps_recv_avg s | SendFlow => ps_send_avg s end !! command).
End stats.

(** ** Starting the network *)

Section run.
Context {P : Profile} {C : Csv}.

(** The file of the node table is opened, or made; [None] is an error of the
    file system. *)
(** src: p2p/src/util/node_table.rs 195-206 from_file *)
Definition table_from_file (preferable : Services) (file : option (list byte)) : option NodeTable :=
  bytes ← file; load preferable bytes.

(** src: p2p/src/p2p.rs 569-594 new *)
Definition p2p_new (file : option (list byte)) (c : P2pConfig) : option Context :=
  table ← table_from_file (pc_preferable_services c) file;
  Some (context_new table (nc_services (pc_connection c)) (pc_internet_protocol c) (port (nc_network (pc_connection c)))
    (pc_inbound_connections c) (pc_outbound_connections c)).

(** What a name of a seed resolves to: nothing when the lookup fails or has no
    address. *)
(** src: p2p/src/p2p.rs 629-652 dns_lookup *)
Definition seed_resolved (picked : option SocketAddr) (cx : Context) : Context :=
  match picked with Some socket => context_connect socket cx | None => cx end.

(** [sampled] are the peers the random generator chose, [lookups] what the
    lookups of the seeds give once they end; [resolver] and [bound] are whether
    the resolver is configured and the port could be listened on. *)
(** src: p2p/src/p2p.rs 596-616 run *)
Definition p2p_start (sampled : list SocketAddr) (resolver bound : bool) (c : P2pConfig) (cx : Context) :
    result string (list (list byte)) * Context :=
  let cx := foldl (λ cx peer, context_connect peer cx) cx sampled in
  if negb resolver then (Err "resolver"%string, cx)
  else if negb bound then (Err "listen"%string, cx)
  else (Ok (pc_seeds c), context_listen cx).

(** [SliceRandom::choose_multiple]: [amount] elements of different places, in
    some order, or all of them. *)
Definition chosen {A} (l : list A) (amount : nat) (sampled : list A) : Prop :=
  sampled ⊆+ l ∧ length sampled = (amount `min` length l)%nat.
End run.

(** ** Averages *)

Section averages.
Context {P : Profile}.

Fixpoint average_adds (samples : list Z) (a : RunningAverage) : option RunningAverage :=
  match samples with [] => Some a | b :: samples => a ← average_add b a; average_adds samples a end.

Lemma as_i64_small n : 0 ≤ n < 2 ^ 63 → as_i64 n = n.
Proof. intros Hn. unfold as_i64. rewrite wrap_small by (unfold fits; lia). cbv zeta. by rewrite (proj2 (Z.ltb_lt _ _)) by lia. Qed.

Lemma i64_checked_small n : - 2 ^ 63 ≤ n < 2 ^ 63 → i64_checked n = Some n.
Proof. intros Hn. unfold i64_checked. by rewrite (proj2 (Z.leb_le _ _)), (proj2 (Z.ltb_lt _ _)) by lia. Qed.

(** A truncated quotient by a positive number lies between zero and the number. *)
Lemma quot_between n c : 0 < c → Z.min 0 n ≤ Z.quot n c ≤ Z.max 0 n.
Proof.
  intros Hc. destruct (Z.le_ge_cases 0 n) as [Hn|Hn].
  - pose proof (Z.quot_pos n c Hn Hc). pose proof (Z.quot_le_mono 1 c n). 
    assert (Z.quot n c ≤ n) by (rewrite Z.quot_div_nonneg by lia; apply Z.div_le_upper_bound; nia). lia.
  - assert (Z.quot n c = - Z.quot (- n) c) as -> by (rewrite Z.quot_opp_l by lia; lia).
    assert (0 ≤ Z.quot (- n) c ≤ - n); [|lia]. rewrite Z.quot_div_nonneg by lia.
    split; [apply Z.div_pos; lia|apply Z.div_le_upper_bound; nia].
Qed.

Lemma average_add_between a b lo hi : 0 ≤ lo → hi < 2 ^ 63 → lo ≤ ra_bytes a ≤ hi → lo ≤ b ≤ hi → 0 ≤ ra_count a < 2 ^ 63 - 1 →
  ∃ a', average_add b a = Some a' ∧ lo ≤ ra_bytes a' ≤ hi ∧ ra_count a' = ra_count a + 1.
Proof.
  intros Hlo Hhi Ha Hb Hc. unfold average_add, u64_plus.
  rewrite (proj2 (Z.leb_gt _ _)) by lia. cbn [andb mbind option_bind]. rewrite wrap_small by (unfold fits; lia).
  rewrite !as_i64_small by lia. rewrite i64_checked_small by lia. cbn [mbind option_bind]. unfold i64_div.
  rewrite (proj2 (Z.eqb_neq _ _)) by lia. rewrite (proj2 (Z.eqb_neq (ra_count a + 1) (-1))), andb_false_r by lia. cbn [mbind option_bind].
  pose proof (quot_between (b - ra_bytes a) (ra_count a + 1) ltac:(lia)).
  rewrite i64_checked_small by lia. cbn [mbind option_bind]. eexists. split; [done|]. cbn.
  rewrite wrap_small by (unfold fits; lia). lia.
Qed.

(** The running average of the statistics neither overflows nor divides by
    zero, whatever the build profile: for sizes below [2^63], and fewer than
    [2^63] of them, it is always between the smallest and the largest size it was
    given. *)
Theorem average_between first samples lo hi : 0 ≤ lo → hi < 2 ^ 63 → Forall (λ b, lo ≤ b ≤ hi) (first :: samples) →
  Z.of_nat (length samples) < 2 ^ 63 - 1 →
  ∃ a, average_adds samples (average_new first) = Some a ∧ lo ≤ ra_bytes a ≤ hi ∧ ra_count a = 1 + Z.of_nat (length samples).
Proof.
  intros Hlo Hhi [Hf Hs]%Forall_cons Hn.
  assert (∀ a, lo ≤ ra_bytes a ≤ hi → 0 ≤ ra_count a → ra_count a + Z.of_nat (length samples) < 2 ^ 63 →
    ∃ a', average_adds samples a = Some a' ∧ lo ≤ ra_bytes a' ≤ hi ∧ ra_count a' = ra_count a + Z.of_nat (length samples)) as Hall.
  { clear Hn Hf first. induction Hs as [|b samples Hb Hs IH]; intros a Ha Hc Hl; cbn [average_adds length] in *; [exists a; split_and!; try done; lia|].
    destruct (average_add_between a b lo hi) as (a1 & -> & H1 & E1); try done; [lia|]. cbn [mbind option_bind].
    destruct (IH a1) as (a' & -> & ? & ?); [done|lia|lia|]. exists a'. split_and!; try done; lia. }
  apply (Hall (average_new first)); cbn; lia.
Qed.
End averages.

Lemma average_between_witness : ∃ a, average_adds (P:=true) [12; 20; 28; 12] (average_new 10) = Some a ∧ 10 ≤ ra_bytes a ≤ 28.
Proof.
  destruct (average_between (P:=true) 10 [12; 20; 28; 12] 10 28) as (a & E & Ha & _); [lia|lia| |vm_compute; reflexivity|by exists a].
  repeat constructor; lia.
Defined.

(** ** What a connection is *)

Section established.
Context {H : Sha256Ops} {A : Type} {I : AsyncIo A} {N : Type} (poll_tcp : N → IoPoll A * N).

(** The version of the peer that a handshake holds was accepted. *)
Definition checked (cfg : HandshakeConfig) (st : HandshakeState) : Prop :=
  match st with SendVerack (Some v) _ | ReceiveVerack (Some v) _ => version_refused cfg v = false | _ => True end.

Definition accept_checked (cfg : HandshakeConfig) (st : AcceptHandshakeState) : Prop :=
  match st with AcceptSendVersion (Some v) _ | AcceptSendVerack (Some v) _ => version_refused cfg v = false | _ => True end.

Definition agreed (cfg : HandshakeConfig) (r : HandshakeResult) : Prop :=
  version_refused cfg (hr_version r) = false ∧
  hr_negotiated_version r = Z.min (hs_version cfg) (version_version (hr_version r)).

Definition outcome {S} (Q : S → Prop) (cfg : HandshakeConfig) (f : Flow S (result MessageError HandshakeResult)) : Prop :=
  match f with Next s | Pending s => Q s | Done (Ok r) => agreed cfg r | _ => True end.

Lemma poll_loop_keeps {S T B} (step : S → B → Flow S T * B) (Q : S → Prop) (fin : T → Prop) :
  (∀ s b, Q s → match (step s b).1 with Next s | Pending s => Q s | Done t => fin t | _ => True end) →
  ∀ fuel s b, Q s → match (poll_loop step fuel s b).1 with Next s | Pending s => Q s | Done t => fin t | _ => True end.
Proof.
  intros Hstep. induction fuel as [|fuel IH]; intros s b Hs; [done|]. rewrite poll_loop_S.
  pose proof (Hstep s b Hs) as Hn. destruct (step s b) as [[s'|t|s'| |] b']; try done. by apply IH.
Qed.

Lemma handshake_step_checked cfg st (a : A) : checked cfg st → outcome (checked cfg) cfg (handshake_step cfg st a).1.
Proof.
  intros Hst. destruct st as [m|f|v m|v f]; cbn [handshake_step].
  - unfold try_ready. by destruct (poll_write_all m a) as [[] ?].
  - unfold try_future. destruct (poll_read_message _ _ _ _) as [[?|[version|e]|?| |] ?]; try done.
    destruct (version_refused cfg version) eqn:E; [done|]. by destruct (verack_message _).
  - unfold try_ready. destruct (poll_write_all m a) as [[] ?]; [|done..]. by destruct v.
  - unfold try_future. destruct (poll_read_message _ _ _ _) as [[?|?|?| |] ?]; try done. by destruct v.
Qed.

Lemma accept_step_checked cfg st (a : A) : accept_checked cfg st → outcome (accept_checked cfg) cfg (accept_handshake_step cfg st a).1.
Proof.
  intros Hst. destruct st as [l f|v m|v m]; cbn [accept_handshake_step].
  - unfold try_future. destruct (poll_read_message _ _ _ _) as [[?|[version|e]|?| |] ?]; try done.
    destruct (version_refused cfg version) eqn:E; [done|]. destruct l as [l|]; [|done]. cbn. by destruct (version_message _ l).
  - unfold try_ready. destruct (poll_write_all m a) as [[] ?]; [|done..]. by destruct (verack_message _).
  - unfold try_ready. destruct (poll_write_all m a) as [[] ?]; [|done..]. by destruct v.
Qed.

Lemma poll_handshake_checked cfg st (a : A) : checked cfg st → outcome (checked cfg) cfg (poll_handshake cfg st a).1.
Proof.
  intros Hst. pose proof (poll_loop_keeps (handshake_step cfg) (checked cfg) (λ r, match r with Ok r => agreed cfg r | Err _ => True end)) as Hl.
  refine (_ (Hl _ 4%nat st a Hst)).
  - unfold poll_handshake, outcome. by destruct (poll_loop _ _ _ _) as [[?|[]|?| |] ?].
  - intros s b Hs. pose proof (handshake_step_checked cfg s b Hs) as Ho. unfold outcome in Ho. by destruct (handshake_step _ _ _) as [[?|[]|?| |] ?].
Qed.

Lemma poll_accept_checked cfg st (a : A) : accept_checked cfg st → outcome (accept_checked cfg) cfg (poll_accept_handshake cfg st a).1.
Proof.
  intros Hst. pose proof (poll_loop_keeps (accept_handshake_step cfg) (accept_checked cfg) (λ r, match r with Ok r => agreed cfg r | Err _ => True end)) as Hl.
  refine (_ (Hl _ 3%nat st a Hst)).
  - unfold poll_accept_handshake, outcome. by destruct (poll_loop _ _ _ _) as [[?|[]|?| |] ?].
  - intros s b Hs. pose proof (accept_step_checked cfg s b Hs) as Ho. unfold outcome in Ho. by destruct (accept_handshake_step _ _ _) as [[?|[]|?| |] ?].
Qed.

(** A future that is polled, and while it waits its connection changes as it
    will. *)
Inductive dialling : Connect (A:=A) (N:=N) → Connect (A:=A) (N:=N) → Prop :=
| dialling_start c : dialling c c
| dialling_poll c c1 c2 : dialling c c1 → poll_connect poll_tcp c1 = Pending c2 → dialling c c2
| dialling_tcp c f f' v m a p : dialling c (mkConnect (TcpConnecting f v) m a p) → dialling c (mkConnect (TcpConnecting f' v) m a p)
| dialling_io c cfg s x x' m a p : dialling c (mkConnect (ConnectHandshake cfg s x) m a p) →
    dialling c (mkConnect (ConnectHandshake cfg s x') m a p).

Inductive answering : AcceptConnection (A:=A) → AcceptConnection (A:=A) → Prop :=
| answering_start c : answering c c
| answering_poll c c1 c2 : answering c c1 → poll_accept c1 = Pending c2 → answering c c2
| answering_io c cfg s x x' m a : answering c (mkAcceptConnection cfg s x m a) → answering c (mkAcceptConnection cfg s x' m a).

(** What a connection owes to the configuration of the node. *)
Definition established (nc : NetConfig) (nonce : Z) (address : SocketAddr) (con : Connection) : Prop :=
  con_address con = address ∧ con_magic con = nc_magic nc ∧
  con_services con = version_services (con_version_message con) ∧
  con_version con = Z.min (nc_protocol_version nc) (version_version (con_version_message con)) ∧
  nc_protocol_minimum nc ≤ version_version (con_version_message con) ∧
  version_nonce (con_version_message con) ≠ Some nonce.

Definition dialled (nc : NetConfig) (nonce : Z) (address : SocketAddr) (c : Connect (A:=A) (N:=N)) : Prop :=
  cn_magic c = nc_magic nc ∧ cn_address c = address ∧ cn_protocol_minimum c = nc_protocol_minimum nc ∧
  match cn_state c with
  | TcpConnecting _ version => ∀ v, version = Some v → version_version v = nc_protocol_version nc ∧ version_nonce v = Some nonce
  | ConnectHandshake cfg s _ =>
      hs_version cfg = nc_protocol_version nc ∧ hs_nonce cfg = Some nonce ∧ hs_min_version cfg = nc_protocol_minimum nc ∧ checked cfg s
  | Connected => True
  end.

Lemma agreed_established cfg nc nonce address r : hs_version cfg = nc_protocol_version nc → hs_nonce cfg = Some nonce →
  hs_min_version cfg = nc_protocol_minimum nc → agreed cfg r → established nc nonce address (connection_of (nc_magic nc) address r).
Proof.
  intros Hv Hn Hm [Hr Hg]. unfold version_refused in Hr. rewrite Hn, Hm in Hr. apply orb_false_iff in Hr as [Hmin%Z.ltb_ge Hno].
  split_and!; try done; [by rewrite <-Hv|]. cbn. intros E. rewrite E in Hno. by apply Z.eqb_neq in Hno.
Qed.

Lemma connect_step_dialled nc nonce address c st : dialled nc nonce address c → cn_state c = st →
  match connect_step poll_tcp c st with
  | Next s | Pending s => dialled nc nonce address (mkConnect s (cn_magic c) (cn_address c) (cn_protocol_minimum c))
  | Done (Ok con) => established nc nonce address con
  | _ => True
  end.
Proof.
  intros (Em & Ea & Ep & Hst) <-. destruct (cn_state c) as [future version|cfg s stream|] eqn:E; cbn [connect_step]; [| |done].
  - destruct (poll_tcp future) as [[stream| |] future']; [|by split_and!|done]. destruct version as [v|]; [|done]. cbn [or_panic].
    unfold handshake. destruct (version_message (cn_magic c) v); [|done]. cbn. destruct (Hst v eq_refl). by split_and!.
  - destruct Hst as (H1 & H2 & H3 & Hc). pose proof (poll_handshake_checked cfg s stream Hc) as Ho.
    destruct (poll_handshake cfg s stream) as [[s'|[r|e]|s'| |] stream']; cbn in *; try done.
    rewrite Em, Ea. by apply (agreed_established cfg).
Qed.

Lemma poll_connect_dialled nc nonce address c : dialled nc nonce address c →
  match poll_connect poll_tcp c with
  | Next c' | Pending c' => dialled nc nonce address c'
  | Done (Ok con) => established nc nonce address con
  | _ => True
  end.
Proof.
  intros Hc. pose proof (poll_loop_keeps (λ s (_ : unit), (connect_step poll_tcp c s, tt))
    (λ s, dialled nc nonce address (mkConnect s (cn_magic c) (cn_address c) (cn_protocol_minimum c)))
    (λ r, match r with Ok con => established nc nonce address con | Err _ => True end)) as Hl.
  refine (_ (Hl _ 2%nat (cn_state c) tt _)).
  - unfold poll_connect. by destruct (poll_loop _ _ _ _) as [[?|[]|?| |] ?].
  - intros s _ Hs. pose proof (connect_step_dialled nc nonce address _ s Hs eq_refl) as Hn. cbn in Hn |- *.
    change (connect_step poll_tcp c s) with (connect_step poll_tcp (mkConnect s (cn_magic c) (cn_address c) (cn_protocol_minimum c)) s).
    by destruct (connect_step _ _ _) as [?|[]|?| |].
  - by destruct c.
Qed.

(** C37: a connection keeps to the configuration.  However the network behaves
    while a node connects to an address, or answers one, the connection it ends
    with is to that address and of the network of its configuration; the peer
    speaks at least the least version that is accepted, the version in use is the
    smaller of the two, the services are those the peer named, and the nonce of
    the peer's version is not the one drawn for this connection.  (Every
    connection draws a nonce of its own, so that this does not exclude that the
    peer is the node itself: [self_connection_established].) *)
Theorem connection_established nc now nonce address :
  (∀ tcp c con, dialling (connect_future tcp now nonce address nc) c → poll_connect poll_tcp c = Done (Ok con) →
    established nc nonce address con) ∧
  (∀ stream c con, answering (accept_future stream now nonce address nc) c → poll_accept c = Done (Ok con) →
    established nc nonce address con).
Proof.
  split.
  - intros tcp c con Hd E. assert (dialled nc nonce address c) as Hc.
    { remember (connect_future tcp now nonce address nc) as c0 eqn:E0. clear E. induction Hd as [c|c c1 c2 Hd IH Ep|c f f' v m a p Hd IH|c cfg s x x' m a p Hd IH]; try specialize (IH E0).
      - subst c. split_and!; try done. by intros v [= <-].
      - pose proof (poll_connect_dialled _ _ _ _ IH) as Hp. by rewrite Ep in Hp.
      - done.
      - done. }
    pose proof (poll_connect_dialled _ _ _ _ Hc) as Hp. by rewrite E in Hp.
  - intros stream c con Ha E. set (ok := λ c : AcceptConnection (A:=A), ac_magic c = nc_magic nc ∧ ac_address c = address ∧
      hs_version (ac_config c) = nc_protocol_version nc ∧ hs_nonce (ac_config c) = Some nonce ∧
      hs_min_version (ac_config c) = nc_protocol_minimum nc ∧ accept_checked (ac_config c) (ac_state c)).
    assert (ok c) as (Em & Ea & H1 & H2 & H3 & Hc).
    { remember (accept_future stream now nonce address nc) as c0 eqn:E0. clear E. induction Ha as [c|c c1 c2 Ha IH Ep|c cfg s x x' m a Ha IH]; try specialize (IH E0).
      - by subst c.
      - destruct IH as (Em & Ea & H1 & H2 & H3 & Hc). pose proof (poll_accept_checked _ _ (ac_stream c1) Hc) as Ho. unfold poll_accept in Ep.
        destruct (poll_accept_handshake _ _ _) as [[s'|[r|e]|s'| |] stream']; try done. by injection Ep as <-.
      - done. }
    pose proof (poll_accept_checked _ _ (ac_stream c) Hc) as Ho. unfold poll_accept in E.
    destruct (poll_accept_handshake _ _ _) as [[s'|[r|e]|s'| |] stream']; try done. injection E as <-. rewrite Em, Ea.
    by apply (agreed_established (ac_config c)).
Qed.
End established.

Section established_example.
Import Reference.

Definition ex_net_config : NetConfig :=
  mkNetConfig 70014 70001 MAGIC_TESTNET (SA4 (replicate 4 (byte_of 0)) 18333) 1 (name "node") 0 true Testnet.

Definition ex_peer : SocketAddr := SA4 [byte_of 10; byte_of 0; byte_of 0; byte_of 2] 18333.

(** A peer that has sent its version and a verack. *)
Definition ex_stream : Pipe :=
  mkPipe (default [] (version_message MAGIC_TESTNET (example_version 70012 6)) ++ default [] (verack_message MAGIC_TESTNET)) [] true.

Definition ex_tcp (p : Pipe) : IoPoll Pipe * Pipe := (IoReady p, p).

Definition ex_connection : Connection := mkConnection 70012 (example_version 70012 6) MAGIC_TESTNET (version_services (example_version 70012 6)) ex_peer.

Definition ex_dialled : Connect (A:=Pipe) (N:=Pipe) := connect_future ex_stream 1000 5 ex_peer ex_net_config.

(** The first poll stops at the verack, for the socket is full. *)
Definition ex_waiting : option (HandshakeConfig * HandshakeState * Pipe) :=
  match poll_connect ex_tcp ex_dialled with
  | Pending c => match cn_state c with ConnectHandshake cfg s x => Some (cfg, s, x) | _ => None end
  | _ => None
  end.

Lemma connection_established_witness : ∃ c, dialling ex_tcp ex_dialled c ∧ poll_connect ex_tcp c = Done (Ok ex_connection) ∧
  established ex_net_config 5 ex_peer ex_connection.
Proof.
  destruct ex_waiting as [[[cfg s] x]|] eqn:E; [|vm_compute in E; discriminate E].
  set (c := mkConnect (A:=Pipe) (N:=Pipe) (ConnectHandshake cfg s (drained x)) MAGIC_TESTNET ex_peer 70001).
  assert (dialling ex_tcp ex_dialled c) as Hc.
  { eapply dialling_io, dialling_poll; [apply dialling_start|]. unfold ex_waiting in E.
    destruct (poll_connect ex_tcp ex_dialled) as [|?|c1| |] eqn:E1; try discriminate E.
    assert (cn_magic c1 = MAGIC_TESTNET ∧ cn_address c1 = ex_peer ∧ cn_protocol_minimum c1 = 70001) as (E2 & E3 & E4).
    { unfold poll_connect in E1. destruct (poll_loop _ _ _ _) as [[?|?|?| |] ?]; try discriminate E1. by injection E1 as <-. }
    destruct c1 as [st m a p]. cbn in *. destruct st; try discriminate E. by injection E as -> -> ->; subst. }
  assert (poll_connect ex_tcp c = Done (Ok ex_connection)) as Hp.
  { vm_compute in E. injection E as <- <- <-. vm_compute. reflexivity. }
  exists c. split; [exact Hc|]. split; [exact Hp|].
  exact (proj1 (connection_established ex_tcp ex_net_config 1000 5 ex_peer) ex_stream c ex_connection Hc Hp).
Defined.

(** The node dials its own address and answers itself: the version it receives is
    its own, with the nonce that the other end has drawn. *)
Definition ex_own_version : Version := net_version 1000 6 ex_peer ex_net_config.

Definition ex_own_stream : Pipe :=
  mkPipe (default [] (version_message MAGIC_TESTNET ex_own_version) ++ default [] (verack_message MAGIC_TESTNET)) [] true.

Definition ex_own_connection : option Connection :=
  match poll_connect ex_tcp (connect_future ex_own_stream 1000 5 ex_peer ex_net_config) with
  | Pending (mkConnect (ConnectHandshake cfg s x) m a p) =>
      match poll_connect ex_tcp (mkConnect (ConnectHandshake cfg s (drained x)) m a p) with Done (Ok con) => Some con | _ => None end
  | _ => None
  end.

Example self_connection_established : con_version_message <$> ex_own_connection = Some ex_own_version.
Proof. vm_compute. reflexivity. Qed.
End established_example.

(** ** The start *)

Section started.
Context {P : Profile} {C : Csv}.

Lemma connects_all l cx : Z.of_nat (length l) + current_outbound_connections (cx_counter cx) < 2 ^ 64 → 0 ≤ current_outbound_connections (cx_counter cx) →
  let cx' := foldl (λ cx peer, context_connect peer cx) cx l in
  cx_pending cx' = cx_pending cx ++ (Connecting <$> l) ∧
  current_outbound_connections (cx_counter cx') = current_outbound_connections (cx_counter cx) + Z.of_nat (length l) ∧
  current_inbound_connections (cx_counter cx') = current_inbound_connections (cx_counter cx) ∧
  cx_table cx' = cx_table cx ∧ cx_connections cx' = cx_connections cx.
Proof.
  revert cx. induction l as [|a l IH]; intros cx Hl H0; cbn [foldl length fmap list_fmap] in *; [rewrite app_nil_r; split_and!; try done; lia|].
  assert (current_outbound_connections (cx_counter (context_connect a cx)) = current_outbound_connections (cx_counter cx) + 1) as E.
  { cbn. apply counter_step. lia. }
  destruct (IH (context_connect a cx)) as (E1 & E2 & E3 & E4 & E5); [rewrite E; lia|rewrite E; lia|].
  rewrite E1, E2, E3, E4, E5, E. split_and!; try done; [|lia]. cbn. by rewrite <-app_assoc.
Qed.

(** A node that is started dials as many of its peers as it may have outbound
    connections, each place of the list at most once, and counts them; it listens
    on one server at most. *)
Lemma start_dials file sampled resolver bound c cx r cx' : u32 (pc_outbound_connections c) →
  chosen (pc_peers c) (Z.to_nat (pc_outbound_connections c)) sampled →
  p2p_new file c = Some cx → p2p_start sampled resolver bound c cx = (r, cx') →
  cx_pending cx' = Connecting <$> sampled ∧ sampled ⊆+ pc_peers c ∧
  current_outbound_connections (cx_counter cx') = Z.min (pc_outbound_connections c) (Z.of_nat (length (pc_peers c))) ∧
  current_inbound_connections (cx_counter cx') = 0 ∧ (length (cx_listeners cx') ≤ 1)%nat.
Proof.
  intros Hout [Hsub Hlen] Enew Estart. unfold p2p_new in Enew. destruct (table_from_file _ _) as [t|]; [|done]. injection Enew as <-.
  set (cx0 := context_new _ _ _ _ _ _) in *. unfold fits in Hout.
  destruct (connects_all sampled cx0) as (E1 & E2 & E3 & _); [cbn; lia|done|].
  assert (cx_listeners (foldl (λ cx peer, context_connect peer cx) cx0 sampled) = []) as El.
  { clear. assert (cx_listeners cx0 = []) as E by done. clearbody cx0. revert cx0 E. induction sampled as [|a l IH]; intros cx E; [done|]. by apply IH. }
  assert (cx_pending cx' = cx_pending (foldl (λ cx peer, context_connect peer cx) cx0 sampled) ∧
    cx_counter cx' = cx_counter (foldl (λ cx peer, context_connect peer cx) cx0 sampled) ∧ length (cx_listeners cx') ≤ 1)%nat as (-> & -> & Hl).
  { unfold p2p_start in Estart. destruct resolver, bound; injection Estart as <- <-; cbn [context_listen cx_listeners]; rewrite ?El; cbn; split_and!; done || lia. }
  rewrite E1, E2, E3. split_and!; [done|done| |done|lia]. cbn. lia.
Qed.

(** Without outbound connections no peer is dialled. *)
Lemma no_outbound_no_peers sampled c : pc_outbound_connections c = 0 → chosen (pc_peers c) (Z.to_nat (pc_outbound_connections c)) sampled → sampled = [].
Proof. intros -> [_ Hl]. apply nil_length_inv. by rewrite Hl. Qed.

(** What the timer saved is what a restarted node knows. *)
Lemma restart_keeps_nodes {CL : CsvLaws C} c cx : table_ok (cx_table cx) → preferable_services (cx_table cx) = pc_preferable_services c →
  ∃ cx', p2p_new (Some (save (cx_table cx))) c = Some cx' ∧ table_ok (cx_table cx') ∧
    ∀ n, by_addr (cx_table cx') !! node_addr n = Some n ↔
      ∃ n0, n0 ∈ take 1000 (by_score (cx_table cx)) ∧ n = refreshed (pc_preferable_services c) n0.
Proof.
  intros Ht Hp. destruct (node_table_save_load (cx_table cx) Ht) as (t & E & Htok & Hn & _). rewrite Hp in E, Hn.
  unfold p2p_new, table_from_file. cbn [mbind option_bind]. rewrite E. eexists. split; [done|]. split; [done|].
  intros n. cbn. rewrite Hn. naive_solver.
Qed.
End started.
