(* ===== verification/Collections.v ===== *)
(** * Collections whose order matters

    The [linked_hash_map] crate's map, which iterates in the order of insertion,
    as a class with its documented behaviour as laws, and an instance; and the
    order in which the standard hash sets and maps are iterated, which is
    unspecified: a permutation of the elements. *)

From S2P Require Import Prelude.
From stdpp Require Import gmap.

(** ** [LinkedHashMap] *)

Class LinkedHashMap (K : Type) (M : Type → Type) := {
  lhm_new {A} : M A;
  lhm_insert {A} : K → A → M A → option A * M A;
  lhm_remove {A} : K → M A → option A * M A;
  lhm_get {A} : K → M A → option A;
  lhm_get_mut {A} : K → (A → A) → M A → M A;
  lhm_pop_front {A} : M A → option (K * A) * M A;
  lhm_iter {A} : M A → list (K * A);
}.

Definition lhm_contains {K M} {L : LinkedHashMap K M} {A} (k : K) (m : M A) : bool :=
  bool_decide (is_Some (lhm_get k m)).

(** A value is written through the reference that [get_mut] returns. *)
Definition update_at {K A} `{EqDecision K} (k : K) (f : A → A) (kv : K * A) : K * A :=
  if decide (kv.1 = k) then (k, f kv.2) else kv.

Class LinkedHashMapLaws (K : Type) `{EqDecision K} (M : Type → Type) {L : LinkedHashMap K M} : Prop := {
  lhm_nodup {A} (m : M A) : NoDup (lhm_iter m).*1;
  lhm_iter_new {A} : lhm_iter (lhm_new : M A) = [];
  lhm_get_iter {A} k v (m : M A) : lhm_get k m = Some v ↔ (k, v) ∈ lhm_iter m;
  lhm_insert_old {A} k v (m : M A) : fst (lhm_insert k v m) = lhm_get k m;
  lhm_insert_fresh {A} k v (m : M A) : lhm_get k m = None →
    lhm_iter (snd (lhm_insert k v m)) = lhm_iter m ++ [(k, v)];
  lhm_remove_old {A} k (m : M A) : fst (lhm_remove k m) = lhm_get k m;
  lhm_iter_remove {A} k (m : M A) :
    lhm_iter (snd (lhm_remove k m)) = filter (λ kv, kv.1 ≠ k) (lhm_iter m);
  lhm_iter_update {A} k f (m : M A) : lhm_iter (lhm_get_mut k f m) = update_at k f <$> lhm_iter m;
  lhm_pop_front_first {A} (m : M A) : fst (lhm_pop_front m) = head (lhm_iter m);
  lhm_pop_front_rest {A} (m : M A) : lhm_iter (snd (lhm_pop_front m)) = tail (lhm_iter m);
}.

(** What the laws say of lookups. *)
Section lookups.
Context {K : Type} `{EqDecision K} {M : Type → Type} {L : LinkedHashMap K M} {LL : LinkedHashMapLaws K M}.
Context {A : Type}.
Implicit Types (m : M A) (k : K).

Lemma lhm_get_None k m : lhm_get k m = None ↔ (k ∉ (lhm_iter m).*1).
Proof.
  split.
  - intros Hn (kv & -> & Hin)%list_elem_of_fmap. destruct kv as [k v]. apply lhm_get_iter in Hin. cbn in *. congruence.
  - intros Hn. destruct (lhm_get k m) as [v|] eqn:E; [|done]. destruct Hn.
    apply list_elem_of_fmap. exists (k, v). split; [done|]. by apply lhm_get_iter.
Qed.

Lemma lhm_get_ext m m' k : lhm_iter m' = lhm_iter m → lhm_get k m' = lhm_get k m.
Proof. intros E. apply option_eq. intros v. by rewrite !lhm_get_iter, E. Qed.

Lemma lhm_get_new k : lhm_get k (lhm_new : M A) = None.
Proof. apply lhm_get_None. rewrite lhm_iter_new. apply not_elem_of_nil. Qed.

Lemma lhm_get_insert_eq k v m : lhm_get k m = None → lhm_get k (snd (lhm_insert k v m)) = Some v.
Proof. intros Hn. apply lhm_get_iter. rewrite lhm_insert_fresh by done. set_solver. Qed.

Lemma lhm_get_insert_ne k k' v m : lhm_get k m = None → k' ≠ k →
  lhm_get k' (snd (lhm_insert k v m)) = lhm_get k' m.
Proof.
  intros Hn Hk. apply option_eq. intros v'. rewrite !lhm_get_iter, lhm_insert_fresh by done.
  rewrite elem_of_app, list_elem_of_singleton. naive_solver.
Qed.

Lemma lhm_get_remove_eq k m : lhm_get k (snd (lhm_remove k m)) = None.
Proof.
  apply lhm_get_None. rewrite lhm_iter_remove.
  intros (kv & -> & Hin)%list_elem_of_fmap. apply list_elem_of_filter in Hin. by destruct Hin.
Qed.

Lemma lhm_get_remove_ne k k' m : k' ≠ k → lhm_get k' (snd (lhm_remove k m)) = lhm_get k' m.
Proof.
  intros Hk. apply option_eq. intros v. rewrite !lhm_get_iter, lhm_iter_remove, list_elem_of_filter. naive_solver.
Qed.

Lemma lhm_get_update_eq k f m : lhm_get k (lhm_get_mut k f m) = f <$> lhm_get k m.
Proof.
  apply option_eq. intros v. rewrite lhm_get_iter, lhm_iter_update, list_elem_of_fmap. split.
  - intros ([k' v'] & Heq & Hin). unfold update_at in Heq. cbn in Heq. case_decide; [|by injection Heq; intros; subst].
    injection Heq as ->. subst k'. apply lhm_get_iter in Hin. by rewrite Hin.
  - intros (v' & E & ->)%fmap_Some. exists (k, v'). unfold update_at. cbn.
    rewrite decide_True by done. split; [done|]. by apply lhm_get_iter.
Qed.

Lemma lhm_get_update_ne k k' f m : k' ≠ k → lhm_get k' (lhm_get_mut k f m) = lhm_get k' m.
Proof.
  intros Hk. apply option_eq. intros v. rewrite !lhm_get_iter, lhm_iter_update, list_elem_of_fmap. split.
  - intros ([k1 v1] & Heq & Hin). unfold update_at in Heq. cbn in Heq. case_decide; injection Heq; intros; subst; done.
  - intros Hin. exists (k', v). unfold update_at. cbn. by rewrite decide_False.
Qed.

Lemma lhm_contains_spec k m : lhm_contains k m = bool_decide (is_Some (lhm_get k m)).
Proof. done. Qed.
End lookups.

(** *** An instance: association lists *)

Definition AssocMap (K A : Type) : Type := list (K * A).

Section assoc.
Context {K : Type} `{EqDecision K}.

Definition assoc_get {A} (k : K) (m : list (K * A)) : option A := snd <$> (snd <$> list_find (λ kv, kv.1 = k) m).

(** The keys of an association list that is built by insertions alone are
    distinct; [dedup] makes this so for every list. *)
Fixpoint dedup {A} (m : list (K * A)) : list (K * A) :=
  match m with
  | [] => []
  | (k, v) :: m => (k, v) :: filter (λ kv, kv.1 ≠ k) (dedup m)
  end.

#[global] Instance assoc_lhm : LinkedHashMap K (AssocMap K) := {
  lhm_new A := [];
  lhm_insert A k v m := (assoc_get k (dedup m), filter (λ kv, kv.1 ≠ k) (dedup m) ++ [(k, v)]);
  lhm_remove A k m := (assoc_get k (dedup m), filter (λ kv, kv.1 ≠ k) (dedup m));
  lhm_get A k m := assoc_get k (dedup m);
  lhm_get_mut A k f m := update_at k f <$> dedup m;
  lhm_pop_front A m := (head (dedup m), tail (dedup m));
  lhm_iter A m := dedup m;
}.

Lemma sublist_keys {A} (l l' : list (K * A)) : l `sublist_of` l' → l.*1 `sublist_of` l'.*1.
Proof. induction 1; cbn; by constructor. Qed.

Lemma dedup_nodup {A} (m : list (K * A)) : NoDup (dedup m).*1.
Proof.
  induction m as [|[k v] m IH]; [apply NoDup_nil_2|]. cbn. apply NoDup_cons. split.
  - intros (kv & -> & Hin)%list_elem_of_fmap. apply list_elem_of_filter in Hin. by destruct Hin.
  - eapply sublist_NoDup; [exact IH|]. apply sublist_keys, sublist_filter.
Qed.

Lemma dedup_id {A} (m : list (K * A)) : NoDup m.*1 → dedup m = m.
Proof.
  induction m as [|[k v] m IH]; [done|]. cbn. intros [Hk Hm]%NoDup_cons. rewrite IH by done. f_equal.
  apply filter_all. intros kv Hin Heq. destruct Hk. apply list_elem_of_fmap. by exists kv.
Qed.

Lemma nodup_filter_keys {A} (Q : K * A → Prop) `{∀ x, Decision (Q x)} (m : list (K * A)) :
  NoDup m.*1 → NoDup (filter Q m).*1.
Proof. intros Hm. eapply sublist_NoDup; [exact Hm|]. apply sublist_keys, sublist_filter. Qed.

Lemma update_keys {A} k f (m : list (K * A)) : (update_at k f <$> m).*1 = m.*1.
Proof.
  rewrite <-list_fmap_compose. apply list_fmap_ext. intros i [k' v] _. unfold update_at. cbn.
  by case_decide; subst.
Qed.

Lemma assoc_get_elem {A} k v (m : list (K * A)) : NoDup m.*1 → assoc_get k m = Some v ↔ (k, v) ∈ m.
Proof.
  intros Hm. unfold assoc_get. split.
  - intros (kv & (ikv & Hf & ->)%fmap_Some & ->)%fmap_Some. destruct ikv as [i kv].
    apply list_find_Some in Hf as (Hi & <- & _). cbn. destruct kv. by eapply list_elem_of_lookup_2.
  - intros Hin. destruct (list_find (λ kv, kv.1 = k) m) as [[i [k' v']]|] eqn:Hf.
    + apply list_find_Some in Hf as (Hi & Hk & _). cbn in *. subst k'. f_equal.
      apply list_elem_of_lookup in Hin as [j Hj].
      assert (i = j) as <-.
      { eapply (NoDup_lookup m.*1); [done| |]; rewrite list_lookup_fmap; [by rewrite Hi|by rewrite Hj]. }
      congruence.
    + apply list_find_None in Hf. rewrite list.Forall_forall in Hf. by destruct (Hf _ Hin).
Qed.

#[global] Instance assoc_lhm_laws : LinkedHashMapLaws K (AssocMap K).
Proof.
  split; intros; cbn [lhm_iter lhm_get lhm_insert lhm_remove lhm_get_mut lhm_pop_front lhm_new assoc_lhm fst snd] in *.
  - apply dedup_nodup.
  - done.
  - apply assoc_get_elem, dedup_nodup.
  - done.
  - assert (filter (λ kv, kv.1 ≠ k) (dedup m) = dedup m) as E.
    { apply filter_all. intros [k' v'] Hin Heq. cbn in Heq. subst k'. apply assoc_get_elem in Hin; [congruence|apply dedup_nodup]. }
    rewrite E. rewrite dedup_id; [done|]. rewrite fmap_app. apply NoDup_app. split_and!; [apply dedup_nodup| |apply NoDup_singleton].
    intros x Hx ->%list_elem_of_singleton. cbn in *.
    apply list_elem_of_fmap in Hx as ([k' v'] & -> & Hin). apply assoc_get_elem in Hin; [cbn in *; congruence|apply dedup_nodup].
  - done.
  - apply dedup_id, nodup_filter_keys, dedup_nodup.
  - rewrite dedup_id; [done|]. rewrite update_keys. apply dedup_nodup.
  - done.
  - rewrite dedup_id; [done|]. pose proof (dedup_nodup m) as Hm. destruct (dedup m); [done|].
    cbn in *. by apply NoDup_cons in Hm as [_ Hm].
Qed.
End assoc.

(** ** The order of a hash set *)

Class HashOrder (K : Type) `{Countable K} := {
  hash_order : gset K → list K;
  hash_order_perm s : hash_order s ≡ₚ elements s;
}.

Definition hm_iter {K} `{Countable K} {O : HashOrder K} {A} (m : gmap K A) : list (K * A) :=
  omap (λ k, pair k <$> m !! k) (hash_order (dom m)).

Section order.
Context {K : Type} `{Countable K} {O : HashOrder K}.

Lemma elem_of_hash_order (s : gset K) k : k ∈ hash_order s ↔ k ∈ s.
Proof. by rewrite hash_order_perm, elem_of_elements. Qed.

Lemma hash_order_nodup (s : gset K) : NoDup (hash_order s).
Proof. rewrite hash_order_perm. apply NoDup_elements. Qed.

Lemma elem_of_hm_iter {A} (m : gmap K A) k v : (k, v) ∈ hm_iter m ↔ m !! k = Some v.
Proof.
  unfold hm_iter. rewrite list_elem_of_omap. split.
  - intros (k' & _ & (v' & E & Heq)%fmap_Some). injection Heq as -> ->. done.
  - intros E. exists k. rewrite elem_of_hash_order, elem_of_dom, E. by split.
Qed.

Lemma hm_iter_keys {A} (m : gmap K A) : (hm_iter m).*1 = hash_order (dom m).
Proof.
  unfold hm_iter. assert (∀ k, k ∈ hash_order (dom m) → is_Some (m !! k)) as Hin.
  { intros k Hk. by apply elem_of_dom, elem_of_hash_order. }
  revert Hin. generalize (hash_order (dom m)). intros l. induction l as [|k l IH]; intros Hin; [done|].
  destruct (Hin k) as [v Hv]; [set_solver|]. cbn. rewrite Hv. cbn. f_equal. apply IH. set_solver.
Qed.
End order.

(** The order of the elements themselves, for evaluation. *)
Definition elements_order {K} `{Countable K} : HashOrder K := {| hash_order s := elements s; hash_order_perm s := reflexivity _ |}.
