(* ===== verification/PeersTasks.v ===== *)
(** * What each peer is asked for ([sync/src/synchronization_peers_tasks.rs])

    The peers the client knows, which of them are useful, idle or busy, the
    blocks and headers each was asked for, and the statistics by which a peer
    or a block is given up.  A panic is [None]; every reading of the clock is
    an argument.  The counters of failures ([usize], one increment per call)
    are natural numbers. *)

From S2P Require Import Prelude External Primitives SpeedMeter Collections.
From Stdlib Require Import SpecFloat.
From stdpp Require Import gmap sorting.

(** ** Data *)

Definition PeerIndex : Type := Z.

(** src: sync/src/synchronization_peers_tasks.rs 10-15 MAX_PEER_FAILURES *)
Definition MAX_PEER_FAILURES : nat := 4.
Definition MAX_BLOCKS_FAILURES : nat := 6.
Definition BLOCKS_TO_INSPECT : nat := 32.

(** src: sync/src/synchronization_peers_tasks.rs 17-27 Information *)
Record TasksInformation := mkTasksInformation {
  ti_all : nat;
  ti_idle : nat;
  ti_unuseful : nat;
  ti_active : nat;
}.

(** src: sync/src/synchronization_peers_tasks.rs 51-56 HeadersRequest *)
Record HeadersRequest := mkHeadersRequest { hr_timestamp : f64 }.

(** src: sync/src/synchronization_peers_tasks.rs 58-65 BlocksRequest *)
Record BlocksRequest := mkBlocksRequest { br_timestamp : f64; br_blocks : gset H256 }.

(** src: sync/src/synchronization_peers_tasks.rs 67-74 TrustLevel *)
Inductive TrustLevel := Suspicious | Trusted.

#[global] Instance TrustLevel_eq_dec : EqDecision TrustLevel.
Proof. solve_decision. Defined.

(** src: sync/src/synchronization_peers_tasks.rs 76-85 PeerStats *)
Record PeerStats := mkPeerStats {
  ps_failures : nat;
  ps_speed : AverageSpeedMeter;
  ps_trust : TrustLevel;
}.

(** src: sync/src/synchronization_peers_tasks.rs 29-49 PeersTasks *)
Record PeersTasks {M : Type → Type} := mkPeersTasks {
  pt_all : gset PeerIndex;
  pt_unuseful : gset PeerIndex;
  pt_idle_for_headers : gset PeerIndex;
  pt_idle_for_blocks : gset PeerIndex;
  pt_headers_requests : M HeadersRequest;
  pt_blocks_requests : M BlocksRequest;
  pt_stats : gmap PeerIndex PeerStats;
  pt_blocks_stats : gmap H256 nat;
}.
Arguments PeersTasks : clear implicits.
Arguments mkPeersTasks {M} _ _ _ _ _ _ _ _.

Section peers_tasks.
Context {M : Type → Type} {L : LinkedHashMap PeerIndex M} {OP : HashOrder PeerIndex} {OH : HashOrder H256}.
Implicit Types (pt : PeersTasks M) (peer : PeerIndex).

(** [PeersTasks::default()] *)
Definition peers_tasks_default : PeersTasks M := mkPeersTasks ∅ ∅ ∅ ∅ lhm_new lhm_new ∅ ∅.

(** src: sync/src/synchronization_peers_tasks.rs 399-405 new *)
Definition peer_stats_new : option PeerStats :=
  meter ← with_inspect_items BLOCKS_TO_INSPECT;
  Some (mkPeerStats 0 meter Suspicious).

(** src: sync/src/synchronization_peers_tasks.rs 382-386 new *)
Definition headers_request_new (now : f64) : HeadersRequest := mkHeadersRequest now.

(** src: sync/src/synchronization_peers_tasks.rs 390-395 new *)
Definition blocks_request_new (now : f64) : BlocksRequest := mkBlocksRequest now ∅.

(** ** Queries *)

Definition lhm_keys {A} (m : M A) : gset PeerIndex := list_to_set (lhm_iter m).*1.

(** src: sync/src/synchronization_peers_tasks.rs 95-106 information *)
Definition tasks_information pt : TasksInformation :=
  let active_for_headers := lhm_keys (pt_headers_requests pt) in
  mkTasksInformation (size (pt_all pt)) (size (pt_idle_for_blocks pt ∖ active_for_headers))
    (size (pt_unuseful pt)) (size (active_for_headers ∪ lhm_keys (pt_blocks_requests pt))).

(** src: sync/src/synchronization_peers_tasks.rs 113-115 useful_peers *)
Definition useful_peers pt : list PeerIndex := hash_order (pt_all pt ∖ pt_unuseful pt).

(** [self.stats.get(peer).map(|s| s.speed.speed()).unwrap_or(0f64)] *)
Definition peer_speed pt peer : f64 := default (f64_of_Z 0) (speed ∘ ps_speed <$> pt_stats pt !! peer).

(** The comparison does not say that [left] comes after [right]. *)
Definition not_after pt (left right : PeerIndex) : Prop :=
  SFcompare (peer_speed pt right) (peer_speed pt left) ≠ Some Gt.

#[global] Instance not_after_dec pt left right : Decision (not_after pt left right).
Proof. unfold not_after. solve_decision. Defined.

(** [sort_by] is a stable merge sort. *)
(** src: sync/src/synchronization_peers_tasks.rs 128-145 sort_peers_for_blocks *)
Definition sort_peers_for_blocks pt (peers : list PeerIndex) : list PeerIndex :=
  merge_sort (not_after pt) peers.

(** src: sync/src/synchronization_peers_tasks.rs 158-160 get_blocks_tasks *)
Definition get_blocks_tasks pt peer : option (gset H256) := br_blocks <$> lhm_get peer (pt_blocks_requests pt).

(** src: sync/src/synchronization_peers_tasks.rs 163-165 get_peer_stats *)
Definition get_peer_stats pt peer : option PeerStats := pt_stats pt !! peer.

(** ** Operations *)

(** [HashSet::insert] in a condition: a peer that was not there, or, if it was,
    one that [unuseful.remove] takes out. *)
(** src: sync/src/synchronization_peers_tasks.rs 174-182 useful_peer *)
Definition useful_peer peer pt : option (PeersTasks M) :=
  let new := bool_decide (peer ∉ pt_all pt) in
  let all := {[peer]} ∪ pt_all pt in
  if new || bool_decide (peer ∈ pt_unuseful pt) then
    stats ← peer_stats_new;
    Some (mkPeersTasks all (if new then pt_unuseful pt else pt_unuseful pt ∖ {[peer]})
      ({[peer]} ∪ pt_idle_for_headers pt) ({[peer]} ∪ pt_idle_for_blocks pt)
      (pt_headers_requests pt) (pt_blocks_requests pt) (<[peer := stats]> (pt_stats pt)) (pt_blocks_stats pt))
  else
    Some (mkPeersTasks all (pt_unuseful pt) (pt_idle_for_headers pt) (pt_idle_for_blocks pt)
      (pt_headers_requests pt) (pt_blocks_requests pt) (pt_stats pt) (pt_blocks_stats pt)).

(** src: sync/src/synchronization_peers_tasks.rs 185-195 unuseful_peer *)
Definition unuseful_peer peer pt : option (PeersTasks M) :=
  _ ← rust_assert (negb (lhm_contains peer (pt_blocks_requests pt)));
  stats ← (if decide (peer ∈ pt_all pt) then Some (pt_stats pt)
           else new ← peer_stats_new; Some (<[peer := new]> (pt_stats pt)));
  Some (mkPeersTasks ({[peer]} ∪ pt_all pt) ({[peer]} ∪ pt_unuseful pt)
    (pt_idle_for_headers pt ∖ {[peer]}) (pt_idle_for_blocks pt ∖ {[peer]})
    (pt_headers_requests pt) (pt_blocks_requests pt) stats (pt_blocks_stats pt)).

(** src: sync/src/synchronization_peers_tasks.rs 198-209 disconnect *)
Definition disconnect peer pt : option (PeersTasks M) :=
  _ ← rust_assert (negb (lhm_contains peer (pt_blocks_requests pt)));
  Some (mkPeersTasks (pt_all pt ∖ {[peer]}) (pt_unuseful pt ∖ {[peer]})
    (pt_idle_for_headers pt ∖ {[peer]}) (pt_idle_for_blocks pt ∖ {[peer]})
    (snd (lhm_remove peer (pt_headers_requests pt))) (snd (lhm_remove peer (pt_blocks_requests pt)))
    (delete peer (pt_stats pt)) (pt_blocks_stats pt)).

(** [self.stats.get_mut(&peer_index).map(f)] *)
Definition on_stats peer (f : PeerStats → option PeerStats) (stats : gmap PeerIndex PeerStats) :
    option (gmap PeerIndex PeerStats) :=
  match stats !! peer with
  | None => Some stats
  | Some s => s ← f s; Some (<[peer := s]> stats)
  end.

(** The statistics of a peer that has sent a requested block. *)
Definition responded (now : f64) (s : PeerStats) : option PeerStats :=
  meter ← checkpoint now (ps_speed s);
  Some (mkPeerStats (pred (ps_failures s)) meter Trusted).

Definition map_speed (f : AverageSpeedMeter → AverageSpeedMeter) (s : PeerStats) : option PeerStats :=
  Some (mkPeerStats (ps_failures s) (f (ps_speed s)) (ps_trust s)).

(** src: sync/src/synchronization_peers_tasks.rs 212-260 on_block_received *)
Definition on_block_received (now now' : f64) peer (block_hash : H256) pt : option (PeersTasks M) :=
  let blocks_stats := delete block_hash (pt_blocks_stats pt) in
  let pt := mkPeersTasks (pt_all pt) (pt_unuseful pt) (pt_idle_for_headers pt) (pt_idle_for_blocks pt)
    (pt_headers_requests pt) (pt_blocks_requests pt) (pt_stats pt) blocks_stats in
  match lhm_get peer (pt_blocks_requests pt) with
  | None => Some pt
  | Some request =>
      if decide (block_hash ∉ br_blocks request) then Some pt
      else
        let left := br_blocks request ∖ {[block_hash]} in
        let requests := lhm_get_mut peer (λ r, mkBlocksRequest (br_timestamp r) left) (pt_blocks_requests pt) in
        stats ← on_stats peer (responded now) (pt_stats pt);
        if decide (left ≠ ∅) then
          let '(removed, requests) := lhm_remove peer requests in
          removed ← removed;
          Some (mkPeersTasks (pt_all pt) (pt_unuseful pt) (pt_idle_for_headers pt) (pt_idle_for_blocks pt)
            (pt_headers_requests pt)
            (snd (lhm_insert peer (mkBlocksRequest now' (br_blocks removed)) requests)) stats blocks_stats)
        else
          stats ← on_stats peer (map_speed meter_stop) stats;
          Some (mkPeersTasks (pt_all pt) (pt_unuseful pt)
            (if lhm_contains peer (pt_headers_requests pt) then pt_idle_for_headers pt
             else {[peer]} ∪ pt_idle_for_headers pt)
            ({[peer]} ∪ pt_idle_for_blocks pt) (pt_headers_requests pt)
            (snd (lhm_remove peer requests)) stats blocks_stats)
  end.

(** src: sync/src/synchronization_peers_tasks.rs 263-270 on_headers_received *)
Definition on_headers_received peer pt : PeersTasks M :=
  mkPeersTasks (pt_all pt) (pt_unuseful pt)
    (if lhm_contains peer (pt_blocks_requests pt) then pt_idle_for_headers pt
     else {[peer]} ∪ pt_idle_for_headers pt)
    (pt_idle_for_blocks pt) (snd (lhm_remove peer (pt_headers_requests pt)))
    (pt_blocks_requests pt) (pt_stats pt) (pt_blocks_stats pt).

(** A peer that is not known is entered as unuseful first. *)
Definition make_known peer pt : option (PeersTasks M) :=
  if decide (peer ∈ pt_all pt) then Some pt else unuseful_peer peer pt.

(** src: sync/src/synchronization_peers_tasks.rs 273-293 on_blocks_requested *)
Definition on_blocks_requested (now now' : f64) peer (blocks_hashes : list H256) pt : option (PeersTasks M) :=
  pt ← make_known peer pt;
  let requests :=
    if lhm_contains peer (pt_blocks_requests pt) then pt_blocks_requests pt
    else snd (lhm_insert peer (blocks_request_new now) (pt_blocks_requests pt)) in
  let requests := lhm_get_mut peer
    (λ r, mkBlocksRequest (br_timestamp r) (list_to_set blocks_hashes ∪ br_blocks r)) requests in
  stats ← on_stats peer (map_speed (meter_start now')) (pt_stats pt);
  Some (mkPeersTasks (pt_all pt) (pt_unuseful pt ∖ {[peer]}) (pt_idle_for_headers pt)
    (pt_idle_for_blocks pt ∖ {[peer]}) (pt_headers_requests pt) requests stats (pt_blocks_stats pt)).

(** src: sync/src/synchronization_peers_tasks.rs 296-305 on_headers_requested *)
Definition on_headers_requested (now : f64) peer pt : option (PeersTasks M) :=
  pt ← make_known peer pt;
  Some (mkPeersTasks (pt_all pt) (pt_unuseful pt) (pt_idle_for_headers pt ∖ {[peer]}) (pt_idle_for_blocks pt)
    (snd (lhm_insert peer (headers_request_new now) (snd (lhm_remove peer (pt_headers_requests pt)))))
    (pt_blocks_requests pt) (pt_stats pt) (pt_blocks_stats pt)).

(** One round of the loop of [on_blocks_failure]: a block that failed too often
    is forgotten. *)
Definition block_failure (hash : H256) (stats : gmap H256 nat) : bool * gmap H256 nat :=
  let failures := S (default O (stats !! hash)) in
  if (MAX_BLOCKS_FAILURES <? failures)%nat then (true, delete hash stats) else (false, <[hash := failures]> stats).

Fixpoint blocks_failures (hashes : list H256) (stats : gmap H256 nat) : (list H256 * list H256) * gmap H256 nat :=
  match hashes with
  | [] => (([], []), stats)
  | hash :: hashes =>
      let '(failed, stats) := block_failure hash stats in
      let '((normal_blocks, failed_blocks), stats) := blocks_failures hashes stats in
      ((if failed : bool then (normal_blocks, hash :: failed_blocks) else (hash :: normal_blocks, failed_blocks)), stats)
  end.

(** src: sync/src/synchronization_peers_tasks.rs 308-329 on_blocks_failure *)
Definition on_blocks_failure (hashes : list H256) pt : (list H256 * list H256) * PeersTasks M :=
  let '(r, stats) := blocks_failures hashes (pt_blocks_stats pt) in
  (r, mkPeersTasks (pt_all pt) (pt_unuseful pt) (pt_idle_for_headers pt) (pt_idle_for_blocks pt)
        (pt_headers_requests pt) (pt_blocks_requests pt) (pt_stats pt) stats).

(** src: sync/src/synchronization_peers_tasks.rs 346-359 penalize *)
Definition penalize peer pt : bool * PeersTasks M :=
  match pt_stats pt !! peer with
  | None => (false, pt)
  | Some s =>
      let '(result, failures) :=
        match ps_trust s with
        | Trusted => ((MAX_PEER_FAILURES <? S (ps_failures s))%nat, S (ps_failures s))
        | Suspicious => (true, MAX_PEER_FAILURES)
        end in
      (result, mkPeersTasks (pt_all pt) (pt_unuseful pt) (pt_idle_for_headers pt) (pt_idle_for_blocks pt)
        (pt_headers_requests pt) (pt_blocks_requests pt)
        (<[peer := mkPeerStats failures (ps_speed s) (ps_trust s)]> (pt_stats pt)) (pt_blocks_stats pt))
  end.

(** src: sync/src/synchronization_peers_tasks.rs 332-334 on_peer_block_failure *)
Definition on_peer_block_failure peer pt : bool * PeersTasks M := penalize peer pt.

(** src: sync/src/synchronization_peers_tasks.rs 337-343 on_peer_headers_failure *)
Definition on_peer_headers_failure peer pt : bool * PeersTasks M :=
  penalize peer (mkPeersTasks (pt_all pt) (pt_unuseful pt) ({[peer]} ∪ pt_idle_for_headers pt)
    (pt_idle_for_blocks pt) (snd (lhm_remove peer (pt_headers_requests pt))) (pt_blocks_requests pt)
    (pt_stats pt) (pt_blocks_stats pt)).

(** src: sync/src/synchronization_peers_tasks.rs 362-369 reset *)
Definition tasks_reset pt : PeersTasks M :=
  mkPeersTasks (pt_all pt) (pt_all pt) ∅ ∅ lhm_new lhm_new (pt_stats pt) (pt_blocks_stats pt).

(** src: sync/src/synchronization_peers_tasks.rs 372-378 reset_blocks_tasks *)
Definition reset_blocks_tasks peer pt : list H256 * PeersTasks M :=
  let '(removed, requests) := lhm_remove peer (pt_blocks_requests pt) in
  (from_option (λ br, hash_order (br_blocks br)) [] removed,
   mkPeersTasks (pt_all pt) (pt_unuseful pt) (pt_idle_for_headers pt) ({[peer]} ∪ pt_idle_for_blocks pt)
     (pt_headers_requests pt) requests (pt_stats pt) (pt_blocks_stats pt)).

(** ** The invariant *)

Context {LL : LinkedHashMapLaws PeerIndex M}.

Definition busy pt peer : Prop := is_Some (lhm_get peer (pt_blocks_requests pt)).

(** Every known peer is one of unuseful, idle for blocks and busy with blocks;
    it has statistics, and only known peers are waited for. *)
Record tasks_ok pt : Prop := {
  tk_all peer : peer ∈ pt_all pt ↔ peer ∈ pt_unuseful pt ∨ peer ∈ pt_idle_for_blocks pt ∨ busy pt peer;
  tk_unuseful peer : peer ∈ pt_unuseful pt → (peer ∉ pt_idle_for_blocks pt) ∧ ¬ busy pt peer;
  tk_idle peer : peer ∈ pt_idle_for_blocks pt → ¬ busy pt peer;
  tk_stats : dom (pt_stats pt) = pt_all pt;
  tk_headers peer : is_Some (lhm_get peer (pt_headers_requests pt)) → peer ∈ pt_all pt;
  tk_meters peer s : pt_stats pt !! peer = Some s → meter_ok (ps_speed s);
}.

Lemma tasks_ok_default : tasks_ok peers_tasks_default.
Proof.
  split; unfold busy; cbn; try set_solver.
  - intros peer. rewrite lhm_get_new. split; [set_solver|]. intros [?|[?|[? ?]]]; set_solver.
  - intros peer. rewrite lhm_get_new. by intros [].
Qed.

Lemma peer_stats_new_ok : ∃ s, peer_stats_new = Some s ∧ meter_ok (ps_speed s).
Proof.
  unfold peer_stats_new. destruct (meter_ok_new BLOCKS_TO_INSPECT) as (m & -> & Hm); [unfold BLOCKS_TO_INSPECT; lia|].
  eexists. by split.
Qed.

Lemma stats_insert_ok (stats : gmap PeerIndex PeerStats) (all : gset PeerIndex) peer s :
  dom stats ∪ {[peer]} = all → (∀ q s', stats !! q = Some s' → meter_ok (ps_speed s')) → meter_ok (ps_speed s) →
  dom (<[peer := s]> stats) = all ∧ ∀ q s', <[peer := s]> stats !! q = Some s' → meter_ok (ps_speed s').
Proof.
  intros Hd Hm Hs. split; [rewrite dom_insert_L; set_solver|]. intros q s'.
  destruct (decide (q = peer)) as [->|Hq]; [rewrite lookup_insert_eq; congruence|].
  rewrite lookup_insert_ne by done. apply Hm.
Qed.

Lemma on_stats_ok (stats : gmap PeerIndex PeerStats) peer f :
  (∀ s, meter_ok (ps_speed s) → ∃ s', f s = Some s' ∧ meter_ok (ps_speed s')) →
  (∀ q s, stats !! q = Some s → meter_ok (ps_speed s)) →
  ∃ stats', on_stats peer f stats = Some stats' ∧ dom stats' = dom stats ∧
    ∀ q s, stats' !! q = Some s → meter_ok (ps_speed s).
Proof.
  intros Hf Hm. unfold on_stats. destruct (stats !! peer) as [s|] eqn:E; [|by exists stats].
  destruct (Hf s) as (s' & -> & Hs'); [by eapply Hm|]. eexists. split; [done|].
  apply stats_insert_ok; [|done|done]. assert (peer ∈ dom stats) by (apply elem_of_dom; by exists s). set_solver.
Qed.

Lemma useful_peer_ok peer pt : tasks_ok pt → ∃ pt', useful_peer peer pt = Some pt' ∧ tasks_ok pt' ∧
  pt_blocks_requests pt' = pt_blocks_requests pt ∧ pt_all pt' = {[peer]} ∪ pt_all pt ∧
  pt_unuseful pt' = pt_unuseful pt ∖ {[peer]}.
Proof.
  intros [Hall Hun Hid Hst Hh Hm]. unfold useful_peer. destruct peer_stats_new_ok as (s & Es & Hs).
  destruct (decide (peer ∈ pt_all pt)) as [Hin|Hin].
  - rewrite (bool_decide_eq_false_2 (peer ∉ pt_all pt)) by tauto. cbn [orb].
    case_bool_decide as Hu.
    + rewrite Es. eexists. split; [done|]. destruct (Hun _ Hu) as [Hni Hnb].
      destruct (stats_insert_ok (pt_stats pt) (pt_all pt) peer s) as [Hd Hm']; [set_solver|done|done|].
      split_and!; [split; unfold busy in *; cbn|done..].
      * intros q. specialize (Hall q). destruct (decide (q = peer)) as [->|]; set_solver.
      * intros q Hq. specialize (Hun q). set_solver.
      * intros q Hq. destruct (decide (q = peer)) as [->|]; [done|]. apply Hid. set_solver.
      * rewrite Hd. set_solver.
      * intros q Hq. apply elem_of_union. right. by apply Hh.
      * done.
    + eexists. split; [done|]. split_and!; [split; unfold busy in *; cbn; try done|done|done|set_solver].
      * intros q. rewrite <-Hall. set_solver.
      * set_solver.
      * intros q Hq. apply elem_of_union. right. by apply Hh.
  - rewrite (bool_decide_eq_true_2 (peer ∉ pt_all pt)) by done. cbn [orb]. rewrite Es. eexists. split; [done|].
    assert (¬ busy pt peer ∧ peer ∉ pt_unuseful pt) as [Hnb Hnu] by (rewrite Hall in Hin; tauto).
    destruct (stats_insert_ok (pt_stats pt) ({[peer]} ∪ pt_all pt) peer s) as [Hd Hm']; [set_solver|done|done|].
    split_and!; [split; unfold busy in *; cbn|done|done|set_solver].
    + intros q. specialize (Hall q). destruct (decide (q = peer)) as [->|]; set_solver.
    + intros q Hq. specialize (Hun q Hq). destruct (decide (q = peer)) as [->|]; set_solver.
    + intros q Hq. destruct (decide (q = peer)) as [->|]; [done|]. apply Hid. set_solver.
    + done.
    + intros q Hq. apply elem_of_union. right. by apply Hh.
    + done.
Qed.

Lemma not_contains peer {A} (m : M A) : lhm_contains peer m = false ↔ lhm_get peer m = None.
Proof. unfold lhm_contains. rewrite bool_decide_eq_false. rewrite eq_None_not_Some. done. Qed.

(** Marking a peer unuseful, which must have been asked for no block. *)
Lemma unuseful_peer_ok peer pt : tasks_ok pt → ¬ busy pt peer → ∃ pt', unuseful_peer peer pt = Some pt' ∧
  tasks_ok pt' ∧ pt_blocks_requests pt' = pt_blocks_requests pt ∧ pt_all pt' = {[peer]} ∪ pt_all pt ∧
  pt_unuseful pt' = {[peer]} ∪ pt_unuseful pt.
Proof.
  intros [Hall Hun Hid Hst Hh Hm] Hnb. unfold unuseful_peer.
  rewrite (proj2 (not_contains peer _)) by (by apply eq_None_not_Some). cbn [negb rust_assert mbind option_bind].
  assert (∃ stats, (if decide (peer ∈ pt_all pt) then Some (pt_stats pt)
    else new ← peer_stats_new; Some (<[peer:=new]> (pt_stats pt))) = Some stats ∧
    dom stats = {[peer]} ∪ pt_all pt ∧ ∀ q s, stats !! q = Some s → meter_ok (ps_speed s)) as (stats & -> & Hd & Hm').
  { destruct (decide (peer ∈ pt_all pt)); [exists (pt_stats pt); split_and!; [done|set_solver|done]|].
    destruct peer_stats_new_ok as (s & -> & Hs). eexists. split; [done|].
    apply stats_insert_ok; [set_solver|done|done]. }
  cbn [mbind option_bind]. eexists. split; [done|]. split_and!; [split; unfold busy in *; cbn|done..].
  - intros q. specialize (Hall q). destruct (decide (q = peer)) as [->|]; set_solver.
  - intros q Hq. destruct (decide (q = peer)) as [->|]; [set_solver|]. specialize (Hun q). set_solver.
  - intros q Hq. apply Hid. set_solver.
  - done.
  - intros q Hq. apply elem_of_union. right. by apply Hh.
  - done.
Qed.

(** An unuseful peer that has pending blocks is an assertion that fails. *)
Lemma unuseful_peer_busy peer pt : busy pt peer → unuseful_peer peer pt = None ∧ disconnect peer pt = None.
Proof.
  intros [r Hr]. unfold unuseful_peer, disconnect, lhm_contains. rewrite Hr.
  by rewrite bool_decide_eq_true_2 by eauto.
Qed.

Lemma disconnect_ok peer pt : tasks_ok pt → ¬ busy pt peer → ∃ pt', disconnect peer pt = Some pt' ∧
  tasks_ok pt' ∧ (∀ q, lhm_get q (pt_blocks_requests pt') = lhm_get q (pt_blocks_requests pt)) ∧
  pt_all pt' = pt_all pt ∖ {[peer]} ∧ pt_unuseful pt' = pt_unuseful pt ∖ {[peer]}.
Proof.
  intros [Hall Hun Hid Hst Hh Hm] Hnb. unfold disconnect.
  rewrite (proj2 (not_contains peer _)) by (by apply eq_None_not_Some). cbn [negb rust_assert mbind option_bind].
  assert (∀ q, lhm_get q (snd (lhm_remove peer (pt_blocks_requests pt))) = lhm_get q (pt_blocks_requests pt)) as Eg.
  { intros q. destruct (decide (q = peer)) as [->|]; [|by apply lhm_get_remove_ne].
    rewrite lhm_get_remove_eq. symmetry. by apply eq_None_not_Some. }
  eexists. split; [done|]. split_and!; [split; unfold busy in *; cbn|done..].
  - intros q. rewrite Eg. specialize (Hall q). destruct (decide (q = peer)) as [->|]; set_solver.
  - intros q. rewrite Eg. specialize (Hun q). set_solver.
  - intros q. rewrite Eg. intros Hq. apply Hid. set_solver.
  - by rewrite dom_delete_L, Hst.
  - intros q. destruct (decide (q = peer)) as [->|]; [rewrite lhm_get_remove_eq; by intros []|].
    rewrite lhm_get_remove_ne by done. intros ?%Hh. set_solver.
  - intros q s. rewrite lookup_delete_Some. intros [_ ?]. by eapply Hm.
Qed.

(** The blocks a peer is asked for, as a set. *)
Definition asked pt peer : gset H256 := default ∅ (get_blocks_tasks pt peer).

Lemma asked_same pt pt' peer :
  lhm_get peer (pt_blocks_requests pt') = lhm_get peer (pt_blocks_requests pt) → asked pt' peer = asked pt peer.
Proof. unfold asked, get_blocks_tasks. by intros ->. Qed.

(** Operations that only touch headers requests, idle-for-headers marks,
    failures and block statistics. *)
Lemma tasks_ok_headers pt all idle headers stats bstats : tasks_ok pt → all = pt_all pt →
  (∀ q, is_Some (lhm_get q headers) → q ∈ pt_all pt) →
  dom stats = dom (pt_stats pt) → (∀ q s, stats !! q = Some s → meter_ok (ps_speed s)) →
  tasks_ok (mkPeersTasks all (pt_unuseful pt) idle (pt_idle_for_blocks pt) headers
    (pt_blocks_requests pt) stats bstats).
Proof.
  intros [Hall Hun Hid Hst Hh Hm] -> Hh' Hd Hm'. split; unfold busy in *; cbn; try done. by rewrite Hd.
Qed.

Lemma on_headers_received_ok peer pt : tasks_ok pt → tasks_ok (on_headers_received peer pt).
Proof.
  intros Hok. apply tasks_ok_headers; try done; [|apply Hok]. intros q Hq. apply (tk_headers _ Hok).
  destruct (decide (q = peer)) as [->|]; [rewrite lhm_get_remove_eq in Hq; by destruct Hq|].
  by rewrite lhm_get_remove_ne in Hq.
Qed.

Lemma make_known_ok peer pt : tasks_ok pt → ∃ pt', make_known peer pt = Some pt' ∧ tasks_ok pt' ∧
  pt_blocks_requests pt' = pt_blocks_requests pt ∧ pt_all pt' = {[peer]} ∪ pt_all pt ∧
  pt_unuseful pt' = (if decide (peer ∈ pt_all pt) then pt_unuseful pt else {[peer]} ∪ pt_unuseful pt).
Proof.
  intros Hok. unfold make_known. case_decide as Hin.
  - exists pt. split_and!; try done. set_solver.
  - destruct (unuseful_peer_ok peer pt Hok) as (pt' & E & Hok' & Hb & Ha & Hu); [|by exists pt'].
    intros Hb. destruct Hin. apply (tk_all _ Hok). tauto.
Qed.

Lemma on_headers_requested_ok now peer pt : tasks_ok pt → ∃ pt', on_headers_requested now peer pt = Some pt' ∧
  tasks_ok pt' ∧ pt_blocks_requests pt' = pt_blocks_requests pt ∧ pt_all pt' = {[peer]} ∪ pt_all pt ∧
  pt_unuseful pt' = (if decide (peer ∈ pt_all pt) then pt_unuseful pt else {[peer]} ∪ pt_unuseful pt).
Proof.
  intros Hok. unfold on_headers_requested. destruct (make_known_ok peer pt Hok) as (pt1 & -> & Hok1 & Hb & Ha & Hu).
  cbn [mbind option_bind]. eexists. split; [done|]. split_and!; [|done..].
  apply tasks_ok_headers; try done; [|apply Hok1]. intros q Hq.
  destruct (decide (q = peer)) as [->|]; [set_solver|].
  rewrite lhm_get_insert_ne, lhm_get_remove_ne in Hq by (done || apply lhm_get_remove_eq).
  by apply (tk_headers _ Hok1).
Qed.

Lemma penalize_ok peer pt : tasks_ok pt → tasks_ok (snd (penalize peer pt)) ∧
  pt_blocks_requests (snd (penalize peer pt)) = pt_blocks_requests pt ∧
  pt_all (snd (penalize peer pt)) = pt_all pt.
Proof.
  intros Hok. unfold penalize. destruct (pt_stats pt !! peer) as [s|] eqn:E; [|done].
  assert (∀ n, tasks_ok (mkPeersTasks (pt_all pt) (pt_unuseful pt) (pt_idle_for_headers pt) (pt_idle_for_blocks pt)
    (pt_headers_requests pt) (pt_blocks_requests pt)
    (<[peer := mkPeerStats n (ps_speed s) (ps_trust s)]> (pt_stats pt)) (pt_blocks_stats pt))) as H.
  { intros n. destruct (stats_insert_ok (pt_stats pt) (pt_all pt) peer (mkPeerStats n (ps_speed s) (ps_trust s)))
      as [Hd Hm].
    - rewrite (tk_stats _ Hok). assert (peer ∈ dom (pt_stats pt)) as Hin by (apply elem_of_dom; eauto).
      rewrite (tk_stats _ Hok) in Hin. set_solver.
    - apply Hok.
    - cbn. by eapply tk_meters.
    - apply tasks_ok_headers; try done; [apply Hok|]. by rewrite Hd, (tk_stats _ Hok). }
  destruct (ps_trust s); split_and!; try done; apply H.
Qed.

Lemma on_peer_headers_failure_ok peer pt : tasks_ok pt → tasks_ok (snd (on_peer_headers_failure peer pt)) ∧
  pt_blocks_requests (snd (on_peer_headers_failure peer pt)) = pt_blocks_requests pt.
Proof.
  intros Hok. unfold on_peer_headers_failure.
  match goal with |- context [penalize peer ?q] => destruct (penalize_ok peer q) as (H1 & H2 & _) end; [|by split].
  apply tasks_ok_headers; try done; [|apply Hok]. intros q Hq. apply (tk_headers _ Hok).
  destruct (decide (q = peer)) as [->|]; [rewrite lhm_get_remove_eq in Hq; by destruct Hq|].
  by rewrite lhm_get_remove_ne in Hq.
Qed.

Lemma on_blocks_failure_ok hashes pt : tasks_ok pt → tasks_ok (snd (on_blocks_failure hashes pt)) ∧
  pt_blocks_requests (snd (on_blocks_failure hashes pt)) = pt_blocks_requests pt.
Proof.
  intros Hok. unfold on_blocks_failure. destruct (blocks_failures hashes (pt_blocks_stats pt)) as [r stats].
  split; [|done]. by apply tasks_ok_headers; try done; apply Hok.
Qed.

(** The two lists share out the hashes. *)
Lemma blocks_failures_perm hashes stats :
  let '((normal, failed), _) := blocks_failures hashes stats in hashes ≡ₚ normal ++ failed.
Proof.
  revert stats. induction hashes as [|h l IH]; intros stats; [cbn; reflexivity|]. cbn [blocks_failures].
  destruct (block_failure h stats) as [b stats']. specialize (IH stats').
  destruct (blocks_failures l stats') as [[n f] s]. destruct b; rewrite IH; [|done]. by rewrite Permutation_middle.
Qed.

Lemma tasks_reset_ok pt : tasks_ok pt → tasks_ok (tasks_reset pt) ∧ ∀ q, lhm_get q (pt_blocks_requests (tasks_reset pt)) = None.
Proof.
  intros [Hall Hun Hid Hst Hh Hm]. split; [|intros q; apply lhm_get_new]. split; unfold busy; cbn; try done.
  - intros q. rewrite lhm_get_new. split; [tauto|]. intros [?|[?|[? ?]]]; set_solver.
  - intros q _. rewrite lhm_get_new. split; [set_solver|by intros []].
  - intros q. rewrite lhm_get_new. by intros [].
Qed.

(** The tasks of a useful peer are taken back, and it is idle. *)
Lemma reset_blocks_tasks_spec peer pt :
  (∀ h, h ∈ (reset_blocks_tasks peer pt).1 ↔ h ∈ asked pt peer) ∧
  NoDup (reset_blocks_tasks peer pt).1 ∧
  (∀ q, lhm_get q (pt_blocks_requests (reset_blocks_tasks peer pt).2) =
     if decide (q = peer) then None else lhm_get q (pt_blocks_requests pt)) ∧
  pt_all (reset_blocks_tasks peer pt).2 = pt_all pt ∧ pt_unuseful (reset_blocks_tasks peer pt).2 = pt_unuseful pt ∧
  pt_idle_for_blocks (reset_blocks_tasks peer pt).2 = {[peer]} ∪ pt_idle_for_blocks pt ∧
  pt_headers_requests (reset_blocks_tasks peer pt).2 = pt_headers_requests pt ∧
  pt_stats (reset_blocks_tasks peer pt).2 = pt_stats pt.
Proof.
  unfold reset_blocks_tasks, asked, get_blocks_tasks. pose proof (lhm_remove_old peer (pt_blocks_requests pt)) as E.
  pose proof (lhm_get_remove_eq peer (pt_blocks_requests pt)) as E1.
  pose proof (λ q, lhm_get_remove_ne peer q (pt_blocks_requests pt)) as E2.
  destruct (lhm_remove peer (pt_blocks_requests pt)) as [old requests]. cbn in *. rewrite <-E.
  split_and!; try done.
  - intros h. destruct old as [r|]; cbn; [apply elem_of_hash_order|set_solver].
  - destruct old as [r|]; cbn; [apply hash_order_nodup|apply NoDup_nil_2].
  - intros q. case_decide as Hq; [by subst|by apply E2].
Qed.

Lemma reset_blocks_tasks_ok peer pt : tasks_ok pt → peer ∈ pt_all pt → (peer ∉ pt_unuseful pt) →
  tasks_ok (reset_blocks_tasks peer pt).2.
Proof.
  intros [Hall Hun Hid Hst Hh Hm] Hin Hnu.
  destruct (reset_blocks_tasks_spec peer pt) as (_ & _ & Hg & Ea & Eu & Ei & Eh & Es).
  assert (∀ q, busy (reset_blocks_tasks peer pt).2 q ↔ q ≠ peer ∧ busy pt q) as Hb.
  { intros q. unfold busy. rewrite Hg. destruct (decide (q = peer)) as [->|]; [split; [by intros []|by intros []]|tauto]. }
  split; try setoid_rewrite Hb; rewrite ?Ea, ?Eu, ?Ei, ?Eh, ?Es; try done.
  - intros q. specialize (Hall q). destruct (decide (q = peer)) as [->|]; set_solver.
  - intros q Hq. specialize (Hun q Hq). set_solver.
  - intros q Hq. specialize (Hid q). set_solver.
Qed.

(** Taking the tasks of a peer back before it is dropped or excluded, whatever
    the peer was. *)
Lemma reset_then_disconnect_ok peer pt : tasks_ok pt →
  ∃ pt', disconnect peer (reset_blocks_tasks peer pt).2 = Some pt' ∧ tasks_ok pt' ∧
    (∀ q, lhm_get q (pt_blocks_requests pt') = if decide (q = peer) then None else lhm_get q (pt_blocks_requests pt)) ∧
    pt_all pt' = pt_all pt ∖ {[peer]} ∧ pt_unuseful pt' = pt_unuseful pt ∖ {[peer]}.
Proof.
  intros [Hall Hun Hid Hst Hh Hm].
  destruct (reset_blocks_tasks_spec peer pt) as (_ & _ & Hg & Ea & Eu & Ei & Eh & Es).
  unfold disconnect. rewrite (proj2 (not_contains peer _)) by (rewrite Hg; by rewrite decide_True).
  cbn [negb rust_assert mbind option_bind].
  assert (∀ q, lhm_get q (snd (lhm_remove peer (pt_blocks_requests (reset_blocks_tasks peer pt).2))) =
    if decide (q = peer) then None else lhm_get q (pt_blocks_requests pt)) as Hg'.
  { intros q. case_decide as Hq; [subst; apply lhm_get_remove_eq|]. by rewrite lhm_get_remove_ne, Hg, decide_False. }
  eexists. split; [done|]. rewrite ?Ea, ?Eu. split_and!; [split|done..]; unfold busy in *; cbn;
    rewrite ?Ea, ?Eu, ?Ei, ?Eh, ?Es.
  - intros q. rewrite Hg'. specialize (Hall q). case_decide as Hq; [subst|set_solver].
    split; [set_solver|]. intros [?|[?|[? ?]]]; set_solver.
  - intros q Hq. rewrite Hg'. specialize (Hun q). case_decide; set_solver.
  - intros q Hq. rewrite Hg'. specialize (Hid q). case_decide; [set_solver|]. apply Hid. set_solver.
  - by rewrite dom_delete_L, Hst.
  - intros q. destruct (decide (q = peer)) as [->|]; [rewrite lhm_get_remove_eq; by intros []|].
    rewrite lhm_get_remove_ne by done. intros ?%Hh. set_solver.
  - intros q s. rewrite lookup_delete_Some. intros [_ ?]. by eapply Hm.
Qed.

Lemma responded_ok now s : meter_ok (ps_speed s) → ∃ s', responded now s = Some s' ∧ meter_ok (ps_speed s').
Proof.
  intros Hs. unfold responded. destruct (meter_ok_checkpoint now _ Hs) as (m & -> & Hm). eexists. by split.
Qed.

(** What is left of the tasks of a peer when a block arrives. *)
Definition tasks_without (h : H256) (tasks : option (gset H256)) : option (gset H256) :=
  match tasks with
  | Some s => if decide (h ∈ s) then if decide (s ∖ {[h]} = ∅) then None else Some (s ∖ {[h]}) else Some s
  | None => None
  end.

Lemma tasks_without_asked h tasks : default ∅ (tasks_without h tasks) = default ∅ tasks ∖ {[h]}.
Proof.
  destruct tasks as [s|]; cbn; [|set_solver]. case_decide; [|cbn; set_solver].
  case_decide as E; cbn; [by rewrite E|done].
Qed.

(** Receiving a block takes it off the list of its sender, who is idle again
    with the last one; nothing else changes. *)
Lemma on_block_received_ok now now' peer h pt : tasks_ok pt →
  ∃ pt', on_block_received now now' peer h pt = Some pt' ∧ tasks_ok pt' ∧
    (∀ q, get_blocks_tasks pt' q =
       if decide (q = peer) then tasks_without h (get_blocks_tasks pt q) else get_blocks_tasks pt q) ∧
    pt_all pt' = pt_all pt ∧ pt_unuseful pt' = pt_unuseful pt.
Proof.
  intros Hok. pose proof Hok as [Hall Hun Hid Hst Hh Hm]. unfold on_block_received. cbn [pt_blocks_requests pt_stats].
  assert (∀ bs, tasks_ok (mkPeersTasks (pt_all pt) (pt_unuseful pt) (pt_idle_for_headers pt) (pt_idle_for_blocks pt)
    (pt_headers_requests pt) (pt_blocks_requests pt) (pt_stats pt) bs)) as Hsame.
  { intros bs. by apply tasks_ok_headers. }
  destruct (lhm_get peer (pt_blocks_requests pt)) as [r|] eqn:Er.
  2:{ eexists. split; [done|]. split_and!; [done| |done..]. intros q. case_decide; [subst|done].
      unfold get_blocks_tasks. cbn. by rewrite Er. }
  case_decide as Hin.
  { eexists. split; [done|]. split_and!; [done| |done..]. intros q. case_decide; [subst|done].
    unfold get_blocks_tasks. cbn. rewrite Er. cbn. by rewrite decide_False. }
  destruct (on_stats_ok (pt_stats pt) peer (responded now)) as (stats & -> & Hd & Hms);
    [intros s; apply responded_ok|done|]. cbn [mbind option_bind].
  set (left := br_blocks r ∖ {[h]}).
  set (requests := lhm_get_mut peer (λ r0, mkBlocksRequest (br_timestamp r0) left) (pt_blocks_requests pt)).
  assert (lhm_get peer requests = Some (mkBlocksRequest (br_timestamp r) left)) as Eg.
  { unfold requests. by rewrite lhm_get_update_eq, Er. }
  assert (∀ q, q ≠ peer → lhm_get q requests = lhm_get q (pt_blocks_requests pt)) as Eo.
  { intros q Hq. unfold requests. by rewrite lhm_get_update_ne. }
  assert (busy pt peer) as Hbusy by (eexists; done).
  pose proof Hin as Hh'.
  case_decide as Hleft.
  - pose proof (lhm_remove_old peer requests) as E. pose proof (lhm_get_remove_eq peer requests) as E1.
    pose proof (λ q, lhm_get_remove_ne peer q requests) as E2.
    destruct (lhm_remove peer requests) as [old rest]. cbn in E, E1, E2. rewrite Eg in E. subst old.
    cbn [mbind option_bind]. eexists. split; [done|].
    assert (∀ q, lhm_get q (snd (lhm_insert peer (mkBlocksRequest now' left) rest)) =
      if decide (q = peer) then Some (mkBlocksRequest now' left) else lhm_get q (pt_blocks_requests pt)) as Hg.
    { intros q. case_decide as Hq; [subst; by apply lhm_get_insert_eq|].
      rewrite lhm_get_insert_ne by done. rewrite E2 by done. by apply Eo. }
    split_and!; [|intros q|done..].
    + split; unfold busy in *; cbn; try done.
      * intros q. rewrite Hg. specialize (Hall q). case_decide; [subst; naive_solver|done].
      * intros q Hq. rewrite Hg. specialize (Hun q Hq). case_decide; [subst; naive_solver|done].
      * intros q Hq. rewrite Hg. specialize (Hid q Hq). case_decide; [subst; naive_solver|done].
      * by rewrite Hd.
    + unfold get_blocks_tasks. cbn. rewrite Hg. case_decide; [|done]. subst. rewrite Er. cbn.
      by rewrite decide_True, decide_False.
  - destruct (on_stats_ok stats peer (map_speed meter_stop)) as (stats2 & -> & Hd2 & Hms2);
      [intros s Hs; eexists; by split|done|]. cbn [mbind option_bind]. eexists. split; [done|].
    assert (∀ q, lhm_get q (snd (lhm_remove peer requests)) =
      if decide (q = peer) then None else lhm_get q (pt_blocks_requests pt)) as Hg.
    { intros q. case_decide as Hq; [subst; apply lhm_get_remove_eq|]. rewrite lhm_get_remove_ne by done. by apply Eo. }
    split_and!; [|intros q|done..].
    + split; unfold busy in *; cbn; try done.
      * intros q. rewrite Hg. specialize (Hall q). case_decide; [subst; set_solver|set_solver].
      * intros q Hq. rewrite Hg. specialize (Hun q Hq). case_decide; [subst; naive_solver|set_solver].
      * intros q Hq. rewrite Hg. specialize (Hid q). case_decide; [by intros []|]. apply Hid. set_solver.
      * by rewrite Hd2, Hd.
    + unfold get_blocks_tasks. cbn. rewrite Hg. case_decide; [|done]. subst. rewrite Er. cbn.
      rewrite decide_True by done. fold left. by destruct (decide (left = ∅)).
Qed.

(** Asking a peer for blocks adds them to its list and makes it useful and
    busy. *)
Lemma on_blocks_requested_ok now now' peer hashes pt : tasks_ok pt →
  ∃ pt', on_blocks_requested now now' peer hashes pt = Some pt' ∧ tasks_ok pt' ∧
    (∀ q, asked pt' q = if decide (q = peer) then list_to_set hashes ∪ asked pt q else asked pt q) ∧
    (∀ q, busy pt' q ↔ q = peer ∨ busy pt q) ∧
    (∀ q, q ≠ peer → get_blocks_tasks pt' q = get_blocks_tasks pt q) ∧
    pt_all pt' = {[peer]} ∪ pt_all pt ∧ pt_unuseful pt' = pt_unuseful pt ∖ {[peer]}.
Proof.
  intros Hok. unfold on_blocks_requested.
  destruct (make_known_ok peer pt Hok) as (pt1 & -> & Hok1 & Eb & Ea & Eu). cbn [mbind option_bind].
  pose proof Hok1 as [Hall Hun Hid Hst Hh Hm].
  destruct (on_stats_ok (pt_stats pt1) peer (map_speed (meter_start now'))) as (stats & -> & Hd & Hms);
    [intros s Hs; eexists; by split|done|]. cbn [mbind option_bind]. eexists. split; [done|].
  set (requests := if lhm_contains peer (pt_blocks_requests pt1) then _ else _).
  assert (∃ r, lhm_get peer requests = Some r ∧ br_blocks r = asked pt peer) as (r & Er & Eblocks).
  { unfold requests, asked, get_blocks_tasks. rewrite Eb.
    destruct (lhm_contains peer (pt_blocks_requests pt)) eqn:Ec.
    - unfold lhm_contains in Ec. apply bool_decide_eq_true in Ec as [r Hr]. exists r. by rewrite Hr.
    - apply not_contains in Ec. exists (blocks_request_new now). rewrite lhm_get_insert_eq, Ec by done. by cbn. }
  assert (∀ q, q ≠ peer → lhm_get q requests = lhm_get q (pt_blocks_requests pt)) as Eo.
  { intros q Hq. unfold requests. rewrite Eb. destruct (lhm_contains peer (pt_blocks_requests pt)) eqn:Ec; [done|].
    apply not_contains in Ec. by rewrite lhm_get_insert_ne. }
  set (f := λ r0, mkBlocksRequest _ _).
  assert (∀ q, lhm_get q (lhm_get_mut peer f requests) =
    if decide (q = peer) then Some (f r) else lhm_get q (pt_blocks_requests pt)) as Hg.
  { intros q. destruct (decide (q = peer)) as [->|Hq]; [by rewrite lhm_get_update_eq, Er|].
    rewrite lhm_get_update_ne by done. by apply Eo. }
  assert (∀ q, is_Some (if decide (q = peer) then Some (f r) else lhm_get q (pt_blocks_requests pt)) ↔
    q = peer ∨ is_Some (lhm_get q (pt_blocks_requests pt1))) as Hsome.
  { intros q. rewrite Eb. destruct (decide (q = peer)); [|tauto]. split; [tauto|]. by eexists. }
  split_and!.
  - split; unfold busy in *; cbn; try setoid_rewrite Hg; try setoid_rewrite Hsome.
    + intros q. specialize (Hall q). destruct (decide (q = peer)) as [->|]; set_solver.
    + intros q Hq. specialize (Hun q). set_solver.
    + intros q Hq. specialize (Hid q). set_solver.
    + by rewrite Hd.
    + done.
    + done.
  - intros q. unfold asked at 1, get_blocks_tasks. cbn. rewrite Hg. destruct (decide (q = peer)) as [->|]; [|done]. cbn. by rewrite Eblocks.
  - intros q. unfold busy. cbn. rewrite Hg, Hsome, Eb. done.
  - intros q Hq. unfold get_blocks_tasks. cbn. by rewrite Hg, decide_False.
  - done.
  - cbn. rewrite Eu. destruct (decide (peer ∈ pt_all pt)); set_solver.
Qed.

(** ** The peers as a map of states *)

Inductive PeerStatus := Unuseful | Idle | Busy (blocks : gset H256).

Definition status_of pt peer : option PeerStatus :=
  match get_blocks_tasks pt peer with
  | Some blocks => Some (Busy blocks)
  | None => if decide (peer ∈ pt_unuseful pt) then Some Unuseful
            else if decide (peer ∈ pt_idle_for_blocks pt) then Some Idle else None
  end.

Inductive TasksOp :=
| TkUseful (peer : PeerIndex)
| TkUnuseful (peer : PeerIndex)
| TkDisconnect (peer : PeerIndex)
| TkBlockReceived (now now' : f64) (peer : PeerIndex) (hash : H256)
| TkHeadersReceived (peer : PeerIndex)
| TkBlocksRequested (now now' : f64) (peer : PeerIndex) (hashes : list H256)
| TkHeadersRequested (now : f64) (peer : PeerIndex)
| TkBlocksFailure (hashes : list H256)
| TkBlockFailure (peer : PeerIndex)
| TkHeadersFailure (peer : PeerIndex)
| TkReset
| TkTakeBack (peer : PeerIndex).

Definition tasks_step (op : TasksOp) pt : option (PeersTasks M) :=
  match op with
  | TkUseful peer => useful_peer peer pt
  | TkUnuseful peer => unuseful_peer peer pt
  | TkDisconnect peer => disconnect peer pt
  | TkBlockReceived now now' peer hash => on_block_received now now' peer hash pt
  | TkHeadersReceived peer => Some (on_headers_received peer pt)
  | TkBlocksRequested now now' peer hashes => on_blocks_requested now now' peer hashes pt
  | TkHeadersRequested now peer => on_headers_requested now peer pt
  | TkBlocksFailure hashes => Some (on_blocks_failure hashes pt).2
  | TkBlockFailure peer => Some (on_peer_block_failure peer pt).2
  | TkHeadersFailure peer => Some (on_peer_headers_failure peer pt).2
  | TkReset => Some (tasks_reset pt)
  | TkTakeBack peer => Some (reset_blocks_tasks peer pt).2
  end.

Definition States : Type := PeerIndex → option PeerStatus.

Definition set_status peer (x : option PeerStatus) (st : States) : States := λ q, if decide (q = peer) then x else st q.

Definition is_busy (x : option PeerStatus) : bool := match x with Some (Busy _) => true | _ => false end.

Definition blocks_of (x : option PeerStatus) : gset H256 := match x with Some (Busy s) => s | _ => ∅ end.

(** One state per peer; a busy peer may not be excluded or dropped. *)
Definition states_step (op : TasksOp) (st : States) : option States :=
  match op with
  | TkUseful peer =>
      Some (match st peer with None | Some Unuseful => set_status peer (Some Idle) st | _ => st end)
  | TkUnuseful peer => if is_busy (st peer) then None else Some (set_status peer (Some Unuseful) st)
  | TkDisconnect peer => if is_busy (st peer) then None else Some (set_status peer None st)
  | TkBlockReceived _ _ peer hash =>
      Some (match st peer with
            | Some (Busy s) =>
                set_status peer (Some (from_option Busy Idle (tasks_without hash (Some s)))) st
            | _ => st
            end)
  | TkBlocksRequested _ _ peer hashes =>
      Some (set_status peer (Some (Busy (list_to_set hashes ∪ blocks_of (st peer)))) st)
  | TkHeadersRequested _ peer =>
      Some (match st peer with None => set_status peer (Some Unuseful) st | _ => st end)
  | TkReset => Some (λ q, match st q with None => None | Some _ => Some Unuseful end)
  | TkTakeBack peer => Some (set_status peer (Some Idle) st)
  | _ => Some st
  end.

(** The tasks of a peer are taken back only while it is useful. *)
Fixpoint takes_back_useful (ops : list TasksOp) (st : States) : Prop :=
  match ops with
  | [] => True
  | op :: ops =>
      match op with
      | TkTakeBack peer => match st peer with Some Idle | Some (Busy _) => True | _ => False end
      | _ => True
      end ∧ match states_step op st with Some st' => takes_back_useful ops st' | None => True end
  end.

Definition states_eq pt (st : States) : Prop := tasks_ok pt ∧ ∀ q, status_of pt q = st q.

(** The state of a peer from the sets that partition the known peers. *)
Lemma status_alt pt q : tasks_ok pt → status_of pt q =
  match get_blocks_tasks pt q with
  | Some blocks => Some (Busy blocks)
  | None => if decide (q ∈ pt_unuseful pt) then Some Unuseful else if decide (q ∈ pt_all pt) then Some Idle else None
  end.
Proof.
  intros Hok. unfold status_of. destruct (get_blocks_tasks pt q) as [b|] eqn:E; [done|].
  case_decide as Hu; [done|]. pose proof (tk_all _ Hok q) as Ha.
  assert (¬ busy pt q) as Hnb.
  { unfold busy, get_blocks_tasks in *. destruct (lhm_get q (pt_blocks_requests pt)); [done|by intros []]. }
  destruct (decide (q ∈ pt_idle_for_blocks pt)); destruct (decide (q ∈ pt_all pt)); tauto.
Qed.

Lemma busy_tasks pt q : busy pt q ↔ is_Some (get_blocks_tasks pt q).
Proof. unfold busy, get_blocks_tasks. by rewrite fmap_is_Some. Qed.

Lemma busy_status pt q : is_busy (status_of pt q) = bool_decide (busy pt q).
Proof.
  unfold status_of. destruct (get_blocks_tasks pt q) as [b|] eqn:E.
  - rewrite bool_decide_eq_true_2; [done|]. apply busy_tasks. by eexists.
  - rewrite bool_decide_eq_false_2; [by repeat case_decide|]. rewrite busy_tasks, E. by intros [].
Qed.

(** Two states of the tasks that agree on tasks, known and unuseful peers. *)
Lemma status_same pt pt' q : tasks_ok pt → tasks_ok pt' → get_blocks_tasks pt' q = get_blocks_tasks pt q →
  (q ∈ pt_unuseful pt' ↔ q ∈ pt_unuseful pt) → (q ∈ pt_all pt' ↔ q ∈ pt_all pt) → status_of pt' q = status_of pt q.
Proof.
  intros H H' E Hu Ha. rewrite !status_alt, E by done. destruct (get_blocks_tasks pt q); [done|].
  repeat case_decide; tauto.
Qed.

(** A step that moves one peer: the others keep what decides their state. *)
Lemma states_eq_set pt pt' st peer x : states_eq pt st → tasks_ok pt' →
  (∀ q, q ≠ peer → get_blocks_tasks pt' q = get_blocks_tasks pt q) →
  (∀ q, q ≠ peer → q ∈ pt_unuseful pt' ↔ q ∈ pt_unuseful pt) → (∀ q, q ≠ peer → q ∈ pt_all pt' ↔ q ∈ pt_all pt) →
  status_of pt' peer = x → states_eq pt' (set_status peer x st).
Proof.
  intros [Hok Hst] Hok' Hg Hu Ha Hx. split; [done|]. intros q. unfold set_status.
  destruct (decide (q = peer)) as [->|Hq]; [done|]. rewrite <-Hst. apply status_same; auto.
Qed.

Lemma states_eq_same pt pt' st : states_eq pt st → tasks_ok pt' →
  pt_blocks_requests pt' = pt_blocks_requests pt → pt_unuseful pt' = pt_unuseful pt → pt_all pt' = pt_all pt →
  states_eq pt' st.
Proof.
  intros [Hok Hst] Hok' Hb Hu Ha. split; [done|]. intros q. rewrite <-Hst.
  apply status_same; try done; [|by rewrite Hu|by rewrite Ha]. unfold get_blocks_tasks. by rewrite Hb.
Qed.

Lemma penalize_unuseful peer pt : pt_unuseful (penalize peer pt).2 = pt_unuseful pt.
Proof. unfold penalize. destruct (pt_stats pt !! peer) as [s|]; [|done]. by destruct (ps_trust s). Qed.

Lemma elem_union_ne (X : gset PeerIndex) p q : q ≠ p → q ∈ {[p]} ∪ X ↔ q ∈ X.
Proof. set_solver. Qed.

Lemma elem_difference_ne (X : gset PeerIndex) p q : q ≠ p → q ∈ X ∖ {[p]} ↔ q ∈ X.
Proof. set_solver. Qed.

Lemma step_useful peer pt st : states_eq pt st → ∃ pt', useful_peer peer pt = Some pt' ∧
  states_eq pt' (match st peer with None | Some Unuseful => set_status peer (Some Idle) st | _ => st end).
Proof.
  intros Heq. pose proof Heq as [Hok Hst]. destruct (useful_peer_ok peer pt Hok) as (pt' & E & Hok' & Eb & Ea & Eu).
  exists pt'. split; [done|]. rewrite <-Hst.
  assert (∀ q, get_blocks_tasks pt' q = get_blocks_tasks pt q) as Eg.
  { intros q. unfold get_blocks_tasks. by rewrite Eb. }
  assert (status_of pt' peer = match status_of pt peer with None | Some Unuseful => Some Idle | x => x end) as Hp.
  { rewrite !status_alt, Eg, Eu, Ea by done. destruct (get_blocks_tasks pt peer); [done|].
    rewrite decide_False, decide_True by set_solver. by repeat case_decide. }
  assert (states_eq pt' (set_status peer (status_of pt' peer) st)) as H.
  { apply (states_eq_set pt); [done|done|done| | |done]; intros q Hq;
      [rewrite Eu; by apply elem_difference_ne|rewrite Ea; by apply elem_union_ne]. }
  rewrite Hp in H. destruct (status_of pt peer) as [[]|] eqn:Es; try done;
    (split; [done|]; intros q; rewrite (proj2 H q); unfold set_status;
     destruct (decide (q = peer)) as [->|]; [by rewrite <-Hst|done]).
Qed.

Lemma step_unuseful peer pt st : states_eq pt st →
  if is_busy (st peer) then unuseful_peer peer pt = None ∧ disconnect peer pt = None
  else (∃ pt', unuseful_peer peer pt = Some pt' ∧ states_eq pt' (set_status peer (Some Unuseful) st)) ∧
       (∃ pt', disconnect peer pt = Some pt' ∧ states_eq pt' (set_status peer None st)).
Proof.
  intros Heq. pose proof Heq as [Hok Hst]. rewrite <-Hst, busy_status. case_bool_decide as Hb; [by apply unuseful_peer_busy|].
  assert (get_blocks_tasks pt peer = None) as Eg by (rewrite busy_tasks in Hb; by apply eq_None_not_Some).
  split.
  - destruct (unuseful_peer_ok peer pt Hok Hb) as (pt' & E & Hok' & Eb & Ea & Eu). exists pt'. split; [done|].
    apply (states_eq_set pt); [done|done| | | |].
    + intros q _. unfold get_blocks_tasks. by rewrite Eb.
    + intros q Hq. rewrite Eu. by apply elem_union_ne.
    + intros q Hq. rewrite Ea. by apply elem_union_ne.
    + rewrite status_alt by done. assert (get_blocks_tasks pt' peer = None) as ->.
      { rewrite <-Eg. unfold get_blocks_tasks. by rewrite Eb. }
      rewrite Eu, decide_True by set_solver. done.
  - destruct (disconnect_ok peer pt Hok Hb) as (pt' & E & Hok' & Eb & Ea & Eu). exists pt'. split; [done|].
    assert (∀ q, get_blocks_tasks pt' q = get_blocks_tasks pt q) as Eg'.
    { intros q. unfold get_blocks_tasks. by rewrite Eb. }
    apply (states_eq_set pt); [done|done|done| | |].
    1-2: intros q Hq; rewrite ?Eu, ?Ea; by apply elem_difference_ne.
    rewrite status_alt, Eg', Eg, Eu, Ea by done. rewrite !decide_False by set_solver. done.
Qed.

Lemma step_blocks_requested now now' peer hashes pt st : states_eq pt st →
  ∃ pt', on_blocks_requested now now' peer hashes pt = Some pt' ∧
    states_eq pt' (set_status peer (Some (Busy (list_to_set hashes ∪ blocks_of (st peer)))) st).
Proof.
  intros Heq. pose proof Heq as [Hok Hst].
  destruct (on_blocks_requested_ok now now' peer hashes pt Hok) as (pt' & E & Hok' & Easked & Hb & Eg & Ea & Eu).
  exists pt'. split; [done|]. apply (states_eq_set pt); [done|done|done| | |].
  { intros q Hq. rewrite Eu. by apply elem_difference_ne. }
  { intros q Hq. rewrite Ea. by apply elem_union_ne. }
  assert (busy pt' peer) as [s Es]%busy_tasks by (apply Hb; by left). specialize (Easked peer).
  rewrite decide_True in Easked by done. unfold asked in Easked. rewrite Es in Easked. cbn in Easked.
  unfold status_of at 1. rewrite Es, Easked. do 3 f_equal. rewrite <-Hst. unfold status_of.
  destruct (get_blocks_tasks pt peer); [done|]. by repeat case_decide.
Qed.

Lemma step_block_received now now' peer h pt st : states_eq pt st →
  ∃ pt', on_block_received now now' peer h pt = Some pt' ∧
    states_eq pt' (match st peer with
      | Some (Busy s) => set_status peer (Some (from_option Busy Idle (tasks_without h (Some s)))) st
      | _ => st
      end).
Proof.
  intros Heq. pose proof Heq as [Hok Hst].
  destruct (on_block_received_ok now now' peer h pt Hok) as (pt' & E & Hok' & Eg & Ea & Eu).
  exists pt'. split; [done|]. rewrite <-Hst.
  assert (∀ q, q ≠ peer → get_blocks_tasks pt' q = get_blocks_tasks pt q) as Eo.
  { intros q Hq. by rewrite Eg, decide_False. }
  specialize (Eg peer). rewrite decide_True in Eg by done.
  unfold status_of at 1. destruct (get_blocks_tasks pt peer) as [s|] eqn:Es.
  - apply (states_eq_set pt); [done|done|done|by rewrite Eu|by rewrite Ea|].
    rewrite status_alt, Eg by done. destruct (tasks_without h (Some s)) as [s'|]; [done|]. cbn.
    assert (busy pt peer) as Hb by (apply busy_tasks; by eexists). rewrite Eu, Ea.
    rewrite decide_False; [rewrite decide_True; [done|]|].
    + apply (tk_all _ Hok). tauto.
    + intros Hu. by apply (tk_unuseful _ Hok) in Hu as [_ []].
  - assert (states_eq pt' st) as H.
    { split; [done|]. intros q. rewrite <-Hst. apply status_same; try done; [|by rewrite Eu|by rewrite Ea].
      destruct (decide (q = peer)) as [->|]; [by rewrite Eg, Es|by apply Eo]. }
    by repeat case_decide.
Qed.

Lemma states_step_sim op pt st : states_eq pt st →
  match op with TkTakeBack peer => match st peer with Some Idle | Some (Busy _) => True | _ => False end | _ => True end →
  match states_step op st with
  | Some st' => ∃ pt', tasks_step op pt = Some pt' ∧ states_eq pt' st'
  | None => tasks_step op pt = None
  end.
Proof.
  intros Heq Hpre. pose proof Heq as [Hok Hst]. destruct op as [p|p|p|n n' p h|p|n n' p hs|n p|hs|p|p| |p]; cbn [states_step tasks_step].
  - by apply step_useful.
  - pose proof (step_unuseful p pt st Heq) as H. destruct (is_busy (st p)); apply H.
  - pose proof (step_unuseful p pt st Heq) as H. destruct (is_busy (st p)); apply H.
  - by apply step_block_received.
  - eexists. split; [done|]. by apply (states_eq_same pt); try done; apply on_headers_received_ok.
  - by apply step_blocks_requested.
  - destruct (on_headers_requested_ok n p pt Hok) as (pt' & E & Hok' & Eb & Ea & Eu). exists pt'. split; [done|].
    assert (∀ q, get_blocks_tasks pt' q = get_blocks_tasks pt q) as Eg by (intros q; unfold get_blocks_tasks; by rewrite Eb).
    rewrite <-Hst. rewrite status_alt by done. pose proof (tk_all _ Hok p) as Ha. pose proof (tk_unuseful _ Hok p) as Hun.
    destruct (decide (p ∈ pt_all pt)) as [Hp|Hp].
    + assert (states_eq pt' st) by (apply (states_eq_same pt); try done; rewrite Ea; clear -Hp; set_solver).
      destruct (get_blocks_tasks pt p); [done|]. by case_decide.
    + assert (get_blocks_tasks pt p = None) as -> by (apply eq_None_not_Some; rewrite <-busy_tasks; tauto).
      rewrite decide_False by tauto. apply (states_eq_set pt); [done|done|done| | |].
      1-2: intros q Hq; rewrite ?Eu, ?Ea; by apply elem_union_ne.
      rewrite status_alt by done. rewrite Eg. assert (get_blocks_tasks pt p = None) as -> by
        (apply eq_None_not_Some; rewrite <-busy_tasks; tauto). rewrite Eu, decide_True by set_solver. done.
  - eexists. split; [done|]. destruct (on_blocks_failure_ok hs pt Hok) as [H1 H2].
    apply (states_eq_same pt); try done; unfold on_blocks_failure; by destruct (blocks_failures hs (pt_blocks_stats pt)).
  - eexists. split; [done|]. destruct (penalize_ok p pt Hok) as (H1 & H2 & H3).
    apply (states_eq_same pt); try done. apply penalize_unuseful.
  - eexists. split; [done|]. destruct (on_peer_headers_failure_ok p pt Hok) as (H1 & H2).
    apply (states_eq_same pt); try done; unfold on_peer_headers_failure; [by rewrite penalize_unuseful|].
    unfold penalize. cbn [pt_stats]. destruct (pt_stats pt !! p) as [s|]; [|done]. by destruct (ps_trust s).
  - eexists. split; [done|]. destruct (tasks_reset_ok pt Hok) as [Hok' Hn]. split; [done|]. intros q.
    rewrite <-Hst. rewrite !status_alt by done. unfold get_blocks_tasks at 1. rewrite Hn. cbn.
    pose proof (tk_all _ Hok q) as Ha. destruct (get_blocks_tasks pt q) eqn:Eg.
    + rewrite decide_True; [done|]. apply Ha. right; right. apply busy_tasks. by eexists.
    + destruct (decide (q ∈ pt_all pt)); [by case_decide|]. by rewrite decide_False by tauto.
  - destruct (reset_blocks_tasks_spec p pt) as (_ & _ & Eg & Ea & Eu & Ei & _).
    assert (p ∈ pt_all pt ∧ p ∉ pt_unuseful pt) as [Hp Hnu].
    { pose proof (tk_all _ Hok p) as Ha. pose proof (tk_unuseful _ Hok p) as Hun. rewrite <-Hst in Hpre. rewrite status_alt in Hpre by done.
      destruct (get_blocks_tasks pt p) eqn:E; [|by repeat case_decide].
      assert (busy pt p) by (apply busy_tasks; by eexists). tauto. }
    assert (tasks_ok (reset_blocks_tasks p pt).2) as Hok' by (by apply reset_blocks_tasks_ok).
    eexists. split; [done|]. apply (states_eq_set pt); [done|done| |by rewrite Eu|by rewrite Ea|].
    + intros q Hq. unfold get_blocks_tasks. by rewrite Eg, decide_False.
    + rewrite status_alt by done. unfold get_blocks_tasks. rewrite Eg, decide_True by done. cbn. by rewrite Eu, Ea, decide_False, decide_True.
Qed.

Definition tasks_run (ops : list TasksOp) (pt : PeersTasks M) : option (PeersTasks M) :=
  foldl (λ x op, y ← x; tasks_step op y) (Some pt) ops.

Definition states_run (ops : list TasksOp) (st : States) : option States :=
  foldl (λ x op, y ← x; states_step op y) (Some st) ops.

Lemma foldl_none {A B} (f : A → B → option A) (l : list B) : foldl (λ x b, a ← x; f a b) None l = None.
Proof. by induction l. Qed.

Lemma states_run_sim ops pt st : states_eq pt st → takes_back_useful ops st →
  match states_run ops st with
  | Some st' => ∃ pt', tasks_run ops pt = Some pt' ∧ states_eq pt' st'
  | None => tasks_run ops pt = None
  end.
Proof.
  revert pt st. induction ops as [|op ops IH]; intros pt st Heq Hl; [by exists pt|].
  destruct Hl as [Hpre Hl]. unfold states_run, tasks_run. cbn [foldl mbind option_bind].
  pose proof (states_step_sim op pt st Heq Hpre) as Hstep. destruct (states_step op st) as [st'|].
  - destruct Hstep as (pt' & -> & Heq'). by apply IH.
  - rewrite Hstep, (foldl_none (λ st op, states_step op st)). apply (foldl_none (λ pt op, tasks_step op pt)).
Qed.

Lemma lhm_keys_spec {A} (m : M A) q : q ∈ lhm_keys m ↔ is_Some (lhm_get q m).
Proof.
  unfold lhm_keys. rewrite elem_of_list_to_set. rewrite <-not_eq_None_Some, lhm_get_None.
  split; [tauto|]. apply dec_stable.
Qed.

(** C34: every peer the client knows is in one state.  Whatever sequence of
    calls the client makes, as long as it takes tasks back only from useful
    peers, [PeersTasks] follows a map from peers to states (unuseful, idle, busy
    with a set of blocks): a block that arrives leaves its sender's set, and the
    last one makes it idle; a request makes any peer busy; no peer is lost or
    in two states, so the three groups add up to all peers, and the useful
    peers are the idle and the busy ones.  The assertions fail exactly when a
    busy peer is excluded or dropped. *)
Theorem peers_tasks_refine (ops : list TasksOp) :
  takes_back_useful ops (λ _, None) →
  match states_run ops (λ _, None) with
  | Some st =>
      ∃ pt, tasks_run ops peers_tasks_default = Some pt ∧
        (∀ q, status_of pt q = st q) ∧
        (∀ q, q ∈ pt_all pt ↔ is_Some (st q)) ∧
        (∀ q, q ∈ useful_peers pt ↔ st q = Some Idle ∨ is_busy (st q) = true) ∧
        size (pt_all pt) =
          (size (pt_unuseful pt) + size (pt_idle_for_blocks pt) + size (lhm_keys (pt_blocks_requests pt)))%nat
  | None => tasks_run ops peers_tasks_default = None
  end.
Proof.
  intros Hl. assert (states_eq peers_tasks_default (λ _, None)) as H0.
  { split; [apply tasks_ok_default|]. intros q. unfold status_of, get_blocks_tasks. cbn. rewrite lhm_get_new. cbn.
    by rewrite !decide_False by apply not_elem_of_empty. }
  pose proof (states_run_sim ops peers_tasks_default (λ _, None) H0 Hl) as Hsim.
  destruct (states_run ops (λ _, None)) as [st|]; [|apply Hsim]. destruct Hsim as (pt & E & Hok & Hst).
  pose proof Hok as [Hall Hun Hid _ _ _].
  assert (∀ q, status_of pt q = if decide (q ∈ pt_all pt) then
      if decide (q ∈ pt_unuseful pt) then Some Unuseful
      else Some (from_option Busy Idle (get_blocks_tasks pt q)) else None) as Hs.
  { intros q. specialize (Hall q). specialize (Hun q). rewrite busy_tasks in Hall, Hun. rewrite status_alt by done.
    destruct (get_blocks_tasks pt q) as [b|].
    - assert (is_Some (Some b)) by eauto. rewrite decide_True, decide_False by tauto. done.
    - repeat case_decide; try done; tauto. }
  exists pt. split; [done|]. split; [done|]. split_and!.
  - intros q. rewrite <-Hst, Hs. repeat case_decide; split; try done; by intros [].
  - intros q. unfold useful_peers. rewrite elem_of_hash_order, elem_of_difference, <-Hst, Hs.
    repeat case_decide; [naive_solver| |naive_solver]. destruct (get_blocks_tasks pt q); cbn; naive_solver.
  - rewrite <-!size_union by (intros q; rewrite ?elem_of_union, ?lhm_keys_spec;
      specialize (Hun q); specialize (Hid q); unfold busy in *; tauto).
    f_equal. apply set_eq. intros q. rewrite !elem_of_union, lhm_keys_spec, Hall. unfold busy. tauto.
Qed.
End peers_tasks.

(** ** Examples *)

#[local] Open Scope Z_scope.

#[local] Instance example_peer_order : HashOrder PeerIndex := elements_order.
#[local] Instance example_hash_order : HashOrder H256 := elements_order.

(** Peer 7 is asked for two blocks and sends both; peer 8 is excluded. *)
Definition example_tasks_ops : list TasksOp :=
  let t := f64_of_Z 1 in
  [TkUseful 7; TkUseful 8; TkBlocksRequested t t 7 [hash_from_u8 1; hash_from_u8 2];
   TkBlockReceived t t 7 (hash_from_u8 1); TkBlockReceived t t 7 (hash_from_u8 2); TkUnuseful 8].

Lemma peers_tasks_refine_witness :
  takes_back_useful example_tasks_ops (λ _, None) ∧
  ∃ pt, tasks_run (M:=AssocMap PeerIndex) example_tasks_ops peers_tasks_default = Some pt ∧
    status_of pt 7 = Some Idle ∧ status_of pt 8 = Some Unuseful.
Proof.
  assert (takes_back_useful example_tasks_ops (λ _, None)) as Hl by (vm_compute; tauto). split; [exact Hl|].
  pose proof (peers_tasks_refine (M:=AssocMap PeerIndex) example_tasks_ops Hl) as H.
  assert (∃ st, states_run example_tasks_ops (λ _, None) = Some st ∧ st 7 = Some Idle ∧ st 8 = Some Unuseful)
    as (st & E & E7 & E8).
  { eexists. split; [reflexivity|]. vm_compute. by split. }
  rewrite E in H. destruct H as (pt & Ep & Hst & _). exists pt. split; [exact Ep|].
  rewrite !Hst. by split.
Defined.

(** The set of peers without pending headers requests: a peer asked for its
    headers when it connected, whose first answer is a block, is in it with the
    request still pending. *)
Example idle_with_pending_headers :
  let t := f64_of_Z 1 in
  (pt ← unuseful_peer 5 (peers_tasks_default (M:=AssocMap PeerIndex)); pt ← on_headers_requested t 5 pt; pt ← useful_peer 5 pt;
   Some (bool_decide (5 ∈ pt_idle_for_headers pt), lhm_contains 5 (pt_headers_requests pt))) = Some (true, true).
Proof. reflexivity. Qed.
