(* ===== verification/OrphanPool.v ===== *)
(** * Blocks that wait for their parents ([sync/src/utils/orphan_blocks_pool.rs])

    Blocks that arrived before their parents, by the hash of the parent, and
    the time at which those that nobody asked for came.  Taking the blocks of a
    parent out takes all their descendants, in an order in which parents come
    first. *)

From S2P Require Import Prelude External Primitives Serialization Compact Crypto Chain.
From S2P Require Import SpeedMeter Collections.
From stdpp Require Import gmap.

Section pool.
Context {V : VrfOps} {M : Type → Type} {L : LinkedHashMap H256 M} {OH : HashOrder H256}.

Abbreviation Orphans := (gmap H256 (gmap H256 IndexedBlock)).

(** src: sync/src/utils/orphan_blocks_pool.rs 8-16 OrphanBlocksPool *)
Record OrphanBlocksPool := mkPool {
  orphaned_blocks : Orphans;
  unknown_blocks : M f64;
}.

Definition ib_parent (b : IndexedBlock) : H256 := previous_header_hash (ih_raw (ib_header b)).

(** src: sync/src/utils/orphan_blocks_pool.rs 20-25 new *)
Definition pool_new : OrphanBlocksPool := mkPool ∅ lhm_new.

(** src: sync/src/utils/orphan_blocks_pool.rs 28-30 len *)
Definition pool_len (pool : OrphanBlocksPool) : nat := size (orphaned_blocks pool).

(** src: sync/src/utils/orphan_blocks_pool.rs 33-35 contains_unknown_block *)
Definition contains_unknown_block (hash : H256) (pool : OrphanBlocksPool) : bool :=
  lhm_contains hash (unknown_blocks pool).

(** src: sync/src/utils/orphan_blocks_pool.rs 43-48 insert_orphaned_block *)
Definition insert_orphaned_block (block : IndexedBlock) (pool : OrphanBlocksPool) : OrphanBlocksPool :=
  let parent := ib_parent block in
  mkPool (<[parent := <[ib_hash block := block]> (default ∅ (orphaned_blocks pool !! parent))]> (orphaned_blocks pool))
    (unknown_blocks pool).

(** src: sync/src/utils/orphan_blocks_pool.rs 51-58 insert_unknown_block *)
Definition insert_unknown_block (now : f64) (block : IndexedBlock) (pool : OrphanBlocksPool) :
    option OrphanBlocksPool :=
  let '(previous_value, unknown) := lhm_insert (ib_hash block) now (unknown_blocks pool) in
  _ ← rust_assert (bool_decide (previous_value = None));
  Some (insert_orphaned_block block (mkPool (orphaned_blocks pool) unknown)).

(** [for hash in hashes { self.unknown_blocks.remove(hash) }] *)
Definition remove_unknown (hashes : list H256) (unknown : M f64) : M f64 :=
  foldl (λ u h, snd (lhm_remove h u)) unknown hashes.

(** The loop of [remove_blocks_for_parent]: each round takes one hash off the
    queue, and puts blocks on it that it takes out of the pool. *)
Fixpoint remove_for_parent_loop (fuel : nat) (queue : list H256) (pool : OrphanBlocksPool)
    (removed : list IndexedBlock) : option (list IndexedBlock * OrphanBlocksPool) :=
  match queue with
  | [] => Some (removed, pool)
  | parent_hash :: queue =>
      match fuel with
      | O => None
      | S fuel =>
          match orphaned_blocks pool !! parent_hash with
          | None => remove_for_parent_loop fuel queue pool removed
          | Some orphaned =>
              let keys := (hm_iter orphaned).*1 in
              remove_for_parent_loop fuel (queue ++ keys)
                (mkPool (delete parent_hash (orphaned_blocks pool)) (remove_unknown keys (unknown_blocks pool)))
                (removed ++ (hm_iter orphaned).*2)
          end
      end
  end.

(** The number of blocks in the pool, which bounds the rounds. *)
Definition pool_blocks (orphans : Orphans) : nat := sum_list (size ∘ snd <$> map_to_list orphans).

(** src: sync/src/utils/orphan_blocks_pool.rs 73-89 remove_blocks_for_parent *)
Definition remove_blocks_for_parent (hash : H256) (pool : OrphanBlocksPool) :
    option (list IndexedBlock * OrphanBlocksPool) :=
  remove_for_parent_loop (S (pool_blocks (orphaned_blocks pool))) [hash] pool [].

(** The hashes that [retain] takes out, in the order it meets them. *)
Definition retained_out (hashes : gset H256) (orphans : Orphans) : list H256 :=
  e ← hm_iter orphans; filter (λ h, is_Some (e.2 !! h)) (hash_order hashes).

Definition retain_without (hashes : gset H256) (orphans : Orphans) : Orphans :=
  omap (λ m, let m := filter (λ kv, kv.1 ∉ hashes) m in if decide (m = ∅) then None else Some m) orphans.

Fixpoint remove_all_for_parents (hashes : list H256) (pool : OrphanBlocksPool) (removed : list H256) :
    option (list H256 * OrphanBlocksPool) :=
  match hashes with
  | [] => Some (removed, pool)
  | hash :: hashes =>
      '(blocks, pool) ← remove_blocks_for_parent hash pool;
      remove_all_for_parents hashes pool (removed ++ (ib_hash <$> blocks))
  end.

(** src: sync/src/utils/orphan_blocks_pool.rs 92-115 remove_blocks *)
Definition remove_blocks (hashes : gset H256) (pool : OrphanBlocksPool) : option (list H256 * OrphanBlocksPool) :=
  let removed := retained_out hashes (orphaned_blocks pool) in
  let pool := mkPool (retain_without hashes (orphaned_blocks pool)) (remove_unknown removed (unknown_blocks pool)) in
  remove_all_for_parents (hash_order hashes) pool removed.

(** src: sync/src/utils/orphan_blocks_pool.rs 61-71 remove_known_blocks *)
Definition remove_known_blocks (pool : OrphanBlocksPool) : option (list H256 * OrphanBlocksPool) :=
  let hashes := e ← hm_iter (orphaned_blocks pool); (hm_iter e.2).*1 in
  let orphans_to_remove : gset H256 :=
    list_to_set (filter (λ h, lhm_contains h (unknown_blocks pool) = false) hashes) in
  '(_, pool) ← remove_blocks orphans_to_remove pool;
  Some (hash_order orphans_to_remove, pool).

(** ** What is in the pool *)

Context {LL : LinkedHashMapLaws H256 M}.

Definition in_pool (orphans : Orphans) (b : IndexedBlock) : Prop :=
  ∃ m, orphans !! ib_parent b = Some m ∧ m !! ib_hash b = Some b.

(** Blocks are filed under their parents and their hashes, and every unknown
    block is in the pool. *)
Definition orphans_ok (orphans : Orphans) : Prop :=
  ∀ p m h b, orphans !! p = Some m → m !! h = Some b → ib_parent b = p ∧ ib_hash b = h.

Record pool_ok (pool : OrphanBlocksPool) : Prop := {
  po_filed : orphans_ok (orphaned_blocks pool);
  po_unknown h : is_Some (lhm_get h (unknown_blocks pool)) →
    ∃ b, in_pool (orphaned_blocks pool) b ∧ ib_hash b = h;
}.

(** The blocks of the pool that descend from [p]. *)
Inductive descends (orphans : Orphans) (p : H256) : IndexedBlock → Prop :=
| descends_child b : in_pool orphans b → ib_parent b = p → descends orphans p b
| descends_step b b' : descends orphans p b' → in_pool orphans b → ib_parent b = ib_hash b' → descends orphans p b.

Lemma descends_in orphans p b : descends orphans p b → in_pool orphans b.
Proof. by destruct 1. Qed.

Lemma descends_mono (o o' : Orphans) p b : (∀ b, in_pool o b → in_pool o' b) → descends o p b → descends o' p b.
Proof. intros Hin. induction 1; [apply descends_child|eapply descends_step]; eauto. Qed.

Lemma descends_trans o p b b' : descends o p b' → descends o (ib_hash b') b → descends o p b.
Proof. intros Hb'. induction 1; [eapply descends_step|eapply (descends_step _ _ _ b'0)]; eauto. Qed.

Lemma in_pool_delete (o : Orphans) p b : in_pool (delete p o) b ↔ in_pool o b ∧ ib_parent b ≠ p.
Proof.
  unfold in_pool. destruct (decide (ib_parent b = p)) as [->|Hne].
  - rewrite lookup_delete_eq. naive_solver.
  - rewrite lookup_delete_ne by done. naive_solver.
Qed.

Lemma values_iter (m : gmap H256 IndexedBlock) b : b ∈ (hm_iter m).*2 ↔ ∃ h, m !! h = Some b.
Proof.
  rewrite list_elem_of_fmap. split.
  - intros ([h b'] & -> & Hin). apply elem_of_hm_iter in Hin. by exists h.
  - intros [h Hh]. exists (h, b). split; [done|]. by apply elem_of_hm_iter.
Qed.

(** The blocks filed under one parent. *)
Lemma children_iter (o : Orphans) p m b : orphans_ok o → o !! p = Some m →
  b ∈ (hm_iter m).*2 ↔ in_pool o b ∧ ib_parent b = p.
Proof.
  intros Hok Hm. rewrite values_iter. split.
  - intros [h Hh]. destruct (Hok _ _ _ _ Hm Hh) as [<- <-]. split; [|done]. by exists m.
  - intros [(m' & Hm' & Hb) <-]. exists (ib_hash b). congruence.
Qed.

Lemma children_hashes (o : Orphans) p m : orphans_ok o → o !! p = Some m → ib_hash <$> (hm_iter m).*2 = (hm_iter m).*1.
Proof.
  intros Hok Hm. rewrite <-list_fmap_compose. apply list_fmap_ext. intros i [h b] Hi. cbn.
  apply list_elem_of_lookup_2, elem_of_hm_iter in Hi. by eapply Hok.
Qed.

Lemma children_keys (o : Orphans) p m h : orphans_ok o → o !! p = Some m →
  h ∈ (hm_iter m).*1 ↔ ∃ b, in_pool o b ∧ ib_parent b = p ∧ ib_hash b = h.
Proof.
  intros Hok Hm. rewrite hm_iter_keys, elem_of_hash_order, elem_of_dom. split.
  - intros [b Hb]. exists b. destruct (Hok _ _ _ _ Hm Hb) as [<- <-]. split; [|done]. by exists m.
  - intros (b & (m' & Hm' & Hb) & <- & <-). exists b. congruence.
Qed.

(** Taking the children of [p] out and going on with them reaches the same
    blocks. *)
Lemma descends_unfold (o : Orphans) p m queue b : orphans_ok o → o !! p = Some m →
  (∃ x, x ∈ p :: queue ∧ descends o x b) ↔
  b ∈ (hm_iter m).*2 ∨ ∃ x, x ∈ queue ++ (hm_iter m).*1 ∧ descends (delete p o) x b.
Proof.
  intros Hok Hm. split.
  - intros (x & Hx & Hd). induction Hd as [b Hin Hp|b b' Hd IH Hin Hp].
    + destruct (decide (x = p)) as [->|Hne].
      * left. by eapply children_iter.
      * right. exists x. split; [set_solver|]. apply descends_child; [|done]. apply in_pool_delete. by subst.
    + destruct (decide (ib_parent b = p)) as [Hbp|Hbp]; [left; by eapply children_iter|].
      assert (in_pool (delete p o) b) as Hin' by (by apply in_pool_delete).
      right. destruct IH as [Hb'|(y & Hy & Hd')].
      * exists (ib_hash b'). split; [|by apply descends_child]. apply elem_of_app. right.
        eapply (children_keys o p m); [done..|]. exists b'. eapply children_iter in Hb'; [|done..]. naive_solver.
      * exists y. split; [done|]. by eapply descends_step.
  - assert (∀ b, in_pool (delete p o) b → in_pool o b) as Hsub by (intros b0 Hb0; by apply in_pool_delete in Hb0 as []).
    intros [Hb|(x & Hx & Hd)].
    + exists p. split; [set_solver|]. eapply children_iter in Hb as [? ?]; [|done..]. by apply descends_child.
    + apply (descends_mono _ o) in Hd; [|done]. apply elem_of_app in Hx as [Hx|Hx].
      * exists x. split; [set_solver|done].
      * eapply children_keys in Hx as (b' & Hb' & Hp & <-); [|done..]. exists p. split; [set_solver|].
        eapply descends_trans; [|done]. by apply descends_child.
Qed.

Lemma pool_blocks_delete (o : Orphans) p m : o !! p = Some m →
  pool_blocks o = (size m + pool_blocks (delete p o))%nat.
Proof. intros Hm. unfold pool_blocks. by rewrite <-(map_to_list_delete o p m) by done. Qed.

Lemma orphans_ok_delete o p : orphans_ok o → orphans_ok (delete p o).
Proof. intros Hok q m h b Hq Hb. apply lookup_delete_Some in Hq as [_ Hq]. by eapply Hok. Qed.

Lemma remove_unknown_get l (u : M f64) h :
  lhm_get h (remove_unknown l u) = if decide (h ∈ l) then None else lhm_get h u.
Proof.
  unfold remove_unknown. revert u. induction l as [|x l IH]; intros u; cbn [foldl].
  - by rewrite decide_False by apply not_elem_of_nil.
  - rewrite IH. destruct (decide (h ∈ l)); [by rewrite decide_True by (by right)|].
    destruct (decide (h = x)) as [->|Hne]; [rewrite decide_True by left; apply lhm_get_remove_eq|].
    rewrite decide_False by (rewrite elem_of_cons; tauto). by apply lhm_get_remove_ne.
Qed.

(** Every block comes after its parent, unless the parent is in the queue. *)
Definition parents_first (roots : list H256) (l : list IndexedBlock) : Prop :=
  ∀ i b, l !! i = Some b → ib_parent b ∈ roots ∨ ∃ j b', (j < i)%nat ∧ l !! j = Some b' ∧ ib_hash b' = ib_parent b.

Lemma remove_for_parent_loop_spec fuel queue pool removed :
  orphans_ok (orphaned_blocks pool) → (pool_blocks (orphaned_blocks pool) + length queue ≤ fuel)%nat →
  ∃ new pool', remove_for_parent_loop fuel queue pool removed = Some (removed ++ new, pool') ∧
    (∀ b, b ∈ new ↔ ∃ x, x ∈ queue ∧ descends (orphaned_blocks pool) x b) ∧
    NoDup new ∧ parents_first queue new ∧
    orphans_ok (orphaned_blocks pool') ∧
    (∀ b, in_pool (orphaned_blocks pool') b ↔ in_pool (orphaned_blocks pool) b ∧ b ∉ new) ∧
    (∀ h, lhm_get h (unknown_blocks pool') =
       if decide (h ∈ ib_hash <$> new) then None else lhm_get h (unknown_blocks pool)).
Proof.
  revert queue pool removed. induction fuel as [|fuel IH]; intros queue pool removed Hok Hfuel.
  all: destruct queue as [|p queue]; [exists [], pool; cbn; rewrite app_nil_r|].
  1,3: split_and!; try done; [split; [by intros ?%not_elem_of_nil|by intros (? & ?%not_elem_of_nil & _)]|by apply NoDup_nil_2|set_solver].
  { cbn in Hfuel. lia. }
  cbn [remove_for_parent_loop]. destruct (orphaned_blocks pool !! p) as [m|] eqn:Hm.
  - destruct (IH (queue ++ (hm_iter m).*1)
      (mkPool (delete p (orphaned_blocks pool)) (remove_unknown (hm_iter m).*1 (unknown_blocks pool)))
      (removed ++ (hm_iter m).*2)) as (new & pool' & E & Hin & Hnd & Hpf & Hok' & Hleft & Hun).
    + by apply orphans_ok_delete.
    + cbn [orphaned_blocks]. rewrite (pool_blocks_delete _ _ _ Hm) in Hfuel. cbn in Hfuel.
      rewrite length_app, hm_iter_keys, hash_order_perm. rewrite <-(size_dom m) in Hfuel. unfold size, set_size in Hfuel. cbn in Hfuel. lia.
    + cbn [orphaned_blocks unknown_blocks] in *. exists ((hm_iter m).*2 ++ new), pool'.
      rewrite E, (assoc_L app). split; [done|].
      assert (∀ b, b ∈ new → in_pool (orphaned_blocks pool) b ∧ ib_parent b ≠ p) as Hnew.
      { intros b Hb. apply Hin in Hb as (x & _ & Hd). by apply descends_in, in_pool_delete in Hd. }
      assert (∀ h, h ∈ ib_hash <$> (hm_iter m).*2 ↔ h ∈ (hm_iter m).*1) as Hkeys.
      { intros h. by rewrite (children_hashes _ _ _ Hok Hm). }
      split_and!.
      * intros b. rewrite elem_of_app, Hin. symmetry. by apply descends_unfold.
      * apply NoDup_app. split_and!; [|intros b Hb Hb'|done].
        -- apply (NoDup_fmap_1 ib_hash). rewrite (children_hashes _ _ _ Hok Hm), hm_iter_keys. apply hash_order_nodup.
        -- apply (children_iter _ _ _ _ Hok Hm) in Hb as [_ Hb]. by apply Hnew in Hb' as [_ []].
      * intros i b Hi. apply lookup_app_Some in Hi as [Hi|[Hlen Hi]].
        -- left. apply list_elem_of_lookup_2 in Hi. apply (children_iter _ _ _ _ Hok Hm) in Hi as [_ ->]. left.
        -- destruct (Hpf _ _ Hi) as [Hq|(j & b' & Hj & Hb' & Hp)].
           ++ apply elem_of_app in Hq as [Hq|Hq]; [left; by right|]. right.
              apply Hkeys in Hq. apply list_elem_of_fmap in Hq as (b' & Hp & Hb').
              apply list_elem_of_lookup in Hb' as [j Hj]. exists j, b'.
              pose proof (lookup_lt_Some _ _ _ Hj). split_and!; [lia|by apply lookup_app_l_Some|done].
           ++ right. exists (length (hm_iter m).*2 + j)%nat, b'. split_and!; [lia| |done].
              rewrite lookup_app_r by lia. by replace (length (hm_iter m).*2 + j - length (hm_iter m).*2)%nat with j by lia.
      * done.
      * intros b. rewrite Hleft, in_pool_delete, not_elem_of_app, (children_iter _ _ _ _ Hok Hm). tauto.
      * intros h. rewrite Hun, fmap_app, remove_unknown_get.
        destruct (decide (h ∈ ib_hash <$> new)); [by rewrite decide_True by set_solver|].
        destruct (decide (h ∈ (hm_iter m).*1)) as [Hk|Hk]; rewrite <-Hkeys in Hk;
          [by rewrite decide_True by set_solver|by rewrite decide_False by set_solver].
  - destruct (IH queue pool removed Hok) as (new & pool' & E & Hin & Hnd & Hpf & Hok' & Hleft & Hun).
    { cbn in Hfuel. lia. }
    exists new, pool'. split_and!; try done.
    + intros b. rewrite Hin. split.
      * intros (x & Hx & Hd). exists x. split; [by right|done].
      * intros (x & Hx & Hd). apply elem_of_cons in Hx as [->|Hx]; [|by exists x]. exfalso.
        induction Hd as [b (m & Hm' & _) <-|b b' _ IHd _ _]; [congruence|done].
    + intros i b Hi. destruct (Hpf _ _ Hi) as [?|?]; [left; by right|by right].
Qed.

Lemma remove_for_parent_spec hash pool : orphans_ok (orphaned_blocks pool) →
  ∃ new pool', remove_blocks_for_parent hash pool = Some (new, pool') ∧
    (∀ b, b ∈ new ↔ descends (orphaned_blocks pool) hash b) ∧
    NoDup new ∧ parents_first [hash] new ∧ orphans_ok (orphaned_blocks pool') ∧
    (∀ b, in_pool (orphaned_blocks pool') b ↔ in_pool (orphaned_blocks pool) b ∧ b ∉ new) ∧
    (∀ h, lhm_get h (unknown_blocks pool') =
       if decide (h ∈ ib_hash <$> new) then None else lhm_get h (unknown_blocks pool)).
Proof.
  intros Hok. unfold remove_blocks_for_parent.
  destruct (remove_for_parent_loop_spec (S (pool_blocks (orphaned_blocks pool))) [hash] pool [] Hok)
    as (new & pool' & E & Hin & H); [cbn; lia|].
  exists new, pool'. split; [done|]. split; [|done]. intros b. rewrite Hin.
  setoid_rewrite list_elem_of_singleton. naive_solver.
Qed.

(** ** Removal by hash *)

(** A block goes when its hash is named or an ancestor of it is. *)
Definition doomed_by (o : Orphans) (hashes : gset H256) (b : IndexedBlock) : Prop :=
  ib_hash b ∈ hashes ∨ ∃ h, h ∈ hashes ∧ descends o h b.

Lemma retain_without_in (o : Orphans) hashes b : orphans_ok o →
  in_pool (retain_without hashes o) b ↔ in_pool o b ∧ ib_hash b ∉ hashes.
Proof.
  intros Hok. unfold in_pool, retain_without. setoid_rewrite lookup_omap_Some. split.
  - intros (m & (m0 & Hm & E) & Hb). case_decide; [done|]. injection Hm as <-.
    apply map_lookup_filter_Some in Hb as [Hb Hh]. cbn in Hh. eauto.
  - intros [(m & Hm & Hb) Hh]. exists (filter (λ kv, kv.1 ∉ hashes) m).
    assert (filter (λ kv, kv.1 ∉ hashes) m !! ib_hash b = Some b) as Hf by (by apply map_lookup_filter_Some).
    split; [|done]. exists m. split; [|done]. case_decide as He; [|done]. by rewrite He, lookup_empty in Hf.
Qed.

Lemma retain_without_ok (o : Orphans) hashes : orphans_ok o → orphans_ok (retain_without hashes o).
Proof.
  intros Hok p m h b Hm Hb. unfold retain_without in Hm. apply lookup_omap_Some in Hm as (m0 & Hm & E).
  case_decide; [done|]. injection Hm as <-. apply map_lookup_filter_Some in Hb as [Hb _]. by eapply Hok.
Qed.

Lemma retained_out_in (o : Orphans) hashes h : orphans_ok o →
  h ∈ retained_out hashes o ↔ h ∈ hashes ∧ ∃ b, in_pool o b ∧ ib_hash b = h.
Proof.
  intros Hok. unfold retained_out. rewrite list_elem_of_bind. split.
  - intros ([p m] & Hh & Hin). apply elem_of_hm_iter in Hin. apply list_elem_of_filter in Hh as [[b Hb] Hh].
    cbn in Hb. split; [by apply elem_of_hash_order in Hh|]. destruct (Hok _ _ _ _ Hin Hb) as [<- <-].
    exists b. split; [|done]. by exists m.
  - intros [Hh (b & (m & Hm & Hb) & <-)]. exists (ib_parent b, m). split; [|by apply elem_of_hm_iter].
    apply list_elem_of_filter. split; [by exists b|]. by apply elem_of_hash_order.
Qed.

(** In the pool without the descendants of [h0], the descendants of [h] are the
    remaining ones. *)
Lemma descends_remaining (o o' : Orphans) h0 h b :
  (∀ b, in_pool o' b ↔ in_pool o b ∧ ¬ descends o h0 b) → in_pool o' b →
  descends o' h b ↔ descends o h b.
Proof.
  intros Ho Hb. split; [apply descends_mono; naive_solver|]. intros Hd.
  induction Hd as [b Hin Hp|b b' Hd IH Hin Hp]; [by apply descends_child|].
  apply (descends_step _ _ _ b'); [|done|done]. apply IH. apply Ho. split; [by eapply descends_in|].
  intros Hd'. apply Ho in Hb as [_ []]. by eapply descends_step.
Qed.

Lemma remove_all_for_parents_spec hashes pool removed : orphans_ok (orphaned_blocks pool) →
  ∃ new pool', remove_all_for_parents hashes pool removed = Some (removed ++ (ib_hash <$> new), pool') ∧
    orphans_ok (orphaned_blocks pool') ∧
    (∀ b, b ∈ new ↔ ∃ h, h ∈ hashes ∧ descends (orphaned_blocks pool) h b) ∧
    (∀ b, in_pool (orphaned_blocks pool') b ↔ in_pool (orphaned_blocks pool) b ∧ b ∉ new) ∧
    (∀ h, lhm_get h (unknown_blocks pool') =
       if decide (h ∈ ib_hash <$> new) then None else lhm_get h (unknown_blocks pool)).
Proof.
  revert pool removed. induction hashes as [|x hashes IH]; intros pool removed Hok; cbn [remove_all_for_parents].
  { exists [], pool. cbn. rewrite app_nil_r. split_and!; try done; [|set_solver].
    intros b. split; [by intros ?%not_elem_of_nil|by intros (? & ?%not_elem_of_nil & _)]. }
  destruct (remove_for_parent_spec x pool Hok) as (l1 & p1 & -> & Hl1 & _ & _ & Hok1 & Hp1 & Hu1).
  cbn [mbind option_bind]. destruct (IH p1 (removed ++ (ib_hash <$> l1)) Hok1) as (l2 & p2 & -> & Hok2 & Hl2 & Hp2 & Hu2).
  exists (l1 ++ l2), p2. rewrite fmap_app, (assoc_L app). split; [done|]. split; [done|].
  assert (∀ b, in_pool (orphaned_blocks p1) b ↔
    in_pool (orphaned_blocks pool) b ∧ ¬ descends (orphaned_blocks pool) x b) as Hp1'.
  { intros b. by rewrite Hp1, Hl1. }
  split_and!.
  - intros b. rewrite elem_of_app, Hl1, Hl2. split.
    + intros [Hd|(h & Hh & Hd)]; [exists x; split; [left|done]|]. exists h. split; [by right|].
      apply (descends_remaining (orphaned_blocks pool) (orphaned_blocks p1) x); [done|by eapply descends_in|done].
    + intros (h & Hh & Hd). destruct (decide (b ∈ l1)) as [Hb|Hb]; rewrite Hl1 in Hb; [by left|].
      apply elem_of_cons in Hh as [->|Hh]; [done|]. right. exists h. split; [done|].
      apply (descends_remaining (orphaned_blocks pool) _ x); [done| |done].
      apply Hp1'. split; [by eapply descends_in|done].
  - intros b. rewrite Hp2, Hp1, not_elem_of_app. tauto.
  - intros h. rewrite Hu2, Hu1. repeat case_decide; set_solver.
Qed.

(** [remove_blocks] on the blocks of the pool: those named and all that depend
    on them go; the answer lists their hashes. *)
Lemma remove_blocks_spec hashes pool : orphans_ok (orphaned_blocks pool) →
  ∃ removed pool', remove_blocks hashes pool = Some (removed, pool') ∧
    orphans_ok (orphaned_blocks pool') ∧
    (∀ b, in_pool (orphaned_blocks pool') b ↔
       in_pool (orphaned_blocks pool) b ∧ ¬ doomed_by (orphaned_blocks pool) hashes b) ∧
    (∀ h, h ∈ removed ↔ ∃ b, in_pool (orphaned_blocks pool) b ∧ doomed_by (orphaned_blocks pool) hashes b ∧ ib_hash b = h) ∧
    (∀ h, lhm_get h (unknown_blocks pool') =
       if decide (h ∈ removed) then None else lhm_get h (unknown_blocks pool)).
Proof.
  intros Hok. unfold remove_blocks. set (o := orphaned_blocks pool) in *.
  set (pool1 := mkPool (retain_without hashes o) (remove_unknown (retained_out hashes o) (unknown_blocks pool))).
  destruct (remove_all_for_parents_spec (hash_order hashes) pool1 (retained_out hashes o))
    as (new & pool' & E & Hok' & Hnew & Hleft & Hun); [by apply retain_without_ok|].
  exists (retained_out hashes o ++ (ib_hash <$> new)), pool'. split; [done|]. split; [done|].
  cbn [orphaned_blocks unknown_blocks pool1] in *.
  assert (∀ b, b ∈ new → in_pool o b ∧ ∃ h, h ∈ hashes ∧ descends o h b) as Hn1.
  { intros b (h & Hh%elem_of_hash_order & Hd)%Hnew.
    assert (descends o h b) as Hd' by (revert Hd; apply descends_mono; intros b0; rewrite retain_without_in by done; tauto).
    split; [by eapply descends_in|by exists h]. }
  assert (∀ b, in_pool o b → doomed_by o hashes b → ib_hash b ∈ hashes ∨ b ∈ new) as Hn2.
  { intros b Hin [Hh|(h & Hh & Hd)]; [by left|]. induction Hd as [b _ Hp|b b' Hd IH _ Hp].
    - destruct (decide (ib_hash b ∈ hashes)); [by left|]. right. apply Hnew. exists h.
      split; [by apply elem_of_hash_order|]. apply descends_child; [|done]. by apply retain_without_in.
    - destruct (decide (ib_hash b ∈ hashes)) as [|Hnh]; [by left|]. right. apply Hnew.
      assert (in_pool (retain_without hashes o) b) as Hr by (by apply retain_without_in).
      destruct IH as [Hb'|Hb']; [by eapply descends_in|..].
      + exists (ib_hash b'). split; [by apply elem_of_hash_order|by apply descends_child].
      + apply Hnew in Hb' as (h' & Hh' & Hd'). exists h'. split; [done|]. by eapply descends_step. }
  split_and!.
  - intros b. rewrite Hleft, retain_without_in by done. split.
    + intros [[Hin Hnh] Hnn]. split; [done|]. intros Hd. by destruct (Hn2 b Hin Hd).
    + intros [Hin Hd]. split; [split; [done|]|]; intros H; apply Hd; [by left|right; by apply Hn1].
  - intros h. rewrite elem_of_app, retained_out_in, list_elem_of_fmap by done. split.
    + intros [[Hh (b & Hb & <-)]|(b & -> & Hb)]; exists b; split_and!; try done; [by left|by apply Hn1|right; by apply Hn1].
    + intros (b & Hin & Hd & <-). destruct (Hn2 b Hin Hd); [left; split; [done|by exists b]|right; by exists b].
  - intros h. rewrite Hun, remove_unknown_get. repeat case_decide; set_solver.
Qed.

(** [remove_known_blocks] leaves unknown blocks only. *)
Lemma remove_known_spec pool : pool_ok pool →
  ∃ removed pool', remove_known_blocks pool = Some (removed, pool') ∧ pool_ok pool' ∧
    (∀ b, in_pool (orphaned_blocks pool') b → in_pool (orphaned_blocks pool) b ∧
       is_Some (lhm_get (ib_hash b) (unknown_blocks pool))) ∧
    (∀ h, h ∈ removed ↔ lhm_get h (unknown_blocks pool) = None ∧ ∃ b, in_pool (orphaned_blocks pool) b ∧ ib_hash b = h).
Proof.
  intros [Hok Hunk]. unfold remove_known_blocks. set (hashes := list_to_set _ : gset H256).
  assert (∀ h, h ∈ hashes ↔ lhm_get h (unknown_blocks pool) = None ∧
    ∃ b, in_pool (orphaned_blocks pool) b ∧ ib_hash b = h) as Hh.
  { intros h. unfold hashes. rewrite elem_of_list_to_set, list_elem_of_filter, list_elem_of_bind.
    unfold lhm_contains. rewrite bool_decide_eq_false, <-eq_None_not_Some. f_equiv. split.
    - intros ([p m] & Hin & Hm). apply elem_of_hm_iter in Hm.
      apply (children_keys (orphaned_blocks pool) p m h Hok Hm) in Hin as (b & Hb & _ & <-). by exists b.
    - intros (b & (m & Hm & Hb) & <-). exists (ib_parent b, m). split; [|by apply elem_of_hm_iter].
      apply (children_keys (orphaned_blocks pool) (ib_parent b) m _ Hok Hm). exists b. split; [by exists m|done]. }
  destruct (remove_blocks_spec hashes pool Hok) as (removed & pool' & -> & Hok' & Hin & Hrem & Hun).
  cbn [mbind option_bind]. eexists _, pool'. split; [done|]. split_and!.
  - split; [done|]. intros h. rewrite Hun. destruct (decide (h ∈ removed)) as [|Hnr]; [by intros []|]. intros Hs.
    destruct (Hunk h Hs) as (b & Hb & <-). exists b. split; [|done]. apply Hin. split; [done|].
    intros Hd. apply Hnr, Hrem. by exists b.
  - intros b [Hb Hd]%Hin. split; [done|]. apply not_eq_None_Some. intros Hn. apply Hd. left. apply Hh. eauto.
  - intros h. by rewrite elem_of_hash_order.
Qed.

(** ** Insertion *)

Lemma insert_orphaned_in block (o : Orphans) u b : orphans_ok o →
  in_pool (orphaned_blocks (insert_orphaned_block block (mkPool o u))) b ↔
    b = block ∨ in_pool o b ∧ ¬ (ib_hash b = ib_hash block ∧ ib_parent b = ib_parent block).
Proof.
  intros Hok. unfold insert_orphaned_block, in_pool. cbn.
  destruct (decide (ib_parent b = ib_parent block)) as [Hp|Hp].
  - rewrite Hp, lookup_insert_eq. destruct (decide (ib_hash b = ib_hash block)) as [Hh|Hh].
    + rewrite Hh. split; [|intros [->|[_ []]]; [|done]].
      * intros (m & [= <-] & Hb). rewrite lookup_insert_eq in Hb. left. congruence.
      * eexists. split; [done|]. by rewrite lookup_insert_eq.
    + split.
      * intros (m & [= <-] & Hb). rewrite lookup_insert_ne in Hb by done. right. split; [|tauto].
        destruct (o !! ib_parent block) as [m|]; cbn in Hb; [eauto|by rewrite lookup_empty in Hb].
      * intros [->|[(m & Hm & Hb) _]]; [done|]. eexists. split; [done|]. rewrite lookup_insert_ne by done. by rewrite Hm.
  - rewrite lookup_insert_ne by done. split; [intros H; right; split; [done|tauto]|]. intros [->|[H _]]; done.
Qed.

Lemma insert_orphaned_ok block (o : Orphans) u : orphans_ok o →
  orphans_ok (orphaned_blocks (insert_orphaned_block block (mkPool o u))).
Proof.
  intros Hok p m h b. unfold insert_orphaned_block. cbn. destruct (decide (p = ib_parent block)) as [->|Hp].
  - rewrite lookup_insert_eq. intros [= <-]. destruct (decide (h = ib_hash block)) as [->|Hh].
    + rewrite lookup_insert_eq. by intros [= <-].
    + rewrite lookup_insert_ne by done. destruct (o !! ib_parent block) as [m|] eqn:Hm; cbn.
      * intros Hb. by eapply Hok.
      * by rewrite lookup_empty.
  - rewrite lookup_insert_ne by done. apply Hok.
Qed.

(** Taking orphans out of the pool.  [remove_blocks_for_parent] ends and
    returns exactly the blocks of the pool that descend from the given hash,
    each once and after its parent, so that they can be verified in that order;
    the other blocks stay, and the returned ones are not unknown any more.
    [remove_blocks] takes out exactly the named blocks and all that descend
    from a named hash, and answers with their hashes. *)
Theorem orphans_removed_exact (hash : H256) (hashes : gset H256) (pool : OrphanBlocksPool) : pool_ok pool →
  (∃ blocks pool', remove_blocks_for_parent hash pool = Some (blocks, pool') ∧ pool_ok pool' ∧
     (∀ b, b ∈ blocks ↔ descends (orphaned_blocks pool) hash b) ∧ NoDup blocks ∧ parents_first [hash] blocks ∧
     (∀ b, in_pool (orphaned_blocks pool') b ↔
        in_pool (orphaned_blocks pool) b ∧ ¬ descends (orphaned_blocks pool) hash b) ∧
     (∀ h, contains_unknown_block h pool' = true ↔
        contains_unknown_block h pool = true ∧ h ∉ ib_hash <$> blocks)) ∧
  (∃ removed pool', remove_blocks hashes pool = Some (removed, pool') ∧ pool_ok pool' ∧
     (∀ b, in_pool (orphaned_blocks pool') b ↔
        in_pool (orphaned_blocks pool) b ∧ ¬ doomed_by (orphaned_blocks pool) hashes b) ∧
     (∀ h, h ∈ removed ↔
        ∃ b, in_pool (orphaned_blocks pool) b ∧ doomed_by (orphaned_blocks pool) hashes b ∧ ib_hash b = h)).
Proof.
  intros [Hok Hunk]. split.
  - destruct (remove_for_parent_spec hash pool Hok) as (l & pool' & E & Hl & Hnd & Hpf & Hok' & Hp & Hu).
    exists l, pool'. split; [done|]. split_and!; try done.
    + split; [done|]. intros h. rewrite Hu. case_decide as Hh; [by intros []|]. intros Hs.
      destruct (Hunk h Hs) as (b & Hb & <-). exists b. split; [|done]. apply Hp. split; [done|].
      intros Hbl. apply Hh. by apply list_elem_of_fmap_2.
    + intros b. by rewrite Hp, Hl.
    + intros h. unfold contains_unknown_block, lhm_contains. rewrite !bool_decide_eq_true, Hu.
      case_decide; [|naive_solver]. split; [by intros []|naive_solver].
  - destruct (remove_blocks_spec hashes pool Hok) as (l & pool' & E & Hok' & Hp & Hl & Hu).
    exists l, pool'. split; [done|]. split_and!; try done. split; [done|]. intros h. rewrite Hu.
    case_decide as Hh; [by intros []|]. intros Hs. destruct (Hunk h Hs) as (b & Hb & <-). exists b. split; [|done].
    apply Hp. split; [done|]. intros Hd. apply Hh, Hl. by exists b.
Qed.
End pool.

(** ** Examples *)

Section pool_examples.
Import Reference.
#[local] Open Scope Z_scope.
#[local] Instance pool_order : HashOrder H256 := elements_order.

Definition orphan (h parent : Z) : IndexedBlock :=
  mkIndexedBlock (mkIndexedBlockHeader (hash_from_u8 h)
    (mkBlockHeader 1 (hash_from_u8 parent) 4 (mkCompact 0x207fffff) (exist _ 6 I) 100 123456789)) [].

(** A chain 1 - 2 - 3, and 4 next to 2. *)
Definition example_pool : OrphanBlocksPool (M:=AssocMap H256) :=
  foldr insert_orphaned_block pool_new [orphan 2 1; orphan 4 1; orphan 3 2].

Lemma example_pool_ok : pool_ok example_pool.
Proof.
  split.
  - unfold example_pool. cbn [foldr].
    assert (∀ b (p : OrphanBlocksPool (M:=AssocMap H256)), orphans_ok (orphaned_blocks p) →
      orphans_ok (orphaned_blocks (insert_orphaned_block b p))) as Hins.
    { intros b [o u] Ho. by apply insert_orphaned_ok. }
    repeat apply Hins. intros p m h b Hp. cbn in Hp. by rewrite lookup_empty in Hp.
  - intros h Hh. change (unknown_blocks example_pool) with (lhm_new : AssocMap H256 f64) in Hh.
    rewrite lhm_get_new in Hh. by destruct Hh.
Qed.

Lemma orphans_removed_exact_witness :
  ∃ blocks pool', remove_blocks_for_parent (hash_from_u8 2) example_pool = Some (blocks, pool') ∧
    pool_ok pool' ∧ orphan 3 2 ∈ blocks.
Proof.
  destruct (orphans_removed_exact (hash_from_u8 2) ∅ example_pool example_pool_ok)
    as [(blocks & pool' & E & Hok & Hin & _) _].
  exists blocks, pool'. split; [exact E|]. split; [exact Hok|]. apply Hin. apply descends_child; [|reflexivity].
  unfold in_pool. eexists. split; reflexivity.
Defined.

(** [len] counts the parents waited for, not the blocks: three blocks, two
    parents. *)
Example pool_len_parents : pool_len example_pool = 2%nat ∧ pool_blocks (orphaned_blocks example_pool) = 3%nat.
Proof. split; reflexivity. Qed.
End pool_examples.
