(* ===== verification/Peers.v ===== *)
(** * The connected peers ([sync/src/synchronization_peers.rs],
    [sync/src/utils/known_hash_filter.rs], [sync/src/utils/connection_filter.rs])

    The connections of the node with what each peer is known to have.  A
    connection is opaque; the operations answer with the connections they
    close. *)

From S2P Require Import Prelude External Primitives Serialization Compact Crypto Chain.
From S2P Require Import Message Collections PeersTasks.
From stdpp Require Import gmap.
#[local] Open Scope Z_scope.

(** ** Known hashes *)

(** src: sync/src/utils/known_hash_filter.rs 4-5 MAX_KNOWN_HASHES_LEN *)
Definition MAX_KNOWN_HASHES_LEN : nat := 2048.

(** src: sync/src/utils/known_hash_filter.rs 7-12 KnownHashType *)
Inductive KnownHashType := KnownBlockHash.

#[global] Instance KnownHashType_eq_dec : EqDecision KnownHashType.
Proof. solve_decision. Defined.

Section filter.
Context {M : Type → Type} {L : LinkedHashMap H256 M}.

(** src: sync/src/utils/known_hash_filter.rs 14-19 KnownHashFilter *)
Definition KnownHashFilter : Type := M KnownHashType.

(** src: sync/src/utils/known_hash_filter.rs 23-31 insert *)
Definition filter_insert (hash : H256) (hash_type : KnownHashType) (f : KnownHashFilter) : KnownHashFilter :=
  if lhm_contains hash f then f
  else
    let f := snd (lhm_insert hash hash_type f) in
    if (MAX_KNOWN_HASHES_LEN <? length (lhm_iter f))%nat then snd (lhm_pop_front f) else f.

(** src: sync/src/utils/known_hash_filter.rs 40-45 contains *)
Definition filter_contains (hash : H256) (hash_type : KnownHashType) (f : KnownHashFilter) : bool :=
  from_option (λ stored, bool_decide (stored = hash_type)) false (lhm_get hash f).

(** src: sync/src/utils/known_hash_filter.rs 48-53 filter_block *)
Definition filter_passes_block (hash : H256) (f : KnownHashFilter) : bool :=
  from_option (λ stored, bool_decide (stored ≠ KnownBlockHash)) true (lhm_get hash f).

(** ** Peers *)

(** src: sync/src/synchronization_peers.rs 10-19 BlockAnnouncementType *)
Inductive BlockAnnouncementType := SendInventory | SendHeaders | DoNotAnnounce.

(** src: sync/src/synchronization_peers.rs 21-28 TransactionAnnouncementType *)
Inductive TransactionAnnouncementType := TxSendInventory | TxDoNotAnnounce.

(** src: sync/src/synchronization_peers.rs 88-100 Peer *)
Record Peer {C : Type} := mkPeer {
  peer_connection : C;
  peer_services : Services;
  peer_filter : KnownHashFilter;
  peer_block_announcement_type : BlockAnnouncementType;
  peer_transaction_announcement_type : TransactionAnnouncementType;
}.
Arguments Peer : clear implicits.

Context {C : Type} {OP : HashOrder PeerIndex}.

(** src: sync/src/synchronization_peers.rs 102-108 PeersImpl *)
Definition PeersImpl : Type := gmap PeerIndex (Peer C).
Implicit Types (peers : PeersImpl) (peer_index : PeerIndex).

(** src: sync/src/synchronization_peers.rs 111-119 new *)
Definition peer_new (services : Services) (connection : C) : Peer C :=
  mkPeer C connection services lhm_new SendInventory TxSendInventory.

(** The connections that are closed, and the peers that stay. *)
(** src: sync/src/synchronization_peers.rs 123-142 require_peer_services *)
Definition require_peer_services (services : Services) peers : list C * PeersImpl :=
  let leaving := filter (λ e, includes (peer_services e.2) services = true) (hm_iter peers) in
  (peer_connection ∘ snd <$> leaving, foldl (λ peers i, delete i peers) peers leaving.*1).

(** src: sync/src/synchronization_peers.rs 143-148 connection *)
Definition peers_connection peer_index peers : option C := peer_connection <$> peers !! peer_index.

(** src: sync/src/synchronization_peers.rs 152-154 enumerate *)
Definition peers_enumerate peers : list PeerIndex := (hm_iter peers).*1.

(** src: sync/src/synchronization_peers.rs 156-168 insert *)
Definition peers_insert peer_index (services : Services) (connection : C) peers : option PeersImpl :=
  _ ← rust_assert (bool_decide (peers !! peer_index = None));
  Some (<[peer_index := peer_new services connection]> peers).

(** src: sync/src/synchronization_peers.rs 170-174 remove *)
Definition peers_remove peer_index peers : PeersImpl := delete peer_index peers.

(** The connection of the peer is closed. *)
(** src: sync/src/synchronization_peers.rs 176-181 misbehaving *)
Definition peers_misbehaving peer_index peers : option C * PeersImpl :=
  (peer_connection <$> peers !! peer_index, delete peer_index peers).

(** src: sync/src/synchronization_peers.rs 183-188 dos *)
Definition peers_dos peer_index peers : option C * PeersImpl :=
  (peer_connection <$> peers !! peer_index, delete peer_index peers).

(** src: sync/src/synchronization_peers.rs 192-200 filter_block *)
Definition peers_filter_block peer_index (block : H256) peers : BlockAnnouncementType :=
  match peers !! peer_index with
  | Some peer => if filter_passes_block block (peer_filter peer) then peer_block_announcement_type peer
                 else DoNotAnnounce
  | None => DoNotAnnounce
  end.

Definition on_peer peer_index (f : Peer C → Peer C) peers : PeersImpl := alter f peer_index peers.

(** src: sync/src/synchronization_peers.rs 202-206 hash_known_as *)
Definition peers_hash_known_as peer_index (hash : H256) (hash_type : KnownHashType) peers : PeersImpl :=
  on_peer peer_index (λ p, mkPeer C (peer_connection p) (peer_services p)
    (filter_insert hash hash_type (peer_filter p)) (peer_block_announcement_type p)
    (peer_transaction_announcement_type p)) peers.

(** src: sync/src/synchronization_peers.rs 208-219 is_hash_known_as *)
Definition peers_is_hash_known_as peer_index (hash : H256) (hash_type : KnownHashType) peers : bool :=
  from_option (λ p, filter_contains hash hash_type (peer_filter p)) false (peers !! peer_index).

(** src: sync/src/synchronization_peers.rs 223-231 set_block_announcement_type *)
Definition set_block_announcement_type peer_index (t : BlockAnnouncementType) peers : PeersImpl :=
  on_peer peer_index (λ p, mkPeer C (peer_connection p) (peer_services p) (peer_filter p) t
    (peer_transaction_announcement_type p)) peers.

(** src: sync/src/synchronization_peers.rs 233-241 set_transaction_announcement_type *)
Definition set_transaction_announcement_type peer_index (t : TransactionAnnouncementType) peers : PeersImpl :=
  on_peer peer_index (λ p, mkPeer C (peer_connection p) (peer_services p) (peer_filter p)
    (peer_block_announcement_type p) t) peers.

(** ** What the filter remembers *)

Context {LL : LinkedHashMapLaws H256 M}.

Lemma filter_insert_keys hash t (f : KnownHashFilter) l : (lhm_iter f).*1 = l → (hash ∉ l) →
  (length l ≤ MAX_KNOWN_HASHES_LEN)%nat →
  (lhm_iter (filter_insert hash t f)).*1 = drop (S (length l) - MAX_KNOWN_HASHES_LEN) (l ++ [hash]).
Proof.
  intros <- Hh Hl. unfold filter_insert, lhm_contains.
  assert (lhm_get hash f = None) as Hn by (by apply lhm_get_None). rewrite Hn.
  rewrite bool_decide_eq_false_2 by (by intros []). rewrite length_fmap in *.
  pose proof (lhm_insert_fresh hash t f Hn) as E. rewrite E, length_app. cbn [length].
  case Nat.ltb_spec; intros Hlt.
  - rewrite lhm_pop_front_rest, E. replace (S (length (lhm_iter f)) - MAX_KNOWN_HASHES_LEN)%nat with 1%nat by lia.
    destruct (lhm_iter f) as [|e es]; cbn; [done|]. by rewrite fmap_app, drop_0.
  - rewrite E. replace (S (length (lhm_iter f)) - MAX_KNOWN_HASHES_LEN)%nat with O by lia.
    by rewrite drop_0, fmap_app.
Qed.

Lemma filter_inserts_keys (l : list H256) : NoDup l →
  (lhm_iter (foldl (λ f h, filter_insert h KnownBlockHash f) lhm_new l : KnownHashFilter)).*1 =
    drop (length l - MAX_KNOWN_HASHES_LEN) l.
Proof.
  induction l as [|h l IH] using rev_ind; intros Hnd; [cbn; by rewrite lhm_iter_new|].
  apply list.NoDup_app in Hnd as (Hl & Hh & _). rewrite foldl_app. cbn [foldl].
  rewrite (filter_insert_keys _ _ _ _ (IH Hl)).
  - rewrite length_drop, length_app. cbn [length].
    destruct (decide (length l ≤ MAX_KNOWN_HASHES_LEN)%nat) as [Hle|Hgt].
    + replace (length l - MAX_KNOWN_HASHES_LEN)%nat with O by lia. rewrite drop_0.
      f_equal. lia.
    + rewrite <-drop_app_le by lia. rewrite drop_drop. f_equal. lia.
  - intros Hin. assert (h ∈ l) as Hin' by (revert Hin; apply subseteq_drop). apply (Hh h Hin'). by left.
  - rewrite length_drop. lia.
Qed.

(** The filter remembers the last 2048 hashes.  After any number of distinct
    blocks were noted, a block is held back from the peer exactly if it is
    among the last 2048 of them, and no more than that are stored. *)
Theorem known_filter_recent (l : list H256) (hash : H256) : NoDup l →
  let f : KnownHashFilter := foldl (λ f h, filter_insert h KnownBlockHash f) lhm_new l in
  filter_passes_block hash f = negb (bool_decide (hash ∈ drop (length l - MAX_KNOWN_HASHES_LEN) l)) ∧
  filter_contains hash KnownBlockHash f = bool_decide (hash ∈ drop (length l - MAX_KNOWN_HASHES_LEN) l) ∧
  (length (lhm_iter f) ≤ MAX_KNOWN_HASHES_LEN)%nat.
Proof.
  intros Hnd f. pose proof (filter_inserts_keys l Hnd) as E. fold f in E.
  assert (lhm_get hash f = None ↔ hash ∉ drop (length l - MAX_KNOWN_HASHES_LEN) l) as Hn by (by rewrite lhm_get_None, E).
  unfold filter_passes_block, filter_contains. split_and!.
  - destruct (decide (hash ∈ drop (length l - MAX_KNOWN_HASHES_LEN) l)) as [Hin|Hout].
    + rewrite bool_decide_eq_true_2 by done. destruct (lhm_get hash f) as [[]|]; [done|]. by destruct (proj1 Hn eq_refl).
    + by rewrite (proj2 Hn Hout), bool_decide_eq_false_2.
  - destruct (decide (hash ∈ drop (length l - MAX_KNOWN_HASHES_LEN) l)) as [Hin|Hout].
    + rewrite bool_decide_eq_true_2 by done. destruct (lhm_get hash f) as [[]|]; [done|]. by destruct (proj1 Hn eq_refl).
    + by rewrite (proj2 Hn Hout), bool_decide_eq_false_2.
  - rewrite <-(length_fmap fst), E, length_drop. lia.
Qed.

(** ** Required services *)

Lemma foldl_delete_lookup (l : list PeerIndex) (m : PeersImpl) i :
  foldl (λ m i, delete i m) m l !! i = if decide (i ∈ l) then None else m !! i.
Proof.
  revert m. induction l as [|x l IH]; intros m; cbn [foldl].
  - by rewrite decide_False by apply not_elem_of_nil.
  - rewrite IH. destruct (decide (i ∈ l)); [by rewrite decide_True by (by right)|].
    destruct (decide (i = x)) as [->|Hne]; [rewrite decide_True by left; apply lookup_delete_eq|].
    rewrite decide_False by (rewrite elem_of_cons; tauto). by apply lookup_delete_ne.
Qed.

(** Requiring services drops the wrong peers.  [require_peer_services], which
    is to disconnect from peers with insufficient services, closes the
    connections of exactly the peers that do offer the required services and
    keeps all others. *)
Theorem require_services_inverted (services : Services) peers i p : peers !! i = Some p →
  let '(closed, peers') := require_peer_services services peers in
  if includes (peer_services p) services
  then peer_connection p ∈ closed ∧ peers' !! i = None
  else peers' !! i = Some p.
Proof.
  intros Hi. unfold require_peer_services. cbn. rewrite foldl_delete_lookup.
  assert (i ∈ (filter (λ e, includes (peer_services e.2) services = true) (hm_iter peers)).*1 ↔
    includes (peer_services p) services = true) as Hin.
  { rewrite list_elem_of_fmap. split.
    - intros ([j q] & -> & Hq). apply list_elem_of_filter in Hq as [Hs Hq]. apply elem_of_hm_iter in Hq. cbn [fst snd] in *.
      pose proof (eq_trans (eq_sym Hq) Hi) as Hqp. by injection Hqp as <-.
    - intros Hs. exists (i, p). split; [done|]. apply list_elem_of_filter. split; [done|]. by apply elem_of_hm_iter. }
  destruct (includes (peer_services p) services) eqn:Es.
  - rewrite decide_True by tauto. split; [|done]. apply list_elem_of_fmap. exists (i, p). split; [done|].
    apply list_elem_of_filter. split; [done|]. by apply elem_of_hm_iter.
  - rewrite decide_False; [done|]. rewrite Hin. done.
Qed.
End filter.

(** ** Examples *)

#[local] Instance example_peers_order : HashOrder PeerIndex := elements_order.

Lemma known_filter_recent_witness :
  let l : list H256 := [hash_from_u8 1; hash_from_u8 2] in
  let f : KnownHashFilter (M:=AssocMap H256) := foldl (λ f h, filter_insert h KnownBlockHash f) lhm_new l in
  filter_passes_block (hash_from_u8 2) f = false ∧ filter_passes_block (hash_from_u8 3) f = true.
Proof.
  assert (NoDup ([hash_from_u8 1; hash_from_u8 2] : list H256)) as Hnd.
  { apply (bool_decide_unpack _). vm_compute. exact I. }
  intros l f. split.
  - etrans; [exact (proj1 (known_filter_recent (M:=AssocMap H256) l (hash_from_u8 2) Hnd))|]. vm_compute. reflexivity.
  - etrans; [exact (proj1 (known_filter_recent (M:=AssocMap H256) l (hash_from_u8 3) Hnd))|]. vm_compute. reflexivity.
Defined.

(** A full node (services 1) is disconnected when services 1 are required, a
    peer without services is kept. *)
Lemma require_services_inverted_witness :
  let full : @Peer (AssocMap H256) Z := peer_new 1 7 in
  let peers : PeersImpl := <[1 := full]> (<[2 := peer_new 0 8]> ∅) in
  7 ∈ (require_peer_services 1 peers).1 ∧ (require_peer_services 1 peers).2 !! 1 = None.
Proof.
  exact (require_services_inverted (M:=AssocMap H256) 1
    (<[1 := peer_new 1 7]> (<[2 := peer_new 0 8]> ∅)) 1 (peer_new 1 7) eq_refl).
Defined.
