(* ===== verification/ClientCore.v ===== *)
(** * The synchronization client ([sync/src/synchronization_client_core.rs])

    The client asks peers for headers and blocks, keeps blocks that arrive out
    of order, hands blocks to the verifier and stores the verified ones.  Its
    state is one record of everything it owns; an operation is a computation
    over that state which may panic ([None]).  What leaves the client is
    recorded in order: tasks for the executor, connections closed, calls of the
    listener, futures run.  The readings of the two clocks are functions of how
    many readings were made; a reading the code skips may be skipped here or
    not. *)

From S2P Require Import Prelude External Primitives Serialization Compact Crypto Chain.
From S2P Require Import Storage Network Work Verification Kv KvRefine BlockChainDb ChainInv ChainOps.
From S2P Require Import HashQueue HeadersChain SyncChain.
From S2P Require Import Message MessageTypes SpeedMeter Collections PeersTasks OrphanPool Peers.
From Stdlib Require Import SpecFloat.
From stdpp Require Import gmap.
#[local] Open Scope Z_scope.

(** ** Constants and data *)

(** src: sync/src/synchronization_client_core.rs 28-52 MAX_SCHEDULED_HASHES *)
Definition MAX_SCHEDULED_HASHES : Z := 4 * 1024.
Definition MAX_REQUESTED_BLOCKS : Z := 256.
Definition MAX_VERIFYING_BLOCKS : Z := 256.
Definition MIN_BLOCKS_IN_REQUEST : Z := 32.
Definition MAX_BLOCKS_IN_REQUEST : Z := 128.
Definition NEAR_EMPTY_VERIFICATION_QUEUE_THRESHOLD_BLOCKS : nat := 20.
Definition NEAR_EMPTY_VERIFICATION_QUEUE_THRESHOLD_S : f64 := f64_of_Z 20.
Definition SYNC_SPEED_BLOCKS_TO_INSPECT : nat := 512.
Definition BLOCKS_SPEED_BLOCKS_TO_INSPECT : nat := 512.
Definition MIN_BLOCK_DUPLICATION_INTERVAL_S : f64 := f64_of_Z 10.
Definition MAX_BLOCKS_IN_DUPLICATE_REQUEST : Z := 4.
Definition MIN_BLOCKS_IN_DUPLICATE_REQUEST : Z := 8.

(** src: sync/src/synchronization_client_core.rs 89-94 Config *)
Record ClientConfig := mkClientConfig { close_connection_on_bad_block : bool }.

(** src: sync/src/synchronization_client_core.rs 141-150 State *)
Inductive State := Synchronizing (timestamp : f64) (num_of_blocks : Z) | NearlySaturated | Saturated.

(** src: sync/src/synchronization_client_core.rs 152-164 BlocksRequestLimits *)
Record BlocksRequestLimits := mkLimits {
  max_scheduled_hashes : Z;
  max_requested_blocks : Z;
  max_verifying_blocks : Z;
  min_blocks_in_request : Z;
  max_blocks_in_request : Z;
}.

(** src: sync/src/synchronization_client_core.rs 166-174 BlocksHeadersVerificationResult *)
Inductive BlocksHeadersVerificationResult := SkipHeaders | ErrorAt (index : nat) | SuccessHeaders.

(** src: sync/src/synchronization_client_core.rs 177-182 is_saturated *)
Definition is_saturated (s : State) : bool := match s with Saturated => true | _ => false end.

(** src: sync/src/synchronization_client_core.rs 184-189 is_synchronizing *)
Definition is_synchronizing (s : State) : bool := match s with Synchronizing _ _ => true | _ => false end.

(** src: sync/src/synchronization_client_core.rs 191-196 is_nearly_saturated *)
Definition is_nearly_saturated (s : State) : bool := match s with NearlySaturated => true | _ => false end.

(** src: sync/src/synchronization_client_core.rs 1300-1308 default *)
Definition limits_default : BlocksRequestLimits :=
  mkLimits MAX_SCHEDULED_HASHES MAX_REQUESTED_BLOCKS MAX_VERIFYING_BLOCKS MIN_BLOCKS_IN_REQUEST
    MAX_BLOCKS_IN_REQUEST.

(** src: sync/src/utils/synchronization_state.rs 7-15 SynchronizationState *)
Record SynchronizationState := mkSynchronizationState {
  ss_is_synchronizing : bool;
  ss_best_storage_block_height : Z;
}.

(** src: sync/src/utils/synchronization_state.rs 30-32 update_synchronizing *)
Definition update_synchronizing (b : bool) (s : SynchronizationState) : SynchronizationState :=
  mkSynchronizationState b (ss_best_storage_block_height s).

(** src: sync/src/utils/synchronization_state.rs 38-41 update_best_storage_block_height *)
Definition update_best_storage_block_height (h : Z) (s : SynchronizationState) : SynchronizationState :=
  mkSynchronizationState (ss_is_synchronizing s) h.

Definition RequestId : Type := Z.

Section client.
Context {U : U256Ops} {R : RugOps} {H : Sha256Ops} {V : VrfOps} {P : Profile}.
Context {T : Type} {K : KeyValueDatabase T}.
Context {MP : Type → Type} {LP : LinkedHashMap PeerIndex MP}.
Context {MH : Type → Type} {LH : LinkedHashMap H256 MH}.
Context {OP : HashOrder PeerIndex} {OH : HashOrder H256}.

(** The connections, the futures of waiting threads, the network of the
    verifier and the two clocks. *)
Context {C F : Type} (network : Network) (precise_time_s : nat → f64) (get_time : nat → Z).

(** src: sync/src/synchronization_executor.rs 14-33 Task *)
Inductive Task :=
| TIgnore (peer : PeerIndex) (id : RequestId)
| TGetData (peer : PeerIndex) (m : GetData)
| TGetHeaders (peer : PeerIndex) (m : GetHeaders)
| TBlock (peer : PeerIndex) (block : IndexedBlock)
| TNotFound (peer : PeerIndex) (m : NotFound)
| TInventory (peer : PeerIndex) (m : Inv)
| THeaders (peer : PeerIndex) (m : Headers) (id : option RequestId)
| TRelayNewBlock (block : IndexedBlock).

Inductive ClientEffect :=
| Execute (t : Task)
| CloseConnection (c : C)
| StateSwitched (synchronizing : bool)
| BestBlockInserted (hash : H256)
| RunFuture (f : F).

(** src: sync/src/synchronization_client_core.rs 96-133 SynchronizationClientCore *)
Record Core := mkCore {
  co_shared_state : SynchronizationState;
  co_state : State;
  co_peers : PeersImpl (M:=MH) (C:=C);
  co_peers_tasks : PeersTasks MP;
  co_chain : SyncChain T;
  co_orphaned_blocks_pool : OrphanBlocksPool (M:=MH);
  co_verify_headers : bool;
  co_verifying_blocks_by_peer : gmap H256 PeerIndex;
  co_verifying_blocks_futures : gmap PeerIndex (gset H256 * list F);
  co_do_not_relay : gset H256;
  co_block_speed_meter : AverageSpeedMeter;
  co_sync_speed_meter : AverageSpeedMeter;
  co_config : ClientConfig;
  co_listener : bool;
  co_last_dup_time : f64;
  co_readings : nat;
  co_effects : list ClientEffect;
}.

(** ** Computations of the client *)

Definition CM (A : Type) : Type := Core → option (A * Core).

#[global] Instance CM_ret : MRet CM := λ A a c, Some (a, c).
#[global] Instance CM_bind : MBind CM := λ A B k m c,
  match m c with Some (a, c') => k a c' | None => None end.

Definition cm_gets {A} (f : Core → A) : CM A := λ c, Some (f c, c).
Definition cm_lift {A} (o : option A) : CM A := λ c, a ← o; Some (a, c).

Definition set_shared (x : SynchronizationState) (c : Core) : Core :=
  mkCore x (co_state c) (co_peers c) (co_peers_tasks c) (co_chain c) (co_orphaned_blocks_pool c)
    (co_verify_headers c) (co_verifying_blocks_by_peer c) (co_verifying_blocks_futures c) (co_do_not_relay c)
    (co_block_speed_meter c) (co_sync_speed_meter c) (co_config c) (co_listener c) (co_last_dup_time c)
    (co_readings c) (co_effects c).

Definition set_state (x : State) (c : Core) : Core :=
  mkCore (co_shared_state c) x (co_peers c) (co_peers_tasks c) (co_chain c) (co_orphaned_blocks_pool c)
    (co_verify_headers c) (co_verifying_blocks_by_peer c) (co_verifying_blocks_futures c) (co_do_not_relay c)
    (co_block_speed_meter c) (co_sync_speed_meter c) (co_config c) (co_listener c) (co_last_dup_time c)
    (co_readings c) (co_effects c).

Definition set_peers (x : PeersImpl (M:=MH) (C:=C)) (c : Core) : Core :=
  mkCore (co_shared_state c) (co_state c) x (co_peers_tasks c) (co_chain c) (co_orphaned_blocks_pool c)
    (co_verify_headers c) (co_verifying_blocks_by_peer c) (co_verifying_blocks_futures c) (co_do_not_relay c)
    (co_block_speed_meter c) (co_sync_speed_meter c) (co_config c) (co_listener c) (co_last_dup_time c)
    (co_readings c) (co_effects c).

Definition set_tasks (x : PeersTasks MP) (c : Core) : Core :=
  mkCore (co_shared_state c) (co_state c) (co_peers c) x (co_chain c) (co_orphaned_blocks_pool c)
    (co_verify_headers c) (co_verifying_blocks_by_peer c) (co_verifying_blocks_futures c) (co_do_not_relay c)
    (co_block_speed_meter c) (co_sync_speed_meter c) (co_config c) (co_listener c) (co_last_dup_time c)
    (co_readings c) (co_effects c).

Definition set_chain (x : SyncChain T) (c : Core) : Core :=
  mkCore (co_shared_state c) (co_state c) (co_peers c) (co_peers_tasks c) x (co_orphaned_blocks_pool c)
    (co_verify_headers c) (co_verifying_blocks_by_peer c) (co_verifying_blocks_futures c) (co_do_not_relay c)
    (co_block_speed_meter c) (co_sync_speed_meter c) (co_config c) (co_listener c) (co_last_dup_time c)
    (co_readings c) (co_effects c).

Definition set_pool (x : OrphanBlocksPool (M:=MH)) (c : Core) : Core :=
  mkCore (co_shared_state c) (co_state c) (co_peers c) (co_peers_tasks c) (co_chain c) x
    (co_verify_headers c) (co_verifying_blocks_by_peer c) (co_verifying_blocks_futures c) (co_do_not_relay c)
    (co_block_speed_meter c) (co_sync_speed_meter c) (co_config c) (co_listener c) (co_last_dup_time c)
    (co_readings c) (co_effects c).

Definition set_verifying (x : gmap H256 PeerIndex) (y : gmap PeerIndex (gset H256 * list F)) (c : Core) : Core :=
  mkCore (co_shared_state c) (co_state c) (co_peers c) (co_peers_tasks c) (co_chain c) (co_orphaned_blocks_pool c)
    (co_verify_headers c) x y (co_do_not_relay c)
    (co_block_speed_meter c) (co_sync_speed_meter c) (co_config c) (co_listener c) (co_last_dup_time c)
    (co_readings c) (co_effects c).

Definition set_do_not_relay (x : gset H256) (c : Core) : Core :=
  mkCore (co_shared_state c) (co_state c) (co_peers c) (co_peers_tasks c) (co_chain c) (co_orphaned_blocks_pool c)
    (co_verify_headers c) (co_verifying_blocks_by_peer c) (co_verifying_blocks_futures c) x
    (co_block_speed_meter c) (co_sync_speed_meter c) (co_config c) (co_listener c) (co_last_dup_time c)
    (co_readings c) (co_effects c).

Definition set_meters (x y : AverageSpeedMeter) (c : Core) : Core :=
  mkCore (co_shared_state c) (co_state c) (co_peers c) (co_peers_tasks c) (co_chain c) (co_orphaned_blocks_pool c)
    (co_verify_headers c) (co_verifying_blocks_by_peer c) (co_verifying_blocks_futures c) (co_do_not_relay c)
    x y (co_config c) (co_listener c) (co_last_dup_time c) (co_readings c) (co_effects c).

Definition set_last_dup_time (x : f64) (c : Core) : Core :=
  mkCore (co_shared_state c) (co_state c) (co_peers c) (co_peers_tasks c) (co_chain c) (co_orphaned_blocks_pool c)
    (co_verify_headers c) (co_verifying_blocks_by_peer c) (co_verifying_blocks_futures c) (co_do_not_relay c)
    (co_block_speed_meter c) (co_sync_speed_meter c) (co_config c) (co_listener c) x
    (co_readings c) (co_effects c).

Definition add_reading (c : Core) : Core :=
  mkCore (co_shared_state c) (co_state c) (co_peers c) (co_peers_tasks c) (co_chain c) (co_orphaned_blocks_pool c)
    (co_verify_headers c) (co_verifying_blocks_by_peer c) (co_verifying_blocks_futures c) (co_do_not_relay c)
    (co_block_speed_meter c) (co_sync_speed_meter c) (co_config c) (co_listener c) (co_last_dup_time c)
    (S (co_readings c)) (co_effects c).

Definition add_effects (l : list ClientEffect) (c : Core) : Core :=
  mkCore (co_shared_state c) (co_state c) (co_peers c) (co_peers_tasks c) (co_chain c) (co_orphaned_blocks_pool c)
    (co_verify_headers c) (co_verifying_blocks_by_peer c) (co_verifying_blocks_futures c) (co_do_not_relay c)
    (co_block_speed_meter c) (co_sync_speed_meter c) (co_config c) (co_listener c) (co_last_dup_time c)
    (co_readings c) (co_effects c ++ l).

Definition cm_modify (f : Core → Core) : CM unit := λ c, Some (tt, f c).

(** A reading of a clock. *)
Definition now_s : CM f64 := λ c, Some (precise_time_s (co_readings c), add_reading c).
Definition now_wall : CM Z := λ c, Some (get_time (co_readings c), add_reading c).

Definition execute (t : Task) : CM unit := cm_modify (add_effects [Execute t]).

(** Calls of the chain, the peers' tasks and the pool. *)
Definition on_chain {A} (m : SM T A) : CM A := λ c,
  '(a, chain) ← m (co_chain c); Some (a, set_chain chain c).

Definition on_tasks (f : PeersTasks MP → option (PeersTasks MP)) : CM unit := λ c,
  pt ← f (co_peers_tasks c); Some (tt, set_tasks pt c).

Definition on_tasks_ret {A} (f : PeersTasks MP → A * PeersTasks MP) : CM A := λ c,
  let '(a, pt) := f (co_peers_tasks c) in Some (a, set_tasks pt c).

Definition on_pool {A} (f : OrphanBlocksPool (M:=MH) → option (A * OrphanBlocksPool (M:=MH))) : CM A := λ c,
  '(a, pool) ← f (co_orphaned_blocks_pool c); Some (a, set_pool pool c).

Definition close (r : option C * PeersImpl (M:=MH) (C:=C)) : CM unit :=
  cm_modify (λ c, add_effects (from_option (λ x, [CloseConnection x]) [] r.1) (set_peers r.2 c)).

(** [self.peers.misbehaving(peer_index, ...)] and [dos]. *)
Definition misbehaving (peer : PeerIndex) : CM unit := λ c, close (peers_misbehaving peer (co_peers c)) c.
Definition dos (peer : PeerIndex) : CM unit := λ c, close (peers_dos peer (co_peers c)) c.

Definition notify (e : ClientEffect) : CM unit := λ c,
  if co_listener c then Some (tt, add_effects [e] c) else Some (tt, c).

Definition cm_query {A} (f : Core → option A) : CM A := λ c, a ← f c; Some (a, c).

Definition chain_length (state : BlockState) : CM Z := cm_query (λ c, length_of_blocks_state (co_chain c) state).

Definition cm_when (b : bool) (m : CM unit) : CM unit := if b then m else mret tt.

Fixpoint cm_each {A} (f : A → CM unit) (l : list A) : CM unit :=
  match l with [] => mret tt | x :: l => _ ← f x; cm_each f l end.

(** ** States of synchronization *)

(** src: sync/src/synchronization_client_core.rs 939-960 print_synchronization_information *)
Definition print_synchronization_information : CM unit := λ c,
  match co_state c with
  | Synchronizing timestamp num_of_blocks =>
      (new_timestamp ← now_s;
       let timestamp_diff := f64_sub new_timestamp timestamp in
       new_num_of_blocks ← cm_gets (λ c, bb_number (sc_best_storage_block (co_chain c)));
       let blocks_diff := if num_of_blocks <? new_num_of_blocks then new_num_of_blocks - num_of_blocks else 0 in
       if f64_le (f64_of_Z 60) timestamp_diff || (1000 <=? blocks_diff) then
         t ← now_s; cm_modify (set_state (Synchronizing t new_num_of_blocks))
       else mret tt) c
  | _ => Some (tt, c)
  end.

(** src: sync/src/synchronization_client_core.rs 1099-1110 switch_to_synchronization_state *)
Definition switch_to_synchronization_state : CM unit := λ c,
  if is_synchronizing (co_state c) then Some (tt, c)
  else
    (_ ← notify (StateSwitched true);
     _ ← cm_modify (λ c, set_shared (update_synchronizing true (co_shared_state c)) c);
     t ← now_s;
     cm_modify (λ c, set_state (Synchronizing t (bb_number (sc_best_storage_block (co_chain c)))) c)) c.

(** src: sync/src/synchronization_client_core.rs 1113-1124 switch_to_nearly_saturated_state *)
Definition switch_to_nearly_saturated_state : CM unit := λ c,
  if is_nearly_saturated (co_state c) then Some (tt, c)
  else
    (_ ← notify (StateSwitched false);
     _ ← cm_modify (λ c, set_shared (update_synchronizing false (co_shared_state c)) c);
     cm_modify (set_state NearlySaturated)) c.

(** src: sync/src/synchronization_client_core.rs 1127-1166 switch_to_saturated_state *)
Definition switch_to_saturated_state : CM unit := λ c,
  if is_saturated (co_state c) then Some (tt, c)
  else
    (_ ← notify (StateSwitched false);
     _ ← cm_modify (λ c, set_shared (update_synchronizing false (co_shared_state c)) c);
     _ ← cm_modify (set_state Saturated);
     _ ← on_tasks (λ pt, Some (tasks_reset pt));
     removed_orphans ← on_pool remove_known_blocks;
     _ ← on_chain (forget_blocks removed_orphans);
     _ ← on_chain (forget_all_blocks_with_state Requested);
     _ ← on_chain (forget_all_blocks_with_state Scheduled);
     block_locator_hashes ← on_chain block_locator_hashes;
     peers ← cm_gets (λ c, hash_order (pt_all (co_peers_tasks c)));
     cm_each (λ peer, execute (TGetHeaders peer (with_block_locator_hashes block_locator_hashes))) peers) c.

(** ** Requests *)

(** [peers.len() - 1] *)
Definition usize_sub (a b : Z) : option Z :=
  if (a <? b) && overflow_checks then None else Some (wrap 64 (a - b)).

(** The loop over the sorted peers: each gets the next chunk, the last one the
    rest. *)
Fixpoint requests_loop (chunk_size last_peer_index : Z) (peers : list PeerIndex) (peer_index : Z)
    (hashes : list H256) (tasks : list Task) : CM (list Task * list H256) :=
  match peers with
  | [] => mret (tasks, hashes)
  | peer :: peers =>
      let peer_chunk_size :=
        if peer_index =? last_peer_index then length hashes
        else Nat.min (length hashes) (Z.to_nat chunk_size) in
      if (peer_chunk_size =? 0)%nat then mret (tasks, hashes)
      else
        let chunk_hashes := take peer_chunk_size hashes in
        t ← now_s; t' ← now_s;
        _ ← on_tasks (on_blocks_requested t t' peer chunk_hashes);
        let getdata := mkGetData (mkInventoryVector MessageBlock <$> chunk_hashes) in
        requests_loop chunk_size last_peer_index peers (peer_index + 1) (drop peer_chunk_size hashes)
          (tasks ++ [TGetData peer getdata])
  end.

(** src: sync/src/synchronization_client_core.rs 1046-1096 prepare_blocks_requests_tasks *)
Definition prepare_blocks_requests_tasks (limits : BlocksRequestLimits) (peers : list PeerIndex)
    (hashes : list H256) : CM (list Task) :=
  peers ← cm_gets (λ c, sort_peers_for_blocks (co_peers_tasks c) peers);
  let chunk_size := Z.min (max_blocks_in_request limits)
    (Z.max (wrap 32 (Z.of_nat (length hashes))) (min_blocks_in_request limits)) in
  last_peer_index ← cm_lift (usize_sub (Z.of_nat (length peers)) 1);
  '(tasks, hashes) ← requests_loop chunk_size last_peer_index peers 0 hashes [];
  _ ← cm_lift (rust_assert (length hashes =? 0)%nat);
  mret tasks.

(** The number of requests that are duplicated. *)
(** src: sync/src/synchronization_client_core.rs 743-757 execute_synchronization_tasks *)
Definition duplicate_len (synchronization_speed full_in empty_in : f64) (requested_hashes_len : Z) : Z :=
  let len := f64_as_u32 (f64_mul synchronization_speed (f64_sub full_in empty_in)) in
  let len := Z.min MAX_BLOCKS_IN_DUPLICATE_REQUEST len in
  Z.max MIN_BLOCKS_IN_DUPLICATE_REQUEST (Z.min requested_hashes_len len).

(** The time in which the verification queue will be empty, and all requests
    answered. *)
(** src: sync/src/synchronization_client_core.rs 702-722 execute_synchronization_tasks *)
Definition queue_empty_in (verifying_hashes_len : Z) (meter : AverageSpeedMeter) : f64 :=
  let verification_speed := speed meter in
  if verifying_hashes_len =? 0 then
    if (inspected_items_len meter <? NEAR_EMPTY_VERIFICATION_QUEUE_THRESHOLD_BLOCKS)%nat then f64_of_Z 60
    else f64_of_Z 0
  else if f64_lt verification_speed (f64_div (f64_of_Z 1) (f64_of_Z 100)) then f64_of_Z 60
  else f64_div (f64_of_Z verifying_hashes_len) verification_speed.

(** src: sync/src/synchronization_client_core.rs 723-731 execute_synchronization_tasks *)
Definition queue_full_in (requested_hashes_len : Z) (meter : AverageSpeedMeter) : f64 :=
  let synchronization_speed := speed meter in
  if f64_lt synchronization_speed (f64_div (f64_of_Z 1) (f64_of_Z 100)) then f64_of_Z 60
  else f64_div (f64_of_Z requested_hashes_len) synchronization_speed.

(** Requested blocks to ask idle peers for again. *)
(** src: sync/src/synchronization_client_core.rs 698-765 execute_synchronization_tasks *)
Definition duplicate_requests (verifying_hashes_len requested_hashes_len : Z) : CM (option (list H256)) :=
  if requested_hashes_len =? 0 then mret None
  else
    synchronization_speed ← cm_gets (λ c, speed (co_sync_speed_meter c));
    empty_in ← cm_gets (λ c, queue_empty_in verifying_hashes_len (co_block_speed_meter c));
    full_in ← cm_gets (λ c, queue_full_in requested_hashes_len (co_sync_speed_meter c));
    now ← now_s;
    last_dup_time ← cm_gets co_last_dup_time;
    if f64_lt empty_in full_in && f64_lt empty_in NEAR_EMPTY_VERIFICATION_QUEUE_THRESHOLD_S &&
       f64_lt MIN_BLOCK_DUPLICATION_INTERVAL_S (f64_sub now last_dup_time)
    then
      _ ← cm_modify (set_last_dup_time now);
      hashes ← cm_query (λ c, best_n_of_blocks_state (co_chain c) Requested
        (duplicate_len synchronization_speed full_in empty_in requested_hashes_len));
      mret (Some hashes)
    else mret None.

(** Scheduled blocks become requested. *)
(** src: sync/src/synchronization_client_core.rs 767-793 execute_synchronization_tasks *)
Definition request_scheduled (limits : BlocksRequestLimits) (verifying_hashes_len requested_hashes_len idle_len : Z)
    (blocks_requests : option (list H256)) : CM (option (list H256)) :=
  scheduled_hashes_len ← chain_length Scheduled;
  sum ← cm_lift (u32_add requested_hashes_len verifying_hashes_len);
  if (sum <? MAX_REQUESTED_BLOCKS + MAX_VERIFYING_BLOCKS) && negb (scheduled_hashes_len =? 0) then
    let chunk_size := Z.min (max_blocks_in_request limits)
      (Z.max (scheduled_hashes_len / idle_len) (min_blocks_in_request limits)) in
    hashes_to_request_len ← cm_lift (u32_result (chunk_size * idle_len));
    hashes_to_request ← on_chain (request_blocks_hashes hashes_to_request_len);
    mret (Some (default [] blocks_requests ++ hashes_to_request))
  else mret blocks_requests.

(** Headers are requested from the peers that are idle for them. *)
(** src: sync/src/synchronization_client_core.rs 655-681 execute_synchronization_tasks *)
Definition request_headers : CM (list Task) :=
  headers_idle_peers ← cm_gets (λ c, hash_order (pt_idle_for_headers (co_peers_tasks c)));
  if decide (headers_idle_peers = []) then mret []
  else
    scheduled_hashes_len ← chain_length Scheduled;
    if scheduled_hashes_len <? MAX_SCHEDULED_HASHES then
      _ ← cm_each (λ peer, t ← now_s; on_tasks (on_headers_requested t peer)) headers_idle_peers;
      block_locator_hashes ← on_chain block_locator_hashes;
      mret ((λ peer, TGetHeaders peer (with_block_locator_hashes block_locator_hashes)) <$> headers_idle_peers)
    else mret [].

(** The blocks to ask idle peers for. *)
(** src: sync/src/synchronization_client_core.rs 683-795 execute_synchronization_tasks *)
Definition idle_requests (limits : BlocksRequestLimits) (verifying_hashes_len : Z)
    (blocks_idle_peers : list PeerIndex) : CM (option (list H256)) :=
  let idle_len := wrap 32 (Z.of_nat (length blocks_idle_peers)) in
  if idle_len =? 0 then mret None
  else
    requested_hashes_len ← chain_length Requested;
    blocks_requests ← duplicate_requests verifying_hashes_len requested_hashes_len;
    request_scheduled limits verifying_hashes_len requested_hashes_len idle_len blocks_requests.

(** src: sync/src/synchronization_client_core.rs 601-810 execute_synchronization_tasks *)
Definition execute_synchronization_tasks (forced final : option (list H256)) : CM unit :=
  _ ← print_synchronization_information;
  stored_len ← chain_length Stored;
  let limits :=
    if 150000 <? stored_len
    then mkLimits (max_scheduled_hashes limits_default) (max_requested_blocks limits_default)
           (max_verifying_blocks limits_default) 8 16
    else limits_default in
  verifying_hashes_len ← chain_length Verifying;
  forced_tasks ←
    match forced with
    | None => mret (Some [])
    | Some forced =>
        useful ← cm_gets (λ c, useful_peers (co_peers_tasks c));
        if decide (useful = []) then _ ← switch_to_saturated_state; mret None
        else tasks ← prepare_blocks_requests_tasks limits useful forced; mret (Some tasks)
    end;
  match forced_tasks with
  | None => mret tt
  | Some forced_tasks =>
      final_tasks ←
        match final with
        | None => mret []
        | Some final =>
            useful ← cm_gets (λ c, useful_peers (co_peers_tasks c));
            if decide (useful = []) then mret [] else prepare_blocks_requests_tasks limits useful final
        end;
      blocks_idle_peers ← cm_gets (λ c, hash_order (pt_idle_for_blocks (co_peers_tasks c)));
      headers_tasks ← request_headers;
      blocks_requests ← idle_requests limits verifying_hashes_len blocks_idle_peers;
      blocks_tasks ←
        match blocks_requests with
        | None => mret []
        | Some blocks_requests => prepare_blocks_requests_tasks limits blocks_idle_peers blocks_requests
        end;
      cm_each execute (forced_tasks ++ final_tasks ++ headers_tasks ++ blocks_tasks)
  end.

(** src: sync/src/synchronization_client_core.rs 812-824 try_switch_to_saturated_state *)
Definition try_switch_to_saturated_state : CM bool :=
  scheduled ← chain_length Scheduled;
  requested ← (if scheduled =? 0 then chain_length Requested else mret 1);
  let switch := (scheduled =? 0) && (requested =? 0) in
  _ ← cm_when switch switch_to_saturated_state;
  mret switch.

(** ** Peers come and go *)

(** src: sync/src/synchronization_client_core.rs 204-214 on_connect *)
Definition core_on_connect (peer : PeerIndex) : CM unit :=
  block_locator_hashes ← on_chain block_locator_hashes;
  _ ← execute (TGetHeaders peer (with_block_locator_hashes block_locator_hashes));
  _ ← on_tasks (unuseful_peer peer);
  t ← now_s;
  on_tasks (on_headers_requested t peer).

(** src: sync/src/synchronization_client_core.rs 216-221 on_disconnect *)
Definition core_on_disconnect (peer : PeerIndex) : CM unit :=
  peer_tasks ← on_tasks_ret (reset_blocks_tasks peer);
  _ ← on_tasks (disconnect peer);
  execute_synchronization_tasks (Some peer_tasks) None.

(** ** Announcements *)

(** Whether an announced item is asked for. *)
Definition wants_item (peer : PeerIndex) (item : InventoryVector) : CM bool :=
  match inv_type item with
  | MessageBlock =>
      state ← on_chain (block_state (inv_hash item));
      match state with
      | Unknown => cm_gets (λ c, negb (contains_unknown_block (inv_hash item) (co_orphaned_blocks_pool c)))
      | DeadEnd =>
          close_bad ← cm_gets (λ c, close_connection_on_bad_block (co_config c));
          if close_bad : bool then _ ← misbehaving peer; mret false else mret true
      | _ => mret false
      end
  | InvError => _ ← misbehaving peer; mret false
  end.

Fixpoint wanted_items (peer : PeerIndex) (items : list InventoryVector) : CM (list InventoryVector) :=
  match items with
  | [] => mret []
  | item :: items =>
      wanted ← wants_item peer item;
      rest ← wanted_items peer items;
      mret (if wanted : bool then item :: rest else rest)
  end.

(** src: sync/src/synchronization_client_core.rs 223-272 on_inventory *)
Definition core_on_inventory (peer : PeerIndex) (message : Inv) : CM unit :=
  unknown_inventory ← wanted_items peer (inv_inventory message);
  if decide (unknown_inventory = []) then mret tt
  else execute (TGetData peer (mkGetData unknown_inventory)).

(** ** Headers *)

(** src: sync/src/utils/message_block_headers_provider.rs 7-17 MessageBlockHeadersProvider *)
Record MessageBlockHeadersProvider := mkMessageProvider {
  mp_first_header_number : Z;
  mp_headers : gmap H256 IndexedBlockHeader;
  mp_headers_order : list H256;
}.

(** src: sync/src/utils/message_block_headers_provider.rs 20-27 new *)
Definition message_provider_new (best_block_header_height : Z) : option MessageBlockHeadersProvider :=
  first ← u32_add best_block_header_height 1;
  Some (mkMessageProvider first ∅ []).

(** src: sync/src/utils/message_block_headers_provider.rs 29-32 append_header *)
Definition append_header (hash : H256) (header : IndexedBlockHeader) (mp : MessageBlockHeadersProvider) :
    MessageBlockHeadersProvider :=
  mkMessageProvider (mp_first_header_number mp) (<[hash := header]> (mp_headers mp)) (mp_headers_order mp ++ [hash]).

(** src: sync/src/utils/message_block_headers_provider.rs 41-58 block_header *)
Definition message_provider_header (mp : MessageBlockHeadersProvider) (block_ref : BlockRef) :
    SM T (option IndexedBlockHeader) :=
  header ← chain_block_header block_ref;
  match header with
  | Some h => mret (Some h)
  | None =>
      match block_ref with
      | RefHash h => mret (mp_headers mp !! h)
      | RefNumber n =>
          if (mp_first_header_number mp <=? n) &&
             (n - mp_first_header_number mp <? wrap 32 (Z.of_nat (length (mp_headers_order mp))))
          then
            header ← sm_lift (h ← mp_headers_order mp !! Z.to_nat (n - mp_first_header_number mp);
                              mp_headers mp !! h);
            mret (Some header)
          else mret None
      end
  end.

(** The loop over the headers of a message. *)
Fixpoint verify_headers_loop (peer : PeerIndex) (header_index : nat) (last_known_hash : H256)
    (provider : MessageBlockHeadersProvider) (headers : list IndexedBlockHeader) :
    CM BlocksHeadersVerificationResult :=
  match headers with
  | [] => mret SuccessHeaders
  | header :: headers =>
      if decide (previous_header_hash (ih_raw header) ≠ last_known_hash) then
        _ ← misbehaving peer; mret SkipHeaders
      else
        close_bad ← cm_gets (λ c, close_connection_on_bad_block (co_config c));
        state ← on_chain (block_state (ih_hash header));
        match state with
        | Unknown =>
            verify ← cm_gets co_verify_headers;
            verified ← (if verify : bool then
                          t ← now_wall; cm_lift (verify_block_header network t (ih_hash header) (ih_raw header))
                        else mret (Ok tt));
            match verified with
            | Err _ => _ ← cm_when close_bad (misbehaving peer); mret (ErrorAt header_index)
            | Ok _ =>
                verify_headers_loop peer (S header_index) (ih_hash header)
                  (append_header (ih_hash header) header provider) headers
            end
        | DeadEnd =>
            if close_bad : bool then _ ← misbehaving peer; mret SkipHeaders
            else _ ← on_tasks (useful_peer peer); mret SkipHeaders
        | _ => _ ← on_tasks (useful_peer peer); mret SkipHeaders
        end
  end.

(** src: sync/src/synchronization_client_core.rs 974-1044 verify_headers *)
Definition core_verify_headers (peer : PeerIndex) (last_known_hash : H256) (headers : list IndexedBlockHeader) :
    CM BlocksHeadersVerificationResult :=
  best ← cm_query (λ c, best_block_header (co_chain c));
  provider ← cm_lift (message_provider_new (bb_number best));
  verify_headers_loop peer 0 last_known_hash provider headers.

(** The position of the first header whose state is unknown. *)
Fixpoint first_unknown (headers : list IndexedBlockHeader) : CM (option nat) :=
  match headers with
  | [] => mret None
  | header :: headers =>
      state ← on_chain (block_state (ih_hash header));
      if decide (state = Unknown) then mret (Some O)
      else i ← first_unknown headers; mret (S <$> i)
  end.

(** [None]: all headers are known. *)
Definition first_unknown_index (header0 : IndexedBlockHeader) (headers : list IndexedBlockHeader) :
    CM (option nat) :=
  state ← on_chain (block_state (ih_hash header0));
  if decide (state = Unknown) then mret (Some O)
  else
    header_last ← cm_lift (list.last (header0 :: headers));
    state ← on_chain (block_state (ih_hash header_last));
    if decide (state = Unknown) then
      i ← first_unknown headers;
      i ← cm_lift i;
      mret (Some (S i))
    else mret None.

(** src: sync/src/synchronization_client_core.rs 275-388 on_headers *)
Definition core_on_headers (peer : PeerIndex) (headers : list IndexedBlockHeader) : CM unit :=
  match headers with
  | [] => λ _, None
  | header0 :: rest =>
      _ ← on_tasks (λ pt, Some (on_headers_received peer pt));
      parent_state ← on_chain (block_state (previous_header_hash (ih_raw header0)));
      if decide (parent_state = Unknown) then
        too_low ← on_tasks_ret (penalize peer);
        cm_when too_low (misbehaving peer)
      else
        index ← first_unknown_index header0 rest;
        match index with
        | None => on_tasks (useful_peer peer)
        | Some i =>
            last_known_hash ← cm_lift (
              match i with
              | O => Some (previous_header_hash (ih_raw header0))
              | S j => ih_hash <$> headers !! j
              end);
            close_bad ← cm_gets (λ c, close_connection_on_bad_block (co_config c));
            dead_end ← (if close_bad : bool then
                          state ← on_chain (block_state last_known_hash); mret (bool_decide (state = DeadEnd))
                        else mret false);
            if dead_end : bool then misbehaving peer
            else
              let new_headers := drop i headers in
              verified ← core_verify_headers peer last_known_hash new_headers;
              match verified with
              | ErrorAt error_index =>
                  header ← cm_lift (headers !! (i + error_index)%nat);
                  on_chain (mark_dead_end_block (ih_hash header))
              | SkipHeaders => mret tt
              | SuccessHeaders =>
                  _ ← on_chain (schedule_blocks_headers new_headers);
                  state ← cm_gets co_state;
                  _ ← (if is_synchronizing state then mret tt
                       else
                         scheduled ← chain_length Scheduled;
                         requested ← chain_length Requested;
                         sum ← cm_lift (u32_add scheduled requested);
                         if sum =? 1 then switch_to_nearly_saturated_state
                         else switch_to_synchronization_state);
                  _ ← on_tasks (useful_peer peer);
                  execute_synchronization_tasks None None
              end
        end
  end.

(** ** Blocks *)

(** Remembering that the blocks came from [peer]. *)
Definition remember_verifying (peer : PeerIndex) (hashes : list H256) : CM unit := cm_modify (λ c,
  set_verifying (foldl (λ m h, <[h := peer]> m) (co_verifying_blocks_by_peer c) hashes)
    (<[peer := match co_verifying_blocks_futures c !! peer with
               | Some (waiting, futures) => (list_to_set hashes ∪ waiting, futures)
               | None => (list_to_set hashes, [])
               end]> (co_verifying_blocks_futures c)) c).

(** A block whose parent is unknown or a dead end. *)
Definition on_orphan_unknown (block : IndexedBlock) : CM unit :=
  state ← cm_gets co_state;
  if is_synchronizing state then
    _ ← on_chain (forget_block (ib_hash block));
    removed ← on_pool (remove_blocks_for_parent (ib_hash block));
    on_chain (forget_blocks_leave_header (ib_hash <$> removed))
  else
    _ ← on_chain (forget_block_leave_header (ib_hash block));
    known ← cm_gets (λ c, contains_unknown_block (ib_hash block) (co_orphaned_blocks_pool c));
    if known : bool then mret tt
    else
      t ← now_s;
      on_pool (λ pool, pair tt <$> insert_unknown_block t block pool).

(** A block whose parent is stored or being verified. *)
Definition on_block_to_verify (peer : PeerIndex) (block : IndexedBlock) : CM (list IndexedBlock) :=
  t ← now_s;
  meter ← cm_query (λ c, checkpoint t (co_sync_speed_meter c));
  _ ← cm_modify (λ c, set_meters (co_block_speed_meter c) meter c);
  _ ← on_tasks (useful_peer peer);
  orphans ← on_pool (remove_blocks_for_parent (ib_hash block));
  let blocks_to_verify := block :: orphans in
  _ ← on_chain (forget_blocks_leave_header (ib_hash <$> blocks_to_verify));
  _ ← on_chain (verify_blocks (ib_header <$> blocks_to_verify));
  _ ← remember_verifying peer (ib_hash <$> blocks_to_verify);
  mret blocks_to_verify.

(** The block is not known yet, or known as a dead end. *)
Definition on_new_block (peer : PeerIndex) (block : IndexedBlock) : CM (option (list IndexedBlock)) :=
  close_bad ← cm_gets (λ c, close_connection_on_bad_block (co_config c));
  parent_block_state ← on_chain (block_state (ib_parent block));
  match parent_block_state with
  | Unknown => _ ← on_orphan_unknown block; mret None
  | DeadEnd =>
      if close_bad : bool then _ ← misbehaving peer; mret None
      else _ ← on_orphan_unknown block; mret None
  | Verifying | Stored => blocks ← on_block_to_verify peer block; mret (Some blocks)
  | Requested | Scheduled =>
      _ ← on_tasks (useful_peer peer);
      _ ← on_pool (λ pool, Some (tt, insert_orphaned_block block pool));
      mret None
  end.

(** The result: the blocks to hand to the verifier. *)
(** src: sync/src/synchronization_client_core.rs 390-531 on_block *)
Definition core_on_block (peer : PeerIndex) (block : IndexedBlock) : CM (option (list IndexedBlock)) :=
  t ← now_s; t' ← now_s;
  _ ← on_tasks (on_block_received t t' peer (ib_hash block));
  state ← on_chain (block_state (ib_hash block));
  match state with
  | Verifying | Stored => _ ← on_tasks (useful_peer peer); mret None
  | DeadEnd =>
      close_bad ← cm_gets (λ c, close_connection_on_bad_block (co_config c));
      if close_bad : bool then _ ← misbehaving peer; mret None
      else on_new_block peer block
  | Unknown | Scheduled | Requested => on_new_block peer block
  end.

(** src: sync/src/synchronization_client_core.rs 534-574 on_notfound *)
Definition core_on_notfound (peer : PeerIndex) (message : NotFound) : CM unit :=
  let notfound_blocks : gset H256 :=
    list_to_set (inv_hash <$> filter (λ item, inv_type item = MessageBlock) (nf_inventory message)) in
  if decide (notfound_blocks = ∅) then mret tt
  else
    requested ← cm_gets (λ c, get_blocks_tasks (co_peers_tasks c) peer);
    let is_requested_block := from_option (λ r, bool_decide (r ∩ notfound_blocks ≠ ∅)) false requested in
    if is_requested_block : bool then
      removed_tasks ← on_tasks_ret (reset_blocks_tasks peer);
      _ ← on_tasks (unuseful_peer peer);
      state ← cm_gets co_state;
      _ ← cm_when (is_synchronizing state) (misbehaving peer);
      execute_synchronization_tasks (Some removed_tasks) None
    else mret tt.

(** src: sync/src/synchronization_client_core.rs 578-592 after_peer_nearly_blocks_verified *)
Definition after_peer_nearly_blocks_verified (peer : PeerIndex) (future : F) : CM unit := λ c,
  if is_synchronizing (co_state c) then Some (tt, add_effects [RunFuture future] c)
  else
    match co_verifying_blocks_futures c !! peer with
    | Some (waiting, futures) =>
        Some (tt, set_verifying (co_verifying_blocks_by_peer c)
          (<[peer := (waiting, futures ++ [future])]> (co_verifying_blocks_futures c)) c)
    | None => Some (tt, add_effects [RunFuture future] c)
    end.

(** ** Results of the verifier *)

(** src: sync/src/synchronization_client_core.rs 1271-1297 awake_waiting_threads *)
Definition awake_waiting_threads (hash : H256) : CM unit := λ c,
  match co_verifying_blocks_by_peer c !! hash with
  | None => Some (tt, c)
  | Some peer =>
      let by_peer := delete hash (co_verifying_blocks_by_peer c) in
      match co_verifying_blocks_futures c !! peer with
      | None => Some (tt, set_verifying by_peer (co_verifying_blocks_futures c) c)
      | Some (waiting, futures) =>
          let waiting := waiting ∖ {[hash]} in
          if decide (waiting = ∅) then
            Some (tt, add_effects (RunFuture <$> futures)
              (set_verifying by_peer (delete peer (co_verifying_blocks_futures c)) c))
          else
            Some (tt, set_verifying by_peer (<[peer := (waiting, futures)]> (co_verifying_blocks_futures c)) c)
      end
  end.

(** The stored blocks of the given hashes are announced. *)
Definition relay_blocks (hashes : list H256) : CM unit :=
  cm_each (λ hash,
    block ← on_chain (on_storage (db_block (RefHash hash)));
    match block with Some block => execute (TRelayNewBlock block) | None => mret tt end) hashes.

(** An error of the insertion is a panic. *)
(** src: sync/src/synchronization_client_core.rs 1168-1236 on_block_verification_success *)
Definition on_block_verification_success (block : IndexedBlock) : CM unit :=
  t ← now_s;
  meter ← cm_query (λ c, checkpoint t (co_block_speed_meter c));
  _ ← cm_modify (λ c, set_meters meter (co_sync_speed_meter c) c);
  needs_relay ← cm_gets (λ c, bool_decide (ib_hash block ∉ co_do_not_relay c));
  _ ← cm_modify (λ c, set_do_not_relay (co_do_not_relay c ∖ {[ib_hash block]}) c);
  position ← on_chain (forget_block_with_state_leave_header (ib_hash block) Verifying);
  inserted ← (if decide (position = Missing) then mret (Ok (mkBlockInsertionResult []))
              else on_chain (insert_best_block block));
  match inserted with
  | Err _ => λ _, None
  | Ok insert_result =>
      _ ← cm_modify (λ c, set_shared (update_best_storage_block_height
        (bb_number (sc_best_storage_block (co_chain c))) (co_shared_state c)) c);
      _ ← match list.last (canonized_blocks_hashes insert_result) with
          | Some best_block_hash => notify (BestBlockInserted best_block_hash)
          | None => mret tt
          end;
      _ ← awake_waiting_threads (ib_hash block);
      _ ← execute_synchronization_tasks None None;
      state ← cm_gets co_state;
      cm_when (needs_relay && (is_saturated state || is_nearly_saturated state))
        (relay_blocks (canonized_blocks_hashes insert_result))
  end.

(** src: sync/src/synchronization_client_core.rs 1238-1268 on_block_verification_error *)
Definition on_block_verification_error (hash : H256) : CM unit :=
  _ ← cm_modify (λ c, set_do_not_relay (co_do_not_relay c ∖ {[hash]}) c);
  sender ← cm_gets (λ c, co_verifying_blocks_by_peer c !! hash);
  close_bad ← cm_gets (λ c, close_connection_on_bad_block (co_config c));
  _ ← match sender with Some peer => cm_when close_bad (dos peer) | None => mret tt end;
  _ ← on_chain (forget_block_with_children hash);
  _ ← on_chain (mark_dead_end_block hash);
  _ ← awake_waiting_threads hash;
  execute_synchronization_tasks None None.

(** src: sync/src/synchronization_client_core.rs 963-971 forget_failed_blocks *)
Definition forget_failed_blocks (blocks_to_forget : list H256) : CM unit :=
  cm_each (λ hash, on_chain (forget_block_with_children hash)) blocks_to_forget.

(** src: sync/src/synchronization_client_core.rs 858-894 new *)
Definition core_new (config : ClientConfig) (shared_state : SynchronizationState)
    (peers : PeersImpl (M:=MH) (C:=C)) (chain : SyncChain T) : option Core :=
  block_speed_meter ← with_inspect_items SYNC_SPEED_BLOCKS_TO_INSPECT;
  sync_speed_meter ← with_inspect_items BLOCKS_SPEED_BLOCKS_TO_INSPECT;
  Some (mkCore shared_state Saturated peers peers_tasks_default chain pool_new true ∅ ∅ ∅
    block_speed_meter sync_speed_meter config false (f64_of_Z 0) 0 []).

(** src: sync/src/synchronization_client_core.rs 594-598 install_sync_listener *)
Definition install_sync_listener : CM unit := λ c,
  _ ← rust_assert (negb (co_listener c));
  Some (tt, mkCore (co_shared_state c) (co_state c) (co_peers c) (co_peers_tasks c) (co_chain c)
    (co_orphaned_blocks_pool c) (co_verify_headers c) (co_verifying_blocks_by_peer c)
    (co_verifying_blocks_futures c) (co_do_not_relay c) (co_block_speed_meter c) (co_sync_speed_meter c)
    (co_config c) true (co_last_dup_time c) (co_readings c) (co_effects c)).

(** ** The management thread ([sync/src/synchronization_manager.rs]) *)

(** src: sync/src/synchronization_manager.rs 144-152 ManagePeersConfig *)
Record ManagePeersConfig := mkManagePeersConfig {
  new_block_failure_interval_ms : Z;
  new_headers_failure_interval_ms : Z;
  trusted_block_failure_interval_ms : Z;
  trusted_headers_failure_interval_ms : Z;
}.

(** src: sync/src/synchronization_manager.rs 155-162 default *)
Definition manage_peers_config : ManagePeersConfig :=
  mkManagePeersConfig (5 * 1000) (5 * 1000) (20 * 1000) (20 * 1000).

(** src: sync/src/synchronization_manager.rs 166-171 ManageUnknownBlocksConfig *)
Record ManageUnknownBlocksConfig := mkManageUnknownBlocksConfig {
  removal_time_ms : Z;
  max_number : nat;
}.

(** src: sync/src/synchronization_manager.rs 174-179 default *)
Definition manage_unknown_config : ManageUnknownBlocksConfig := mkManageUnknownBlocksConfig (20 * 60 * 1000) 16.

(** [interval as f64 / 1000f64] *)
Definition seconds (ms : Z) : f64 := f64_div (f64_of_Z ms) (f64_of_Z 1000).

Definition is_trusted (peer : PeerIndex) (pt : PeersTasks MP) : bool :=
  from_option (λ s, bool_decide (ps_trust s = Trusted)) false (get_peer_stats pt peer).

(** The loop over the requests, oldest first; it stops at the first that is not
    late. *)
Fixpoint manage_blocks_loop (config : ManagePeersConfig) (now : f64) (requests : list (PeerIndex * BlocksRequest))
    (to_request to_forget : list H256) : CM (list H256 * list H256) :=
  match requests with
  | [] => mret (to_request, to_forget)
  | (peer, request) :: requests =>
      trusted ← cm_gets (λ c, is_trusted peer (co_peers_tasks c));
      let interval := if trusted : bool then trusted_block_failure_interval_ms config
                      else new_block_failure_interval_ms config in
      if f64_le (f64_sub now (br_timestamp request)) (seconds interval) then mret (to_request, to_forget)
      else
        failed_blocks ← on_tasks_ret (reset_blocks_tasks peer);
        '(normal_blocks, failed_blocks) ← on_tasks_ret (on_blocks_failure failed_blocks);
        too_low ← on_tasks_ret (on_peer_block_failure peer);
        _ ← cm_when too_low (_ ← on_tasks (unuseful_peer peer); misbehaving peer);
        manage_blocks_loop config now requests (to_request ++ normal_blocks) (to_forget ++ failed_blocks)
  end.

(** src: sync/src/synchronization_manager.rs 183-232 manage_synchronization_peers_blocks *)
Definition manage_synchronization_peers_blocks (config : ManagePeersConfig) : CM (list H256 * list H256) :=
  now ← now_s;
  requests ← cm_gets (λ c, lhm_iter (pt_blocks_requests (co_peers_tasks c)));
  manage_blocks_loop config now requests [] [].

Fixpoint manage_headers_loop (config : ManagePeersConfig) (now : f64)
    (requests : list (PeerIndex * HeadersRequest)) : CM unit :=
  match requests with
  | [] => mret tt
  | (peer, request) :: requests =>
      trusted ← cm_gets (λ c, is_trusted peer (co_peers_tasks c));
      let interval := if trusted : bool then trusted_headers_failure_interval_ms config
                      else new_headers_failure_interval_ms config in
      if f64_le (f64_sub now (hr_timestamp request)) (seconds interval) then mret tt
      else
        tasks ← cm_gets (λ c, get_blocks_tasks (co_peers_tasks c) peer);
        if from_option (λ t, bool_decide (t ≠ ∅)) false tasks then manage_headers_loop config now requests
        else
          too_low ← on_tasks_ret (on_peer_headers_failure peer);
          _ ← cm_when too_low (misbehaving peer);
          manage_headers_loop config now requests
  end.

(** src: sync/src/synchronization_manager.rs 235-278 manage_synchronization_peers_headers *)
Definition manage_synchronization_peers_headers (config : ManagePeersConfig) : CM unit :=
  now ← now_s;
  requests ← cm_gets (λ c, lhm_iter (pt_headers_requests (co_peers_tasks c)));
  manage_headers_loop config now requests.

(** The unknown blocks that go: the oldest ones beyond the maximal number, then
    those that are too old. *)
Fixpoint unknown_to_remove (config : ManageUnknownBlocksConfig) (now : f64) (remove_num : nat)
    (blocks : list (H256 * f64)) : gset H256 :=
  match blocks with
  | [] => ∅
  | (hash, time) :: blocks =>
      match remove_num with
      | S n => {[hash]} ∪ unknown_to_remove config now n blocks
      | O =>
          if f64_le (f64_sub now time) (seconds (removal_time_ms config)) then ∅
          else {[hash]} ∪ unknown_to_remove config now O blocks
      end
  end.

(** src: sync/src/synchronization_manager.rs 281-321 manage_unknown_orphaned_blocks *)
Definition manage_unknown_orphaned_blocks (config : ManageUnknownBlocksConfig) : CM (option (list H256)) :=
  now ← now_s;
  blocks ← cm_gets (λ c, lhm_iter (unknown_blocks (co_orphaned_blocks_pool c)));
  let hashes := unknown_to_remove config now (length blocks - max_number config) blocks in
  removed ← on_pool (remove_blocks hashes);
  mret (if decide (removed = []) then None else Some removed).

Definition nonempty (l : list H256) : option (list H256) := if decide (l = []) then None else Some l.

(** One round of the thread, after its timeout. *)
(** src: sync/src/synchronization_manager.rs 88-126 worker_proc *)
Definition management_round : CM unit :=
  _ ← print_synchronization_information;
  state ← cm_gets co_state;
  if is_synchronizing state || is_nearly_saturated state then
    '(to_request, to_forget) ← manage_synchronization_peers_blocks manage_peers_config;
    _ ← forget_failed_blocks to_forget;
    _ ← execute_synchronization_tasks (nonempty to_request) (nonempty to_forget);
    manage_synchronization_peers_headers manage_peers_config
  else
    orphans_to_remove ← manage_unknown_orphaned_blocks manage_unknown_config;
    match orphans_to_remove with
    | Some hashes => cm_each (λ hash, _ ← on_chain (forget_block hash); mret tt) hashes
    | None => mret tt
    end.
End client.
