(* ===== verification/ClientChain.v ===== *)
(** * The chain as the client uses it

    Each operation of the synchronization chain that the client calls, on an
    abstract state: the stored chain, the set of stored blocks, the three queues
    and the known headers.  The hashes of headers are taken to be consistent: a
    set of headers in which a hash stands for one header and no header is its
    own ancestor. *)

From S2P Require Import Prelude External Primitives Serialization Compact Crypto Chain.
From S2P Require Import Storage Network Kv KvRefine BlockChainDb ChainInv ChainOps.
From S2P Require Import HashQueue HeadersChain SyncChain SyncOps Locator SyncQueues.
From S2P Require Import SpeedMeter Collections OrphanPool.

(** ** Consistent headers *)

(** Headers among which hashes do not collide, with a height by which every
    header is one above its parent. *)
Record Universe {V : VrfOps} := mkUniverse {
  known_header : IndexedBlockHeader → Prop;
  height : H256 → nat;
  universe_hash x y : known_header x → known_header y → ih_hash x = ih_hash y → x = y;
  universe_height x : known_header x → height (ih_hash x) = S (height (previous_header_hash (ih_raw x)));
}.
Arguments mkUniverse {V} _ _ _ _.

Section chain_of_client.
Context {V : VrfOps} {R : RugOps} {P : Profile}.
Context {T : Type} {K : KeyValueDatabase T} {KS : KvSpec T}.
Context (W : Universe).

(** In a linked list of known headers heights go up by one, so a header that
    extends it is not in it. *)
Lemma linked_heights hd i x : linked hd → Forall (known_header W) hd → hd !! i = Some x →
  ∀ j y, hd !! j = Some y → (height W (ih_hash x) + j = height W (ih_hash y) + i)%nat.
Proof.
  intros Hl Hk. rewrite list.Forall_forall in Hk.
  assert (∀ i x, hd !! i = Some x → ∀ x0, hd !! O = Some x0 → height W (ih_hash x) = (height W (ih_hash x0) + i)%nat) as H0.
  { induction i0 as [|n IH]; intros z Hz z0 Hz0; [rewrite Hz in Hz0; injection Hz0 as ->; lia|].
    destruct (hd !! n) as [y|] eqn:Hy; [|apply lookup_ge_None in Hy; apply lookup_lt_Some in Hz; lia].
    rewrite universe_height by (eapply Hk, list_elem_of_lookup_2, Hz). rewrite (Hl n y z Hy Hz), (IH y eq_refl z0 Hz0). lia. }
  intros Hx j y Hy. destruct (hd !! O) as [x0|] eqn:E0; [|by apply lookup_ge_None in E0; destruct hd; [by rewrite lookup_nil in Hx|cbn in E0; lia]].
  rewrite (H0 i x Hx x0 eq_refl), (H0 j y Hy x0 eq_refl). lia.
Qed.

Lemma extends_fresh best hd x : linked hd → Forall (known_header W) hd → known_header W x →
  headers_tip best hd = previous_header_hash (ih_raw x) → ih_hash x ∉ ih_hash <$> hd.
Proof.
  intros Hl Hk Hx Htip (y & Heq & Hy)%list_elem_of_fmap. apply list_elem_of_lookup in Hy as [j Hj].
  pose proof (lookup_lt_Some _ _ _ Hj) as Hlt. unfold headers_tip in Htip. rewrite last_lookup in Htip.
  destruct (hd !! pred (length hd)) as [z|] eqn:Hz; [|apply lookup_ge_None in Hz; lia]. cbn in Htip.
  pose proof (linked_heights hd _ z Hl Hk Hz j y Hj) as Hh. rewrite <-Heq, (universe_height W x Hx), <-Htip in Hh. lia.
Qed.

(** ** The abstract state *)

Record Ghost := mkGhost {
  g_hs : list H256;
  g_stored : H256 → bool;
  g_v : list H256;
  g_r : list H256;
  g_q : list H256;
  g_hd : list IndexedBlockHeader;
}.

Definition g_queues (g : Ghost) : list H256 := g_v g ++ g_r g ++ g_q g.

(** How much the chain holds. *)
Definition g_size (g : Ghost) : nat := length (g_hs g) + length (g_queues g) + length (g_hd g).

Record chain_ok (c : SyncChain T) (g : Ghost) : Prop := {
  ck_inv : sync_inv c (g_hs g) [g_v g; g_r g; g_q g] (g_hd g);
  ck_stored h : v_contains (db_view (sc_storage c)) h = g_stored g h;
  ck_nodup : NoDup (g_queues g);
  ck_new h : h ∈ g_queues g → g_stored g h = false;
  ck_known : Forall (known_header W) (g_hd g);
}.

(** Small enough for the locator, whose steps are doubled in 32 bits. *)
Definition small (g : Ghost) : Prop := Z.of_nat (g_size g) < 2 ^ 31.

Lemma small_u32 g n : small g → (n ≤ g_size g)%nat → u32 (Z.of_nat (n + 1)).
Proof. unfold small, fits. lia. Qed.

(** A run that does not touch the store. *)
Definition keeps_store {A} (m : SM T A) : Prop :=
  ∀ c a c', m c = Some (a, c') → sc_storage c' = sc_storage c.

Lemma keeps_ret {A} (a : A) : keeps_store (mret a).
Proof. intros c x c' E. by injection E as _ <-. Qed.

Lemma keeps_bind {A B} (m : SM T A) (k : A → SM T B) :
  keeps_store m → (∀ a, keeps_store (k a)) → keeps_store (m ≫= k).
Proof.
  intros Hm Hk c b c' E. rewrite SM_bind_run in E. destruct (m c) as [[a c1]|] eqn:Em; [|done]. cbn in E.
  apply Hm in Em. apply Hk in E. congruence.
Qed.

Lemma keeps_hashes {A} (m : HashQueueChain → option (A * HashQueueChain)) : keeps_store (on_hashes m).
Proof. intros c a c' E. unfold on_hashes in E. destruct (m _) as [[]|]; [|done]. by injection E as _ <-. Qed.

Lemma keeps_headers m : keeps_store (on_headers m).
Proof. intros c a c' E. unfold on_headers in E. destruct (m _); [|done]. by injection E as _ <-. Qed.

Lemma keeps_lift {A} (o : option A) : keeps_store (sm_lift o).
Proof. intros c a c' E. unfold sm_lift in E. destruct o; [|done]. by injection E as _ <-. Qed.

Lemma keeps_gets {A} (f : SyncChain T → option A) : keeps_store (sm_gets f).
Proof. intros c a c' E. unfold sm_gets in E. destruct (f c); [|done]. by injection E as _ <-. Qed.

Ltac keeps := repeat first
  [ apply keeps_ret | apply keeps_hashes | apply keeps_headers | apply keeps_lift | apply keeps_gets
  | apply keeps_bind; [|intros ?]
  | match goal with |- keeps_store (match ?x with _ => _ end) => destruct x end ].

Lemma keeps_forget_leave h : keeps_store (forget_block_leave_header h).
Proof. unfold forget_block_leave_header. keeps. Qed.

Lemma keeps_forget_blocks l : keeps_store (forget_blocks l).
Proof. induction l; cbn [forget_blocks]; unfold forget_block, forget_block_leave_header; keeps. done. Qed.

Lemma keeps_forget_blocks_leave l : keeps_store (forget_blocks_leave_header l).
Proof. induction l; cbn [forget_blocks_leave_header]; unfold forget_block_leave_header; keeps. done. Qed.

Lemma keeps_verify l : keeps_store (verify_blocks l).
Proof. induction l; cbn [verify_blocks]; unfold chain_verify_block; keeps. done. Qed.

(** ** Forgetting *)

Definition g_without (Q : H256 → Prop) `{∀ h, Decision (Q h)} (hd : list IndexedBlockHeader) (g : Ghost) : Ghost :=
  mkGhost (g_hs g) (g_stored g) (filter (λ h, ¬ Q h) (g_v g)) (filter (λ h, ¬ Q h) (g_r g))
    (filter (λ h, ¬ Q h) (g_q g)) hd.

Lemma chain_ok_without c c' g (Q : H256 → Prop) `{∀ h, Decision (Q h)} hd :
  chain_ok c g → sc_storage c' = sc_storage c →
  sync_inv c' (g_hs g) (filter (λ h, ¬ Q h) <$> [g_v g; g_r g; g_q g]) hd → Forall (known_header W) hd →
  chain_ok c' (g_without Q hd g).
Proof.
  intros [Hi Hs Hnd Hn Hk] Es Hi' Hhd. split; [exact Hi'|intros h; by rewrite Es| | |done].
  - unfold g_queues. cbn. by apply filter_nodup_triple; [intros l; apply sublist_filter|].
  - intros h Hin. apply Hn. unfold g_queues in *. cbn in Hin. rewrite !elem_of_app, !list_elem_of_filter in *. tauto.
Qed.

Lemma g_size_without (Q : H256 → Prop) `{∀ h, Decision (Q h)} hd g : (length hd ≤ length (g_hd g))%nat →
  (g_size (g_without Q hd g) ≤ g_size g)%nat.
Proof.
  intros Hhd. unfold g_size, g_queues. cbn. rewrite !length_app.
  pose proof (list.length_filter (λ h, ¬ Q h) (g_v g)) as H1. pose proof (list.length_filter (λ h, ¬ Q h) (g_r g)) as H2.
  pose proof (list.length_filter (λ h, ¬ Q h) (g_q g)) as H3. lia.
Qed.

(** ** Reads *)

Lemma chain_ok_read c g s : chain_ok c g → unchanged (sc_storage c) s → chain_ok (set_storage s c) g.
Proof.
  intros [Hi Hs Hnd Hn Hk] Hu. split; try done; [by apply si_read|].
  intros h. cbn. destruct Hu as (_ & _ & ->). apply Hs.
Qed.

(** What an answer of [block_state] says. *)
Definition state_says (g : Ghost) (h : H256) (st : BlockState) : Prop :=
  match st with
  | Verifying => h ∈ g_v g
  | Requested => h ∈ g_r g
  | Scheduled => h ∈ g_q g
  | Stored => (h ∉ g_queues g) ∧ g_stored g h = true
  | Unknown | DeadEnd => (h ∉ g_queues g) ∧ g_stored g h = false
  end.

Lemma spec_block_state h c g : chain_ok c g →
  ∃ st c', block_state h c = Some (st, c') ∧ chain_ok c' g ∧ state_says g h st ∧
    sc_dead_end_blocks c' = sc_dead_end_blocks c ∧ (st = DeadEnd → h ∈ sc_dead_end_blocks c) ∧
    (st = Unknown → h ∉ sc_dead_end_blocks c).
Proof.
  intros Hok. pose proof (ck_inv _ _ Hok) as Hc. unfold block_state.
  rewrite (hqc_contains_in_spec _ _ h (si_queues _ _ _ _ Hc)). cbn [list_find].
  destruct (decide (h ∈ g_v g)) as [Hv|Hv]; [eexists Verifying, _; by split_and!|].
  destruct (decide (h ∈ g_r g)) as [Hr|Hr]; [eexists Requested, _; by split_and!|].
  destruct (decide (h ∈ g_q g)) as [Hq|Hq]; [eexists Scheduled, _; by split_and!|]. cbn [fmap option_fmap option_map].
  assert (h ∉ g_queues g) as Hnq by (unfold g_queues; rewrite !elem_of_app; tauto).
  destruct (reads_contains_block h (sc_storage c) (proj1 (si_store _ _ _ _ Hc))) as (s' & E & Hu).
  unfold on_storage. rewrite E. cbn [mbind option_bind]. eexists _, _. split; [done|].
  split; [by apply chain_ok_read|]. rewrite (ck_stored _ _ Hok). destruct (g_stored g h) eqn:Es; [done|].
  cbn. by destruct (decide (h ∈ sc_dead_end_blocks c)).
Qed.

Lemma locator_storage_unchanged fuel genesis index step hashes s l s' : db_valid s →
  locator_storage_loop fuel genesis index step hashes s = Some (l, s') → unchanged s s'.
Proof.
  revert index step hashes s. induction fuel as [|fuel IH]; intros index step hashes s Hv E; [done|].
  cbn [locator_storage_loop] in E. unfold mbind at 1, DM_bind in E.
  pose proof (reads_block_hash index s Hv) as Hr. cbn in Hr. destruct Hr as (s1 & E1 & Hu). rewrite E1 in E.
  unfold mbind at 1, DM_bind in E. destruct (v_hash (db_view s) index) as [h|]; [|done]. cbn [lift] in E.
  change ((λ a : H256, _) h s1) with (Some (l, s')) in E || idtac.
  assert (∀ x, unchanged s1 x → unchanged s x) as Ht by (intros x; by apply unchanged_trans).
  apply Ht. cbn in E. destruct (index <? _)%Z.
  - injection E as _ <-. destruct Hu as (Hv1 & _). by split.
  - eapply IH; [|exact E]. apply Hu.
Qed.

Lemma spec_locator c g : chain_ok c g → small g →
  ∃ l c', block_locator_hashes c = Some (l, c') ∧ chain_ok c' g.
Proof.
  intros Hok Hsmall. pose proof (ck_inv _ _ Hok) as Hc. unfold small, g_size, g_queues in Hsmall.
  assert (∃ l c', block_locator_hashes c = Some (l, c')) as (l & c' & E).
  { destruct (decide (length (concat [g_v g; g_r g; g_q g]) = 0%nat)) as [H0|H0].
    - destruct (locator_store_only c _ _ _ _ Hc eq_refl) as (x & l & c' & _ & E & _); [lia|done|eauto].
    - destruct (locator_two_loops c _ _ _ _ Hc eq_refl) as (x & l & c' & _ & E & _); [|done|eauto].
      cbn [concat] in *. rewrite app_nil_r in *. lia. }
  exists l, c'. split; [done|]. unfold block_locator_hashes in E.
  destruct (block_locator_hashes_for_queue c []) as [[hashes [i step]]|]; [|done]. cbn [mbind option_bind] in E.
  unfold block_locator_hashes_for_storage, on_storage in E.
  destruct (locator_storage_loop _ _ _ _ _ (sc_storage c)) as [[l1 s1]|] eqn:El; [|done]. injection E as _ <-.
  apply chain_ok_read; [done|]. eapply locator_storage_unchanged; [|exact El]. apply (si_store _ _ _ _ Hc).
Qed.

Lemma spec_length c g st : chain_ok c g → small g → to_queue_index st ≠ None →
  length_of_blocks_state c st = Some (Z.of_nat (length
    (match st with Verifying => g_v g | Requested => g_r g | _ => g_q g end))).
Proof.
  intros Hok Hsmall Hst. pose proof (si_queues _ _ _ _ (ck_inv _ _ Hok)) as Hq. unfold hqc_rep in Hq.
  unfold small, g_size, g_queues in Hsmall. rewrite !length_app in Hsmall.
  assert (∀ i l, [g_v g; g_r g; g_q g] !! i = Some l → (length l ≤ length (g_v g) + length (g_r g) + length (g_q g))%nat →
    hqc_len_of (sc_hash_chain c) i = Some (Z.of_nat (length l))) as Hlen.
  { intros i l Hi Hle. destruct (Forall2_lookup_r _ _ _ _ _ Hq Hi) as (q & Eq & Hr). unfold hqc_len_of. rewrite Eq.
    cbn [mbind option_bind fmap option_fmap option_map]. f_equal. apply hq_queries; [done|]. unfold fits. lia. }
  destruct st; try done; unfold length_of_blocks_state; cbn [to_queue_index mbind option_bind]; apply Hlen; try done; lia.
Qed.

Lemma spec_length_stored c g : chain_ok c g → small g → ∃ n, length_of_blocks_state c Stored = Some n.
Proof.
  intros Hok Hsmall. cbn. rewrite (best_number _ _ _ _ (ck_inv _ _ Hok)). unfold small, g_size in Hsmall.
  rewrite u32_add_fits; [eauto|]. unfold fits.
  pose proof (si_nonempty _ _ _ _ (ck_inv _ _ Hok)). destruct (g_hs g); [done|]. cbn [length] in *. lia.
Qed.

Lemma spec_best_requested c g n : chain_ok c g →
  best_n_of_blocks_state c Requested n = Some (take (Z.to_nat n) (g_r g)).
Proof.
  intros Hok. pose proof (si_queues _ _ _ _ (ck_inv _ _ Hok)) as Hq. unfold hqc_rep in Hq.
  destruct (Forall2_lookup_r _ _ _ 1%nat (g_r g) Hq eq_refl) as (q & Eq & (E & _)).
  cbn. unfold hqc_front_n_at, REQUESTED_QUEUE. rewrite Eq. cbn. unfold hq_front_n. by rewrite E.
Qed.

Lemma spec_best_header c g : chain_ok c g → small g →
  ∃ b, best_block_header c = Some b ∧ u32 (bb_number b + 1).
Proof.
  intros Hok Hsmall. pose proof (ck_inv _ _ Hok) as Hc. unfold small, g_size in Hsmall.
  pose proof (best_number _ _ _ _ Hc) as Eb. pose proof (si_headers _ _ _ _ Hc) as [Hh _]. pose proof Hh as (_ & Hq & _).
  pose proof (si_nonempty _ _ _ _ Hc) as Hne. assert (1 ≤ length (g_hs g))%nat by (destruct (g_hs g); [done|cbn; lia]).
  destruct (hq_queries _ _ Hq) as (El & _); [rewrite length_fmap; unfold fits; lia|].
  unfold best_block_header, bhc_information. cbn [hi_best]. rewrite El, length_fmap, Eb.
  case Z.eqb_spec; intros H0.
  - eexists. split; [done|]. rewrite Eb. unfold fits. lia.
  - rewrite u32_add_fits by (unfold fits; lia). cbn [mbind option_bind]. rewrite (bhc_at_spec _ _ _ _ Hh).
    destruct (g_hd g !! Z.to_nat (Z.of_nat (length (g_hd g)) - 1)) as [x|] eqn:Ex.
    + eexists. split; [done|]. cbn. unfold fits. lia.
    + apply lookup_ge_None in Ex. lia.
Qed.

Lemma spec_db_block c g h : chain_ok c g → ∃ b c', on_storage (db_block (RefHash h)) c = Some (b, c') ∧ chain_ok c' g.
Proof.
  intros Hok. destruct (reads_db_block (RefHash h) (sc_storage c) (proj1 (si_store _ _ _ _ (ck_inv _ _ Hok)))) as (s & E & Hu).
  unfold on_storage. rewrite E. eexists _, _. split; [done|]. by apply chain_ok_read.
Qed.

Lemma spec_dead_end c g h : chain_ok c g → ∃ c', mark_dead_end_block h c = Some (tt, c') ∧ chain_ok c' g.
Proof.
  intros [Hi Hs Hnd Hn Hk]. eexists. split; [done|]. split; try done. destruct Hi. by split.
Qed.

(** ** What forgetting leaves *)

(** [c'] is the chain without the hashes of [Q]; some headers may be gone. *)
Definition forgotten (Q : H256 → Prop) `{∀ h, Decision (Q h)} (g : Ghost) (c' : SyncChain T) : Prop :=
  ∃ hd, hd `prefix_of` g_hd g ∧ chain_ok c' (g_without Q hd g).

Lemma known_prefix hd hd' : hd' `prefix_of` hd → Forall (known_header W) hd → Forall (known_header W) hd'.
Proof. intros [k ->] [H _]%Forall_app. done. Qed.

Lemma cut_prefix h hd : cut h hd `prefix_of` hd.
Proof. unfold cut. destruct (list_find _ _) as [[]|]; [|done]. apply prefix_take. Qed.

Lemma cuts_prefix l hd : foldl (λ hd h, cut h hd) hd l `prefix_of` hd.
Proof. revert hd. induction l as [|h l IH]; intros hd; [done|]. cbn. etrans; [apply IH|apply cut_prefix]. Qed.

Lemma small_headers g : small g → u32 (Z.of_nat (length (g_hd g) + 1)).
Proof. intros Hs. apply (small_u32 g); [done|]. unfold g_size. lia. Qed.

Definition g_mem (g : Ghost) : Mem := mkMem [g_v g; g_r g; g_q g] (g_hd g).

Lemma spec_forget_blocks l c g : chain_ok c g → small g →
  ∃ c', forget_blocks l c = Some (tt, c') ∧ forgotten (λ h, h ∈ l) g c'.
Proof.
  intros Hok Hs. destruct (forget_blocks_spec (g_hs g) l c (g_mem g) (g_v g) (g_r g) (g_q g)) as (c' & E & Hc');
    [apply Hok|done|apply Hok|by apply small_headers|].
  exists c'. split; [done|]. exists (foldl (λ hd h, cut h hd) (g_hd g) l). split; [apply cuts_prefix|].
  eapply chain_ok_without; [done|by eapply keeps_forget_blocks| |].
  - exact Hc'.
  - eapply known_prefix; [apply cuts_prefix|apply Hok].
Qed.

Lemma spec_forget_block h c g : chain_ok c g → small g →
  ∃ p c', forget_block h c = Some (p, c') ∧ forgotten (λ x, x = h) g c'.
Proof.
  intros Hok Hs. destruct (forget_block_spec (g_hs g) c (g_mem g) h (g_v g) (g_r g) (g_q g)) as (p & c' & E & Hc');
    [apply Hok|done|apply Hok|by apply small_headers|].
  exists p, c'. split; [done|]. exists (cut h (g_hd g)). split; [apply cut_prefix|].
  eapply chain_ok_without; [done| |exact Hc'|eapply known_prefix; [apply cut_prefix|apply Hok]].
  assert (keeps_store (forget_block h)) as Hk by (unfold forget_block, forget_block_leave_header; keeps). by eapply Hk.
Qed.

Lemma spec_forget_leave h c g : chain_ok c g →
  ∃ p c', forget_block_leave_header h c = Some (p, c') ∧ chain_ok c' (g_without (λ x, x = h) (g_hd g) g).
Proof.
  intros Hok. pose proof (sim_forget (g_hs g) c (g_mem g) h (ck_inv _ _ Hok)) as Hsim.
  destruct (mem_forget_filter (g_mem g) h (g_v g) (g_r g) (g_q g) eq_refl (ck_nodup _ _ Hok)) as [a Ea]. rewrite Ea in Hsim.
  unfold simulates in Hsim. destruct (forget_block_leave_header h c) as [[p c']|] eqn:E; [|done].
  exists p, c'. split; [done|]. eapply chain_ok_without; [done|by eapply keeps_forget_leave|apply Hsim|apply Hok].
Qed.

Lemma filter_without_cons h l (k : list H256) :
  filter (λ x, ¬ x ∈ l) (filter (λ x, ¬ x = h) k) = filter (λ x, ¬ x ∈ h :: l) k.
Proof. rewrite list_filter_filter. apply list_filter_iff. intros x. rewrite elem_of_cons. tauto. Qed.

Lemma spec_forget_blocks_leave l c g : chain_ok c g →
  ∃ c', forget_blocks_leave_header l c = Some (tt, c') ∧ chain_ok c' (g_without (λ h, h ∈ l) (g_hd g) g).
Proof.
  revert c g. induction l as [|h l IH]; intros c g Hok.
  - exists c. split; [done|]. unfold g_without.
    rewrite !filter_all by (intros x _; apply not_elem_of_nil). by destruct g.
  - cbn [forget_blocks_leave_header]. destruct (spec_forget_leave h c g Hok) as (p & c1 & E1 & H1).
    rewrite SM_bind_run, E1. cbn [mbind option_bind]. destruct (IH c1 _ H1) as (c' & -> & Hc').
    exists c'. split; [done|]. unfold g_without in *. cbn in Hc'. by rewrite !filter_without_cons in Hc'.
Qed.

Lemma spec_forget_children h c g : chain_ok c g → small g →
  ∃ c', forget_block_with_children h c = Some (tt, c') ∧ forgotten (λ x, x ∈ doomed h (g_hd g)) g c' ∧
    h ∈ doomed h (g_hd g).
Proof.
  intros Hok Hs. destruct (forget_with_children_exact (g_hs g) c (g_mem g) h (g_v g) (g_r g) (g_q g)) as (c' & E & Hc');
    [apply Hok|done|apply Hok|by apply small_headers|].
  exists c'. split; [done|]. split.
  - exists (cut h (g_hd g)). split; [apply cut_prefix|].
    eapply chain_ok_without; [done| |exact Hc'|eapply known_prefix; [apply cut_prefix|apply Hok]].
    unfold forget_block_with_children in E. rewrite SM_bind_run in E. unfold sm_gets in E.
    destruct (collect_children _ _ _ _) as [l|]; [|done]. cbn [mbind option_bind] in E.
    by eapply keeps_forget_blocks.
  - unfold doomed. destruct (list_find _ _) as [[i x]|] eqn:Hf; [|apply list_elem_of_singleton; done].
    apply list_find_Some in Hf as (Hi & <- & _). rewrite (drop_S _ _ _ Hi). left.
Qed.

Lemma spec_forget_verifying h c g : chain_ok c g →
  ∃ p c', forget_block_with_state_leave_header h Verifying c = Some (p, c') ∧ (p = Missing ↔ h ∉ g_v g) ∧
    chain_ok c' (mkGhost (g_hs g) (g_stored g) (filter (λ x, x ≠ h) (g_v g)) (g_r g) (g_q g) (g_hd g)).
Proof.
  intros Hok. pose proof (sim_remove (g_hs g) c (g_mem g) VERIFYING_QUEUE h (ck_inv _ _ Hok)) as Hsim.
  unfold mem_queue in Hsim. cbn [g_mem mem_queues lookup list_lookup VERIFYING_QUEUE mbind option_bind] in Hsim.
  destruct (list_step_remove h (g_v g)) as (p & E & Hp). rewrite E in Hsim. unfold simulates in Hsim.
  assert (keeps_store (forget_block_with_state_leave_header h Verifying)) as Hk
    by (unfold forget_block_with_state_leave_header; keeps).
  cbn [mbind option_bind] in Hsim.
  assert (on_hashes (λ q, hqc_remove_at q VERIFYING_QUEUE h) c = forget_block_with_state_leave_header h Verifying c) as Eq by done.
  rewrite Eq in Hsim.
  destruct (forget_block_with_state_leave_header h Verifying c) as [[p' c']|] eqn:Ef; [|done]. destruct Hsim as [Ep Hc'].
  injection Ep as ->. exists p, c'. split; [done|]. split; [done|]. destruct Hok as [Hi Hst Hnd Hn Hkn].
  split; [exact Hc'|intros x; by rewrite (Hk _ _ _ Ef)| | |done].
  - unfold g_queues in *. cbn. eapply sublist_NoDup; [exact Hnd|]. apply sublist_app; [apply sublist_filter|done].
  - intros x Hx. apply Hn. unfold g_queues in *. cbn in Hx. rewrite elem_of_app, list_elem_of_filter in *. naive_solver.
Qed.

Lemma removes_run best hd l : (run_steps headers_step (HRemove <$> l) (best, hd)).2 =
  Some (best, foldl (λ hd h, cut h hd) hd l).
Proof.
  revert hd. induction l as [|h l IH]; intros hd; [done|]. cbn [fmap list_fmap run_steps headers_step option_fmap option_map].
  specialize (IH (cut h hd)). fold (cut h hd). cbn in IH |- *. by destruct (run_steps headers_step _ _).
Qed.

(** All requested, or all scheduled blocks are forgotten. *)
Lemma spec_forget_all c g : chain_ok c g → small g →
  ∃ c1 c', forget_all_blocks_with_state Requested c = Some (tt, c1) ∧
    forget_all_blocks_with_state Scheduled c1 = Some (tt, c') ∧
    ∃ hd, hd `prefix_of` g_hd g ∧ chain_ok c' (mkGhost (g_hs g) (g_stored g) (g_v g) [] [] hd).
Proof.
  intros Hok Hs.
  assert (∀ st c0 v r q hd, st = Requested ∨ st = Scheduled → (length hd ≤ length (g_hd g))%nat →
    (length (v ++ r ++ q) ≤ length (g_queues g))%nat →
    chain_ok c0 (mkGhost (g_hs g) (g_stored g) v r q hd) →
    ∃ c1 hd', forget_all_blocks_with_state st c0 = Some (tt, c1) ∧ hd' `prefix_of` hd ∧
      chain_ok c1 (mkGhost (g_hs g) (g_stored g) v (if decide (st = Requested) then [] else r)
        (if decide (st = Requested) then q else []) hd')) as Hall.
  { intros st c0 v r q hd Hst Hhd Hlen Hok0.
    assert (keeps_store (forget_all_blocks_with_state st)) as Hk by (unfold forget_all_blocks_with_state; keeps).
    pose proof (sim_forget_all (g_hs g) c0 (mkMem [v; r; q] hd) st (ck_inv _ _ Hok0)) as Hsim.
    destruct Hok0 as [Hi Hsto Hnd Hn Hkn]. unfold g_queues in *. cbn in Hkn, Hnd, Hn, Hsto.
    assert (u32 (Z.of_nat (length hd + length (concat [v; r; q])))) as Hfit.
    { unfold small, g_size, g_queues in Hs. cbn [concat]. rewrite app_nil_r. unfold fits. lia. }
    specialize (Hsim Hfit). cbn [mem_step] in Hsim. exists (from_option snd c0 (forget_all_blocks_with_state st c0)).
    unfold mem_queue, mem_on_headers in Hsim.
    destruct Hst as [-> | ->];
      cbn [to_queue_index mem_queues mem_headers lookup list_lookup REQUESTED_QUEUE SCHEDULED_QUEUE mbind option_bind
        list_step insert list_insert] in Hsim;
      rewrite removes_run in Hsim; cbn [mbind option_bind] in Hsim; unfold simulates in Hsim;
      destruct (forget_all_blocks_with_state _ c0) as [[[] c1]|] eqn:Ef; try done; destruct Hsim as [_ Hc1];
      eexists; (split; [reflexivity|]); (split; [apply cuts_prefix|]); cbn;
      (split; [exact Hc1|intros x; by rewrite (Hk _ _ _ Ef)| | |eapply known_prefix; [apply cuts_prefix|done]]);
      unfold g_queues; cbn; try (eapply sublist_NoDup; [exact Hnd|]);
      try (intros x Hx; apply Hn; rewrite !elem_of_app in *; set_solver).
    - apply sublist_app; [done|]. by apply sublist_app; [apply sublist_nil_l|].
    - apply sublist_app; [done|]. by apply sublist_app; [|apply sublist_nil_l]. }
  destruct (Hall Requested c (g_v g) (g_r g) (g_q g) (g_hd g)) as (c1 & hd1 & E1 & Hp1 & H1); try done; [by left|by destruct g|].
  destruct (Hall Scheduled c1 (g_v g) [] (g_q g) hd1) as (c2 & hd2 & E2 & Hp2 & H2); [by right|by apply prefix_length| |exact H1|].
  { unfold g_queues. rewrite !length_app. cbn. lia. }
  exists c1, c2. split_and!; [done..|]. exists hd2. split; [by etrans|]. exact H2.
Qed.

(** ** What arrives *)

Lemma inserts_headers best hd l : linked hd → Forall (known_header W) hd → Forall (known_header W) l →
  ∃ hd', (run_steps headers_step (HInsert <$> l) (best, hd)).2 = Some (best, hd') ∧
    Forall (known_header W) hd' ∧ (length hd' ≤ length hd + length l)%nat.
Proof.
  intros Hl Hk Hnew. revert hd Hl Hk. induction Hnew as [|x l Hx Hnew IH]; intros hd Hl Hk.
  { exists hd. split_and!; [done..|cbn; lia]. }
  cbn [fmap list_fmap run_steps headers_step]. destruct (decide (headers_tip best hd = _)) as [Ht|Ht].
  - rewrite decide_False by (by eapply extends_fresh). cbn [option_fmap option_map].
    destruct (IH (hd ++ [x])) as (hd' & E & Hk' & Hlen); [by eapply linked_snoc|by apply Forall_app; auto|].
    exists hd'. rewrite length_app in Hlen. cbn [length] in *. split_and!; [|done|lia].
    cbn in E |- *. by destruct (run_steps headers_step _ _).
  - destruct (IH hd Hl Hk) as (hd' & E & Hk' & Hlen). exists hd'. cbn [length]. split_and!; [|done|lia].
    cbn in E |- *. by destruct (run_steps headers_step _ _).
Qed.

Lemma small_grows g n : Z.of_nat (g_size g + n) < 2 ^ 31 → u32 (Z.of_nat (length (g_hd g) + n)).
Proof. unfold g_size, fits. lia. Qed.

Lemma chain_linked c g : chain_ok c g → linked (g_hd g).
Proof. intros Hok. apply (si_headers _ _ _ _ (ck_inv _ _ Hok)). Qed.

(** The store and the rest stay; the queues are as given. *)
Lemma chain_ok_queues c c' g v r q hd : chain_ok c g → sc_storage c' = sc_storage c →
  sync_inv c' (g_hs g) [v; r; q] hd → NoDup (v ++ r ++ q) →
  (∀ h, h ∈ v ++ r ++ q → g_stored g h = false) → Forall (known_header W) hd →
  chain_ok c' (mkGhost (g_hs g) (g_stored g) v r q hd).
Proof. intros [Hi Hst Hnd Hn Hkn] Es Hi' Hnd' Hn' Hk'. split; try done. intros h. by rewrite Es. Qed.

Lemma spec_schedule l c g : chain_ok c g → Z.of_nat (g_size g + length l) < 2 ^ 31 →
  Forall (known_header W) l → NoDup (ih_hash <$> l) →
  (∀ h, h ∈ ih_hash <$> l → (h ∉ g_queues g) ∧ g_stored g h = false) →
  ∃ c' hd, schedule_blocks_headers l c = Some (tt, c') ∧ (length hd ≤ length (g_hd g) + length l)%nat ∧
    chain_ok c' (mkGhost (g_hs g) (g_stored g) (g_v g) (g_r g) (g_q g ++ (ih_hash <$> l)) hd).
Proof.
  intros Hok Hs Hknown Hnd Hnew.
  pose proof (sim_schedule (g_hs g) c (g_mem g) l (ck_inv _ _ Hok) (small_grows _ _ Hs)) as Hsim.
  assert (keeps_store (schedule_blocks_headers l)) as Hk by (unfold schedule_blocks_headers; keeps).
  destruct (inserts_headers (bb_hash (best_of (g_hs g))) (g_hd g) l) as (hd & Ehd & Hkd & Hlen);
    [by eapply chain_linked|apply Hok|done|].
  assert (NoDup (g_queues g ++ (ih_hash <$> l))) as Hnd'.
  { apply list.NoDup_app. split_and!; [apply Hok| |done]. intros h Hq Hl. by destruct (Hnew h Hl). }
  unfold g_queues in Hnd'. cbn [mem_step] in Hsim. unfold mem_queue, mem_on_headers in Hsim.
  cbn [g_mem mem_queues mem_headers lookup list_lookup SCHEDULED_QUEUE mbind option_bind list_step] in Hsim.
  rewrite decide_True in Hsim by (rewrite <-!app_assoc in Hnd'; by apply list.NoDup_app in Hnd' as (_ & _ & (_ & _ & ?)%list.NoDup_app)).
  cbn [mbind option_bind mem_queues mem_headers insert list_insert] in Hsim. rewrite Ehd in Hsim.
  cbn [mbind option_bind] in Hsim. unfold simulates in Hsim.
  destruct (schedule_blocks_headers l c) as [[[] c']|] eqn:E; [|done]. exists c', hd. split; [done|]. split; [done|].
  eapply chain_ok_queues; [done|by eapply Hk|apply Hsim| | |done].
  - by rewrite <-!app_assoc in Hnd'.
  - intros h. rewrite !app_assoc, elem_of_app, <-!app_assoc. intros [Hq|Hl]; [by apply (ck_new _ _ Hok)|by apply Hnew].
Qed.

Lemma spec_request n c g : chain_ok c g →
  ∃ c', request_blocks_hashes n c = Some (take (Z.to_nat n) (g_q g), c') ∧
    chain_ok c' (mkGhost (g_hs g) (g_stored g) (g_v g) (g_r g ++ take (Z.to_nat n) (g_q g)) (drop (Z.to_nat n) (g_q g)) (g_hd g)).
Proof.
  intros Hok. pose proof (sim_move (g_hs g) c (g_mem g) SCHEDULED_QUEUE REQUESTED_QUEUE n (ck_inv _ _ Hok)) as Hsim.
  fold (request_blocks_hashes (T:=T) n) in Hsim.
  assert (keeps_store (request_blocks_hashes n)) as Hk by (unfold request_blocks_hashes; keeps).
  unfold mem_move, mem_queue in Hsim.
  cbn [g_mem mem_queues mem_headers lookup list_lookup SCHEDULED_QUEUE REQUESTED_QUEUE mbind option_bind list_step insert list_insert] in Hsim.
  assert (g_v g ++ (g_r g ++ take (Z.to_nat n) (g_q g)) ++ drop (Z.to_nat n) (g_q g) = g_queues g) as Eq
    by (unfold g_queues; by rewrite <-app_assoc, take_drop).
  pose proof (ck_nodup _ _ Hok) as Hnd. rewrite <-Eq in Hnd.
  rewrite decide_True in Hsim by (by apply list.NoDup_app in Hnd as (_ & _ & (? & _)%list.NoDup_app)).
  cbn [mbind option_bind] in Hsim. unfold simulates in Hsim.
  destruct (request_blocks_hashes n c) as [[l c']|] eqn:E; [|done]. destruct Hsim as [El Hc']. injection El as ->.
  exists c'. split; [done|]. eapply chain_ok_queues; [done|by eapply Hk|apply Hc'|done| |apply Hok].
  intros h. rewrite Eq. apply (ck_new _ _ Hok).
Qed.

Lemma spec_verify_block x c g : chain_ok c g → Z.of_nat (g_size g + 1) < 2 ^ 31 → known_header W x →
  (ih_hash x ∉ g_queues g) → g_stored g (ih_hash x) = false →
  ∃ c' hd, chain_verify_block x c = Some (tt, c') ∧ (length hd ≤ length (g_hd g) + 1)%nat ∧
    chain_ok c' (mkGhost (g_hs g) (g_stored g) (g_v g ++ [ih_hash x]) (g_r g) (g_q g) hd).
Proof.
  intros Hok Hs Hx Hnq Hns.
  pose proof (sim_verify (g_hs g) c (g_mem g) x (ck_inv _ _ Hok) (small_grows _ _ Hs)) as Hsim.
  assert (keeps_store (chain_verify_block x)) as Hk by (unfold chain_verify_block; keeps).
  destruct (inserts_headers (bb_hash (best_of (g_hs g))) (g_hd g) [x]) as (hd & Ehd & Hkd & Hlen);
    [by eapply chain_linked|apply Hok|by apply list.Forall_singleton|].
  assert (Permutation ((g_v g ++ [ih_hash x]) ++ g_r g ++ g_q g) (ih_hash x :: g_queues g)) as Hperm
    by (unfold g_queues; rewrite <-app_assoc; symmetry; apply Permutation_middle).
  cbn [mem_step] in Hsim. unfold mem_queue, mem_on_headers in Hsim.
  cbn [g_mem mem_queues mem_headers lookup list_lookup VERIFYING_QUEUE mbind option_bind list_step] in Hsim.
  rewrite decide_False in Hsim by (unfold g_queues in Hnq; rewrite elem_of_app in Hnq; tauto).
  cbn [mbind option_bind mem_queues mem_headers insert list_insert] in Hsim.
  change [HInsert x] with (HInsert <$> [x]) in Hsim. rewrite Ehd in Hsim.
  cbn [mbind option_bind] in Hsim. unfold simulates in Hsim.
  destruct (chain_verify_block x c) as [[[] c']|] eqn:E; [|done]. exists c', hd. split; [done|]. split; [done|].
  eapply chain_ok_queues; [done|by eapply Hk|apply Hsim| | |done].
  - rewrite Hperm. apply list.NoDup_cons. split; [done|]. apply Hok.
  - intros h. rewrite Hperm, elem_of_cons. intros [->|Hq]; [done|by apply (ck_new _ _ Hok)].
Qed.

Lemma spec_verify_blocks l c g : chain_ok c g → Z.of_nat (g_size g + 2 * length l) < 2 ^ 31 →
  Forall (known_header W) l → NoDup (ih_hash <$> l) →
  (∀ h, h ∈ ih_hash <$> l → (h ∉ g_queues g) ∧ g_stored g h = false) →
  ∃ c' hd, verify_blocks l c = Some (tt, c') ∧ (length hd ≤ length (g_hd g) + length l)%nat ∧
    chain_ok c' (mkGhost (g_hs g) (g_stored g) (g_v g ++ (ih_hash <$> l)) (g_r g) (g_q g) hd).
Proof.
  revert c g. induction l as [|x l IH]; intros c g Hok Hs Hknown Hnd Hnew.
  { exists c, (g_hd g). split_and!; [done|cbn; lia|]. cbn. rewrite app_nil_r. by destruct g. }
  apply list.Forall_cons in Hknown as [Hx Hknown]. apply list.NoDup_cons in Hnd as [Hxl Hnd].
  destruct (Hnew (ih_hash x)) as [Hnq Hns]; [left|].
  destruct (spec_verify_block x c g) as (c1 & hd1 & E1 & Hl1 & H1); try done.
  { cbn [length] in Hs. lia. }
  cbn [verify_blocks]. rewrite SM_bind_run, E1. cbn [mbind option_bind].
  destruct (IH c1 _ H1) as (c' & hd & E & Hl & Hc'); [|done|done| |].
  - unfold g_size, g_queues in *. cbn [g_hs g_v g_r g_q g_hd length] in *. rewrite !length_app in *. cbn [length]. lia.
  - intros h Hh. destruct (Hnew h) as [Hq Hst]; [by right|]. split; [|done].
    unfold g_queues in *. cbn [g_v g_r g_q]. rewrite !elem_of_app, list_elem_of_singleton in *. intros [[?| ->]|?]; tauto.
  - exists c', hd. cbn [g_hd g_v g_r g_q g_hs g_stored length] in *. split_and!; [done|lia|].
    cbn [fmap list_fmap]. by rewrite <-app_assoc in Hc'.
Qed.

(** ** Storing a verified block *)

(** The parent of the block is stored, at the end of a side route that leaves
    the chain less than 2048 blocks before. *)
Definition attached (s : BlockChainDatabase T) (b : IndexedBlock) : Prop :=
  ib_hash b ≠ hash_default ∧ v_contains (db_view s) (ib_parent b) = true ∧
  ∃ hs a anc route, state_inv s hs ∧ hs !! a = Some anc ∧ linked_from (db_view s) anc route ∧
    (∀ h, h ∈ route → h ∉ hs) ∧ ib_parent b = tip anc route ∧ (length route < MAX_FORK_ROUTE_PRESET)%nat.

Lemma state_inv_unique s hs hs' : state_inv s hs → state_inv s hs' → hs = hs'.
Proof. intros [_ H1] [_ H2]. apply list_eq. intros i. by rewrite <-(ci_hash_nat _ _ _ i H1), (ci_hash_nat _ _ _ i H2). Qed.

Lemma headers_after_part h hd : (length (headers_after h hd) ≤ length hd)%nat ∧
  (Forall (known_header W) hd → Forall (known_header W) (headers_after h hd)).
Proof.
  unfold headers_after. case_decide; [|done]. destruct hd as [|x hd]; [done|]. cbn. split; [lia|].
  by intros [_ ?]%list.Forall_cons.
Qed.

Lemma spec_insert b c g : chain_ok c g → Z.of_nat (g_size g + 4096) < 2 ^ 31 → attached (sc_storage c) b →
  (ib_hash b ∉ g_queues g) → g_stored g (ib_hash b) = false →
  ∃ r hs hd c', insert_best_block b c = Some (Ok r, c') ∧
    (length hs ≤ length (g_hs g) + 2049)%nat ∧ (length hd ≤ length (g_hd g))%nat ∧
    chain_ok c' (mkGhost hs (λ h, bool_decide (h = ib_hash b) || g_stored g h) (g_v g) (g_r g) (g_q g) hd).
Proof.
  intros Hok Hs (Hh & Hp & hs & a & anc & route & Hst & Ha & Hl & Hout & Etip & Hroute) Hnq Hns.
  pose proof (ck_inv _ _ Hok) as Hc. rewrite (state_inv_unique _ _ _ Hst (si_store _ _ _ _ Hc)) in *. clear hs Hst.
  pose proof (lookup_lt_Some _ _ _ Ha) as Halt.
  assert (length route < 2048)%nat as Hr2 by (unfold MAX_FORK_ROUTE_PRESET in Hroute; lia).
  unfold g_size in Hs.
  pose proof (insert_best_block_new c (g_hs g) _ _ b a anc route Hc ltac:(lia) Hh ltac:(by rewrite (ck_stored _ _ Hok))
    Hp Ha Hl Hout ltac:(lia) Etip) as Hins.
  destruct (headers_after_part (ib_hash b) (g_hd g)) as [Hlen Hkn].
  assert (∀ r hs', (length hs' ≤ length (g_hs g) + 2049)%nat →
    (∃ c', insert_best_block b c = Some (Ok r, c') ∧ sync_inv c' hs' [g_v g; g_r g; g_q g] (headers_after (ib_hash b) (g_hd g)) ∧
      stores b (sc_storage c) (sc_storage c')) →
    ∃ r hs hd c', insert_best_block b c = Some (Ok r, c') ∧
    (length hs ≤ length (g_hs g) + 2049)%nat ∧ (length hd ≤ length (g_hd g))%nat ∧
    chain_ok c' (mkGhost hs (λ h, bool_decide (h = ib_hash b) || g_stored g h) (g_v g) (g_r g) (g_q g) hd)) as Hdone.
  { intros r hs' Hl' (c' & E & Hc' & Hsto). exists r, hs', (headers_after (ib_hash b) (g_hd g)), c'. split_and!; try done.
    split; try done; cbn.
    - intros h. unfold v_contains. rewrite Hsto. pose proof (ck_stored _ _ Hok h) as Es. unfold v_contains in Es.
      case_decide as Hb.
      + rewrite (bool_decide_true (h = ib_hash b)) by done. apply bool_decide_true. by eexists.
      + by rewrite (bool_decide_false (h = ib_hash b)).
    - apply Hok.
    - intros h Hq. rewrite bool_decide_false by (by intros ->). by apply (ck_new _ _ Hok).
    - apply Hkn, Hok. }
  unfold insertion in Hins. case_decide as H1; [|rewrite decide_True in Hins by done; case_decide as H2];
    cbn [is_ok] in Hins; unfold after_insertion in Hins; cbn [is_ok] in Hins; (eapply Hdone; [|exact Hins]);
    rewrite ?length_app, ?length_take; cbn [length]; lia.
Qed.
End chain_of_client.
