(* ===== verification/ClientInv.v ===== *)
(** * What the client keeps true

    The invariant of the synchronization client across its parts: the queues of
    the chain, the tasks of the peers and the pool of orphans.  Computations are
    reasoned about by total correctness: they do not panic, and their result and
    final state satisfy a postcondition. *)

From S2P Require Import Prelude External Primitives Serialization Compact Crypto Chain.
From S2P Require Import Storage Network Work Verification Kv KvRefine BlockChainDb ChainInv ChainOps.
From S2P Require Import HashQueue HeadersChain SyncChain SyncOps Locator SyncQueues.
From S2P Require Import Message MessageTypes SpeedMeter Collections PeersTasks OrphanPool Peers.
From S2P Require Import ClientCore ClientChain.
From stdpp Require Import gmap sorting.
#[local] Open Scope Z_scope.

Section client.
Context {U : U256Ops} {UL : U256Laws U} {R : RugOps} {H : Sha256Ops} {V : VrfOps} {P : Profile}.
Context {T : Type} {K : KeyValueDatabase T} {KS : KvSpec T}.
Context {MP : Type → Type} {LP : LinkedHashMap PeerIndex MP} {LPL : LinkedHashMapLaws PeerIndex MP}.
Context {MH : Type → Type} {LH : LinkedHashMap H256 MH} {LHL : LinkedHashMapLaws H256 MH}.
Context {OP : HashOrder PeerIndex} {OH : HashOrder H256}.
Context {C F : Type} (network : Network) (precise_time_s : nat → f64) (get_time : nat → Z).
Context (W : Universe).

Abbreviation Core := (Core (T:=T) (MP:=MP) (MH:=MH) (C:=C) (F:=F)).
Abbreviation CM := (CM (T:=T) (MP:=MP) (MH:=MH) (C:=C) (F:=F)).
Implicit Types c : Core.

(** ** Total correctness *)

Definition runs {A} (m : CM A) c (Q : A → Core → Prop) : Prop := ∃ a c', m c = Some (a, c') ∧ Q a c'.

Lemma runs_ret {A} (a : A) c (Q : A → Core → Prop) : Q a c → runs (mret a) c Q.
Proof. intros HQ. by exists a, c. Qed.

Lemma runs_bind {A B} (m : CM A) (k : A → CM B) c Q : runs m c (λ a c', runs (k a) c' Q) → runs (m ≫= k) c Q.
Proof.
  intros (a & c1 & E & b & c2 & E2 & HQ). exists b, c2. split; [|done]. unfold mbind, CM_bind. by rewrite E.
Qed.

Lemma runs_mono {A} (m : CM A) c (Q Q' : A → Core → Prop) : runs m c Q → (∀ a c', Q a c' → Q' a c') → runs m c Q'.
Proof. intros (a & c' & E & HQ) Hm. exists a, c'. auto. Qed.

(** Running [m] first. *)
Lemma runs_after {A B} (m : CM A) (k : A → CM B) c Q Q' :
  runs m c Q → (∀ a c', Q a c' → runs (k a) c' Q') → runs (m ≫= k) c Q'.
Proof. intros Hm Hk. apply runs_bind. by eapply runs_mono. Qed.

Lemma runs_assoc {A B D} (m : CM A) (k : A → CM B) (k' : B → CM D) c Q :
  runs ((m ≫= k) ≫= k') c Q → runs (m ≫= (λ a, k a ≫= k')) c Q.
Proof.
  intros (d & c' & E & HQ). exists d, c'. split; [|done]. unfold mbind, CM_bind in *. by destruct (m c) as [[a c1]|].
Qed.

Lemma runs_gets {A} (f : Core → A) c Q : Q (f c) c → runs (cm_gets f) c Q.
Proof. intros HQ. by exists (f c), c. Qed.

Lemma runs_modify (f : Core → Core) c (Q : unit → Core → Prop) : Q tt (f c) → runs (cm_modify f) c Q.
Proof. intros HQ. by exists tt, (f c). Qed.

Lemma runs_lift {A} (o : option A) a c Q : o = Some a → Q a c → runs (cm_lift o) c Q.
Proof. intros -> HQ. by exists a, c. Qed.

Lemma runs_query {A} (f : Core → option A) a c Q : f c = Some a → Q a c → runs (cm_query f) c Q.
Proof. intros E HQ. exists a, c. split; [|done]. unfold cm_query. by rewrite E. Qed.

Lemma runs_now c (Q : f64 → Core → Prop) : (∀ t, Q t (add_reading c)) → runs (now_s precise_time_s) c Q.
Proof. intros HQ. by eexists _, _. Qed.

Lemma runs_chain {A} (m : SM T A) a chain c Q : m (co_chain c) = Some (a, chain) → Q a (set_chain chain c) →
  runs (on_chain m) c Q.
Proof. intros E HQ. exists a, (set_chain chain c). split; [|done]. unfold on_chain. by rewrite E. Qed.

Lemma runs_tasks f pt c (Q : unit → Core → Prop) : f (co_peers_tasks c) = Some pt → Q tt (set_tasks pt c) →
  runs (on_tasks f) c Q.
Proof. intros E HQ. exists tt, (set_tasks pt c). split; [|done]. unfold on_tasks. by rewrite E. Qed.

Lemma runs_tasks_ret {A} f c (Q : A → Core → Prop) :
  Q (f (co_peers_tasks c)).1 (set_tasks (f (co_peers_tasks c)).2 c) → runs (on_tasks_ret f) c Q.
Proof. intros HQ. eexists _, _. split; [|exact HQ]. unfold on_tasks_ret. by destruct (f _). Qed.

Lemma runs_pool {A} f (a : A) pool c Q : f (co_orphaned_blocks_pool c) = Some (a, pool) → Q a (set_pool pool c) →
  runs (on_pool f) c Q.
Proof. intros E HQ. exists a, (set_pool pool c). split; [|done]. unfold on_pool. by rewrite E. Qed.

(** A computation that first looks at the state. *)
Lemma runs_eq {A} (m m' : CM A) c Q : m c = m' c → runs m' c Q → runs m c Q.
Proof. intros E. unfold runs. by rewrite E. Qed.

(** A loop keeps what each round keeps. *)
Lemma runs_each {A} (f : A → CM unit) l c (I : Core → Prop) :
  (∀ x c, x ∈ l → I c → runs (f x) c (λ _, I)) → I c → runs (cm_each f l) c (λ _, I).
Proof.
  revert c. induction l as [|x l IH]; intros c Hf HI; cbn [cm_each]; [by apply runs_ret|].
  eapply runs_after; [apply Hf; [by left|done]|]. intros [] c' HI'. apply IH; [|done]. intros y c0 Hy. apply Hf. by right.
Qed.

Lemma runs_when b (m : CM unit) c (Q : unit → Core → Prop) :
  (b = true → runs m c Q) → (b = false → Q tt c) → runs (cm_when b m) c Q.
Proof. intros H1 H2. destruct b; [by apply H1|]. apply runs_ret. by apply H2. Qed.

(** ** The invariant *)

(** Somebody is asked for the block, or it has arrived and waits. *)
Definition held (pt : PeersTasks MP) (pool : OrphanBlocksPool (M:=MH)) (h : H256) : Prop :=
  (∃ peer, h ∈ asked pt peer) ∨ ∃ b, in_pool (orphaned_blocks pool) b ∧ ib_hash b = h.

(** A hash that is neither being verified nor stored. *)
Definition untouched (g : Ghost) (h : H256) : Prop := (h ∉ g_v g) ∧ g_stored g h = false.

(** The hashes of [limbo] are requested without being held, in the middle of an
    operation. *)
Record core_inv (g : Ghost) (limbo : list H256) (chain : SyncChain T) (pt : PeersTasks MP)
    (pool : OrphanBlocksPool (M:=MH)) (m m' : AverageSpeedMeter) (st : State) : Prop := {
  iv_chain : chain_ok W chain g;
  iv_tasks : tasks_ok pt;
  iv_pool : pool_ok pool;
  iv_orphans b : in_pool (orphaned_blocks pool) b →
    known_header W (ib_header b) ∧ untouched g (ib_hash b) ∧ untouched g (ib_parent b);
  iv_meters : meter_ok m ∧ meter_ok m';
  iv_saturated : is_saturated st = true → g_r g = [] ∧ g_q g = [];
  iv_held h : h ∈ g_r g → h ∈ limbo ∨ held pt pool h;
}.

Definition inv (g : Ghost) (limbo : list H256) c : Prop :=
  core_inv g limbo (co_chain c) (co_peers_tasks c) (co_orphaned_blocks_pool c) (co_block_speed_meter c)
    (co_sync_speed_meter c) (co_state c).

(** No hash comes to be requested or scheduled. *)
Definition asks_less (g g' : Ghost) : Prop := ∀ h, h ∈ g_r g' ++ g_q g' → h ∈ g_r g ++ g_q g.

(** The stored chain and the blocks under verification stay; nothing grows. *)
Definition calm (g g' : Ghost) : Prop :=
  g_hs g' = g_hs g ∧ g_stored g' = g_stored g ∧ g_v g' = g_v g ∧ (g_size g' ≤ g_size g)%nat ∧ asks_less g g'.

Lemma asks_less_refl g : asks_less g g.
Proof. by intros h. Qed.

#[local] Hint Resolve asks_less_refl : core.

Lemma asks_less_trans g1 g2 g3 : asks_less g1 g2 → asks_less g2 g3 → asks_less g1 g3.
Proof. intros Ha Hb h Hh. by apply Ha, Hb. Qed.

Lemma asks_less_without (Q : H256 → Prop) `{∀ h, Decision (Q h)} hd g : asks_less g (g_without Q hd g).
Proof. intros h. unfold g_without. cbn. rewrite !elem_of_app, !list_elem_of_filter. tauto. Qed.

Lemma calm_refl g : calm g g.
Proof. done. Qed.

Lemma calm_trans g1 g2 g3 : calm g1 g2 → calm g2 g3 → calm g1 g3.
Proof. intros (?&?&?&?&Ha) (?&?&?&?&Hb). split_and!; [congruence..|lia|]. by eapply asks_less_trans. Qed.

Lemma calm_small g g' : calm g g' → small g → small g'.
Proof. unfold small. intros (_ & _ & _ & ? & _) ?. lia. Qed.

(** The invariant holds again after a calm operation. *)
Definition settled (g : Ghost) (limbo : list H256) c : Prop := ∃ g', inv g' limbo c ∧ calm g g'.

Lemma inv_settled g limbo c : inv g limbo c → settled g limbo c.
Proof. intros Hi. by exists g. Qed.

Lemma settled_trans g g' limbo c : calm g g' → settled g' limbo c → settled g limbo c.
Proof. intros Hc (g2 & Hi & Hc2). exists g2. split; [done|]. by eapply calm_trans. Qed.

(** ** The parts one by one *)

Lemma inv_chain_read g limbo c chain : inv g limbo c → chain_ok W chain g → inv g limbo (set_chain chain c).
Proof. intros [] Hc. by split. Qed.

(** Tasks that ask for no less. *)
Lemma inv_tasks g limbo c pt : inv g limbo c → tasks_ok pt →
  (∀ h peer, h ∈ g_r g → h ∈ asked (co_peers_tasks c) peer → ∃ q, h ∈ asked pt q) → inv g limbo (set_tasks pt c).
Proof.
  intros [] Hp Ha. split; try done. intros h Hh. destruct (iv_held0 h Hh) as [?|[[peer Hx]|?]]; [by left| |by right; right].
  right. left. by eapply Ha.
Qed.

Lemma inv_tasks_same g limbo c pt : inv g limbo c → tasks_ok pt →
  pt_blocks_requests pt = pt_blocks_requests (co_peers_tasks c) → inv g limbo (set_tasks pt c).
Proof.
  intros Hi Hp E. apply inv_tasks; [done..|]. intros h peer _ Hh. exists peer.
  by rewrite (asked_same (co_peers_tasks c)) by (by rewrite E).
Qed.

Lemma inv_limbo g limbo limbo' c : inv g limbo c → (∀ h, h ∈ limbo → h ∈ limbo') → inv g limbo' c.
Proof. intros [] Hl. split; try done. intros h Hh. destruct (iv_held0 h Hh); auto. Qed.

(** Neither in a queue nor stored. *)
Definition is_new (g : Ghost) (h : H256) : Prop := (h ∉ g_queues g) ∧ g_stored g h = false.

Lemma unknown_iff g h st (dead : gset H256) : state_says g h st → (st = DeadEnd → h ∈ dead) → (st = Unknown → h ∉ dead) →
  st = Unknown ↔ is_new g h ∧ h ∉ dead.
Proof.
  intros Hs Hd Hu. split; [intros ->; split; [exact Hs|by apply Hu]|]. intros [[Hq Hn] Hdead].
  unfold g_queues in Hq. rewrite !elem_of_app in Hq. destruct st; cbn in Hs; try tauto. destruct Hs as [_ Hs]. congruence.
Qed.

(** Asking the chain for the state of a block. *)
Lemma runs_state h c g limbo (Q : BlockState → Core → Prop) : inv g limbo c →
  (∀ st chain, chain_ok W chain g → state_says g h st → sc_dead_end_blocks chain = sc_dead_end_blocks (co_chain c) →
     (st = DeadEnd → h ∈ sc_dead_end_blocks (co_chain c)) →
     (st = Unknown ↔ is_new g h ∧ h ∉ sc_dead_end_blocks (co_chain c)) →
     inv g limbo (set_chain chain c) → Q st (set_chain chain c)) →
  runs (on_chain (block_state h)) c Q.
Proof.
  intros Hi HQ. destruct (spec_block_state W h _ g (iv_chain _ _ _ _ _ _ _ _ Hi)) as (st & chain & E & Hc & Hs & Ed & Hd & Hu).
  eapply runs_chain; [exact E|]. apply HQ; try done; [by apply unknown_iff|by apply inv_chain_read].
Qed.

Lemma runs_length st c g limbo (Q : Z → Core → Prop) : inv g limbo c → small g → to_queue_index st ≠ None →
  Q (Z.of_nat (length (match st with Verifying => g_v g | Requested => g_r g | _ => g_q g end))) c →
  runs (chain_length st) c Q.
Proof.
  intros Hi Hs Hst HQ. eapply runs_query; [|exact HQ]. by apply (spec_length W); [apply Hi|..].
Qed.

Lemma runs_locator c g limbo (Q : list H256 → Core → Prop) : inv g limbo c → small g →
  (∀ l c', inv g limbo c' → co_state c' = co_state c → co_peers_tasks c' = co_peers_tasks c → Q l c') → runs (on_chain block_locator_hashes) c Q.
Proof.
  intros Hi Hs HQ. destruct (spec_locator W _ g (iv_chain _ _ _ _ _ _ _ _ Hi) Hs) as (l & chain & E & Hc).
  eapply runs_chain; [exact E|]. apply HQ; [by apply inv_chain_read|done..].
Qed.

Lemma runs_useful peer c g limbo (Q : unit → Core → Prop) : inv g limbo c →
  (∀ c', inv g limbo c' → co_state c' = co_state c → co_chain c' = co_chain c →
     co_orphaned_blocks_pool c' = co_orphaned_blocks_pool c → Q tt c') → runs (on_tasks (useful_peer peer)) c Q.
Proof.
  intros Hi HQ. destruct (useful_peer_ok peer _ (iv_tasks _ _ _ _ _ _ _ _ Hi)) as (pt & E & Hp & Er & _).
  eapply runs_tasks; [exact E|]. apply HQ; try done. by apply inv_tasks_same.
Qed.

Lemma runs_misbehaving peer c (Q : unit → Core → Prop) :
  (∀ l p, Q tt (add_effects l (set_peers p c))) → runs (misbehaving peer) c Q.
Proof. intros HQ. by eexists _, _. Qed.

(** All but the tasks and the record of the past. *)
Definition frame c c' : Prop :=
  co_chain c' = co_chain c ∧ co_orphaned_blocks_pool c' = co_orphaned_blocks_pool c ∧
  co_block_speed_meter c' = co_block_speed_meter c ∧ co_sync_speed_meter c' = co_sync_speed_meter c ∧
  co_state c' = co_state c ∧ co_config c' = co_config c.

Definition agree c c' : Prop := frame c c' ∧ co_peers_tasks c' = co_peers_tasks c.

Lemma inv_agree g limbo c c' : agree c c' → inv g limbo c → inv g limbo c'.
Proof. intros [(E1 & E2 & E3 & E4 & E5 & _) E6]. unfold inv. by rewrite E1, E2, E3, E4, E5, E6. Qed.

Lemma runs_notify e c (Q : unit → Core → Prop) : (∀ c', agree c c' → Q tt c') → runs (notify e) c Q.
Proof. intros HQ. unfold runs, notify. destruct (co_listener c); eexists _, _; (split; [done|by apply HQ]). Qed.

(** ** Becoming saturated *)

Lemma runs_print c g limbo (Q : unit → Core → Prop) : inv g limbo c →
  (∀ c', inv g limbo c' → co_peers_tasks c' = co_peers_tasks c → is_saturated (co_state c') = is_saturated (co_state c) → Q tt c') →
  runs (print_synchronization_information precise_time_s) c Q.
Proof.
  intros Hi HQ. destruct (co_state c) as [t n| |] eqn:Es; try (eexists _, _; unfold print_synchronization_information;
    rewrite Es; split; [done|]; apply HQ; [done|done|by rewrite Es]).
  assert (∀ c1 t' n', inv g limbo c1 → inv g limbo (set_state (Synchronizing t' n') c1)) as Hset.
  { intros c1 t' n' []. by split. }
  eapply runs_eq; [unfold print_synchronization_information; rewrite Es; reflexivity|].
  apply runs_bind, runs_now. intros t1. cbn zeta. apply runs_bind, runs_gets. destruct (_ || _).
  - apply runs_bind, runs_now. intros t2. apply runs_modify. apply HQ; try done. by apply Hset.
  - apply runs_ret. apply HQ; [done..|]. cbn. by rewrite Es.
Qed.

Lemma filter_fresh (l v : list H256) : (∀ h, h ∈ l → h ∉ v) → filter (λ h, ¬ h ∈ l) v = v.
Proof. intros Hf. apply filter_all. intros h Hv Hl. by apply (Hf h). Qed.

(** The chain after all that was asked for is forgotten, with orphans that
    nobody verifies. *)
Lemma saturate_chain chain g removed : chain_ok W chain g → small g → (∀ h, h ∈ removed → h ∉ g_v g) →
  ∃ k1 k2 k3 g', forget_blocks removed chain = Some (tt, k1) ∧
    forget_all_blocks_with_state Requested k1 = Some (tt, k2) ∧
    forget_all_blocks_with_state Scheduled k2 = Some (tt, k3) ∧
    chain_ok W k3 g' ∧ calm g g' ∧ g_r g' = [] ∧ g_q g' = [].
Proof.
  intros Hok Hs Hrem. destruct (spec_forget_blocks W removed chain g Hok Hs) as (c1 & E1 & hd1 & Hp1 & H1).
  pose proof (prefix_length _ _ Hp1) as Hl1.
  assert (small (g_without (λ h, h ∈ removed) hd1 g)) as Hs1.
  { unfold small in *. pose proof (g_size_without (λ h, h ∈ removed) hd1 g Hl1). lia. }
  destruct (spec_forget_all W c1 _ H1 Hs1) as (c2 & c3 & E2 & E3 & hd & Hp & H3). cbn in Hp, H3.
  rewrite (filter_fresh removed (g_v g) Hrem) in H3. eexists c1, c2, c3, _. split_and!; [done..|exact H3| |done|done].
  split_and!; [done..| |by intros h ?%not_elem_of_nil]. apply prefix_length in Hp. unfold g_size, g_queues. cbn. rewrite !length_app. cbn. lia.
Qed.

Lemma runs_saturated c g limbo : inv g limbo c → small g → runs switch_to_saturated_state c (λ _, settled g []).
Proof.
  intros Hi Hs. destruct (is_saturated (co_state c)) eqn:Est.
  { exists tt, c. unfold switch_to_saturated_state. rewrite Est. split; [done|]. exists g. split; [|done].
    destruct Hi. split; try done. destruct (iv_saturated0 Est) as [-> _]. intros h []%not_elem_of_nil. }
  eapply runs_eq; [unfold switch_to_saturated_state; rewrite Est; reflexivity|].
  destruct Hi as [Hc Ht Hp Ho Hm Hsat Hheld].
  destruct (remove_known_spec _ Hp) as (removed & pool & Epool & Hp' & Hsub & Hrem).
  destruct (saturate_chain _ g removed Hc Hs) as (c1 & c2 & c3 & g' & E1 & E2 & E3 & Hc3 & Hcalm & Er & Eq).
  { intros h (_ & b & Hb & <-)%Hrem. by apply Ho in Hb as (_ & [? _] & _). }
  destruct (spec_locator W c3 g' Hc3 (calm_small _ _ Hcalm Hs)) as (l & c4 & E4 & Hc4).
  apply runs_bind, runs_notify. intros c0 [(Ec0 & Ep0 & Em0 & Em0' & _) Et0]. apply runs_bind, runs_modify.
  apply runs_bind, runs_modify. apply runs_bind. eapply runs_tasks; [reflexivity|].
  apply runs_bind. eapply runs_pool; [cbn; rewrite Ep0; exact Epool|].
  apply runs_bind. eapply runs_chain; [cbn; rewrite Ec0; exact E1|].
  apply runs_bind. eapply runs_chain; [exact E2|]. apply runs_bind. eapply runs_chain; [exact E3|].
  apply runs_bind. eapply runs_chain; [exact E4|]. apply runs_bind, runs_gets.
  apply runs_each; [intros x c5 _ H0; by apply runs_modify|]. exists g'. split; [|done].
  split; cbn; rewrite ?Et0, ?Em0, ?Em0'; try done; [by apply tasks_reset_ok| |by rewrite Er; intros h []%not_elem_of_nil].
  intros b [Hb _]%Hsub. destruct (Ho b Hb) as (Hk & [H1 H2] & [H3 H4]), Hcalm as (_ & Est' & Ev & _).
  unfold untouched. by rewrite Ev, Est'.
Qed.

(** ** Requests *)

(** The blocks that tasks ask for, in order. *)
Definition task_blocks (t : Task) : list H256 :=
  match t with TGetData _ m => inv_hash <$> gd_inventory m | _ => [] end.

Lemma inv_ask g l limbo c peer pt : inv g (l ++ limbo) c → tasks_ok pt →
  (∀ q, asked pt q = if decide (q = peer) then list_to_set l ∪ asked (co_peers_tasks c) q else asked (co_peers_tasks c) q) →
  inv g limbo (set_tasks pt c).
Proof.
  intros [Hc Ht Hp Ho Hm Hsat Hheld] Hok Ha. split; try done. intros h Hh. cbn.
  destruct (Hheld h Hh) as [[Hl|Hl]%elem_of_app|[[q Hq]|Hpool]]; [|by left| |by right; right].
  - right. left. exists peer. rewrite Ha, decide_True by done. apply elem_of_union_l. by apply elem_of_list_to_set.
  - right. left. exists q. rewrite Ha. case_decide; [by apply elem_of_union_r|done].
Qed.

(** Every hash goes to one peer, and is asked of it. *)
Lemma runs_requests chunk last peers i hashes tasks c g limbo : inv g (hashes ++ limbo) c → 0 < chunk →
  (i ≤ last < i + Z.of_nat (length peers)) ∨ hashes = [] → (∀ p, p ∈ peers → p ∈ pt_all (co_peers_tasks c)) →
  runs (requests_loop precise_time_s chunk last peers i hashes tasks) c (λ r c',
    r.2 = [] ∧ (r.1 ≫= task_blocks) = (tasks ≫= task_blocks) ++ hashes ∧ inv g limbo c' ∧ frame c c' ∧
    pt_all (co_peers_tasks c') = pt_all (co_peers_tasks c)).
Proof.
  intros Hi Hchunk. revert i hashes tasks c Hi. induction peers as [|p peers IH]; intros i hashes tasks c Hi Hlast Hin.
  { destruct Hlast as [Hl|Hnil]; [cbn in Hl; lia|]. subst hashes. apply runs_ret. cbn. by rewrite app_nil_r. }
  cbn [requests_loop]. set (n := if i =? last then length hashes else Nat.min (length hashes) (Z.to_nat chunk)).
  cbn zeta. destruct (Nat.eqb_spec n 0) as [Hn|Hn].
  { assert (hashes = []) as ->; [|apply runs_ret; cbn; by rewrite app_nil_r].
    apply length_zero_iff_nil. unfold n in Hn. case_match; [done|]. lia. }
  apply runs_bind, runs_now. intros t1. apply runs_bind, runs_now. intros t2. apply runs_bind.
  destruct (on_blocks_requested_ok t1 t2 p (take n hashes) (co_peers_tasks c) (iv_tasks _ _ _ _ _ _ _ _ Hi))
    as (pt & E & Hok & Ha & _ & _ & Eall & _).
  eapply runs_tasks; [exact E|].
  assert (pt_all pt = pt_all (co_peers_tasks c)) as Eall' by (rewrite Eall; apply subseteq_union_1_L, singleton_subseteq_l, Hin; left).
  eapply runs_mono; [apply IH|].
  - rewrite <-(take_drop n hashes), <-app_assoc in Hi. exact (inv_ask g _ _ (add_reading (add_reading c)) p pt Hi Hok Ha).
  - unfold n. cbn [length] in Hlast. destruct (Z.eqb_spec i last) as [->|Hne]; [right; by rewrite drop_all|].
    destruct Hlast as [Hl| ->]; [left; lia|right; by rewrite drop_nil].
  - intros q Hq. cbn. rewrite Eall'. apply Hin. by right.
  - intros [r l] c' (H1 & H2 & H3 & H4 & H5). cbn in H1, H2, H4, H5 |- *. split_and!; [done| |done| |by rewrite H5].
    + rewrite H2, bind_app. cbn. rewrite app_nil_r, <-list_fmap_compose, <-app_assoc. f_equal.
      etrans; [|apply (take_drop n)]. f_equal. apply list_fmap_id.
    + exact H4.
Qed.

Definition limits_pos (l : BlocksRequestLimits) : Prop := 0 < min_blocks_in_request l ∧ 0 < max_blocks_in_request l ≤ 128.

Lemma runs_prepare limits peers hashes c g limbo : inv g (hashes ++ limbo) c → limits_pos limits → peers ≠ [] →
  (∀ p, p ∈ peers → p ∈ pt_all (co_peers_tasks c)) →
  runs (prepare_blocks_requests_tasks precise_time_s limits peers hashes) c (λ tasks c',
    (tasks ≫= task_blocks) = hashes ∧ inv g limbo c' ∧ frame c c' ∧
    pt_all (co_peers_tasks c') = pt_all (co_peers_tasks c)).
Proof.
  intros Hi [Hmin Hmax] Hne Hin. unfold prepare_blocks_requests_tasks. apply runs_bind, runs_gets.
  set (sorted := sort_peers_for_blocks _ _).
  assert (sorted ≡ₚ peers) as Hperm by apply merge_sort_Permutation.
  assert (0 < Z.of_nat (length sorted)) as Hlen by (rewrite Hperm; destruct peers; [done|cbn; lia]).
  cbn zeta. apply runs_bind. eapply runs_lift.
  { unfold usize_sub. rewrite (proj2 (Z.ltb_ge _ _)) by lia. reflexivity. }
  pose proof (Z.mod_le (Z.of_nat (length sorted) - 1) (2 ^ 64) ltac:(lia) ltac:(lia)) as Hle.
  pose proof (Z.mod_pos_bound (Z.of_nat (length sorted) - 1) (2 ^ 64) ltac:(lia)) as Hpos.
  eapply runs_after; [apply (runs_requests _ _ _ _ _ _ _ g limbo Hi)|].
  - lia.
  - left. unfold wrap. lia.
  - intros q Hq. apply Hin. by rewrite <-Hperm.
  - intros [tasks l] c' (H1 & H2 & H3 & H4 & H5). cbn in H1, H2. subst l. apply runs_bind. eapply runs_lift; [reflexivity|].
    apply runs_ret. done.
Qed.

(** ** The scheduler *)

(** Few enough peers for the number of hashes to fit in 32 bits. *)
Definition few c : Prop := Z.of_nat (size (pt_all (co_peers_tasks c))) ≤ 2 ^ 24.

Lemma useful_known (pt : PeersTasks MP) p : p ∈ useful_peers pt → p ∈ pt_all pt.
Proof. unfold useful_peers. rewrite elem_of_hash_order. set_solver. Qed.

Lemma idle_known (pt : PeersTasks MP) p : tasks_ok pt → p ∈ hash_order (pt_idle_for_blocks pt) → p ∈ pt_all pt.
Proof. intros Hok. rewrite elem_of_hash_order. intros Hp. apply (tk_all _ Hok). tauto. Qed.

Lemma idle_few (pt : PeersTasks MP) : tasks_ok pt → (length (hash_order (pt_idle_for_blocks pt)) ≤ size (pt_all pt))%nat.
Proof.
  intros Hok. rewrite hash_order_perm. change (length (elements (pt_idle_for_blocks pt))) with (size (pt_idle_for_blocks pt)).
  apply subseteq_size. intros p Hp. apply (tk_all _ Hok). tauto.
Qed.

Lemma runs_request_headers c g limbo : inv g limbo c → small g →
  runs (request_headers precise_time_s) c (λ _ c', inv g limbo c' ∧ pt_all (co_peers_tasks c) ⊆ pt_all (co_peers_tasks c')).
Proof.
  intros Hi Hs. unfold request_headers. apply runs_bind, runs_gets. case_decide; [by apply runs_ret|].
  apply runs_bind. eapply (runs_length Scheduled); [done..|]. destruct (_ <? _); [|by apply runs_ret].
  eapply runs_after; [apply (runs_each _ _ _ (λ c', inv g limbo c' ∧ pt_all (co_peers_tasks c) ⊆ pt_all (co_peers_tasks c'))); [|done]|].
  - intros p c1 _ [Hi1 Hsub]. apply runs_bind, runs_now. intros t.
    destruct (on_headers_requested_ok t p _ (iv_tasks _ _ _ _ _ _ _ _ Hi1)) as (pt & E & Hok & Er & Ea & _).
    eapply runs_tasks; [exact E|]. split; [by apply (inv_tasks_same g limbo (add_reading c1))|]. cbn. rewrite Ea. set_solver.
  - intros [] c1 [Hi1 Hsub]. apply runs_bind. eapply runs_locator; [done..|]. intros l c2 Hi2 _ Et2. apply runs_ret. by rewrite Et2.
Qed.

Lemma runs_duplicate nv nr c g limbo : inv g limbo c → runs (duplicate_requests precise_time_s nv nr) c (λ _ c', agree c c').
Proof.
  intros Hi. unfold duplicate_requests. destruct (nr =? 0); [by apply runs_ret|].
  do 3 apply runs_bind, runs_gets. apply runs_bind, runs_now. intros t. apply runs_bind, runs_gets.
  destruct (_ && _); [|by apply runs_ret]. apply runs_bind, runs_modify. apply runs_bind.
  eapply runs_query; [|by apply runs_ret]. cbn. apply (spec_best_requested W _ g). apply Hi.
Qed.

Lemma inv_request g limbo c n chain : inv g limbo c →
  let g' := mkGhost (g_hs g) (g_stored g) (g_v g) (g_r g ++ take n (g_q g)) (drop n (g_q g)) (g_hd g) in
  chain_ok W chain g' → inv g' (take n (g_q g) ++ limbo) (set_chain chain c) ∧ calm g g'.
Proof.
  intros [Hc Ht Hp Ho Hm Hsat Hheld] g' Hc'. split.
  - split; try done; cbn.
    + intros Hst. destruct (Hsat Hst) as [-> ->]. by rewrite take_nil, drop_nil.
    + intros h [Hr|Hq]%elem_of_app; [|left; apply elem_of_app; by left].
      destruct (Hheld h Hr); [left; apply elem_of_app; by right|by right].
  - split_and!; [done..| |].
    + unfold g_size, g_queues. cbn. rewrite !length_app, length_take, length_drop. lia.
    + intros h. unfold g'. cbn. by rewrite <-app_assoc, take_drop.
Qed.

Lemma runs_scheduled limits dup idle_len c g limbo : inv g limbo c → small g → limits_pos limits → 0 < idle_len ≤ 2 ^ 24 →
  runs (request_scheduled limits (Z.of_nat (length (g_v g))) (Z.of_nat (length (g_r g))) idle_len dup) c (λ res c',
    ∃ g', inv g' (default [] res ++ limbo) c' ∧ calm g g' ∧ co_peers_tasks c' = co_peers_tasks c).
Proof.
  intros Hi Hs Hl Hidle. unfold request_scheduled. apply runs_bind. eapply (runs_length Scheduled); [done..|].
  pose proof Hs as Hsize. unfold small, g_size, g_queues in Hsize. rewrite !length_app in Hsize.
  apply runs_bind. eapply runs_lift; [apply u32_add_fits; unfold fits; lia|].
  assert (inv g (default [] dup ++ limbo) c) as Hi' by (eapply inv_limbo; [done|]; intros h Hh; apply elem_of_app; by right).
  destruct (_ && _); [|apply runs_ret; exists g; by split]. cbn zeta.
  destruct Hl as [Hmin Hmax]. set (chunk := Z.min _ _).
  assert (0 < chunk ≤ 128) by (unfold chunk; lia).
  apply runs_bind. eapply runs_lift; [unfold u32_result; rewrite bool_decide_true by (unfold fits; nia); reflexivity|].
  destruct (spec_request W (chunk * idle_len) _ g (iv_chain _ _ _ _ _ _ _ _ Hi)) as (chain & E & Hc').
  apply runs_bind. eapply runs_chain; [exact E|]. apply runs_ret.
  destruct (inv_request g limbo c _ chain Hi Hc') as [Hi2 Hcalm]. eexists. split; [|split; [exact Hcalm|done]].
  eapply inv_limbo; [exact Hi2|]. intros h. cbn. rewrite !elem_of_app. tauto.
Qed.

Lemma runs_idle limits peers c g limbo : inv g limbo c → small g → limits_pos limits → Z.of_nat (length peers) ≤ 2 ^ 24 →
  runs (idle_requests precise_time_s limits (Z.of_nat (length (g_v g))) peers) c (λ res c',
    ∃ g', inv g' (default [] res ++ limbo) c' ∧ calm g g' ∧ co_peers_tasks c' = co_peers_tasks c ∧ (is_Some res → peers ≠ [])).
Proof.
  intros Hi Hs Hl Hlen. unfold idle_requests. cbn zeta.
  assert (wrap 32 (Z.of_nat (length peers)) = Z.of_nat (length peers)) as -> by (unfold wrap; apply Z.mod_small; lia).
  destruct (Z.eqb_spec (Z.of_nat (length peers)) 0) as [H0|H0].
  { apply runs_ret. exists g. split_and!; [done..|]. by intros []. }
  apply runs_bind. eapply (runs_length Requested); [done..|].
  eapply runs_after; [by eapply runs_duplicate|]. intros dup c1 Ha.
  eapply runs_mono; [eapply (runs_scheduled limits dup _ c1 g limbo); [exact (inv_agree _ _ _ _ Ha Hi)|done..|lia]|].
  intros res c2 (g' & H1 & H2 & H3). exists g'. split_and!; [done..| |].
  - rewrite H3. apply Ha.
  - intros _ ->. done.
Qed.

Lemma limits_ok stored_len : limits_pos (if 150000 <? stored_len
    then mkLimits (max_scheduled_hashes limits_default) (max_requested_blocks limits_default)
           (max_verifying_blocks limits_default) 8 16
    else limits_default).
Proof. destruct (_ <? _); split; done. Qed.

Lemma inv_nil_limbo g l limbo c : inv g limbo c → inv g (l ++ limbo) c.
Proof. intros Hi. eapply inv_limbo; [done|]. intros h Hh. apply elem_of_app. by right. Qed.

Lemma runs_execute_all (l : list Task) c g : settled g [] c → runs (cm_each execute l) c (λ _, settled g []).
Proof. apply runs_each. intros t c' _ H'. by apply runs_modify. Qed.

(** The requests that idle peers get, after the forced and the final ones. *)
Lemma runs_idle_rest limits tasks c g : inv g [] c → small g → few c → limits_pos limits →
  runs (blocks_idle_peers ← cm_gets (λ c, hash_order (pt_idle_for_blocks (co_peers_tasks c)));
        headers_tasks ← request_headers precise_time_s;
        blocks_requests ← idle_requests precise_time_s limits (Z.of_nat (length (g_v g))) blocks_idle_peers;
        blocks_tasks ← match blocks_requests with
          | None => mret []
          | Some blocks_requests => prepare_blocks_requests_tasks precise_time_s limits blocks_idle_peers blocks_requests
          end;
        cm_each execute (tasks headers_tasks blocks_tasks)) c (λ _, settled g []).
Proof.
  intros Hi Hs Hfew Hl. apply runs_bind, runs_gets. pose proof (iv_tasks _ _ _ _ _ _ _ _ Hi) as Hok.
  pose proof (idle_few _ Hok) as Hlen. unfold few in Hfew.
  set (peers := hash_order _) in *. assert (∀ p, p ∈ peers → p ∈ pt_all (co_peers_tasks c)) as Hin by (intros p; by apply idle_known).
  clearbody peers. eapply runs_after; [by eapply runs_request_headers|]. intros ht c1 [Hi1 Hsub].
  eapply runs_after; [eapply (runs_idle limits peers c1 g []); [done..|lia]|]. intros res c2 (g2 & Hi2 & Hcalm & Et & Hne).
  assert (runs (match res with
    | None => mret []
    | Some blocks_requests => prepare_blocks_requests_tasks precise_time_s limits peers blocks_requests
    end) c2 (λ _ c', inv g2 [] c')) as Hprep.
  { destruct res as [l|]; [|by apply runs_ret]. eapply runs_mono; [eapply (runs_prepare limits peers l c2 g2 []); try done|].
    - by apply Hne.
    - intros p Hp. rewrite Et. by apply Hsub, Hin.
    - by intros a c' (_ & ? & _). }
  eapply runs_after; [exact Hprep|]. intros bt c3 Hi3. apply runs_execute_all. by exists g2.
Qed.

Lemma frame_few c c' : pt_all (co_peers_tasks c') = pt_all (co_peers_tasks c) → few c → few c'.
Proof. unfold few. by intros ->. Qed.

(** Work is scheduled without panic, and every requested block is held again. *)
Lemma runs_execute forced final c g limbo : inv g limbo c → small g → few c → (∀ h, h ∈ limbo → h ∈ default [] forced) →
  runs (execute_synchronization_tasks precise_time_s forced final) c (λ _, settled g []).
Proof.
  intros Hi Hs Hfew Hlimbo. unfold execute_synchronization_tasks. apply runs_bind. eapply runs_print; [done|].
  intros c1 Hi1 Et1 _. assert (few c1) as Hfew1 by (unfold few; by rewrite Et1).
  destruct (spec_length_stored W _ g (iv_chain _ _ _ _ _ _ _ _ Hi1) Hs) as (n & En).
  apply runs_bind. eapply runs_query; [exact En|]. cbn zeta. pose proof (limits_ok n) as Hl. match type of Hl with limits_pos ?x => set (limits := x) in * end.
  clearbody limits. apply runs_bind. eapply (runs_length Verifying); [done..|].
  assert (∀ forced_tasks c2, inv g [] c2 → few c2 →
    runs (final_tasks ← match final with
        | None => mret []
        | Some final =>
            useful ← cm_gets (λ c, useful_peers (co_peers_tasks c));
            if decide (useful = []) then mret [] else prepare_blocks_requests_tasks precise_time_s limits useful final
        end;
      blocks_idle_peers ← cm_gets (λ c, hash_order (pt_idle_for_blocks (co_peers_tasks c)));
      headers_tasks ← request_headers precise_time_s;
      blocks_requests ← idle_requests precise_time_s limits (Z.of_nat (length (g_v g))) blocks_idle_peers;
      blocks_tasks ← match blocks_requests with
        | None => mret []
        | Some blocks_requests => prepare_blocks_requests_tasks precise_time_s limits blocks_idle_peers blocks_requests
        end;
      cm_each execute (forced_tasks ++ final_tasks ++ headers_tasks ++ blocks_tasks)) c2 (λ _, settled g [])) as Hrest.
  { intros ft c2 Hi2 Hfew2. eapply (runs_after _ _ _ (λ _ c', inv g [] c' ∧ few c')).
    - destruct final as [l|]; [|by apply runs_ret]. apply runs_bind, runs_gets. case_decide; [by apply runs_ret|].
      eapply runs_mono; [eapply (runs_prepare limits _ l c2 g []); [by apply inv_nil_limbo|done|done|]|].
      + intros p. apply useful_known.
      + intros a c' (_ & ? & _ & E). split; [done|]. by eapply frame_few.
    - intros t c3 [Hi3 Hfew3]. by apply (runs_idle_rest limits (λ ht bt, ft ++ t ++ ht ++ bt)). }
  destruct forced as [l|].
  - apply runs_bind. apply runs_bind, runs_gets. case_decide as Hu.
    + eapply runs_after; [by eapply runs_saturated|]. intros [] c2 H2. apply runs_ret, runs_ret. done.
    + eapply runs_after; [eapply (runs_prepare limits _ l c1 g []); [|done|done|]|].
      * rewrite app_nil_r. by eapply inv_limbo.
      * intros p. apply useful_known.
      * intros ft c2 (_ & Hi2 & _ & Ea). apply runs_ret, Hrest; [done|]. by eapply frame_few.
  - apply runs_bind, runs_ret, Hrest; [|done]. eapply inv_limbo; [done|]. intros h Hh. by apply Hlimbo.
Qed.
End client.

#[export] Hint Resolve asks_less_refl : core.
