(* ===== verification/ClientRun.v ===== *)
(** * The client's handlers

    Every handler of the client keeps the invariant of [ClientInv] and does not
    panic, so a client that starts well stays well, whatever its peers send. *)

From S2P Require Import Prelude External Primitives Serialization Compact Crypto Chain.
From S2P Require Import Storage Network Work Verification Kv KvRefine BlockChainDb ChainInv ChainOps.
From S2P Require Import HashQueue HeadersChain SyncChain SyncOps Locator SyncQueues.
From S2P Require Import Message MessageTypes SpeedMeter Collections PeersTasks OrphanPool Peers.
From S2P Require Import ClientCore ClientChain ClientInv.
From stdpp Require Import gmap.
#[local] Open Scope Z_scope.

Section client.
Context {U : U256Ops} {UL : U256Laws U} {R : RugOps} {H : Sha256Ops} {V : VrfOps} {P : Profile}.
Context {T : Type} {K : KeyValueDatabase T} {KS : KvSpec T}.
Context {MP : Type → Type} {LP : LinkedHashMap PeerIndex MP} {LPL : LinkedHashMapLaws PeerIndex MP}.
Context {MH : Type → Type} {LH : LinkedHashMap H256 MH} {LHL : LinkedHashMapLaws H256 MH}.
Context {OP : HashOrder PeerIndex} {OH : HashOrder H256}.
Context {C F : Type} (network : Network) (precise_time_s : nat → f64) (get_time : nat → Z).
Context (W : Universe).

Abbreviation Core := (Core (T:=T) (MP:=MP) (MH:=MH) (C:=C) (F:=F)).
Abbreviation CM := (CM (T:=T) (MP:=MP) (MH:=MH) (C:=C) (F:=F)).
Abbreviation inv := (inv (T:=T) (MP:=MP) (MH:=MH) (C:=C) (F:=F) W).
Abbreviation settled := (settled (T:=T) (MP:=MP) (MH:=MH) (C:=C) (F:=F) W).
Implicit Types c : Core.

(** The invariant holds with some state of the chain. *)
Definition well c : Prop := ∃ g, inv g [] c.

Lemma settled_well g c : settled g [] c → well c.
Proof. intros (g' & Hi & _). by exists g'. Qed.

Lemma execute_well forced final c g limbo : inv g limbo c → small g → few c → (∀ h, h ∈ limbo → h ∈ default [] forced) →
  runs (execute_synchronization_tasks precise_time_s forced final) c (λ _, well).
Proof. intros. eapply runs_mono; [by eapply runs_execute|]. intros [] c'. apply settled_well. Qed.

(** ** Peers come and go *)

(** Room for one more peer. *)
Definition few_peers c : Prop := Z.of_nat (size (pt_all (co_peers_tasks c))) < 2 ^ 24.

Lemma few_peers_few c : few_peers c → few c.
Proof. unfold few_peers, few. lia. Qed.

Lemma few_peers_one c c' peer : few_peers c → pt_all (co_peers_tasks c') ⊆ {[peer]} ∪ pt_all (co_peers_tasks c) → few c'.
Proof.
  unfold few_peers, few. intros Hf Hsub. apply subseteq_size in Hsub.
  pose proof (size_union_alt ({[peer]} : gset PeerIndex) (pt_all (co_peers_tasks c))) as Hu.
  pose proof (subseteq_size (pt_all (co_peers_tasks c) ∖ {[peer]}) (pt_all (co_peers_tasks c)) ltac:(set_solver)) as Hd.
  rewrite size_singleton in Hu. lia.
Qed.

Lemma connect_well peer c g : inv g [] c → small g → ¬ busy (co_peers_tasks c) peer →
  runs (core_on_connect precise_time_s peer) c (λ _, well).
Proof.
  intros Hi Hs Hb. unfold core_on_connect. apply runs_bind. eapply runs_locator; [done..|]. intros l c1 Hi1 _ Et1.
  apply runs_bind, runs_modify. apply runs_bind. rewrite <-Et1 in Hb.
  destruct (unuseful_peer_ok peer _ (iv_tasks _ _ _ _ _ _ _ _ _ Hi1) Hb) as (pt & E & Hok & Er & _).
  eapply runs_tasks; [exact E|]. apply runs_bind, runs_now. intros t.
  destruct (on_headers_requested_ok t peer pt Hok) as (pt2 & E2 & Hok2 & Er2 & _).
  eapply runs_tasks; [exact E2|]. exists g.
  apply (inv_tasks_same W g [] c1); [done..|]. by rewrite Er2.
Qed.

(** The tasks of one peer are taken back. *)
Lemma inv_taken_back g c peer pt hashes : inv g [] c → tasks_ok pt →
  (∀ h, h ∈ hashes ↔ h ∈ asked (co_peers_tasks c) peer) →
  (∀ q, lhm_get q (pt_blocks_requests pt) =
     if decide (q = peer) then None else lhm_get q (pt_blocks_requests (co_peers_tasks c))) →
  inv g hashes (set_tasks pt c).
Proof.
  intros [Hc Ht Hp Ho Hm Hsat Hheld] Hok Hh Hget. split; try done. intros h Hr.
  destruct (Hheld h Hr) as [[]%not_elem_of_nil|[[q Hq]|?]]; [|by right; right].
  destruct (decide (q = peer)) as [->|Hne]; [left; by apply Hh|]. right. left. exists q.
  rewrite (asked_same (co_peers_tasks c)); [done|]. cbn. by rewrite Hget, decide_False.
Qed.

Lemma disconnect_well peer c g : inv g [] c → small g → few_peers c →
  runs (core_on_disconnect precise_time_s peer) c (λ _, well).
Proof.
  intros Hi Hs Hf. unfold core_on_disconnect. apply runs_bind, runs_tasks_ret. apply runs_bind.
  destruct (reset_then_disconnect_ok peer _ (iv_tasks _ _ _ _ _ _ _ _ _ Hi)) as (pt & E & Hok & Hget & Ea & _).
  destruct (reset_blocks_tasks_spec peer (co_peers_tasks c)) as (Hh & _).
  eapply runs_tasks; [exact E|]. eapply execute_well; [| exact Hs | |by intros h Hh'; exact Hh'].
  - exact (inv_taken_back g c peer pt _ Hi Hok Hh Hget).
  - unfold few, few_peers in *. cbn. rewrite Ea.
    pose proof (subseteq_size (pt_all (co_peers_tasks c) ∖ {[peer]}) (pt_all (co_peers_tasks c)) ltac:(set_solver)). lia.
Qed.

Lemma notfound_well peer m c g : inv g [] c → small g → few_peers c →
  runs (core_on_notfound precise_time_s peer m) c (λ _, well).
Proof.
  intros Hi Hs Hf. unfold core_on_notfound. cbn zeta. case_decide as Hn; [apply runs_ret; by exists g|].
  apply runs_bind, runs_gets. destruct (get_blocks_tasks (co_peers_tasks c) peer) as [r|] eqn:Er; [|apply runs_ret; by exists g].
  cbn [from_option]. case_bool_decide as Hr; [|apply runs_ret; by exists g].
  pose proof (iv_tasks _ _ _ _ _ _ _ _ _ Hi) as Hok.
  assert (busy (co_peers_tasks c) peer) as Hb by (unfold get_blocks_tasks in Er; apply fmap_Some in Er as (br & Ebr & _); by exists br).
  assert (peer ∈ pt_all (co_peers_tasks c)) as Hall by (apply (tk_all _ Hok); tauto).
  assert (peer ∉ pt_unuseful (co_peers_tasks c)) as Hun by (intros Hu; by apply (tk_unuseful _ Hok) in Hu as [_ ?]).
  pose proof (reset_blocks_tasks_ok peer _ Hok Hall Hun) as Hok1.
  destruct (reset_blocks_tasks_spec peer (co_peers_tasks c)) as (Hh & _ & Hget & Ea & _).
  apply runs_bind, runs_tasks_ret. apply runs_bind.
  destruct (unuseful_peer_ok peer _ Hok1) as (pt & E & Hok2 & Er2 & Ea2 & _).
  { unfold busy. rewrite Hget, decide_True by done. by intros []. }
  eapply runs_tasks; [exact E|]. apply runs_bind, runs_gets. apply runs_bind.
  assert (inv g (reset_blocks_tasks peer (co_peers_tasks c)).1 (set_tasks pt c)) as Hi2.
  { apply (inv_taken_back g c peer); [done..|]. intros q. by rewrite Er2. }
  assert (few (set_tasks pt c)) as Hf2.
  { eapply (few_peers_one c _ peer); [done|]. cbn. rewrite Ea2, Ea. done. }
  apply runs_when; [intros _; apply runs_misbehaving; intros l p|intros _];
    (eapply execute_well; [exact Hi2|exact Hs|exact Hf2|]; by intros h Hh'; exact Hh').
Qed.

(** ** Announcements *)

Lemma wants_item_inv peer item c g : inv g [] c → runs (wants_item peer item) c (λ _, inv g []).
Proof.
  intros Hi. unfold wants_item. destruct (inv_type item).
  - apply runs_bind. apply runs_misbehaving. intros l p. by apply runs_ret.
  - apply runs_bind. eapply runs_state; [done|]. intros st chain _ _ _ _ _ Hi1.
    destruct st; [by apply runs_gets|by apply runs_ret..|]. apply runs_bind, runs_gets.
    destruct (close_connection_on_bad_block _); [|by apply runs_ret].
    apply runs_bind. apply runs_misbehaving. intros l p. by apply runs_ret.
Qed.

Lemma inventory_well peer m c g : inv g [] c → runs (core_on_inventory peer m) c (λ _, well).
Proof.
  intros Hi. unfold core_on_inventory.
  assert (runs (wanted_items peer (inv_inventory m)) c (λ _, inv g [])) as Hw.
  { revert c Hi. induction (inv_inventory m) as [|i l IH]; intros c Hi; cbn [wanted_items]; [by apply runs_ret|].
    eapply runs_after; [by apply wants_item_inv|]. intros w c1 Hi1.
    eapply runs_after; [by apply IH|]. intros r c2 Hi2. by apply runs_ret. }
  eapply runs_after; [exact Hw|]. intros items c1 Hi1. case_decide; [apply runs_ret; by exists g|].
  apply runs_modify. exists g. done.
Qed.

(** ** Headers *)

(** The clock is far enough from the end of its 32 bits. *)
Definition clock_ok : Prop := ∀ n, u32 (wrap 32 (get_time n) + BLOCK_MAX_FUTURE).

Lemma verify_block_header_total n hash header : clock_ok →
  ∃ r, verify_block_header network (get_time n) hash header = Some r.
Proof.
  intros Hclock. unfold verify_block_header, header_verifier_new, header_pow_new.
  destruct (max_bits_packed network) as (m & c & w & -> & Ec & _). cbn [mbind option_bind]. rewrite Ec. cbn [mbind option_bind].
  unfold header_verifier_check, header_pow_check, header_timestamp_check. cbn [hv_proof_of_work hv_timestamp ht_current_time ht_max_future].
  specialize (Hclock n). change (wrap 32 BLOCK_MAX_FUTURE) with BLOCK_MAX_FUTURE. rewrite u32_add_fits by done.
  destruct (is_valid_proof_of_work _ _ _); cbn; [destruct (_ <? _); cbn|]; eauto.
Qed.

(** Headers that follow each other, the first of them on [last]. *)
Fixpoint follows (last : H256) (l : list IndexedBlockHeader) : Prop :=
  match l with [] => True | x :: l => previous_header_hash (ih_raw x) = last ∧ follows (ih_hash x) l end.

Lemma follows_heights last l : follows last l → Forall (known_header W) l →
  ∀ h, h ∈ ih_hash <$> l → (height W last < height W h)%nat.
Proof.
  intros Hf Hk. revert last Hf. induction Hk as [|x l Hx Hk IH]; intros last Hf h; [by intros []%not_elem_of_nil|].
  destruct Hf as [Hp Hf]. pose proof (universe_height W x Hx) as Hh. rewrite Hp in Hh.
  cbn. intros [->|Hin]%elem_of_cons; [lia|]. specialize (IH _ Hf h Hin). lia.
Qed.

Lemma follows_nodup last l : follows last l → Forall (known_header W) l → NoDup (ih_hash <$> l).
Proof.
  intros Hf Hk. revert last Hf. induction Hk as [|x l Hx Hk IH]; intros last Hf; cbn; [by apply NoDup_nil_2|].
  destruct Hf as [_ Hf].   apply list.NoDup_cons. split; [|by eapply IH]. intros Hin. pose proof (follows_heights _ _ Hf Hk _ Hin). lia.
Qed.

Lemma runs_now_wall c (Q : Z → Core → Prop) : (∀ n, Q (get_time n) (add_reading c)) → runs (now_wall get_time) c Q.
Proof. intros HQ. by eexists _, _. Qed.

(** All headers are new and follow each other, or the message is dropped. *)
Lemma verify_headers_loop_inv peer l c g index last provider : clock_ok → inv g [] c →
  runs (verify_headers_loop network get_time peer index last provider l) c (λ r c', inv g [] c' ∧
    pt_all (co_peers_tasks c') ⊆ {[peer]} ∪ pt_all (co_peers_tasks c) ∧
    match r with
    | SuccessHeaders => follows last l ∧ (∀ h, h ∈ ih_hash <$> l → is_new g h)
    | ErrorAt i => (index ≤ i < index + length l)%nat
    | SkipHeaders => True
    end).
Proof.
  intros Hclock. revert c index last provider. induction l as [|x l IH]; intros c index last provider Hi; cbn [verify_headers_loop].
  { apply runs_ret. split_and!; [done|set_solver|done|by intros h []%not_elem_of_nil]. }
  case_decide as Hp.
  { apply runs_bind, runs_misbehaving. intros e p. apply runs_ret. split_and!; [done|cbn; set_solver|done]. }
  apply runs_bind, runs_gets. apply runs_bind. eapply runs_state; [done|]. intros st chain _ Hst _ _ _ Hi1.
  assert (∀ c1, inv g [] c1 → pt_all (co_peers_tasks c1) = pt_all (co_peers_tasks c) →
    runs (_ ← on_tasks (useful_peer peer); mret SkipHeaders) c1 (λ r c', inv g [] c' ∧
    pt_all (co_peers_tasks c') ⊆ {[peer]} ∪ pt_all (co_peers_tasks c) ∧
    match r with
    | SuccessHeaders => follows last (x :: l) ∧ (∀ h, h ∈ ih_hash <$> x :: l → is_new g h)
    | ErrorAt i => (index ≤ i < index + length (x :: l))%nat
    | SkipHeaders => True
    end)) as Hskip.
  { intros c1 Hi2 Ea. apply runs_bind. destruct (useful_peer_ok peer _ (iv_tasks _ _ _ _ _ _ _ _ _ Hi2)) as (pt & E & Hok & Er & Ea' & _).
    eapply runs_tasks; [exact E|]. apply runs_ret. split_and!; [by apply inv_tasks_same|cbn; by rewrite Ea', Ea|done]. }
  destruct st; try (by apply Hskip).
  - apply runs_bind, runs_gets. apply runs_bind.
    assert (∀ verify : bool, runs (if verify then t ← now_wall get_time; cm_lift (verify_block_header network t (ih_hash x) (ih_raw x)) else mret (Ok tt))
      (set_chain chain c) (λ _ c', inv g [] c' ∧ co_peers_tasks c' = co_peers_tasks c)) as Hv.
    { intros [|]; [|by apply runs_ret]. apply runs_bind, runs_now_wall. intros n.
      destruct (verify_block_header_total n (ih_hash x) (ih_raw x) Hclock) as [r Hr]. by eapply runs_lift. }
    eapply runs_mono; [apply Hv|]. intros r c2 [Hi2 Et]. destruct r as [[]|e].
    + eapply runs_mono; [by apply IH|]. intros r c3 (Hi3 & Ea3 & Hr). rewrite Et in Ea3. split_and!; [done..|].
      destruct r; [done|cbn [length]; lia|]. destruct Hr as [Hf Hn]. split; [done|].
      intros h [->|Hin]%elem_of_cons; [apply Hst|by apply Hn].
    + apply runs_bind. apply runs_when; [intros _; apply runs_misbehaving; intros e' p|intros _]; apply runs_ret;
        (split_and!; [done|cbn; rewrite Et; set_solver|cbn; lia..]).
  - destruct (close_connection_on_bad_block _); [|by apply Hskip].
    apply runs_bind, runs_misbehaving. intros e p. apply runs_ret. split_and!; [done|cbn; set_solver|done].
Qed.

(** The state [Unknown], as the chain sees it. *)
Definition unknown_in (g : Ghost) c (h : H256) : Prop := is_new g h ∧ h ∉ sc_dead_end_blocks (co_chain c).

(** The parts a look at the chain leaves as they are. *)
Definition looked c c' : Prop :=
  co_peers_tasks c' = co_peers_tasks c ∧ sc_dead_end_blocks (co_chain c') = sc_dead_end_blocks (co_chain c) ∧
  co_config c' = co_config c.

Lemma first_unknown_inv l c g : inv g [] c → runs (first_unknown l) c (λ r c', inv g [] c' ∧ looked c c' ∧
  match r with Some i => (i < length l)%nat | None => ∀ x, x ∈ l → ¬ unknown_in g c (ih_hash x) end).
Proof.
  revert c. induction l as [|x l IH]; intros c Hi; cbn [first_unknown].
  { apply runs_ret. split_and!; [done..|]. by intros x []%not_elem_of_nil. }
  apply runs_bind. eapply runs_state; [done|]. intros st chain _ _ Hd _ Hu Hi1. case_decide as Hst.
  { apply runs_ret. split_and!; [done..|cbn; lia]. }
  eapply runs_after; [by apply IH|]. intros r c2 (Hi2 & (E1 & E2 & E3) & Hr). apply runs_ret.
  split_and!; [done|by repeat split; etrans|]. destruct r as [i|]; cbn; [lia|].
  intros y [->|Hy]%elem_of_cons; [by rewrite Hu in Hst|]. specialize (Hr y Hy). unfold unknown_in in *. cbn in Hr. by rewrite Hd in Hr.
Qed.

Lemma first_unknown_index_inv x l c g : inv g [] c → runs (first_unknown_index x l) c (λ r c', inv g [] c' ∧ looked c c' ∧
  match r with Some i => (i < length (x :: l))%nat | None => True end).
Proof.
  intros Hi. unfold first_unknown_index. apply runs_bind. eapply runs_state; [done|]. intros st chain _ _ Hd _ Hu Hi1.
  case_decide as Hst; [apply runs_ret; split_and!; [done..|cbn; lia]|].
  destruct (list.last (x :: l)) as [y|] eqn:Hy; [|by apply last_None in Hy].
  apply runs_bind. eapply runs_lift; [done|]. apply runs_bind. eapply runs_state; [exact Hi1|].
  intros st2 chain2 _ _ Hd2 _ Hu2 Hi2. case_decide as Hst2; [|apply runs_ret; split_and!; [done|split_and!|done]; try done; cbn in *; congruence].
  apply runs_bind. eapply runs_mono; [by apply first_unknown_inv|]. intros r c3 (Hi3 & (E1 & E2 & E3) & Hr).
  assert (sc_dead_end_blocks (co_chain c3) = sc_dead_end_blocks (co_chain c)) as Ed by (cbn in *; congruence).
  destruct r as [i|].
  - apply runs_bind. eapply runs_lift; [done|]. apply runs_ret. split_and!; [done|by split_and!|cbn; lia].
  - exfalso. assert (y ∈ l) as Hin.
    { apply last_Some_elem_of in Hy as [->|?]%elem_of_cons; [|done]. subst st2.
      exfalso. apply Hst, Hu. destruct (proj1 Hu2 eq_refl) as [? Hd']. split; [done|]. cbn in Hd'. by rewrite Hd in Hd'. }
    apply (Hr y Hin). subst st2. destruct (proj1 Hu2 eq_refl) as [? Hd']. split; [done|]. cbn in *. congruence.
Qed.

(** The client leaves saturation when there is something to fetch. *)
Lemma leave_saturation c g g' chain : inv g [] c → chain_ok W chain g' →
  g_v g' = g_v g → g_r g' = g_r g → g_stored g' = g_stored g → small g' →
  runs (if is_synchronizing (co_state c) then mret tt
        else
          scheduled ← chain_length Scheduled;
          requested ← chain_length Requested;
          sum ← cm_lift (u32_add scheduled requested);
          if sum =? 1 then switch_to_nearly_saturated_state
          else switch_to_synchronization_state precise_time_s) (set_chain chain c)
    (λ _ c', inv g' [] c' ∧ co_peers_tasks c' = co_peers_tasks c).
Proof.
  intros [Hc Ht Hp Ho Hm Hsat Hheld] Hc' Ev Er Est Hs.
  assert (∀ c1, agree (set_chain chain c) c1 → ∀ st, is_saturated st = false → inv g' [] (set_state st c1)) as Hset.
  { intros c1 [(E1 & E2 & E3 & E4 & _) E5] st Hst. split; cbn; rewrite ?E1, ?E2, ?E3, ?E4, ?E5; try done; [|by rewrite Hst|by rewrite Er].
    intros b Hb. unfold untouched. rewrite Ev, Est. by apply Ho. }
  destruct (is_synchronizing (co_state c)) eqn:Hsy.
  { apply runs_ret. split; [|done]. destruct (co_state c) eqn:Ec; try done. split; cbn; try done; [|by rewrite Ec|by rewrite Er].
    intros b Hb. unfold untouched. rewrite Ev, Est. by apply Ho. }
  pose proof Hs as Hsize. unfold small, g_size, g_queues in Hsize. rewrite !length_app in Hsize.
  apply runs_bind. eapply runs_query; [by apply (spec_length W)|].
  apply runs_bind. eapply runs_query; [by apply (spec_length W)|].
  apply runs_bind. eapply runs_lift; [apply u32_add_fits; unfold fits; lia|]. destruct (_ =? 1).
  - destruct (is_nearly_saturated (co_state c)) eqn:Hn.
    { exists tt, (set_chain chain c). unfold switch_to_nearly_saturated_state. cbn [set_chain co_state]. rewrite Hn.
      split; [done|]. split; [|done]. destruct (co_state c) eqn:Ec; try done.
      split; cbn; try done; [|by rewrite Ec|by rewrite Er]. intros b Hb. unfold untouched. rewrite Ev, Est. by apply Ho. }
    eapply runs_eq; [unfold switch_to_nearly_saturated_state; cbn [set_chain co_state]; rewrite Hn; reflexivity|].
    apply runs_bind, runs_notify. intros c1 Ha. apply runs_bind, runs_modify, runs_modify. split; [by apply (Hset _ Ha)|apply Ha].
  - eapply runs_eq; [unfold switch_to_synchronization_state; cbn [set_chain co_state]; rewrite Hsy; reflexivity|].
    apply runs_bind, runs_notify. intros c1 Ha. apply runs_bind, runs_modify. apply runs_bind, runs_now. intros t. apply runs_modify.
    split; [by apply (Hset _ Ha)|apply Ha].
Qed.

Lemma headers_well peer l c g : clock_ok → inv g [] c → Z.of_nat (g_size g + 2 * length l) < 2 ^ 31 → few_peers c →
  l ≠ [] → Forall (known_header W) l →
  runs (core_on_headers network precise_time_s get_time peer l) c (λ _, well).
Proof.
  intros Hclock Hi Hroom Hf Hne Hk. destruct l as [|x rest]; [done|]. cbn [core_on_headers]. set (l := x :: rest) in *.
  assert (small g) as Hs by (unfold small; lia).
  apply runs_bind. eapply runs_tasks; [reflexivity|].
  assert (inv g [] (set_tasks (on_headers_received peer (co_peers_tasks c)) c)) as Hi1.
  { apply inv_tasks_same; [done| |done]. apply on_headers_received_ok, Hi. }
  assert (few_peers (set_tasks (on_headers_received peer (co_peers_tasks c)) c)) as Hf1 by exact Hf.
  revert Hi1 Hf1. generalize (set_tasks (on_headers_received peer (co_peers_tasks c)) c). clear c Hi Hf. intros c Hi Hf.
  apply runs_bind. eapply runs_state; [done|]. intros st chain _ _ _ _ _ Hi1. case_decide.
  { destruct (penalize_ok peer _ (iv_tasks _ _ _ _ _ _ _ _ _ Hi1)) as (Hok & Er & _).
    apply runs_bind, runs_tasks_ret. assert (inv g [] (set_tasks (penalize peer (co_peers_tasks (set_chain chain c))).2 (set_chain chain c))) as Hi2
      by by apply inv_tasks_same.
    apply runs_when; [intros _; apply runs_misbehaving; intros e p|intros _]; by exists g. }
  eapply runs_after; [by apply first_unknown_index_inv|]. intros r c2 (Hi2 & (Et2 & _) & Hr).
  assert (few_peers c2) as Hf2 by (unfold few_peers; by rewrite Et2).
  destruct r as [i|]; [|eapply runs_useful; [done|]; intros c3 Hi3 _ _ _; by exists g].
  fold l in Hr. apply runs_bind.
  assert (∃ last : H256, (match i with O => Some (previous_header_hash (ih_raw x)) | S j => ih_hash <$> l !! j end : option H256) = Some last) as [last Elast].
  { destruct i as [|j]; [eauto|]. destruct (lookup_lt_is_Some_2 l j) as [y Hy]; [lia|]. rewrite Hy. eauto. }
  eapply runs_lift; [exact Elast|]. apply runs_bind, runs_gets. apply runs_bind.
  assert (∀ close_bad : bool, runs (if close_bad then state ← on_chain (block_state last); mret (bool_decide (state = DeadEnd)) else mret false) c2
    (λ _ c', inv g [] c' ∧ few_peers c')) as Hd.
  { intros [|]; [|by apply runs_ret]. apply runs_bind. eapply runs_state; [done|]. intros st' chain' _ _ _ _ _ Hi'. by apply runs_ret. }
  eapply runs_mono; [apply Hd|]. intros [|] c3 [Hi3 Hf3]; [apply runs_misbehaving; intros e p; by exists g|].
  cbn zeta. apply runs_bind. unfold core_verify_headers. apply runs_bind.
  destruct (spec_best_header W _ g (iv_chain _ _ _ _ _ _ _ _ _ Hi3) Hs) as (best & Eb & Hb).
  eapply runs_query; [exact Eb|]. apply runs_bind.
  eapply runs_lift; [unfold message_provider_new; rewrite u32_add_fits by done; reflexivity|].
  eapply runs_mono; [by apply verify_headers_loop_inv|]. intros r c4 (Hi4 & Ea4 & Hr4).
  assert (length (drop i l) = (length l - i)%nat) as Elen by apply length_drop.
  destruct r as [|j|].
  - apply runs_ret. by exists g.
  - destruct (lookup_lt_is_Some_2 l (i + j)) as [y Hy]; [lia|]. apply runs_bind. eapply runs_lift; [exact Hy|].
    destruct (spec_dead_end W _ g (ih_hash y) (iv_chain _ _ _ _ _ _ _ _ _ Hi4)) as (chain' & E & Hc').
    eapply runs_chain; [exact E|]. exists g. by apply inv_chain_read.
  - destruct Hr4 as [Hfol Hnew]. pose proof (Forall_drop _ i _ Hk) as Hkd.
    destruct (spec_schedule W (drop i l) _ g (iv_chain _ _ _ _ _ _ _ _ _ Hi4)) as (chain' & hd & E & Hlen & Hc'); [lia|done|by eapply follows_nodup|done|].
    apply runs_bind. eapply runs_chain; [exact E|].
    match type of Hc' with chain_ok _ _ ?x => set (g' := x) in * end.
    assert (small g') as Hs'.
    { unfold small, g_size, g_queues, g' in *. cbn. rewrite !length_app in *. rewrite length_fmap. lia. }
    pose proof (leave_saturation c4 g g' chain' Hi4 Hc' eq_refl eq_refl eq_refl Hs') as Hleave.
    apply runs_bind, runs_gets. cbn [set_chain co_state]. eapply runs_after; [exact Hleave|]. intros [] c5 [Hi5 Et5].
    destruct (useful_peer_ok peer _ (iv_tasks _ _ _ _ _ _ _ _ _ Hi5)) as (pt & Ept & Hok & Erq & Ea5 & _).
    apply runs_bind. eapply runs_tasks; [exact Ept|]. eapply (execute_well None None _ g' []); [by apply inv_tasks_same|done| |done].
    eapply (few_peers_one c3 _ peer); [done|]. cbn. rewrite Ea5, Et5. set_solver.
Qed.

(** ** Blocks *)

(** Blocks of the pool that share a hash are one block. *)
Lemma pool_one_block (pool : OrphanBlocksPool (M:=MH)) g b b' :
  (∀ b, in_pool (orphaned_blocks pool) b → known_header W (ib_header b) ∧ untouched g (ib_hash b) ∧ untouched g (ib_parent b)) →
  in_pool (orphaned_blocks pool) b → in_pool (orphaned_blocks pool) b' → ib_hash b = ib_hash b' → b = b'.
Proof.
  intros Ho Hb Hb' Eh. assert (ib_header b = ib_header b') as Ehd by (apply (universe_hash W); [by apply Ho..|done]).
  destruct Hb as (m & Em & Eb), Hb' as (m' & Em' & Eb'). unfold ib_parent in Em, Em'. rewrite Ehd, Em' in Em.
  injection Em as ->. rewrite Eh, Eb' in Eb. by injection Eb.
Qed.

(** The descendants of a hash are above it. *)
Lemma descends_height (pool : OrphanBlocksPool (M:=MH)) g h b :
  (∀ b, in_pool (orphaned_blocks pool) b → known_header W (ib_header b) ∧ untouched g (ib_hash b) ∧ untouched g (ib_parent b)) →
  descends (orphaned_blocks pool) h b → (height W h < height W (ib_hash b))%nat.
Proof.
  intros Ho Hd. induction Hd as [b Hb Hp|b b' Hd IH Hb Hp]; pose proof (universe_height W (ib_header b) (proj1 (Ho b Hb))) as Hh;
    change (previous_header_hash (ih_raw (ib_header b))) with (ib_parent b) in Hh; rewrite Hp in Hh;
    change (ih_hash (ib_header b)) with (ib_hash b) in Hh; lia.
Qed.

Lemma untouched_without g h (Q : H256 → Prop) `{∀ h, Decision (Q h)} hd : untouched g h → untouched (g_without Q hd g) h.
Proof. intros [Hv Hs]. split; [|done]. cbn. rewrite list_elem_of_filter. tauto. Qed.

(** Blocks may be forgotten when those left are still held. *)
Lemma inv_without g limbo limbo' c chain pool (Q : H256 → Prop) `{∀ h, Decision (Q h)} hd :
  inv g limbo c → chain_ok W chain (g_without Q hd g) → pool_ok pool →
  (∀ b, in_pool (orphaned_blocks pool) b → in_pool (orphaned_blocks (co_orphaned_blocks_pool c)) b) →
  (∀ h, h ∈ limbo → ¬ Q h → h ∈ limbo') →
  (∀ b, in_pool (orphaned_blocks (co_orphaned_blocks_pool c)) b → ¬ Q (ib_hash b) → in_pool (orphaned_blocks pool) b) →
  inv (g_without Q hd g) limbo' (set_chain chain (set_pool pool c)).
Proof.
  intros [Hc Ht Hp Ho Hm Hsat Hheld] Hc' Hp' Hsub Hlimbo Hkeep. split; try done; cbn.
  - intros b Hb. destruct (Ho b (Hsub b Hb)) as (? & ? & ?). split_and!; [done|by apply untouched_without..].
  - intros Hst. destruct (Hsat Hst) as [-> ->]. done.
  - intros h [HQ Hr]%list_elem_of_filter. destruct (Hheld h Hr) as [Hl|[?|(b & Hb & <-)]]; [left; by apply Hlimbo|by right; left|].
    right. right. exists b. split; [by apply Hkeep|done].
Qed.

(** The pool is left alone. *)
Lemma inv_without_same g limbo limbo' c chain (Q : H256 → Prop) `{∀ h, Decision (Q h)} hd :
  inv g limbo c → chain_ok W chain (g_without Q hd g) → (∀ h, h ∈ limbo → ¬ Q h → h ∈ limbo') →
  inv (g_without Q hd g) limbo' (set_chain chain c).
Proof. intros Hi Hc Hl. apply (inv_without g limbo limbo' c chain (co_orphaned_blocks_pool c)); try done. apply Hi. Qed.

Lemma insert_orphan_pool_ok (pool : OrphanBlocksPool (M:=MH)) b u : pool_ok pool →
  (∀ h, is_Some (lhm_get h u) → is_Some (lhm_get h (unknown_blocks pool)) ∨ h = ib_hash b) →
  pool_ok (insert_orphaned_block b (mkPool (orphaned_blocks pool) u)).
Proof.
  intros [Hf Hu] Hu'. split; [by apply insert_orphaned_ok|]. intros h Hh. change (unknown_blocks _) with u in Hh.
  assert (∃ b0, in_pool (orphaned_blocks (insert_orphaned_block b (mkPool (orphaned_blocks pool) u))) b0 ∧ ib_hash b0 = ib_hash b) as Hnew.
  { exists b. split; [|done]. apply insert_orphaned_in; [done|by left]. }
  destruct (Hu' h Hh) as [(b0 & Hb0 & <-)%Hu| ->]; [|exact Hnew].
  destruct (decide (ib_hash b0 = ib_hash b)) as [->|Hne]; [exact Hnew|]. exists b0. split; [|done].
  apply insert_orphaned_in; [done|]. right. split; [done|]. by intros [? _].
Qed.

(** A block is put into the pool. *)
Lemma inv_insert_orphan g limbo c b u : inv g (ib_hash b :: limbo) c → known_header W (ib_header b) →
  untouched g (ib_hash b) → untouched g (ib_parent b) →
  (∀ h, is_Some (lhm_get h u) → is_Some (lhm_get h (unknown_blocks (co_orphaned_blocks_pool c))) ∨ h = ib_hash b) →
  inv g limbo (set_pool (insert_orphaned_block b (mkPool (orphaned_blocks (co_orphaned_blocks_pool c)) u)) c).
Proof.
  intros [Hc Ht Hp Ho Hm Hsat Hheld] Hk Hh Hpar Hu. pose proof (po_filed _ Hp) as Hfiled. split; try done; cbn -[insert_orphaned_block].
  - by apply insert_orphan_pool_ok.
  - intros b' [->|[Hb _]]%insert_orphaned_in; [done|by apply Ho|done].
  - assert (held (co_peers_tasks c) (insert_orphaned_block b (mkPool (orphaned_blocks (co_orphaned_blocks_pool c)) u)) (ib_hash b)) as Hnew.
    { right. exists b. split; [|done]. apply insert_orphaned_in; [done|by left]. }
    intros h Hr. destruct (decide (h = ib_hash b)) as [->|Hne]; [by right|].
    destruct (Hheld h Hr) as [[?|?]%elem_of_cons|[?|(b0 & Hb0 & <-)]]; [done|by left|by right; left|].
    right. right. exists b0. split; [|done]. apply insert_orphaned_in; [done|]. right. split; [done|]. by intros [? _].
Qed.

Lemma pool_ok_removed (pool pool' : OrphanBlocksPool (M:=MH)) (blocks : list IndexedBlock) : pool_ok pool → orphans_ok (orphaned_blocks pool') →
  (∀ b, in_pool (orphaned_blocks pool') b ↔ in_pool (orphaned_blocks pool) b ∧ b ∉ blocks) →
  (∀ h, lhm_get h (unknown_blocks pool') = if decide (h ∈ ib_hash <$> blocks) then None else lhm_get h (unknown_blocks pool)) →
  pool_ok pool'.
Proof.
  intros [_ Hu] Hok Hin Hget. split; [done|]. intros h Hh. rewrite Hget in Hh. case_decide as Hd; [by destruct Hh|].
  destruct (Hu h Hh) as (b & Hb & <-). exists b. split; [|done]. apply Hin. split; [done|]. intros Hbl.
  apply Hd. by apply list_elem_of_fmap_2.
Qed.

(** A block without a known parent is dropped with what waits for it, or kept
    as unknown. *)
Lemma orphan_unknown_inv b c g : inv g [ib_hash b] c → small g → known_header W (ib_header b) →
  untouched g (ib_hash b) → untouched g (ib_parent b) →
  runs (on_orphan_unknown precise_time_s b) c (λ _ c', ∃ g', inv g' [] c' ∧ calm g g').
Proof.
  intros Hi Hs Hk Hh Hpar. unfold on_orphan_unknown. apply runs_bind, runs_gets.
  assert (∀ hd, (length hd ≤ length (g_hd g))%nat → (g_size (g_without (λ x, x = ib_hash b) hd g) ≤ g_size g)%nat) as Hsize
    by (intros hd; apply g_size_without).
  assert (filter (λ x, ¬ x = ib_hash b) (g_v g) = g_v g) as Ev
    by (apply filter_all; intros x Hx ->; by destruct Hh).
  destruct (is_synchronizing (co_state c)).
  - destruct (spec_forget_block W (ib_hash b) _ g (iv_chain _ _ _ _ _ _ _ _ _ Hi) Hs) as (p & k1 & E1 & hd & Hpre & Hc1).
    apply runs_bind. eapply runs_chain; [exact E1|].
    destruct (remove_for_parent_spec (ib_hash b) (co_orphaned_blocks_pool c) (po_filed _ (iv_pool _ _ _ _ _ _ _ _ _ Hi)))
      as (orphans & pool & E2 & Hd & _ & _ & Hok & Hin & Hget).
    apply runs_bind. eapply runs_pool; [exact E2|].
    destruct (spec_forget_blocks_leave W (ib_hash <$> orphans) k1 _ Hc1) as (k2 & E3 & Hc2).
    eapply runs_chain; [exact E3|].
    assert (inv (g_without (λ x, x = ib_hash b) hd g) [] (set_chain k1 c)) as Hi1.
    { eapply inv_without_same; [exact Hi|done|]. intros h ->%list_elem_of_singleton. by intros []. }
    pose proof (iv_pool _ _ _ _ _ _ _ _ _ Hi) as Hpool.
    eexists. split; [apply (inv_without _ [] [] (set_chain k1 c) k2 pool (λ h, h ∈ ib_hash <$> orphans) _ Hi1 Hc2)|].
    + by eapply pool_ok_removed.
    + intros b' [? _]%Hin. done.
    + by intros h []%not_elem_of_nil.
    + intros b' Hb' Hn. apply Hin. split; [done|]. intros Ho. apply Hn. by apply list_elem_of_fmap_2.
    + split_and!; [done..| | |].
      * cbn. rewrite Ev. apply filter_all. intros x Hx (b' & -> & Hb')%list_elem_of_fmap. apply Hd, descends_in in Hb'.
        by destruct (iv_orphans _ _ _ _ _ _ _ _ _ Hi b' Hb') as (_ & [? _] & _).
      * apply prefix_length in Hpre. etrans; [by apply g_size_without|]. by apply Hsize.
      * eapply asks_less_trans; [apply (asks_less_without (λ x, x = ib_hash b) hd)|apply asks_less_without].
  - destruct (spec_forget_leave W (ib_hash b) _ g (iv_chain _ _ _ _ _ _ _ _ _ Hi)) as (p & k1 & E1 & Hc1).
    apply runs_bind. eapply runs_chain; [exact E1|].
    match type of Hc1 with chain_ok _ _ ?x => set (g' := x) in * end.
    assert (calm g g') as Hcalm by (split_and!; [done..|by apply Hsize|apply asks_less_without]).
    assert (inv g' [] (set_chain k1 c)) as Hi1.
    { eapply inv_without_same; [exact Hi|done|]. intros h ->%list_elem_of_singleton. by intros []. }
    apply runs_bind, runs_gets. destruct (contains_unknown_block _ _) eqn:Econ; [apply runs_ret; by exists g'|].
    apply runs_bind, runs_now. intros t.
    unfold contains_unknown_block, lhm_contains in Econ. apply bool_decide_eq_false in Econ. rewrite <-eq_None_not_Some in Econ. cbn in Econ.
    assert (insert_unknown_block t b (co_orphaned_blocks_pool c) = Some (insert_orphaned_block b
      (mkPool (orphaned_blocks (co_orphaned_blocks_pool c)) (lhm_insert (ib_hash b) t (unknown_blocks (co_orphaned_blocks_pool c))).2))) as Eins.
    { unfold insert_unknown_block. pose proof (lhm_insert_old (ib_hash b) t (unknown_blocks (co_orphaned_blocks_pool c))) as Eold.
      destruct (lhm_insert _ _ _) as [old u]. cbn in Eold. by rewrite Eold, Econ. }
    eapply (runs_pool _ tt); [cbn -[insert_orphaned_block insert_unknown_block]; rewrite Eins; reflexivity|].
    exists g'. split; [|done].
    eapply (inv_insert_orphan g' [] (add_reading (set_chain k1 c))); [by eapply inv_limbo; [exact Hi1|intros h []%not_elem_of_nil]|done|by apply untouched_without..|].
    intros h Hh'. cbn. destruct (decide (h = ib_hash b)) as [->|Hn]; [by right|]. left. by rewrite lhm_get_insert_ne in Hh'.
Qed.

(** The pool holds no more than its size. *)
Lemma pool_size (o : gmap H256 (gmap H256 IndexedBlock)) (l : list IndexedBlock) : NoDup l → (∀ b, b ∈ l → in_pool o b) →
  (length l ≤ pool_blocks o)%nat.
Proof.
  intros Hnd Hin.
  assert (pool_blocks o = length (e ← map_to_list o; (map_to_list e.2).*2)) as ->.
  { unfold pool_blocks. generalize (map_to_list o) as es. induction es as [|e es IH]; [done|].
    cbn. rewrite length_app, length_fmap, length_map_to_list. cbn in IH. rewrite IH. done. }
  apply submseteq_length, NoDup_submseteq; [done|]. intros b (m & Em & Eb)%Hin.
  apply list_elem_of_bind. exists (ib_parent b, m). split; [|by apply elem_of_map_to_list].
  cbn. apply list_elem_of_fmap. exists (ib_hash b, b). split; [done|]. by apply elem_of_map_to_list.
Qed.

Lemma parents_first_cons b orphans : parents_first [ib_hash b] orphans → parents_first [ib_parent b] (b :: orphans).
Proof.
  intros Hp [|i] x Hx; cbn in Hx; [injection Hx as ->; left; by apply list_elem_of_singleton|].
  right. destruct (Hp i x Hx) as [->%list_elem_of_singleton|(j & y & Hj & Hy & E)].
  - exists 0%nat, b. split_and!; [lia|done..].
  - exists (S j), y. split_and!; [lia|done..].
Qed.

(** What is handed to the verifier: the block and all orphans above it, parents
    first, each new; they are under verification from now on. *)
Definition handed (g g' : Ghost) (b : IndexedBlock) (blocks : list IndexedBlock) : Prop :=
  head blocks = Some b ∧ parents_first [ib_parent b] blocks ∧ NoDup (ib_hash <$> blocks) ∧
  (ib_parent b ∈ g_v g ∨ g_stored g (ib_parent b) = true) ∧
  (∀ h, h ∈ ib_hash <$> blocks → untouched g h) ∧
  g_v g' = g_v g ++ (ib_hash <$> blocks) ∧ g_stored g' = g_stored g ∧ g_hs g' = g_hs g ∧
  (∀ h, h ∈ ib_hash <$> blocks → (h ∉ g_r g') ∧ h ∉ g_q g') ∧ small g'.

Lemma orphans_nodup c g b orphans : inv g [ib_hash b] c → NoDup orphans →
  (∀ b', b' ∈ orphans ↔ descends (orphaned_blocks (co_orphaned_blocks_pool c)) (ib_hash b) b') →
  NoDup (ib_hash <$> b :: orphans).
Proof.
  intros Hi Hnd Hd. pose proof (iv_orphans _ _ _ _ _ _ _ _ _ Hi) as Ho. cbn. apply list.NoDup_cons. split.
  - intros (b' & E & Hb')%list_elem_of_fmap. apply Hd, (descends_height _ g _ _ Ho) in Hb'. rewrite E in Hb'. lia.
  - apply NoDup_fmap_2_strong; [|done]. intros x y Hx%Hd%descends_in Hy%Hd%descends_in E. by eapply pool_one_block.
Qed.

(** The orphans that stay have nothing to do with the blocks that go. *)
Lemma orphans_stay c g b orphans b' : inv g [ib_hash b] c → known_header W (ib_header b) →
  (ib_parent b ∈ g_v g ∨ g_stored g (ib_parent b) = true) →
  (∀ b', b' ∈ orphans ↔ descends (orphaned_blocks (co_orphaned_blocks_pool c)) (ib_hash b) b') →
  in_pool (orphaned_blocks (co_orphaned_blocks_pool c)) b' → b' ∉ orphans →
  (ib_hash b' ∉ ib_hash <$> b :: orphans) ∧ ib_parent b' ∉ ib_hash <$> b :: orphans.
Proof.
  intros Hi Hk Hpar Hd Hb' Hn. pose proof (iv_orphans _ _ _ _ _ _ _ _ _ Hi) as Ho. cbn. rewrite !elem_of_cons. split.
  - intros [E|(o & E & Hin)%list_elem_of_fmap].
    + assert (ib_header b' = ib_header b) as Eh by (apply (universe_hash W); [by apply Ho|done|done]).
      destruct (Ho b' Hb') as (_ & _ & Hv & Hs). unfold ib_parent in *. rewrite Eh in Hv, Hs.
      destruct Hpar as [?|Hst]; [done|]. rewrite Hst in Hs. done.
    + apply Hn. assert (b' = o) as ->; [|done]. eapply pool_one_block; [exact Ho|done|by apply Hd, descends_in in Hin|done].
  - intros [E|(o & E & Hin)%list_elem_of_fmap]; apply Hn, Hd; [by apply descends_child|].
    eapply descends_step; [by apply Hd|done|done].
Qed.

Lemma to_verify_inv peer b c g : inv g [ib_hash b] c →
  Z.of_nat (g_size g + 2 * S (pool_blocks (orphaned_blocks (co_orphaned_blocks_pool c)))) < 2 ^ 31 →
  known_header W (ib_header b) → untouched g (ib_hash b) → (ib_parent b ∈ g_v g ∨ g_stored g (ib_parent b) = true) →
  runs (on_block_to_verify precise_time_s peer b) c (λ blocks c', ∃ g', inv g' [] c' ∧ handed g g' b blocks).
Proof.
  intros Hi Hroom Hk Hh Hpar. unfold on_block_to_verify. apply runs_bind, runs_now. intros t.
  destruct (meter_ok_checkpoint t _ (proj2 (iv_meters _ _ _ _ _ _ _ _ _ Hi))) as (meter & Em & Hmeter).
  apply runs_bind. eapply runs_query; [exact Em|]. apply runs_bind, runs_modify. apply runs_bind.
  eapply (runs_useful W peer _ g [ib_hash b]).
  { destruct Hi as [Hc Ht Hp Ho [Hm _] Hsat Hheld]. by split. }
  intros c1 Hi1 _ _ Ep1. assert (co_orphaned_blocks_pool c1 = co_orphaned_blocks_pool c) as Ep by exact Ep1.
  rewrite <-Ep in Hroom. clear c Hi Em Ep Ep1. rename c1 into c, Hi1 into Hi.
  destruct (remove_for_parent_spec (ib_hash b) (co_orphaned_blocks_pool c) (po_filed _ (iv_pool _ _ _ _ _ _ _ _ _ Hi)))
    as (orphans & pool & E2 & Hd & Hnd & Hpf & Hok & Hin & Hget).
  apply runs_bind. eapply runs_pool; [exact E2|]. cbn zeta. set (blocks := b :: orphans).
  pose proof (iv_orphans _ _ _ _ _ _ _ _ _ Hi) as Ho.
  assert (length orphans ≤ pool_blocks (orphaned_blocks (co_orphaned_blocks_pool c)))%nat as Hlen
    by (apply pool_size; [done|]; intros b' ?%Hd%descends_in; done).
  pose proof (orphans_nodup c g b orphans Hi Hnd Hd) as Hndh. fold blocks in Hndh.
  assert (∀ h, h ∈ ib_hash <$> blocks → untouched g h) as Hunt.
  { intros h [->|(o & -> & Hin')%list_elem_of_fmap]%elem_of_cons; [done|]. by apply Hd, descends_in, Ho in Hin' as (_ & ? & _). }
  destruct (spec_forget_blocks_leave W (ib_hash <$> blocks) _ g (iv_chain _ _ _ _ _ _ _ _ _ Hi)) as (k1 & E3 & Hc1).
  apply runs_bind. eapply runs_chain; [exact E3|].
  set (g1 := g_without (λ h, h ∈ ib_hash <$> blocks) (g_hd g) g) in *.
  assert (ih_hash <$> (ib_header <$> blocks) = ib_hash <$> blocks) as Ehs by (by rewrite <-list_fmap_compose).
  assert (g_v g1 = g_v g) as Ev1 by (apply filter_all; intros x Hx Hb; by destruct (Hunt x Hb)).
  destruct (spec_verify_blocks W (ib_header <$> blocks) k1 g1 Hc1) as (k2 & hd & E4 & Hl4 & Hc2).
  { rewrite length_fmap. pose proof (g_size_without (λ h, h ∈ ib_hash <$> blocks) (g_hd g) g ltac:(done)). fold g1 in H0.
    unfold blocks. cbn [length]. lia. }
  { apply Forall_fmap, list.Forall_forall. intros x [->|Hx]%elem_of_cons; [done|]. by apply Hd, descends_in, Ho in Hx as (? & _). }
  { by rewrite Ehs. }
  { rewrite Ehs. intros h Hb. split; [|by apply Hunt]. unfold g_queues. cbn. rewrite !elem_of_app, !list_elem_of_filter. tauto. }
  apply runs_bind. eapply runs_chain; [exact E4|]. apply runs_bind, runs_modify, runs_ret. rewrite Ehs in Hc2.
  match type of Hc2 with chain_ok _ _ ?x => set (g2 := x) in * end. exists g2. split.
  - pose proof (iv_pool _ _ _ _ _ _ _ _ _ Hi) as Hpool. destruct Hi as [Hc Ht Hp _ Hm Hsat Hheld]. split; try done; cbn.
    + by eapply pool_ok_removed.
    + intros b' [Hb' Hn]%Hin. destruct (Ho b' Hb') as (Hkb & [Hu1 Hu2] & [Hu3 Hu4]).
      assert ((ib_hash b' ∉ ib_hash <$> blocks) ∧ ib_parent b' ∉ ib_hash <$> blocks) as [Hs1 Hs2] by (eapply orphans_stay; [by split| done..]).
      unfold untouched, g2. cbn [g_v g_stored]. rewrite Ev1. split_and!; try done; by apply not_elem_of_app.
    + intros Hst. destruct (Hsat Hst) as [E E']. unfold g1. cbn. by rewrite E, E'.
    + intros h [HQ Hr]%list_elem_of_filter. destruct (Hheld h Hr) as [->%list_elem_of_singleton|[?|(b' & Hb' & <-)]].
      * destruct HQ. left.
      * by right; left.
      * right. right. exists b'. split; [|done]. apply Hin. split; [done|]. intros Hor. apply HQ. right. by apply list_elem_of_fmap_2.
  - unfold handed. split_and!; try done; [by apply parents_first_cons|exact (f_equal (λ l, l ++ _) Ev1)| |].
    + intros h Hb. unfold g2, g1. cbn. rewrite !list_elem_of_filter. tauto.
    + pose proof (g_size_without (λ h, h ∈ ib_hash <$> blocks) (g_hd g) g ltac:(done)) as Hsz. fold g1 in Hsz.
      unfold small, g_size, g_queues in *. cbn [g2 g_hs g_v g_r g_q g_hd] in *. rewrite !length_app, !length_fmap in *. unfold blocks in *.
      cbn [length] in *. lia.
Qed.

Lemma waiting_untouched c g limbo h : inv g limbo c → h ∈ g_r g ∨ h ∈ g_q g → untouched g h.
Proof.
  intros Hi Hh. pose proof (iv_chain _ _ _ _ _ _ _ _ _ Hi) as Hc. split.
  - intros Hv. pose proof (ck_nodup _ _ _ Hc) as (_ & Hd & _)%list.NoDup_app. apply (Hd h Hv). by apply elem_of_app.
  - apply (ck_new _ _ _ Hc). unfold g_queues. rewrite !elem_of_app. tauto.
Qed.

(** Peers are not dropped over the block: the parent is no dead end, or bad
    blocks are tolerated. *)
Definition tolerated c (b : IndexedBlock) : Prop :=
  close_connection_on_bad_block (co_config c) = false ∨ ib_parent b ∉ sc_dead_end_blocks (co_chain c).

Definition block_post (g : Ghost) (b : IndexedBlock) (r : option (list IndexedBlock)) c : Prop :=
  ∃ g', inv g' [] c ∧ match r with Some blocks => handed g g' b blocks | None => calm g g' end.

Lemma new_block_inv peer b c g : inv g [ib_hash b] c → tolerated c b →
  Z.of_nat (g_size g + 2 * S (pool_blocks (orphaned_blocks (co_orphaned_blocks_pool c)))) < 2 ^ 31 →
  known_header W (ib_header b) → untouched g (ib_hash b) →
  runs (on_new_block precise_time_s peer b) c (block_post g b).
Proof.
  intros Hi Htol Hroom Hk Hh. unfold on_new_block. apply runs_bind, runs_gets. apply runs_bind. eapply runs_state; [done|].
  intros st chain _ Hst _ Hdead _ Hi1. assert (small g) as Hs by (unfold small; lia).
  assert (untouched g (ib_parent b) → runs (_ ← on_orphan_unknown precise_time_s b; mret None) (set_chain chain c) (block_post g b)) as Horphan.
  { intros Hp. eapply runs_after; [by apply orphan_unknown_inv|]. intros [] c2 (g' & Hi2 & Hc). apply runs_ret. by exists g'. }
  assert (ib_parent b ∈ g_v g ∨ g_stored g (ib_parent b) = true →
    runs (blocks ← on_block_to_verify precise_time_s peer b; mret (Some blocks)) (set_chain chain c) (block_post g b)) as Hverify.
  { intros Hp. eapply runs_after; [by apply to_verify_inv|]. intros blocks c2 (g' & Hi2 & Hc). apply runs_ret. by exists g'. }
  assert (ib_parent b ∈ g_r g ∨ ib_parent b ∈ g_q g →
    runs (_ ← on_tasks (useful_peer peer); _ ← on_pool (λ pool, Some (tt, insert_orphaned_block b pool)); mret None)
      (set_chain chain c) (block_post g b)) as Hwait.
  { intros Hp. apply runs_bind. eapply runs_useful; [exact Hi1|]. intros c2 Hi2 _ _ _. apply runs_bind.
    eapply runs_pool; [reflexivity|]. apply runs_ret. exists g. split; [|done].
    pose proof (inv_insert_orphan g [] c2 b (unknown_blocks (co_orphaned_blocks_pool c2)) Hi2 Hk Hh
      (waiting_untouched _ _ _ _ Hi2 Hp) ltac:(auto)) as Hi3.
    by destruct (co_orphaned_blocks_pool c2). }
  destruct st; cbn in Hst.
  - apply Horphan. destruct Hst as [Hq Hns]. split; [|done]. unfold g_queues in Hq. rewrite elem_of_app in Hq. tauto.
  - apply Hwait. by right.
  - apply Hwait. by left.
  - apply Hverify. by left.
  - apply Hverify. right. apply Hst.
  - destruct Htol as [->|Hnd]; [|by destruct (Hnd (Hdead eq_refl))].
    apply Horphan. destruct Hst as [Hq Hns]. split; [|done]. unfold g_queues in Hq. rewrite elem_of_app in Hq. tauto.
Qed.

Lemma inv_drop_limbo g h c : inv g [h] c → (h ∉ g_r g) → inv g [] c.
Proof.
  intros [Hc Ht Hp Ho Hm Hsat Hheld] Hn. split; try done. intros x Hx.
  destruct (Hheld x Hx) as [->%list_elem_of_singleton|?]; [done|by right].
Qed.

(** A block that arrives: nothing panics, the invariant holds again, and what is
    handed to the verifier is as it should be. *)
Lemma block_inv peer b c g : inv g [] c → tolerated c b →
  Z.of_nat (g_size g + 2 * S (pool_blocks (orphaned_blocks (co_orphaned_blocks_pool c)))) < 2 ^ 31 →
  known_header W (ib_header b) →
  runs (core_on_block precise_time_s peer b) c (block_post g b).
Proof.
  intros Hi Htol Hroom Hk. unfold core_on_block. apply runs_bind, runs_now. intros t. apply runs_bind, runs_now. intros t'.
  destruct (on_block_received_ok t t' peer (ib_hash b) _ (iv_tasks _ _ _ _ _ _ _ _ _ Hi)) as (pt & E & Hok & Hget & _).
  apply runs_bind. eapply runs_tasks; [exact E|].
  set (c1 := set_tasks pt (add_reading (add_reading c))).
  assert (inv g [ib_hash b] c1) as Hi1.
  { destruct Hi as [Hc Ht Hp Ho Hm Hsat Hheld]. split; try done. intros h Hr.
    destruct (Hheld h Hr) as [[]%not_elem_of_nil|[[q Hq]|?]]; [|by right; right].
    destruct (decide (h = ib_hash b)) as [->|Hne]; [left; by apply list_elem_of_singleton|]. right. left. exists q.
    unfold asked. cbn. rewrite Hget. unfold asked in Hq. case_decide; [|done]. rewrite tasks_without_asked. set_solver. }
  apply runs_bind. eapply runs_state; [exact Hi1|]. intros st chain _ Hst Hd Hdead _ Hi2.
  assert (∀ h, (h ∉ g_queues g) → h ∉ g_r g) as Hq by (intros h; unfold g_queues; rewrite !elem_of_app; tauto).
  assert (untouched g (ib_hash b) → runs (on_new_block precise_time_s peer b) (set_chain chain c1) (block_post g b)) as Hnew.
  { intros Hu. apply new_block_inv; try done. unfold tolerated. cbn. by rewrite Hd. }
  assert ((ib_hash b ∉ g_r g) → runs (_ ← on_tasks (useful_peer peer); mret None) (set_chain chain c1) (block_post g b)) as Hold.
  { intros Hn. apply runs_bind. eapply runs_useful; [exact Hi2|]. intros c3 Hi3 _ _ _. apply runs_ret. exists g.
    split; [by eapply inv_drop_limbo|done]. }
  destruct st; cbn in Hst.
  - apply Hnew. destruct Hst as [Hnq Hns]. split; [|done]. unfold g_queues in Hnq. rewrite elem_of_app in Hnq. tauto.
  - apply Hnew. eapply waiting_untouched; [exact Hi2|by right].
  - apply Hnew. eapply waiting_untouched; [exact Hi2|by left].
  - apply Hold. intros Hr. by destruct (waiting_untouched _ _ _ _ Hi2 (or_introl Hr)).
  - apply Hold, Hq, Hst.
  - apply runs_bind, runs_gets. destruct (close_connection_on_bad_block _).
    + apply runs_bind, runs_misbehaving. intros e p. apply runs_ret. exists g. split; [|done].
      apply (inv_drop_limbo g (ib_hash b)); [exact Hi2|apply Hq, Hst].
    + apply Hnew. destruct Hst as [Hnq Hns]. split; [|done]. unfold g_queues in Hnq. rewrite elem_of_app in Hnq. tauto.
Qed.

(** ** Results of the verifier *)

Lemma runs_awake hash c (Q : unit → Core → Prop) : (∀ c', agree c c' → Q tt c') → runs (awake_waiting_threads hash) c Q.
Proof.
  intros HQ. unfold runs, awake_waiting_threads. destruct (_ !! hash) as [peer|]; [|eexists _, _; by split; [|apply HQ]].
  destruct (_ !! peer) as [[waiting futures]|]; [case_decide|]; (eexists _, _; by split; [|apply HQ]).
Qed.

Lemma relay_inv hashes c g : inv g [] c → runs (relay_blocks hashes) c (λ _, inv g []).
Proof.
  intros Hi. apply runs_each; [|done]. intros h c1 _ Hi1.
  destruct (spec_db_block W _ g h (iv_chain _ _ _ _ _ _ _ _ _ Hi1)) as (b & chain & E & Hc).
  apply runs_bind. eapply runs_chain; [exact E|]. assert (inv g [] (set_chain chain c1)) as Hi2 by by apply inv_chain_read.
  destruct b; [by apply runs_modify|by apply runs_ret].
Qed.

(** A verified block becomes stored. *)
Lemma inv_stored g c chain b hs hd : inv g [] c → ib_hash b ∈ g_v g →
  let g' := mkGhost hs (λ h, bool_decide (h = ib_hash b) || g_stored g h) (filter (λ x, x ≠ ib_hash b) (g_v g)) (g_r g) (g_q g) hd in
  chain_ok W chain g' → inv g' [] (set_chain chain c).
Proof.
  intros [Hc Ht Hp Ho Hm Hsat Hheld] Hv g' Hc'. split; try done. intros b' Hb'. destruct (Ho b' Hb') as (Hk & [H1 H2] & [H3 H4]).
  unfold untouched, g'. cbn. rewrite !list_elem_of_filter, !H2, !H4.
  rewrite !bool_decide_false by (by intros E; rewrite E in *). split_and!; try done; tauto.
Qed.

(** After a result of the verifier: nothing new is asked for. *)
Definition resolved (g : Ghost) c : Prop := ∃ g', inv g' [] c ∧ asks_less g g'.

Lemma resolved_well g c : resolved g c → well c.
Proof. intros (g' & Hi & _). by exists g'. Qed.

Lemma runs_stored b c g : inv g [] c → Z.of_nat (g_size g + 4096) < 2 ^ 31 → (ib_hash b ∈ g_v g → attached (sc_storage (co_chain c)) b) →
  runs (position ← on_chain (forget_block_with_state_leave_header (ib_hash b) Verifying);
        if decide (position = Missing) then mret (Ok (mkBlockInsertionResult []))
        else on_chain (insert_best_block b)) c (λ r c', ∃ x g', r = Ok x ∧ inv g' [] c' ∧ small g' ∧ asks_less g g' ∧ co_peers_tasks c' = co_peers_tasks c).
Proof.
  intros Hi Hroom Hatt. pose proof (iv_chain _ _ _ _ _ _ _ _ _ Hi) as Hc.
  destruct (spec_forget_verifying W (ib_hash b) _ g Hc) as (p & k1 & E1 & Hp & Hc1).
  apply runs_bind. eapply runs_chain; [exact E1|]. case_decide as Hmiss.
  - apply runs_ret. eexists _, g. split_and!; [done| |unfold small; lia|done|done]. apply inv_chain_read; [done|].
    rewrite filter_all in Hc1 by (intros x Hx ->; by apply Hp in Hmiss). by destruct g.
  - assert (ib_hash b ∈ g_v g) as Hv by (destruct (decide (ib_hash b ∈ g_v g)); [done|by destruct (Hmiss (proj2 Hp n))]).
    assert (sc_storage k1 = sc_storage (co_chain c)) as Es.
    { assert (keeps_store (forget_block_with_state_leave_header (T:=T) (ib_hash b) Verifying)) as Hk; [|by eapply Hk].
      unfold forget_block_with_state_leave_header. apply keeps_bind; [apply keeps_lift|intros i; apply keeps_hashes]. }
    match type of Hc1 with chain_ok _ _ ?x => set (g1 := x) in * end.
    assert (g_size g1 ≤ g_size g)%nat as Hsz.
    { unfold g_size, g_queues, g1. cbn. rewrite !length_app. pose proof (list.length_filter (λ x, x ≠ ib_hash b) (g_v g)). lia. }
    destruct (spec_insert W b k1 g1 Hc1) as (r & hs & hd & k2 & E2 & Hl & Hlhd & Hc2).
    + lia.
    + rewrite Es. by apply Hatt.
    + unfold g1, g_queues. cbn. rewrite elem_of_app, list_elem_of_filter.
      intros [[? _]|Hrq]; [done|]. apply elem_of_app in Hrq. by destruct (waiting_untouched _ _ _ _ Hi Hrq).
    + apply (ck_new _ _ _ Hc). unfold g_queues. rewrite elem_of_app. by left.
    + eapply runs_chain; [exact E2|]. eexists r, _. split; [done|]. split; [exact (inv_stored g c k2 b hs hd Hi Hv Hc2)|]. split; [|by split; [intros h|]].
      unfold small, g_size, g_queues, g1 in *. cbn in *. rewrite !length_app in *. lia.
Qed.

Lemma success_well b c g : inv g [] c → Z.of_nat (g_size g + 4096) < 2 ^ 31 → few_peers c →
  (ib_hash b ∈ g_v g → attached (sc_storage (co_chain c)) b) →
  runs (on_block_verification_success precise_time_s b) c (λ _, resolved g).
Proof.
  intros Hi Hroom Hf Hatt. unfold on_block_verification_success. apply runs_bind, runs_now. intros t.
  destruct (meter_ok_checkpoint t _ (proj1 (iv_meters _ _ _ _ _ _ _ _ _ Hi))) as (meter & Em & Hmeter).
  apply runs_bind. eapply runs_query; [exact Em|]. apply runs_bind, runs_modify. apply runs_bind, runs_gets. apply runs_bind, runs_modify.
  match goal with |- runs _ ?x _ => set (c1 := x) end.
  assert (inv g [] c1) as Hi1 by (destruct Hi as [Hc Ht Hp Ho [_ Hm] Hsat Hheld]; by split).
  apply runs_assoc. eapply runs_after; [exact (runs_stored b c1 g Hi1 Hroom Hatt)|]. intros r c2 (x & g2 & -> & Hi2 & Hs2 & Hless & Et2).
  apply runs_bind, runs_modify.
  assert (∀ c3, inv g2 [] c3 → co_peers_tasks c3 = co_peers_tasks c →
    runs (_ ← awake_waiting_threads (ib_hash b); _ ← execute_synchronization_tasks precise_time_s None None; state ← cm_gets co_state;
      cm_when (bool_decide (ib_hash b ∉ co_do_not_relay (set_meters meter (co_sync_speed_meter (add_reading c)) (add_reading c))) &&
        (is_saturated state || is_nearly_saturated state)) (relay_blocks (canonized_blocks_hashes x))) c3 (λ _, resolved g)) as Hrest.
  { intros c3 Hi3 Et3. apply runs_bind, runs_awake. intros c4 Ha. pose proof (inv_agree _ _ _ _ _ Ha Hi3) as Hi4.
    eapply runs_after; [eapply (runs_execute precise_time_s W None None c4 g2 []); [done|done| |done]|].
    - destruct Ha as [_ Et4]. unfold few, few_peers in *. rewrite Et4, Et3. lia.
    - intros [] c5 (g5 & Hi5 & (_ & _ & _ & _ & Hless5)). pose proof (asks_less_trans _ _ _ Hless Hless5) as Hl. apply runs_bind, runs_gets.
      apply runs_when; [intros _|intros _; by exists g5]. eapply runs_mono; [by apply relay_inv|]. intros [] c6 Hi6. by exists g5. }
  destruct (list.last _) as [h|].
  - apply runs_bind, runs_notify. intros c3 Ha. apply Hrest; [exact (inv_agree _ _ _ _ _ Ha Hi2)|]. destruct Ha as [_ ->]. exact Et2.
  - apply runs_bind, runs_ret. apply Hrest; [exact Hi2|exact Et2].
Qed.

Lemma error_well hash c g : inv g [] c → small g → few_peers c →
  runs (on_block_verification_error precise_time_s hash) c (λ _, resolved g).
Proof.
  intros Hi Hs Hf. unfold on_block_verification_error. apply runs_bind, runs_modify. do 2 apply runs_bind, runs_gets.
  apply runs_bind.
  assert (∀ c1, agree c c1 → runs (_ ← on_chain (forget_block_with_children hash); _ ← on_chain (mark_dead_end_block hash);
    _ ← awake_waiting_threads hash; execute_synchronization_tasks precise_time_s None None) c1 (λ _, resolved g)) as Hrest.
  { intros c1 Ha. pose proof (inv_agree _ _ _ _ _ Ha Hi) as Hi1. destruct Ha as [_ Et1].
    destruct (spec_forget_children W hash _ g (iv_chain _ _ _ _ _ _ _ _ _ Hi1) Hs) as (k1 & E1 & (hd & Hpre & Hc1) & _).
    apply runs_bind. eapply runs_chain; [exact E1|].
    destruct (spec_dead_end W k1 _ hash Hc1) as (k2 & E2 & Hc2). apply runs_bind. eapply runs_chain; [exact E2|].
    apply runs_bind, runs_awake. intros c2 Ha2. eapply runs_mono; [eapply (runs_execute precise_time_s W None None c2 _ []); [|..|done]|].
    - eapply (inv_agree W _ _ _ _ Ha2). eapply (inv_without_same g [] [] c1 k2); [exact Hi1|exact Hc2|done].
    - unfold small in *. apply prefix_length in Hpre.
      pose proof (g_size_without (λ x, x ∈ doomed hash (g_hd g)) hd g Hpre). lia.
    - destruct Ha2 as [_ Et2]. unfold few, few_peers in *. rewrite Et2. cbn. rewrite Et1. lia.
    - intros [] c3 (g3 & Hi3 & (_ & _ & _ & _ & Hless)). exists g3. split; [done|]. eapply asks_less_trans; [|exact Hless]. apply asks_less_without. }
  destruct (_ !! hash) as [peer|]; [|by apply runs_ret, Hrest].
  apply runs_when; [intros _; by eexists _, _; split; [reflexivity|apply Hrest]|intros _; by apply Hrest].
Qed.

Lemma nearly_verified_well peer future c g : inv g [] c → runs (after_peer_nearly_blocks_verified peer future) c (λ _, well).
Proof.
  intros Hi. unfold runs, after_peer_nearly_blocks_verified. destruct (is_synchronizing _); [by eexists _, _; split; [|exists g]|].
  destruct (_ !! peer) as [[]|]; by eexists _, _; split; [|exists g].
Qed.

Lemma try_saturate_well c g : inv g [] c → small g → runs try_switch_to_saturated_state c (λ _, well).
Proof.
  intros Hi Hs. unfold try_switch_to_saturated_state. apply runs_bind. eapply (runs_length W Scheduled); [done..|].
  apply runs_bind.
  assert (∀ b : bool, runs (if b then chain_length Requested else mret 1) c (λ _ c', c' = c)) as Hl.
  { intros [|]; [eapply (runs_length W Requested); done|by apply runs_ret]. }
  eapply runs_mono; [apply Hl|]. intros r c1 ->. cbn zeta. eapply runs_after.
  - apply (runs_when _ _ _ (λ _ c', well c')); [intros _|intros _; by exists g]. eapply runs_mono; [by eapply runs_saturated|].
    intros [] c2. apply settled_well.
  - intros [] c2 H2. by apply runs_ret.
Qed.

(** ** The management thread *)

(** The tasks of a busy peer are taken back, and go to the two lists. *)
Lemma inv_taken_back_more g limbo c peer pt hashes : inv g limbo c → tasks_ok pt →
  (∀ h, h ∈ asked (co_peers_tasks c) peer → h ∈ hashes) →
  (∀ q, lhm_get q (pt_blocks_requests pt) =
     if decide (q = peer) then None else lhm_get q (pt_blocks_requests (co_peers_tasks c))) →
  inv g (limbo ++ hashes) (set_tasks pt c).
Proof.
  intros [Hc Ht Hp Ho Hm Hsat Hheld] Hok Hh Hget. split; try done. intros h Hr. rewrite elem_of_app.
  destruct (Hheld h Hr) as [?|[[q Hq]|?]]; [by left; left| |by right; right].
  destruct (decide (q = peer)) as [->|Hne]; [left; right; by apply Hh|]. right. left. exists q.
  rewrite (asked_same (co_peers_tasks c)); [done|]. cbn. by rewrite Hget, decide_False.
Qed.

Lemma manage_blocks_inv config now requests to_request to_forget c g : inv g (to_request ++ to_forget) c →
  NoDup requests.*1 → (∀ p, p ∈ requests.*1 → busy (co_peers_tasks c) p) →
  runs (manage_blocks_loop config now requests to_request to_forget) c (λ r c', inv g (r.1 ++ r.2) c' ∧
    pt_all (co_peers_tasks c') = pt_all (co_peers_tasks c)).
Proof.
  revert to_request to_forget c. induction requests as [|[p request] requests IH]; intros tr tf c Hi Hnd Hbusy;
    cbn [manage_blocks_loop]; [by apply runs_ret|].
  apply runs_bind, runs_gets. cbn zeta. destruct (f64_le _ _); [by apply runs_ret|].
  cbn in Hnd. apply list.NoDup_cons in Hnd as [Hp Hnd].
  pose proof (iv_tasks _ _ _ _ _ _ _ _ _ Hi) as Hok. set (pt := co_peers_tasks c) in *.
  assert (busy pt p) as Hb by (apply Hbusy; left).
  assert (p ∈ pt_all pt) as Hall by (apply (tk_all _ Hok); tauto).
  assert (p ∉ pt_unuseful pt) as Hun by (intros Hu; by apply (tk_unuseful _ Hok) in Hu as [_ ?]).
  pose proof (reset_blocks_tasks_ok p _ Hok Hall Hun) as Hok1.
  destruct (reset_blocks_tasks_spec p pt) as (Hh & _ & Hget & Ea & _). fold pt.
  apply runs_bind, runs_tasks_ret. cbn [set_tasks co_peers_tasks]. fold pt.
  set (failed := (reset_blocks_tasks p pt).1) in *. set (pt1 := (reset_blocks_tasks p pt).2) in *.
  apply runs_bind, runs_tasks_ret. cbn [set_tasks co_peers_tasks].
  destruct (on_blocks_failure_ok failed pt1 Hok1) as [Hok2 Er2].
  pose proof (blocks_failures_perm failed (pt_blocks_stats pt1)) as Hperm.
  assert (pt_all (on_blocks_failure failed pt1).2 = pt_all pt) as Ea2
    by (rewrite <-Ea; unfold on_blocks_failure; by destruct (blocks_failures _ _)).
  assert (failed ≡ₚ (on_blocks_failure failed pt1).1.1 ++ (on_blocks_failure failed pt1).1.2) as Hperm'.
  { unfold on_blocks_failure. by destruct (blocks_failures failed (pt_blocks_stats pt1)) as [[normal bad] stats]. }
  clear Hperm. destruct (on_blocks_failure failed pt1) as [[normal bad] pt2]. cbn in Hok2, Er2, Ea2, Hperm' |- *.
  destruct (penalize_ok p pt2 Hok2) as (Hok3 & Er3 & Ea3).
  apply runs_bind, runs_tasks_ret. cbn [set_tasks co_peers_tasks]. unfold on_peer_block_failure.
  set (pt3 := (penalize p pt2).2) in *.
  assert (∀ pt4 l pp c4, tasks_ok pt4 → pt_blocks_requests pt4 = pt_blocks_requests pt3 → pt_all pt4 = pt_all pt →
    c4 = set_tasks pt4 c ∨ c4 = add_effects l (set_peers pp (set_tasks pt4 c)) →
    runs (manage_blocks_loop config now requests (tr ++ normal) (tf ++ bad)) c4 (λ r c', inv g (r.1 ++ r.2) c' ∧
      pt_all (co_peers_tasks c') = pt_all (co_peers_tasks c))) as Hnext.
  { intros pt4 l pp c4 Hok4 Er4 Ea4 Hc4.
    assert (∀ q, lhm_get q (pt_blocks_requests pt4) = if decide (q = p) then None else lhm_get q (pt_blocks_requests pt)) as Hget4
      by (intros q; rewrite Er4, Er3, Er2; apply Hget).
    assert (inv g ((tr ++ normal) ++ tf ++ bad) (set_tasks pt4 c)) as Hi4.
    { eapply inv_limbo; [apply (inv_taken_back_more g (tr ++ tf) c p pt4 failed); try done; intros h; apply Hh|].
      intros h. rewrite Hperm', !elem_of_app. tauto. }
    assert (inv g ((tr ++ normal) ++ tf ++ bad) c4 ∧ co_peers_tasks c4 = pt4) as [Hi5 Et5]
      by (destruct Hc4 as [-> | ->]; by split).
    eapply runs_mono; [apply (IH _ _ c4); [done..|]|].
    - intros q Hq. unfold busy. rewrite Et5, Hget4, decide_False by (by intros ->). apply Hbusy. by right.
    - intros r c' [? E]. split; [done|]. by rewrite E, Et5. }
  apply runs_bind. apply runs_when; intros _.
  - destruct (unuseful_peer_ok p pt3 Hok3) as (pt4 & E4 & Hok4 & Er4 & Ea4 & _).
    { unfold busy. rewrite Er3, Er2, Hget, decide_True by done. by intros []. }
    apply runs_bind. eapply runs_tasks; [exact E4|]. apply runs_misbehaving. intros l pp.
    apply (Hnext pt4 l pp); [done..| |by right]. rewrite Ea4, Ea3, Ea2. set_solver.
  - apply (Hnext pt3 [] (co_peers c)); [done..| |by left]. by rewrite Ea3.
Qed.

(** The failed blocks are forgotten, with all that stands on them. *)
Lemma forget_failed_inv l limbo c g : inv g (limbo ++ l) c → small g →
  runs (forget_failed_blocks l) c (λ _ c', ∃ g', inv g' limbo c' ∧ small g' ∧ co_peers_tasks c' = co_peers_tasks c).
Proof.
  revert c g. induction l as [|h l IH]; intros c g Hi Hs; unfold forget_failed_blocks; cbn [cm_each].
  { apply runs_ret. exists g. by rewrite app_nil_r in Hi. }
  destruct (spec_forget_children W h _ g (iv_chain _ _ _ _ _ _ _ _ _ Hi) Hs) as (k1 & E1 & (hd & Hpre & Hc1) & Hin).
  apply runs_bind. eapply runs_chain; [exact E1|].
  eapply (IH (set_chain k1 c)).
  - eapply inv_without_same; [exact Hi|exact Hc1|]. intros x [Hx|[->|Hx]%elem_of_cons]%elem_of_app Hn; rewrite elem_of_app; [by left|done|by right].
  - unfold small in *. apply prefix_length in Hpre.
    pose proof (g_size_without (λ x, x ∈ doomed h (g_hd g)) hd g Hpre). lia.
Qed.

Lemma manage_headers_inv config now requests c g : inv g [] c → runs (manage_headers_loop config now requests) c (λ _, inv g []).
Proof.
  revert c. induction requests as [|[p request] requests IH]; intros c Hi; cbn [manage_headers_loop]; [by apply runs_ret|].
  apply runs_bind, runs_gets. cbn zeta. destruct (f64_le _ _); [by apply runs_ret|].
  apply runs_bind, runs_gets. destruct (from_option _ _ _); [by apply IH|].
  apply runs_bind, runs_tasks_ret. destruct (on_peer_headers_failure_ok p _ (iv_tasks _ _ _ _ _ _ _ _ _ Hi)) as [Hok Er].
  assert (inv g [] (set_tasks (on_peer_headers_failure p (co_peers_tasks c)).2 c)) as Hi2 by by apply inv_tasks_same.
  apply runs_bind. apply runs_when; [intros _; apply runs_misbehaving; intros l pp|intros _]; by apply IH.
Qed.

(** In a saturated client nothing is requested, so the pool may shrink. *)
Lemma inv_saturated_pool g c pool : inv g [] c → is_saturated (co_state c) = true → pool_ok pool →
  (∀ b, in_pool (orphaned_blocks pool) b → in_pool (orphaned_blocks (co_orphaned_blocks_pool c)) b) → inv g [] (set_pool pool c).
Proof.
  intros [Hc Ht Hp Ho Hm Hsat Hheld] Hst Hok Hsub. split; try done; [by intros b Hb; apply Ho, Hsub|].
  destruct (Hsat Hst) as [-> _]. by intros h []%not_elem_of_nil.
Qed.

Lemma manage_unknown_well c g : inv g [] c → small g → is_saturated (co_state c) = true →
  runs (orphans_to_remove ← manage_unknown_orphaned_blocks precise_time_s manage_unknown_config;
        match orphans_to_remove with
        | Some hashes => cm_each (λ hash, _ ← on_chain (forget_block hash); mret tt) hashes
        | None => mret tt
        end) c (λ _, well).
Proof.
  intros Hi Hs Hsat. eapply (runs_after _ _ _ (λ _ c', inv g [] c')).
  - unfold manage_unknown_orphaned_blocks. apply runs_bind, runs_now. intros t. apply runs_bind, runs_gets. cbn zeta.
    match goal with |- context [remove_blocks ?x] => set (hashes := x) end.
    pose proof (iv_pool _ _ _ _ _ _ _ _ _ Hi) as Hp.
    destruct (remove_blocks_spec hashes _ (po_filed _ Hp)) as (removed & pool & E & Hok & Hin & Hrem & Hget).
    apply runs_bind. eapply runs_pool; [exact E|]. apply runs_ret. apply (inv_saturated_pool g (add_reading c)); [done..| |].
    + split; [done|]. intros h Hh. rewrite Hget in Hh. case_decide as Hd; [by destruct Hh|].
      destruct (po_unknown _ Hp h Hh) as (b & Hb & <-). exists b. split; [|done]. apply Hin. split; [done|].
      intros Hdoom. apply Hd, Hrem. by exists b.
    + by intros b [? _]%Hin.
  - intros [hashes|] c1 Hi1; [|apply runs_ret; by exists g].
    eapply runs_mono; [apply (runs_each _ _ _ (λ c', ∃ g', inv g' [] c' ∧ small g')); [|by exists g]|].
    + intros h c2 _ (g2 & Hi2 & Hs2).
      destruct (spec_forget_block W h _ g2 (iv_chain _ _ _ _ _ _ _ _ _ Hi2) Hs2) as (p & k & E & hd & Hpre & Hc).
      apply runs_bind. eapply runs_chain; [exact E|]. apply runs_ret. eexists. split; [by eapply inv_without_same|].
      unfold small in *. apply prefix_length in Hpre. pose proof (g_size_without (λ x, x = h) hd g2 Hpre). lia.
    + intros [] c2 (g2 & Hi2 & _). by exists g2.
Qed.

Lemma management_well c g : inv g [] c → small g → few_peers c → runs (management_round precise_time_s) c (λ _, well).
Proof.
  intros Hi Hs Hf. unfold management_round. apply runs_bind. eapply runs_print; [done|]. intros c1 Hi1 Et1 _.
  apply runs_bind, runs_gets. destruct (is_synchronizing (co_state c1) || is_nearly_saturated (co_state c1)) eqn:Est.
  2:{ apply (manage_unknown_well c1 g); [done..|]. by destruct (co_state c1). }
  eapply (runs_after _ _ _ (λ r c', inv g (r.1 ++ r.2) c' ∧ pt_all (co_peers_tasks c') = pt_all (co_peers_tasks c))).
  { unfold manage_synchronization_peers_blocks. apply runs_bind, runs_now. intros t. apply runs_bind, runs_gets.
    rewrite <-Et1. apply (manage_blocks_inv _ _ _ [] [] (add_reading c1)); [done|apply lhm_nodup|].
    intros p ([q v] & -> & Hv)%list_elem_of_fmap. cbn in Hv |- *. exists v. by apply lhm_get_iter. }
  intros [tr tf] c2 [Hi2 Ea2]. cbn in Hi2.
  eapply runs_after; [by apply (forget_failed_inv tf tr c2 g)|]. intros [] c3 (g3 & Hi3 & Hs3 & Et3).
  eapply runs_after; [eapply (runs_execute precise_time_s W (nonempty tr) (nonempty tf) c3 g3 tr); [done..| |]|].
  - unfold few, few_peers in *. rewrite Et3, Ea2. lia.
  - intros h Hh. unfold nonempty. case_decide; [by subst|done].
  - intros [] c4 (g4 & Hi4 & _). unfold manage_synchronization_peers_headers. apply runs_bind, runs_now. intros t.
    apply runs_bind, runs_gets. eapply runs_mono; [by apply manage_headers_inv|]. intros [] c5 Hi5. by exists g4.
Qed.
End client.
