(* ===== verification/ClientSafe.v ===== *)
(** * Runs of the client

    A client that starts on a stored chain and handles any sequence of events:
    messages of peers, results of the verifier, rounds of the management
    thread. *)

From S2P Require Import Prelude External Primitives Serialization Compact Crypto Chain.
From S2P Require Import Storage Network Work Verification Kv KvRefine BlockChainDb ChainInv ChainOps.
From S2P Require Import HashQueue HeadersChain SyncChain SyncOps Locator SyncQueues.
From S2P Require Import Message MessageTypes SpeedMeter Collections PeersTasks OrphanPool Peers.
From S2P Require Import ClientCore ClientChain ClientInv ClientRun.
From stdpp Require Import gmap.
#[local] Open Scope Z_scope.

Section client.
Context {U : U256Ops} {UL : U256Laws U} {R : RugOps} {H : Sha256Ops} {V : VrfOps} {P : Profile}.
Context {T : Type} {K : KeyValueDatabase T} {KS : KvSpec T}.
Context {MP : Type → Type} {LP : LinkedHashMap PeerIndex MP} {LPL : LinkedHashMapLaws PeerIndex MP}.
Context {MH : Type → Type} {LH : LinkedHashMap H256 MH} {LHL : LinkedHashMapLaws H256 MH}.
Context {OP : HashOrder PeerIndex} {OH : HashOrder H256}.
Context {C F : Type} (network : Network) (precise_time_s : nat → f64) (get_time : nat → Z).
Context (W : Universe).

Abbreviation Core := (Core (T:=T) (MP:=MP) (MH:=MH) (C:=C) (F:=F)).
Abbreviation CM := (CM (T:=T) (MP:=MP) (MH:=MH) (C:=C) (F:=F)).
Abbreviation inv := (inv (T:=T) (MP:=MP) (MH:=MH) (C:=C) (F:=F) W).
Abbreviation well := (well (T:=T) (MP:=MP) (MH:=MH) (C:=C) (F:=F) W).
Implicit Types c : Core.

(** ** Events *)

Inductive ClientEvent :=
| EConnect (peer : PeerIndex)
| EDisconnect (peer : PeerIndex)
| EInventory (peer : PeerIndex) (m : Inv)
| EHeaders (peer : PeerIndex) (headers : list IndexedBlockHeader)
| EBlock (peer : PeerIndex) (block : IndexedBlock)
| ENotFound (peer : PeerIndex) (m : NotFound)
| EVerified (block : IndexedBlock)
| EFailed (hash : H256)
| EWait (peer : PeerIndex) (future : F)
| EManage
| ETrySaturate.

(** The handler of an event; the answer is what goes to the verifier. *)
Definition client_step (e : ClientEvent) : CM (list IndexedBlock) :=
  match e with
  | EConnect peer => _ ← core_on_connect precise_time_s peer; mret []
  | EDisconnect peer => _ ← core_on_disconnect precise_time_s peer; mret []
  | EInventory peer m => _ ← core_on_inventory peer m; mret []
  | EHeaders peer headers => _ ← core_on_headers network precise_time_s get_time peer headers; mret []
  | EBlock peer block => r ← core_on_block precise_time_s peer block; mret (default [] r)
  | ENotFound peer m => _ ← core_on_notfound precise_time_s peer m; mret []
  | EVerified block => _ ← on_block_verification_success precise_time_s block; mret []
  | EFailed hash => _ ← on_block_verification_error precise_time_s hash; mret []
  | EWait peer future => _ ← after_peer_nearly_blocks_verified peer future; mret []
  | EManage => _ ← management_round precise_time_s; mret []
  | ETrySaturate => _ ← try_switch_to_saturated_state; mret []
  end.

Fixpoint client_run (evs : list ClientEvent) : CM (list (list IndexedBlock)) :=
  match evs with
  | [] => mret []
  | e :: evs => out ← client_step e; outs ← client_run evs; mret (out :: outs)
  end.

(** How much the client holds: stored blocks, queued hashes, headers, orphans. *)
Definition client_size c : nat :=
  Z.to_nat (bb_number (sc_best_storage_block (co_chain c)) + 1) +
  sum_list (length ∘ hq_queue <$> sc_hash_chain (co_chain c)) +
  length (hq_queue (bhc_best (sc_headers_chain (co_chain c)))) +
  2 * pool_blocks (orphaned_blocks (co_orphaned_blocks_pool c)).

Definition event_size (e : ClientEvent) : nat :=
  match e with EHeaders _ headers => 2 * length headers | _ => 0 end.

(** The state of a block as the chain answers it. *)
Definition state_of c (h : H256) : option BlockState := fst <$> block_state h (co_chain c).

(** What may happen in a state.  A peer connects once; headers and blocks are of
    the consistent headers of [W]; a block is verified only after its parent was
    stored. *)
Definition event_ok (e : ClientEvent) c : Prop :=
  Z.of_nat (client_size c + event_size e + 4096) < 2 ^ 31 ∧ few_peers c ∧
  match e with
  | EConnect peer => peer ∉ pt_all (co_peers_tasks c)
  | EHeaders _ headers => headers ≠ [] ∧ Forall (known_header W) headers
  | EBlock _ block => known_header W (ib_header block) ∧ tolerated c block
  | EVerified block => state_of c (ib_hash block) = Some Verifying → attached (sc_storage (co_chain c)) block
  | _ => True
  end.

Fixpoint admissible (evs : list ClientEvent) c : Prop :=
  match evs with
  | [] => True
  | e :: evs => event_ok e c ∧ ∀ out c', client_step e c = Some (out, c') → admissible evs c'
  end.

(** ** What the invariant says *)

Lemma inv_size g limbo c : inv g limbo c →
  (g_size g + 2 * pool_blocks (orphaned_blocks (co_orphaned_blocks_pool c)) = client_size c)%nat.
Proof.
  intros Hi. pose proof (ck_inv _ _ _ (iv_chain _ _ _ _ _ _ _ _ _ Hi)) as Hc. unfold client_size, g_size.
  rewrite (best_number _ _ _ _ Hc). pose proof (si_nonempty _ _ _ _ Hc) as Hne.
  pose proof (si_headers _ _ _ _ Hc) as [(_ & (-> & _) & _) _]. rewrite length_fmap.
  pose proof (si_queues _ _ _ _ Hc) as Hq. unfold hqc_rep in Hq.
  assert (sum_list (length ∘ hq_queue <$> sc_hash_chain (co_chain c)) = length (g_queues g)) as ->; [|lia].
  inversion Hq as [|q1 ? l1 ? (E1 & _) Hq1 Eq1]. inversion Hq1 as [|q2 ? ? ? (E2 & _) Hq2]. inversion Hq2 as [|q3 ? ? ? (E3 & _) Hq3].
  inversion Hq3. unfold g_queues. cbn. rewrite E1, E2, E3, !length_app. lia.
Qed.

Lemma inv_state g limbo c h : inv g limbo c → ∃ st, state_of c h = Some st ∧ state_says g h st.
Proof.
  intros Hi. destruct (spec_block_state W h _ g (iv_chain _ _ _ _ _ _ _ _ _ Hi)) as (st & chain & E & _ & Hs & _).
  exists st. split; [|done]. unfold state_of. by rewrite E.
Qed.

Lemma state_iff g limbo c h : inv g limbo c →
  (state_of c h = Some Verifying ↔ h ∈ g_v g) ∧ (state_of c h = Some Requested ↔ h ∈ g_r g) ∧
  (state_of c h = Some Scheduled ↔ h ∈ g_q g) ∧ (state_of c h = Some Stored ↔ g_stored g h = true).
Proof.
  intros Hi. pose proof (iv_chain _ _ _ _ _ _ _ _ _ Hi) as Hc.
  pose proof (ck_nodup _ _ _ Hc) as (_ & Hv & (_ & Hr & _)%list.NoDup_app)%list.NoDup_app. specialize (Hv h). specialize (Hr h).
  rewrite elem_of_app in Hv. pose proof (ck_new _ _ _ Hc h) as Hn. unfold g_queues in Hn. rewrite !elem_of_app in Hn.
  destruct (inv_state g limbo c h Hi) as (st & -> & Hs). unfold state_says, g_queues in Hs.
  destruct st; rewrite ?elem_of_app in Hs; split_and!; (split; [try (intros [=]); intros|intros]); try done;
    try tauto; exfalso; try tauto; intuition congruence.
Qed.

(** ** One event *)

Lemma handles {A} (m : CM A) (o : list IndexedBlock) c : runs m c (λ _, well) → runs (_ ← m; mret o) c (λ _, well).
Proof. intros Hm. eapply runs_after; [exact Hm|]. intros a c' Hw. by apply runs_ret. Qed.

Lemma step_well e c : clock_ok get_time → well c → event_ok e c → runs (client_step e) c (λ _, well).
Proof.
  intros Hclock [g Hi] (Hsize & Hfew & He). pose proof (inv_size g [] c Hi) as Esz.
  assert (small g) as Hs by (unfold small; lia).
  destruct e as [p|p|p m|p l|p b|p m|b|h|p f| |]; cbn [client_step event_size] in *.
  - apply handles, (connect_well precise_time_s W p c g Hi Hs). intros Hb. apply He.
    apply (tk_all _ (iv_tasks _ _ _ _ _ _ _ _ _ Hi)). tauto.
  - by apply handles, (disconnect_well precise_time_s W p c g).
  - by apply handles, (inventory_well W p m c g).
  - destruct He as [Hne Hk]. apply handles, (headers_well network precise_time_s get_time W p l c g); try done. lia.
  - destruct He as [Hk Ht]. eapply runs_after; [apply (block_inv precise_time_s W p b c g); [done..|lia|done]|].
    intros r c' (g' & Hi' & _). apply runs_ret. by exists g'.
  - by apply handles, (notfound_well precise_time_s W p m c g).
  - apply handles. eapply runs_mono; [apply (success_well precise_time_s W b c g); [done|lia|done|]|intros ? ?; apply resolved_well]. intros Hv. apply He.
    by apply (state_iff g [] c (ib_hash b) Hi).
  - apply handles. eapply runs_mono; [by apply (error_well precise_time_s W h c g)|intros ? ?; apply resolved_well].
  - by apply handles, (nearly_verified_well W p f c g).
  - by apply handles, (management_well precise_time_s W c g).
  - by apply handles, (try_saturate_well W c g).
Qed.

Lemma run_well evs c : clock_ok get_time → well c → admissible evs c → runs (client_run evs) c (λ _, well).
Proof.
  intros Hclock. revert c. induction evs as [|e evs IH]; intros c Hw Had; cbn [client_run]; [by apply runs_ret|].
  destruct Had as [He Had]. destruct (step_well e c Hclock Hw He) as (out & c1 & E & Hw1).
  apply (runs_after _ _ _ (λ out' c', client_step e c = Some (out', c') ∧ well c')); [by exists out, c1|]. intros out' c1' [E' Hw'].
  eapply runs_after; [apply IH; [done|by eapply Had]|]. intros outs c2 Hw2. by apply runs_ret.
Qed.

(** ** The start *)

(** A client as the program makes it, on a store that holds a chain. *)
Definition started c : Prop :=
  ∃ config shared peers storage hs chain, state_inv storage hs ∧ hs ≠ [] ∧ chain_new storage = Some chain ∧
    core_new config shared peers chain = Some c.

Lemma started_well c : started c → well c.
Proof.
  intros (config & shared & peers & storage & hs & chain & Hinv & Hne & Ec & E).
  destruct (chain_new_inv storage hs Hinv Hne) as (chain' & Ec' & Hc & _). rewrite Ec in Ec'. injection Ec' as <-.
  unfold core_new in E. destruct (meter_ok_new SYNC_SPEED_BLOCKS_TO_INSPECT) as (m1 & E1 & Hm1); [unfold SYNC_SPEED_BLOCKS_TO_INSPECT; lia|].
  destruct (meter_ok_new BLOCKS_SPEED_BLOCKS_TO_INSPECT) as (m2 & E2 & Hm2); [unfold BLOCKS_SPEED_BLOCKS_TO_INSPECT; lia|].
  rewrite E1, E2 in E. cbn [mbind option_bind] in E. injection E as <-.
  exists (mkGhost hs (v_contains (db_view (sc_storage chain))) [] [] [] []). split; cbn; try done.
  - split; try done; [by apply NoDup_nil_2|by intros h []%not_elem_of_nil].
  - apply tasks_ok_default.
  - split; [by intros p m h b Hp|]. intros h Hh. cbn in Hh. rewrite lhm_get_new in Hh. by destruct Hh.
  - intros b (m & Hm & _). by rewrite lookup_empty in Hm.
  - by intros h []%not_elem_of_nil.
Qed.

(** Why [tolerated] is required: a requested block whose parent is a dead end,
    sent to a client that drops peers over bad blocks, stays requested although
    its sender is not asked for it any more and it does not enter the pool. *)
Lemma dead_end_child_unheld peer b c g : inv g [] c → close_connection_on_bad_block (co_config c) = true →
  state_of c (ib_hash b) = Some Requested → state_of c (ib_parent b) = Some DeadEnd →
  runs (core_on_block precise_time_s peer b) c (λ r c', r = None ∧ state_of c' (ib_hash b) = Some Requested ∧
    co_orphaned_blocks_pool c' = co_orphaned_blocks_pool c ∧
    ∀ q, asked (co_peers_tasks c') q =
      if decide (q = peer) then asked (co_peers_tasks c) q ∖ {[ib_hash b]} else asked (co_peers_tasks c) q).
Proof.
  intros Hi Hclose Hb Hp. pose proof (iv_chain _ _ _ _ _ _ _ _ _ Hi) as Hc. unfold state_of in Hb, Hp.
  unfold core_on_block. apply runs_bind, runs_now. intros t. apply runs_bind, runs_now. intros t'.
  destruct (on_block_received_ok t t' peer (ib_hash b) _ (iv_tasks _ _ _ _ _ _ _ _ _ Hi)) as (pt & E & Hok & Hget & _).
  apply runs_bind. eapply runs_tasks; [exact E|].
  destruct (block_state (ib_hash b) (co_chain c)) as [[st k1]|] eqn:E1; [|done]. injection Hb as ->.
  apply runs_bind. eapply runs_chain; [exact E1|].
  assert (k1 = co_chain c) as ->.
  { unfold block_state in E1. destruct (hqc_contains_in _ _); [unfold sm_lift in E1; destruct (from_queue_index _); [|done]; by injection E1|].
    destruct (on_storage _ _) as [[[] ?]|]; [done| |done]. cbn in E1. by destruct (decide _). }
  unfold on_new_block. apply runs_bind, runs_gets. cbn [co_config set_chain set_tasks add_reading]. rewrite Hclose.
  destruct (block_state (ib_parent b) (co_chain c)) as [[st k2]|] eqn:E2; [|done]. injection Hp as ->.
  apply runs_bind. eapply runs_chain; [exact E2|]. apply runs_bind, runs_misbehaving. intros l p. apply runs_ret.
  split; [done|]. destruct (spec_block_state W (ib_parent b) _ g Hc) as (st & k3 & E3 & Hc3 & _). rewrite E2 in E3. injection E3 as <- <-.
  destruct (spec_block_state W (ib_hash b) _ g Hc) as (st' & k5 & E5 & _ & Hs5 & _). rewrite E1 in E5. injection E5 as <- _.
  split_and!.
  - assert (inv g [ib_hash b] (add_effects l (set_peers p (set_chain k2 c)))) as Hi2.
    { apply (inv_limbo W g []); [|by intros h []%not_elem_of_nil]. by apply (inv_chain_read W g [] c). }
    apply (proj1 (proj2 (state_iff g _ (add_effects l (set_peers p (set_chain k2 c))) (ib_hash b) Hi2))). exact Hs5.
  - done.
  - intros q. unfold asked. cbn. rewrite Hget. case_decide; [|done]. by rewrite tasks_without_asked.
Qed.

(** ** The theorems *)

Lemma admissible_app evs evs' c outs c' : admissible (evs ++ evs') c → client_run evs c = Some (outs, c') →
  admissible evs c ∧ admissible evs' c'.
Proof.
  revert c outs. induction evs as [|e evs IH]; intros c outs Had E; cbn in *; [by injection E as _ <-|].
  destruct Had as [He Had]. unfold mbind, CM_bind in E. destruct (client_step e c) as [[out c1]|] eqn:Ee; [|done].
  destruct (client_run evs c1) as [[outs1 c2]|] eqn:Er; [|done]. injection E as _ <-.
  destruct (IH c1 outs1 (Had out c1 eq_refl) Er) as [H1 H2]. split; [|done]. split; [done|].
  intros out' c3 [= <- <-]. done.
Qed.

(** C13: the client is safe whatever its peers send.  A client that starts on a
    stored chain handles every sequence of admissible events (peers that come
    and go, announcements, headers, blocks in any order, refusals, results of
    the verifier, rounds of the management thread) without a panic.  In the
    state it reaches no request is lost: a block the chain counts as requested
    is asked of some peer or waits in the pool of orphans.  No hash is in two
    queues.  Nothing in the pool, and no parent of a block there, is being
    verified or stored, so orphans leave with their parents.  A saturated client
    has nothing requested or scheduled. *)
Theorem client_run_safe (evs : list ClientEvent) c : clock_ok get_time → started c → admissible evs c →
  ∃ outs c', client_run evs c = Some (outs, c') ∧
    (∀ h, state_of c' h = Some Requested → held (co_peers_tasks c') (co_orphaned_blocks_pool c') h) ∧
    NoDup (concat (hq_queue <$> sc_hash_chain (co_chain c'))) ∧
    (∀ b h, in_pool (orphaned_blocks (co_orphaned_blocks_pool c')) b → h = ib_hash b ∨ h = ib_parent b →
       state_of c' h ≠ Some Verifying ∧ state_of c' h ≠ Some Stored) ∧
    (is_saturated (co_state c') = true → ∀ h, state_of c' h ≠ Some Requested ∧ state_of c' h ≠ Some Scheduled) ∧
    tasks_ok (co_peers_tasks c') ∧ pool_ok (co_orphaned_blocks_pool c').
Proof.
  intros Hclock Hst Had. destruct (run_well evs c Hclock (started_well c Hst) Had) as (outs & c' & E & g & Hi).
  exists outs, c'. split; [exact E|]. pose proof (λ h, state_iff g [] c' h Hi) as Hiff.
  pose proof Hi as [Hc Ht Hp Ho Hm Hsat Hheld]. split_and!; [| | | |done|done].
  - intros h Hr%Hiff. destruct (Hheld h Hr) as [[]%not_elem_of_nil|?]; done.
  - pose proof (si_queues _ _ _ _ (ck_inv _ _ _ Hc)) as Hq. unfold hqc_rep in Hq.
    assert (hq_queue <$> sc_hash_chain (co_chain c') = [g_v g; g_r g; g_q g]) as ->.
    { apply list_eq_Forall2, Forall2_fmap_l. eapply Forall2_impl; [exact Hq|]. by intros q l [? _]. }
    cbn. rewrite app_nil_r. apply (ck_nodup _ _ _ Hc).
  - intros b h Hb Hh. destruct (Ho b Hb) as (_ & [H1 H2] & [H3 H4]).
    destruct (Hiff h) as (Hv & _ & _ & Hs). rewrite Hv, Hs. destruct Hh as [-> | ->]; split; congruence.
  - intros Hsa h. destruct (Hsat Hsa) as [E1 E2]. destruct (Hiff h) as (_ & Hr & Hq & _). rewrite Hr, Hq, E1, E2.
    split; apply not_elem_of_nil.
Qed.

(** C14: a block that arrives is handled in order.  In any state the client
    reaches, an admissible block does not make it panic.  What it hands to the
    verifier, if anything, is the block itself followed by orphans, each after
    its parent; the parent of the first is stored or being verified; every block
    of them was neither before and is being verified now, and nothing else
    starts or stops being verified or becomes stored. *)
Theorem block_handed_in_order (evs : list ClientEvent) (peer : PeerIndex) (b : IndexedBlock) c0 outs c :
  clock_ok get_time → started c0 → admissible (evs ++ [EBlock peer b]) c0 → client_run evs c0 = Some (outs, c) →
  ∃ r c', core_on_block precise_time_s peer b c = Some (r, c') ∧
    (∀ h, state_of c' h = Some Stored ↔ state_of c h = Some Stored) ∧
    match r with
    | None => ∀ h, state_of c' h = Some Verifying ↔ state_of c h = Some Verifying
    | Some blocks =>
        head blocks = Some b ∧ parents_first [ib_parent b] blocks ∧ NoDup (ib_hash <$> blocks) ∧
        (state_of c (ib_parent b) = Some Verifying ∨ state_of c (ib_parent b) = Some Stored) ∧
        (∀ h, h ∈ ib_hash <$> blocks → state_of c h ≠ Some Verifying ∧ state_of c h ≠ Some Stored) ∧
        (∀ h, state_of c' h = Some Verifying ↔ state_of c h = Some Verifying ∨ h ∈ ib_hash <$> blocks)
    end.
Proof.
  intros Hclock Hst Had Er. destruct (admissible_app _ _ _ _ _ Had Er) as [Had1 [(Hsize & _ & Hk & Ht) _]].
  destruct (run_well evs c0 Hclock (started_well c0 Hst) Had1) as (outs' & c1 & Er' & g & Hi).
  rewrite Er in Er'. injection Er' as <- <-. pose proof (inv_size g [] c Hi) as Esz.
  destruct (block_inv precise_time_s W peer b c g Hi Ht) as (r & c' & E & g' & Hi' & Hr); [cbn in Hsize; lia|done|].
  exists r, c'. split; [exact E|]. pose proof (λ h, state_iff g [] c h Hi) as H0. pose proof (λ h, state_iff g' [] c' h Hi') as H1.
  destruct r as [blocks|].
  - destruct Hr as (Hhd & Hpf & Hnd & Hpar & Hunt & Ev & Est & _). split.
    + intros h. by rewrite (proj2 (proj2 (proj2 (H1 h)))), (proj2 (proj2 (proj2 (H0 h)))), Est.
    + split_and!; [done..| | |].
      * destruct (H0 (ib_parent b)) as (-> & _ & _ & ->). done.
      * intros h Hh. destruct (Hunt h Hh) as [Hv Hs], (H0 h) as (-> & _ & _ & ->). split; congruence.
      * intros h. rewrite (proj1 (H1 h)), (proj1 (H0 h)), Ev. apply elem_of_app.
  - destruct Hr as (_ & Est & Ev & _). split; intros h.
    + by rewrite (proj2 (proj2 (proj2 (H1 h)))), (proj2 (proj2 (proj2 (H0 h)))), Est.
    + by rewrite (proj1 (H1 h)), (proj1 (H0 h)), Ev.
Qed.
End client.

(** ** A client with one peer *)

Section example.
Import Reference.
#[local] Instance checked_client : Profile := true.
#[local] Instance order_peers : HashOrder PeerIndex := elements_order.
#[local] Instance order_hashes : HashOrder H256 := elements_order.

(** The header of a block on the side block of the store. *)
Definition ex_universe : Universe.
Proof.
  refine (mkUniverse (λ x, x = ib_header ex_new) (λ h, if decide (h = ex_h2) then 1%nat else 0%nat) _ _).
  - by intros x y -> ->.
  - intros x ->. change (ih_hash (ib_header ex_new)) with ex_h2. change (previous_header_hash _) with ex_h1.
    rewrite decide_True by done. rewrite decide_False; [done|]. intros E. symmetry in E. revert E. apply ex_hashes.
Defined.

Abbreviation ExCore := (Core (T:=MemoryDatabase) (MP:=AssocMap PeerIndex) (MH:=AssocMap H256) (C:=unit) (F:=unit)).

Definition ex_client : option ExCore :=
  chain ← chain_new ex_state;
  core_new (mkClientConfig true) (mkSynchronizationState false 0) ∅ chain.

Definition ex_events : list (ClientEvent (F:=unit)) := [EConnect 1; EBlock 1 ex_new].

Definition ex_time : nat → f64 := λ n, f64_of_Z (Z.of_nat n).

(** The blocks that each event hands to the verifier, by the bytes of their hashes. *)
Definition out_bytes (outs : list (list IndexedBlock)) : list (list (list byte)) :=
  map (map (λ b, hash_bytes (ib_hash b : H256))) outs.

Example ex_run :
  option_map (λ r, out_bytes r.1) (c ← ex_client; client_run Mainnet ex_time (λ _, 0) ex_events c) =
  Some [[]; [hash_bytes ex_h2]].
Proof. vm_compute. reflexivity. Qed.

Lemma ex_started c : ex_client = Some c → started c.
Proof.
  intros E. unfold ex_client in E. destruct (chain_new ex_state) as [chain|] eqn:Ec; [|done].
  exists (mkClientConfig true), (mkSynchronizationState false 0), ∅, ex_state, [ex_h0], chain.
  split_and!; [exact ex_inv|done|exact Ec|exact E].
Qed.

Lemma ex_clock : clock_ok (λ _, 0).
Proof. intros n. done. Qed.

Lemma ex_client_is : ∃ c, ex_client = Some c.
Proof.
  assert (option_map (λ _, tt) ex_client = Some tt) as E by (vm_compute; reflexivity).
  destruct ex_client as [c|]; [by exists c|discriminate].
Qed.

(** What a computation of the example leaves, by one of its parts. *)
Lemma ex_part {A} (o : option ExCore) c (f : ExCore → A) x : o = Some c → option_map f o = Some x → f c = x.
Proof. intros -> E. by injection E. Qed.

(** What the events require, in the states in which they come. *)
Lemma ex_admissible c : ex_client = Some c → admissible Mainnet ex_time (λ _, 0) ex_universe ex_events c.
Proof.
  intros E. cbn [ex_events admissible].
  assert (client_size c = 1%nat) as Esz by (apply (ex_part ex_client c client_size _ E); vm_compute; reflexivity).
  assert (pt_all (co_peers_tasks c) = ∅) as Eall by (apply (ex_part ex_client c (λ c, pt_all (co_peers_tasks c)) _ E); vm_compute; reflexivity).
  split.
  { split; [rewrite Esz; cbn; lia|]. split; [unfold few_peers; rewrite Eall, size_empty; lia|]. rewrite Eall. apply not_elem_of_empty. }
  intros out c1 E1. split; [|done].
  set (o := option_map snd (c ← ex_client; client_step Mainnet ex_time (λ _, 0) (EConnect 1) c)).
  assert (o = Some c1) as Eo by (unfold o; rewrite E; cbn [mbind option_bind]; by rewrite E1).
  split; [|split].
  - assert (client_size c1 = 1%nat) as -> by (apply (ex_part o c1 client_size _ Eo); vm_compute; reflexivity). cbn. lia.
  - unfold few_peers. assert (size (pt_all (co_peers_tasks c1)) = 1%nat) as ->
      by (apply (ex_part o c1 (λ c, size (pt_all (co_peers_tasks c))) _ Eo); vm_compute; reflexivity). lia.
  - split; [done|]. right.
    assert (size (sc_dead_end_blocks (co_chain c1)) = 0%nat) as Hd
      by (apply (ex_part o c1 (λ c, size (sc_dead_end_blocks (co_chain c))) _ Eo); vm_compute; reflexivity).
    apply size_empty_inv in Hd. set_solver.
Qed.

Lemma client_run_safe_witness :
  ∃ c outs c', ex_client = Some c ∧ client_run Mainnet ex_time (λ _, 0) ex_events c = Some (outs, c') ∧
    ∀ h, state_of c' h = Some Requested → held (co_peers_tasks c') (co_orphaned_blocks_pool c') h.
Proof.
  destruct ex_client_is as [c E]. exists c.
  destruct (client_run_safe Mainnet ex_time (λ _, 0) ex_universe ex_events c ex_clock (ex_started c E) (ex_admissible c E))
    as (outs & c' & Er & Hh & _).
  exists outs, c'. split; [exact E|]. split; [exact Er|exact Hh].
Defined.

Lemma block_handed_in_order_witness :
  ∃ c outs c1 r c', ex_client = Some c ∧ client_run Mainnet ex_time (λ _, 0) [EConnect 1] c = Some (outs, c1) ∧
    core_on_block ex_time 1 ex_new c1 = Some (r, c') ∧ ∀ h, state_of c' h = Some Stored ↔ state_of c1 h = Some Stored.
Proof.
  destruct ex_client_is as [c E]. exists c.
  assert (∃ outs c1, client_run Mainnet ex_time (λ _, 0) [EConnect 1] c = Some (outs, c1)) as (outs & c1 & Er).
  { set (o := c ← ex_client; client_run Mainnet ex_time (λ _, 0) [EConnect 1] c).
    assert (option_map (λ _, tt) o = Some tt) as Eo by (vm_compute; reflexivity).
    unfold o in Eo. rewrite E in Eo. cbn [mbind option_bind] in Eo.
    destruct (client_run _ _ _ _ c) as [[outs c1]|]; [by exists outs, c1|discriminate]. }
  destruct (block_handed_in_order Mainnet ex_time (λ _, 0) ex_universe [EConnect 1] 1 ex_new c outs c1 ex_clock
    (ex_started c E) (ex_admissible c E) Er) as (r & c' & Eb & Hs & _).
  exists outs, c1, r, c'. split; [exact E|]. split; [exact Er|]. split; [exact Eb|exact Hs].
Defined.
End example.
