(* ===== verification/Server.v ===== *)
(** * The synchronization server ([sync/src/synchronization_server.rs])

    Requests of peers wait in one queue per peer; a worker takes one task of each
    peer in turn.  A request for data is served item by item, going back to the
    front of its peer's queue in between.  What the server does is a list of
    tasks for the executor and of peers that misbehave. *)

From S2P Require Import Prelude External Primitives Serialization Compact Crypto Chain.
From S2P Require Import Storage Network Kv KvRefine BlockChainDb ChainInv ChainOps.
From S2P Require Import Message MessageTypes SpeedMeter Collections PeersTasks OrphanPool Peers SyncChain ClientCore.
From stdpp Require Import gmap.
#[local] Open Scope Z_scope.

(** ** Tasks and their queue *)

(** src: sync/src/synchronization_server.rs 14-25 ServerTask *)
Inductive ServerTask :=
| SGetData (peer : PeerIndex) (m : GetData)
| SReversedGetData (peer : PeerIndex) (m : GetData) (notfound : NotFound)
| SGetBlocks (peer : PeerIndex) (m : GetBlocks)
| SGetHeaders (peer : PeerIndex) (m : GetHeaders) (id : RequestId)
| SMempool (peer : PeerIndex).

(** src: sync/src/synchronization_server.rs 74-82 peer_index *)
Definition task_peer (t : ServerTask) : PeerIndex :=
  match t with
  | SGetData peer _ | SReversedGetData peer _ _ | SGetBlocks peer _ | SGetHeaders peer _ _ | SMempool peer => peer
  end.

(** src: sync/src/synchronization_server.rs 43-48 ServerQueue *)
Record ServerQueue := mkServerQueue {
  sq_is_stopping : bool;
  sq_peers_queue : list PeerIndex;
  sq_tasks_queue : gmap PeerIndex (list ServerTask);
}.

(** src: sync/src/synchronization_server.rs 139-146 new *)
Definition server_queue_new : ServerQueue := mkServerQueue false [] ∅.

(** The first peer's first task; the peer goes to the end of the queue, or
    leaves it with its last task. *)
(** src: sync/src/synchronization_server.rs 148-168 next_task *)
Definition next_task (q : ServerQueue) : option (option ServerTask * ServerQueue) :=
  match sq_peers_queue q with
  | [] => Some (None, q)
  | peer :: peers =>
      tasks ← sq_tasks_queue q !! peer;
      match tasks with
      | [] => None
      | task :: rest =>
          Some (Some task,
            if decide (rest = [])
            then mkServerQueue (sq_is_stopping q) peers (delete peer (sq_tasks_queue q))
            else mkServerQueue (sq_is_stopping q) (peers ++ [peer]) (<[peer := rest]> (sq_tasks_queue q)))
      end
  end.

(** An entry of the map that is there, or a new one. *)
(** src: sync/src/synchronization_server.rs 170-208 entry *)
Definition add_to_queue (add : ServerTask → list ServerTask → list ServerTask) (task : ServerTask)
    (q : ServerQueue) : ServerQueue :=
  let peer := task_peer task in
  match sq_tasks_queue q !! peer with
  | Some tasks =>
      mkServerQueue (sq_is_stopping q)
        (if decide (tasks = []) then sq_peers_queue q ++ [peer] else sq_peers_queue q)
        (<[peer := add task tasks]> (sq_tasks_queue q))
  | None => mkServerQueue (sq_is_stopping q) (sq_peers_queue q ++ [peer]) (<[peer := [task]]> (sq_tasks_queue q))
  end.

(** src: sync/src/synchronization_server.rs 170-188 add_task *)
Definition add_task (task : ServerTask) (q : ServerQueue) : ServerQueue :=
  add_to_queue (λ task tasks, tasks ++ [task]) task q.

(** src: sync/src/synchronization_server.rs 190-208 add_task_front *)
Definition add_task_front (task : ServerTask) (q : ServerQueue) : ServerQueue := add_to_queue cons task q.

(** src: sync/src/synchronization_server.rs 210-216 remove_peer_tasks *)
Definition remove_peer_tasks (peer : PeerIndex) (q : ServerQueue) : option ServerQueue :=
  match sq_tasks_queue q !! peer with
  | None => Some q
  | Some _ =>
      '(position, _) ← list_find (λ p, p = peer) (sq_peers_queue q);
      Some (mkServerQueue (sq_is_stopping q) (delete position (sq_peers_queue q)) (delete peer (sq_tasks_queue q)))
  end.

Section server.
Context {V : VrfOps} {P : Profile}.
Context {T : Type} {K : KeyValueDatabase T}.

Inductive ServerEffect :=
| ServerExecute (t : Task)
| ServerMisbehaving (peer : PeerIndex).

(** ** The common block *)

(** From a block of a fork to its ancestor on the main chain. *)
(** src: sync/src/synchronization_server.rs 376-391 block_header *)
Fixpoint fork_ancestor (fuel : nat) (block_hash : H256) : DM T (option Z) :=
  match fuel with
  | O => panic
  | S fuel =>
      header ← db_block_header (RefHash block_hash);
      match header with
      | None => mret None
      | Some header =>
          let previous := previous_header_hash (ih_raw header) in
          number ← block_number previous;
          match number with
          | Some number => mret (Some number)
          | None => fork_ancestor fuel previous
          end
      end
  end.

(** src: sync/src/synchronization_server.rs 368-394 block_number *)
Fixpoint first_common (fuel : nat) (hashes : list H256) : DM T (option Z) :=
  match hashes with
  | [] => mret None
  | hash :: hashes =>
      number ← block_number hash;
      match number with
      | Some number => mret (Some number)
      | None =>
          ancestor ← fork_ancestor fuel hash;
          match ancestor with
          | Some number => mret (Some number)
          | None => first_common fuel hashes
          end
      end
  end.

(** The loop through a fork has no bound of its own. *)
(** src: sync/src/synchronization_server.rs 367-395 locate_best_common_block *)
Definition locate_best_common_block (fuel : nat) (hash_stop : H256) (locator : list H256) : DM T (option Z) :=
  first_common fuel (locator ++ [hash_stop]).

(** ** Serving *)

(** The hashes of the main chain from [number] on, [n] at most, up to
    [hash_stop]. *)
(** src: sync/src/synchronization_server.rs 303-310 block_hash *)
Fixpoint hashes_from (n : nat) (number : Z) (hash_stop : H256) : DM T (list H256) :=
  match n with
  | O => mret []
  | S n =>
      hash ← block_hash number;
      match hash with
      | None => mret []
      | Some hash =>
          if decide (hash = hash_stop) then mret []
          else rest ← hashes_from n (number + 1) hash_stop; mret (hash :: rest)
      end
  end.

(** The headers of the same blocks, as long as they are found. *)
(** src: sync/src/synchronization_server.rs 337-347 block_header *)
Fixpoint headers_from (n : nat) (number : Z) (hash_stop : H256) : DM T (list BlockHeader) :=
  match n with
  | O => mret []
  | S n =>
      hash ← block_hash number;
      match hash with
      | None => mret []
      | Some hash =>
          if decide (hash = hash_stop) then mret []
          else
            header ← db_block_header (RefHash hash);
            match header with
            | None => mret []
            | Some header => rest ← headers_from n (number + 1) hash_stop; mret (ih_raw header :: rest)
            end
      end
  end.

(** The range of numbers that is answered for: its first, and how many they are.
    Its ends are computed in 32 bits; a last that has wrapped around below the
    first makes it empty. *)
(** src: sync/src/synchronization_server.rs 337-338 block_height *)
Definition response_range (block_height : Z) (max : nat) : DM T (Z * nat) :=
  first ← lift (u32_add block_height 1);
  last ← lift (u32_add first (Z.of_nat max));
  mret (first, Z.to_nat (last - first)).

(** src: sync/src/synchronization_server.rs 251-265 serve_get_data *)
Definition serve_get_data (peer : PeerIndex) (m : GetData) : option ServerTask :=
  Some (SReversedGetData peer (mkGetData (reverse (gd_inventory m))) (mkNotFound [])).

(** [inventory.pop()] takes the last item. *)
(** src: sync/src/synchronization_server.rs 267-297 serve_reversed_get_data *)
Definition serve_reversed_get_data (peer : PeerIndex) (m : GetData) (notfound : NotFound) :
    DM T (option ServerTask * list ServerEffect) :=
  match list.last (gd_inventory m) with
  | None =>
      mret (None, if decide (nf_inventory notfound = []) then [] else [ServerExecute (TNotFound peer notfound)])
  | Some next_item =>
      let m := mkGetData (take (length (gd_inventory m) - 1) (gd_inventory m)) in
      match inv_type next_item with
      | MessageBlock =>
          block ← db_block (RefHash (inv_hash next_item));
          match block with
          | Some block => mret (Some (SReversedGetData peer m notfound), [ServerExecute (TBlock peer block)])
          | None => mret (Some (SReversedGetData peer m (mkNotFound (nf_inventory notfound ++ [next_item]))), [])
          end
      | InvError => mret (Some (SReversedGetData peer m notfound), [])
      end
  end.

(** src: sync/src/synchronization_server.rs 299-326 serve_get_blocks *)
Definition serve_get_blocks (fuel : nat) (peer : PeerIndex) (m : GetBlocks) : DM T (list ServerEffect) :=
  common ← locate_best_common_block fuel (gb_hash_stop m) (gb_block_locator_hashes m);
  match common with
  | None => mret [ServerMisbehaving peer]
  | Some block_height =>
      '(first, count) ← response_range block_height GETBLOCKS_MAX_RESPONSE_HASHES;
      hashes ← hashes_from count first (gb_hash_stop m);
      mret (if decide (hashes = []) then [] else [ServerExecute (TInventory peer (mkInv (inventory_block <$> hashes)))])
  end.

(** src: sync/src/synchronization_server.rs 328-360 serve_get_headers *)
Definition serve_get_headers (fuel : nat) (peer : PeerIndex) (m : GetHeaders) (id : RequestId) :
    DM T (list ServerEffect) :=
  common ← locate_best_common_block fuel (gh_hash_stop m) (gh_block_locator_hashes m);
  match common with
  | None => mret [ServerMisbehaving peer]
  | Some block_height =>
      '(first, count) ← response_range block_height GETHEADERS_MAX_RESPONSE_HEADERS;
      headers ← headers_from count first (gh_hash_stop m);
      mret [ServerExecute (THeaders peer (mkHeaders headers) (Some id))]
  end.

(** The task that is left, and what was done. *)
(** src: sync/src/synchronization_server.rs 231-249 execute *)
Definition server_execute (fuel : nat) (task : ServerTask) : DM T (option ServerTask * list ServerEffect) :=
  match task with
  | SGetData peer m => mret (serve_get_data peer m, [])
  | SReversedGetData peer m notfound => serve_reversed_get_data peer m notfound
  | SGetBlocks peer m => effects ← serve_get_blocks fuel peer m; mret (None, effects)
  | SGetHeaders peer m id => effects ← serve_get_headers fuel peer m id; mret (None, effects)
  | SMempool peer => mret (None, [])
  end.

(** ** The worker

    The queue is locked to take a task and to put one back, not while a task is
    executed: requests arrive and peers leave in between. *)

Inductive Worker := WorkerIdle | WorkerBusy (task : ServerTask) | WorkerWaiting | WorkerStopped.

(** src: sync/src/synchronization_server.rs 36-40 ServerImpl *)
Record ServerImpl := mkServerImpl { sv_queue : ServerQueue; sv_worker : Worker }.

(** src: sync/src/synchronization_server.rs 86-99 new *)
Definition server_new : ServerImpl := mkServerImpl server_queue_new WorkerIdle.

(** src: sync/src/synchronization_server.rs 64-66 execute *)
Definition server_request (task : ServerTask) (s : ServerImpl) : ServerImpl :=
  mkServerImpl (add_task task (sv_queue s)) (sv_worker s).

(** src: sync/src/synchronization_server.rs 68-70 on_disconnect *)
Definition server_on_disconnect (peer : PeerIndex) (s : ServerImpl) : option ServerImpl :=
  q ← remove_peer_tasks peer (sv_queue s); Some (mkServerImpl q (sv_worker s)).

(** src: sync/src/synchronization_server.rs 129-135 drop *)
Definition server_drop (s : ServerImpl) : ServerImpl :=
  mkServerImpl (mkServerQueue true (sq_peers_queue (sv_queue s)) (sq_tasks_queue (sv_queue s))) (sv_worker s).

(** The task that was taken, or what the worker does without one. *)
(** src: sync/src/synchronization_server.rs 113-119 next_task *)
Definition worker_next (otherwise : Worker) (q : ServerQueue) : option ServerImpl :=
  '(task, q) ← next_task q;
  Some (mkServerImpl q (match task with Some task => WorkerBusy task | None => otherwise end)).

(** Without a task the worker waits for one. *)
(** src: sync/src/synchronization_server.rs 107-114 server_worker *)
Definition worker_take (s : ServerImpl) : option ServerImpl :=
  if sq_is_stopping (sv_queue s) then Some (mkServerImpl (sv_queue s) WorkerStopped)
  else worker_next WorkerWaiting (sv_queue s).

(** A worker that is woken looks once more, without another look at
    [is_stopping]. *)
(** src: sync/src/synchronization_server.rs 113-116 next_task *)
Definition worker_woken (s : ServerImpl) : option ServerImpl := worker_next WorkerIdle (sv_queue s).

(** src: sync/src/synchronization_server.rs 119-123 executor.execute *)
Definition worker_execute (fuel : nat) (task : ServerTask) (s : ServerImpl) : DM T (ServerImpl * list ServerEffect) :=
  '(again, effects) ← server_execute fuel task;
  mret (mkServerImpl (match again with Some task => add_task_front task (sv_queue s) | None => sv_queue s end) WorkerIdle,
    effects).

(** src: sync/src/synchronization_server.rs 101-125 server_worker *)
Definition server_worker (fuel : nat) (s : ServerImpl) : DM T (ServerImpl * list ServerEffect) :=
  match sv_worker s with
  | WorkerIdle => s ← lift (worker_take s); mret (s, [])
  | WorkerBusy task => worker_execute fuel task s
  | WorkerWaiting => s ← lift (worker_woken s); mret (s, [])
  | WorkerStopped => mret (s, [])
  end.

(** What happens to the server. *)
Inductive ServerEvent := Asked (task : ServerTask) | PeerGone (peer : PeerIndex) | WorkerRuns.

Definition server_step (fuel : nat) (e : ServerEvent) (s : ServerImpl) : DM T (ServerImpl * list ServerEffect) :=
  match e with
  | Asked task => mret (server_request task s, [])
  | PeerGone peer => s ← lift (server_on_disconnect peer s); mret (s, [])
  | WorkerRuns => server_worker fuel s
  end.

Fixpoint server_run (fuel : nat) (es : list ServerEvent) (s : ServerImpl) : DM T (ServerImpl * list ServerEffect) :=
  match es with
  | [] => mret (s, [])
  | e :: es =>
      '(s, effects) ← server_step fuel e s;
      '(s, rest) ← server_run fuel es s;
      mret (s, effects ++ rest)
  end.
End server.
