(* ===== verification/ServerSafe.v ===== *)
(** * What the synchronization server answers

    The queue of tasks, what is read from the store, and the answers each peer
    gets. *)

From S2P Require Import Prelude External Primitives Serialization Compact Crypto Chain.
From S2P Require Import Storage Network Kv KvRefine BlockChainDb ChainInv ChainOps.
From S2P Require Import Message MessageTypes SpeedMeter Collections PeersTasks OrphanPool Peers.
From S2P Require Import HashQueue HeadersChain SyncChain SyncOps Locator ClientCore Server.
From stdpp Require Import gmap.
#[local] Open Scope Z_scope.

(** ** The queue *)

Definition tasks_of (q : ServerQueue) (p : PeerIndex) : list ServerTask := default [] (sq_tasks_queue q !! p).

(** Every peer with tasks waits once for its turn. *)
Record queue_ok (q : ServerQueue) : Prop := {
  qk_nodup : NoDup (sq_peers_queue q);
  qk_peers p : p ∈ sq_peers_queue q ↔ is_Some (sq_tasks_queue q !! p);
  qk_tasks p l : sq_tasks_queue q !! p = Some l → l ≠ [] ∧ ∀ t, t ∈ l → task_peer t = p;
}.

Lemma queue_ok_new : queue_ok server_queue_new.
Proof.
  split; cbn; [apply NoDup_nil_2| |by intros p l]. intros p. rewrite lookup_empty, is_Some_alt.
  split; [by intros []%not_elem_of_nil|done].
Qed.

Lemma waiting_iff q p : queue_ok q → p ∈ sq_peers_queue q ↔ tasks_of q p ≠ [].
Proof.
  intros Hq. rewrite (qk_peers _ Hq). unfold tasks_of. destruct (sq_tasks_queue q !! p) as [l|] eqn:E; cbn; [|by split; [intros []|]].
  split; [intros _|by eexists]. by apply (qk_tasks _ Hq p).
Qed.

(** A queue in which the tasks of one peer are replaced. *)
Lemma queue_ok_replace q p l peers : queue_ok q → NoDup peers → l ≠ [] → (∀ t, t ∈ l → task_peer t = p) →
  (∀ p', p' ∈ peers ↔ p' = p ∨ p' ∈ sq_peers_queue q) →
  queue_ok (mkServerQueue (sq_is_stopping q) peers (<[p := l]> (sq_tasks_queue q))).
Proof.
  intros Hq Hnd Hl Hp Hin. split; cbn; [done| |].
  - intros p'. rewrite Hin, (qk_peers _ Hq). destruct (decide (p' = p)) as [->|Hne].
    + rewrite lookup_insert_eq. split; [by eexists|by left].
    + rewrite lookup_insert_ne by done. naive_solver.
  - intros p' l'. rewrite lookup_insert_Some. intros [[<- <-]|[_ E]]; [done|]. by apply (qk_tasks _ Hq).
Qed.

Lemma next_task_ok q p peers : queue_ok q → sq_peers_queue q = p :: peers →
  ∃ t rest q', tasks_of q p = t :: rest ∧ task_peer t = p ∧ next_task q = Some (Some t, q') ∧ queue_ok q' ∧
    sq_is_stopping q' = sq_is_stopping q ∧
    sq_peers_queue q' = peers ++ (if decide (rest = []) then [] else [p]) ∧
    ∀ p', tasks_of q' p' = if decide (p' = p) then rest else tasks_of q p'.
Proof.
  intros Hq Epeers. pose proof Hq as [Hnd Hpeers Htasks]. rewrite Epeers in Hnd. apply list.NoDup_cons in Hnd as [Hp Hnd].
  assert (is_Some (sq_tasks_queue q !! p)) as [l El] by (apply Hpeers; rewrite Epeers; left).
  destruct (Htasks p l El) as [Hl Hpl]. destruct l as [|t rest]; [done|].
  unfold next_task, tasks_of. rewrite Epeers, El. cbn [mbind option_bind default from_option].
  exists t, rest. case_decide as Hr.
  - eexists. split; [done|]. split; [apply Hpl; left|]. split; [reflexivity|]. cbn. rewrite app_nil_r. split_and!; try done.
    + split; cbn; [done| |].
      * intros p'. specialize (Hpeers p'). rewrite Epeers, elem_of_cons in Hpeers. destruct (decide (p' = p)) as [->|Hne].
        -- rewrite lookup_delete_eq. split; [done|]. by intros [].
        -- rewrite lookup_delete_ne by done. rewrite <-Hpeers. naive_solver.
      * intros p' l'. rewrite lookup_delete_Some. intros [_ E]. by apply Htasks.
    + intros p'. case_decide as Hp'; [subst; by rewrite lookup_delete_eq|]. by rewrite lookup_delete_ne.
  - eexists. split; [done|]. split; [apply Hpl; left|]. split; [reflexivity|]. cbn. split_and!; try done.
    + apply (queue_ok_replace q p rest (peers ++ [p])); [done| |done|intros t' Ht; apply Hpl; by right|].
      * apply list.NoDup_app. split_and!; [done| |apply list.NoDup_singleton]. intros x Hx ->%list_elem_of_singleton. done.
      * intros p'. rewrite elem_of_app, list_elem_of_singleton, Epeers, elem_of_cons. naive_solver.
    + intros p'. case_decide as Hp'; [subst; by rewrite lookup_insert_eq|]. by rewrite lookup_insert_ne.
Qed.

Lemma add_to_queue_ok add t q : queue_ok q → (∀ l, add t l ≠ []) → (∀ l x, x ∈ add t l → x = t ∨ x ∈ l) → add t [] = [t] →
  queue_ok (add_to_queue add t q) ∧ sq_is_stopping (add_to_queue add t q) = sq_is_stopping q ∧
  sq_peers_queue (add_to_queue add t q) = (if decide (tasks_of q (task_peer t) = []) then sq_peers_queue q ++ [task_peer t] else sq_peers_queue q) ∧
  ∀ p, tasks_of (add_to_queue add t q) p = if decide (p = task_peer t) then add t (tasks_of q p) else tasks_of q p.
Proof.
  intros Hq Hne Hin Hnil. unfold add_to_queue, tasks_of. destruct (sq_tasks_queue q !! task_peer t) as [l|] eqn:E; cbn.
  - destruct (qk_tasks _ Hq _ _ E) as [Hl Hp]. rewrite (decide_False (P:=l = [])) by done. split_and!; try done.
    + apply queue_ok_replace; [done|apply Hq|done| |].
      * intros x [->|Hx]%Hin; [done|by apply Hp].
      * intros p'. split; [by right|]. intros [->|?]; [|done]. by apply (qk_peers _ Hq).
    + intros p. case_decide as Hpp; [subst; rewrite lookup_insert_eq; by rewrite E|]. by rewrite lookup_insert_ne.
  - split_and!; try done.
    + apply queue_ok_replace; [done| |done|by intros x ->%list_elem_of_singleton|].
      * apply list.NoDup_app. split_and!; [apply Hq| |apply list.NoDup_singleton]. intros x Hx ->%list_elem_of_singleton.
        apply (qk_peers _ Hq) in Hx as [? Hx]. by rewrite E in Hx.
      * intros p'. rewrite elem_of_app, list_elem_of_singleton. tauto.
    + intros p. case_decide as Hpp; [subst; rewrite lookup_insert_eq, E; cbn; by rewrite Hnil|]. by rewrite lookup_insert_ne.
Qed.

Lemma filter_ne_self (p : PeerIndex) l : filter (λ x, x ≠ p) (p :: l) = filter (λ x, x ≠ p) l.
Proof. rewrite filter_cons, decide_False; [done|]. intros Hx. by apply Hx. Qed.

Lemma remove_peer_ok p q : queue_ok q → ∃ q', remove_peer_tasks p q = Some q' ∧ queue_ok q' ∧
  sq_is_stopping q' = sq_is_stopping q ∧ (∀ p', tasks_of q' p' = if decide (p' = p) then [] else tasks_of q p') ∧
  filter (λ x, x ≠ p) (sq_peers_queue q') = filter (λ x, x ≠ p) (sq_peers_queue q).
Proof.
  intros Hq. unfold remove_peer_tasks, tasks_of. destruct (sq_tasks_queue q !! p) as [l|] eqn:E.
  2:{ exists q. split_and!; try done. intros p'. case_decide; [subst; by rewrite E|done]. }
  assert (p ∈ sq_peers_queue q) as Hin by (apply (qk_peers _ Hq); by exists l).
  destruct (list_find (λ x, x = p) (sq_peers_queue q)) as [[i x]|] eqn:Hf.
  2:{ apply list_find_None in Hf. rewrite list.Forall_forall in Hf. by destruct (Hf p Hin). }
  apply list_find_Some in Hf as (Hi & -> & _). cbn [mbind option_bind]. eexists. split; [reflexivity|].
  pose proof (delete_Permutation _ _ _ Hi) as Hperm. pose proof (qk_nodup _ Hq) as Hnd. rewrite Hperm in Hnd.
  apply list.NoDup_cons in Hnd as [Hp Hnd]. split_and!; [|done| |].
  - split; cbn; [done| |].
    + intros p'. pose proof (qk_peers _ Hq p') as Hiff. rewrite Hperm, elem_of_cons in Hiff. destruct (decide (p' = p)) as [->|Hne].
      * rewrite lookup_delete_eq. split; [done|by intros []].
      * rewrite lookup_delete_ne by done. rewrite <-Hiff. naive_solver.
    + intros p' l'. rewrite lookup_delete_Some. intros [_ E']. by apply (qk_tasks _ Hq).
  - intros p'. cbn. case_decide; [subst; by rewrite lookup_delete_eq|]. by rewrite lookup_delete_ne.
  - cbn. rewrite <-(take_drop_middle _ _ _ Hi) at 2. by rewrite delete_take_drop, !filter_app, filter_ne_self.
Qed.

Section server_safe.
Context {V : VrfOps} {R : RugOps} {P : Profile}.
Context {T : Type} {K : KeyValueDatabase T} {KS : KvSpec T}.

(** ** Reading *)

(** A computation that only reads, with its result. *)
Definition answers {A} (s : BlockChainDatabase T) (m : DM T A) (a : A) : Prop :=
  ∃ s', m s = Some (a, s') ∧ unchanged s s'.

Lemma answers_ret {A} s (a : A) : db_valid s → answers s (mret a) a.
Proof. intros Hv. by exists s. Qed.

Lemma answers_run {A B} s s1 (m : DM T A) (k : A → DM T B) a b :
  m s = Some (a, s1) → unchanged s s1 → answers s1 (k a) b → answers s (m ≫= k) b.
Proof.
  intros E1 H1 (s2 & E2 & H2). exists s2. unfold mbind, DM_bind. rewrite E1. split; [done|]. by eapply unchanged_trans.
Qed.

Lemma answers_bind {A B} s (m : DM T A) (k : A → DM T B) a b :
  answers s m a → (∀ s', unchanged s s' → answers s' (k a) b) → answers s (m ≫= k) b.
Proof.
  intros (s1 & E1 & H1) Hk. eapply answers_run; [exact E1|done|by apply Hk].
Qed.

Lemma answers_reads {A} s (m : DM T A) f a : reads m f → db_valid s → f (db_view s) (bc_best_block s) = Some a → answers s m a.
Proof. intros Hm Hv E. specialize (Hm s Hv). by rewrite E in Hm. Qed.

(** A store with the view [v], on which the chain is [hs]. *)
Definition shows (v : View) (hs : list H256) (s : BlockChainDatabase T) : Prop := state_inv s hs ∧ db_view s = v.

Lemma shows_unchanged v hs s s' : shows v hs s → unchanged s s' → shows v hs s'.
Proof. intros [Hs Hv] Hu. split; [by eapply unchanged_inv|]. destruct Hu as (_ & _ & ->). done. Qed.

(** ** The specification *)

(** The blocks before [stop]. *)
Fixpoint upto (stop : H256) (l : list H256) : list H256 :=
  match l with
  | [] => []
  | h :: l => if decide (h = stop) then [] else h :: upto stop l
  end.

(** The number on the chain of the first ancestor of [h] that is on it, itself
    included. *)
Fixpoint ancestor (fuel : nat) (v : View) (hs : list H256) (h : H256) : option nat :=
  match list_find (λ x, x = h) hs with
  | Some (i, _) => Some i
  | None =>
      match fuel, v_block v h with
      | S fuel, Some b => ancestor fuel v hs (parent_of b)
      | _, _ => None
      end
  end.

(** Every line of stored ancestors ends within [fuel] blocks. *)
Fixpoint grounded (fuel : nat) (v : View) (h : H256) : Prop :=
  match v_block v h with
  | None => True
  | Some b => match fuel with O => False | S fuel => grounded fuel v (parent_of b) end
  end.

(** The best common block of a peer. *)
Fixpoint common_block (fuel : nat) (v : View) (hs : list H256) (locator : list H256) : option nat :=
  match locator with
  | [] => None
  | h :: locator =>
      match ancestor fuel v hs h with
      | Some i => Some i
      | None => common_block fuel v hs locator
      end
  end.

(** The blocks after the common one. *)
Definition next_blocks (max : nat) (stop : H256) (hs : list H256) (i : nat) : list H256 :=
  upto stop (take max (drop (S i) hs)).

Definition raw_header (v : View) (h : H256) : list BlockHeader :=
  match v_block v h with Some b => [block_header b] | None => [] end.

Fixpoint data_answer (v : View) (peer : PeerIndex) (items : list InventoryVector) (missing : list InventoryVector) :
    list ServerEffect :=
  match items with
  | [] => if decide (missing = []) then [] else [ServerExecute (TNotFound peer (mkNotFound missing))]
  | item :: items =>
      match inv_type item with
      | MessageBlock =>
          match v_full v (RefHash (inv_hash item)) with
          | Some block => ServerExecute (TBlock peer block) :: data_answer v peer items missing
          | None => data_answer v peer items (missing ++ [item])
          end
      | InvError => data_answer v peer items missing
      end
  end.

(** The whole answer to a request. *)
Definition answer (fuel : nat) (v : View) (hs : list H256) (t : ServerTask) : list ServerEffect :=
  match t with
  | SGetData peer m => data_answer v peer (gd_inventory m) []
  | SReversedGetData peer m notfound => data_answer v peer (reverse (gd_inventory m)) (nf_inventory notfound)
  | SGetBlocks peer m =>
      match common_block fuel v hs (gb_block_locator_hashes m ++ [gb_hash_stop m]) with
      | None => [ServerMisbehaving peer]
      | Some i =>
          let hashes := next_blocks GETBLOCKS_MAX_RESPONSE_HASHES (gb_hash_stop m) hs i in
          if decide (hashes = []) then [] else [ServerExecute (TInventory peer (mkInv (inventory_block <$> hashes)))]
      end
  | SGetHeaders peer m id =>
      match common_block fuel v hs (gh_block_locator_hashes m ++ [gh_hash_stop m]) with
      | None => [ServerMisbehaving peer]
      | Some i =>
          let hashes := next_blocks GETHEADERS_MAX_RESPONSE_HEADERS (gh_hash_stop m) hs i in
          [ServerExecute (THeaders peer (mkHeaders (hashes ≫= raw_header v)) (Some id))]
      end
  | SMempool _ => []
  end.

(** The executions a request takes. *)
Definition work (t : ServerTask) : nat :=
  match t with
  | SGetData _ m => 2 + length (gd_inventory m)
  | SReversedGetData _ m _ => 1 + length (gd_inventory m)
  | _ => 1
  end.

(** ** Reading the chain *)

Lemma list_find_member (h : H256) hs i x : list_find (λ x, x = h) hs = Some (i, x) → hs !! i = Some h.
Proof. intros (Hi & -> & _)%list_find_Some. done. Qed.

Lemma list_find_absent (h : H256) hs : list_find (λ x, x = h) hs = None → h ∉ hs.
Proof. rewrite list_find_None, list.Forall_forall. intros H Hin. by apply (H h). Qed.

Lemma reads_number v hs s h : shows v hs s → answers s (block_number h) (Z.of_nat ∘ fst <$> list_find (λ x, x = h) hs).
Proof.
  intros [[Hv Hi] _]. eapply answers_reads; [apply reads_block_number|done|]. cbv beta. f_equal.
  destruct (list_find (λ x, x = h) hs) as [[i x]|] eqn:E; cbn [fmap option_fmap option_map].
  - apply (ci_number_nat _ _ _ _ _ Hi). by eapply list_find_member.
  - apply (ci_not_member _ _ _ _ Hi). by apply list_find_absent.
Qed.

Lemma reads_hash v hs s i : shows v hs s → answers s (block_hash (Z.of_nat i)) (hs !! i).
Proof.
  intros [[Hv Hi] _]. eapply answers_reads; [apply reads_block_hash|done|]. cbv beta. f_equal. apply (ci_hash_nat _ _ _ _ Hi).
Qed.

Lemma v_header_none v h : v_block v h = None → v_header v (RefHash h) = None.
Proof. unfold v_block, v_header, v_stored. cbn. destruct (v (KeyBlock h)); [|done]. cbn. by intros ->. Qed.

Lemma reads_header v hs s h : shows v hs s →
  answers s (db_block_header (RefHash h)) ((λ b, mkIndexedBlockHeader h (block_header b)) <$> v_block v h).
Proof.
  intros [[Hv Hi] <-]. eapply answers_reads; [apply reads_db_block_header|done|]. cbv beta. f_equal.
  destruct (v_block (db_view s) h) as [b|] eqn:E; [by apply v_header_hash|by apply v_header_none].
Qed.

(** The next reading of a computation on a store. *)
Ltac next_read lem s' Hs' :=
  eapply answers_bind; [by apply lem|]; intros s' Hs'; eapply shows_unchanged in Hs'; [|eassumption]; cbv beta.

Lemma fork_ancestor_spec fuel v hs s h : shows v hs s → h ∉ hs → grounded fuel v h →
  answers s (fork_ancestor (S fuel) h) (Z.of_nat <$> ancestor fuel v hs h).
Proof.
  revert s h. induction fuel as [|fuel IH]; intros s h Hs Hh Hg.
  all: assert (list_find (λ x, x = h) hs = None) as Ef by (apply list_find_None, list.Forall_forall; by intros x Hx ->).
  - cbn [grounded] in Hg. destruct (v_block v h) eqn:E; [done|]. cbn [fork_ancestor].
    next_read (reads_header v hs) s1 Hs1. rewrite E. cbn. rewrite Ef. apply answers_ret, Hs1.
  - cbn [grounded] in Hg. cbn [ancestor]. rewrite Ef. change (fork_ancestor (S (S fuel)) h) with (header ← db_block_header (RefHash h); match header with None => mret None | Some header => number ← block_number (previous_header_hash (ih_raw header)); match number with Some number => mret (Some number) | None => fork_ancestor (S fuel) (previous_header_hash (ih_raw header)) end end : DM T (option Z)).
    next_read (reads_header v hs) s1 Hs1. destruct (v_block v h) as [b|] eqn:E; cbn [fmap option_fmap option_map].
    2:{ apply answers_ret, Hs1. }
    cbn [ih_raw]. change (previous_header_hash (block_header b)) with (parent_of b).
    next_read (reads_number v hs) s2 Hs2. destruct (list_find (λ x, x = parent_of b) hs) as [[i x]|] eqn:Ep; cbn.
    + destruct fuel; cbn; rewrite Ep; apply answers_ret, Hs2.
    + apply IH; [done| |done]. by apply list_find_absent.
Qed.

Lemma ancestor_member fuel v hs h i x : list_find (λ x, x = h) hs = Some (i, x) → ancestor fuel v hs h = Some i.
Proof. intros E. destruct fuel; cbn; by rewrite E. Qed.

Lemma locate_spec fuel v hs s stop locator : shows v hs s → (∀ h, grounded fuel v h) →
  answers s (locate_best_common_block (S fuel) stop locator) (Z.of_nat <$> common_block fuel v hs (locator ++ [stop])).
Proof.
  intros Hs Hg. unfold locate_best_common_block. generalize (locator ++ [stop]) as l. intros l. revert s Hs.
  induction l as [|h l IH]; intros s Hs; cbn [first_common common_block]; [apply answers_ret, Hs|].
  next_read (reads_number v hs) s1 Hs1. destruct (list_find (λ x, x = h) hs) as [[i x]|] eqn:E; cbn [fmap option_fmap option_map].
  - rewrite (ancestor_member _ _ _ _ _ _ E). apply answers_ret, Hs1.
  - eapply answers_bind; [apply fork_ancestor_spec; [done|by apply list_find_absent|done]|]. intros s2 Hs2.
    eapply shows_unchanged in Hs2; [|done]. destruct (ancestor fuel v hs h); cbn [fmap option_fmap option_map]; [apply answers_ret, Hs2|by apply IH].
Qed.

Lemma hashes_from_spec n v hs s i stop : shows v hs s →
  answers s (hashes_from n (Z.of_nat i) stop) (upto stop (take n (drop i hs))).
Proof.
  revert s i. induction n as [|n IH]; intros s i Hs; cbn [hashes_from]; [apply answers_ret, Hs|].
  next_read (reads_hash v hs) s1 Hs1. destruct (hs !! i) as [h|] eqn:E.
  2:{ apply lookup_ge_None in E. rewrite drop_ge by lia. apply answers_ret, Hs1. }
  rewrite (drop_S _ _ _ E). cbn [take upto]. case_decide; [apply answers_ret, Hs1|].
  replace (Z.of_nat i + 1) with (Z.of_nat (S i)) by lia.
  next_read IH s2 Hs2. apply answers_ret, Hs2.
Qed.

Lemma headers_from_spec n v hs s i stop : shows v hs s →
  answers s (headers_from n (Z.of_nat i) stop) (upto stop (take n (drop i hs)) ≫= raw_header v).
Proof.
  revert s i. induction n as [|n IH]; intros s i Hs; cbn [headers_from]; [apply answers_ret, Hs|].
  next_read (reads_hash v hs) s1 Hs1. destruct (hs !! i) as [h|] eqn:E.
  2:{ apply lookup_ge_None in E. rewrite drop_ge by lia. apply answers_ret, Hs1. }
  rewrite (drop_S _ _ _ E). cbn [take upto]. case_decide; [apply answers_ret, Hs1|].
  next_read (reads_header v hs) s2 Hs2.
  destruct (ci_link _ _ _ (proj2 (proj1 Hs)) _ _ E) as (b & Hb & _). rewrite (proj2 Hs) in Hb. rewrite Hb. cbn [fmap option_fmap option_map].
  replace (Z.of_nat i + 1) with (Z.of_nat (S i)) by lia.
  next_read IH s3 Hs3. rewrite bind_cons. unfold raw_header at 2. rewrite Hb. apply answers_ret, Hs3.
Qed.

Lemma range_spec v hs s i max : shows v hs s → Z.of_nat (i + 1 + max) < 2 ^ 32 → answers s (response_range (Z.of_nat i) max) (Z.of_nat (S i), max).
Proof.
  intros Hs Hfit. unfold response_range. rewrite u32_add_fits by (unfold fits; lia).
  eapply answers_bind; [eapply answers_reads; [apply reads_lift|apply Hs|done]|]. intros s1 Hs1. cbv beta.
  rewrite u32_add_fits by (unfold fits; lia).
  eapply answers_bind; [eapply answers_reads; [apply reads_lift|apply Hs1|done]|]. intros s2 Hs2. cbv beta.
  replace (Z.to_nat _) with max by lia. replace (Z.of_nat i + 1) with (Z.of_nat (S i)) by lia. apply answers_ret, Hs2.
Qed.

Lemma common_lt fuel v hs l i : common_block fuel v hs l = Some i → (i < length hs)%nat.
Proof.
  assert (∀ h, ancestor fuel v hs h = Some i → (i < length hs)%nat) as Ha.
  { induction fuel as [|fuel IH]; intros h; cbn; destruct (list_find _ hs) as [[j x]|] eqn:E.
    1,3: intros [= <-]; by eapply lookup_lt_Some, list_find_member.
    - done.
    - destruct (v_block v h); [apply IH|done]. }
  induction l as [|h l IH]; cbn; [done|]. destruct (ancestor fuel v hs h) eqn:E; [|done]. intros [= <-]. by eapply Ha.
Qed.

(** ** The load of a queue *)

Abbreviation works l := (sum_list_with work l).

Definition queue_load (q : ServerQueue) : nat := sum_list_with (λ p, works (tasks_of q p)) (sq_peers_queue q).

Lemma sum_with_ext {A} (f g : A → nat) l : (∀ x, x ∈ l → f x = g x) → sum_list_with f l = sum_list_with g l.
Proof. induction l as [|x l IH]; intros H; cbn; [done|]. rewrite (H x), IH; [done|set_solver..]. Qed.

Lemma sum_with_split (f : PeerIndex → nat) l p : NoDup l → (p ∉ l → f p = 0%nat) →
  sum_list_with f l = (f p + sum_list_with f (filter (λ x, x ≠ p) l))%nat.
Proof.
  induction l as [|x l IH]; intros Hnd H0; [by rewrite H0 by apply not_elem_of_nil|].
  apply list.NoDup_cons in Hnd as [Hx Hnd]. rewrite filter_cons. case_decide as Hne; cbn.
  - rewrite IH by (done || intros Hp; apply H0; set_solver). lia.
  - destruct (decide (x = p)) as [->|]; [|done]. f_equal. f_equal. symmetry. apply filter_all. by intros y Hy ->.
Qed.

Lemma load_update q q' p : queue_ok q → queue_ok q' →
  filter (λ x, x ≠ p) (sq_peers_queue q') = filter (λ x, x ≠ p) (sq_peers_queue q) →
  (∀ p', p' ≠ p → tasks_of q' p' = tasks_of q p') →
  (queue_load q' + works (tasks_of q p) = queue_load q + works (tasks_of q' p))%nat.
Proof.
  assert (∀ q, queue_ok q → queue_load q = (works (tasks_of q p) + sum_list_with (λ p, works (tasks_of q p)) (filter (λ x, x ≠ p) (sq_peers_queue q)))%nat) as Hl.
  { intros q0 Hq0. apply (sum_with_split (λ p, works (tasks_of q0 p))); [apply Hq0|]. intros Hp. destruct (tasks_of q0 p) eqn:E; [done|].
    destruct Hp. apply (waiting_iff _ _ Hq0). by rewrite E. }
  intros Hq Hq' Epeers Etasks. rewrite (Hl q Hq), (Hl q' Hq'), Epeers.
  rewrite (sum_with_ext (λ p, works (tasks_of q' p)) (λ p, works (tasks_of q p)) (filter _ _)); [lia|].
  intros x [Hx _]%list_elem_of_filter. by rewrite Etasks.
Qed.

Lemma load_next q q' t p peers rest : queue_ok q → queue_ok q' → sq_peers_queue q = p :: peers → tasks_of q p = t :: rest →
  sq_peers_queue q' = peers ++ (if decide (rest = []) then [] else [p]) →
  (∀ p', tasks_of q' p' = if decide (p' = p) then rest else tasks_of q p') → (queue_load q = work t + queue_load q')%nat.
Proof.
  intros Hq Hq' Epeers Et Epeers' Etasks. pose proof (load_update q q' p Hq Hq') as H.
  rewrite (Etasks p), decide_True, Et in H by done. cbn in H. enough (queue_load q' + (work t + works rest) = queue_load q + works rest)%nat by lia.
  apply H.
  - rewrite Epeers, Epeers', filter_app, filter_ne_self. case_decide; [apply app_nil_r|]. rewrite filter_ne_self. apply app_nil_r.
  - intros p' Hp'. by rewrite Etasks, decide_False.
Qed.

Lemma load_add add t q : queue_ok q → (∀ l, add t l ≠ []) → (∀ l x, x ∈ add t l → x = t ∨ x ∈ l) → add t [] = [t] →
  (∀ l, works (add t l) = work t + works l)%nat → (queue_load (add_to_queue add t q) = work t + queue_load q)%nat.
Proof.
  intros Hq Hne Hin Hnil Hw. destruct (add_to_queue_ok add t q Hq Hne Hin Hnil) as (Hq' & _ & Epeers & Etasks).
  pose proof (load_update q _ (task_peer t) Hq Hq') as H. rewrite (Etasks (task_peer t)), decide_True, Hw in H by done.
  enough (queue_load (add_to_queue add t q) + works (tasks_of q (task_peer t)) = queue_load q + (work t + works (tasks_of q (task_peer t))))%nat by lia.
  apply H.
  - rewrite Epeers. case_decide; [|done]. rewrite filter_app, filter_ne_self. apply app_nil_r.
  - intros p' Hp'. by rewrite Etasks, decide_False.
Qed.

Lemma add_front_ok t q : queue_ok q →
  queue_ok (add_task_front t q) ∧ sq_is_stopping (add_task_front t q) = sq_is_stopping q ∧
  (queue_load (add_task_front t q) = work t + queue_load q)%nat ∧
  ∀ p, tasks_of (add_task_front t q) p = if decide (p = task_peer t) then t :: tasks_of q p else tasks_of q p.
Proof.
  intros Hq. unfold add_task_front.
  assert (∀ l x, x ∈ t :: l → x = t ∨ x ∈ l) as Hin by (intros l x; by rewrite elem_of_cons).
  destruct (add_to_queue_ok cons t q Hq) as (? & ? & _ & ?); [done..|]. split_and!; try done. by apply load_add.
Qed.

Lemma add_back_ok t q : queue_ok q →
  queue_ok (add_task t q) ∧ sq_is_stopping (add_task t q) = sq_is_stopping q ∧ (queue_load (add_task t q) = work t + queue_load q)%nat ∧
  ∀ p, tasks_of (add_task t q) p = if decide (p = task_peer t) then tasks_of q p ++ [t] else tasks_of q p.
Proof.
  intros Hq. unfold add_task.
  assert (∀ l x, x ∈ l ++ [t] → x = t ∨ x ∈ l) as Hin by (intros l x; rewrite elem_of_app, list_elem_of_singleton; tauto).
  assert (∀ l, l ++ [t] ≠ []) as Hne by (by intros []).
  assert (∀ l, works (l ++ [t]) = work t + works l)%nat as Hw by (intros l; rewrite sum_list_with_app; cbn; lia).
  destruct (add_to_queue_ok (λ t l, l ++ [t]) t q Hq) as (? & ? & _ & ?); [done..|]. split_and!; try done. by apply load_add.
Qed.

(** ** The tasks *)

Section on_store.
Context (fuel : nat) (v : View) (hs : list H256).
Context (Hground : ∀ h, grounded fuel v h) (Hfit : Z.of_nat (length hs + GETHEADERS_MAX_RESPONSE_HEADERS) < 2 ^ 32).

Definition answer_left (o : option ServerTask) : list ServerEffect := from_option (answer fuel v hs) [] o.
Definition work_left (o : option ServerTask) : nat := from_option work 0%nat o.

Lemma serve_reversed_spec s peer m nf : shows v hs s →
  ∃ again effs, answers s (serve_reversed_get_data peer m nf) (again, effs) ∧
    effs ++ answer_left again = answer fuel v hs (SReversedGetData peer m nf) ∧
    (work_left again < work (SReversedGetData peer m nf))%nat ∧ ∀ t, again = Some t → task_peer t = peer.
Proof.
  intros Hs. unfold serve_reversed_get_data. destruct m as [items], nf as [missing]. cbn [gd_inventory nf_inventory answer].
  destruct items as [|item items _] using rev_ind.
  - eexists _, _. split; [apply answers_ret, Hs|]. cbn. rewrite app_nil_r. split_and!; [done|lia|done].
  - rewrite last_snoc, reverse_snoc. rewrite length_app, Nat.add_sub, take_app_length. cbn [data_answer].
    destruct (inv_type item).
    + eexists _, _. split; [apply answers_ret, Hs|]. cbn. rewrite length_app. cbn. split_and!; [done|lia|by intros t [= <-]].
    + destruct (v_full v (RefHash (inv_hash item))) as [b|] eqn:E.
      all: eexists _, _; split; [eapply answers_bind; [eapply answers_reads; [apply reads_db_block|apply Hs|done]|]|].
      1,3: intros s1 Hs1; rewrite (proj2 Hs), E; apply answers_ret, Hs1.
      all: cbn; rewrite length_app; cbn; split_and!; [done|lia|by intros t [= <-]].
Qed.

Lemma serve_get_blocks_spec s peer m : shows v hs s →
  answers s (serve_get_blocks (S fuel) peer m) (answer fuel v hs (SGetBlocks peer m)).
Proof.
  intros Hs. unfold serve_get_blocks. next_read (locate_spec fuel v hs) s1 Hs1. cbn [answer].
  destruct (common_block _ _ _ _) as [i|] eqn:E; cbn [fmap option_fmap option_map]; [|apply answers_ret, Hs1].
  apply common_lt in E. unfold GETHEADERS_MAX_RESPONSE_HEADERS in Hfit.
  eapply answers_bind; [apply (range_spec v hs); [done|unfold GETBLOCKS_MAX_RESPONSE_HASHES; lia]|].
  intros s2 Hs2. eapply shows_unchanged in Hs2; [|done].
  next_read (hashes_from_spec GETBLOCKS_MAX_RESPONSE_HASHES v hs) s3 Hs3. apply answers_ret, Hs3.
Qed.

Lemma serve_get_headers_spec s peer m id : shows v hs s →
  answers s (serve_get_headers (S fuel) peer m id) (answer fuel v hs (SGetHeaders peer m id)).
Proof.
  intros Hs. unfold serve_get_headers. next_read (locate_spec fuel v hs) s1 Hs1. cbn [answer].
  destruct (common_block _ _ _ _) as [i|] eqn:E; cbn [fmap option_fmap option_map]; [|apply answers_ret, Hs1].
  apply common_lt in E. eapply answers_bind; [apply (range_spec v hs); [done|lia]|].
  intros s2 Hs2. eapply shows_unchanged in Hs2; [|done].
  next_read (headers_from_spec GETHEADERS_MAX_RESPONSE_HEADERS v hs) s3 Hs3. apply answers_ret, Hs3.
Qed.

Lemma server_execute_spec s t : shows v hs s →
  ∃ again effs, answers s (server_execute (S fuel) t) (again, effs) ∧ effs ++ answer_left again = answer fuel v hs t ∧
    (work_left again < work t)%nat ∧ ∀ t', again = Some t' → task_peer t' = task_peer t.
Proof.
  intros Hs. destruct t as [peer m|peer m nf|peer m|peer m id|peer]; cbn [server_execute].
  - eexists _, _. split; [apply answers_ret, Hs|].
    unfold serve_get_data, answer_left, work_left. cbn [from_option answer work gd_inventory nf_inventory app].
    rewrite reverse_involutive, length_reverse. split_and!; [done|lia|by intros t' [= <-]].
  - by apply serve_reversed_spec.
  - exists None, (answer fuel v hs (SGetBlocks peer m)). split; [|split_and!; [apply app_nil_r|cbn; lia|done]].
    next_read serve_get_blocks_spec s1 Hs1. apply answers_ret, Hs1.
  - exists None, (answer fuel v hs (SGetHeaders peer m id)). split; [|split_and!; [apply app_nil_r|cbn; lia|done]].
    next_read serve_get_headers_spec s1 Hs1. apply answers_ret, Hs1.
  - eexists None, _. split; [apply answers_ret, Hs|]. cbn. split_and!; [done|lia|done].
Qed.

(** ** The worker *)

Definition in_work (s : ServerImpl) : list ServerTask := match sv_worker s with WorkerBusy t => [t] | _ => [] end.

(** The requests of a peer that are not answered in full. *)
Definition open_requests (s : ServerImpl) (p : PeerIndex) : list ServerTask :=
  filter (λ t, task_peer t = p) (in_work s) ++ tasks_of (sv_queue s) p.

Definition open_answers (s : ServerImpl) (p : PeerIndex) : list ServerEffect := open_requests s p ≫= answer fuel v hs.

Definition asked_work (e : ServerEvent) : nat := match e with Asked t => work t | _ => 0 end.

Definition asked_answer (p : PeerIndex) (e : ServerEvent) : list ServerEffect :=
  match e with Asked t => if decide (task_peer t = p) then answer fuel v hs t else [] | _ => [] end.

(** Taking a task is a step as well. *)
Definition rounds (s : ServerImpl) : nat := 2 * queue_load (sv_queue s) + sum_list_with (λ t, 2 * work t - 1)%nat (in_work s).

Definition server_ok (s : ServerImpl) : Prop :=
  queue_ok (sv_queue s) ∧ sq_is_stopping (sv_queue s) = false ∧ sv_worker s ≠ WorkerStopped.

Definition effect_peer (e : ServerEffect) : option PeerIndex :=
  match e with
  | ServerMisbehaving p => Some p
  | ServerExecute t =>
      match t with
      | TIgnore p _ | TGetData p _ | TGetHeaders p _ | TBlock p _ | TNotFound p _ | TInventory p _ | THeaders p _ _ => Some p
      | TRelayNewBlock _ => None
      end
  end.

Definition to_peer (p : PeerIndex) (effs : list ServerEffect) : list ServerEffect := filter (λ e, effect_peer e = Some p) effs.

Lemma to_peer_nil p : to_peer p [] = [].
Proof. done. Qed.

Lemma to_peer_app p l l' : to_peer p (l ++ l') = to_peer p l ++ to_peer p l'.
Proof. apply filter_app. Qed.

Lemma data_answer_peer peer items missing e : e ∈ data_answer v peer items missing → effect_peer e = Some peer.
Proof.
  revert missing. induction items as [|i items IH]; intros missing; cbn [data_answer].
  - case_decide; [by intros ?%not_elem_of_nil|by intros ->%list_elem_of_singleton].
  - destruct (inv_type i); [apply IH|]. destruct (v_full v (RefHash (inv_hash i))); [|apply IH]. intros [->|He]%elem_of_cons; [done|by apply IH in He].
Qed.

Lemma answer_peer t e : e ∈ answer fuel v hs t → effect_peer e = Some (task_peer t).
Proof.
  destruct t as [peer m|peer m nf|peer m|peer m id|peer]; cbn [answer task_peer]; try apply data_answer_peer.
  - destruct (common_block _ _ _ _); [|by intros ->%list_elem_of_singleton]. cbn. case_decide; [by intros ?%not_elem_of_nil|by intros ->%list_elem_of_singleton].
  - destruct (common_block _ _ _ _); by intros ->%list_elem_of_singleton.
  - by intros ?%not_elem_of_nil.
Qed.

Lemma to_peer_answer t effs p : (∀ e, e ∈ effs → effect_peer e = Some (task_peer t)) →
  to_peer p effs = if decide (task_peer t = p) then effs else [].
Proof.
  intros H. case_decide as Hp.
  - apply filter_all. intros e He. rewrite (H e He). by f_equal.
  - apply filter_none. intros e He. rewrite (H e He). by intros [= ?].
Qed.

Lemma bind_single {A B} (f : A → list B) x : [x] ≫= f = f x.
Proof. apply app_nil_r. Qed.

Lemma bind_nothing {A B} (f : A → list B) l : (∀ x, x ∈ l → f x = []) → l ≫= f = [].
Proof. induction l as [|x l IH]; intros H; [done|]. rewrite bind_cons, (H x), IH; [done|set_solver..]. Qed.

(** A worker without a task. *)
Definition resting (w : Worker) : Prop := w = WorkerIdle ∨ w = WorkerWaiting.

Lemma resting_in_work s : resting (sv_worker s) → in_work s = [].
Proof. unfold in_work. by intros [->| ->]. Qed.

Lemma worker_next_spec w s : server_ok s → resting (sv_worker s) → resting w → ∃ s', worker_next w (sv_queue s) = Some s' ∧ server_ok s' ∧
  (rounds s' ≤ rounds s - 1)%nat ∧ ∀ p, open_requests s' p = open_requests s p.
Proof.
  intros (Hq & Hstop & _) Ew Hrest. unfold worker_next, server_ok, rounds, open_requests. rewrite (resting_in_work s Ew).
  destruct (sq_peers_queue (sv_queue s)) as [|p peers] eqn:Ep.
  { exists (mkServerImpl (sv_queue s) w). rewrite (resting_in_work (mkServerImpl _ w) Hrest). unfold next_task, queue_load. cbn. rewrite Ep.
    split_and!; [done..|by destruct Hrest as [->| ->]|done|done]. }
  destruct (next_task_ok _ _ _ Hq Ep) as (t & rest & q' & Et & Hp & -> & Hq' & Hstop' & Epeers & Etasks).
  eexists. split; [reflexivity|]. unfold in_work. cbn. rewrite Hstop'. split_and!; try done.
  - rewrite (load_next _ _ _ _ _ _ Hq Hq' Ep Et Epeers Etasks). assert (0 < work t)%nat by (destruct t; cbn; lia). lia.
  - intros p'. rewrite Etasks, Hp. destruct (decide (p' = p)) as [->|E].
    + rewrite decide_True by done. by rewrite Et.
    + by rewrite decide_False by done.
Qed.

Lemma working s : server_ok s → resting (sv_worker s) ∨ ∃ t, sv_worker s = WorkerBusy t.
Proof. intros (_ & _ & Hw). unfold resting. destruct (sv_worker s); [by left; left|by right; eexists|by left; right|done]. Qed.

(** A step of a resting worker that is not to stop. *)
Lemma resting_step d s : server_ok s → resting (sv_worker s) →
  ∃ w, resting w ∧ server_worker (S fuel) s d = (s ← lift (worker_next w (sv_queue s)); mret (s, [])) d.
Proof.
  intros (_ & Hstop & _) [Ew|Ew]; unfold server_worker; rewrite Ew; [exists WorkerWaiting|exists WorkerIdle].
  - split; [by right|]. unfold worker_take. by rewrite Hstop.
  - split; [by left|done].
Qed.

Lemma worker_execute_spec d s t : shows v hs d → server_ok s → sv_worker s = WorkerBusy t →
  ∃ s' effs, answers d (worker_execute (S fuel) t s) (s', effs) ∧ server_ok s' ∧ (rounds s' ≤ rounds s - 1)%nat ∧
    ∀ p, to_peer p effs ++ open_answers s' p = open_answers s p.
Proof.
  intros Hd (Hq & Hstop & _) Ew. destruct (server_execute_spec d t Hd) as (again & effs & Ha & Eans & Hw & Hp).
  eexists _, effs. split.
  { unfold worker_execute. eapply answers_bind; [exact Ha|]. intros d' Hd'. apply answers_ret, Hd'. }
  assert (∀ e, e ∈ effs → effect_peer e = Some (task_peer t)) as Heffs
    by (intros e He; apply answer_peer; rewrite <-Eans; set_solver).
  unfold server_ok, rounds, open_answers, open_requests, in_work. rewrite Ew. cbn [sv_queue sv_worker filter].
  destruct again as [t'|].
  - destruct (add_front_ok t' _ Hq) as (Hq' & Hs' & Hl' & Ht'). rewrite Hs', Hl'. split_and!; try done.
    { unfold work_left in Hw. cbn in *. lia. }
    intros p. rewrite (to_peer_answer t effs p Heffs), Ht', (Hp t' eq_refl), filter_nil, filter_cons, filter_nil. cbn [app].
    unfold answer_left in Eans. cbn in Eans. destruct (decide (task_peer t = p)) as [E|E].
    + subst p. rewrite decide_True by done. cbn [app]. rewrite !bind_cons, <-Eans. by rewrite app_assoc.
    + rewrite decide_False by done. done.
  - unfold work_left, answer_left in *. cbn in Hw, Eans. rewrite app_nil_r in Eans. subst effs. split_and!; try done; [cbn; lia|].
    intros p. rewrite (to_peer_answer t _ p Heffs), filter_nil, filter_cons, filter_nil. cbn [app].
    case_decide; cbn [app]; [by rewrite bind_cons|done].
Qed.

Lemma server_step_spec d e s : shows v hs d → server_ok s →
  ∃ s' effs, answers d (server_step (S fuel) e s) (s', effs) ∧ server_ok s' ∧
    (rounds s' ≤ rounds s - (if e is WorkerRuns then 1 else 0) + 2 * asked_work e)%nat ∧
    ∀ p, e ≠ PeerGone p → to_peer p effs ++ open_answers s' p = open_answers s p ++ asked_answer p e.
Proof.
  intros Hd Hs. pose proof Hs as (Hq & Hstop & Hw). destruct e as [t|peer|]; cbn [server_step asked_work asked_answer].
  - eexists _, _. split; [apply answers_ret, Hd|]. destruct (add_back_ok t _ Hq) as (Hq' & Hs' & Hl' & Ht').
    unfold server_ok, rounds, open_answers, open_requests, in_work, server_request. cbn [sv_queue sv_worker].
    rewrite Hs', Hl'. split_and!; try done; [lia|]. intros p _. rewrite Ht', to_peer_nil. cbn [app].
    case_decide as E; [subst p; rewrite decide_True by done|rewrite decide_False by done; by rewrite app_nil_r].
    by rewrite app_assoc, bind_app, bind_single.
  - destruct (remove_peer_ok peer _ Hq) as (q' & E & Hq' & Hs' & Ht' & Hf'). unfold server_on_disconnect. rewrite E. cbn [mbind option_bind].
    eexists _, _. split; [eapply answers_bind; [eapply answers_reads; [apply reads_lift|apply Hd|done]|]|].
    { intros d' Hd'. apply answers_ret, Hd'. }
    unfold server_ok, rounds, open_answers, open_requests, in_work. cbn [sv_queue sv_worker]. rewrite Hs'. split_and!; try done.
    + pose proof (load_update _ _ peer Hq Hq' Hf') as Hl. rewrite Ht', decide_True in Hl by done. cbn in Hl. enough (queue_load q' ≤ queue_load (sv_queue s))%nat by lia.
      rewrite <-(Nat.add_0_r (queue_load (sv_queue s))), <-Hl; [lia|]. intros p' Hp'. by rewrite Ht', decide_False.
    + intros p Hp. rewrite Ht', decide_False by congruence. by rewrite to_peer_nil, app_nil_r.
  - destruct (working s Hs) as [Hrest|[t Ew]].
    + destruct (resting_step d s Hs Hrest) as (w & Hw' & Estep).
      destruct (worker_next_spec w s Hs Hrest Hw') as (s' & E & Hs' & Hr & Ho). eexists s', []. split.
      { unfold answers. rewrite Estep. eapply answers_bind; [eapply answers_reads; [apply reads_lift|apply Hd|exact E]|].
        intros d' Hd'. apply answers_ret, Hd'. }
      split_and!; [done|lia|]. intros p _. unfold open_answers. by rewrite Ho, app_nil_r.
    + unfold server_worker. rewrite Ew. destruct (worker_execute_spec d s t Hd Hs Ew) as (s' & effs & E & Hs' & Hr & Ho). exists s', effs.
      split_and!; [done..|lia|]. intros p _. by rewrite Ho, app_nil_r.
Qed.

Lemma server_run_spec d es s : shows v hs d → server_ok s →
  ∃ s' effs, answers d (server_run (S fuel) es s) (s', effs) ∧ server_ok s' ∧
    (rounds s' ≤ rounds s + 2 * sum_list_with asked_work es)%nat ∧
    ((∀ e, e ∈ es → e = WorkerRuns) → rounds s' ≤ rounds s - length es)%nat ∧
    ∀ p, PeerGone p ∉ es → to_peer p effs ++ open_answers s' p = open_answers s p ++ (es ≫= asked_answer p).
Proof.
  revert d s. induction es as [|e es IH]; intros d s Hd Hs; cbn [server_run].
  - exists s, []. split; [apply answers_ret, Hd|]. cbn. split_and!; [done|lia|lia|]. intros p _. by rewrite app_nil_r.
  - destruct (server_step_spec d e s Hd Hs) as (s1 & effs1 & (d1 & E1 & Hd1) & Hs1 & Hr1 & Ho1).
    destruct (IH d1 s1) as (s2 & effs2 & E2 & Hs2 & Hr2 & Hr2' & Ho2); [by eapply shows_unchanged|done|].
    exists s2, (effs1 ++ effs2). split.
    { eapply answers_run; [exact E1|done|]. eapply answers_bind; [exact E2|]. intros d2 Hd2. apply answers_ret, Hd2. }
    split; [done|]. cbn [sum_list_with length]. split_and!.
    + lia.
    + intros He. rewrite (He e) in Hr1 by left. cbn [asked_work] in Hr1. enough (rounds s2 ≤ rounds s1 - length es)%nat by lia. apply Hr2'. intros e' He'. apply He. by right.
    + intros p Hp. rewrite not_elem_of_cons in Hp. rewrite to_peer_app, <-app_assoc, Ho2, app_assoc, Ho1, bind_cons, app_assoc by naive_solver. done.
Qed.

Lemma server_run_app n es es' (d d1 d2 : BlockChainDatabase T) s s1 e1 s2 e2 :
  server_run n es s d = Some ((s1, e1), d1) → server_run n es' s1 d1 = Some ((s2, e2), d2) →
  server_run n (es ++ es') s d = Some ((s2, e1 ++ e2), d2).
Proof.
  revert d s e1. induction es as [|e es IH]; intros d s e1; cbn [server_run app]; [by intros [= <- <- <-]|].
  unfold mbind, DM_bind, mret, DM_ret. intros E H. destruct (server_step n e s d) as [[[s3 e3] d3]|]; [|done].
  destruct (server_run n es s3 d3) as [[[s4 e4] d4]|] eqn:E4; [|done]. injection E as <- <- <-.
  by rewrite (IH _ _ _ E4 H), app_assoc.
Qed.

Lemma rounds_zero s : server_ok s → rounds s = 0%nat → sq_peers_queue (sv_queue s) = [] ∧ resting (sv_worker s).
Proof.
  intros Hs Hr. pose proof Hs as (Hq & _). unfold rounds, in_work, queue_load in Hr. split.
  - destruct (sq_peers_queue (sv_queue s)) as [|p peers] eqn:E; [done|]. exfalso.
    assert (tasks_of (sv_queue s) p ≠ []) as Ht by (apply (waiting_iff _ _ Hq); rewrite E; left).
    destruct (tasks_of (sv_queue s) p) as [|t l] eqn:Et; [done|]. cbn in Hr. rewrite Et in Hr. cbn in Hr.
    assert (0 < work t)%nat by (destruct t; cbn; lia). lia.
  - destruct (working s Hs) as [?|[t Ew]]; [done|]. rewrite Ew in Hr. cbn in Hr. assert (0 < work t)%nat by (destruct t; cbn; lia). lia.
Qed.

Lemma server_drains d es m : shows v hs d → (2 * sum_list_with asked_work es ≤ m)%nat →
  ∃ s effs, answers d (server_run (S fuel) (es ++ replicate m WorkerRuns) server_new) (s, effs) ∧
    sq_peers_queue (sv_queue s) = [] ∧ resting (sv_worker s) ∧
    ∀ p, PeerGone p ∉ es → to_peer p effs = es ≫= asked_answer p.
Proof.
  intros Hd Hm. assert (server_ok server_new) as H0 by (split; [apply queue_ok_new|done]).
  assert (∀ e, e ∈ replicate m WorkerRuns → e = WorkerRuns) as Hrep by (by intros e [-> _]%elem_of_replicate).
  destruct (server_run_spec d es server_new Hd H0) as (s1 & effs1 & (d1 & E1 & Hd1) & Hs1 & Hr1 & _ & Ho1).
  destruct (server_run_spec d1 (replicate m WorkerRuns) s1) as (s2 & effs2 & (d2 & E2 & Hd2) & Hs2 & _ & Hr2 & Ho2); [by eapply shows_unchanged|done|].
  assert (rounds s2 = 0)%nat as Hz.
  { specialize (Hr2 Hrep). rewrite length_replicate in Hr2. change (rounds server_new) with 0%nat in Hr1. lia. }
  destruct (rounds_zero s2 Hs2 Hz) as [Hpeers Hidle]. exists s2, (effs1 ++ effs2). split_and!; try done.
  - exists d2. split; [by eapply server_run_app|by eapply unchanged_trans].
  - intros p Hp. rewrite to_peer_app. specialize (Ho1 p Hp). specialize (Ho2 p).
    assert (open_answers s2 p = []) as Eo.
    { unfold open_answers, open_requests. rewrite (resting_in_work s2 Hidle). cbn. destruct (tasks_of (sv_queue s2) p) eqn:E; [done|].
      assert (p ∈ sq_peers_queue (sv_queue s2)) as Hin by (apply (waiting_iff _ _ (proj1 Hs2)); by rewrite E).
      rewrite Hpeers in Hin. by apply not_elem_of_nil in Hin. }
    rewrite Eo, app_nil_r in Ho2. rewrite Ho2, app_assoc, Ho1; [|by intros [= ?]%Hrep].
    rewrite (bind_nothing _ (replicate _ _)); [|by intros e ->%Hrep]. by rewrite app_nil_r.
Qed.
(** ** Turns *)

(** The worker runs until a waiting peer has its turn. *)
Definition turn (s : ServerImpl) (i : nat) : nat := 2 * i + (if sv_worker s is WorkerBusy _ then 1 else 0).

Definition worker_runs (es : list ServerEvent) : nat := sum_list_with (λ e, if e is WorkerRuns then 1 else 0)%nat es.

Definition serving (s : ServerImpl) (p : PeerIndex) : Prop := ∃ t, sv_worker s = WorkerBusy t ∧ task_peer t = p.

Lemma lookup_delete_shift (l : list PeerIndex) j i p q : l !! j = Some q → p ≠ q → l !! i = Some p →
  ∃ i', (i' ≤ i)%nat ∧ delete j l !! i' = Some p.
Proof.
  intros Hj Hne Hi. destruct (decide (i < j)%nat); [exists i; split; [done|by rewrite list_lookup_delete_lt]|].
  assert (i ≠ j) by (intros ->; congruence). exists (i - 1)%nat. split; [lia|].
  rewrite list_lookup_delete_ge by lia. by replace (S (i - 1)) with i by lia.
Qed.

Lemma add_to_queue_turn add t q i p : queue_ok q → (∀ l, add t l ≠ []) → sq_peers_queue q !! i = Some p →
  sq_peers_queue (add_to_queue add t q) !! i = Some p.
Proof.
  intros Hq Hne Hi. unfold add_to_queue. destruct (sq_tasks_queue q !! task_peer t); cbn; [case_decide|]; try done.
  all: by apply lookup_app_l_Some.
Qed.

Lemma server_step_turn d e s i p : shows v hs d → server_ok s → sq_peers_queue (sv_queue s) !! i = Some p → e ≠ PeerGone p →
  ∃ s' effs d', server_step (S fuel) e s d = Some ((s', effs), d') ∧ shows v hs d' ∧ server_ok s' ∧
    (serving s' p ∨ ∃ i', sq_peers_queue (sv_queue s') !! i' = Some p ∧
      (turn s' i' ≤ turn s i - (if e is WorkerRuns then 1 else 0))%nat ∧
      (e = WorkerRuns → 0 < turn s i)%nat).
Proof.
  intros Hd Hs Hi He. destruct (server_step_spec d e s Hd Hs) as (s' & effs & (d' & E & Hu) & Hs' & _).
  exists s', effs, d'. split_and!; [done|by eapply shows_unchanged|done|]. clear Hs'.
  pose proof Hs as (Hq & Hstop & Hw). destruct e as [t|peer|]; cbn [server_step] in E.
  - injection E as <- <- <-. right. exists i. cbn. split_and!; [|unfold turn; cbn; lia|done]. by apply add_to_queue_turn; [|intros []|].
  - unfold server_on_disconnect, remove_peer_tasks in E. destruct (sq_tasks_queue (sv_queue s) !! peer).
    2:{ injection E as <- <- <-. right. exists i. cbn. split_and!; [done|unfold turn; cbn; lia|done]. }
    destruct (list_find (λ x, x = peer) (sq_peers_queue (sv_queue s))) as [[j x]|] eqn:Ef; [|done].
    injection E as <- <- <-. apply list_find_Some in Ef as (Hj & -> & _).
    destruct (lookup_delete_shift _ j i p peer Hj) as (i' & Hle & Hi'); [congruence|done|].
    right. exists i'. split_and!; [done|unfold turn; cbn; lia|done].
  - destruct (working s Hs) as [Hrest|[t Ew]].
    + destruct (resting_step d s Hs Hrest) as (w & _ & Estep). rewrite Estep in E. unfold worker_next in E. destruct (sq_peers_queue (sv_queue s)) as [|p0 peers] eqn:Ep; [done|].
      destruct (next_task_ok _ _ _ Hq Ep) as (t & rest & q' & _ & Hp & En & _ & _ & Epeers & _). rewrite En in E.
      injection E as <- <- <-. destruct i as [|i]; cbn in Hi; [left; exists t; split; [done|congruence]|].
      right. exists i. cbn. rewrite Epeers. unfold turn. cbn. split_and!; [by apply lookup_app_l_Some|destruct Hrest as [->| ->]; lia|lia].
    + unfold server_worker in E. rewrite Ew in E. unfold worker_execute, mbind, DM_bind in E. destruct (server_execute (S fuel) t d) as [[[again effs'] d1]|]; [|done]. injection E as <- <- <-.
      right. exists i. unfold turn. rewrite Ew. cbn. split_and!; [|lia|lia].
      destruct again; [|done]. by apply add_to_queue_turn.
Qed.

Lemma server_turn d es s i p : shows v hs d → server_ok s → sq_peers_queue (sv_queue s) !! i = Some p → PeerGone p ∉ es →
  (turn s i < worker_runs es)%nat →
  ∃ es1 es2 s1 effs d1, es = es1 ++ es2 ∧ server_run (S fuel) es1 s d = Some ((s1, effs), d1) ∧ serving s1 p.
Proof.
  revert d s i. induction es as [|e es IH]; intros d s i Hd Hs Hi Hgone Hlen; [cbn in Hlen; lia|].
  apply not_elem_of_cons in Hgone as [He Hgone].
  destruct (server_step_turn d e s i p Hd Hs Hi) as (s1 & effs & d1 & E & Hd1 & Hs1 & Hor); [congruence|].
  destruct Hor as [Hserv|(i' & Hi' & Hle & Hpos)].
  - exists [e], es, s1, (effs ++ []), d1. split; [done|]. cbn [server_run]. unfold mbind, DM_bind. by rewrite E.
  - destruct (IH d1 s1 i' Hd1 Hs1 Hi' Hgone) as (es1 & es2 & s2 & effs2 & d2 & -> & E2 & Hserv).
    { unfold worker_runs in *. cbn [sum_list_with] in Hlen. destruct e; [lia..|]. specialize (Hpos eq_refl). lia. }
    exists (e :: es1), es2, s2, (effs ++ effs2), d2. split; [done|]. cbn [server_run]. unfold mbind, DM_bind. by rewrite E, E2.
Qed.
End on_store.

(** ** Stored blocks have finite lines of ancestors *)

(** The parent of a stored block is stored, or there is none. *)
Definition closed (v : View) : Prop :=
  ∀ h b, v_block v h = Some b → parent_of b = hash_default ∨ is_Some (v_block v (parent_of b)).

Lemma grounded_mono n m v h : (n ≤ m)%nat → grounded n v h → grounded m v h.
Proof.
  revert m h. induction n as [|n IH]; intros [|m] h Hle; cbn; try lia; destruct (v_block v h); try done.
  apply IH. lia.
Qed.

Lemma grounded_ext n v v' : (∀ h, v_block v' h = v_block v h) → ∀ h, grounded n v h → grounded n v' h.
Proof. intros E. induction n as [|n IH]; intros h; cbn; rewrite E; [done|]. destruct (v_block v h); [apply IH|done]. Qed.

Lemma closed_ext v v' : (∀ h, v_block v' h = v_block v h) → closed v → closed v'.
Proof. intros E Hc h b. rewrite !E. apply Hc. Qed.

(** A new block above stored ones, or without a parent. *)
Lemma grounded_insert n v v' h b : closed v → v_block v h = None → h ≠ hash_default → v_block v hash_default = None →
  (parent_of b = hash_default ∨ is_Some (v_block v (parent_of b))) →
  (∀ x, v_block v' x = if decide (x = h) then Some b else v_block v x) →
  (∀ x, grounded n v x) → closed v' ∧ ∀ x, grounded (S n) v' x.
Proof.
  intros Hc Hh Hne H0 Hp Ev Hg.
  assert (∀ p, p = hash_default ∨ is_Some (v_block v p) → p ≠ h) as Hold.
  { intros p Hs ->. destruct Hs as [?|[? Hs]]; [done|by rewrite Hh in Hs]. }
  assert (∀ m x, x ≠ h → grounded m v x → grounded m v' x) as Hsame.
  { induction m as [|m IH]; intros x Hx; cbn; rewrite Ev, decide_False by done; [done|].
    destruct (v_block v x) as [bx|] eqn:E; [|done]. apply IH, Hold, (Hc x), E. }
  split.
  - intros x bx. rewrite !Ev. case_decide as Hx.
    + intros [= <-]. destruct Hp as [?|Hs]; [by left|right]. case_decide; [by eexists|done].
    + intros E. destruct (Hc x bx E) as [?|Hs]; [by left|right]. case_decide; [by eexists|done].
  - intros x. destruct (decide (x = h)) as [->|Hx]; [|apply Hsame; [done|eapply grounded_mono, Hg; lia]].
    cbn. rewrite Ev, decide_True by done. apply Hsame; [by apply Hold|done].
Qed.

Lemma db_step_grounded s s' hs n : db_step s s' → state_inv s hs → closed (db_view s) → (∀ h, grounded n (db_view s) h) →
  closed (db_view s') ∧ ∀ h, grounded (S n) (db_view s') h.
Proof.
  intros Hstep Hs Hc Hg.
  assert (same_blocks s s' → closed (db_view s') ∧ ∀ h, grounded (S n) (db_view s') h) as Hsame.
  { intros Eb. assert (∀ h, v_block (db_view s') h = v_block (db_view s) h) as E by (intros h; unfold v_block; by rewrite Eb).
    split; [by eapply closed_ext|]. intros h. eapply grounded_ext; [exact E|]. eapply grounded_mono, Hg. lia. }
  destruct Hstep as [s blk r s' Hne E|s h r s' Hn E|s r s' E|s s' E].
  - destruct (insert_spec s hs blk Hs Hne) as (s1 & Hif).
    destruct (v_contains (db_view s) (ib_hash blk)) eqn:Ec; [|destruct (_ && _) eqn:Ep]; destruct Hif as (E1 & Hs1);
      rewrite E in E1; injection E1 as -> ->; [by apply Hsame, unchanged_blocks..|].
    destruct Hs1 as [_ Hview]. set (h := ib_hash blk) in *. set (b := block_of blk) in *.
    apply (grounded_insert n (db_view s) (db_view s1) h b); try done.
    + unfold v_contains in Ec. apply bool_decide_eq_false in Ec. unfold v_block.
      destruct (db_view s (KeyBlock h)); [|done]. by destruct Ec.
    + unfold v_block. by rewrite (ci_nonzero _ _ _ (proj2 Hs)).
    + rewrite is_zero_hash in Ep. apply andb_false_iff in Ep as [Ep|Ep]; apply negb_false_iff in Ep.
      * right. apply bool_decide_eq_true in Ep as [x Ex]. unfold v_block. rewrite Ex. by apply (ci_typed _ _ _ (proj2 Hs)) in Ex.
      * left. by apply bool_decide_eq_true in Ep.
    + intros x. unfold v_block. rewrite Hview. destruct (decide (x = h)) as [->|Hx]; [by rewrite decide_True|].
      rewrite decide_False; [done|]. by intros [= ?].
  - pose proof (length_of_best _ _ _ (proj2 Hs) Hn) as Hlen.
    destruct (canonize_cases s hs h Hs Hlen) as [(s1 & E1 & Hs1 & Hb)|(s1 & E1 & Hs1)];
      rewrite E in E1; injection E1 as -> ->; [by apply Hsame|by apply Hsame, unchanged_blocks].
  - destruct hs as [|h hs _] using rev_ind.
    + destruct (decanonize_err s Hs) as (s1 & E1 & Hs1). rewrite E in E1. injection E1 as -> ->. by apply Hsame, unchanged_blocks.
    + destruct (decanonize_ok s hs h Hs) as (s1 & E1 & Hs1 & Hb). rewrite E in E1. injection E1 as -> ->. by apply Hsame.
  - destruct Hs as [Hv Hi]. destruct (open_spec (bc_db s) _ hs Hv Hi) as (s1 & E1 & Hs1 & Hb). rewrite E in E1. injection E1 as ->.
    destruct Hb as [Ev _]. apply Hsame. intros h. by rewrite Ev.
Qed.

Lemma db_steps_grounded s s' hs n : rtc db_step s s' → state_inv s hs → closed (db_view s) → (∀ h, grounded n (db_view s) h) →
  ∃ hs' n', state_inv s' hs' ∧ closed (db_view s') ∧ ∀ h, grounded n' (db_view s') h.
Proof.
  intros Hsteps. revert hs n. induction Hsteps as [s|s s1 s' Hstep _ IH]; intros hs n Hs Hc Hg; [eauto|].
  destruct (db_step_inv s s1 hs Hstep Hs) as [hs1 Hs1]. destruct (db_step_grounded s s1 hs n Hstep Hs Hc Hg) as [Hc1 Hg1].
  by apply (IH hs1 (S n)).
Qed.

Lemma reachable_grounded t s0 s : kv_valid t → (∀ k, kv_view t k = None) → open t = Some s0 → rtc db_step s0 s →
  ∃ hs n, state_inv s hs ∧ ∀ h, grounded n (db_view s) h.
Proof.
  intros Ht Hempty Hopen Hsteps.
  destruct (open_spec t _ [] Ht (empty_chain t Hempty)) as (s1 & E1 & Hs1 & Ev & _). rewrite Hopen in E1. injection E1 as <-.
  enough (∃ hs n, state_inv s hs ∧ closed (db_view s) ∧ ∀ h, grounded n (db_view s) h) as (hs & n & ? & _ & ?) by eauto.
  assert (∀ h, v_block (db_view s0) h = None) as Hnone by (intros h; unfold v_block; by rewrite Ev, Hempty).
  assert (closed (db_view s0)) as Hc by (intros h b; by rewrite Hnone).
  assert (∀ h, grounded 0 (db_view s0) h) as Hg by (intros h; cbn; by rewrite Hnone).
  by apply (db_steps_grounded s0 s [] 0).
Qed.

(** C16: the server answers every request.  On any database reached from an
    empty one, whatever requests come in, in whatever order peers come and go
    and the worker runs in between: nothing panics and the database stays as it
    is; after twice as many further steps of the worker as the requests hold
    work the queue is empty and the worker rests; and every peer that did not
    leave has got exactly the answers to its requests, in the order of the
    requests: blocks or [notfound] for each item, the hashes or headers after
    the best common block, or a report of misbehaviour when there is none. *)
Theorem server_answers_in_order t s0 d : kv_valid t → (∀ k, kv_view t k = None) → open t = Some s0 → rtc db_step s0 d →
  bb_number (bc_best_block d) + 2002 < 2 ^ 32 →
  ∃ hs enough, state_inv d hs ∧ ∀ fuel es m, (enough ≤ fuel)%nat → (2 * sum_list_with asked_work es ≤ m)%nat →
    ∃ s effs d', server_run (S fuel) (es ++ replicate m WorkerRuns) server_new d = Some ((s, effs), d') ∧ unchanged d d' ∧
      sq_peers_queue (sv_queue s) = [] ∧ resting (sv_worker s) ∧
      ∀ p, PeerGone p ∉ es → to_peer p effs = es ≫= asked_answer fuel (db_view d) hs p.
Proof.
  intros Ht Hempty Hopen Hsteps Hn. destruct (reachable_grounded t s0 d Ht Hempty Hopen Hsteps) as (hs & n & Hd & Hg).
  exists hs, n. split; [done|]. intros fuel es m Hfuel Hm.
  destruct (server_drains fuel (db_view d) hs) with (d := d) (es := es) (m := m) as (s & effs & (d' & E & Hu) & Hs); try done.
  - intros h. by eapply grounded_mono.
  - rewrite (ci_best _ _ _ (proj2 Hd)) in Hn. unfold GETHEADERS_MAX_RESPONSE_HEADERS.
    destruct hs as [|x hs _] using rev_ind; [done|]. rewrite best_of_snoc in Hn. rewrite length_app. cbn in Hn |- *. lia.
  - exists s, effs, d'. done.
Qed.

(** C17: no peer starves.  A peer that waits at position [i] of the queue and does
    not leave is served within [2 i + 2] steps of the worker, whatever other
    peers ask for in the meantime. *)
Theorem waiting_peer_served d hs fuel s i p es :
  state_inv d hs → (∀ h, grounded fuel (db_view d) h) → Z.of_nat (length hs + 2000) < 2 ^ 32 → server_ok s →
  sq_peers_queue (sv_queue s) !! i = Some p → PeerGone p ∉ es →
  (2 * i + 1 < worker_runs es)%nat →
  ∃ es1 es2 s1 effs d1 t, es = es1 ++ es2 ∧ server_run (S fuel) es1 s d = Some ((s1, effs), d1) ∧
    sv_worker s1 = WorkerBusy t ∧ task_peer t = p.
Proof.
  intros Hd Hg Hfit Hs Hi Hgone Hlen.
  destruct (server_turn fuel (db_view d) hs Hg Hfit d es s i p) as (es1 & es2 & s1 & effs & d1 & -> & E & t & Ht); try done.
  - unfold turn. destruct (sv_worker s); lia.
  - by exists es1, es2, s1, effs, d1, t.
Qed.

(** ** A client behind or beside the server *)

Lemma upto_absent stop l : stop ∉ l → upto stop l = l.
Proof.
  induction l as [|h l IH]; cbn; [done|]. intros [Hh Hl]%not_elem_of_cons. rewrite decide_False by done. by rewrite IH.
Qed.

Lemma find_lookup v best hs i h : chain_inv v best hs → hs !! i = Some h → ∃ x, list_find (λ x, x = h) hs = Some (i, x).
Proof.
  intros Hi Hh. destruct (list_find (λ x, x = h) hs) as [[j x]|] eqn:E.
  - exists x. apply list_find_member in E. by rewrite (ci_nodup _ _ _ _ _ _ Hi E Hh).
  - apply list_find_absent in E. destruct E. by eapply list_elem_of_lookup_2.
Qed.

(** The first height of the locator in the common part. *)
Lemma common_of_locator fuel v best pre a b l hashes rest : chain_inv v best (pre ++ b) →
  (∀ h, h ∈ a → ¬ h ∈ pre ++ b ∧ v_block v h = None) → at_heights (pre ++ a) l hashes →
  list.last l = Some 0 → pre ≠ [] →
  ∃ i, common_block fuel v (pre ++ b) (hashes ++ rest) = Some i ∧ (i < length pre)%nat ∧
    (a = [] → i = Z.to_nat (default 0 (head l))).
Proof.
  intros Hi Ha. revert hashes. induction l as [|n l IH]; intros hashes Hat Hlast Hpre; [done|].
  inversion Hat as [|? h ? hashes' Hh Hat']; subst. cbn [app common_block].
  destruct (decide (Z.to_nat n < length pre)%nat) as [Hn|Hn].
  - rewrite lookup_app_l in Hh by done. exists (Z.to_nat n). split_and!; [|done|done].
    destruct (find_lookup _ _ _ (Z.to_nat n) h Hi) as [x E]; [by rewrite lookup_app_l|]. by rewrite (ancestor_member _ _ _ _ _ _ E).
  - assert (h ∈ a) as Hin by (rewrite lookup_app_r in Hh by lia; by eapply list_elem_of_lookup_2).
    destruct (Ha h Hin) as [Hnot Hnone].
    assert (ancestor fuel v (pre ++ b) h = None) as ->.
    { assert (list_find (λ x, x = h) (pre ++ b) = None) as E by (apply list_find_None, list.Forall_forall; by intros y Hy ->).
      destruct fuel; cbn; by rewrite E, ?Hnone. }
    destruct (IH hashes') as (i & E & Hlt & _); [done| |done|].
    + destruct l; [|done]. injection Hlast as ->. destruct pre; [done|]. cbn in Hn. lia.
    + exists i. split_and!; [done..|]. intros ->. by apply not_elem_of_nil in Hin.
Qed.

(** The headers of stored blocks. *)
Lemma raw_headers_spec v l : (∀ h, h ∈ l → is_Some (v_block v h)) →
  length (l ≫= raw_header v) = length l ∧
  ∀ k x, (l ≫= raw_header v) !! k = Some x → ∃ h blk, l !! k = Some h ∧ v_block v h = Some blk ∧ x = block_header blk.
Proof.
  induction l as [|h l IH]; intros H; [by split|]. destruct IH as [IHl IHk]; [set_solver|].
  destruct (H h) as [blk E]; [left|]. rewrite bind_cons. unfold raw_header at 1 3. rewrite E. cbn [app length]. split; [by f_equal|].
  intros [|k] x; cbn [lookup list_lookup]; [|apply IHk]. intros [= <-]. by exists h, blk.
Qed.

(** C18: a node that asks another for headers gets what it lacks.  Its block
    locator covers its stored chain and the queues; the server's chain shares the
    part [pre] with it.  The server finds a block of [pre], never reports
    misbehaviour, and answers with the headers of its chain after that block, at
    most 2000, each linked to the one before; when the node is merely behind,
    the first of them follows the node's last block. *)
Theorem headers_from_locator (c : SyncChain T) hs_c qs headers d fuel pre a b peer id :
  sync_inv c hs_c qs headers → Z.of_nat (length (hs_c ++ concat qs)) ≤ 2 ^ 31 →
  state_inv d (pre ++ b) → (∀ h, grounded fuel (db_view d) h) → Z.of_nat (length (pre ++ b) + 2000) < 2 ^ 32 →
  hs_c ++ concat qs = pre ++ a → pre ≠ [] → (∀ h, h ∈ a → ¬ h ∈ pre ++ b ∧ v_block (db_view d) h = None) →
  ∃ locator c' i d' answered, block_locator_hashes c = Some (locator, c') ∧
    serve_get_headers (S fuel) peer (with_block_locator_hashes locator) id d =
      Some ([ServerExecute (THeaders peer (mkHeaders answered) (Some id))], d') ∧ unchanged d d' ∧
    (i < length pre)%nat ∧ (a = [] → S i = length pre) ∧ length answered = Nat.min 2000 (length (pre ++ b) - S i) ∧
    ∀ k x, answered !! k = Some x → ∃ h blk, (pre ++ b) !! (S i + k)%nat = Some h ∧ v_block (db_view d) h = Some blk ∧
      x = block_header blk ∧ (pre ++ b) !! (i + k)%nat = Some (previous_header_hash x).
Proof.
  intros Hc Hlen Hd Hg Hfit Echain Hpre Ha.
  destruct (block_locator_spec c hs_c qs headers Hc Hlen) as (l & locator & c' & _ & Eloc & _ & Hat & Hhead & Hlast & _).
  rewrite Echain in Hat, Hhead.
  destruct (common_of_locator fuel (db_view d) _ pre a b l locator [hash_default] (proj2 Hd) Ha Hat Hlast Hpre) as (i & Ei & Hi & Htop).
  destruct (serve_get_headers_spec fuel (db_view d) (pre ++ b) Hg Hfit d peer (with_block_locator_hashes locator) id) as (d' & Es & Hu); [done|].
  set (hs := pre ++ b) in *. set (hashes := next_blocks 2000 hash_default hs i).
  assert (hashes = take 2000 (drop (S i) hs)) as Eh.
  { apply upto_absent. intros Hin. apply elem_of_take in Hin as (k & Hk & _). rewrite lookup_drop in Hk.
    by apply (ci_member_nonzero _ _ _ _ _ (proj2 Hd) Hk). }
  destruct (raw_headers_spec (db_view d) hashes) as [Hl Hk].
  { intros h Hh. rewrite Eh in Hh. apply elem_of_take in Hh as (k & Hk & _). rewrite lookup_drop in Hk.
    destruct (ci_link _ _ _ (proj2 Hd) _ _ Hk) as (blk & Hb & _). by eexists. }
  exists locator, c', i, d', (hashes ≫= raw_header (db_view d)). split_and!; [done| |done|done| | |].
  - rewrite Es. cbn [answer gh_block_locator_hashes gh_hash_stop with_block_locator_hashes]. by rewrite Ei.
  - intros ->. rewrite (Htop eq_refl), Hhead, app_nil_r. cbn. destruct pre; [done|]. cbn. lia.
  - rewrite Hl, Eh, length_take, length_drop. done.
  - intros k x Hx. destruct (Hk k x Hx) as (h & blk & Hh & Hb & ->). rewrite Eh in Hh. apply lookup_take_Some in Hh as [Hh _].
    rewrite lookup_drop in Hh. exists h, blk. split_and!; [done..|].
    destruct (ci_link _ _ _ (proj2 Hd) _ _ Hh) as (blk' & Hb' & Hp). rewrite Hb in Hb'. injection Hb' as <-.
    change (previous_header_hash (block_header blk)) with (parent_of blk). rewrite Hp. cbn.
    destruct (lookup_lt_is_Some_2 hs (i + k)) as [y Ey]; [apply lookup_lt_Some in Hh; lia|]. by rewrite Ey.
Qed.
End server_safe.

Section server_examples.
Import Reference.
#[local] Instance checked_server : Profile := true.

(** A store with one block, and a peer that asks for it and for another one. *)
Definition ex_first : IndexedBlock := mkIndexedBlock (mkIndexedBlockHeader ex_h0 (block_header (ex_block hash_default))) [].
Definition ex_item (h : H256) : InventoryVector := mkInventoryVector MessageBlock h.
Definition ex_question : ServerTask := SGetData 7 (mkGetData [ex_item ex_h1; ex_item ex_h0]).

Lemma server_answers_in_order_witness :
  ∃ d hs fuel s effs d', server_run (S fuel) ([Asked ex_question; PeerGone 3] ++ replicate 8 WorkerRuns) server_new d = Some ((s, effs), d') ∧
    v_full (db_view (T:=MemoryDatabase) d) (RefHash ex_h0) = Some ex_first ∧
    to_peer 7 effs = answer fuel (db_view d) hs ex_question.
Proof.
  set (s0 := mkBlockChainDatabase best_block_default memory_default).
  assert (state_inv s0 []) as Hs0 by (split; [exact I|apply empty_chain; intros k; by destruct k]).
  destruct (insert_spec s0 [] ex_first Hs0 (proj1 ex_hashes)) as (d & E & Hd & Hview).
  destruct (server_answers_in_order (KS:=memory_spec) memory_default s0 d I
    ltac:(intros k; by destruct k) eq_refl (rtc_once _ _ (step_insert s0 ex_first _ d (proj1 ex_hashes) E))
    ltac:(rewrite (ci_best _ _ _ (proj2 Hd)); reflexivity)) as (hs & enough & _ & Hrun).
  destruct (Hrun enough [Asked ex_question; PeerGone 3] 8%nat ltac:(lia) ltac:(apply Nat.leb_le; reflexivity)) as (s & effs & d' & Er & _ & _ & _ & Hans).
  exists d, hs, enough, s, effs, d'. split; [exact Er|]. split.
  - rewrite (v_full_hash _ ex_h0 (block_of ex_first)); [reflexivity|]. unfold v_block. rewrite Hview, decide_True by reflexivity. reflexivity.
  - rewrite (Hans 7) by set_solver. cbn. by rewrite app_nil_r.
Defined.

Lemma ex_grounded h : grounded 2 (db_view ex_state) h.
Proof.
  destruct ex_hashes as (H0 & H1 & _ & H10 & _).
  assert (grounded 1 (db_view ex_state) ex_h0) as Hg0.
  { cbn [grounded]. rewrite ex_stored, decide_False, decide_True by congruence.
    change (parent_of (ex_block hash_default)) with (hash_default : H256). cbn [grounded].
    rewrite ex_stored, !decide_False by congruence. exact I. }
  cbn [grounded]. rewrite ex_stored. case_decide; [exact Hg0|]. case_decide; [|exact I].
  change (parent_of (ex_block hash_default)) with (hash_default : H256). rewrite ex_stored, !decide_False by congruence. exact I.
Qed.

Definition ex_waiting : ServerImpl := server_request (SMempool 4) (server_request ex_question server_new).

Lemma ex_waiting_ok : server_ok ex_waiting.
Proof.
  split; [|by split]. unfold ex_waiting, server_request. cbn [sv_queue].
  apply (add_back_ok (SMempool 4)). apply (add_back_ok ex_question). apply queue_ok_new.
Qed.

Lemma waiting_peer_served_witness : ∃ es1 es2 s1 effs d1 t,
  [WorkerRuns; Asked ex_question; WorkerRuns; PeerGone 9; WorkerRuns; WorkerRuns] = es1 ++ es2 ∧
  server_run 3 es1 ex_waiting ex_state = Some ((s1, effs), d1) ∧ sv_worker s1 = WorkerBusy t ∧ task_peer t = 4.
Proof.
  apply (waiting_peer_served (KS:=memory_spec) ex_state [ex_h0] 2 ex_waiting 1 4).
  - exact ex_inv.
  - exact ex_grounded.
  - reflexivity.
  - exact ex_waiting_ok.
  - reflexivity.
  - set_solver.
  - apply Nat.ltb_lt. reflexivity.
Defined.

(** A client with [ex_h2] on top of [ex_h0], a server with [ex_h1]. *)
Lemma headers_from_locator_witness : ∃ d locator c' d' answered, block_locator_hashes ex_sync = Some (locator, c') ∧
  serve_get_headers 3 7 (with_block_locator_hashes locator) 1 d =
    Some ([ServerExecute (THeaders 7 (mkHeaders answered) (Some 1))], d') ∧ length answered = 1%nat.
Proof.
  destruct (canonize_ok ex_state [ex_h0] ex_h1 (ex_block ex_h0) ex_inv (proj1 ex_blocks) eq_refl eq_refl) as (d & _ & Hd & Hb).
  assert (∀ h, v_block (db_view d) h = v_block (db_view ex_state) h) as Ev by (intros h; unfold v_block; by rewrite Hb).
  destruct ex_hashes as (H0 & H1 & H2 & H10 & H20 & H21).
  destruct (headers_from_locator (KS:=memory_spec) ex_sync [ex_h0] [[ex_h2]; []; []] [ex_child] d 2 [ex_h0] [ex_h2] [ex_h1] 7 1)
    as (locator & c' & i & d' & answered & E1 & E2 & _ & Hi & _ & Hl & _).
  - exact ex_sync_inv.
  - discriminate.
  - exact Hd.
  - intros h. apply (grounded_ext 2 (db_view ex_state)); [exact Ev|]. exact (ex_grounded h).
  - reflexivity.
  - reflexivity.
  - discriminate.
  - intros h ->%list_elem_of_singleton. rewrite Ev, ex_stored, !decide_False by congruence. split; [set_solver|reflexivity].
  - exists d, locator, c', d', answered. split; [exact E1|]. split; [exact E2|]. rewrite Hl. destruct i; [reflexivity|]. cbn in Hi. lia.
Defined.
End server_examples.
