(* ===== verification/Writer.v ===== *)
(** * Verification of blocks and their import ([sync/src/synchronization_verifier.rs], [sync/src/blocks_writer.rs])

    The database as the store the chain verifier sees, the verifier with its
    parameters, and the writer that imports blocks in any order: a block with an
    unknown parent waits in a pool, any other is verified and inserted together
    with the blocks that waited for it. *)

From S2P Require Import Prelude External Primitives Serialization Compact Crypto Chain.
From S2P Require Import Storage Network Work Verification Kv KvRefine BlockChainDb ChainInv ChainOps.
From S2P Require Import HashQueue HeadersChain SyncChain.
From S2P Require Import SpeedMeter Collections OrphanPool.
From stdpp Require Import gmap.

(** ** The database as a store *)

Section store.
Context {V : VrfOps} {R : RugOps} {P : Profile}.

(** The result of a reading computation. *)
Definition read_of {T A} (m : DM T A) (d : A) (s : BlockChainDatabase T) : A :=
  match m s with Some (a, _) => a | None => d end.

(** src: db/src/block_chain_db.rs 386-402 BlockHeaderProvider *)
Definition db_header_provider {T} {K : KeyValueDatabase T} (s : BlockChainDatabase T) : BlockHeaderProvider :=
  mkBlockHeaderProvider (λ r, read_of (db_block_header_bytes r) None s) (λ r, read_of (db_block_header r) None s).

Context {T : Type} {K : KeyValueDatabase T}.

(** The fields are the answers of a database that does not panic. *)
(** src: db/src/block_chain_db.rs 463-497 CanonStore *)
Definition store_of (s : BlockChainDatabase T) : CanonStore :=
  mkCanonStore (bc_best_block s) (λ n, read_of (block_hash n) None s)
    (λ header, read_of (block_origin header) (Err (DatabaseError "")) s)
    (λ origin,
       match fork s origin with
       | Some (Ok f) => Ok (db_header_provider (fork_blockchain T f))
       | Some (Err e) => Err e
       | None => Err (DatabaseError "")
       end)
    (db_header_provider s).
End store.

(** ** The verifier *)

(** src: sync/src/lib.rs 60-66 VerificationParameters *)
Record VerificationParameters := mkVerificationParameters {
  verification_level : VerificationLevel;
  verification_edge : H256;
}.

(** src: sync/src/synchronization_verifier.rs 30-35 VerificationTask *)
Inductive VerificationTask {V : VrfOps} := VerifyBlock (block : IndexedBlock) | StopVerification.

(** src: sync/src/synchronization_verifier.rs 52-59 ChainVerifierWrapper *)
Record ChainVerifierWrapper := mkChainVerifierWrapper {
  cw_params : VerificationParameters;
  enforce_full_verification : bool;
}.

Section verifier.
Context {U : U256Ops} {R : RugOps} {H : Sha256Ops} {V : VrfOps} {P : Profile}.
Context {T : Type} {K : KeyValueDatabase T}.
Context (network : Network).

(** src: sync/src/synchronization_verifier.rs 63-76 new *)
Definition wrapper_new (params : VerificationParameters) : DM T ChainVerifierWrapper :=
  passed ← contains_block (RefHash (verification_edge params));
  mret (mkChainVerifierWrapper params passed).

(** src: sync/src/synchronization_verifier.rs 79-95 verify_block *)
Definition wrapper_verify_block (s : BlockChainDatabase T) (now : Z) (block : IndexedBlock) (w : ChainVerifierWrapper) :
    option (result VError unit * ChainVerifierWrapper) :=
  let enforce := hash_eq (ib_hash block) (verification_edge (cw_params w)) || enforce_full_verification w in
  let level := if enforce then Full else verification_level (cw_params w) in
  r ← verify_block (store_of s) network now level block;
  Some (r, mkChainVerifierWrapper (cw_params w) enforce).

(** The sub-tasks a sink asks for go to the end of the queue; [None] as the
    last component of the result is the stop of the thread. *)
Section tasks.
Context {St : Type} (verify_in : IndexedBlock → St → option (result VError unit * St)).
Context (on_success : IndexedBlock → St → option (option (list VerificationTask) * St)).
Context (on_error : VError → H256 → St → option St).

(** src: sync/src/synchronization_verifier.rs 153-175 tasks_queue *)
Fixpoint execute_tasks (fuel : nat) (tasks_queue : list VerificationTask) (s : St) : option (bool * St) :=
  match tasks_queue with
  | [] => Some (true, s)
  | StopVerification :: _ => Some (false, s)
  | VerifyBlock block :: tasks_queue =>
      match fuel with
      | O => None
      | S fuel =>
          '(r, s) ← verify_in block s;
          match r with
          | Ok _ =>
              '(tasks, s) ← on_success block s;
              execute_tasks fuel (tasks_queue ++ default [] tasks) s
          | Err e => s ← on_error e (ib_hash block) s; execute_tasks fuel tasks_queue s
          end
      end
  end.

(** src: sync/src/synchronization_verifier.rs 144-176 execute_single_task *)
Definition execute_single_task (fuel : nat) (task : VerificationTask) (s : St) : option (bool * St) :=
  execute_tasks fuel [task] s.

(** The tasks of the channel one after the other, [true] while the thread runs. *)
(** src: sync/src/synchronization_verifier.rs 129-141 verification_worker_proc *)
Fixpoint verification_worker_proc (fuel : nat) (work : list VerificationTask) (s : St) : option (bool * St) :=
  match work with
  | [] => Some (true, s)
  | task :: work =>
      '(go_on, s) ← execute_single_task fuel task s;
      if go_on : bool then verification_worker_proc fuel work s else Some (false, s)
  end.

(** src: sync/src/synchronization_verifier.rs 235-247 verify_block *)
Definition sync_verify_block (block : IndexedBlock) (s : St) : option St :=
  '(r, s) ← verify_in block s;
  match r with
  | Ok _ => '(_, s) ← on_success block s; Some s
  | Err e => on_error e (ib_hash block) s
  end.
End tasks.
End verifier.

(** ** The writer *)

(** The text of a verification error is kept as the error. *)
(** src: sync/src/lib.rs 49-56 Error *)
Inductive SyncError :=
| TooManyOrphanBlocks
| SyncDatabase (e : DbError)
| SyncVerification (e : VError).

(** src: sync/src/blocks_writer.rs 18-18 MAX_ORPHANED_BLOCKS *)
Definition MAX_ORPHANED_BLOCKS : nat := 1024.

Section writer.
Context {U : U256Ops} {R : RugOps} {H : Sha256Ops} {V : VrfOps} {P : Profile}.
Context {T : Type} {K : KeyValueDatabase T}.
Context {M : Type → Type} {L : LinkedHashMap H256 M} {OH : HashOrder H256}.
Context (network : Network) (get_time : nat → Z).

(** The storage is shared: the writer and its verifier read the store of the
    sink's chain.  [bw_clock] counts the readings of the clock. *)
(** src: sync/src/blocks_writer.rs 21-44 BlocksWriter *)
Record BlocksWriter := mkBlocksWriter {
  bw_chain : SyncChain T;
  bw_err : option SyncError;
  orphaned_blocks_pool : OrphanBlocksPool (M:=M);
  bw_verifier : ChainVerifierWrapper;
  bw_clock : nat;
}.

(** src: sync/src/blocks_writer.rs 48-62 new *)
Definition writer_new (storage : BlockChainDatabase T) (params : VerificationParameters) : option BlocksWriter :=
  chain ← chain_new storage;
  '(verifier, storage) ← wrapper_new params (sc_storage chain);
  Some (mkBlocksWriter (set_storage storage chain) None pool_new verifier 0).

Definition writer_set_chain (c : SyncChain T) (w : BlocksWriter) : BlocksWriter :=
  mkBlocksWriter c (bw_err w) (orphaned_blocks_pool w) (bw_verifier w) (bw_clock w).

Definition writer_set_err (e : option SyncError) (w : BlocksWriter) : BlocksWriter :=
  mkBlocksWriter (bw_chain w) e (orphaned_blocks_pool w) (bw_verifier w) (bw_clock w).

Definition writer_set_pool (pool : OrphanBlocksPool) (w : BlocksWriter) : BlocksWriter :=
  mkBlocksWriter (bw_chain w) (bw_err w) pool (bw_verifier w) (bw_clock w).

Definition writer_verify (block : IndexedBlock) (w : BlocksWriter) : option (result VError unit * BlocksWriter) :=
  '(r, verifier) ← wrapper_verify_block network (sc_storage (bw_chain w)) (get_time (bw_clock w)) block (bw_verifier w);
  Some (r, mkBlocksWriter (bw_chain w) (bw_err w) (orphaned_blocks_pool w) verifier (S (bw_clock w))).

(** src: sync/src/blocks_writer.rs 127-137 on_block_verification_success *)
Definition writer_on_success (block : IndexedBlock) (w : BlocksWriter) :
    option (option (list VerificationTask) * BlocksWriter) :=
  '(r, chain) ← insert_best_block block (bw_chain w);
  let w := writer_set_chain chain w in
  Some (None, match r with Ok _ => w | Err err => writer_set_err (Some (SyncDatabase err)) w end).

(** src: sync/src/blocks_writer.rs 139-141 on_block_verification_error *)
Definition writer_on_error (err : VError) (hash : H256) (w : BlocksWriter) : option BlocksWriter :=
  Some (writer_set_err (Some (SyncVerification err)) w).

(** [self.sink.lock().error()] *)
(** src: sync/src/blocks_writer.rs 119-121 error *)
Definition take_error (w : BlocksWriter) : option SyncError * BlocksWriter := (bw_err w, writer_set_err None w).

(** The loop over the verification queue; what is left of it after an error is
    dropped. *)
(** src: sync/src/blocks_writer.rs 91-98 verification_queue *)
Fixpoint write_queue (verification_queue : list IndexedBlock) (w : BlocksWriter) :
    option (result SyncError unit * BlocksWriter) :=
  match verification_queue with
  | [] => Some (Ok tt, w)
  | block :: verification_queue =>
      w ← sync_verify_block writer_verify writer_on_success writer_on_error block w;
      match take_error w with
      | (Some err, w) => Some (Err err, w)
      | (None, w) => write_queue verification_queue w
      end
  end.

Definition writer_contains (hash : H256) (w : BlocksWriter) : option (bool * BlocksWriter) :=
  '(known, chain) ← on_storage (contains_block (RefHash hash)) (bw_chain w);
  Some (known, writer_set_chain chain w).

(** src: sync/src/blocks_writer.rs 65-99 append_block *)
Definition append_block (block : IndexedBlock) (w : BlocksWriter) : option (result SyncError unit * BlocksWriter) :=
  '(known, w) ← writer_contains (ib_hash block) w;
  if known : bool then Some (Ok tt, w)
  else
    '(parent_known, w) ← writer_contains (ib_parent block) w;
    if negb parent_known then
      let w := writer_set_pool (insert_orphaned_block block (orphaned_blocks_pool w)) w in
      if (MAX_ORPHANED_BLOCKS <? pool_len (orphaned_blocks_pool w))%nat
      then Some (Err TooManyOrphanBlocks, w) else Some (Ok tt, w)
    else
      '(queue, pool) ← remove_blocks_for_parent (ib_hash block) (orphaned_blocks_pool w);
      write_queue (block :: queue) (writer_set_pool pool w).

(** The blocks of an import one after the other, with the answers. *)
Fixpoint append_blocks (blocks : list IndexedBlock) (w : BlocksWriter) : option (list (result SyncError unit) * BlocksWriter) :=
  match blocks with
  | [] => Some ([], w)
  | block :: blocks =>
      '(r, w) ← append_block block w;
      '(rs, w) ← append_blocks blocks w;
      Some (r :: rs, w)
  end.
End writer.
