(* ===== verification/Tree.v ===== *)
(** * The tree of stored blocks

    The blocks of the store form a tree on the genesis block; the chain is a
    longest branch of it and stays one when a block is inserted. *)

From S2P Require Import Prelude External Primitives Serialization Compact Crypto Chain.
From S2P Require Import Storage Network Work Verification Kv KvRefine BlockChainDb ChainInv ChainOps.
From S2P Require Import HashQueue HeadersChain SyncChain SyncOps SpeedMeter Collections OrphanPool Writer.
From stdpp Require Import gmap.
#[local] Open Scope Z_scope.

(** ** The tree of stored blocks *)

Section tree.
Context {V : VrfOps} {R : RugOps} {P : Profile}.

(** The block is stored, [n] blocks above the genesis block [g]. *)
Inductive at_height (v : View) (g : H256) : H256 → nat → Prop :=
| at_genesis : at_height v g g 0
| at_child h b n : v_block v h = Some b → at_height v g (parent_of b) n → at_height v g h (S n).

Lemma at_height_inv v g h n : at_height v g h n →
  h = g ∧ n = 0%nat ∨ ∃ b m, n = S m ∧ v_block v h = Some b ∧ at_height v g (parent_of b) m.
Proof. intros [|h' b m Hb Hm]; [by left|right; eauto]. Qed.

(** Every stored block is above the genesis block. *)
Definition rooted (v : View) (g : H256) : Prop := ∀ h, is_Some (v_block v h) → ∃ n, at_height v g h n.

(** No branch is longer than the chain. *)
Definition longest (v : View) (g : H256) (hs : list H256) : Prop := ∀ h n, at_height v g h n → (n < length hs)%nat.

Context (v : View) (best : BestBlock) (g : H256) (hs : list H256).
Context (Hi : chain_inv v best hs) (Hg : hs !! O = Some g).

Lemma genesis_parent b : v_block v g = Some b → parent_of b = hash_default.
Proof.
  intros Hb. destruct (ci_link _ _ _ Hi _ _ Hg) as (b' & Hb' & Hp). rewrite Hb in Hb'. by injection Hb' as <-.
Qed.

Lemma genesis_stored : is_Some (v_block v g).
Proof. destruct (ci_link _ _ _ Hi _ _ Hg) as (b & Hb & _). by eexists. Qed.

Lemma at_height_stored h n : at_height v g h n → is_Some (v_block v h).
Proof. intros [|? b ? Hb _]; [apply genesis_stored|by eexists]. Qed.

Lemma nothing_at_default n : ¬ at_height v g hash_default n.
Proof. intros Hn%at_height_stored. unfold v_block in Hn. rewrite (ci_nonzero _ _ _ Hi) in Hn. by destruct Hn. Qed.

Lemma at_height_genesis n : at_height v g g n → n = 0%nat.
Proof.
  intros [[_ ?]|(b & m & _ & Hb & Hm)]%at_height_inv; [done|].
  rewrite (genesis_parent _ Hb) in Hm. by apply nothing_at_default in Hm.
Qed.

Lemma at_height_unique h n m : at_height v g h n → at_height v g h m → n = m.
Proof.
  intros Hn. revert m. induction Hn as [|h b n Hb Hn IH]; intros m Hm; [symmetry; by apply at_height_genesis|].
  apply at_height_inv in Hm as [[Eg ->]|(b' & k & -> & Hb' & Hk)].
  - rewrite Eg in Hb. rewrite (genesis_parent _ Hb) in Hn. by apply nothing_at_default in Hn.
  - rewrite Hb in Hb'. injection Hb' as <-. f_equal. by apply IH.
Qed.

Lemma chain_height i h : hs !! i = Some h → at_height v g h i.
Proof.
  revert h. induction i as [|i IH]; intros h Hh; [rewrite Hg in Hh; injection Hh as <-; constructor|].
  destruct (ci_link _ _ _ Hi _ _ Hh) as (b & Hb & Hp). cbn in Hp. eapply at_child; [exact Hb|].
  destruct (hs !! i) as [p|] eqn:Hp'; [|apply lookup_ge_None in Hp'; apply lookup_lt_Some in Hh; lia].
  rewrite Hp. by apply IH.
Qed.

(** The branch of a stored block leaves the chain somewhere. *)
Lemma branch_of h n : at_height v g h n → ∃ a anc route, hs !! a = Some anc ∧ linked_from v anc route ∧
  (∀ x, x ∈ route → x ∉ hs) ∧ h = tip anc route ∧ (a + length route = n)%nat.
Proof.
  induction 1 as [|h b n Hb Hn IH].
  - exists 0%nat, g, []. split_and!; try done. by intros x ?%not_elem_of_nil.
  - destruct (decide (h ∈ hs)) as [Hin|Hout].
    + apply list_elem_of_lookup in Hin as [i Hi']. exists i, h, []. split_and!; try done; [by intros x ?%not_elem_of_nil|].
      cbn. rewrite Nat.add_0_r. eapply at_height_unique; [by apply chain_height|by eapply at_child].
    + destruct IH as (a & anc & route & Ha & Hl & Hr & Htip & Hlen). exists a, anc, (route ++ [h]).
      rewrite tip_snoc, length_app, linked_from_snoc. cbn. split_and!; [done|done| | |done|lia].
      * exists b. by rewrite <-Htip.
      * intros x [?| ->%list_elem_of_singleton]%elem_of_app; [by apply Hr|done].
Qed.
End tree.

(** ** Insertion *)

Section insertion.
Context {V : VrfOps} {R : RugOps} {P : Profile}.

Section grow.
Context (v v' : View) (best : BestBlock) (g : H256) (hs : list H256) (x : H256) (b : Block).
Context (Hi : chain_inv v best hs) (Hg : hs !! O = Some g) (Hroot : rooted v g).
Context (Hx : v_block v x = None) (Hne : x ≠ hash_default) (Hp : is_Some (v_block v (parent_of b))).
Context (Hv' : ∀ h, v_block v' h = if decide (h = x) then Some b else v_block v h).

Lemma at_height_grow h n : at_height v g h n → at_height v' g h n.
Proof.
  induction 1 as [|h bh n Hb Hn IH]; [constructor|]. eapply at_child; [|exact IH].
  rewrite Hv', decide_False; [done|]. intros ->. congruence.
Qed.

Lemma at_height_old h n : at_height v' g h n → h ≠ x → at_height v g h n.
Proof.
  induction 1 as [|h bh n Hb Hn IH]; intros Hhx; [constructor|]. rewrite Hv', decide_False in Hb by done.
  eapply at_child; [exact Hb|]. apply IH. intros Hbx.
  destruct (Hroot h) as [m Hm]; [by eexists|]. apply at_height_inv in Hm as [[-> _]|(bh' & k & _ & Hb' & Hk)].
  - rewrite (genesis_parent _ _ _ _ Hi Hg _ Hb) in Hbx. congruence.
  - rewrite Hb in Hb'. injection Hb' as <-. apply (at_height_stored _ _ _ _ Hi Hg) in Hk as [? Hk]. congruence.
Qed.

Lemma at_height_new n : at_height v' g x n → ∃ m, n = S m ∧ at_height v g (parent_of b) m.
Proof.
  intros [[-> _]|(bx & m & -> & Hb & Hm)]%at_height_inv.
  - destruct (genesis_stored _ _ _ _ Hi Hg) as [? E]. congruence.
  - rewrite Hv', decide_True in Hb by done. injection Hb as <-. exists m. split; [done|]. apply at_height_old; [done|].
    intros E. rewrite E, Hx in Hp. by destruct Hp.
Qed.

Lemma rooted_grow : rooted v' g.
Proof.
  intros h. rewrite Hv'. case_decide as Hh; [|intros [n Hn]%Hroot; exists n; by apply at_height_grow].
  intros _. subst h. destruct (Hroot _ Hp) as [n Hn]. exists (S n). eapply at_child; [by rewrite Hv', decide_True|].
  by apply at_height_grow.
Qed.
End grow.

Context {T : Type} {K : KeyValueDatabase T} {KS : KvSpec T}.

(** A store whose chain is a longest branch of the tree on its genesis block. *)
Record tree_ok (s : BlockChainDatabase T) (g : H256) (hs : list H256) : Prop := {
  tk_inv : state_inv s hs;
  tk_genesis : hs !! O = Some g;
  tk_rooted : rooted (db_view s) g;
  tk_longest : longest (db_view s) g hs;
}.

Lemma v_contains_block s hs h : state_inv s hs → v_contains (db_view s) h = true ↔ is_Some (v_block (db_view s) h).
Proof.
  intros [_ Hi]. unfold v_contains, v_block. rewrite bool_decide_eq_true. split.
  - intros [x Hx]. rewrite Hx. by apply (ci_typed _ _ _ Hi) in Hx.
  - intros [b Hb]. destruct (db_view s (KeyBlock h)); [by eexists|done].
Qed.

Lemma v_contains_none s hs h : state_inv s hs → v_contains (db_view s) h = false → v_block (db_view s) h = None.
Proof.
  intros Hs Hc. destruct (v_block (db_view s) h) eqn:E; [|done].
  assert (v_contains (db_view s) h = true) by (apply (v_contains_block _ _ _ Hs); by eexists). congruence.
Qed.

Lemma tree_unchanged s s' g hs : tree_ok s g hs → unchanged s s' → tree_ok s' g hs.
Proof.
  intros [H1 H2 H3 H4] Hu. pose proof (unchanged_inv _ _ _ H1 Hu). destruct Hu as (_ & _ & Ev).
  split; [done|done|by rewrite Ev|by rewrite Ev].
Qed.

(** On such a store the search for the origin of a block answers, and a fork can
    be made of a side chain it finds. *)
Lemma origin_answers s g hs header : tree_ok s g hs → Z.of_nat (length hs) + 1 < 2 ^ 32 →
  ∃ r s', block_origin header s = Some (r, s') ∧ unchanged s s' ∧
    ∀ origin, r = Ok (SideChain origin) ∨ r = Ok (SideChainBecomingCanonChain origin) → ∃ f, fork s origin = Some (Ok f).
Proof.
  intros [Hs Hg Hroot Hlong] Hlen. assert (hs ≠ []) as Hne by (by intros ->).
  destruct (v_contains (db_view s) (ih_hash header)) eqn:Hk; [|destruct (v_contains (db_view s) (previous_header_hash (ih_raw header))) eqn:Hp].
  - destruct (block_origin_checks s hs header Hs ltac:(lia) Hne) as (s' & Hu & E). rewrite Hk in E.
    exists (Ok KnownBlock), s'. split_and!; try done. by intros ? [?|?].
  - apply (v_contains_block _ _ _ Hs) in Hp as Hp'. destruct (Hroot _ Hp') as [n Hn]. pose proof (Hlong _ _ Hn) as Hlt.
    destruct (branch_of _ _ _ _ (proj2 Hs) Hg _ _ Hn) as (a & anc & route & Ha & Hl & Hr & Htip & Ea).
    destruct (block_origin_side s hs header a anc route Hs ltac:(lia) Hne Hk Hp Ha Hl Hr ltac:(lia) Htip) as (s' & E & Hu).
    eexists _, s'. split; [exact E|]. split; [done|]. intros origin. case_decide; [by intros [?|?]|].
    case_decide; [|by intros [?|?]]. rewrite side_origin_cases by done.
    destruct (fork_spec s hs a anc route Hs Ha Hl ltac:(lia)) as (f & Ef & _).
    case_decide; intros [[= <-]|[= <-]]; by exists f.
  - destruct (block_origin_checks s hs header Hs ltac:(lia) Hne) as (s' & Hu & E). rewrite Hk, Hp in E.
    destruct (hash_eq _ _); eexists _, s'; (split_and!; [exact E|done|by intros ? [?|?]]).
Qed.

(** A new block on a stored one: it is stored, and the chain is again a longest
    branch; only a fork of 2048 blocks is refused. *)
Lemma insert_tree c g hs qs headers blk :
  sync_inv c hs qs headers → tree_ok (sc_storage c) g hs → Z.of_nat (length hs) + 1 < 2 ^ 32 → ib_hash blk ≠ hash_default →
  v_contains (db_view (sc_storage c)) (ib_hash blk) = false → v_contains (db_view (sc_storage c)) (ib_parent blk) = true →
  ∃ r c' hs' headers', insert_best_block blk c = Some (r, c') ∧ sync_inv c' hs' qs headers' ∧
    tree_ok (sc_storage c') g hs' ∧ (length hs' ≤ length hs + 1)%nat ∧ (headers = [] → headers' = []) ∧
    match r with
    | Ok _ => stores blk (sc_storage c) (sc_storage c')
    | Err e => e = AncientFork ∧ unchanged (sc_storage c) (sc_storage c')
    end.
Proof.
  intros Hc Ht Hlen Hne Hk Hp. destruct Ht as [Hs Hg Hroot Hlong]. pose proof (proj2 Hs) as Hi.
  set (v := db_view (sc_storage c)) in *.
  pose proof Hp as Hp'. apply (v_contains_block _ _ _ Hs) in Hp'. destruct (Hroot _ Hp') as [n Hn].
  pose proof (Hlong _ _ Hn) as Hlt.
  destruct (branch_of _ _ _ _ Hi Hg _ _ Hn) as (a & anc & route & Ha & Hl & Hr & Htip & Ea).
  pose proof (insert_best_block_new c hs qs headers blk a anc route Hc ltac:(lia) Hne Hk Hp Ha Hl Hr ltac:(lia) Htip) as Hins.
  pose proof (lookup_lt_Some _ _ _ Hg) as Hpos. pose proof (lookup_lt_Some _ _ _ Ha) as Halt.
  assert (∀ s' hs', state_inv s' hs' → stores blk (sc_storage c) s' → hs' !! O = Some g → (length hs ≤ length hs')%nat → (S n < length hs')%nat →
    tree_ok s' g hs') as Htree.
  { intros s' hs' Hs' Hst Hg' Hle Hn'.
    assert (∀ h, v_block (db_view s') h = if decide (h = ib_hash blk) then Some (block_of blk) else v_block v h) as Hv'.
    { intros h. unfold v_block. rewrite Hst. by case_decide. }
    pose proof (v_contains_none _ _ _ Hs Hk) as Hx. split; [done|done|exact (rooted_grow v _ g _ (block_of blk) Hroot Hx Hp' Hv')|].
    intros h m Hm. destruct (decide (h = ib_hash blk)) as [->|Hh].
    - apply (at_height_new v _ _ g hs _ (block_of blk) Hi Hg Hroot Hx Hne Hp' Hv') in Hm as (k & -> & Hk'). by rewrite (at_height_unique _ _ _ _ Hi Hg _ _ _ Hk' Hn).
    - apply (at_height_old v _ _ g hs _ (block_of blk) Hi Hg Hroot Hx Hne Hv') in Hm; [|done]. apply Hlong in Hm. lia. }
  assert (∀ r c' hs', insert_best_block blk c = Some (Ok r, c') → sync_inv c' hs' qs (headers_after (ib_hash blk) headers) →
    stores blk (sc_storage c) (sc_storage c') → hs' !! O = Some g → (length hs ≤ length hs' ≤ length hs + 1)%nat → (S n < length hs')%nat →
    ∃ r c' hs' headers', insert_best_block blk c = Some (r, c') ∧ sync_inv c' hs' qs headers' ∧
      tree_ok (sc_storage c') g hs' ∧ (length hs' ≤ length hs + 1)%nat ∧ (headers = [] → headers' = []) ∧
      match r with
      | Ok _ => stores blk (sc_storage c) (sc_storage c')
      | Err e => e = AncientFork ∧ unchanged (sc_storage c) (sc_storage c')
      end) as Hdone.
  { intros r c' hs' E Hc' Hst Hg' Hle Hn'. exists (Ok r), c', hs', (headers_after (ib_hash blk) headers). split_and!; try done; [|lia|].
    - apply Htree; [by apply Hc'|done|done|lia|done].
    - intros ->. unfold headers_after. by case_decide. }
  unfold insertion, after_insertion in Hins.
  case_decide as H1; [|case_decide as H2; [case_decide as H3|]]; destruct Hins as (c' & E & Hc' & Hst); cbn [is_ok] in Hc', Hst.
  - eapply Hdone; [exact E|exact Hc'|exact Hst| | |]; rewrite ?length_app; cbn; [by rewrite lookup_app_l by lia|lia|lia].
  - eapply Hdone; [exact E|exact Hc'|exact Hst| | |]; rewrite ?length_app, ?length_take; cbn [length]; [|lia|lia].
    rewrite lookup_app_l by (rewrite length_take; lia). by rewrite lookup_take_lt by lia.
  - eapply Hdone; [exact E|exact Hc'|exact Hst|done|lia|lia].
  - exists (Err AncientFork), c', hs, headers. split_and!; try done; [|lia]. by eapply tree_unchanged.
Qed.

(** A store that has its genesis block only. *)
Lemma genesis_tree s g : state_inv s [ib_hash g] → (∀ h b, v_block (db_view s) h = Some b → h = ib_hash g ∧ b = block_of g) →
  tree_ok s (ib_hash g) [ib_hash g].
Proof.
  intros Hs Honly. split; [done|done| |].
  - intros h [b Hb]. destruct (Honly h b Hb) as [-> _]. exists 0%nat. constructor.
  - intros h k Hk. assert (h = ib_hash g) as ->.
    { destruct (at_height_stored _ _ _ _ (proj2 Hs) eq_refl _ _ Hk) as [b Hb]. by destruct (Honly h b Hb). }
    rewrite (at_height_genesis _ _ _ _ (proj2 Hs) eq_refl _ Hk). cbn. lia.
Qed.

(** ** What a store has *)

Definition has (s : BlockChainDatabase T) (h : H256) : Prop := v_contains (db_view s) h = true.

Lemma has_stores b s s' h : stores b s s' → has s' h ↔ h = ib_hash b ∨ has s h.
Proof.
  intros Hst. unfold has, v_contains. rewrite !bool_decide_eq_true, Hst. case_decide; [|naive_solver]. split; [by left|by eexists].
Qed.

Lemma has_unchanged s s' h : unchanged s s' → has s' h ↔ has s h.
Proof. intros (_ & _ & E). unfold has. by rewrite E. Qed.

(** The block under a hash, when another is stored or nothing is. *)
Lemma block_stores b s s' h : stores b s s' →
  v_block (db_view s') h = if decide (h = ib_hash b) then Some (block_of b) else v_block (db_view s) h.
Proof. intros Hst. unfold v_block. rewrite Hst. by case_decide. Qed.

Lemma block_unchanged s s' h : unchanged s s' → v_block (db_view s') h = v_block (db_view s) h.
Proof. intros (_ & _ & E). by rewrite E. Qed.

(** The assertion of the verifier on a database that holds a chain. *)
Lemma store_of_best (d : BlockChainDatabase T) chain : state_inv d chain → chain ≠ [] →
  Some (bb_hash (cs_best_block (store_of d))) = cs_block_hash (store_of d) (bb_number (cs_best_block (store_of d))).
Proof.
  intros [Hv Hi] Hne. cbn. unfold read_of.
  destruct (reads_block_hash (bb_number (bc_best_block d)) d Hv) as (d' & -> & _).
  rewrite (ci_best _ _ _ Hi). destruct chain as [|h chain _] using rev_ind; [done|]. rewrite best_of_snoc. cbn.
  by rewrite (ci_hash_nat _ _ _ _ Hi), lookup_app_r, Nat.sub_diag by lia.
Qed.

Lemma tree_best s g hs : tree_ok s g hs →
  Some (bb_hash (cs_best_block (store_of s))) = cs_block_hash (store_of s) (bb_number (cs_best_block (store_of s))).
Proof. intros Ht. eapply store_of_best; [apply Ht|]. intros ->. by pose proof (tk_genesis _ _ _ Ht). Qed.
End insertion.
