(* ===== verification/Judge.v ===== *)
(** * How the verifier judges a block on a store

    The headers a provider of the database reads are those of a chain, so that
    the consensus rules find every header they look for: verification of a block
    answers, or panics for one of four reasons that are named. *)

From S2P Require Import Prelude External Primitives Serialization Compact Crypto Chain.
From S2P Require Import Vdf Storage Network Work Verification Miner Kv KvRefine BlockChainDb ChainInv ChainOps.
From S2P Require Import HashQueue HeadersChain SyncChain SyncOps SpeedMeter Collections OrphanPool Writer Tree.
From stdpp Require Import gmap.
#[local] Open Scope Z_scope.

(** ** Headers of a chain *)

Section provided.
Context {V : VrfOps}.

(** The provider has the headers of the chain under their numbers and hashes. *)
Definition provides (p : BlockHeaderProvider) (chain : list H256) : Prop :=
  ∀ i h, chain !! i = Some h → ∃ x, provider_header p (RefNumber (Z.of_nat i)) = Some x ∧
    provider_header p (RefHash h) = Some x ∧ previous_header_hash (ih_raw x) = parent_in chain i.

(** The ancestors of a block of the chain, down to the first. *)
Lemma provides_path p chain i h : provides p chain → chain !! i = Some h →
  ∃ x hs, provider_header p (RefHash h) = Some x ∧ ancestor_path p h (x :: hs) ∧ length hs = i.
Proof.
  intros Hp. revert h. induction i as [|i IH]; intros h Hh; destruct (Hp _ _ Hh) as (x & _ & Hx & Epar).
  - by exists x, [].
  - cbn in Epar. destruct (chain !! i) as [h'|] eqn:Hh'.
    + destruct (IH h' eq_refl) as (y & hs & Hy & Hpath & Hl). exists x, (y :: hs). cbn in Epar. cbn [ancestor_path length].
      rewrite Epar, Hl. done.
    + apply lookup_ge_None in Hh'. apply lookup_lt_Some in Hh. lia.
Qed.
End provided.

Section reading.
Context {V : VrfOps} {R : RugOps} {P : Profile}.
Context {T : Type} {K : KeyValueDatabase T} {KS : KvSpec T}.

Lemma header_of_view (d : BlockChainDatabase T) r : db_valid d → provider_header (db_header_provider d) r = v_header (db_view d) r.
Proof. intros Hv. cbn. unfold read_of. by destruct (reads_db_block_header r d Hv) as (d' & -> & _). Qed.

Lemma database_provides (d : BlockChainDatabase T) chain : state_inv d chain → provides (db_header_provider d) chain.
Proof.
  intros [Hv Hi] i h Hh. destruct (ci_link _ _ _ Hi _ _ Hh) as (b & Hb & Hpar). exists (mkIndexedBlockHeader h (block_header b)).
  rewrite !header_of_view by done. split_and!; [|by apply v_header_hash|done].
  rewrite <-(v_header_hash _ _ _ Hb). unfold v_header, v_stored. cbn [v_resolve]. by rewrite (ci_hash_nat _ _ _ _ Hi), Hh.
Qed.
End reading.

(** ** Required work *)

Section work.
Context {U : U256Ops} {UL : U256Laws U} {V : VrfOps} {P : Profile}.

(** The arithmetic of the required work overflows: at a retarget height the
    product of the parent's target and the time of the interval is too large; on
    the test network, in a build with overflow checks, twenty minutes after the
    parent's time are past the end of the 32-bit clock. *)
Definition work_overflows (network : Network) (headers : BlockHeaderProvider) (parent_hash : H256) (height : Z) : Prop :=
  ∃ parent, provider_header headers (RefHash parent_hash) = Some parent ∧
    if is_retarget_height height then
      ∃ first, provider_header headers (RefNumber (height - RETARGETING_INTERVAL)) = Some first ∧
        let target := u256_of_compact (bits (ih_raw parent)) in
        let timespan := retarget_timespan (time (ih_raw first)) (time (ih_raw parent)) in
        2 ^ 256 ≤ target * timespan ∧ u256_mul target timespan = None
    else network = Testnet ∧ overflow_checks = true ∧ ¬ u32 (time (ih_raw parent) + DOUBLE_SPACING_SECONDS).

Lemma u32_add_none a b : u32_add a b = None ↔ overflow_checks = true ∧ ¬ u32 (a + b).
Proof.
  unfold u32_add, u32_result. destruct (bool_decide_reflect (u32 (a + b))); [naive_solver|]. destruct overflow_checks; naive_solver.
Qed.

Lemma timespan_fits a b : fits 256 (retarget_timespan a b).
Proof.
  unfold retarget_timespan. pose proof (Z.mod_pos_bound (range_constrain (b - a) MIN_TIMESPAN MAX_TIMESPAN) (2 ^ 32) ltac:(lia)).
  unfold fits, wrap. lia.
Qed.

Lemma retarget_none parent first height headers maxc : RETARGETING_INTERVAL ≤ height → u32 height →
  provider_header headers (RefNumber (height - RETARGETING_INTERVAL)) = Some first →
  work_required_retarget parent height headers maxc = None ↔
  let target := u256_of_compact (bits (ih_raw parent)) in
  let timespan := retarget_timespan (time (ih_raw first)) (time (ih_raw parent)) in
  2 ^ 256 ≤ target * timespan ∧ u256_mul target timespan = None.
Proof.
  intros Hh Hfit Hfirst. unfold work_required_retarget. change RETARGETING_INTERVAL with 2016 in *.
  rewrite u32_sub_fits by (unfold fits in *; lia). cbn [mbind option_bind]. rewrite Hfirst. cbn [mbind option_bind]. cbv zeta.
  set (target := u256_of_compact (bits (ih_raw parent))). set (ts := retarget_timespan _ _).
  pose proof (u256_of_compact_fits (bits (ih_raw parent))) as Ht. fold target in Ht.
  pose proof (timespan_fits (time (ih_raw first)) (time (ih_raw parent))) as Hts. fold ts in Hts.
  destruct (u256_mul target ts) as [z|] eqn:E; cbn [mbind option_bind].
  - split; [|by intros [_ ?]]. intros Hn. exfalso. pose proof (u256_mul_range _ _ _ Ht Hts E) as Hz.
    rewrite u256_div_spec in Hn by (try done; change TARGET_TIMESPAN_SECONDS with 1209600; unfold fits; lia). cbn [mbind option_bind] in Hn.
    destruct (_ <? _) in Hn; [done|]. destruct (from_u256_rounds (z / TARGET_TIMESPAN_SECONDS)) as (c & w & Ec & _); [|by rewrite Ec in Hn].
    change TARGET_TIMESPAN_SECONDS with 1209600. unfold fits in *. split; [apply Z.div_pos; lia|apply Z.div_lt_upper_bound; lia].
  - split; [|done]. intros _. split; [|done]. destruct (Z.le_gt_cases (2 ^ 256) (target * ts)) as [?|Hlt]; [done|].
    by rewrite u256_mul_exact in E.
Qed.

Lemma testnet_none headers chain parent_hash parent t : provides headers chain → last chain = Some parent_hash →
  Z.of_nat (length chain) < 2 ^ 32 → provider_header headers (RefHash parent_hash) = Some parent →
  work_required_testnet parent_hash t (Z.of_nat (length chain)) headers Testnet = None ↔
  overflow_checks = true ∧ ¬ u32 (time (ih_raw parent) + DOUBLE_SPACING_SECONDS).
Proof.
  intros Hp Hlast Hlen Hparent. rewrite <-u32_add_none. unfold work_required_testnet.
  rewrite last_lookup in Hlast. pose proof (lookup_lt_Some _ _ _ Hlast) as Hlt.
  rewrite (proj2 (Z.eqb_neq _ 0)) by lia. cbn [negb rust_assert mbind option_bind]. rewrite Hparent. cbn [mbind option_bind].
  destruct (u32_add _ DOUBLE_SPACING_SECONDS) as [gap|]; cbn [mbind option_bind]; [|done]. split; [|done]. intros Hn. exfalso.
  destruct (max_bits_packed Testnet) as (m & c & w & Em & Ec & _). rewrite Em in Hn. cbn [mbind option_bind] in Hn. rewrite Ec in Hn.
  cbn [mbind option_bind] in Hn. destruct (gap <? t); [done|].
  destruct (provides_path headers chain _ _ Hp Hlast) as (x & hs & _ & Hpath & Hl).
  destruct (collect_bits_path headers parent_hash (x :: hs) (Z.to_nat RETARGETING_INTERVAL) Hpath) as [rest Er]. rewrite Er in Hn.
  destruct (retarget_height_near (Z.of_nat (length chain))) as (Hk & Hk' & Hr); [lia|].
  set (k := Z.to_nat ((Z.of_nat (length chain) - 1) mod RETARGETING_INTERVAL)) in *.
  destruct (find_bits_stops (take (Z.to_nat RETARGETING_INTERVAL) ((λ x, bits (ih_raw x)) <$> x :: hs) ++ rest) 0 (Z.of_nat (length chain)) c k)
    as (i & b & _ & _ & Hf & _); [done|unfold fits; lia|lia| |done|by rewrite Hf in Hn].
  rewrite length_app, length_take, length_fmap. cbn [length]. lia.
Qed.

Lemma work_required_none network headers chain parent_hash t : provides headers chain → last chain = Some parent_hash →
  Z.of_nat (length chain) < 2 ^ 32 →
  work_required parent_hash t (Z.of_nat (length chain)) headers network = None ↔
  work_overflows network headers parent_hash (Z.of_nat (length chain)).
Proof.
  intros Hp Hlast Hlen. unfold work_required, work_overflows.
  destruct (max_bits_packed network) as (m & c & w & Em & Ec & _). rewrite Em. cbn [mbind option_bind]. rewrite Ec. cbn [mbind option_bind].
  pose proof Hlast as Hlk. rewrite last_lookup in Hlk. pose proof (lookup_lt_Some _ _ _ Hlk) as Hlt.
  rewrite (proj2 (Z.eqb_neq _ 0)) by lia. destruct (Hp _ _ Hlk) as (parent & _ & Hparent & _). rewrite Hparent. cbn [mbind option_bind].
  assert (∀ Q : IndexedBlockHeader → Prop, (∃ x, Some parent = Some x ∧ Q x) ↔ Q parent) as Hex.
  { intros Q. split; [by intros (x & [= <-] & ?)|by exists parent]. }
  rewrite Hex. destruct (is_retarget_height _) eqn:Er.
  - assert (RETARGETING_INTERVAL ≤ Z.of_nat (length chain)) as Hge.
    { unfold is_retarget_height in Er. apply Z.eqb_eq in Er. change RETARGETING_INTERVAL with 2016 in *.
      pose proof (Z.div_mod (Z.of_nat (length chain)) 2016 ltac:(lia)). pose proof (Z.div_pos (Z.of_nat (length chain)) 2016). lia. }
    destruct (lookup_lt_is_Some_2 chain (length chain - Z.to_nat RETARGETING_INTERVAL)) as [h Hh].
    { change RETARGETING_INTERVAL with 2016 in *. lia. }
    destruct (Hp _ _ Hh) as (first & Hfirst & _).
    replace (Z.of_nat (length chain - Z.to_nat RETARGETING_INTERVAL)) with (Z.of_nat (length chain) - RETARGETING_INTERVAL) in Hfirst
      by (change RETARGETING_INTERVAL with 2016 in *; lia).
    rewrite (retarget_none parent first) by (try done; unfold fits; lia). rewrite Hfirst. split; [by exists first|]. by intros (x & [= <-] & ?).
  - destruct (decide (network = Testnet)) as [->|Hne]; [|naive_solver].
    rewrite (testnet_none headers chain parent_hash parent) by done. naive_solver.
Qed.
End work.

(** ** Verification *)

Section judge.
Context {U : U256Ops} {UL : U256Laws U} {R : RugOps} {RL : RugLaws R} {H : Sha256Ops} {V : VrfOps} {P : Profile}.
Context {T : Type} {K : KeyValueDatabase T} {KS : KvSpec T}.
Context (network : Network).
Implicit Types d : BlockChainDatabase T.

(** The rules a block met at the time [now], in the chain or fork of the store
    [d] it extends. *)
Definition judged d (now : Z) (b : IndexedBlock) : Prop :=
  valid_alone network (wrap 32 now) b ∧ ∃ origin headers height, cs_block_origin (store_of d) (ib_header b) = Ok origin ∧
    judged_in (store_of d) origin = Some (headers, height) ∧ valid_child network headers height b.

Lemma accepted_judged d root chain now level b : tree_ok d root chain → level ≠ NoVerification →
  verify_block (store_of d) network now level b = Some (Ok tt) ↔ judged d now b.
Proof. intros Ht Hl. apply verify_block_ok_iff; [done|by eapply tree_best]. Qed.

(** Its proof and its work are right. *)
Definition valid_work (b : IndexedBlock) : Prop :=
  let raw := ih_raw (ib_header b) in
  verify (h_g b) (randomness raw) (iterations raw) (ib_proof b) = Some true ∧
  ∃ m maxc maximum target,
    max_bits network = Some m ∧ from_u256 m = Some maxc ∧ to_u256 maxc = Ok maximum ∧ to_u256 (bits raw) = Ok target ∧
    le_val (hash_bytes (ih_hash (ib_header b))) ≤ target ≤ maximum.

(** Why verification of a block panics, at the time [now] on the store [d]: the
    two hours after now are past the 32-bit clock (in a build with overflow
    checks); or the block is valid on its own and is stored already
    ([unreachable!]); or the work required of it overflows. *)
Definition verification_panics d (now : Z) (b : IndexedBlock) : Prop :=
  valid_work b ∧ overflow_checks = true ∧ ¬ u32 (wrap 32 now + BLOCK_MAX_FUTURE) ∨
  valid_alone network (wrap 32 now) b ∧ has d (ib_hash b) ∨
  valid_alone network (wrap 32 now) b ∧ ∃ origin headers height, cs_block_origin (store_of d) (ib_header b) = Ok origin ∧
    judged_in (store_of d) origin = Some (headers, height) ∧ work_overflows network headers (ib_parent b) height.

(** *** The headers a block is judged against *)

Lemma origin_provides d root chain b origin : tree_ok d root chain → Z.of_nat (length chain) + 1 < 2 ^ 32 →
  cs_block_origin (store_of d) (ib_header b) = Ok origin →
  origin = KnownBlock ∧ has d (ib_hash b) ∨ ¬ has d (ib_hash b) ∧ ∃ headers chain', judged_in (store_of d) origin = Some (headers, Z.of_nat (length chain')) ∧
    provides headers chain' ∧ last chain' = Some (ib_parent b) ∧ Z.of_nat (length chain') < 2 ^ 32.
Proof.
  intros Ht Hlen Ho. pose proof Ht as [Hs Hg Hroot Hlong]. assert (chain ≠ []) as Hne by (by intros ->). cbn in Ho. unfold read_of in Ho.
  destruct (block_origin_checks d chain (ib_header b) Hs ltac:(lia) Hne) as (d1 & _ & E).
  change (ih_hash (ib_header b)) with (ib_hash b) in E. change (previous_header_hash (ih_raw (ib_header b))) with (ib_parent b) in E.
  destruct (v_contains (db_view d) (ib_hash b)) eqn:Hk.
  { rewrite E in Ho. injection Ho as <-. by left. }
  right. split; [unfold has; by rewrite Hk|]. destruct (hash_eq _ _) eqn:Eb.
  { rewrite E in Ho. injection Ho as <-. apply hash_eq_true in Eb. exists (db_header_provider d), chain. split_and!; [done|by apply database_provides| |lia].
    rewrite <-Eb, (ci_best _ _ _ (proj2 Hs)). destruct chain as [|h l _] using rev_ind; [done|]. by rewrite last_snoc, best_of_snoc. }
  destruct (v_contains (db_view d) (ib_parent b)) eqn:Hp; [|by rewrite E in Ho]. cbn [negb] in E. clear E.
  pose proof Hp as Hp'. apply (v_contains_block _ _ _ Hs) in Hp'. destruct (Hroot _ Hp') as [n Hn]. pose proof (Hlong _ _ Hn) as Hlt.
  destruct (branch_of _ _ _ _ (proj2 Hs) Hg _ _ Hn) as (a & anc & route & Ha & Hl & Hr & Htip & Ea).
  destruct (block_origin_side d chain (ib_header b) a anc route Hs ltac:(lia) Hne Hk Hp Ha Hl Hr ltac:(lia) Htip) as (d' & E & _).
  rewrite E in Ho. clear E. change (previous_header_hash (ih_raw (ib_header b))) with (ib_parent b) in Ho.
  rewrite decide_False in Ho by (intros Ebp; symmetry in Ebp; apply hash_eq_true in Ebp; congruence).
  case_decide as Hroute; [|done]. injection Ho as <-.
  destruct (fork_spec d chain a anc route Hs Ha Hl ltac:(lia)) as (f & Ef & Hf & _). pose proof (lookup_lt_Some _ _ _ Ha) as Halt.
  exists (db_header_provider (fork_blockchain T f)), (take (S a) chain ++ route).
  assert (Z.of_nat (length (take (S a) chain ++ route)) = Z.of_nat (a + length route + 1)) as El by (rewrite length_app, length_take; lia).
  split_and!; [|by apply database_provides| |lia].
  - rewrite El. unfold judged_in, side_origin. cbv zeta. fold (side_chain_of a route chain). destruct (_ <? _); cbn [cs_fork store_of]; by rewrite Ef.
  - rewrite Htip, (take_S_r _ _ _ Ha). destruct route as [|x l _] using rev_ind; [by rewrite app_nil_r, last_snoc|].
    by rewrite app_assoc, last_snoc, tip_snoc.
Qed.

(** *** When it panics *)

Lemma chain_verifier_panics b now cv : chain_verifier_new b network now = Some cv →
  chain_verifier_check cv = None ↔ valid_work b ∧ overflow_checks = true ∧ ¬ u32 (now + BLOCK_MAX_FUTURE).
Proof.
  rewrite <-u32_add_none. unfold chain_verifier_new, header_verifier_new, header_pow_new, valid_work.
  destruct (max_bits network) as [m|]; [|done]. cbn [mbind option_bind]. destruct (from_u256 m) as [maxc|] eqn:Ec; [|done]. intros [= <-].
  unfold chain_verifier_check, block_verifier_check, block_vdf_check. cbn [cv_block cv_header].
  destruct (verify_total (h_g b) (randomness (ih_raw (ib_header b))) (iterations (ih_raw (ib_header b))) (ib_proof b)) as [ok Ev].
  rewrite Ev. cbn [mbind option_bind]. destruct ok; cbn [then_check]; [|naive_solver].
  unfold header_verifier_check, header_pow_check, header_timestamp_check.
  cbn [hv_proof_of_work hv_timestamp hpow_max_work_bits hpow_header ht_header ht_current_time ht_max_future].
  change (wrap 32 BLOCK_MAX_FUTURE) with BLOCK_MAX_FUTURE.
  destruct (is_valid_proof_of_work _ _ _) eqn:Ep; cbn [then_check].
  - apply is_valid_pow_iff in Ep as (maximum & target & E1 & E2 & Hle). destruct (u32_add now BLOCK_MAX_FUTURE) as [limit|]; cbn [mbind option_bind].
    + split; [|naive_solver]. by destruct (limit <? _).
    + split; [|done]. intros _. split; [|done]. split; [done|]. by exists m, maxc, maximum, target.
  - split; [done|]. intros [(_ & m' & maxc' & maximum & target & [= <-] & Ec' & E1 & E2 & Hle) _]. rewrite Ec in Ec'. injection Ec' as <-.
    assert (is_valid_proof_of_work maxc (bits (ih_raw (ib_header b))) (ih_hash (ib_header b)) = true) as E by (apply is_valid_pow_iff; by exists maximum, target).
    congruence.
Qed.

Lemma chain_acceptor_panics headers height b :
  chain_acceptor_check headers network b height = None ↔
  work_required (ib_parent b) (time (ih_raw (ib_header b))) height headers network = None.
Proof.
  unfold chain_acceptor_check, header_acceptor_check, block_acceptor_check, header_version_check, header_work_check, header_median_check.
  cbn [then_check]. change (previous_header_hash (ih_raw (ib_header b))) with (ib_parent b).
  destruct (work_required _ _ _ _ _); cbn [mbind option_bind then_check]; [|done]. by repeat case_match.
Qed.

Lemma then_check_none a b : then_check a b = None ↔ a = None ∨ a = Some (Ok tt) ∧ b = None.
Proof. destruct a as [[[]|]|]; cbn; naive_solver. Qed.

(** On a store with a tree of blocks, verification panics for these reasons and
    no other. *)
Lemma verify_block_panics d root chain now level b : tree_ok d root chain → Z.of_nat (length chain) + 1 < 2 ^ 32 → level ≠ NoVerification →
  verify_block (store_of d) network now level b = None ↔ verification_panics d now b.
Proof.
  intros Ht Hlen Hl. unfold verify_block, verification_panics. rewrite decide_False by done.
  destruct (chain_verifier_new_some b network (wrap 32 now)) as [cv Ecv]. rewrite Ecv. cbn [mbind option_bind].
  rewrite then_check_none, (chain_verifier_panics _ _ _ Ecv), (chain_verifier_check_ok _ _ _ _ Ecv).
  apply or_iff_compat_l. assert (∀ A B C : Prop, (A ∧ B ∨ A ∧ C) ↔ A ∧ (B ∨ C)) as -> by tauto. apply and_iff_compat_l.
  unfold best_block_assert. rewrite bool_decide_true by (by eapply tree_best). cbn [rust_assert mbind option_bind].
  destruct (cs_block_origin (store_of d) (ib_header b)) as [origin|e] eqn:Ho.
  - rewrite then_check_none.
    transitivity (accept_by_origin (store_of d) network b origin = None); [naive_solver|].
    destruct (origin_provides d root chain b origin Ht Hlen Ho) as [[-> Hhas]|(Hnew & headers & chain' & Hj & Hp & Hlast & Hl')].
    { cbn. split; [by left|done]. }
    assert (accept_by_origin (store_of d) network b origin = chain_acceptor_check headers network b (Z.of_nat (length chain'))) as ->.
    { unfold judged_in in Hj. unfold accept_by_origin. destruct origin as [|n|o|o]; [done|by injection Hj as <- <-| |];
        (destruct (cs_fork (store_of d) o); [by injection Hj as <- <-|done]). }
    rewrite chain_acceptor_panics, (work_required_none network headers chain') by done. split.
    + intros Hw. right. by exists origin, headers, (Z.of_nat (length chain')).
    + intros [?|(origin' & headers' & height & [= <-] & Hj' & Hw)]; [done|]. rewrite Hj in Hj'. by injection Hj' as <- <-.
  - split; [done|]. intros [Hhas|(? & ? & ? & ? & _)]; [|done]. exfalso. pose proof Ht as [Hs Hg _ _]. assert (chain ≠ []) as Hne by (by intros ->).
    destruct (block_origin_checks d chain (ib_header b) Hs ltac:(lia) Hne) as (d1 & _ & E).
    change (ih_hash (ib_header b)) with (ib_hash b) in E. rewrite Hhas in E. cbn in Ho. unfold read_of in Ho. by rewrite E in Ho.
Qed.

(** C27: why verification panics.  On a store with a tree of blocks, with room for
    one more 32-bit block number, and at a level that verifies, [verify_block]
    panics exactly when the block's proof and work are right and, in a build with
    overflow checks, two hours after now are past the end of the 32-bit clock, or
    when the block is valid on its own and is stored already, or the work required
    of it in the chain or fork it extends overflows: at a retarget height the
    product of the parent's target and the time of the interval does not fit 256
    bits, or on the test network, with overflow checks, the parent's time plus
    twenty minutes does not fit 32 bits.  In every other case it answers: no
    header is missed and no assertion fails. *)
Theorem verification_panics_exactly d root chain now level b : tree_ok d root chain → Z.of_nat (length chain) + 1 < 2 ^ 32 →
  level ≠ NoVerification → verify_block (store_of d) network now level b = None ↔ verification_panics d now b.
Proof. apply verify_block_panics. Qed.

(** The template of the next block is made unless the work required of it
    overflows. *)
Lemma create_new_block_panics d root chain t : tree_ok d root chain → Z.of_nat (length chain) < 2 ^ 32 →
  create_new_block (store_of d) t network = None ↔
  work_overflows network (db_header_provider d) (bb_hash (bc_best_block d)) (bb_number (bc_best_block d) + 1).
Proof.
  intros [Hs Hg _ _] Hlen. assert (chain ≠ []) as Hne by (by intros ->). unfold create_new_block. cbn [cs_best_block store_of cs_header_provider].
  assert (bb_number (bc_best_block d) + 1 = Z.of_nat (length chain) ∧ last chain = Some (bb_hash (bc_best_block d))) as [En El].
  { rewrite (ci_best _ _ _ (proj2 Hs)). destruct chain as [|h l _] using rev_ind; [done|]. rewrite best_of_snoc, last_snoc, length_app. cbn. split; [lia|done]. }
  rewrite u32_add_fits by (rewrite En; unfold fits; lia). cbn [mbind option_bind]. rewrite En.
  rewrite <-(work_required_none network (db_header_provider d) chain (bb_hash (bc_best_block d)) t (database_provides d chain Hs) El Hlen).
  destruct (work_required _ _ _ _ _); [done|done].
Qed.
End judge.

(** ** A parent at the end of the clock *)

Section judge_example.
Import Reference.
#[local] Existing Instance flat_sha_ops | 0.
#[local] Instance checked_judge : Profile := true.

(** A genesis block of the last second, and its child. *)
Definition late_genesis : IndexedBlock :=
  mkIndexedBlock (mkIndexedBlockHeader ex_h0 (mkBlockHeader 1 hash_default (2 ^ 32 - 1) (mkCompact 0x207fffff) example_key 1 0)) [].

Definition late_store : BlockChainDatabase MemoryDatabase := default ex_opened (init_test_chain [late_genesis]).

Definition late_child : IndexedBlock :=
  indexed_block_from_raw (mkBlock (mkBlockHeader 1 ex_h0 2000 (mkCompact 0x207fffff) example_key 1 0) []).

Lemma late_tree : tree_ok late_store ex_h0 [ex_h0].
Proof.
  assert (state_inv ex_opened []) as H0 by (split; [exact I|]; apply empty_chain; intros k; by destruct k).
  destruct (insert_spec ex_opened [] late_genesis H0 (proj1 ex_hashes)) as (s1 & Hins). cbv zeta in Hins.
  change (v_contains (db_view ex_opened) (ib_hash late_genesis)) with false in Hins. cbv iota in Hins.
  change (parent_of (block_of late_genesis)) with (hash_default : H256) in Hins.
  rewrite (proj2 (is_zero_default hash_default)), andb_false_r in Hins by done. destruct Hins as (E1 & Hs1 & Ev1).
  assert (∀ h, v_block (db_view s1) h = if decide (h = ex_h0) then Some (block_of late_genesis) else None) as Hb.
  { intros h. unfold v_block. rewrite Ev1. change (ib_hash late_genesis) with ex_h0. by repeat case_decide; simplify_eq. }
  destruct (canonize_ok s1 [] ex_h0 (block_of late_genesis) Hs1) as (s2 & E2 & Hs2 & Hb2); [by rewrite Hb, decide_True| |done|].
  { rewrite (ci_best _ _ _ (proj2 Hs1)), best_of_nil. done. }
  assert (late_store = s2) as ->.
  { unfold late_store, init_test_chain. change (open memory_default) with (Some ex_opened). cbn [mbind option_bind foldl]. rewrite E1.
    cbn [mbind option_bind is_ok rust_assert]. change (ib_hash late_genesis) with ex_h0. by rewrite E2. }
  apply (genesis_tree s2 late_genesis Hs2). intros h b. unfold v_block. rewrite Hb2. fold (v_block (db_view s1) h). rewrite Hb.
  case_decide; [by intros [= <-]|done].
Qed.

Lemma verification_panics_exactly_witness :
  verify_block (store_of late_store) Testnet 2000 Full late_child = None ∧ verification_panics Testnet late_store 2000 late_child.
Proof.
  assert (verify_block (store_of late_store) Testnet 2000 Full late_child = None) as E by (vm_compute; reflexivity).
  split; [exact E|]. apply (verification_panics_exactly Testnet late_store ex_h0 [ex_h0] 2000 Full late_child late_tree); [reflexivity|discriminate|exact E].
Defined.

(** A block of height 2016 whose parent has the easiest target. *)
Lemma easiest_target_overflows :
  work_required_retarget (example_indexed (mkCompact 0x207fffff) 1512000) 2016
    (single_provider hash_default 0 (example_indexed (mkCompact 0x207fffff) 0)) (mkCompact 0x207fffff) = None.
Proof. vm_compute. reflexivity. Qed.
End judge_example.
