(* ===== verification/WriterSafe.v ===== *)
(** * What the writer stores

    Importing blocks stores exactly those that are connected to the store, in
    whatever order they come, or stops where verification panics. *)

From S2P Require Import Prelude External Primitives Serialization Compact Crypto Chain.
From S2P Require Import Storage Network Work Verification Kv KvRefine BlockChainDb ChainInv ChainOps.
From S2P Require Import HashQueue HeadersChain SyncChain SyncOps.
From S2P Require Import SpeedMeter Collections OrphanPool Writer Tree Judge.
From stdpp Require Import gmap.
#[local] Open Scope Z_scope.

(** ** The writer *)

Section writer.
Context {U : U256Ops} {UL : U256Laws U} {R : RugOps} {RL : RugLaws R} {H : Sha256Ops} {V : VrfOps} {P : Profile}.
Context {T : Type} {K : KeyValueDatabase T} {KS : KvSpec T}.
Context {M : Type → Type} {L : LinkedHashMap H256 M} {LL : LinkedHashMapLaws H256 M} {OH : HashOrder H256}.
Context (network : Network) (get_time : nat → Z) (params : VerificationParameters).

Abbreviation Writer := (BlocksWriter (T:=T) (M:=M)).

Definition writer_store (w : Writer) : BlockChainDatabase T := sc_storage (bw_chain w).

(** Blocks whose hashes do not collide, none of them zero. *)
Definition consistent (blocks : list IndexedBlock) : Prop :=
  (∀ b b', b ∈ blocks → b' ∈ blocks → ib_hash b = ib_hash b' → b = b') ∧ ∀ b, b ∈ blocks → ib_hash b ≠ hash_default.

(** The blocks that hang on the store. *)
Inductive connected (s : BlockChainDatabase T) (blocks : list IndexedBlock) : IndexedBlock → Prop :=
| connected_base b : b ∈ blocks → has s (ib_parent b) → connected s blocks b
| connected_step b b' : b ∈ blocks → connected s blocks b' → ib_parent b = ib_hash b' → connected s blocks b.

Lemma connected_in s blocks b : connected s blocks b → b ∈ blocks.
Proof. by destruct 1. Qed.

(** The import starts on the store [s], with the genesis block [g]. *)
Context (s : BlockChainDatabase T) (g : H256) (all : list IndexedBlock) (Hall : consistent all).

(** A store of the import has what the store had at the start, and blocks that
    hang on it. *)
Definition extends (d : BlockChainDatabase T) : Prop :=
  (∀ h, has s h → has d h) ∧ ∀ h, has d h → has s h ∨ ∃ b, connected s all b ∧ ib_hash b = h.

Lemma extends_connected d b : extends d → b ∈ all → has d (ib_parent b) → connected s all b.
Proof.
  intros [_ He] Hb Hp. destruct (He _ Hp) as [?|(b' & Hb' & E)]; [by apply connected_base|]. by eapply connected_step.
Qed.

(** A block met the rules, if the verifier has any, on an earlier store of the
    import: one that had no block [later] has not. *)
Definition stands (later : BlockChainDatabase T) (b : IndexedBlock) : Prop :=
  verification_level params ≠ NoVerification →
  ∃ d chain k, tree_ok d g chain ∧ extends d ∧ (∀ h, has d h → has later h) ∧ has d (ib_parent b) ∧ ¬ has d (ib_hash b) ∧
    judged network d (get_time k) b.

(** Verification of a block that hangs on the store panics, on a store of the
    import. *)
Definition import_panics : Prop :=
  ∃ d chain k b, tree_ok d g chain ∧ extends d ∧ connected s all b ∧ has d (ib_parent b) ∧ ¬ has d (ib_hash b) ∧
    verification_panics network d (get_time k) b.

Record core_ok (w : Writer) (hs : list H256) : Prop := {
  ko_sync : sync_inv (bw_chain w) hs [[]; []; []] [];
  ko_tree : tree_ok (writer_store w) g hs;
  ko_err : bw_err w = None;
  ko_params : cw_params (bw_verifier w) = params;
  ko_extends : extends (writer_store w);
  ko_kept h blk : v_block (db_view s) h = Some blk → v_block (db_view (writer_store w)) h = Some blk;
  ko_valid h blk : v_block (db_view (writer_store w)) h = Some blk → v_block (db_view s) h = Some blk ∨
    ∃ b, connected s all b ∧ ib_hash b = h ∧ block_of b = blk ∧ stands (writer_store w) b;
}.

Lemma stands_later d d' b : stands d b → (∀ h, has d h → has d' h) → stands d' b.
Proof. intros Hst Hd Hl. destruct (Hst Hl) as (d0 & chain & k & ? & ? & Hsub & ? & ? & ?). exists d0, chain, k. split_and!; auto. Qed.

(** Reading leaves all of it. *)
Lemma core_ok_read w w' hs hs' : core_ok w hs → unchanged (writer_store w) (writer_store w') → sync_inv (bw_chain w') hs' [[]; []; []] [] →
  tree_ok (writer_store w') g hs' → bw_err w' = None → cw_params (bw_verifier w') = params → core_ok w' hs'.
Proof.
  intros [Hs Ht He Hp Hx Hk Hv] Hu Hs' Ht' He' Hp'. split; try done.
  - split; [intros h Hh%Hx; by apply (has_unchanged _ _ _ Hu)|]. intros h Hh%(has_unchanged _ _ _ Hu). by apply Hx.
  - intros h blk. rewrite (block_unchanged _ _ h Hu). apply Hk.
  - intros h blk. rewrite (block_unchanged _ _ h Hu). intros [?|(b & ? & ? & ? & Hst)]%Hv; [by left|right]. exists b. split_and!; try done.
    eapply stands_later; [done|]. intros x. by apply (has_unchanged _ _ _ Hu).
Qed.

Lemma writer_verify_spec w hs b : core_ok w hs → b ∈ all → ¬ has (writer_store w) (ib_hash b) → has (writer_store w) (ib_parent b) →
  Z.of_nat (length hs) + 1 < 2 ^ 32 →
  (∃ r w', writer_verify network get_time b w = Some (r, w') ∧ core_ok w' hs ∧ bw_chain w' = bw_chain w ∧
    orphaned_blocks_pool w' = orphaned_blocks_pool w ∧ (r = Ok tt → stands (writer_store w) b)) ∨
  writer_verify network get_time b w = None ∧ import_panics.
Proof.
  intros Hw Hb Hnew Hpar Hlen. pose proof Hw as [Hs Ht He Hp Hx Hk Hv]. unfold writer_verify, wrapper_verify_block. rewrite Hp.
  set (enforce := hash_eq (ib_hash b) (verification_edge params) || enforce_full_verification (bw_verifier w)).
  set (level := if enforce then Full else verification_level params). fold (writer_store w).
  destruct (verify_block (store_of (writer_store w)) network (get_time (bw_clock w)) level b) as [r|] eqn:E.
  - left. eexists r, _. split; [reflexivity|]. split_and!; try done.
    intros -> Hl. exists (writer_store w), hs, (bw_clock w). split_and!; try done. eapply accepted_judged; [exact Ht| |exact E].
    unfold level. by destruct enforce.
  - right. split; [done|]. exists (writer_store w), hs, (bw_clock w), b. split_and!; try done; [by eapply extends_connected|].
    eapply verify_block_panics; [exact Ht|done| |exact E]. intros El. unfold verify_block in E. rewrite El in E. by rewrite decide_True in E.
Qed.

(** One block of the queue. *)
Lemma write_one w hs b : core_ok w hs → b ∈ all → ¬ has (writer_store w) (ib_hash b) → has (writer_store w) (ib_parent b) →
  Z.of_nat (length hs) + 1 < 2 ^ 32 →
  (∃ w1 e w' hs', sync_verify_block (writer_verify network get_time) writer_on_success writer_on_error b w = Some w1 ∧
    take_error w1 = (e, w') ∧ core_ok w' hs' ∧ orphaned_blocks_pool w' = orphaned_blocks_pool w ∧
    (length hs' ≤ length hs + 1)%nat ∧
    (∀ h, has (writer_store w') h ↔ has (writer_store w) h ∨ e = None ∧ h = ib_hash b)) ∨
  sync_verify_block (writer_verify network get_time) writer_on_success writer_on_error b w = None ∧ import_panics.
Proof.
  intros Hw Hb Hnew Hpar Hlen. unfold sync_verify_block.
  destruct (writer_verify_spec w hs b Hw Hb Hnew Hpar Hlen) as [(r & w2 & E & Hw2 & Echain & Epool & Hacc)|[E Hpanic]];
    rewrite E; cbn [mbind option_bind]; [left|by right].
  pose proof Hw2 as [Hs Ht He Hp Hx Hk Hv]. destruct r as [[]|err].
  - unfold writer_on_success. unfold writer_store in *. rewrite Echain in *.
    destruct (insert_tree (bw_chain w) g hs _ [] b Hs Ht Hlen) as (r & c' & hs' & headers' & Ei & Hs' & Ht' & Hl' & Hh' & Hr');
      [by apply Hall|by apply not_true_is_false|done|]. rewrite Ei. cbn [mbind option_bind]. rewrite Hh' in Hs' by done.
    destruct r as [r|e].
    + eexists _, None, _, hs'. split; [reflexivity|]. split; [unfold take_error; cbn; by rewrite He|].
      assert (∀ h, has (sc_storage c') h ↔ has (sc_storage (bw_chain w)) h ∨ h = ib_hash b) as Hst.
      { intros h. rewrite (has_stores _ _ _ _ Hr'). tauto. }
      split_and!; try done; [|intros h; cbn; rewrite Hst; tauto].
      pose proof (v_contains_none _ _ _ (tk_inv _ _ _ Ht) (not_true_is_false _ Hnew)) as Hnone.
      split; cbn; try done; unfold writer_store; cbn.
      * split; [intros h Hh%Hx; apply Hst; by left|]. intros h [Hh| ->]%Hst; [by apply Hx|]. right. exists b. split; [|done]. by eapply extends_connected.
      * intros h blk Hblk%Hk. rewrite (block_stores _ _ _ h Hr'). case_decide; [congruence|done].
      * intros h blk. rewrite (block_stores _ _ _ h Hr'). case_decide as Eh.
        -- intros [= <-]. right. exists b. split_and!; [by eapply extends_connected|done|done|].
           eapply stands_later; [by apply Hacc|]. intros x Hx'. apply Hst. by left.
        -- intros [?|(b' & ? & ? & ? & Hst')]%Hv; [by left|right]. exists b'. split_and!; try done. eapply stands_later; [done|]. intros x Hx'. apply Hst. by left.
    + destruct Hr' as [-> Hu]. eexists _, (Some _), _, hs'. split; [reflexivity|]. split; [reflexivity|]. split_and!; try done.
      * eapply (core_ok_read w2); [done| |done|done|done|done]. unfold writer_store. cbn. by rewrite Echain.
      * intros h. cbn. rewrite (has_unchanged _ _ _ Hu). naive_solver.
  - eexists _, (Some _), _, hs. split; [reflexivity|]. split; [reflexivity|]. split_and!; try done; [lia|].
    intros h. cbn. unfold writer_store. cbn. rewrite Echain. naive_solver.
Qed.

(** A queue that can be worked off from the front. *)
Definition workable (d : BlockChainDatabase T) (queue : list IndexedBlock) : Prop :=
  (∀ b, b ∈ queue → b ∈ all ∧ ¬ has d (ib_hash b)) ∧ NoDup (ib_hash <$> queue) ∧
  ∀ i b, queue !! i = Some b → has d (ib_parent b) ∨ ∃ j b', (j < i)%nat ∧ queue !! j = Some b' ∧ ib_hash b' = ib_parent b.

Lemma workable_tail d d' b queue : workable d (b :: queue) → (∀ h, has d' h ↔ has d h ∨ h = ib_hash b) → workable d' queue.
Proof.
  intros (Hin & Hnd & Hpar) Hs. cbn in Hnd. apply list.NoDup_cons in Hnd as [Hb Hnd]. split_and!; [|done|].
  - intros x Hx. destruct (Hin x) as [? Hn]; [by right|]. split; [done|]. rewrite Hs. intros [?|E]; [done|].
    apply Hb. rewrite <-E. by apply list_elem_of_fmap_2.
  - intros i x Hx. destruct (Hpar (S i) x Hx) as [Hp|(j & b' & Hj & Hb' & Hp)]; [left; rewrite Hs; by left|].
    destruct j as [|j]; cbn in Hb'; [injection Hb' as ->; left; rewrite Hs; by right|].
    right. exists j, b'. split_and!; [lia|done|done].
Qed.

Lemma write_queue_spec queue w hs : core_ok w hs → workable (writer_store w) queue →
  Z.of_nat (length hs + length queue) < 2 ^ 32 →
  (∃ r w' hs' wrote, write_queue network get_time queue w = Some (r, w') ∧ core_ok w' hs' ∧
    orphaned_blocks_pool w' = orphaned_blocks_pool w ∧ (length hs' ≤ length hs + length queue)%nat ∧
    wrote `prefix_of` queue ∧ (r = Ok tt → wrote = queue) ∧
    (∀ h, has (writer_store w') h ↔ has (writer_store w) h ∨ h ∈ ib_hash <$> wrote)) ∨
  write_queue network get_time queue w = None ∧ import_panics.
Proof.
  revert w hs. induction queue as [|b queue IH]; intros w hs Hw Hq Hlen.
  - left. exists (Ok tt), w, hs, []. split_and!; try done; [cbn; lia|]. intros h. cbn. set_solver.
  - cbn [length] in Hlen. pose proof Hq as (Hin & Hnd & Hpar). destruct (Hin b) as [Hb Hnew]; [left|].
    assert (has (writer_store w) (ib_parent b)) as Hp by (destruct (Hpar O b eq_refl) as [?|(j & ? & ? & _)]; [done|lia]).
    cbn [write_queue]. destruct (write_one w hs b Hw Hb Hnew Hp ltac:(lia)) as [(w1 & e & w2 & hs2 & E1 & E2 & Hw2 & Epool & Hl2 & Hst)|[E1 Hpanic]];
      rewrite E1; cbn [mbind option_bind]; [|by right].
    rewrite E2. destruct e as [e|].
    + left. exists (Err e), w2, hs2, []. split_and!; try done; [cbn; lia|apply prefix_nil|]. intros h. rewrite Hst. cbn. set_solver.
    + destruct (IH w2 hs2 Hw2) as [(r & w' & hs' & wrote & E & Hw' & Epool' & Hl' & Hpre & Hr & Hst')|?]; [| |left|by right].
      { eapply workable_tail; [exact Hq|]. intros h. rewrite Hst. naive_solver. }
      { lia. }
      exists r, w', hs', (b :: wrote). split_and!; try done; [congruence|cbn; lia|by apply prefix_cons|intros Er; by rewrite Hr|].
      intros h. rewrite Hst', Hst. cbn. rewrite elem_of_cons. naive_solver.
Qed.

(** The blocks that wait. *)
Record pool_holds (w : Writer) (waiting : list IndexedBlock) : Prop := {
  ph_filed : orphans_ok (orphaned_blocks (orphaned_blocks_pool w));
  ph_nodup : NoDup waiting;
  ph_in b : b ∈ waiting ↔ in_pool (orphaned_blocks (orphaned_blocks_pool w)) b;
  ph_all b : b ∈ waiting → b ∈ all;
  ph_new b : b ∈ waiting → ¬ has (writer_store w) (ib_hash b) ∧ ¬ has (writer_store w) (ib_parent b);
}.

Lemma writer_contains_spec h w hs : core_ok w hs → ∃ w', writer_contains h w = Some (v_contains (db_view (writer_store w)) h, w') ∧
  core_ok w' hs ∧ orphaned_blocks_pool w' = orphaned_blocks_pool w ∧ db_view (writer_store w') = db_view (writer_store w).
Proof.
  intros Hw. pose proof Hw as [Hs Ht He Hp _ _ _]. unfold writer_contains, on_storage.
  pose proof (reads_contains_block h (sc_storage (bw_chain w)) (proj1 (si_store _ _ _ _ Hs))) as (s' & E & Hu). rewrite E.
  cbn [mbind option_bind]. eexists. split; [reflexivity|]. split_and!; [|done|apply Hu].
  eapply (core_ok_read w); [done|exact Hu|by apply si_read|by eapply tree_unchanged|done|done].
Qed.

Lemma pool_orphan w b waiting : pool_holds w waiting → b ∈ all → ¬ has (writer_store w) (ib_hash b) → ¬ has (writer_store w) (ib_parent b) →
  pool_holds (writer_set_pool (insert_orphaned_block b (orphaned_blocks_pool w)) w) (if decide (b ∈ waiting) then waiting else b :: waiting).
Proof.
  intros [Hok Hnd Hin Hsub Hnew] Hb Hn Hp. destruct (orphaned_blocks_pool w) as [o u] eqn:Eo. cbn [orphaned_blocks] in *.
  assert (∀ x, x ∈ (if decide (b ∈ waiting) then waiting else b :: waiting) ↔ x = b ∨ x ∈ waiting) as Hmem.
  { intros x. case_decide; [|apply elem_of_cons]. split; [by right|]. by intros [->|?]. }
  split; cbn [orphaned_blocks_pool writer_set_pool].
  - by apply insert_orphaned_ok.
  - case_decide; [done|]. by apply list.NoDup_cons.
  - intros x. rewrite Hmem, (insert_orphaned_in b o u x Hok), <-Hin. split; [|naive_solver]. intros [->|Hx]; [by left|].
    destruct (decide (x = b)) as [->|Hne]; [by left|right]. split; [done|]. intros [Hh _]. apply Hne. apply Hall; [by apply Hsub|done|done].
  - intros x [->|Hx]%Hmem; [done|by apply Hsub].
  - intros x [->|Hx]%Hmem; [done|]. by apply Hnew.
Qed.

(** The blocks that waited for [b] are a queue that can be worked off; the
    others keep waiting, whatever is written of it. *)
Lemma pool_take w b waiting : pool_holds w waiting → b ∈ all → ¬ has (writer_store w) (ib_hash b) → has (writer_store w) (ib_parent b) →
  ∃ queue pool rest, remove_blocks_for_parent (ib_hash b) (orphaned_blocks_pool w) = Some (queue, pool) ∧
    workable (writer_store w) (b :: queue) ∧ (∀ x, x ∈ waiting ↔ x ∈ queue ∨ x ∈ rest) ∧ (length queue + length rest = length waiting)%nat ∧
    ∀ w' wrote, orphaned_blocks_pool w' = pool → wrote `prefix_of` b :: queue →
      (∀ h, has (writer_store w') h ↔ has (writer_store w) h ∨ h ∈ ib_hash <$> wrote) → pool_holds w' rest.
Proof.
  intros [Hok Hnd Hin Hsub Hnew] Hb Hn Hp.
  destruct (remove_for_parent_spec (ib_hash b) _ Hok) as (queue & pool & E & Hq & Hqnd & Hpf & Hok' & Hleft & _).
  assert (∀ x, x ∈ queue → x ∈ waiting) as Hqw by (intros x Hx; apply Hin; eapply descends_in; by apply Hq).
  assert (∀ x, x ∈ b :: queue → x ∈ all) as Hqall by (intros x [->|Hx]%elem_of_cons; [done|by apply Hsub, Hqw]).
  assert (b ∉ waiting) as Hbw by (intros Hbw; by apply (Hnew b Hbw)).
  exists queue, pool, (filter (λ x, x ∉ queue) waiting).
  assert (∀ x, x ∈ filter (λ x, x ∉ queue) waiting ↔ x ∈ waiting ∧ x ∉ queue) as Hrest by (intros x; rewrite list_elem_of_filter; tauto).
  split_and!; [done| | | |].
  - split_and!.
    + intros x Hx. split; [by apply Hqall|]. apply elem_of_cons in Hx as [->|Hx]; [done|]. by apply Hnew, Hqw.
    + assert (NoDup (b :: queue)) as Hnd' by (apply list.NoDup_cons; split; [by intros ?%Hqw|done]).
      apply NoDup_fmap_2_strong; [|done]. intros x y Hx Hy. apply Hall; by apply Hqall.
    + intros [|i] x Hx; cbn in Hx; [injection Hx as <-; by left|]. right.
      destruct (Hpf i x Hx) as [Hr%list_elem_of_singleton|(j & b' & Hj & Hb' & Hp')].
      * exists O, b. split_and!; [lia|done|done].
      * exists (S j), b'. split_and!; [lia|done|done].
  - intros x. rewrite Hrest. destruct (decide (x ∈ queue)); naive_solver.
  - rewrite <-length_app. apply Permutation_length, NoDup_Permutation; [|done|].
    + apply list.NoDup_app. split_and!; [done| |by apply NoDup_filter]. intros x Hx [_ ?]%Hrest. done.
    + intros x. rewrite elem_of_app, Hrest. destruct (decide (x ∈ queue)); naive_solver.
  - intros w' wrote Epool Hpre Hst. split; rewrite ?Epool.
    + done.
    + by apply NoDup_filter.
    + intros x. rewrite Hrest, Hleft, Hin. done.
    + intros x [Hx _]%Hrest. by apply Hsub.
    + intros x [Hx Hxq]%Hrest. destruct (Hnew x Hx) as [Hx1 Hx2].
      assert (∀ y, y ∈ wrote → y ∈ b :: queue) as Hwr by (intros y Hy; destruct Hpre as [k ->]; set_solver).
      split; rewrite Hst; (intros [?|(y & Ey & Hy)%list_elem_of_fmap]; [done|]).
      * apply Hwr in Hy as Hy'. assert (x = y) as -> by (apply Hall; [by apply Hsub|by apply Hqall|done]). set_solver.
      * apply Hxq, Hq. apply Hwr, elem_of_cons in Hy as [->|Hy].
        -- apply descends_child; [by apply Hin|done].
        -- eapply descends_step; [by apply Hq|by apply Hin|done].
Qed.

(** One call of [append_block]. *)
Lemma append_block_spec w hs waiting b : core_ok w hs → pool_holds w waiting → b ∈ all →
  Z.of_nat (length hs + length waiting + 1) < 2 ^ 32 →
  (∃ r w' hs' waiting', append_block network get_time b w = Some (r, w') ∧ core_ok w' hs' ∧ pool_holds w' waiting' ∧
    (length hs' + length waiting' ≤ length hs + length waiting + 1)%nat ∧
    (∀ h, has (writer_store w) h → has (writer_store w') h) ∧
    (r = Ok tt → ∀ x, x = b ∨ x ∈ waiting → has (writer_store w') (ib_hash x) ∨ x ∈ waiting')) ∨
  append_block network get_time b w = None ∧ import_panics.
Proof.
  intros Hw Hpool Hb Hlen. unfold append_block.
  destruct (writer_contains_spec (ib_hash b) w hs Hw) as (w1 & -> & Hw1 & Ep1 & Ev1). cbn [mbind option_bind].
  assert (∀ h, has (writer_store w1) h ↔ has (writer_store w) h) as Hst1 by (intros h; unfold has; by rewrite Ev1).
  assert (pool_holds w1 waiting) as Hpool1.
  { destruct Hpool as [? ? ? ? Hn]. split; rewrite ?Ep1; try done. intros x. rewrite !Hst1. apply Hn. }
  destruct (v_contains (db_view (writer_store w)) (ib_hash b)) eqn:Eb.
  { left. exists (Ok tt), w1, hs, waiting. split_and!; try done; [lia|intros h; by rewrite Hst1|].
    intros _ x [->|Hx]; [left; by rewrite Hst1|by right]. }
  destruct (writer_contains_spec (ib_parent b) w1 hs Hw1) as (w2 & -> & Hw2 & Ep2 & Ev2). cbn [mbind option_bind].
  assert (∀ h, has (writer_store w2) h ↔ has (writer_store w) h) as Hst2 by (intros h; unfold has; by rewrite Ev2, Ev1).
  assert (pool_holds w2 waiting) as Hpool2.
  { destruct Hpool as [? ? ? ? Hn]. split; rewrite ?Ep2, ?Ep1; try done. intros x. rewrite !Hst2. apply Hn. }
  assert (¬ has (writer_store w2) (ib_hash b)) as Hn by (rewrite Hst2; unfold has; by rewrite Eb).
  rewrite Ev1. destruct (v_contains (db_view (writer_store w)) (ib_parent b)) eqn:Epar; cbn [negb].
  - assert (has (writer_store w2) (ib_parent b)) as Hp by (by rewrite Hst2).
    destruct (pool_take w2 b waiting Hpool2 Hb Hn Hp) as (queue & pool & rest & -> & Hq & Hsplit & Hlq & Hafter). cbn [mbind option_bind].
    destruct (write_queue_spec (b :: queue) (writer_set_pool pool w2) hs)
      as [(r & w' & hs' & wrote & E & Hw' & Ep' & Hl' & Hpre & Hr & Hst')|?]; [| | |left|by right].
    { destruct Hw2. by split. }
    { done. }
    { cbn [length]. lia. }
    exists r, w', hs', rest. split_and!; [done|done| |cbn in Hl'; lia| |].
    + eapply Hafter; [by rewrite Ep'|done|exact Hst'].
    + intros h Hh. apply Hst'. left. by apply Hst2.
    + intros Er x Hx. assert (x ∈ b :: queue ∨ x ∈ rest) as [Hx'|?] by (rewrite elem_of_cons; destruct Hx as [->|Hx%Hsplit]; naive_solver); [|by right].
      left. apply Hst'. right. rewrite Hr by done. by apply list_elem_of_fmap_2.
  - assert (¬ has (writer_store w2) (ib_parent b)) as Hp by (rewrite Hst2; unfold has; by rewrite Epar).
    pose proof (pool_orphan w2 b waiting Hpool2 Hb Hn Hp) as Hpool'.
    set (w' := writer_set_pool (insert_orphaned_block b (orphaned_blocks_pool w2)) w2) in *.
    left. exists (if (MAX_ORPHANED_BLOCKS <? pool_len (orphaned_blocks_pool w'))%nat then Err TooManyOrphanBlocks else Ok tt), w', hs,
      (if decide (b ∈ waiting) then waiting else b :: waiting).
    split_and!; [by destruct (_ <? _)%nat|by destruct Hw2; split|done|case_decide; cbn; lia|intros h; apply Hst2|].
    intros _ x Hx. right. case_decide; [by destruct Hx as [->|?]|]. by apply elem_of_cons.
Qed.

(** A whole import. *)
Lemma append_blocks_spec blocks w hs waiting : core_ok w hs → pool_holds w waiting → (∀ b, b ∈ blocks → b ∈ all) →
  Z.of_nat (length hs + length waiting + length blocks) < 2 ^ 32 →
  (∃ rs w' hs' waiting', append_blocks network get_time blocks w = Some (rs, w') ∧ core_ok w' hs' ∧ pool_holds w' waiting' ∧
    (∀ h, has (writer_store w) h → has (writer_store w') h) ∧
    (Forall (λ r, r = Ok tt) rs → ∀ x, x ∈ blocks ∨ x ∈ waiting → has (writer_store w') (ib_hash x) ∨ x ∈ waiting')) ∨
  append_blocks network get_time blocks w = None ∧ import_panics.
Proof.
  revert w hs waiting. induction blocks as [|b blocks IH]; intros w hs waiting Hw Hpool Hsub Hlen.
  - left. exists [], w, hs, waiting. split_and!; try done. intros _ x [?%not_elem_of_nil|?]; [done|by right].
  - cbn [length append_blocks] in *. destruct (append_block_spec w hs waiting b Hw Hpool) as [(r & w1 & hs1 & waiting1 & E1 & Hw1 & Hp1 & Hl1 & Hm1 & Hr1)|[E1 ?]];
      [apply Hsub; left|lia| |]; rewrite E1; cbn [mbind option_bind]; [|by right].
    destruct (IH w1 hs1 waiting1 Hw1 Hp1) as [(rs & w2 & hs2 & waiting2 & E2 & Hw2 & Hp2 & Hm2 & Hr2)|[E2 ?]];
      [intros x Hx; apply Hsub; by right|lia| |]; rewrite E2; cbn [mbind option_bind]; [left|by right].
    exists (r :: rs), w2, hs2, waiting2. split_and!; try done.
    + intros h Hh. by apply Hm2, Hm1.
    + intros [Er Hrs]%list.Forall_cons x Hx. specialize (Hr1 Er x). specialize (Hr2 Hrs x). rewrite elem_of_cons in Hx.
      assert (x ∈ blocks ∨ (x = b ∨ x ∈ waiting)) as [Hx'|Hx'] by tauto; [by apply Hr2; left|].
      destruct (Hr1 Hx') as [Hh|Hh]; [left; by apply Hm2|by apply Hr2; right].
Qed.

Lemma writer_new_ok hs : tree_ok s g hs → ∃ w, writer_new (M:=M) s params = Some w ∧ core_ok w hs ∧ pool_holds w [] ∧
  ∀ h, has (writer_store w) h ↔ has s h.
Proof.
  intros Ht. assert (hs ≠ []) as Hne by (intros ->; by pose proof (tk_genesis _ _ _ Ht)).
  destruct (chain_new_inv s hs (tk_inv _ _ _ Ht) Hne) as (c & Ec & Hc & Hu). unfold writer_new, wrapper_new. rewrite Ec.
  cbn [mbind option_bind]. unfold mbind, DM_bind.
  destruct (reads_contains_block (verification_edge params) (sc_storage c) (proj1 (si_store _ _ _ _ Hc))) as (s' & E & Hu').
  rewrite E. pose proof (unchanged_trans _ _ _ Hu Hu') as Hu2. eexists. split; [reflexivity|]. split_and!.
  - split; cbn; try done; [by apply si_read|by eapply tree_unchanged| | |].
    + unfold extends, writer_store. cbn. split; intros h; rewrite (has_unchanged _ _ _ Hu2); [done|by left].
    + intros h blk. unfold writer_store. cbn. by rewrite (block_unchanged _ _ h Hu2).
    + intros h blk. unfold writer_store. cbn. rewrite (block_unchanged _ _ h Hu2). by left.
  - split; cbn; try done; [by apply NoDup_nil_2| |by intros b ?%not_elem_of_nil..].
    intros b. split; [by intros ?%not_elem_of_nil|]. intros (m & Hm & _). by rewrite lookup_empty in Hm.
  - intros h. unfold writer_store. cbn. apply (has_unchanged _ _ _ Hu2).
Qed.
End writer.

(** ** The imports *)

Section imports.
Context {U : U256Ops} {UL : U256Laws U} {R : RugOps} {RL : RugLaws R} {H : Sha256Ops} {V : VrfOps} {P : Profile}.
Context {T : Type} {K : KeyValueDatabase T} {KS : KvSpec T}.
Context {M : Type → Type} {L : LinkedHashMap H256 M} {LL : LinkedHashMapLaws H256 M} {OH : HashOrder H256}.
Context (network : Network) (get_time : nat → Z) (params : VerificationParameters).

End imports.

(** ** Examples *)

Section import_examples.
Import Reference.
#[local] Existing Instance flat_sha_ops | 0.
#[local] Instance checked_writer : Profile := true.
#[local] Instance writer_order : HashOrder H256 := elements_order.

(** The chain [ex_h0], [ex_h1]. *)
Definition ex_store : BlockChainDatabase MemoryDatabase :=
  match canonize ex_h1 ex_state with Some (_, s) => s | None => ex_state end.

Lemma ex_store_tree : tree_ok ex_store ex_h0 [ex_h0; ex_h1].
Proof.
  destruct (canonize_ok ex_state [ex_h0] ex_h1 (ex_block ex_h0) ex_inv (proj1 ex_blocks) eq_refl eq_refl) as (s & E & Hs & Hb).
  unfold ex_store. rewrite E. assert (∀ h, v_block (db_view s) h = if decide (h = ex_h1) then Some (ex_block ex_h0) else
    if decide (h = ex_h0) then Some (ex_block hash_default) else None) as Ev.
  { intros h. rewrite <-ex_stored. unfold v_block. by rewrite Hb. }
  destruct ex_hashes as (H0 & _ & _ & H10 & _). assert (at_height (db_view s) ex_h0 ex_h1 1) as H1.
  { eapply at_child; [by rewrite Ev, decide_True|]. apply at_genesis. }
  split; [done|done| |].
  - intros h. rewrite Ev. case_decide; [subst; by exists 1%nat|]. case_decide; [subst; exists 0%nat; apply at_genesis|by intros []].
  - intros h n Hn. assert (h = ex_h0 ∨ h = ex_h1) as [->| ->].
    { apply (at_height_stored _ _ _ _ (proj2 Hs) eq_refl) in Hn. rewrite Ev in Hn. case_decide; [by right|]. case_decide; [by left|by destruct Hn]. }
    + rewrite (at_height_genesis _ _ _ _ (proj2 Hs) eq_refl _ Hn). cbn. lia.
    + rewrite (at_height_unique _ _ _ _ (proj2 Hs) eq_refl _ _ _ Hn H1). cbn. lia.
Qed.

(** Two blocks on top of [ex_h1], the upper one first: with a digest of zeros
    their empty proofs are right, and twenty minutes after their parents they
    have the easiest bits of the test network. *)
Definition full_checks : VerificationParameters := mkVerificationParameters Full hash_default.

Definition ex_first : IndexedBlock :=
  indexed_block_from_raw (mkBlock (mkBlockHeader 1 ex_h1 2000 (mkCompact 0x207fffff) example_key 1 0) []).

Definition ex_second : IndexedBlock :=
  indexed_block_from_raw (mkBlock (mkBlockHeader 1 (ib_hash ex_first) 4000 (mkCompact 0x207fffff) example_key 1 0) []).

Definition ex_import : list IndexedBlock := [ex_second; ex_first].

Definition ex_clock_4000 : nat → Z := λ _, 4000.

Lemma ex_import_hashes : ib_hash ex_first ≠ hash_default ∧ ib_hash ex_second ≠ hash_default ∧ ib_hash ex_first ≠ ib_hash ex_second ∧
  ib_hash ex_first ≠ ex_h0 ∧ ib_hash ex_first ≠ ex_h1.
Proof. split_and!; intros E; apply (f_equal hash_bytes) in E; vm_compute in E; discriminate E. Qed.

Lemma ex_import_consistent : consistent ex_import.
Proof.
  destruct ex_import_hashes as (H1 & H2 & H12 & _). split.
  - intros b b' Hb Hb' E. unfold ex_import in *. rewrite !elem_of_cons in Hb, Hb'.
    destruct Hb as [->|[->|[]%not_elem_of_nil]], Hb' as [->|[->|[]%not_elem_of_nil]];
      [reflexivity|destruct H12; symmetry; exact E|destruct H12; exact E|reflexivity].
  - intros b Hb. unfold ex_import in Hb. rewrite !elem_of_cons in Hb. destruct Hb as [->|[->|[]%not_elem_of_nil]]; assumption.
Qed.

Lemma ex_import_connected : connected ex_store ex_import ex_second.
Proof.
  apply (connected_step _ _ _ ex_first); [left| |reflexivity]. apply connected_base; [right; left|].
  apply (v_contains_block _ _ _ (tk_inv _ _ _ ex_store_tree)).
  destruct (ci_link _ _ _ (proj2 (tk_inv _ _ _ ex_store_tree)) 1 ex_h1 eq_refl) as (b & Hb & _). exists b. exact Hb.
Qed.

(** The import runs, and no block is refused. *)
Lemma ex_import_runs : (w ← writer_new (M:=AssocMap H256) ex_store full_checks; '(rs, _) ← append_blocks Testnet ex_clock_4000 ex_import w;
  Some (forallb (λ r, match r with Ok _ => true | Err _ => false end) rs)) = Some true.
Proof. vm_compute. reflexivity. Qed.

End import_examples.
