(* ===== verification/Node.v ===== *)
(** * The synchronization node ([sync/src/local_node.rs], [sync/src/inbound_connection.rs],
    [sync/src/inbound_connection_factory.rs], [sync/src/synchronization_client.rs],
    [sync/src/synchronization_executor.rs])

    The client core, the server, the queue of the verification thread and the
    connected peers together, with every message of a peer from the connection to
    the component that handles it. *)

From S2P Require Import Prelude External Primitives Serialization Compact Crypto Chain.
From S2P Require Import Storage Network Work Verification Miner Kv KvRefine BlockChainDb ChainInv ChainOps.
From S2P Require Import HashQueue HeadersChain SyncChain.
From S2P Require Import Message MessageTypes SpeedMeter Collections PeersTasks OrphanPool Peers.
From S2P Require Import ClientCore Server Writer.
From stdpp Require Import gmap.
#[local] Open Scope Z_scope.

(** ** The executor *)

Section executor.
Context {V : VrfOps} {MH : Type → Type} {LH : LinkedHashMap H256 MH}.
Context {OP : HashOrder PeerIndex} {C : Type}.

Abbreviation Peers := (PeersImpl (M:=MH) (C:=C)).

(** What is sent over a connection. *)
Inductive Outbound :=
| OIgnored (connection : C) (id : RequestId)
| OGetData (connection : C) (m : GetData)
| OGetHeaders (connection : C) (m : GetHeaders)
| OBlock (connection : C) (block : Block)
| ONotFound (connection : C) (m : NotFound)
| OInventory (connection : C) (m : Inv)
| OHeaders (connection : C) (m : Headers)
| ORespondHeaders (connection : C) (m : Headers) (id : RequestId).

(** A message to a peer that is connected. *)
Definition send_to (peer : PeerIndex) (message : C → Outbound) (peers : Peers) : list Outbound :=
  match peers_connection peer peers with Some connection => [message connection] | None => [] end.

(** src: sync/src/synchronization_executor.rs 46-51 execute_ignore *)
Definition execute_ignore (peer : PeerIndex) (id : RequestId) (peers : Peers) : list Outbound :=
  send_to peer (λ c, OIgnored c id) peers.

(** src: sync/src/synchronization_executor.rs 53-58 execute_getdata *)
Definition execute_getdata (peer : PeerIndex) (m : GetData) (peers : Peers) : list Outbound :=
  send_to peer (λ c, OGetData c m) peers.

(** src: sync/src/synchronization_executor.rs 60-67 execute_getheaders *)
Definition execute_getheaders (peer : PeerIndex) (m : GetHeaders) (peers : Peers) : list Outbound :=
  send_to peer (λ c, OGetHeaders c m) peers.

(** The peer is noted to have the block. *)
(** src: sync/src/synchronization_executor.rs 69-79 execute_block *)
Definition execute_block (peer : PeerIndex) (block : IndexedBlock) (peers : Peers) : list Outbound * Peers :=
  (send_to peer (λ c, OBlock c (to_raw_block block)) peers,
   match peers_connection peer peers with
   | Some _ => peers_hash_known_as peer (ib_hash block) KnownBlockHash peers
   | None => peers
   end).

(** src: sync/src/synchronization_executor.rs 81-86 execute_notfound *)
Definition execute_notfound (peer : PeerIndex) (m : NotFound) (peers : Peers) : list Outbound :=
  send_to peer (λ c, ONotFound c m) peers.

(** src: sync/src/synchronization_executor.rs 88-93 execute_inventory *)
Definition execute_inventory (peer : PeerIndex) (m : Inv) (peers : Peers) : list Outbound :=
  send_to peer (λ c, OInventory c m) peers.

(** src: sync/src/synchronization_executor.rs 95-108 execute_headers *)
Definition execute_headers (peer : PeerIndex) (m : Headers) (id : option RequestId) (peers : Peers) : list Outbound :=
  send_to peer (λ c, match id with Some id => ORespondHeaders c m id | None => OHeaders c m end) peers.

(** src: sync/src/synchronization_executor.rs 110-131 execute_relay_block *)
Definition execute_relay_block (block : IndexedBlock) (peers : Peers) : list Outbound :=
  peer ← peers_enumerate peers;
  match peers_filter_block peer (ib_hash block) peers with
  | SendInventory => execute_inventory peer (mkInv [inventory_block (ib_hash block)]) peers
  | Peers.SendHeaders => execute_headers peer (mkHeaders [ih_raw (ib_header block)]) None peers
  | DoNotAnnounce => []
  end.

(** src: sync/src/synchronization_executor.rs 134-151 execute *)
Definition executor_execute (t : Task) (peers : Peers) : list Outbound * Peers :=
  match t with
  | TIgnore peer id => (execute_ignore peer id peers, peers)
  | TGetData peer m => (execute_getdata peer m peers, peers)
  | TGetHeaders peer m => (execute_getheaders peer m peers, peers)
  | TBlock peer block => execute_block peer block peers
  | TNotFound peer m => (execute_notfound peer m peers, peers)
  | TInventory peer m => (execute_inventory peer m peers, peers)
  | THeaders peer m id => (execute_headers peer m id peers, peers)
  | TRelayNewBlock block => (execute_relay_block block peers, peers)
  end.
End executor.

(** ** The node *)

Section node.
Context {U : U256Ops} {R : RugOps} {H : Sha256Ops} {V : VrfOps} {P : Profile}.
Context {T : Type} {K : KeyValueDatabase T}.
Context {MP : Type → Type} {LP : LinkedHashMap PeerIndex MP}.
Context {MH : Type → Type} {LH : LinkedHashMap H256 MH}.
Context {OP : HashOrder PeerIndex} {OH : HashOrder H256}.
Context {C : Type} (network : Network) (precise_time_s : nat → f64) (get_time : nat → Z).

Abbreviation Core := (Core (T:=T) (MP:=MP) (MH:=MH) (C:=C) (F:=ServerTask)).
Abbreviation CM := (CM (T:=T) (MP:=MP) (MH:=MH) (C:=C) (F:=ServerTask)).

(** A future of the client is a request to the server.  The calls of the
    executor are kept in the log of the core; [nd_work] is the channel of the
    verification thread, [nd_counter] the counter of the sessions. *)
(** src: sync/src/local_node.rs 18-31 LocalNode *)
Record LocalNode := mkLocalNode {
  nd_core : Core;
  nd_server : ServerImpl;
  nd_work : list VerificationTask;
  nd_verifier : ChainVerifierWrapper;
  nd_counter : Z;
}.

Definition NM (A : Type) : Type := LocalNode → option (A * LocalNode).

#[global] Instance NM_ret : MRet NM := λ A a n, Some (a, n).
#[global] Instance NM_bind : MBind NM := λ A B k m n,
  match m n with Some (a, n') => k a n' | None => None end.

Definition node_requests (core : Core) : list ServerTask :=
  omap (λ e, match e with RunFuture t => Some t | _ => None end) (co_effects core).

Definition node_calls (core : Core) : list ClientEffect :=
  omap (λ e, match e with RunFuture _ => None | _ => Some e end) (co_effects core).

Definition set_effects (l : list ClientEffect) (c : Core) : Core :=
  mkCore (co_shared_state c) (co_state c) (co_peers c) (co_peers_tasks c) (co_chain c) (co_orphaned_blocks_pool c)
    (co_verify_headers c) (co_verifying_blocks_by_peer c) (co_verifying_blocks_futures c) (co_do_not_relay c)
    (co_block_speed_meter c) (co_sync_speed_meter c) (co_config c) (co_listener c) (co_last_dup_time c)
    (co_readings c) l.

(** A call of the core; the futures it runs put their requests on the queue of
    the server. *)
Definition on_core {A} (m : CM A) : NM A := λ n,
  '(a, core) ← m (nd_core n);
  Some (a, mkLocalNode (set_effects (node_calls core) core)
    (foldl (λ s t, server_request t s) (nd_server n) (node_requests core))
    (nd_work n) (nd_verifier n) (nd_counter n)).

Definition on_server (f : ServerImpl → ServerImpl) : NM unit := λ n,
  Some (tt, mkLocalNode (nd_core n) (f (nd_server n)) (nd_work n) (nd_verifier n) (nd_counter n)).

Definition on_peers (f : PeersImpl (M:=MH) (C:=C) → PeersImpl (M:=MH) (C:=C)) : NM unit :=
  on_core (cm_modify (λ c, set_peers (f (co_peers c)) c)).

(** src: sync/src/synchronization_verifier.rs 194-199 verify_block *)
Definition async_verify_block (block : IndexedBlock) : NM unit := λ n,
  Some (tt, mkLocalNode (nd_core n) (nd_server n) (nd_work n ++ [VerifyBlock block]) (nd_verifier n) (nd_counter n)).

Fixpoint async_verify_blocks (blocks : list IndexedBlock) : NM unit :=
  match blocks with [] => mret tt | b :: blocks => _ ← async_verify_block b; async_verify_blocks blocks end.

(** src: sync/src/synchronization_verifier.rs 180-189 drop *)
Definition async_drop : NM unit := λ n,
  Some (tt, mkLocalNode (nd_core n) (nd_server n) (nd_work n ++ [StopVerification]) (nd_verifier n) (nd_counter n)).

(** [usize] of 64 bits. *)
Definition usize_add (a b : Z) : option Z :=
  if (2 ^ 64 <=? a + b) && overflow_checks then None else Some (wrap 64 (a + b)).

(** *** The client *)

(** src: sync/src/synchronization_client.rs 165-189 on_block *)
Definition client_on_block (peer : PeerIndex) (block : IndexedBlock) : NM unit :=
  blocks_to_verify ← on_core (core_on_block precise_time_s peer block);
  _ ← async_verify_blocks (default [] blocks_to_verify);
  on_core (
    saturated ← try_switch_to_saturated_state;
    if saturated : bool then mret tt else execute_synchronization_tasks precise_time_s None None).

(** *** The local node *)

(** src: sync/src/local_node.rs 64-77 on_connect *)
Definition node_on_connect (peer : PeerIndex) (version : Version) : NM unit :=
  _ ← (if negb (relay_transactions version)
       then on_peers (set_transaction_announcement_type peer TxDoNotAnnounce) else mret tt);
  on_core (core_on_connect precise_time_s peer).

(** src: sync/src/local_node.rs 80-85 on_disconnect *)
Definition node_on_disconnect (peer : PeerIndex) : NM unit := on_core (core_on_disconnect precise_time_s peer).

(** src: sync/src/local_node.rs 88-91 on_inventory *)
Definition node_on_inventory (peer : PeerIndex) (m : Inv) : NM unit := on_core (core_on_inventory peer m).

(** src: sync/src/local_node.rs 94-97 on_headers *)
Definition node_on_headers (peer : PeerIndex) (headers : list IndexedBlockHeader) : NM unit :=
  on_core (core_on_headers network precise_time_s get_time peer headers).

(** src: sync/src/local_node.rs 100-103 on_block *)
Definition node_on_block (peer : PeerIndex) (block : IndexedBlock) : NM unit := client_on_block peer block.

(** src: sync/src/local_node.rs 106-109 on_notfound *)
Definition node_on_notfound (peer : PeerIndex) (m : NotFound) : NM unit := on_core (core_on_notfound precise_time_s peer m).

(** src: sync/src/local_node.rs 112-116 on_getdata *)
Definition node_on_getdata (peer : PeerIndex) (m : GetData) : NM unit := on_server (server_request (SGetData peer m)).

(** src: sync/src/local_node.rs 119-123 on_getblocks *)
Definition node_on_getblocks (peer : PeerIndex) (m : GetBlocks) : NM unit := on_server (server_request (SGetBlocks peer m)).

(** src: sync/src/local_node.rs 126-140 on_getheaders *)
Definition node_on_getheaders (peer : PeerIndex) (m : GetHeaders) (id : RequestId) : NM unit :=
  on_core (after_peer_nearly_blocks_verified peer (SGetHeaders peer m id)).

(** src: sync/src/local_node.rs 143-147 on_sendheaders *)
Definition node_on_sendheaders (peer : PeerIndex) : NM unit :=
  on_peers (set_block_announcement_type peer Peers.SendHeaders).

(** src: sync/src/local_node.rs 150-153 get_block_template *)
Definition node_block_template (now : Z) (n : LocalNode) : option BlockTemplate :=
  create_new_block (store_of (sc_storage (co_chain (nd_core n)))) (wrap 32 now) network.

(** *** The connection *)

Definition node_dos (peer : PeerIndex) : NM unit := on_core (dos peer).

(** src: sync/src/inbound_connection.rs 38-40 start_sync_session *)
Definition start_sync_session (peer : PeerIndex) (version : Version) : NM unit := node_on_connect peer version.

(** src: sync/src/inbound_connection.rs 42-45 close_session *)
Definition close_session (peer : PeerIndex) : NM unit :=
  _ ← on_peers (peers_remove peer); node_on_disconnect peer.

(** src: sync/src/inbound_connection.rs 47-62 on_inventory *)
Definition inbound_on_inventory (peer : PeerIndex) (m : Inv) : NM unit :=
  if decide (inv_inventory m = []) then mret tt
  else if (INV_MAX_INVENTORY_LEN <? length (inv_inventory m))%nat then node_dos peer
  else node_on_inventory peer m.

(** src: sync/src/inbound_connection.rs 64-82 on_getdata *)
Definition inbound_on_getdata (peer : PeerIndex) (m : GetData) : NM unit :=
  if decide (gd_inventory m = []) then mret tt
  else if (GETDATA_MAX_INVENTORY_LEN <? length (gd_inventory m))%nat then node_dos peer
  else node_on_getdata peer m.

(** src: sync/src/inbound_connection.rs 84-86 on_getblocks *)
Definition inbound_on_getblocks (peer : PeerIndex) (m : GetBlocks) : NM unit := node_on_getblocks peer m.

(** src: sync/src/inbound_connection.rs 88-90 on_getheaders *)
Definition inbound_on_getheaders (peer : PeerIndex) (m : GetHeaders) (id : RequestId) : NM unit := node_on_getheaders peer m id.

(** src: sync/src/inbound_connection.rs 92-97 on_block *)
Definition inbound_on_block (peer : PeerIndex) (message : Block) : NM unit :=
  let block := indexed_block_from_raw message in
  _ ← on_peers (peers_hash_known_as peer (ib_hash block) KnownBlockHash);
  node_on_block peer block.

(** src: sync/src/inbound_connection.rs 99-122 on_headers *)
Definition inbound_on_headers (peer : PeerIndex) (m : Headers) : NM unit :=
  if decide (hm_headers m = []) then mret tt
  else if (HEADERS_MAX_HEADERS_LEN <? length (hm_headers m))%nat then node_dos peer
  else node_on_headers peer (indexed_header_from_raw <$> hm_headers m).

(** src: sync/src/inbound_connection.rs 124-126 on_sendheaders *)
Definition inbound_on_sendheaders (peer : PeerIndex) : NM unit := node_on_sendheaders peer.

(** src: sync/src/inbound_connection.rs 128-130 on_notfound *)
Definition inbound_on_notfound (peer : PeerIndex) (m : NotFound) : NM unit := node_on_notfound peer m.

(** The counter wraps, the index of the session is checked. *)
(** src: sync/src/inbound_connection_factory.rs 34-46 create_sync_session *)
Definition create_sync_session (services : Services) (connection : C) : NM PeerIndex := λ n,
  let counter := nd_counter n in
  peer ← usize_add counter 1;
  peers ← peers_insert peer services connection (co_peers (nd_core n));
  Some (peer, mkLocalNode (set_peers peers (nd_core n)) (nd_server n) (nd_work n) (nd_verifier n) (wrap 64 (counter + 1))).

(** *** The threads *)

(** The verifier reads the store of the chain; the clock it reads is the wall
    clock of the core. *)
Definition node_verify (block : IndexedBlock) (n : LocalNode) : option (result VError unit * LocalNode) :=
  '(r, w) ← wrapper_verify_block network (sc_storage (co_chain (nd_core n))) (get_time (co_readings (nd_core n))) block (nd_verifier n);
  Some (r, mkLocalNode (add_reading (nd_core n)) (nd_server n) (nd_work n) w (nd_counter n)).

(** src: sync/src/synchronization_client_core.rs 843-845 on_block_verification_success *)
Definition sink_on_success (block : IndexedBlock) : NM (option (list VerificationTask)) :=
  _ ← on_core (on_block_verification_success precise_time_s block); mret None.

(** src: sync/src/synchronization_client_core.rs 848-850 on_block_verification_error *)
Definition sink_on_error (err : VError) (hash : H256) (n : LocalNode) : option LocalNode :=
  '(_, n) ← on_core (on_block_verification_error precise_time_s hash) n; Some n.

(** One task of the channel, if there is one.  The thread ends at a stop: what
    is left in the channel stays there. *)
Definition verification_round : NM unit := λ n,
  match nd_work n with
  | [] => Some (tt, n)
  | task :: work =>
      '(go_on, n') ← execute_single_task node_verify sink_on_success sink_on_error 1 task
        (mkLocalNode (nd_core n) (nd_server n) work (nd_verifier n) (nd_counter n));
      Some (tt, if go_on : bool then n' else n)
  end.

(** What the server does to the peers; the calls of the executor are logged. *)
Definition server_effect (e : ServerEffect) : CM unit :=
  match e with
  | ServerExecute t =>
      _ ← cm_modify (λ c, set_peers (snd (executor_execute t (co_peers c))) c); execute t
  | ServerMisbehaving peer => misbehaving peer
  end.

Definition server_round (fuel : nat) : NM unit := λ n,
  '((server, effects), storage) ← server_worker fuel (nd_server n) (sc_storage (co_chain (nd_core n)));
  let core := set_chain (set_storage storage (co_chain (nd_core n))) (nd_core n) in
  on_core (cm_each server_effect effects) (mkLocalNode core server (nd_work n) (nd_verifier n) (nd_counter n)).

Definition management_thread : NM unit := on_core (management_round precise_time_s).

(** *** What happens to the node *)

Inductive NodeEvent :=
| NSession (services : Services) (connection : C) (version : Version)
| NClosed (peer : PeerIndex)
| NInventory (peer : PeerIndex) (m : Inv)
| NGetData (peer : PeerIndex) (m : GetData)
| NGetBlocks (peer : PeerIndex) (m : GetBlocks)
| NGetHeaders (peer : PeerIndex) (m : GetHeaders) (id : RequestId)
| NBlock (peer : PeerIndex) (block : Block)
| NHeaders (peer : PeerIndex) (m : Headers)
| NSendHeaders (peer : PeerIndex)
| NNotFound (peer : PeerIndex) (m : NotFound)
| NVerify
| NServe
| NManage.

(** A session is started when it is made. *)
Definition node_step (fuel : nat) (e : NodeEvent) : NM unit :=
  match e with
  | NSession services connection version =>
      peer ← create_sync_session services connection; start_sync_session peer version
  | NClosed peer => close_session peer
  | NInventory peer m => inbound_on_inventory peer m
  | NGetData peer m => inbound_on_getdata peer m
  | NGetBlocks peer m => inbound_on_getblocks peer m
  | NGetHeaders peer m id => inbound_on_getheaders peer m id
  | NBlock peer block => inbound_on_block peer block
  | NHeaders peer m => inbound_on_headers peer m
  | NSendHeaders peer => inbound_on_sendheaders peer
  | NNotFound peer m => inbound_on_notfound peer m
  | NVerify => verification_round
  | NServe => server_round fuel
  | NManage => management_thread
  end.

Fixpoint node_run (fuel : nat) (es : list NodeEvent) : NM unit :=
  match es with [] => mret tt | e :: es => _ ← node_step fuel e; node_run fuel es end.

(** *** The node as it is made *)

(** src: sync/src/lib.rs 93-151 create_local_sync_node *)
Definition create_local_sync_node (storage : BlockChainDatabase T) (peers : PeersImpl (M:=MH) (C:=C))
    (params : VerificationParameters) : option LocalNode :=
  let state := mkSynchronizationState false (bb_number (bc_best_block storage)) in
  chain ← chain_new storage;
  core ← core_new (mkClientConfig false) state peers chain;
  '(verifier, storage) ← wrapper_new params (sc_storage (co_chain core));
  Some (mkLocalNode (set_chain (set_storage storage (co_chain core)) core) server_new [] verifier 0).
End node.
