(* ===== verification/NodeFrame.v ===== *)
(** * What the handlers of the client leave alone

    Apart from the insertion of a verified block, no handler changes what the
    store shows; and the peers a handler enters are those it was called with. *)

From S2P Require Import Prelude External Primitives Serialization Compact Crypto Chain.
From S2P Require Import Storage Network Work Verification Kv KvRefine BlockChainDb ChainInv ChainOps.
From S2P Require Import HashQueue HeadersChain SyncChain SyncOps Locator SyncQueues.
From S2P Require Import Message MessageTypes SpeedMeter Collections PeersTasks OrphanPool Peers.
From S2P Require Import ClientCore ClientChain.
From stdpp Require Import gmap sorting.
#[local] Open Scope Z_scope.

(** ** Peers of the tasks *)

Section tasks.
Context {M : Type → Type} {L : LinkedHashMap PeerIndex M} {LL : LinkedHashMapLaws PeerIndex M}.
Context {OP : HashOrder PeerIndex} {OH : HashOrder H256}.
Implicit Types pt : PeersTasks M.

Definition occurs pt (p : PeerIndex) : Prop :=
  p ∈ pt_all pt ∨ p ∈ pt_idle_for_headers pt ∨ p ∈ pt_idle_for_blocks pt ∨
  is_Some (lhm_get p (pt_blocks_requests pt)) ∨ is_Some (lhm_get p (pt_headers_requests pt)).

(** Only [peer] may be new. *)
Definition enters (peer : PeerIndex) pt pt' : Prop := ∀ p, p ≠ peer → occurs pt' p → occurs pt p.

Lemma enters_refl peer pt : enters peer pt pt.
Proof. by intros p. Qed.

Lemma enters_trans peer pt1 pt2 pt3 : enters peer pt1 pt2 → enters peer pt2 pt3 → enters peer pt1 pt3.
Proof. intros H1 H2 p Hp Ho. by apply H1, H2. Qed.

Lemma remove_get {A} peer p (m : M A) : is_Some (lhm_get p (snd (lhm_remove peer m))) → is_Some (lhm_get p m).
Proof.
  destruct (decide (p = peer)) as [->|Hp]; [rewrite lhm_get_remove_eq; by intros []|]. by rewrite lhm_get_remove_ne.
Qed.

Ltac enters := let q := fresh "q" in let Hq := fresh "Hq" in intros q Hq; unfold occurs; cbn [snd pt_all pt_idle_for_headers pt_idle_for_blocks pt_blocks_requests pt_headers_requests];
  rewrite ?elem_of_union, ?elem_of_difference, ?elem_of_singleton; intuition.

Lemma useful_enters peer pt pt' : useful_peer peer pt = Some pt' → enters peer pt pt'.
Proof.
  unfold useful_peer. destruct (_ || _); [destruct peer_stats_new; [|done]|]; intros [= <-]; enters.
Qed.

Lemma unuseful_enters peer pt pt' : unuseful_peer peer pt = Some pt' → enters peer pt pt'.
Proof.
  unfold unuseful_peer. destruct (rust_assert _); [|done]. cbn [mbind option_bind]. destruct (decide _); [|destruct peer_stats_new; [|done]];
    intros [= <-]; enters.
Qed.

Lemma disconnect_enters peer pt pt' : disconnect peer pt = Some pt' → enters peer pt pt'.
Proof.
  unfold disconnect. destruct (rust_assert _); [|done]. intros [= <-]. enters.
  - right; right; right; left. by eapply remove_get.
  - do 4 right. by eapply remove_get.
Qed.

Lemma make_known_enters peer pt pt' : make_known peer pt = Some pt' → enters peer pt pt'.
Proof. unfold make_known. case_decide; [intros [= <-]; apply enters_refl|apply unuseful_enters]. Qed.

Lemma block_received_enters t t' peer h pt pt' : on_block_received t t' peer h pt = Some pt' → enters peer pt pt'.
Proof.
  unfold on_block_received. cbn [pt_blocks_requests pt_stats]. destruct (lhm_get peer (pt_blocks_requests pt)) as [request|]; [|intros [= <-]; enters].
  case_decide; [intros [= <-]; enters|]. destruct (on_stats peer (responded t) _) as [stats|]; [|done]. cbn [mbind option_bind].
  case_decide.
  - destruct (lhm_remove peer _) as [removed requests] eqn:Er. destruct removed as [r|]; [|done]. cbn [mbind option_bind]. intros [= <-]. enters.
    do 3 right. left. match goal with Hs : is_Some (lhm_get ?q (snd (lhm_insert _ _ _))) |- _ => revert Hs end.
    assert (requests = snd (lhm_remove peer (lhm_get_mut peer (λ r, mkBlocksRequest (br_timestamp r) (br_blocks request ∖ {[h]})) (pt_blocks_requests pt)))) as -> by (by rewrite Er).
    rewrite lhm_get_insert_ne by (done || apply lhm_get_remove_eq). by rewrite lhm_get_remove_ne, lhm_get_update_ne.
  - destruct (on_stats peer _ stats) as [stats'|]; [|done]. intros [= <-]. enters.
    + destruct (lhm_contains _ _); [tauto|]. set_solver.
    + do 3 right. left. match goal with Hs : is_Some (lhm_get ?q _) |- _ => apply remove_get in Hs; by rewrite lhm_get_update_ne in Hs end.
Qed.

Lemma headers_received_enters peer pt : enters peer pt (on_headers_received peer pt).
Proof.
  unfold on_headers_received. enters.
  - destruct (lhm_contains _ _); [tauto|]. set_solver.
  - do 4 right. by eapply remove_get.
Qed.

Lemma headers_received_some peer pt pt' : Some (on_headers_received peer pt) = Some pt' → enters peer pt pt'.
Proof. intros [= <-]. apply headers_received_enters. Qed.

Lemma blocks_requested_enters t t' peer hashes pt pt' : on_blocks_requested t t' peer hashes pt = Some pt' → enters peer pt pt'.
Proof.
  unfold on_blocks_requested. destruct (make_known peer pt) as [pt1|] eqn:E; [|done]. cbn [mbind option_bind].
  destruct (on_stats _ _ _); [|done]. intros [= <-]. eapply enters_trans; [by eapply make_known_enters|]. enters.
  do 3 right. left. match goal with Hs : is_Some (lhm_get ?q _) |- _ => rewrite lhm_get_update_ne in Hs by done; revert Hs end.
  destruct (lhm_contains peer (pt_blocks_requests pt1)) eqn:Ec; [done|]. rewrite lhm_get_insert_ne; [done| |done].
  rewrite lhm_contains_spec in Ec. apply bool_decide_eq_false in Ec. by apply eq_None_not_Some.
Qed.

Lemma headers_requested_enters t peer pt pt' : on_headers_requested t peer pt = Some pt' → enters peer pt pt'.
Proof.
  unfold on_headers_requested. destruct (make_known peer pt) as [pt1|] eqn:E; [|done]. intros [= <-].
  eapply enters_trans; [by eapply make_known_enters|]. enters.
  do 4 right. match goal with Hs : is_Some (lhm_get ?q _) |- _ => rewrite lhm_get_insert_ne in Hs by (done || apply lhm_get_remove_eq); by rewrite lhm_get_remove_ne in Hs end.
Qed.

(** No peer is new. *)
Definition leaves pt pt' : Prop := ∀ p, occurs pt' p → occurs pt p.

Lemma blocks_failure_leaves hashes pt : leaves pt (on_blocks_failure hashes pt).2.
Proof. unfold on_blocks_failure. destruct (blocks_failures _ _). by intros q. Qed.

Lemma penalize_enters peer pt : enters peer pt (penalize peer pt).2.
Proof. unfold penalize. destruct (pt_stats pt !! peer) as [s|]; [|apply enters_refl]. destruct (ps_trust s); enters. Qed.

Lemma headers_failure_enters peer pt : enters peer pt (on_peer_headers_failure peer pt).2.
Proof.
  unfold on_peer_headers_failure. eapply enters_trans; [|apply penalize_enters]. enters. do 4 right. by eapply remove_get.
Qed.

Lemma reset_leaves pt : leaves pt (tasks_reset pt).
Proof.
  intros q [?|[Hq|[Hq|[[? E]|[? E]]]]]; [by left|by apply not_elem_of_empty in Hq|by apply not_elem_of_empty in Hq| |]; cbn in E; by rewrite lhm_get_new in E.
Qed.

Lemma reset_blocks_enters peer pt : enters peer pt (reset_blocks_tasks peer pt).2.
Proof.
  unfold reset_blocks_tasks. destruct (lhm_remove peer (pt_blocks_requests pt)) as [r requests] eqn:E. enters.
  do 3 right. left. apply (remove_get peer). by rewrite E.
Qed.

Definition within (A : PeerIndex → Prop) pt : Prop := ∀ p, occurs pt p → A p.

Lemma within_enters A peer pt pt' : enters peer pt pt' → A peer → within A pt → within A pt'.
Proof. intros He Hk Hb p Hp. destruct (decide (p = peer)) as [->|Hne]; [done|]. by apply Hb, He. Qed.

Lemma within_leaves A pt pt' : leaves pt pt' → within A pt → within A pt'.
Proof. intros He Hb p Hp. by apply Hb, He. Qed.
End tasks.

(** ** The chain *)

Section chain.
Context {V : VrfOps} {R : RugOps} {P : Profile} {T : Type} {K : KeyValueDatabase T} {KS : KvSpec T}.
Implicit Types c : SyncChain T.

(** The blocks under verification. *)
Definition first_queue (q : HashQueueChain) : list H256 := from_option hq_queue [] (q !! VERIFYING_QUEUE).
Definition verifying c : list H256 := first_queue (sc_hash_chain c).

(** The store shows what it showed, and no block starts to be verified. *)
Definition frames {A} (m : SM T A) : Prop := ∀ c a c', db_valid (sc_storage c) → m c = Some (a, c') →
  unchanged (sc_storage c) (sc_storage c') ∧ verifying c' ⊆ verifying c.

Lemma frames_ret {A} (a : A) : frames (mret a).
Proof. intros c x c' Hv E. by injection E as _ <-. Qed.

Lemma frames_bind {A B} (m : SM T A) (k : A → SM T B) : frames m → (∀ a, frames (k a)) → frames (m ≫= k).
Proof.
  intros Hm Hk c b c' Hv E. rewrite SM_bind_run in E. destruct (m c) as [[a c1]|] eqn:Em; [|done]. cbn in E.
  apply Hm in Em as [Hu1 Hs1]; [|done]. apply Hk in E as [Hu2 Hs2]; [|apply Hu1]. split; [by eapply unchanged_trans|by etrans].
Qed.

Lemma frames_lift {A} (o : option A) : frames (sm_lift o).
Proof. intros c a c' Hv E. unfold sm_lift in E. destruct o; [|done]. by injection E as _ <-. Qed.

Lemma frames_gets {A} (f : SyncChain T → option A) : frames (sm_gets f).
Proof. intros c a c' Hv E. unfold sm_gets in E. destruct (f c); [|done]. by injection E as _ <-. Qed.

Lemma frames_headers m : frames (on_headers m).
Proof. intros c a c' Hv E. unfold on_headers in E. destruct (m _); [|done]. by injection E as _ <-. Qed.

Lemma frames_storage {A} (m : DM T A) f : reads m f → frames (on_storage m).
Proof.
  intros Hm c a c' Hv E. unfold on_storage in E. specialize (Hm _ Hv). destruct (f _ _) as [b|].
  - destruct Hm as (s & Em & Hu). rewrite Em in E. by injection E as _ <-.
  - by rewrite Hm in E.
Qed.

Lemma frames_hashes {A} (m : HashQueueChain → option (A * HashQueueChain)) :
  (∀ q a q', m q = Some (a, q') → first_queue q' ⊆ first_queue q) → frames (on_hashes m).
Proof.
  intros Hm c a c' Hv E. unfold on_hashes in E. destruct (m _) as [[b q]|] eqn:Eq; [|done]. injection E as _ <-.
  split; [done|]. by eapply Hm.
Qed.

Lemma first_insert i x q : (i = VERIFYING_QUEUE → hq_queue x ⊆ first_queue q) → first_queue (<[i := x]> q) ⊆ first_queue q.
Proof.
  intros Hx. unfold first_queue. destruct (decide (i = VERIFYING_QUEUE)) as [->|Hi]; [|by rewrite list_lookup_insert_ne].
  destruct (q !! VERIFYING_QUEUE) as [y|] eqn:E; [|by rewrite list_insert_ge, E by (by apply lookup_ge_None)].
  rewrite list_lookup_insert_eq by (by eapply lookup_lt_Some). unfold first_queue in Hx. rewrite E in Hx. by apply Hx.
Qed.

Lemma remove_queue q h p q' : hq_remove q h = Some (p, q') → hq_queue q' ⊆ hq_queue q.
Proof.
  unfold hq_remove. destruct (negb _); [by intros [= _ <-]|]. destruct (hq_queue q) as [|x l]; [done|].
  case_decide; [intros [= _ <-]; cbn; set_solver|]. destruct (list_find _ _) as [[i y]|]; [|done]. intros [= _ <-]. cbn [hq_queue].
  intros z Hz. eapply elem_of_sublist; [exact Hz|]. apply sublist_delete.
Qed.

Lemma frames_remove i h : frames (on_hashes (λ q, hqc_remove_at q i h)).
Proof.
  apply frames_hashes. intros q a q' E. unfold hqc_remove_at in E. destruct (q !! i) as [x|] eqn:Ei; [|done].
  cbn in E. destruct (hq_remove x h) as [[p y]|] eqn:Er; [|done]. injection E as _ <-. apply first_insert.
  intros ->. unfold first_queue. rewrite Ei. by eapply remove_queue.
Qed.

Lemma frames_remove_all i : frames (on_hashes (λ q, hqc_remove_all_at q i)).
Proof.
  apply frames_hashes. intros q a q' E. unfold hqc_remove_all_at in E. destruct (q !! i) as [x|] eqn:Ei; [|done].
  injection E as _ <-. apply first_insert. intros _ z Hz. by apply not_elem_of_nil in Hz.
Qed.

Lemma frames_push i l : i ≠ VERIFYING_QUEUE → frames (on_hashes (λ q, pair tt <$> hqc_push_back_n_at q i l)).
Proof.
  intros Hi. apply frames_hashes. intros q a q' E. unfold hqc_push_back_n_at in E. destruct (q !! i) as [x|]; [|done].
  cbn in E. destruct (hq_push_back_n x l); [|done]. injection E as _ <-. by apply first_insert.
Qed.

Lemma frames_pop i n : i ≠ VERIFYING_QUEUE → frames (on_hashes (λ q, hqc_pop_front_n_at q i n)).
Proof.
  intros Hi. apply frames_hashes. intros q a q' E. unfold hqc_pop_front_n_at in E. destruct (q !! i) as [x|]; [|done].
  cbn in E. destruct (hq_pop_front_n x n) as [l y]. injection E as _ <-. by apply first_insert.
Qed.

Ltac frames := repeat first
  [ apply frames_ret | apply frames_headers | apply frames_lift | apply frames_gets | apply frames_remove
  | apply frames_remove_all | by apply frames_push | by apply frames_pop
  | apply frames_bind; [|intros ?]
  | match goal with |- frames (match ?x with _ => _ end) => destruct x end ].

Lemma frames_forget_leave h : frames (forget_block_leave_header h).
Proof. unfold forget_block_leave_header. frames. Qed.

Lemma frames_forget h : frames (forget_block h).
Proof. unfold forget_block, forget_block_leave_header. frames. Qed.

Lemma frames_forget_blocks l : frames (forget_blocks l).
Proof. induction l; cbn [forget_blocks]; [frames|]. apply frames_bind; [apply frames_forget|]. by intros _. Qed.

Lemma frames_forget_blocks_leave l : frames (forget_blocks_leave_header l).
Proof. induction l; cbn [forget_blocks_leave_header]; [frames|]. apply frames_bind; [apply frames_forget_leave|]. by intros _. Qed.

Lemma frames_forget_state h st : frames (forget_block_with_state_leave_header h st).
Proof. unfold forget_block_with_state_leave_header. frames. Qed.

Lemma frames_forget_children h : frames (forget_block_with_children h).
Proof. unfold forget_block_with_children. frames. apply frames_forget_blocks. Qed.

Lemma frames_forget_all st : frames (forget_all_blocks_with_state st).
Proof. unfold forget_all_blocks_with_state. frames. Qed.

Lemma frames_schedule l : frames (schedule_blocks_headers l).
Proof. unfold schedule_blocks_headers. frames. Qed.

Lemma frames_request n : frames (request_blocks_hashes n).
Proof. unfold request_blocks_hashes. frames. Qed.

Lemma frames_mark h : frames (mark_dead_end_block h).
Proof. intros c a c' Hv E. by injection E as _ <-. Qed.

Lemma frames_state h : frames (block_state h).
Proof.
  intros c a c' Hv E. unfold block_state in E. destruct (hqc_contains_in _ _); [by apply frames_lift in E|].
  destruct (on_storage _ c) as [[b c1]|] eqn:Es; [|done]. cbn in E. injection E as _ <-.
  by eapply frames_storage in Es; [|apply reads_contains_block|].
Qed.

Lemma frames_locator : frames block_locator_hashes.
Proof.
  intros c a c' Hv E. unfold block_locator_hashes in E. destruct (block_locator_hashes_for_queue _ _) as [[l [i step]]|]; [|done]. cbn in E.
  unfold block_locator_hashes_for_storage, on_storage in E.
  destruct (locator_storage_loop _ _ _ _ _ (sc_storage c)) as [[l1 s1]|] eqn:El; [|done]. injection E as _ <-.
  split; [|done]. by eapply locator_storage_unchanged.
Qed.

Lemma frames_db_block r : frames (on_storage (db_block r)).
Proof. eapply frames_storage, reads_db_block. Qed.
End chain.

Create HintDb frame.
#[export] Hint Resolve frames_forget_leave frames_forget frames_forget_blocks frames_forget_blocks_leave frames_forget_state
  frames_forget_children frames_forget_all frames_schedule frames_request frames_mark frames_state frames_locator
  frames_db_block : frame.

(** ** The client *)

Section client.
Context {U : U256Ops} {R : RugOps} {H : Sha256Ops} {V : VrfOps} {P : Profile}.
Context {T : Type} {K : KeyValueDatabase T} {KS : KvSpec T}.
Context {MP : Type → Type} {LP : LinkedHashMap PeerIndex MP} {LPL : LinkedHashMapLaws PeerIndex MP}.
Context {MH : Type → Type} {LH : LinkedHashMap H256 MH} {LHL : LinkedHashMapLaws H256 MH}.
Context {OP : HashOrder PeerIndex} {OH : HashOrder H256}.
Context {C F : Type} (network : Network) (precise_time_s : nat → f64) (get_time : nat → Z).

Abbreviation Core := (Core (T:=T) (MP:=MP) (MH:=MH) (C:=C) (F:=F)).
Abbreviation CM := (CM (T:=T) (MP:=MP) (MH:=MH) (C:=C) (F:=F)).
Implicit Types c : Core.

(** A run, if it ends, keeps [I] and answers something in [Q]. *)
Definition yields (I : Core → Prop) {A} (m : CM A) (Q : A → Prop) : Prop :=
  ∀ c a c', I c → m c = Some (a, c') → I c' ∧ Q a.

Section rules.
Context (I : Core → Prop).

Lemma yields_ret {A} (a : A) (Q : A → Prop) : Q a → yields I (mret a) Q.
Proof. intros HQ c x c' Hi E. by injection E as <- <-. Qed.

Lemma yields_bind {A B} (m : CM A) (k : A → CM B) Q Q' :
  yields I m Q → (∀ a, Q a → yields I (k a) Q') → yields I (m ≫= k) Q'.
Proof.
  intros Hm Hk c b c' Hi E. unfold mbind, CM_bind in E. destruct (m c) as [[a c1]|] eqn:Em; [|done].
  apply Hm in Em as [Hi1 HQ]; [|done]. by eapply Hk.
Qed.

Lemma yields_mono {A} (m : CM A) (Q Q' : A → Prop) : yields I m Q → (∀ a, Q a → Q' a) → yields I m Q'.
Proof. intros Hm HQ c a c' Hi E. apply Hm in E as [? ?]; auto. Qed.

Lemma yields_any {A} (m : CM A) Q : yields I m Q → yields I m (λ _, True).
Proof. intros Hm. by eapply yields_mono. Qed.

Lemma yields_gets {A} (f : Core → A) (Q : A → Prop) : (∀ c, I c → Q (f c)) → yields I (cm_gets f) Q.
Proof. intros HQ c a c' Hi E. injection E as <- <-. auto. Qed.

Lemma yields_lift {A} (o : option A) (Q : A → Prop) : (∀ a, o = Some a → Q a) → yields I (cm_lift o) Q.
Proof. intros HQ c a c' Hi E. unfold cm_lift in E. destruct o as [b|]; [|done]. injection E as <- <-. auto. Qed.

Lemma yields_query {A} (f : Core → option A) : yields I (cm_query f) (λ _, True).
Proof. intros c a c' Hi E. unfold cm_query in E. destruct (f c); [|done]. by injection E as <- <-. Qed.

Lemma yields_modify (f : Core → Core) : (∀ c, I c → I (f c)) → yields I (cm_modify f) (λ _, True).
Proof. intros Hf c a c' Hi E. injection E as <- <-. auto. Qed.

Lemma yields_chain {A} (m : SM T A) : (∀ c a chain, I c → m (co_chain c) = Some (a, chain) → I (set_chain chain c)) →
  yields I (on_chain m) (λ _, True).
Proof.
  intros Hm c a c' Hi E. unfold on_chain in E. destruct (m (co_chain c)) as [[b chain]|] eqn:Em; [|done]. injection E as <- <-. eauto.
Qed.

Lemma yields_tasks f : (∀ c pt, I c → f (co_peers_tasks c) = Some pt → I (set_tasks pt c)) → yields I (on_tasks f) (λ _, True).
Proof.
  intros Hf c a c' Hi E. unfold on_tasks in E. destruct (f (co_peers_tasks c)) as [pt|] eqn:Ef; [|done]. injection E as <- <-. eauto.
Qed.

Lemma yields_tasks_ret {A} (f : PeersTasks MP → A * PeersTasks MP) :
  (∀ c, I c → I (set_tasks (f (co_peers_tasks c)).2 c)) → yields I (on_tasks_ret f) (λ _, True).
Proof.
  intros Hf c a c' Hi E. unfold on_tasks_ret in E. destruct (f (co_peers_tasks c)) as [x pt] eqn:Ef. injection E as <- <-.
  split; [|done]. specialize (Hf c Hi). by rewrite Ef in Hf.
Qed.

Lemma yields_pool {A} (f : OrphanBlocksPool (M:=MH) → option (A * OrphanBlocksPool (M:=MH))) :
  (∀ c pool, I c → I (set_pool pool c)) → yields I (on_pool f) (λ _, True).
Proof.
  intros Hf c a c' Hi E. unfold on_pool in E. destruct (f _) as [[x pool]|]; [|done]. injection E as <- <-. auto.
Qed.

Lemma yields_now : (∀ c, I c → I (add_reading c)) → yields I (now_s precise_time_s) (λ _, True).
Proof. intros Hf c a c' Hi E. injection E as <- <-. auto. Qed.

Lemma yields_wall : (∀ c, I c → I (add_reading c)) → yields I (now_wall get_time) (λ _, True).
Proof. intros Hf c a c' Hi E. injection E as <- <-. auto. Qed.

Lemma yields_when b (m : CM unit) : yields I m (λ _, True) → yields I (cm_when b m) (λ _, True).
Proof. intros Hm. destruct b; [done|]. by apply yields_ret. Qed.

Lemma yields_each {A} (f : A → CM unit) l : (∀ x, x ∈ l → yields I (f x) (λ _, True)) → yields I (cm_each f l) (λ _, True).
Proof.
  induction l as [|x l IH]; intros Hf; cbn [cm_each]; [by apply yields_ret|].
  eapply yields_bind; [apply Hf; left|]. intros _ _. apply IH. intros y Hy. apply Hf. by right.
Qed.

(** A computation that first looks at the state. *)
Lemma yields_look {A} (m : CM A) Q : (∀ c, I c → ∃ m', m c = m' c ∧ yields I m' Q) → yields I m Q.
Proof. intros Hm c a c' Hi E. destruct (Hm c Hi) as (m' & E' & Hm'). eapply Hm'; [done|]. by rewrite <-E'. Qed.
End rules.

(** *** What stays *)

Section kept.
Context (s0 : BlockChainDatabase T) (verified : H256 → Prop) (known connected : PeerIndex → Prop) (config : ClientConfig).

(** The view of the store, and bounds for the blocks under verification and the
    peers of the tasks and of the connections. *)
Record kept c : Prop := {
  kp_store : unchanged s0 (sc_storage (co_chain c));
  kp_verifying h : h ∈ verifying (co_chain c) → verified h;
  kp_tasks : within known (co_peers_tasks c);
  kp_peers p : is_Some (co_peers c !! p) → connected p;
  kp_config : co_config c = config;
}.

Abbreviation keeps m := (yields kept m (λ _, True)).

Lemma kept_same c c' : kept c → co_chain c' = co_chain c → co_peers_tasks c' = co_peers_tasks c →
  co_peers c' = co_peers c → co_config c' = co_config c → kept c'.
Proof. intros [] E1 E2 E3 E4. split; by rewrite ?E1, ?E2, ?E3, ?E4. Qed.

Lemma keeps_modify f : (∀ c, co_chain (f c) = co_chain c ∧ co_peers_tasks (f c) = co_peers_tasks c ∧ co_peers (f c) = co_peers c ∧
  co_config (f c) = co_config c) → keeps (cm_modify f).
Proof. intros Hf. apply yields_modify. intros c Hk. destruct (Hf c) as (?&?&?&?). by eapply kept_same. Qed.

Lemma keeps_now : keeps (now_s precise_time_s).
Proof. apply yields_now. intros c Hk. by eapply kept_same. Qed.

Lemma keeps_wall : keeps (now_wall get_time).
Proof. apply yields_wall. intros c Hk. by eapply kept_same. Qed.

Lemma keeps_pool {A} (f : OrphanBlocksPool (M:=MH) → option (A * OrphanBlocksPool (M:=MH))) : keeps (on_pool f).
Proof. apply yields_pool. intros c pool Hk. by eapply kept_same. Qed.

Lemma keeps_chain {A} (m : SM T A) : frames m → keeps (on_chain m).
Proof.
  intros Hm. apply yields_chain. intros c a chain [Hs Hv Ht Hp Hc] E. apply Hm in E as [Hu Hsub]; [|apply Hs].
  split; cbn; try done; [by eapply unchanged_trans|]. intros h Hh. by apply Hv, Hsub.
Qed.

Lemma keeps_chain_any {A} (m : SM T A) : (∀ h, verified h) → keeps_store m → keeps (on_chain m).
Proof.
  intros Hall Hm. apply yields_chain. intros c a chain [Hs Hv Ht Hp Hc] E. apply Hm in E. split; cbn; try done. by rewrite E.
Qed.

Lemma keeps_tasks peer f : known peer → (∀ pt pt', f pt = Some pt' → enters peer pt pt') → keeps (on_tasks f).
Proof.
  intros Hp Hf. apply yields_tasks. intros c pt [Hs Hv Ht Hc Hk] E. split; cbn; try done. eapply within_enters; [by eapply Hf|done..].
Qed.

Lemma keeps_tasks_ret {A} peer (f : PeersTasks MP → A * PeersTasks MP) : known peer → (∀ pt, enters peer pt (f pt).2) → keeps (on_tasks_ret f).
Proof.
  intros Hp Hf. apply yields_tasks_ret. intros c [Hs Hv Ht Hc Hk]. split; cbn; try done. by eapply within_enters.
Qed.

Lemma keeps_misbehaving peer : keeps (misbehaving peer).
Proof.
  intros c a c' [Hs Hv Ht Hp Hc] E. injection E as _ <-. split; [|done].
  split; try done. intros p [x Hx]. apply Hp. exists x. cbn [co_peers add_effects set_peers] in Hx.
  by apply (lookup_delete_Some (M:=gmap PeerIndex) (co_peers c) peer p x) in Hx as [_ Hx].
Qed.

Lemma keeps_dos peer : keeps (dos peer).
Proof. apply keeps_misbehaving. Qed.
Lemma keeps_notify e : keeps (notify e).
Proof. intros c a c' Hk E. unfold notify in E. destruct (co_listener c); injection E as _ <-; (split; [|done]); by eapply kept_same. Qed.

#[local] Hint Resolve useful_enters unuseful_enters disconnect_enters block_received_enters headers_received_some
  blocks_requested_enters headers_requested_enters penalize_enters headers_failure_enters reset_blocks_enters : frame.

Ltac keep_step := match goal with
  | |- yields _ (mret _) _ => by apply yields_ret
  | |- yields _ (cm_gets _) _ => by apply yields_gets
  | |- yields _ (cm_query _) _ => apply yields_query
  | |- yields _ (chain_length _) _ => apply yields_query
  | |- yields _ (cm_lift _) _ => by apply yields_lift
  | |- yields _ (cm_modify _) _ => by apply keeps_modify
  | |- yields _ (execute _) _ => by apply keeps_modify
  | |- yields _ (now_s _) _ => apply keeps_now
  | |- yields _ (now_wall _) _ => apply keeps_wall
  | |- yields _ (notify _) _ => apply keeps_notify
  | |- yields _ (on_pool _) _ => apply keeps_pool
  | |- yields _ (on_chain _) _ => apply keeps_chain; solve [auto with frame]
  | |- yields _ (misbehaving _) _ => apply keeps_misbehaving
  | |- yields _ (dos _) _ => apply keeps_dos
  | |- yields _ (cm_when _ _) _ => apply yields_when
  | |- yields _ (on_tasks _) _ => eapply keeps_tasks; [solve [eauto]|solve [eauto with frame]]
  | |- yields _ (on_tasks_ret _) _ => eapply keeps_tasks_ret; [solve [eauto]|solve [eauto with frame]]
  | |- yields _ (mbind _ _) _ => apply (yields_bind _ _ _ (λ _, True)); [|intros ? ?]
  | |- yields _ (match ?x with _ => _ end) _ => destruct x
  | |- yields _ _ _ => progress cbn zeta
  end.
Ltac keep := repeat keep_step.

Lemma keeps_print : keeps (print_synchronization_information precise_time_s).
Proof.
  apply yields_look. intros c Hk. unfold print_synchronization_information.
  destruct (co_state c); [eexists; split; [reflexivity|keep]|by exists (mret tt : CM unit); split; [|keep]..].
Qed.

Lemma keeps_synchronization : keeps (switch_to_synchronization_state precise_time_s).
Proof.
  apply yields_look. intros c Hk. unfold switch_to_synchronization_state.
  destruct (is_synchronizing _); [by exists (mret tt : CM unit); split; [|keep]|eexists; split; [reflexivity|keep]].
Qed.

Lemma keeps_nearly : keeps switch_to_nearly_saturated_state.
Proof.
  apply yields_look. intros c Hk. unfold switch_to_nearly_saturated_state.
  destruct (is_nearly_saturated _); [by exists (mret tt : CM unit); split; [|keep]|eexists; split; [reflexivity|keep]].
Qed.

Lemma keeps_saturated : keeps switch_to_saturated_state.
Proof.
  apply yields_look. intros c Hk. unfold switch_to_saturated_state.
  destruct (is_saturated _); [by exists (mret tt : CM unit); split; [|keep]|eexists; split; [reflexivity|]].
  keep; [|apply yields_each; intros; keep].
  apply yields_tasks. intros c1 pt [Hs Hv Ht Hp Hc] [= <-]. split; cbn; try done. eapply within_leaves; [apply reset_leaves|done].
Qed.

(** *** Requests *)

Definition all_known (l : list PeerIndex) : Prop := ∀ p, p ∈ l → known p.

Lemma known_order c (s : gset PeerIndex) : kept c → (∀ p, p ∈ s → occurs (co_peers_tasks c) p) → all_known (hash_order s).
Proof.
  intros Hk Hs p. rewrite hash_order_perm, elem_of_elements. intros Hp. by apply (kp_tasks _ Hk), Hs.
Qed.

Lemma keeps_requests chunk last peers i hashes tasks : all_known peers →
  keeps (requests_loop precise_time_s chunk last peers i hashes tasks).
Proof.
  revert i hashes tasks. induction peers as [|p peers IH]; intros i hashes tasks Hp; cbn [requests_loop]; [keep|].
  assert (known p) by (apply Hp; left). keep; apply IH; intros q Hq; apply Hp; by right.
Qed.

Lemma keeps_prepare limits peers hashes : all_known peers → keeps (prepare_blocks_requests_tasks precise_time_s limits peers hashes).
Proof.
  intros Hp. unfold prepare_blocks_requests_tasks.
  apply (yields_bind _ _ _ all_known).
  { apply yields_gets. intros c Hk p. unfold sort_peers_for_blocks. rewrite merge_sort_Permutation. apply Hp. }
  intros l Hl. keep. by apply keeps_requests.
Qed.

Lemma keeps_duplicate v r : keeps (duplicate_requests precise_time_s v r).
Proof. unfold duplicate_requests. keep. Qed.

Lemma keeps_scheduled limits v r n l : keeps (request_scheduled limits v r n l).
Proof. unfold request_scheduled. keep. Qed.

Lemma keeps_idle limits v l : keeps (idle_requests precise_time_s limits v l).
Proof. unfold idle_requests. keep; [apply keeps_duplicate|apply keeps_scheduled]. Qed.

Lemma keeps_headers_requests : keeps (request_headers precise_time_s).
Proof.
  unfold request_headers. apply (yields_bind _ _ _ all_known).
  { apply yields_gets. intros c Hk. eapply known_order; [exact Hk|]. intros p Hp. right. by left. }
  intros l Hl. keep. apply yields_each. intros p Hp%Hl. keep.
Qed.

Lemma keeps_useful {A} (k : list PeerIndex → CM A) : (∀ l, all_known l → keeps (k l)) →
  keeps (useful ← cm_gets (λ c, useful_peers (co_peers_tasks c)); k useful).
Proof.
  intros Hf. apply (yields_bind _ _ _ all_known); [|done]. apply yields_gets. intros c Hk. eapply known_order; [exact Hk|].
  intros p Hp. left. set_solver.
Qed.

Lemma keeps_idle_peers {A} (k : list PeerIndex → CM A) : (∀ l, all_known l → keeps (k l)) →
  keeps (idle ← cm_gets (λ c, hash_order (pt_idle_for_blocks (co_peers_tasks c))); k idle).
Proof.
  intros Hf. apply (yields_bind _ _ _ all_known); [|done]. apply yields_gets. intros c Hk. eapply known_order; [exact Hk|].
  intros p Hp. right. right. by left.
Qed.

Lemma keeps_execute_tasks forced final : keeps (execute_synchronization_tasks precise_time_s forced final).
Proof.
  unfold execute_synchronization_tasks.
  repeat first [apply keeps_useful; intros ? ?|apply keeps_idle_peers; intros ? ?|keep_step];
    first [apply keeps_print|apply keeps_saturated|by apply keeps_prepare|apply keeps_headers_requests|apply keeps_idle
          |apply yields_each; intros; keep].
Qed.

Lemma keeps_try_saturated : keeps try_switch_to_saturated_state.
Proof. unfold try_switch_to_saturated_state. keep. apply keeps_saturated. Qed.

(** *** Messages *)

Lemma keeps_connect peer : known peer → keeps (core_on_connect precise_time_s peer).
Proof. intros Hp. unfold core_on_connect. keep. Qed.

Lemma keeps_disconnect peer : known peer → keeps (core_on_disconnect precise_time_s peer).
Proof. intros Hp. unfold core_on_disconnect. keep. apply keeps_execute_tasks. Qed.

Lemma keeps_wanted peer items : keeps (wanted_items peer items).
Proof. induction items; cbn [wanted_items]; keep; [unfold wants_item; keep|done]. Qed.

Lemma keeps_inventory peer m : keeps (core_on_inventory peer m).
Proof. unfold core_on_inventory. keep. apply keeps_wanted. Qed.

Lemma keeps_verify_headers peer i h p l : known peer → keeps (verify_headers_loop network get_time peer i h p l).
Proof.
  intros Hp. revert i h p. induction l; intros i h p; cbn [verify_headers_loop]; keep. done.
Qed.

Lemma keeps_first_unknown l : keeps (first_unknown l).
Proof. induction l; cbn [first_unknown]; keep. done. Qed.

Lemma keeps_core_headers peer l : known peer → keeps (core_on_headers network precise_time_s get_time peer l).
Proof.
  intros Hp. unfold core_on_headers. destruct l as [|x l]; [done|].
  unfold core_verify_headers, first_unknown_index. keep;
  first [apply keeps_first_unknown|by apply keeps_verify_headers|apply keeps_nearly|apply keeps_synchronization|apply keeps_execute_tasks].
Qed.

(** *** Blocks *)

Lemma keeps_orphan block : keeps (on_orphan_unknown precise_time_s block).
Proof. unfold on_orphan_unknown. keep. Qed.

Lemma keeps_to_verify peer block : known peer → (∀ h, verified h) → keeps (on_block_to_verify precise_time_s peer block).
Proof.
  intros Hp Hall. unfold on_block_to_verify, remember_verifying. keep. apply keeps_chain_any; [done|]. apply keeps_verify.
Qed.

Lemma keeps_block peer block : known peer → (∀ h, verified h) → keeps (core_on_block precise_time_s peer block).
Proof.
  intros Hp Hall. unfold core_on_block, on_new_block. keep; first [apply keeps_orphan|by apply keeps_to_verify].
Qed.

Lemma keeps_notfound peer m : known peer → keeps (core_on_notfound precise_time_s peer m).
Proof. intros Hp. unfold core_on_notfound. keep. apply keeps_execute_tasks. Qed.

Lemma keeps_after_verified peer future : keeps (after_peer_nearly_blocks_verified peer future).
Proof.
  intros c a c' Hk E. unfold after_peer_nearly_blocks_verified in E.
  destruct (is_synchronizing _); [|destruct (_ !! peer) as [[? ?]|]]; injection E as _ <-; (split; [|done]); by eapply kept_same.
Qed.

Lemma keeps_awake hash : keeps (awake_waiting_threads hash).
Proof.
  intros c a c' Hk E. unfold awake_waiting_threads in E. destruct (_ !! hash) as [peer|]; [|by injection E as _ <-].
  destruct (_ !! peer) as [[? ?]|]; [case_decide|]; injection E as _ <-; (split; [|done]); by eapply kept_same.
Qed.

Lemma keeps_relay l : keeps (relay_blocks l).
Proof. apply yields_each. intros h _. keep. Qed.

Lemma keeps_error hash : keeps (on_block_verification_error precise_time_s hash).
Proof. unfold on_block_verification_error. keep; [apply keeps_awake|apply keeps_execute_tasks]. Qed.

(** *** The management thread *)

Lemma keeps_failures l : keeps (on_tasks_ret (on_blocks_failure l)).
Proof.
  apply yields_tasks_ret. intros c [Hs Hv Ht Hp Hc]. split; cbn; try done. eapply within_leaves; [apply blocks_failure_leaves|done].
Qed.

Lemma keeps_blocks_loop cfg t l x y : all_known l.*1 → keeps (manage_blocks_loop cfg t l x y).
Proof.
  revert x y. induction l as [|[p r] l IH]; intros x y Hl; cbn [manage_blocks_loop]; [keep|].
  assert (known p) by (apply Hl; left). keep; [apply keeps_failures|].
  apply IH. intros q Hq. apply Hl. by right.
Qed.

Lemma keeps_headers_loop cfg t l : all_known l.*1 → keeps (manage_headers_loop cfg t l).
Proof.
  induction l as [|[p r] l IH]; intros Hl; cbn [manage_headers_loop]; [keep|].
  assert (known p) by (apply Hl; left). keep; (apply IH; intros q Hq; apply Hl; by right).
Qed.

Lemma known_iter c {A} (m : MP A) : kept c → (∀ p, is_Some (lhm_get p m) → occurs (co_peers_tasks c) p) → all_known (lhm_iter m).*1.
Proof.
  intros Hk Hm p ([q x] & -> & Hin)%list_elem_of_fmap. apply lhm_get_iter in Hin. apply (kp_tasks _ Hk), Hm. by exists x.
Qed.

Lemma keeps_management : keeps (management_round precise_time_s).
Proof.
  unfold management_round. keep.
  - apply keeps_print.
  - unfold manage_synchronization_peers_blocks. keep_step; [keep|]. eapply (yields_bind _ _ _ (λ l, all_known l.*1)); [|intros; by apply keeps_blocks_loop].
    apply yields_gets. intros c Hk. eapply known_iter; [exact Hk|]. intros p Hp. do 3 right. by left.
  - apply yields_each. intros h _. keep.
  - apply keeps_execute_tasks.
  - unfold manage_synchronization_peers_headers. keep_step; [keep|]. eapply (yields_bind _ _ _ (λ l, all_known l.*1)); [|intros; by apply keeps_headers_loop].
    apply yields_gets. intros c Hk. eapply known_iter; [exact Hk|]. intros p Hp. by do 4 right.
  - unfold manage_unknown_orphaned_blocks. keep.
  - apply yields_each. intros h _. keep.
Qed.
End kept.

(** *** A verified block *)

(** The block leaves the queue, is stored if it was there, and the rest of the
    handler keeps what is kept then. *)
Lemma bind_inv {A B} (m : CM A) (k : A → CM B) c b c' : (m ≫= k) c = Some (b, c') →
  ∃ a c1, m c = Some (a, c1) ∧ k a c1 = Some (b, c').
Proof. unfold mbind, CM_bind. destruct (m c) as [[a c1]|]; [|done]. by exists a, c1. Qed.

Lemma chain_inv_run {A} (m : SM T A) c a c' : on_chain m c = Some (a, c') → ∃ k, m (co_chain c) = Some (a, k) ∧ c' = set_chain k c.
Proof. unfold on_chain. destruct (m (co_chain c)) as [[b k]|]; [|done]. intros [= <- <-]. by exists k. Qed.

Lemma success_parts b c c' : on_block_verification_success precise_time_s b c = Some (tt, c') →
  ∃ p k1 k2, forget_block_with_state_leave_header (ib_hash b) Verifying (co_chain c) = Some (p, k1) ∧
    (p = Missing ∧ k2 = k1 ∨ p ≠ Missing ∧ ∃ r, insert_best_block b k1 = Some (Ok r, k2)) ∧
    ∀ s0 verified known connected config, kept s0 verified known connected config (set_chain k2 c) →
      kept s0 verified known connected config c'.
Proof.
  intros E. apply bind_inv in E as (t & c1 & [= <- <-] & E). apply bind_inv in E as (meter & c2 & E2 & E).
  unfold cm_query in E2. destruct (checkpoint _ _) as [meter'|]; [|done]. injection E2 as <- <-.
  do 3 (apply bind_inv in E as (? & ? & [= <- <-] & E)).
  apply bind_inv in E as (p & c3 & (k1 & E1 & ->)%chain_inv_run & E). cbn [co_chain set_do_not_relay set_meters add_reading] in E1.
  apply bind_inv in E as (r & c4 & E4 & E).
  assert (∃ x k2, r = Ok x ∧ (p = Missing ∧ k2 = k1 ∨ p ≠ Missing ∧ insert_best_block b k1 = Some (Ok x, k2)) ∧
    co_chain c4 = k2 ∧ co_peers_tasks c4 = co_peers_tasks c ∧ co_peers c4 = co_peers c ∧ co_config c4 = co_config c)
    as (x & k2 & -> & Hk & Hc4).
  { case_decide as Hp; [injection E4 as <- <-; exists (mkBlockInsertionResult []), k1; split_and!; try done; by left|].
    apply chain_inv_run in E4 as (k2 & E4 & ->). destruct r as [x|e]; [|done]. exists x, k2. split_and!; try done. by right. }
  exists p, k1, k2. split; [done|]. split; [destruct Hk as [?|[? ?]]; [by left|right; eauto]|].
  intros s0 ver kn co cfg Hkept. destruct Hc4 as (Ec & Et & Ep & Eg).
  revert E. match goal with |- ?m c4 = _ → _ => assert (yields (kept s0 ver kn co cfg) m (λ _, True)) as Ht end.
  { eapply yields_bind; [by apply keeps_modify|intros _ _]. apply (yields_bind _ _ _ (λ _, True)).
    { destruct (list.last _); [apply keeps_notify|by apply yields_ret]. }
    intros _ _. eapply yields_bind; [apply keeps_awake|intros _ _]. eapply yields_bind; [apply keeps_execute_tasks|intros _ _].
    apply (yields_bind _ _ _ (λ _, True)); [by apply yields_gets|intros st _]. apply yields_when, keeps_relay. }
  intros E. eapply Ht; [|exact E]. by eapply kept_same.
Qed.

(** *** A refused block *)

Lemma error_parts hash c c' : on_block_verification_error precise_time_s hash c = Some (tt, c') →
  ∃ k1, forget_block_with_children hash (co_chain c) = Some (tt, k1) ∧
    ∀ s0 verified known connected config, kept s0 verified known connected config (set_chain k1 c) →
      kept s0 verified known connected config c'.
Proof.
  intros E. do 3 (apply bind_inv in E as (? & ? & [= <- <-] & E)). apply bind_inv in E as ([] & c1 & E1 & E).
  apply bind_inv in E as ([] & c2 & (k1 & E2 & ->)%chain_inv_run & E).
  assert (co_chain c1 = co_chain c ∧ co_peers_tasks c1 = co_peers_tasks c ∧ co_config c1 = co_config c ∧
    ∀ p, is_Some (co_peers c1 !! p) → is_Some (co_peers c !! p)) as (Ec & Et & Eg & Hp).
  { destruct (_ !! hash) as [peer|]; [|by injection E1 as <-]. unfold cm_when in E1. destruct (close_connection_on_bad_block _); [|by injection E1 as <-].
    injection E1 as <-. split_and!; try done. intros p [x Hx].
    apply (lookup_delete_Some (M:=gmap PeerIndex) (co_peers c) peer p x) in Hx as [_ Hx]. by eexists. }
  rewrite Ec in E2. exists k1. split; [done|]. intros s0 ver kn co cfg [Hs Hv Ht Hpe Hc].
  assert (kept s0 ver kn co cfg (set_chain k1 c1)) as Hk1.
  { split; cbn; rewrite ?Et, ?Eg; try done. intros p Hx%Hp. by apply Hpe. }
  revert E. match goal with |- ?m _ = _ → _ => assert (yields (kept s0 ver kn co cfg) m (λ _, True)) as Hy end.
  { eapply yields_bind; [apply keeps_chain, frames_mark|intros _ _]. eapply yields_bind; [apply keeps_awake|intros _ _]. apply keeps_execute_tasks. }
  intros E. by eapply Hy.
Qed.

(** *** The peers a block brings *)

Lemma received_all t t' peer h (pt pt' : PeersTasks MP) : on_block_received t t' peer h pt = Some pt' → pt_all pt' = pt_all pt.
Proof.
  unfold on_block_received. cbn [pt_blocks_requests pt_stats]. destruct (lhm_get peer _) as [r|]; [|by intros [= <-]].
  case_decide; [by intros [= <-]|]. destruct (on_stats peer (responded t) _) as [stats|]; [|done]. cbn [mbind option_bind]. case_decide.
  - destruct (lhm_remove peer _) as [[x|] ?]; [|done]. cbn [mbind option_bind]. by intros [= <-].
  - destruct (on_stats _ _ _); [|done]. by intros [= <-].
Qed.

Lemma useful_all peer (pt pt' : PeersTasks MP) : useful_peer peer pt = Some pt' → pt_all pt' = {[peer]} ∪ pt_all pt.
Proof. unfold useful_peer. destruct (_ || _); [destruct peer_stats_new; [|done]|]; by intros [= <-]. Qed.

Lemma block_all peer block c r c' : core_on_block precise_time_s peer block c = Some (r, c') →
  pt_all (co_peers_tasks c') ⊆ {[peer]} ∪ pt_all (co_peers_tasks c).
Proof.
  set (I := λ c1 : Core, pt_all (co_peers_tasks c1) ⊆ {[peer]} ∪ pt_all (co_peers_tasks c)).
  assert (yields I (on_tasks (useful_peer peer)) (λ _, True)) as Huse.
  { apply yields_tasks. unfold I. intros c1 pt Hi E%useful_all. cbn. rewrite E. set_solver. }
  assert (yields I (misbehaving peer) (λ _, True)) as Hmis by (intros c1 a c2 Hi E; by injection E as _ <-).
  assert (yields I (core_on_block precise_time_s peer block) (λ _, True)) as Hy.
  { unfold core_on_block, on_new_block, on_block_to_verify, on_orphan_unknown, remember_verifying. repeat match goal with
    | |- yields _ (mret _) _ => by apply yields_ret
    | |- yields _ (cm_gets _) _ => by apply yields_gets
    | |- yields _ (cm_query _) _ => apply yields_query
    | |- yields _ (cm_modify _) _ => by apply yields_modify
    | |- yields _ (now_s _) _ => by apply yields_now
    | |- yields _ (on_pool _) _ => by apply yields_pool
    | |- yields _ (on_chain _) _ => by apply yields_chain
    | |- yields _ (mbind _ _) _ => apply (yields_bind _ _ _ (λ _, True)); [|intros ? ?]
    | |- yields _ (match ?x with _ => _ end) _ => destruct x
    | |- yields _ _ _ => first [done|progress cbn zeta]
    end. apply yields_tasks. unfold I. intros c1 pt Hi E%received_all. cbn. by rewrite E. }
  intros E. apply (Hy c r c'); [|done]. unfold I. set_solver.
Qed.
End client.
