(* ===== verification/NodeSafe.v ===== *)
(** * Runs of the node

    The client, the server and the verification thread on one store: whatever
    peers send, the run goes on until it ends or a verification panics for a
    reason that is named; what is stored was judged by the verifier on the node's
    own store and its chain is a longest branch, and nothing is lost between the
    parts. *)

From S2P Require Import Prelude External Primitives Serialization Compact Crypto Chain.
From S2P Require Import Storage Network Work Verification Kv KvRefine BlockChainDb ChainInv ChainOps.
From S2P Require Import HashQueue HeadersChain SyncChain SyncOps Locator SyncQueues.
From S2P Require Import Message MessageTypes SpeedMeter Collections PeersTasks OrphanPool Peers.
From S2P Require Import ClientCore ClientChain ClientInv ClientRun ClientSafe Server ServerSafe Writer Tree Judge WriterSafe Node NodeFrame.
From stdpp Require Import gmap.
#[local] Open Scope Z_scope.

(** ** A block the verifier has accepted has its place in the store *)

Section accepted.
Context {R : RugOps} {V : VrfOps} {P : Profile}.
Context {T : Type} {K : KeyValueDatabase T} {KS : KvSpec T}.

Lemma accepted_attached (d : BlockChainDatabase T) root chain b origin : tree_ok d root chain → Z.of_nat (length chain) + 1 < 2 ^ 32 →
  ib_hash b ≠ hash_default → v_contains (db_view d) (ib_hash b) = false →
  cs_block_origin (store_of d) (ib_header b) = Ok origin → attached d b.
Proof.
  intros [Hs Hg Hroot Hlong] Hlen Hz Hnew Ho. assert (chain ≠ []) as Hne by (by intros ->). cbn in Ho. unfold read_of in Ho.
  change (previous_header_hash (ih_raw (ib_header b))) with (ib_parent b) in *.
  destruct (v_contains (db_view d) (ib_parent b)) eqn:Hp.
  - pose proof Hp as Hp'. apply (v_contains_block _ _ _ Hs) in Hp'. destruct (Hroot _ Hp') as [n Hn]. pose proof (Hlong _ _ Hn) as Hlt.
    destruct (branch_of _ _ _ _ (proj2 Hs) Hg _ _ Hn) as (a & anc & route & Ha & Hl & Hr & Htip & Ea).
    destruct (block_origin_side d chain (ib_header b) a anc route Hs ltac:(lia) Hne Hnew Hp Ha Hl Hr ltac:(lia) Htip) as (d' & E & _).
    rewrite E in Ho. split; [done|]. split; [done|]. exists chain, a, anc, route. split_and!; try done.
    case_decide as Hb; [|by case_decide].
    destruct (decide (route = [])) as [->|Hne']; [unfold MAX_FORK_ROUTE_PRESET; cbn; lia|]. exfalso.
    change (previous_header_hash (ih_raw (ib_header b))) with (ib_parent b) in Hb. rewrite Hb in Htip.
    destruct route as [|x route _] using rev_ind; [done|]. rewrite tip_snoc in Htip. apply (Hr x); [set_solver|].
    rewrite (ci_best _ _ _ (proj2 Hs)) in Htip. rewrite <-Htip.
    destruct chain as [|y l _] using rev_ind; [done|]. rewrite best_of_snoc. cbn. set_solver.
  - destruct (block_origin_checks d chain (ib_header b) Hs ltac:(lia) Hne) as (d' & _ & E).
    change (previous_header_hash (ih_raw (ib_header b))) with (ib_parent b) in *.
    change (ih_hash (ib_header b)) with (ib_hash b) in E. rewrite Hnew, Hp in E.
    destruct (hash_eq _ _) eqn:Eb; [|by rewrite E in Ho]. apply hash_eq_true in Eb. rewrite <-Eb in Hp.
    by rewrite (ci_best_contained _ _ _ (proj2 Hs) Hne) in Hp.
Qed.
End accepted.

(** ** The invariant *)

Section node.
Context {U : U256Ops} {UL : U256Laws U} {R : RugOps} {RL : RugLaws R} {H : Sha256Ops} {V : VrfOps} {P : Profile}.
Context {T : Type} {K : KeyValueDatabase T} {KS : KvSpec T}.
Context {MP : Type → Type} {LP : LinkedHashMap PeerIndex MP} {LPL : LinkedHashMapLaws PeerIndex MP}.
Context {MH : Type → Type} {LH : LinkedHashMap H256 MH} {LHL : LinkedHashMapLaws H256 MH}.
Context {OP : HashOrder PeerIndex} {OH : HashOrder H256}.
Context {C : Type} (network : Network) (precise_time_s : nat → f64) (get_time : nat → Z).
Context (W : Universe).

Abbreviation Core := (Core (T:=T) (MP:=MP) (MH:=MH) (C:=C) (F:=ServerTask)).
Abbreviation CM := (CM (T:=T) (MP:=MP) (MH:=MH) (C:=C) (F:=ServerTask)).
Abbreviation Node := (LocalNode (T:=T) (MP:=MP) (MH:=MH) (C:=C)).
Abbreviation NM := (NM (T:=T) (MP:=MP) (MH:=MH) (C:=C)).
Abbreviation well := (well (T:=T) (MP:=MP) (MH:=MH) (C:=C) (F:=ServerTask) W).
Abbreviation inv := (inv (T:=T) (MP:=MP) (MH:=MH) (C:=C) (F:=ServerTask) W).
Implicit Types n : Node.

Definition node_store n : BlockChainDatabase T := sc_storage (co_chain (nd_core n)).

(** The clock as the verification thread is about to read it. *)
Definition node_clock n : Z := get_time (co_readings (nd_core n)).

(** The verification thread panics over the block at the head of its channel. *)
Definition node_panics n : Prop :=
  ∃ b work, nd_work n = VerifyBlock b :: work ∧ verification_panics network (node_store n) (node_clock n) b.

(** The blocks of the channel. *)
Definition to_verify (tasks : list VerificationTask) : list H256 :=
  omap (λ t, match t with VerifyBlock b => Some (ib_hash b) | StopVerification => None end) tasks.

(** The node started on the store [first]; the verifier has accepted some
    blocks since. *)
Section run.
Context (root : H256) (params : VerificationParameters) (first : BlockChainDatabase T) (accepted : IndexedBlock → Prop).
Context (Hlevel : verification_level params ≠ NoVerification).

Record node_ok n : Prop := {
  no_core : well (nd_core n);
  no_tree : ∃ hs, tree_ok (node_store n) root hs;
  no_valid h blk : v_block (db_view (node_store n)) h = Some blk →
    v_block (db_view first) h = Some blk ∨ ∃ b, accepted b ∧ ib_hash b = h ∧ block_of b = blk;
  no_first h blk : v_block (db_view first) h = Some blk → v_block (db_view (node_store n)) h = Some blk;
  no_work h : h ∈ verifying (co_chain (nd_core n)) → h ∈ to_verify (nd_work n);
  no_tasks : within (λ p, p ≤ nd_counter n) (co_peers_tasks (nd_core n));
  no_peers p : is_Some (co_peers (nd_core n) !! p) → p ≤ nd_counter n;
  no_counter : 0 ≤ nd_counter n;
  no_server : server_ok (nd_server n);
  no_params : cw_params (nd_verifier n) = params;
  no_config : close_connection_on_bad_block (co_config (nd_core n)) = false;
  no_stop : ¬ StopVerification ∈ nd_work n;
}.

(** What the parts around the core keep. *)
Abbreviation kept_in n := (kept (node_store n) (λ h, h ∈ to_verify (nd_work n)) (λ p, p ≤ nd_counter n) (λ p, p ≤ nd_counter n)
  (co_config (nd_core n))).

Lemma node_kept n : node_ok n → kept_in n (nd_core n).
Proof. intros [Hw [hs Ht] Hv Hf Hwork Htasks Hp Hc Hs Hpar Hcfg Hstop]. split; try done. by destruct (tk_inv _ _ _ Ht) as [Hd _]. Qed.

(** A core that is well and has kept its bounds. *)
Lemma node_ok_core n c server : node_ok n → well c → kept_in n c → server_ok server →
  node_ok (mkLocalNode c server (nd_work n) (nd_verifier n) (nd_counter n)).
Proof.
  intros [Hw [hs Ht] Hv Hf Hwork Htasks Hp Hc Hs Hpar Hcfg Hstop] Hw' [Kst Kv Kt Kp Kc] Hs'. split; cbn; try done.
  - exists hs. by eapply tree_unchanged.
  - intros h blk Hb. apply Hv. rewrite <-(block_unchanged _ _ h Kst). exact Hb.
  - intros h blk Hb%Hf. rewrite <-(block_unchanged _ _ h Kst) in Hb. exact Hb.
  - by rewrite Kc.
Qed.

Lemma request_ok t s : server_ok s → server_ok (server_request t s).
Proof. intros (Hq & Hstop & Hwk). destruct (add_back_ok t (sv_queue s) Hq) as (Hq' & Estop & _). split; [exact Hq'|].
  split; [exact (eq_trans Estop Hstop)|done].
Qed.

Lemma requests_ok ts s : server_ok s → server_ok (foldl (λ s t, server_request t s) s ts).
Proof. revert s. induction ts as [|t ts IH]; intros s Hs; [done|]. by apply IH, request_ok. Qed.

Lemma well_effects l c : well c → well (set_effects l c).
Proof. intros [g Hi]. by exists g. Qed.

(** A call of the core. *)
Lemma on_core_run {A} (m : CM A) n a c : m (nd_core n) = Some (a, c) → ∃ server,
  on_core m n = Some (a, mkLocalNode (set_effects (node_calls c) c) server (nd_work n) (nd_verifier n) (nd_counter n)) ∧
  (server_ok (nd_server n) → server_ok server).
Proof. intros E. eexists. split; [unfold on_core; by rewrite E|]. apply requests_ok. Qed.

Lemma core_step {A} (m : CM A) n : node_ok n → runs m (nd_core n) (λ _, well) → yields (kept_in n) m (λ _, True) →
  ∃ a n', on_core m n = Some (a, n') ∧ node_ok n' ∧ nd_counter n' = nd_counter n ∧ nd_work n' = nd_work n.
Proof.
  intros Hn (a & c & E & Hw) Hy. destruct (on_core_run m n a c E) as (server & E' & Hs). eexists a, _. split; [exact E'|].
  split; [|done]. apply node_ok_core; [done|by apply well_effects| |by apply Hs, Hn].
  destruct (Hy _ _ _ (node_kept n Hn) E) as [Hk _]. by eapply kept_same.
Qed.

(** *** Computations of the node *)

Definition does {A} (m : NM A) n (Q : A → Node → Prop) : Prop := ∃ a n', m n = Some (a, n') ∧ Q a n'.

Lemma does_ret {A} (a : A) n (Q : A → Node → Prop) : Q a n → does (mret a) n Q.
Proof. intros HQ. by exists a, n. Qed.

Lemma does_bind {A B} (m : NM A) (k : A → NM B) n Q Q' : does m n Q → (∀ a n', Q a n' → does (k a) n' Q') → does (m ≫= k) n Q'.
Proof.
  intros (a & n1 & E & HQ) Hk. destruct (Hk a n1 HQ) as (b & n2 & E2 & HQ2). exists b, n2. split; [|done].
  unfold mbind, NM_bind. by rewrite E.
Qed.

Lemma does_mono {A} (m : NM A) n (Q Q' : A → Node → Prop) : does m n Q → (∀ a n', Q a n' → Q' a n') → does m n Q'.
Proof. intros (a & n' & E & HQ) Hm. exists a, n'. auto. Qed.

(** A step of the node that leaves the sessions and the channel alone. *)
Definition calm_step n {A} (a : A) n' : Prop := node_ok n' ∧ nd_counter n' = nd_counter n ∧ nd_work n' = nd_work n.

Lemma does_core {A} (m : CM A) n : node_ok n → runs m (nd_core n) (λ _, well) → yields (kept_in n) m (λ _, True) →
  does (on_core m) n (calm_step n).
Proof. intros Hn Hr Hy. destruct (core_step m n Hn Hr Hy) as (a & n' & E & Hok). by exists a, n'. Qed.

Lemma does_peers f n : node_ok n → (∀ peers p, is_Some (f peers !! p) → is_Some (peers !! p)) → does (on_peers f) n (calm_step n).
Proof.
  intros Hn Hf. apply does_core; [done| |].
  - destruct (no_core _ Hn) as [g Hi]. apply runs_modify. by exists g.
  - apply yields_modify. intros c [Hs Hv Ht Hp Hc]. split; cbn; try done. intros p Hx%Hf. by apply Hp.
Qed.

Lemma alter_keys f peer (peers : PeersImpl (M:=MH) (C:=C)) p : is_Some (on_peer peer f peers !! p) → is_Some (peers !! p).
Proof.
  intros [x Hx]. unfold on_peer in Hx. apply (lookup_alter_Some (M:=gmap PeerIndex) f peers peer p x) in Hx as [(-> & y & Hy & _)|[_ Hy]]; by eexists.
Qed.

Lemma remove_keys peer (peers : PeersImpl (M:=MH) (C:=C)) p : is_Some (peers_remove peer peers !! p) → is_Some (peers !! p).
Proof. intros [x Hx]. apply (lookup_delete_Some (M:=gmap PeerIndex) peers peer p x) in Hx as [_ Hx]. by eexists. Qed.

(** *** What may happen *)

(** Enough room: the sizes fit 32 bits, there are less than 2^24 peers. *)
Definition room (more : nat) n : Prop := Z.of_nat (client_size (nd_core n) + more + 4096) < 2 ^ 31 ∧ few_peers (nd_core n).

Lemma room_ghost more n g : room more n → inv g [] (nd_core n) →
  Z.of_nat (g_size g + 2 * pool_blocks (orphaned_blocks (co_orphaned_blocks_pool (nd_core n))) + more + 4096) < 2 ^ 31 ∧ small g.
Proof. intros [Hr _] Hi. pose proof (inv_size W g [] _ Hi) as Es. unfold small. rewrite Es. split; [done|]. lia. Qed.

Lemma verifying_of_rep (k : SyncChain T) l ls : hqc_rep (sc_hash_chain k) (l :: ls) → verifying k = l.
Proof. unfold hqc_rep, verifying, first_queue. intros Hq. inversion Hq as [|q1 ? l1 ? (E1 & _) _ Eq1]. done. Qed.

Lemma verifying_ghost (k : SyncChain T) g : chain_ok W k g → verifying k = g_v g.
Proof. intros Hc. eapply verifying_of_rep, (si_queues _ _ _ _ (ck_inv _ _ _ Hc)). Qed.

(** *** Sessions *)

Lemma session_step services connection version n : node_ok n → room 0 n → nd_counter n + 1 < 2 ^ 64 →
  does (peer ← create_sync_session services connection; start_sync_session precise_time_s peer version) n (λ _, node_ok).
Proof.
  intros Hn Hroom Hfit. pose proof Hn as [Hw [hs Ht] Hv Hf Hwork Htasks Hp Hc Hs Hpar Hcfg Hstop].
  eapply (does_bind _ _ _ (λ p n', p = nd_counter n + 1 ∧ node_ok n' ∧ nd_counter n' = p ∧ room 0 n' ∧ ¬ occurs (co_peers_tasks (nd_core n')) p)).
  { eexists _, _. split.
    - unfold create_sync_session, usize_add. destruct (Z.leb_spec (2 ^ 64) (nd_counter n + 1)); [lia|]. cbn [andb mbind option_bind].
      rewrite wrap_small by (unfold fits; lia). unfold peers_insert. rewrite bool_decide_true; [reflexivity|].
      apply eq_None_not_Some. intros Hx%Hp. lia.
    - cbn [nd_counter nd_core co_peers_tasks set_peers]. split; [done|]. split_and!; [|done|done|].
      + split; cbn; try done.
        * by exists hs.
        * intros p Ho. specialize (Htasks p Ho). cbn in Htasks. lia.
        * intros p Hx. destruct (decide (p = nd_counter n + 1)) as [->|Hne]; [lia|].
          unfold PeersImpl in *. rewrite lookup_insert_ne in Hx by done. apply Hp in Hx. lia.
        * lia.
      + intros Ho%Htasks. cbn in Ho. lia. }
  intros p n1 (-> & Hn1 & Ec & Hroom1 & Hfresh). unfold start_sync_session, node_on_connect.
  eapply (does_bind _ _ _ (λ _ n', node_ok n' ∧ nd_counter n' = nd_counter n + 1 ∧ room 0 n' ∧ ¬ occurs (co_peers_tasks (nd_core n')) (nd_counter n + 1))).
  { destruct (negb _); [|by apply does_ret].
    destruct (does_peers (set_transaction_announcement_type (nd_counter n + 1) TxDoNotAnnounce) n1 Hn1) as (x & n2 & E & Hn2 & Ec2 & _);
      [intros peers p; apply alter_keys|].
    exists x, n2. split; [done|]. split; [done|]. rewrite Ec2. split; [done|].
    unfold on_peers, on_core in E. cbn in E. by injection E as _ <-. }
  intros [] n2 (Hn2 & Ec2 & Hroom2 & Hfresh2). destruct (no_core _ Hn2) as [g Hi].
  destruct (room_ghost _ _ _ Hroom2 Hi) as [_ Hsmall].
  eapply does_mono; [apply does_core; [done| |]|by intros [] n3 [? _]].
  - apply (connect_well precise_time_s W _ _ g); [done..|]. intros Hb. apply Hfresh2. do 3 right. by left.
  - apply keeps_connect. rewrite Ec2. done.
Qed.

Lemma closed_step peer n : node_ok n → room 0 n → peer ≤ nd_counter n → does (close_session precise_time_s peer) n (λ _, node_ok).
Proof.
  intros Hn Hroom Hp. unfold close_session, node_on_disconnect.
  eapply (does_bind _ _ _ (λ _ n', node_ok n' ∧ nd_counter n' = nd_counter n ∧ room 0 n')).
  { destruct (does_peers (peers_remove peer) n Hn) as (x & n2 & E & Hn2 & Ec2 & _); [intros peers p; apply remove_keys|].
    exists x, n2. split; [done|]. split; [done|]. split; [done|]. unfold on_peers, on_core in E. cbn in E. by injection E as _ <-. }
  intros [] n2 (Hn2 & Ec2 & Hroom2). destruct (no_core _ Hn2) as [g Hi]. destruct (room_ghost _ _ _ Hroom2 Hi) as [_ Hsmall].
  eapply does_mono; [apply does_core; [done| |]|by intros [] n3 [? _]].
  - apply (disconnect_well precise_time_s W _ _ g); [done..|]. apply Hroom2.
  - apply keeps_disconnect. by rewrite Ec2.
Qed.

(** *** Messages *)

Lemma does_handler {A} (m : CM A) n : node_ok n → (∀ g, inv g [] (nd_core n) → runs m (nd_core n) (λ _, well)) →
  yields (kept_in n) m (λ _, True) → does (on_core m) n (λ _, node_ok).
Proof.
  intros Hn Hr Hy. destruct (no_core _ Hn) as [g Hi]. eapply does_mono; [apply does_core; [done|by eapply Hr|done]|].
  by intros a n' [? _].
Qed.

Lemma dos_step peer n : node_ok n → does (node_dos peer) n (λ _, node_ok).
Proof. intros Hn. apply does_handler; [done| |apply keeps_dos]. intros g Hi. eexists _, _. split; [reflexivity|]. by exists g. Qed.

Lemma server_step_ok task n : node_ok n → does (on_server (server_request task)) n (λ _, node_ok).
Proof.
  intros Hn. eexists _, _. split; [reflexivity|]. apply node_ok_core; [done|apply Hn|by apply node_kept|]. by apply request_ok, Hn.
Qed.

Lemma inventory_step peer m n : node_ok n → does (inbound_on_inventory peer m) n (λ _, node_ok).
Proof.
  intros Hn. unfold inbound_on_inventory. case_decide; [by apply does_ret|]. destruct (_ <? _)%nat; [by apply dos_step|].
  apply does_handler; [done| |apply keeps_inventory]. intros g Hi. by apply (inventory_well W peer m _ g).
Qed.

Lemma getdata_step peer m n : node_ok n → does (inbound_on_getdata peer m) n (λ _, node_ok).
Proof.
  intros Hn. unfold inbound_on_getdata. case_decide; [by apply does_ret|]. destruct (_ <? _)%nat; [by apply dos_step|].
  by apply server_step_ok.
Qed.

Lemma getheaders_step peer m id n : node_ok n → does (inbound_on_getheaders peer m id) n (λ _, node_ok).
Proof.
  intros Hn. apply does_handler; [done| |apply keeps_after_verified]. intros g Hi. by apply (nearly_verified_well W peer _ _ g).
Qed.

Lemma sendheaders_step peer n : node_ok n → does (inbound_on_sendheaders peer) n (λ _, node_ok).
Proof.
  intros Hn. eapply does_mono; [apply does_peers; [done|intros peers p; apply alter_keys]|by intros a n' [? _]].
Qed.

Lemma notfound_step peer m n : node_ok n → room 0 n → peer ≤ nd_counter n →
  does (inbound_on_notfound precise_time_s peer m) n (λ _, node_ok).
Proof.
  intros Hn Hroom Hp. apply does_handler; [done| |by apply keeps_notfound]. intros g Hi.
  destruct (room_ghost _ _ _ Hroom Hi) as [_ Hs]. apply (notfound_well precise_time_s W peer m _ g); [done..|]. apply Hroom.
Qed.

Lemma headers_step peer m n : clock_ok get_time → node_ok n → room (2 * length (hm_headers m)) n → peer ≤ nd_counter n →
  Forall (known_header W) (indexed_header_from_raw <$> hm_headers m) →
  does (inbound_on_headers network precise_time_s get_time peer m) n (λ _, node_ok).
Proof.
  intros Hclock Hn Hroom Hp Hk. unfold inbound_on_headers. case_decide as Hne; [by apply does_ret|].
  destruct (_ <? _)%nat; [by apply dos_step|]. apply does_handler; [done| |by apply keeps_core_headers]. intros g Hi.
  destruct (room_ghost _ _ _ Hroom Hi) as [Hs _]. apply (headers_well network precise_time_s get_time W peer _ _ g); try done.
  - rewrite length_fmap. lia.
  - apply Hroom.
  - by intros E%fmap_nil_inv.
Qed.

Lemma manage_step n : node_ok n → room 0 n → does (management_thread precise_time_s) n (λ _, node_ok).
Proof.
  intros Hn Hroom. apply does_handler; [done| |apply keeps_management]. intros g Hi.
  destruct (room_ghost _ _ _ Hroom Hi) as [_ Hs]. apply (management_well precise_time_s W _ g); [done..|]. apply Hroom.
Qed.

(** *** Blocks *)

Lemma push_blocks blocks n : async_verify_blocks blocks n =
  Some (tt, mkLocalNode (nd_core n) (nd_server n) (nd_work n ++ (VerifyBlock <$> blocks)) (nd_verifier n) (nd_counter n)).
Proof.
  revert n. induction blocks as [|b blocks IH]; intros n; cbn [async_verify_blocks]; [rewrite app_nil_r; by destruct n|].
  unfold mbind, NM_bind. cbn [async_verify_block]. rewrite IH. cbn. by rewrite <-app_assoc.
Qed.

Lemma to_verify_push tasks blocks : to_verify (tasks ++ (VerifyBlock <$> blocks)) = to_verify tasks ++ (ib_hash <$> blocks).
Proof. unfold to_verify. rewrite omap_app. f_equal. induction blocks as [|b l IH]; cbn; [done|]. by f_equal. Qed.

(** After the block: the client is saturated, or asks for more. *)
Lemma finish_well c g : inv g [] c → small g → few c →
  runs (saturated ← try_switch_to_saturated_state;
        if saturated : bool then mret tt else execute_synchronization_tasks precise_time_s None None) c (λ _, well).
Proof.
  intros Hi Hs Hf. destruct (try_saturate_well W c g Hi Hs) as (b & c1 & E & Hw). apply runs_bind. exists b, c1. split; [done|].
  destruct b; [by apply runs_ret|]. eapply (execute_well precise_time_s W None None c1 g []); [|done|..|by intros h ?%not_elem_of_nil].
  all: assert (c1 = c) as ->; [|done].
  all: unfold try_switch_to_saturated_state in E; apply bind_inv in E as (x & c2 & E1 & E); apply bind_inv in E as (y & c3 & E2 & E).
  all: unfold chain_length, cm_query in E1; destruct (length_of_blocks_state _ Scheduled) as [x'|]; [|done]; injection E1 as <- <-.
  all: assert (c3 = c) as -> by (destruct (_ =? _); [unfold chain_length, cm_query in E2; destruct (length_of_blocks_state _ Requested); [by injection E2|done]|by injection E2]).
  all: cbn zeta in E; apply bind_inv in E as ([] & c4 & E4 & E); injection E as E <-; rewrite E in E4; by injection E4.
Qed.

Lemma block_step peer b n : node_ok n → room 0 n → peer ≤ nd_counter n → known_header W (ib_header b) →
  does (client_on_block precise_time_s peer b) n (λ _, node_ok).
Proof.
  intros Hn Hroom Hp Hk. destruct (no_core _ Hn) as [g Hi]. destruct (room_ghost _ _ _ Hroom Hi) as [Hsz Hs].
  destruct (block_inv precise_time_s W peer b _ g Hi) as (r & c1 & E & g1 & Hi1 & Hr); [left; apply Hn|lia|done|].
  assert (small g1 ∧ ∀ h, h ∈ g_v g1 → h ∈ g_v g ∨ h ∈ ib_hash <$> default [] r) as [Hs1 Hv1].
  { destruct r as [blocks|].
    - destruct Hr as (_ & _ & _ & _ & _ & Ev & _ & _ & _ & Hsm). split; [done|]. intros h. rewrite Ev, elem_of_app. done.
    - split; [by eapply calm_small|]. destruct Hr as (_ & _ & -> & _). by left. }
  destruct (on_core_run _ n r c1 E) as (server & E1 & Hserver). specialize (Hserver (no_server _ Hn)).
  destruct (keeps_block precise_time_s (node_store n) (λ _, True) (λ p, p ≤ nd_counter n) (λ p, p ≤ nd_counter n) (co_config (nd_core n))
    peer b Hp ltac:(done) (nd_core n) r c1) as [[Kst Kv Kt Kp Kc] _]; [|done|].
  { destruct (node_kept n Hn) as [? ? ? ? ?]. by split. }
  unfold client_on_block. eapply (does_bind _ _ _ (λ r' n', r' = r ∧ n' = mkLocalNode (set_effects (node_calls c1) c1) server (nd_work n) (nd_verifier n) (nd_counter n))).
  { by eexists _, _. }
  intros r' n1 [-> ->]. set (n2 := mkLocalNode (set_effects (node_calls c1) c1) server (nd_work n ++ (VerifyBlock <$> default [] r)) (nd_verifier n) (nd_counter n)).
  eapply (does_bind _ _ _ (λ _ n', n' = n2)); [eexists _, _; split; [apply push_blocks|done]|]. intros [] ? ->.
  assert (node_ok n2) as Hn2.
  { destruct Hn as [Hw [hs Ht] Hv Hf Hwork Htasks Hpe Hc Hsv Hpar Hcfg Hstop]. split; cbn; try done.
    - by exists g1.
    - exists hs. by eapply tree_unchanged.
    - intros h blk Hb. apply Hv. rewrite <-(block_unchanged _ _ h Kst). exact Hb.
    - intros h blk Hb%Hf. rewrite <-(block_unchanged _ _ h Kst) in Hb. exact Hb.
    - intros h Hh. rewrite to_verify_push, elem_of_app. rewrite (verifying_ghost _ g1) in Hh by apply Hi1.
      destruct (Hv1 h Hh) as [Hg|?]; [left|by right]. apply Hwork. by rewrite (verifying_ghost _ g) by apply Hi.
    - by rewrite Kc.
    - intros [?|(b' & [=] & _)%list_elem_of_fmap]%elem_of_app. done. }
  eapply does_mono; [apply does_core; [done| |]|by intros a n' [? _]].
  - apply (finish_well _ g1); [done|done|]. eapply few_peers_one; [apply Hroom|]. exact (block_all precise_time_s peer b _ r c1 E).
  - eapply yields_bind; [apply keeps_try_saturated|]. intros [] _; [by apply yields_ret|apply keeps_execute_tasks].
Qed.

Lemma inbound_block_step peer block n : node_ok n → room 0 n → peer ≤ nd_counter n →
  known_header W (ib_header (indexed_block_from_raw block)) → does (inbound_on_block precise_time_s peer block) n (λ _, node_ok).
Proof.
  intros Hn Hroom Hp Hk. unfold inbound_on_block. cbn zeta.
  eapply (does_bind _ _ _ (λ _ n', node_ok n' ∧ nd_counter n' = nd_counter n ∧ room 0 n')).
  { destruct (does_peers (peers_hash_known_as peer (ib_hash (indexed_block_from_raw block)) KnownBlockHash) n Hn) as (x & n2 & E & Hn2 & Ec2 & _);
      [intros peers p; apply alter_keys|].
    exists x, n2. split; [done|]. split; [done|]. split; [done|]. unfold on_peers, on_core in E. cbn in E. by injection E as _ <-. }
  intros [] n2 (Hn2 & Ec2 & Hroom2). apply block_step; [done..|by rewrite Ec2|done].
Qed.

(** *** Verification *)

(** A store that has grown by blocks that were accepted. *)
Definition grown (s s' : BlockChainDatabase T) : Prop :=
  ∀ h blk, (v_block (db_view s) h = Some blk → v_block (db_view s') h = Some blk) ∧
    (v_block (db_view s') h = Some blk → v_block (db_view s) h = Some blk ∨ ∃ b, accepted b ∧ ib_hash b = h ∧ block_of b = blk).

Lemma grown_refl s : grown s s.
Proof. split; [done|by left]. Qed.

(** The rest of the channel has what is left under verification, on a store
    that has grown. *)
Lemma verified_ok n n' server w hs : node_ok n → well (nd_core n') →
  kept (node_store n') (λ h, h ∈ to_verify (nd_work n')) (λ p, p ≤ nd_counter n) (λ p, p ≤ nd_counter n) (co_config (nd_core n)) (nd_core n') →
  tree_ok (node_store n') root hs → grown (node_store n) (node_store n') →
  server_ok server → cw_params w = params → nd_server n' = server → nd_verifier n' = w → nd_counter n' = nd_counter n →
  (∃ t, nd_work n = t :: nd_work n') → node_ok n'.
Proof.
  intros [Hw _ Hv Hf Hwork Htasks Hp Hc Hs Hpar Hcfg Hstop] Hw' [Kst Kv Kt Kp Kc] Ht Hh Hsv Hpw <- <- Ecnt [t Ework]. split; rewrite ?Ecnt; try done.
  - by exists hs.
  - intros h blk [Hold|?]%(Hh h blk); [by apply Hv|by right].
  - intros h blk Hh'. by apply (Hh h), Hf.
  - by rewrite Kc.
  - intros Hin. apply Hstop. rewrite Ework. by right.
Qed.

Lemma wrapper_level (d : BlockChainDatabase T) now b w : cw_params w = params →
  ∃ level enforced, level ≠ NoVerification ∧
    wrapper_verify_block network d now b w = (r ← verify_block (store_of d) network now level b; Some (r, mkChainVerifierWrapper params enforced)).
Proof. intros <-. eexists _, _. split; [|reflexivity]. by case_match. Qed.

Lemma to_verify_cons b tasks h : h ∈ to_verify (VerifyBlock b :: tasks) ↔ h = ib_hash b ∨ h ∈ to_verify tasks.
Proof. unfold to_verify. cbn. by rewrite elem_of_cons. Qed.

Lemma chain_length_ghost n g hs : inv g [] (nd_core n) → tree_ok (node_store n) root hs → g_hs g = hs.
Proof. intros Hi Ht. eapply state_inv_unique; [apply (ck_inv _ _ _ (iv_chain _ _ _ _ _ _ _ _ _ Hi))|apply Ht]. Qed.

(** The chain without the verified block, and with the block stored. *)
Lemma verified_stored b work n g hs p k1 k2 : node_ok n → inv g [] (nd_core n) → tree_ok (node_store n) root hs →
  Z.of_nat (length hs) + 1 < 2 ^ 32 → nd_work n = VerifyBlock b :: work → ib_hash b ≠ hash_default →
  (ib_hash b ∈ g_v g → attached (node_store n) b ∧ v_contains (db_view (node_store n)) (ib_hash b) = false) → accepted b →
  forget_block_with_state_leave_header (ib_hash b) Verifying (co_chain (nd_core n)) = Some (p, k1) →
  p = Missing ∧ k2 = k1 ∨ p ≠ Missing ∧ (∃ r, insert_best_block b k1 = Some (Ok r, k2)) →
  ∃ hs', tree_ok (sc_storage k2) root hs' ∧ (∀ h, h ∈ verifying k2 → h ∈ to_verify work) ∧
    grown (node_store n) (sc_storage k2).
Proof.
  intros Hn Hi Ht Hlen Ework Hz Hatt Hj E1 Hk2. pose proof (chain_length_ghost n g hs Hi Ht) as Ehs.
  destruct (spec_forget_verifying W (ib_hash b) _ g (iv_chain _ _ _ _ _ _ _ _ _ Hi)) as (p' & k1' & E1' & Hp & Hc1).
  rewrite E1 in E1'. injection E1' as <- <-.
  assert (sc_storage k1 = node_store n) as Es.
  { assert (keeps_store (forget_block_with_state_leave_header (T:=T) (ib_hash b) Verifying)) as Hk; [|by apply (Hk _ _ _ E1)].
    unfold forget_block_with_state_leave_header. apply keeps_bind; [apply keeps_lift|intros i; apply keeps_hashes]. }
  assert (∀ h, h ∈ filter (λ x, x ≠ ib_hash b) (g_v g) → h ∈ to_verify work) as Hleft.
  { intros h [Hne Hv]%list_elem_of_filter.
    assert (h ∈ to_verify (nd_work n)) as Hin by (apply (no_work _ Hn); by rewrite (verifying_ghost _ g) by apply Hi).
    rewrite Ework in Hin. by apply to_verify_cons in Hin as [?|?]. }
  destruct Hk2 as [[-> ->]|[Hne (r & Er)]].
  { exists hs. rewrite Es. split_and!; [done| |apply grown_refl]. intros h. rewrite (verifying_ghost _ _ Hc1). apply Hleft. }
  assert (ib_hash b ∈ g_v g) as Hv by (destruct (decide (ib_hash b ∈ g_v g)); [done|by destruct Hne; apply Hp]).
  destruct (Hatt Hv) as [(_ & Hpar & _) Hnew].
  destruct (insert_tree k1 root hs _ _ b ltac:(rewrite <-Ehs; exact (ck_inv _ _ _ Hc1))) as (r' & k2' & hs' & hd' & Er' & Hs' & Ht' & _ & _ & Hst);
    [by rewrite Es|done|done|by rewrite Es|by rewrite Es|].
  rewrite Er in Er'. injection Er' as <- <-. exists hs'. split_and!; [done| |].
  - intros h. rewrite (verifying_of_rep _ _ _ (si_queues _ _ _ _ Hs')). apply Hleft.
  - intros h blk. rewrite (block_stores _ _ _ h Hst), Es. case_decide as Eh; [|split; [done|by left]]. subst h.
    pose proof (v_contains_none _ _ _ (tk_inv _ _ _ Ht) Hnew) as Hnone. split; [congruence|]. intros [= <-]. right. by exists b.
Qed.

(** The core after a task of the channel, when the rest has been kept. *)
Lemma task_done n c' t work w' server k hs : node_ok n → nd_work n = t :: work → well c' → server_ok server → cw_params w' = params →
  tree_ok (sc_storage k) root hs → (∀ h, h ∈ verifying k → h ∈ to_verify work) →
  grown (node_store n) (sc_storage k) →
  (∀ s0 verified known connected config, kept s0 verified known connected config (set_chain k (add_reading (nd_core n))) →
     kept s0 verified known connected config c') →
  node_ok (mkLocalNode (set_effects (node_calls c') c') server work w' (nd_counter n)).
Proof.
  intros Hn Ework Hwell Hsv Hw' Ht' Hv' Hh' Hkept.
  specialize (Hkept (sc_storage k) (λ h, h ∈ to_verify work) (λ p, p ≤ nd_counter n) (λ p, p ≤ nd_counter n) (co_config (nd_core n))).
  destruct (node_kept n Hn) as [_ _ Kt Kp _].
  destruct Hkept as [Kst Kv' Kt' Kp' Kc']; [split; cbn; try done; split; [apply (tk_inv _ _ _ Ht')|done]|].
  eapply (verified_ok n _ server w' hs); try done; cbn.
  - split; cbn; try done. split; [apply Kst|done].
  - by eapply tree_unchanged.
  - intros h blk. specialize (Hh' h blk). rewrite <-(block_unchanged _ _ h Kst) in Hh'. exact Hh'.
  - by exists t.
Qed.

(** No block comes to be requested or scheduled. *)
Definition asks_no_more n n' : Prop :=
  ∀ h, state_of (nd_core n') h = Some Requested ∨ state_of (nd_core n') h = Some Scheduled →
    state_of (nd_core n) h = Some Requested ∨ state_of (nd_core n) h = Some Scheduled.

Lemma resolved_asks n n' g : inv g [] (nd_core n) → resolved W g (nd_core n') → asks_no_more n n'.
Proof.
  intros Hi (g' & Hi' & Hless) h. destruct (state_iff W g [] _ h Hi) as (_ & -> & -> & _). destruct (state_iff W g' [] _ h Hi') as (_ & -> & -> & _).
  rewrite <-!elem_of_app. apply Hless.
Qed.

(** What a round of the verification thread leaves. *)
Definition round_done n (work : list VerificationTask) n' : Prop := node_ok n' ∧ nd_work n' = work ∧ asks_no_more n n'.

Lemma success_step b work w' now level n : node_ok n → room 0 n → nd_work n = VerifyBlock b :: work → ib_hash b ≠ hash_default →
  cw_params w' = params → level ≠ NoVerification → verify_block (store_of (node_store n)) network now level b = Some (Ok tt) → accepted b →
  does (on_core (on_block_verification_success precise_time_s b))
    (mkLocalNode (add_reading (nd_core n)) (nd_server n) work w' (nd_counter n)) (λ _, round_done n work).
Proof.
  intros Hn Hroom Ework Hz Hw' Hl Hok Hacc. destruct (no_core _ Hn) as [g Hi]. destruct (no_tree _ Hn) as [hs Ht].
  destruct (room_ghost _ _ _ Hroom Hi) as [Hsz _].
  assert (Z.of_nat (length hs) + 1 < 2 ^ 32) as Hlen by (rewrite <-(chain_length_ghost n g hs Hi Ht); unfold g_size in Hsz; lia).
  destruct (proj1 (accepted_judged network _ root hs now level b Ht Hl) Hok) as (_ & origin & _ & _ & Ho & _).
  assert (ib_hash b ∈ g_v g → attached (node_store n) b ∧ v_contains (db_view (node_store n)) (ib_hash b) = false) as Hatt.
  { intros Hv. pose proof (iv_chain _ _ _ _ _ _ _ _ _ Hi) as Hc.
    assert (v_contains (db_view (node_store n)) (ib_hash b) = false) as Hnew.
    { unfold node_store. rewrite (ck_stored _ _ _ Hc). apply (ck_new _ _ _ Hc). unfold g_queues. rewrite elem_of_app. by left. }
    split; [|done]. by eapply accepted_attached. }
  set (c0 := add_reading (nd_core n)). assert (inv g [] c0) as Hi0 by done.
  destruct (success_well precise_time_s W b c0 g Hi0) as ([] & c' & E & Hres); [lia|apply Hroom|intros Hv; by apply Hatt|].
  destruct (on_core_run _ (mkLocalNode c0 (nd_server n) work w' (nd_counter n)) tt c' E) as (server & E' & Hsv). eexists _, _. split; [exact E'|].
  destruct (success_parts precise_time_s b c0 c' E) as (p & k1 & k2 & E1 & Hk2 & Hkept).
  destruct (verified_stored b work n g hs p k1 k2 Hn Hi Ht Hlen Ework Hz Hatt Hacc E1 Hk2) as (hs' & Ht' & Hv' & Hh').
  split; [|split; [done|by eapply resolved_asks]].
  by eapply (task_done n c' _ work w' server k2 hs'); [..|by eapply resolved_well|apply Hsv, Hn| | | | |].
Qed.

Lemma error_step b work w' n : node_ok n → room 0 n → nd_work n = VerifyBlock b :: work → cw_params w' = params →
  does (on_core (on_block_verification_error precise_time_s (ib_hash b)))
    (mkLocalNode (add_reading (nd_core n)) (nd_server n) work w' (nd_counter n)) (λ _, round_done n work).
Proof.
  intros Hn Hroom Ework Hw'. destruct (no_core _ Hn) as [g Hi]. destruct (no_tree _ Hn) as [hs Ht].
  destruct (room_ghost _ _ _ Hroom Hi) as [_ Hs]. set (c0 := add_reading (nd_core n)). assert (inv g [] c0) as Hi0 by done.
  destruct (error_well precise_time_s W (ib_hash b) c0 g Hi0 Hs) as ([] & c' & E & Hres); [apply Hroom|].
  destruct (on_core_run _ (mkLocalNode c0 (nd_server n) work w' (nd_counter n)) tt c' E) as (server & E' & Hsv). eexists _, _. split; [exact E'|].
  destruct (error_parts precise_time_s (ib_hash b) c0 c' E) as (k1 & E1 & Hkept).
  destruct (spec_forget_children W (ib_hash b) _ g (iv_chain _ _ _ _ _ _ _ _ _ Hi0) Hs) as (k1' & E1' & (hd & _ & Hc1) & Hd).
  rewrite E1 in E1'. injection E1' as <-.
  destruct (frames_forget_children (ib_hash b) (co_chain c0) tt k1) as [Hu _]; [apply (tk_inv _ _ _ Ht)|exact E1|].
  split; [|split; [done|by eapply resolved_asks]].
  eapply (task_done n c' _ work w' server k1 hs); [done|done|by eapply resolved_well|apply Hsv, Hn|done|by eapply tree_unchanged| | |done].
  - intros h. rewrite (verifying_ghost _ _ Hc1). intros [Hnd Hv]%list_elem_of_filter.
    assert (h ∈ to_verify (nd_work n)) as Hin by (apply (no_work _ Hn); by rewrite (verifying_ghost _ g) by apply Hi).
    rewrite Ework in Hin. by apply to_verify_cons in Hin as [->|?].
  - intros h blk. rewrite (block_unchanged _ _ h Hu). split; [done|by left].
Qed.

(** The blocks that the round would store count as accepted. *)
Definition round_accepts n : Prop :=
  ∀ b work, nd_work n = VerifyBlock b :: work → judged network (node_store n) (node_clock n) b → accepted b.

Lemma verify_step n : node_ok n → room 0 n → (∀ b work, nd_work n = VerifyBlock b :: work → ib_hash b ≠ hash_default) → round_accepts n →
  does (verification_round network precise_time_s get_time) n (λ _, round_done n (tail (nd_work n))) ∨
  verification_round network precise_time_s get_time n = None ∧ node_panics n.
Proof.
  intros Hn Hroom Hz Hacc. unfold does, verification_round, node_panics, round_accepts in *. destruct (nd_work n) as [|[b|] work] eqn:Ework.
  - left. exists tt, n. split; [done|]. split; [done|]. split; [done|by intros h].
  - specialize (Hz b work eq_refl). unfold execute_single_task. cbn [execute_tasks].
    unfold node_verify. cbn [nd_core nd_server nd_work nd_verifier nd_counter]. fold (node_store n) (node_clock n).
    destruct (wrapper_level (node_store n) (node_clock n) b (nd_verifier n) (no_params _ Hn)) as (level & enforced & Hl & Ew). rewrite Ew.
    destruct (no_tree _ Hn) as [hs Ht]. destruct (no_core _ Hn) as [g Hi]. destruct (room_ghost _ _ _ Hroom Hi) as [Hsz _].
    assert (Z.of_nat (length hs) + 1 < 2 ^ 32) as Hlen by (rewrite <-(chain_length_ghost n g hs Hi Ht); unfold g_size in Hsz; lia).
    destruct (verify_block (store_of (node_store n)) network (node_clock n) level b) as [r|] eqn:E; cbn [mbind option_bind].
    2:{ right. split; [done|]. exists b, work. split; [done|]. by eapply verify_block_panics. }
    left. destruct r as [[]|e].
    + destruct (success_step b work (mkChainVerifierWrapper params enforced) _ level n Hn Hroom Ework Hz eq_refl Hl E) as ([] & n' & E' & Hn').
      { apply (Hacc b work eq_refl). by eapply accepted_judged. }
      unfold sink_on_success. unfold mbind at 3, NM_bind. cbn in E' |- *. rewrite E'. by exists tt, n'.
    + destruct (error_step b work (mkChainVerifierWrapper params enforced) n Hn Hroom Ework eq_refl) as ([] & n' & E' & Hn').
      unfold sink_on_error. cbn in E' |- *. rewrite E'. by exists tt, n'.
  - destruct (no_stop _ Hn). rewrite Ework. left.
Qed.

(** *** The server *)

Lemma grounded_tree (d : BlockChainDatabase T) g hs (k : nat) h : tree_ok d g hs → (length hs ≤ k)%nat → grounded k (db_view d) h.
Proof.
  intros [Hs Hg Hroot Hlong] Hk. destruct (v_block (db_view d) h) as [b|] eqn:Hb; [|by destruct k; cbn; rewrite Hb].
  destruct (Hroot h) as [m Hm]; [by exists b|]. pose proof (Hlong _ _ Hm) as Hlt. eapply (grounded_mono (S m)); [lia|]. clear b Hb Hlt.
  induction Hm as [|h b m Hb Hm IH].
  - destruct (genesis_stored _ _ _ _ (proj2 Hs) Hg) as [b Hb]. cbn. rewrite Hb, (genesis_parent _ _ _ _ (proj2 Hs) Hg b Hb).
    destruct (v_block _ hash_default) as [x|] eqn:Ex; [|done]. unfold v_block in Ex. by rewrite (ci_nonzero _ _ _ (proj2 Hs)) in Ex.
  - rewrite <-Nat.add_1_l. cbn [grounded plus]. by rewrite Hb.
Qed.

Lemma effect_keeps n e : yields (kept_in n) (server_effect e : CM unit) (λ _, True).
Proof.
  destruct e as [t|peer]; [|apply keeps_misbehaving]. eapply (yields_bind _ _ _ (λ _, True)); [|intros _ _; by apply keeps_modify].
  apply yields_modify. intros c [Hs Hv Ht Hp Hc]. split; cbn; try done. intros p Hx. apply Hp. revert Hx. destruct t; try done. cbn.
  destruct (peers_connection _ _); [apply alter_keys|done].
Qed.

Lemma effect_well e c : well c → runs (server_effect e : CM unit) c (λ _, well).
Proof. intros [g Hi]. destruct e as [t|peer]; (eexists _, _; split; [reflexivity|]; by exists g). Qed.

Lemma serve_step fuel n : node_ok n → room 0 n → bb_number (bc_best_block (node_store n)) + 1 < Z.of_nat fuel →
  does (server_round fuel) n (λ _, node_ok).
Proof.
  intros Hn Hroom Hfuel. destruct (no_core _ Hn) as [g Hi]. destruct (no_tree _ Hn) as [hs Ht].
  destruct (room_ghost _ _ _ Hroom Hi) as [Hsz _]. pose proof (chain_length_ghost n g hs Hi Ht) as Ehs.
  assert (bb_number (bc_best_block (node_store n)) + 1 = Z.of_nat (length hs)) as Eb.
  { rewrite (ci_best _ _ _ (proj2 (tk_inv _ _ _ Ht))). pose proof (tk_genesis _ _ _ Ht) as Hg.
    destruct hs as [|x l _] using rev_ind; [done|]. rewrite best_of_snoc, length_app. cbn. lia. }
  destruct fuel as [|fuel]; [lia|].
  destruct (server_step_spec fuel (db_view (node_store n)) hs) with (d := node_store n) (e := WorkerRuns) (s := nd_server n)
    as (server & effs & (d & E & Hu) & Hs & _); [|unfold g_size in Hsz; unfold GETHEADERS_MAX_RESPONSE_HEADERS; rewrite <-Ehs; lia|split; [apply Ht|done]|apply Hn|].
  { intros h. eapply grounded_tree; [exact Ht|]. lia. }
  cbn [server_step] in E. unfold does, server_round. unfold node_store in E. rewrite E. cbn [mbind option_bind].
  set (n1 := mkLocalNode (set_chain (set_storage d (co_chain (nd_core n))) (nd_core n)) server (nd_work n) (nd_verifier n) (nd_counter n)).
  assert (node_ok n1) as Hn1.
  { apply node_ok_core; [done| | |done].
    - exists g. apply inv_chain_read; [done|]. by apply chain_ok_read; [apply Hi|].
    - destruct (node_kept n Hn) as [? ? ? ? ?]. by split. }
  eapply (does_mono _ n1); [apply does_core; [done| |]|by intros a n' [? _]].
  - apply runs_each; [intros; by apply effect_well|apply Hn1].
  - apply yields_each. intros e _. apply effect_keeps.
Qed.

(** *** Events *)

(** A message comes over a session that was made; headers and blocks are of the
    consistent headers of [W]; the block to verify has a non-zero hash; the
    server has enough fuel for its search. *)
Definition node_event_ok (fuel : nat) (e : NodeEvent (C:=C)) n : Prop :=
  room (match e with NHeaders _ m => 2 * length (hm_headers m) | _ => 0 end) n ∧
  match e with
  | NSession _ _ _ => nd_counter n + 1 < 2 ^ 64
  | NClosed peer | NNotFound peer _ => peer ≤ nd_counter n
  | NBlock peer block => peer ≤ nd_counter n ∧ known_header W (ib_header (indexed_block_from_raw block))
  | NHeaders peer m => peer ≤ nd_counter n ∧ Forall (known_header W) (indexed_header_from_raw <$> hm_headers m)
  | NVerify => ∀ b work, nd_work n = VerifyBlock b :: work → ib_hash b ≠ hash_default
  | NServe => bb_number (bc_best_block (node_store n)) + 1 < Z.of_nat fuel
  | _ => True
  end.

Lemma node_step_ok fuel e n : clock_ok get_time → node_ok n → node_event_ok fuel e n → (e = NVerify → round_accepts n) →
  does (node_step network precise_time_s get_time fuel e) n (λ _, node_ok) ∨
  e = NVerify ∧ node_step network precise_time_s get_time fuel e n = None ∧ node_panics n.
Proof.
  intros Hclock Hn [Hroom He] Hacc.
  assert (e = NVerify ∨ does (node_step network precise_time_s get_time fuel e) n (λ _, node_ok)) as [->|?]; [clear Hacc| |by left].
  - destruct e; cbn [node_step]; [right..|by left|right|right].
    + by apply session_step.
    + by apply closed_step.
    + by apply inventory_step.
    + by apply getdata_step.
    + by apply server_step_ok.
    + by apply getheaders_step.
    + destruct He. by apply inbound_block_step.
    + destruct He. by apply headers_step.
    + by apply sendheaders_step.
    + by apply notfound_step.
    + by apply serve_step.
    + by apply manage_step.
  - cbn [node_step] in *. destruct (verify_step n Hn Hroom He (Hacc eq_refl)) as [Hd|[E Hp]]; [left|by right].
    eapply does_mono; [exact Hd|]. by intros a n' [? _].
Qed.

Lemma node_ok_verifying n h : node_ok n → state_of (nd_core n) h = Some Verifying → h ∈ to_verify (nd_work n).
Proof.
  intros Hn. destruct (no_core _ Hn) as [g Hi]. intros Hv%(state_iff W g [] _ h Hi). apply (no_work _ Hn).
  rewrite (verifying_ghost _ g); [done|apply Hi].
Qed.
End run.

(** ** The start *)

Lemma create_ok s root hs params accepted : tree_ok s root hs →
  ∃ n, create_local_sync_node s ∅ params = Some n ∧ node_ok root params s accepted n.
Proof.
  intros Ht. assert (hs ≠ []) as Hne by (intros ->; by pose proof (tk_genesis _ _ _ Ht)).
  destruct (chain_new_inv s hs (tk_inv _ _ _ Ht) Hne) as (chain & Ec & Hc & Hu).
  assert (∃ c, core_new (C:=C) (F:=ServerTask) (mkClientConfig false) (mkSynchronizationState false (bb_number (bc_best_block s))) ∅ chain = Some c) as [c E].
  { unfold core_new. destruct (meter_ok_new SYNC_SPEED_BLOCKS_TO_INSPECT) as (m1 & E1 & _); [unfold SYNC_SPEED_BLOCKS_TO_INSPECT; lia|].
    destruct (meter_ok_new BLOCKS_SPEED_BLOCKS_TO_INSPECT) as (m2 & E2 & _); [unfold BLOCKS_SPEED_BLOCKS_TO_INSPECT; lia|].
    rewrite E1, E2. by eexists. }
  assert (co_chain c = chain ∧ co_peers c = ∅ ∧ co_peers_tasks c = peers_tasks_default ∧ co_config c = mkClientConfig false) as (Ech & Epe & Et & Ecfg).
  { unfold core_new in E. repeat (destruct (with_inspect_items _) as [?|]; [|done]). by injection E as <-. }
  assert (well c) as [g Hi].
  { apply started_well. eexists _, _, _, s, hs, chain. split_and!; [apply Ht|done|exact Ec|exact E]. }
  pose proof (reads_contains_block (verification_edge params) (sc_storage chain)) as Hr.
  destruct Hr as (d & Ed & Hd); [apply Hu|]. subst chain.
  exists (mkLocalNode (set_chain (set_storage d (co_chain c)) c) server_new []
    (mkChainVerifierWrapper params (v_contains (db_view (sc_storage (co_chain c))) (verification_edge params))) 0). split.
  { unfold create_local_sync_node. rewrite Ec. cbn [mbind option_bind]. rewrite E. cbn [mbind option_bind]. unfold wrapper_new.
    unfold mbind at 2, DM_bind. by rewrite Ed. }
  pose proof (unchanged_trans _ _ _ Hu Hd) as Hsd.
  split; cbn; rewrite ?Et, ?Epe, ?Ecfg; try done.
  - exists g. apply inv_chain_read; [done|]. by apply chain_ok_read; [apply Hi|].
  - exists hs. by eapply tree_unchanged.
  - intros h blk Hb. left. rewrite <-(block_unchanged _ _ h Hsd). exact Hb.
  - intros h blk Hb. rewrite <-(block_unchanged _ _ h Hsd) in Hb. exact Hb.
  - intros h. change (verifying _) with (verifying (co_chain c)). rewrite (verifying_of_rep _ _ _ (si_queues _ _ _ _ Hc)). by intros ?%not_elem_of_nil.
  - intros p [?|[?|[?|[[x Hx]|[x Hx]]]]]; [set_solver..| |]; cbn in Hx; by rewrite lhm_get_new in Hx.
  - intros p [x Hx]. by apply (lookup_empty_Some (M:=gmap PeerIndex) p x) in Hx.
  - split; [apply queue_ok_new|done].
  - apply not_elem_of_nil.
Qed.

(** Any node of the invariant is a start. *)
Lemma node_ok_start root params first accepted accepted' n : node_ok root params first accepted n → node_ok root params (node_store n) accepted' n.
Proof. intros [? ? _ _ ? ? ? ? ? ? ? ?]. split; try done. by left. Qed.

(** ** Runs

    The events of a node, or of more than a node: some are rounds of the
    verification thread, and an event may panic in a way that is named. *)

Section runs.
Context {E : Type} (step : E → NM unit) (allowed : E → Node → Prop) (verifies : E → Prop) (panics : E → Node → Prop).
Context (root : H256) (params : VerificationParameters) (first : BlockChainDatabase T).
Context (Hstep : ∀ accepted e n, node_ok root params first accepted n → allowed e n → (verifies e → round_accepts accepted n) →
  does (step e) n (λ _, node_ok root params first accepted) ∨ step e n = None ∧ panics e n).

Fixpoint run_all (es : list E) : NM unit := match es with [] => mret tt | e :: es => _ ← step e; run_all es end.

(** Every event is allowed where it happens. *)
Fixpoint all_allowed (es : list E) n : Prop :=
  match es with [] => True | e :: es => allowed e n ∧ ∀ n', step e n = Some (tt, n') → all_allowed es n' end.

(** The verifier judged the block, at the head of the channel, on the store and at
    the time the node then had. *)
Definition accepted_in (es : list E) n0 (b : IndexedBlock) : Prop :=
  ∃ es1 e es2 n1 work, es = es1 ++ e :: es2 ∧ verifies e ∧ run_all es1 n0 = Some (tt, n1) ∧
    nd_work n1 = VerifyBlock b :: work ∧ judged network (node_store n1) (node_clock n1) b.

(** The run has come to its end, or its next event panics. *)
Definition ended (rest : list E) n : Prop := rest = [] ∨ ∃ e rest', rest = e :: rest' ∧ step e n = None ∧ panics e n.

Lemma run_all_snoc es e n0 n n' : run_all es n0 = Some (tt, n) → step e n = Some (tt, n') → run_all (es ++ [e]) n0 = Some (tt, n').
Proof.
  revert n0. induction es as [|e' es IH]; intros n0; cbn [run_all app].
  - intros [= ->] Es. unfold mbind, NM_bind. by rewrite Es.
  - unfold mbind, NM_bind. destruct (step e' n0) as [[[] n1]|]; [|done]. apply IH.
Qed.

(** The invariant along a run. *)
Lemma run_keeps es pre n0 n n' : let accepted := accepted_in (pre ++ es) n0 in
  node_ok root params first accepted n → run_all pre n0 = Some (tt, n) → all_allowed es n → run_all es n = Some (tt, n') →
  node_ok root params first accepted n'.
Proof.
  revert pre n. induction es as [|e es IH]; intros pre n accepted Hn Hpre Had Hrun; cbn [run_all] in Hrun; [by injection Hrun as <-|].
  destruct Had as [He Had]. unfold mbind, NM_bind in Hrun. destruct (step e n) as [[[] n1]|] eqn:Es; [|done].
  destruct (Hstep accepted e n Hn He) as [([] & n1' & E1 & Hn1)|[E1 _]]; [|rewrite Es in E1; injection E1 as <-|by rewrite Es in E1].
  { intros Hv b work Ework Hj. exists pre, e, es, n, work. done. }
  unfold accepted in *. clear accepted. replace (pre ++ e :: es) with ((pre ++ [e]) ++ es) in * by (by rewrite <-app_assoc).
  eapply IH; [exact Hn1|by eapply run_all_snoc|by apply Had|exact Hrun].
Qed.

(** With no account of what was accepted. *)
Lemma run_keeps_all es n n' : node_ok root params first (λ _, True) n → all_allowed es n → run_all es n = Some (tt, n') →
  node_ok root params first (λ _, True) n'.
Proof.
  revert n. induction es as [|e es IH]; intros n Hn Had Hrun; cbn [run_all] in Hrun; [by injection Hrun as <-|].
  destruct Had as [He Had]. unfold mbind, NM_bind in Hrun. destruct (step e n) as [[[] n1]|] eqn:Es; [|done].
  destruct (Hstep (λ _, True) e n Hn He) as [([] & n1' & E1 & Hn1)|[E1 _]]; [by intros _ b work|rewrite Es in E1; injection E1 as <-|by rewrite Es in E1].
  eapply IH; [exact Hn1|by apply Had|exact Hrun].
Qed.

Lemma run_goes_on es n : node_ok root params first (λ _, True) n → all_allowed es n →
  ∃ done rest n', es = done ++ rest ∧ run_all done n = Some (tt, n') ∧ all_allowed done n ∧ ended rest n'.
Proof.
  revert n. induction es as [|e es IH]; intros n Hn Had; [by exists [], [], n; split_and!; try done; left|].
  destruct Had as [He Had]. destruct (Hstep (λ _, True) e n Hn He) as [([] & n1 & E1 & Hn1)|[E1 Hp]]; [by intros _ b work| |].
  - destruct (IH n1 Hn1 (Had n1 E1)) as (dn & rest & n' & -> & Hrun & Had' & Hend). exists (e :: dn), rest, n'. split_and!; try done.
    + cbn [run_all]. unfold mbind, NM_bind. by rewrite E1.
    + split; [done|]. intros n1' E1'. rewrite E1 in E1'. by injection E1' as <-.
  - exists [], (e :: es), n. split_and!; try done. right. by exists e, es.
Qed.

(** From the start: the run goes on to its end or a panic, and the invariant
    holds there with the blocks that were judged on the way. *)
Lemma run_from n0 es : (∀ accepted, node_ok root params first accepted n0) → all_allowed es n0 →
  ∃ done rest n, es = done ++ rest ∧ run_all done n0 = Some (tt, n) ∧ ended rest n ∧ node_ok root params first (accepted_in done n0) n.
Proof.
  intros Hn0 Had. destruct (run_goes_on es n0 (Hn0 _) Had) as (dn & rest & n & -> & Hrun & Had' & Hend). exists dn, rest, n.
  split_and!; try done. by apply (run_keeps dn [] n0 n0 n).
Qed.

(** A run that comes to its end does not stop before. *)
Lemma ended_whole dn rest n0 n x : run_all (dn ++ rest) n0 = Some x → run_all dn n0 = Some (tt, n) → ended rest n → rest = [].
Proof.
  revert n0. induction dn as [|e dn IH]; intros n0; cbn [run_all app]; unfold mbind, NM_bind.
  - intros Er [= ->] [->|(e & rest' & -> & E' & _)]; [done|]. cbn [run_all] in Er. unfold mbind, NM_bind in Er. by rewrite E' in Er.
  - destruct (step e n0) as [[[] n1]|]; [apply IH|done].
Qed.
End runs.

(** *** Runs of the node *)

Abbreviation step_of fuel := (node_step network precise_time_s get_time fuel).

Definition node_admissible (fuel : nat) (es : list (NodeEvent (C:=C))) n : Prop := all_allowed (step_of fuel) (node_event_ok fuel) es n.

Lemma node_run_all fuel es : node_run network precise_time_s get_time fuel es = run_all (step_of fuel) es.
Proof. induction es as [|e es IH]; [done|]. cbn [node_run run_all]. by rewrite IH. Qed.

Lemma node_steps fuel root params first : clock_ok get_time → verification_level params ≠ NoVerification → ∀ accepted e n,
  node_ok root params first accepted n → node_event_ok fuel e n → (e = NVerify → round_accepts accepted n) →
  does (step_of fuel e) n (λ _, node_ok root params first accepted) ∨ step_of fuel e n = None ∧ e = NVerify ∧ node_panics n.
Proof.
  intros Hclock Hlevel accepted e n Hn He Hacc. destruct (node_step_ok root params first accepted Hlevel fuel e n Hclock Hn He Hacc) as [?|(-> & E & Hp)];
    [by left|right]. split; [done|]. by split.
Qed.

(** The run stopped: there is nothing left of it, or the verification thread
    panics. *)
Definition node_stops (fuel : nat) (rest : list (NodeEvent (C:=C))) n : Prop :=
  rest = [] ∨ (∃ rest', rest = NVerify :: rest') ∧ step_of fuel NVerify n = None ∧ node_panics n.

Lemma node_run_from s root hs params n0 fuel es : clock_ok get_time → tree_ok s root hs → verification_level params ≠ NoVerification →
  create_local_sync_node s ∅ params = Some n0 → node_admissible fuel es n0 →
  ∃ done rest n, es = done ++ rest ∧ node_run network precise_time_s get_time fuel done n0 = Some (tt, n) ∧ node_stops fuel rest n ∧
    node_ok root params s (accepted_in (step_of fuel) (λ e, e = NVerify) done n0) n.
Proof.
  intros Hclock Ht Hlevel E0 Had.
  destruct (run_from (step_of fuel) (node_event_ok fuel) (λ e, e = NVerify) (λ e n, e = NVerify ∧ node_panics n) root params s
    (node_steps fuel root params s Hclock Hlevel) n0 es) as (dn & rest & n & -> & Er & Hend & Hn); [|exact Had|].
  { intros accepted. destruct (create_ok s root hs params accepted Ht) as (n0' & E0' & Hn0). rewrite E0 in E0'. by injection E0' as <-. }
  exists dn, rest, n. rewrite node_run_all. split_and!; try done.
  destruct Hend as [->|(e & rest' & -> & E & -> & Hp)]; [by left|right]. split; [by exists rest'|done].
Qed.

Lemma stops_whole fuel dn rest n0 n x : node_run network precise_time_s get_time fuel (dn ++ rest) n0 = Some x →
  node_run network precise_time_s get_time fuel dn n0 = Some (tt, n) → node_stops fuel rest n → rest = [].
Proof.
  rewrite !node_run_all. intros E1 E2 Hs. eapply (ended_whole _ (λ e n, e = NVerify ∧ node_panics n)); [exact E1|exact E2|].
  destruct Hs as [->|((rest' & ->) & E & Hp)]; [by left|right]. by exists NVerify, rest'.
Qed.

(** The channel alone. *)
Lemma verify_all_ok fuel root params first k n : verification_level params ≠ NoVerification → node_ok root params first (λ _, True) n →
  node_admissible fuel (replicate k NVerify) n →
  (∃ n', node_run network precise_time_s get_time fuel (replicate k NVerify) n = Some (tt, n') ∧ node_ok root params first (λ _, True) n' ∧
    nd_work n' = drop k (nd_work n) ∧ asks_no_more n n') ∨
  ∃ j n', (j < k)%nat ∧ node_run network precise_time_s get_time fuel (replicate j NVerify) n = Some (tt, n') ∧
    step_of fuel NVerify n' = None ∧ node_panics n'.
Proof.
  intros Hlevel. revert n. induction k as [|k IH]; intros n Hn Had; cbn [replicate node_run].
  { left. exists n. split_and!; try done. by intros h. }
  destruct Had as [[Hroom He] Had].
  destruct (verify_step root params first (λ _, True) Hlevel n Hn Hroom He ltac:(by intros b work)) as [([] & n1 & E & Hn1 & Ew & Hasks)|[E Hp]].
  2:{ right. exists O, n. split_and!; [lia|done|exact E|exact Hp]. }
  destruct (IH n1 Hn1 (Had n1 E)) as [(n' & E' & Hn' & Ew' & Hasks')|(j & n' & Hj & E' & Hp)]; [left|right].
  - exists n'. unfold mbind, NM_bind. change (step_of fuel NVerify n) with (verification_round network precise_time_s get_time n). rewrite E.
    split_and!; [done|done| |by intros h Hh; apply Hasks, Hasks']. rewrite Ew', Ew. destruct (nd_work n); [apply drop_nil|done].
  - exists (S j), n'. split; [lia|]. split; [|exact Hp]. cbn [replicate node_run]. unfold mbind, NM_bind.
    change (step_of fuel NVerify n) with (verification_round network precise_time_s get_time n). by rewrite E.
Qed.

(** ** The theorems *)

(** C7: what peers send never makes the node panic, but for verification.  A node
    made on a store that holds a tree of blocks handles every sequence of
    admissible events (sessions that open and close, messages of any kind, work
    of the verification thread, of the server and of the management thread) to
    its end, or up to a round of the verification thread in which the block at
    the head of the channel makes verification panic, for one of the reasons of
    [verification_panics].  Admissible: the sizes fit 32 bits with some room and
    there are less than 2^24 peers, a message comes over a session that was made,
    the hashes of headers and blocks are consistent and the hash of the block to
    verify is not zero.  Nothing is lost between the parts: a block that counts
    as being verified is in the channel of the verification thread, a block that
    counts as requested is asked of a peer or waits for its parent, every peer
    with open requests has its place in the queue of the server.  A session never
    gets the index of another. *)
Theorem node_run_safe s root hs params : clock_ok get_time → tree_ok s root hs → verification_level params ≠ NoVerification →
  ∃ n0 : Node, create_local_sync_node s ∅ params = Some n0 ∧ ∀ fuel es, node_admissible fuel es n0 →
    ∃ done rest n, es = done ++ rest ∧ node_run network precise_time_s get_time fuel done n0 = Some (tt, n) ∧
      (rest = [] ∨ (∃ rest', rest = NVerify :: rest') ∧ node_step network precise_time_s get_time fuel NVerify n = None ∧
         ∃ b work, nd_work n = VerifyBlock b :: work ∧ verification_panics network (node_store n) (node_clock n) b) ∧
      (∀ h, state_of (nd_core n) h = Some Verifying → h ∈ to_verify (nd_work n)) ∧
      (∀ h, state_of (nd_core n) h = Some Requested → held (co_peers_tasks (nd_core n)) (co_orphaned_blocks_pool (nd_core n)) h) ∧
      (∀ p, p ∈ sq_peers_queue (sv_queue (nd_server n)) ↔ tasks_of (sv_queue (nd_server n)) p ≠ []) ∧
      ∀ p, is_Some (co_peers (nd_core n) !! p) ∨ occurs (co_peers_tasks (nd_core n)) p → p ≤ nd_counter n.
Proof.
  intros Hclock Ht Hlevel. destruct (create_ok s root hs params (λ _, True) Ht) as (n0 & E0 & _). exists n0. split; [exact E0|].
  intros fuel es Had. destruct (node_run_from s root hs params n0 fuel es Hclock Ht Hlevel E0 Had) as (dn & rest & n & -> & Er & Hstop & Hn). exists dn, rest, n.
  split; [done|]. split; [exact Er|]. split; [exact Hstop|]. split_and!.
  - intros h. by eapply node_ok_verifying.
  - destruct (no_core _ _ _ _ _ Hn) as [g Hi]. intros h Hr%(state_iff W g [] _ h Hi).
    destruct (iv_held _ _ _ _ _ _ _ _ _ Hi h Hr) as [?%not_elem_of_nil|?]; done.
  - intros p. apply waiting_iff. apply (no_server _ _ _ _ _ Hn).
  - intros p [Hp|Hp]; [by eapply no_peers|]. by apply (no_tasks _ _ _ _ _ Hn).
Qed.

(** C4: what the node stores.  After any run of admissible events, as far as it
    goes before a panic of verification, the store of the node still holds a tree
    of blocks on the same genesis block whose chain is a longest branch, and every
    block it had at the start.  Every other block it has was, in a round of the
    verification thread of this run, the head of the thread's channel and met the
    rules of consensus there and then: with the node's clock and against the
    chain or fork it extends in the node's own store, its proof, work, bits and
    timestamps were right. *)
Theorem node_stores_valid s root hs params : clock_ok get_time → tree_ok s root hs → verification_level params ≠ NoVerification →
  ∃ n0 : Node, create_local_sync_node s ∅ params = Some n0 ∧ ∀ fuel es, node_admissible fuel es n0 →
    ∃ done rest n hs', es = done ++ rest ∧ node_run network precise_time_s get_time fuel done n0 = Some (tt, n) ∧ node_stops fuel rest n ∧
      tree_ok (node_store n) root hs' ∧
      (∀ h blk, v_block (db_view s) h = Some blk → v_block (db_view (node_store n)) h = Some blk) ∧
      ∀ h blk, v_block (db_view (node_store n)) h = Some blk → v_block (db_view s) h = Some blk ∨
        ∃ es1 es2 n1 b work, done = es1 ++ NVerify :: es2 ∧ node_run network precise_time_s get_time fuel es1 n0 = Some (tt, n1) ∧
          nd_work n1 = VerifyBlock b :: work ∧ ib_hash b = h ∧ block_of b = blk ∧
          valid_alone network (wrap 32 (node_clock n1)) b ∧
          ∃ origin headers height, cs_block_origin (store_of (node_store n1)) (ib_header b) = Ok origin ∧
            judged_in (store_of (node_store n1)) origin = Some (headers, height) ∧ valid_child network headers height b.
Proof.
  intros Hclock Ht Hlevel. destruct (create_ok s root hs params (λ _, True) Ht) as (n0 & E0 & _). exists n0. split; [exact E0|].
  intros fuel es Had. destruct (node_run_from s root hs params n0 fuel es Hclock Ht Hlevel E0 Had) as (dn & rest & n & -> & Er & Hstop & Hn).
  destruct (no_tree _ _ _ _ _ Hn) as [hs' Ht']. exists dn, rest, n, hs'. split_and!; [done|exact Er|exact Hstop|exact Ht'|apply Hn|].
  intros h blk [?|(b & (es1 & e & es2 & n1 & work & -> & -> & Er1 & Ework & Hj) & Eh & Eb)]%(no_valid _ _ _ _ _ Hn); [by left|right].
  exists es1, es2, n1, b, work. rewrite node_run_all. split_and!; try done; apply Hj.
Qed.

(** C15: verification ends.  After any run of admissible events, as many rounds of
    the verification thread as there are tasks in its channel (admissible again)
    leave the channel empty and no block counting as being verified: a block that
    was is stored, or is unknown or a dead end again, and is not asked for; unless
    one of the rounds panics over its block, for a reason of
    [verification_panics]. *)
Theorem verification_ends s root hs params : clock_ok get_time → tree_ok s root hs → verification_level params ≠ NoVerification →
  ∃ n0 : Node, create_local_sync_node s ∅ params = Some n0 ∧ ∀ fuel es n, node_admissible fuel es n0 →
    node_run network precise_time_s get_time fuel es n0 = Some (tt, n) →
    node_admissible fuel (replicate (length (nd_work n)) NVerify) n →
    (∃ n', node_run network precise_time_s get_time fuel (replicate (length (nd_work n)) NVerify) n = Some (tt, n') ∧
       nd_work n' = [] ∧ (∀ h, state_of (nd_core n') h ≠ Some Verifying) ∧
       ∀ h, state_of (nd_core n) h = Some Verifying →
         state_of (nd_core n') h = Some Stored ∨ state_of (nd_core n') h = Some Unknown ∨ state_of (nd_core n') h = Some DeadEnd) ∨
    ∃ j n', (j < length (nd_work n))%nat ∧
      node_run network precise_time_s get_time fuel (replicate j NVerify) n = Some (tt, n') ∧
      node_step network precise_time_s get_time fuel NVerify n' = None ∧
      ∃ b work, nd_work n' = VerifyBlock b :: work ∧ verification_panics network (node_store n') (node_clock n') b.
Proof.
  intros Hclock Ht Hlevel. destruct (create_ok s root hs params (λ _, True) Ht) as (n0 & E0 & Hn0). exists n0. split; [exact E0|].
  intros fuel es n Had Er Had'. rewrite node_run_all in Er.
  pose proof (run_keeps_all (step_of fuel) (node_event_ok fuel) (λ e, e = NVerify) (λ e n, e = NVerify ∧ node_panics n) root params s
    (node_steps fuel root params s Hclock Hlevel) es n0 n Hn0 Had Er) as Hn.
  destruct (verify_all_ok fuel root params s (length (nd_work n)) n Hlevel Hn Had') as [(n' & E' & Hn' & Ew & Hasks)|?]; [left|by right].
  rewrite drop_ge in Ew by done. exists n'. assert (∀ h, state_of (nd_core n') h ≠ Some Verifying) as Hnv.
  { intros h Hv%(node_ok_verifying _ _ _ _ _ h Hn'). rewrite Ew in Hv. by apply not_elem_of_nil in Hv. }
  split_and!; [exact E'|exact Ew|exact Hnv|]. intros h Hv. specialize (Hnv h). specialize (Hasks h).
  destruct (no_core _ _ _ _ _ Hn') as [g Hi]. destruct (inv_state W g [] _ h Hi) as (st & Est & _). rewrite Est in *. rewrite Hv in Hasks.
  destruct st; try tauto; exfalso; [destruct (Hasks ltac:(by right))|destruct (Hasks ltac:(by left))]; done.
Qed.
End node.

(** ** A node with one peer *)

(** One block whose hash is not that of its parent. *)
Definition single_universe {V : VrfOps} (b : IndexedBlock) (Hne : ib_parent b ≠ ib_hash b) : Universe.
Proof.
  refine (mkUniverse (λ x, x = ib_header b) (λ h, if decide (h = ib_hash b) then 1%nat else 0%nat) _ _).
  - by intros x y -> ->.
  - intros x ->. change (ih_hash (ib_header b)) with (ib_hash b). change (previous_header_hash _) with (ib_parent b).
    by rewrite decide_True, decide_False.
Defined.

Lemma known_single {V : VrfOps} (b : IndexedBlock) (Hne : ib_parent b ≠ ib_hash b) : known_header (single_universe b Hne) (ib_header b).
Proof. reflexivity. Qed.

Section node_example.
Import Reference.
#[local] Existing Instance flat_sha_ops | 0.
#[local] Instance checked_node : Profile := true.
#[local] Instance node_order_peers : HashOrder PeerIndex := elements_order.
#[local] Instance node_order_hashes : HashOrder H256 := elements_order.

(** A block on top of the store, as it is received. *)
Definition ex_sent : Block := to_raw_block ex_first.
Definition ex_received : IndexedBlock := indexed_block_from_raw ex_sent.

Abbreviation ExNode := (LocalNode (T:=MemoryDatabase) (MP:=AssocMap PeerIndex) (MH:=AssocMap H256) (C:=unit)).

Definition ex_node : option ExNode := create_local_sync_node ex_store ∅ full_checks.

Definition ex_version : Version := example_version 70001 7.
Definition ex_node_events : list (NodeEvent (C:=unit)) := [NSession 0 tt ex_version; NBlock 1 ex_sent; NVerify; NServe; NManage].

Lemma ex_received_new : ib_parent ex_received ≠ ib_hash ex_received.
Proof. intros E. apply (f_equal hash_bytes) in E. vm_compute in E. discriminate E. Qed.

(** The header of the block that is sent. *)
Definition ex_node_universe : Universe := single_universe ex_received ex_received_new.

Lemma ex_node_clock : clock_ok ex_clock_4000.
Proof. intros n. split; vm_compute; congruence. Qed.

(** What the events require, as a computation. *)
Definition ex_check (fuel : nat) (e : NodeEvent (C:=unit)) (n : ExNode) : bool :=
  (Z.of_nat (client_size (nd_core n)) <? 10000) && (Z.of_nat (size (pt_all (co_peers_tasks (nd_core n)))) <? 1000) &&
  match e with
  | NSession _ _ _ => nd_counter n + 1 <? 2 ^ 64
  | NBlock peer _ => peer <=? nd_counter n
  | NVerify => match nd_work n with VerifyBlock b :: _ => negb (is_zero (ib_hash b)) | _ => true end
  | NServe => bb_number (bc_best_block (node_store n)) + 1 <? Z.of_nat fuel
  | NManage => true
  | _ => false
  end.

Fixpoint ex_checks (fuel : nat) (es : list (NodeEvent (C:=unit))) (n : ExNode) : bool :=
  match es with
  | [] => true
  | e :: es => ex_check fuel e n &&
      match node_step Testnet ex_time ex_clock_4000 fuel e n with Some (_, n) => ex_checks fuel es n | None => true end
  end.

Definition sends_example (e : NodeEvent (C:=unit)) : Prop := match e with NBlock _ block => block = ex_sent | _ => True end.

Lemma ex_check_ok W fuel e n : ex_check fuel e n = true →
  (∀ peer block, e = NBlock peer block → known_header W (ib_header (indexed_block_from_raw block))) → node_event_ok W fuel e n.
Proof.
  unfold ex_check. intros [[Hs Hp]%andb_prop He]%andb_prop Hx. apply Z.ltb_lt in Hs, Hp.
  assert (room 0 n) as Hroom by (split; [lia|unfold few_peers; lia]).
  destruct e; try done; (split; [done|]).
  - by apply Z.ltb_lt.
  - apply Z.leb_le in He. split; [done|]. by eapply Hx.
  - intros b work Ew. rewrite Ew in He. intros E. apply is_zero_default in E. by rewrite E in He.
  - by apply Z.ltb_lt.
Qed.

Lemma ex_checks_ok fuel es n : ex_checks fuel es n = true → Forall sends_example es →
  node_admissible Testnet ex_time ex_clock_4000 ex_node_universe fuel es n.
Proof.
  intros Hc Hx. revert n Hc. induction Hx as [|e es He Hes IH]; intros n Hc; [done|]. cbn in Hc.
  apply andb_prop in Hc as [Hc Hrest]. split; [|intros n' E; rewrite E in Hrest; by apply IH].
  apply ex_check_ok; [done|]. intros peer block ->. cbn in He. by rewrite He.
Qed.

Lemma ex_admissible_node n : ex_node = Some n → node_admissible Testnet ex_time ex_clock_4000 ex_node_universe 10 ex_node_events n.
Proof.
  intros E. apply ex_checks_ok; [|by repeat constructor].
  assert ((n ← ex_node; Some (ex_checks 10 ex_node_events n)) = Some true) as Ec by (vm_compute; reflexivity).
  rewrite E in Ec. cbn [mbind option_bind] in Ec. injection Ec as Ec. exact Ec.
Qed.

(** The run comes to its end, and the block is stored. *)
Lemma ex_node_runs n0 : ex_node = Some n0 → ∃ n, node_run Testnet ex_time ex_clock_4000 10 ex_node_events n0 = Some (tt, n) ∧
  v_contains (db_view (node_store n)) (ib_hash ex_received) = true.
Proof.
  intros E. assert ((n ← ex_node; option_map (λ '(_, n), v_contains (db_view (node_store n)) (ib_hash ex_received))
    (node_run Testnet ex_time ex_clock_4000 10 ex_node_events n)) = Some true) as Ec by (vm_compute; reflexivity).
  rewrite E in Ec. cbn [mbind option_bind] in Ec. destruct (node_run _ _ _ _ _ n0) as [[[] n]|]; [|discriminate Ec]. exists n. split; [done|].
  injection Ec as Ec. exact Ec.
Qed.

Lemma node_run_safe_witness : ∃ n0 n : ExNode, ex_node = Some n0 ∧
  node_run Testnet ex_time ex_clock_4000 10 ex_node_events n0 = Some (tt, n) ∧
  ∀ h, state_of (nd_core n) h = Some Verifying → h ∈ to_verify (nd_work n).
Proof.
  destruct (node_run_safe (MP:=AssocMap PeerIndex) (MH:=AssocMap H256) (C:=unit) Testnet ex_time ex_clock_4000 ex_node_universe ex_store ex_h0 [ex_h0; ex_h1]
    full_checks ex_node_clock ex_store_tree ltac:(discriminate)) as (n0 & E0 & Hall).
  destruct (ex_node_runs n0 E0) as (n' & E' & _).
  destruct (Hall 10%nat ex_node_events (ex_admissible_node n0 E0)) as (dn & rest & n & Ees & E & Hstop & Hv & _).
  rewrite Ees in E'. rewrite (stops_whole _ _ _ _ _ _ _ _ _ E' E Hstop), app_nil_r in Ees. rewrite <-Ees in E.
  exists n0, n. split; [exact E0|]. split; [exact E|exact Hv].
Defined.

(** The block was judged in the round of the run. *)
Lemma node_stores_valid_witness : ∃ (n0 n : ExNode) hs, ex_node = Some n0 ∧
  node_run Testnet ex_time ex_clock_4000 10 ex_node_events n0 = Some (tt, n) ∧ tree_ok (node_store n) ex_h0 hs ∧
  ∃ blk es1 es2 n1 b work, v_block (db_view (node_store n)) (ib_hash ex_received) = Some blk ∧ ex_node_events = es1 ++ NVerify :: es2 ∧
    node_run Testnet ex_time ex_clock_4000 10 es1 n0 = Some (tt, n1) ∧ nd_work n1 = VerifyBlock b :: work ∧ ib_hash b = ib_hash ex_received ∧
    valid_alone Testnet (wrap 32 (node_clock ex_clock_4000 n1)) b.
Proof.
  destruct (node_stores_valid (MP:=AssocMap PeerIndex) (MH:=AssocMap H256) (C:=unit) Testnet ex_time ex_clock_4000 ex_node_universe ex_store ex_h0 [ex_h0; ex_h1]
    full_checks ex_node_clock ex_store_tree ltac:(discriminate)) as (n0 & E0 & Hall).
  destruct (ex_node_runs n0 E0) as (n' & E' & Hc).
  destruct (Hall 10%nat ex_node_events (ex_admissible_node n0 E0)) as (dn & rest & n & hs & Ees & E & Hstop & Ht & _ & Hvalid).
  pose proof E' as E''. rewrite Ees in E''. rewrite (stops_whole _ _ _ _ _ _ _ _ _ E'' E Hstop), app_nil_r in Ees. rewrite <-Ees in *. clear E'' dn rest Hstop Ees.
  rewrite E in E'. injection E' as <-. exists n0, n, hs. split; [exact E0|]. split; [exact E|]. split; [exact Ht|].
  destruct (proj1 (v_contains_block _ _ _ (tk_inv _ _ _ Ht)) Hc) as [blk Hblk].
  destruct (Hvalid _ _ Hblk) as [Hold|(es1 & es2 & n1 & b & work & Hes & E1 & Ew & Eh & _ & Ha & _)].
  - exfalso. assert (v_contains (db_view ex_store) (ib_hash ex_received) = true) as Hin
      by (apply (v_contains_block _ _ _ (tk_inv _ _ _ ex_store_tree)); by exists blk).
    assert (v_contains (db_view ex_store) (ib_hash ex_received) = false) as Hout by (vm_compute; reflexivity). congruence.
  - exists blk, es1, es2, n1, b, work. split; [exact Hblk|]. split; [exact Hes|]. split; [exact E1|]. split; [exact Ew|]. split; [exact Eh|exact Ha].
Defined.

(** The session and the block, then the rest of the channel. *)
Definition ex_until : list (NodeEvent (C:=unit)) := [NSession 0 tt ex_version; NBlock 1 ex_sent].

Lemma verification_ends_witness : ∃ n0 n n' : ExNode, ex_node = Some n0 ∧
  node_run Testnet ex_time ex_clock_4000 10 ex_until n0 = Some (tt, n) ∧ length (nd_work n) = 1%nat ∧
  state_of (nd_core n) (ib_hash ex_received) = Some Verifying ∧
  node_run Testnet ex_time ex_clock_4000 10 [NVerify] n = Some (tt, n') ∧ nd_work n' = [] ∧
  (state_of (nd_core n') (ib_hash ex_received) = Some Stored ∨ state_of (nd_core n') (ib_hash ex_received) = Some Unknown ∨
   state_of (nd_core n') (ib_hash ex_received) = Some DeadEnd).
Proof.
  destruct (verification_ends (MP:=AssocMap PeerIndex) (MH:=AssocMap H256) (C:=unit) Testnet ex_time ex_clock_4000 ex_node_universe ex_store ex_h0 [ex_h0; ex_h1]
    full_checks ex_node_clock ex_store_tree ltac:(discriminate)) as (n0 & E0 & Hall).
  set (o := n ← ex_node; option_map snd (node_run Testnet ex_time ex_clock_4000 10 ex_until n)).
  assert (option_map (λ n, (length (nd_work n), ex_checks 10 [NVerify] n, state_of (nd_core n) (ib_hash ex_received),
    match node_run Testnet ex_time ex_clock_4000 10 [NVerify] n with Some _ => true | None => false end)) o = Some (1%nat, true, Some Verifying, true)) as Eo by (vm_compute; reflexivity).
  assert (option_map (ex_checks 10 ex_until) ex_node = Some true) as Ec by (vm_compute; reflexivity).
  unfold o in Eo. change ex_node with (create_local_sync_node (C:=unit) (MP:=AssocMap PeerIndex) (MH:=AssocMap H256) ex_store ∅ full_checks) in *.
  rewrite E0 in Eo, Ec. cbn [mbind option_bind option_map] in Eo, Ec. injection Ec as Ec.
  destruct (node_run Testnet ex_time ex_clock_4000 10 ex_until n0) as [[[] n]|] eqn:E; [|discriminate]. cbn [option_map snd] in Eo. injection Eo as El Ek Ev Er.
  assert (node_admissible Testnet ex_time ex_clock_4000 ex_node_universe 10 (replicate (length (nd_work n)) NVerify) n) as Had.
  { rewrite El. apply ex_checks_ok; [exact Ek|by repeat constructor]. }
  destruct (Hall 10%nat ex_until n (ex_checks_ok 10 ex_until n0 Ec ltac:(by repeat constructor)) E Had) as [(n' & E' & Ew & _ & Hst)|(j & n' & Hj & E' & Es & _)].
  - rewrite El in E'. exists n0, n, n'. split; [exact E0|]. split; [exact E|]. split; [exact El|]. split; [exact Ev|]. split; [exact E'|]. split; [exact Ew|].
    apply Hst. exact Ev.
  - exfalso. assert (j = 0%nat) as -> by lia. injection E' as <-. cbn [node_run] in Er. unfold mbind, NM_bind in Er. cbn [node_step] in Es. rewrite Es in Er. discriminate Er.
Defined.
End node_example.
