(* ===== verification/Hex.v ===== *)
(** * Hashes and bytes as text ([primitives/src/hash.rs], [rpc/src/v1/types])

    Hexadecimal text of hashes and byte strings, as they are displayed, parsed
    and sent as JSON strings.  The encoding itself is the crate [rustc-hex],
    whose functions are a class with the laws the code relies on. *)

From S2P Require Import Prelude External Primitives.
From Stdlib Require Import Ascii.
From stdpp Require Import strings pretty.
#[local] Open Scope Z_scope.

(** ** The crate [rustc-hex] *)

Class HexOps := {
  FromHexError : Type;
  InvalidHexLength : FromHexError;
  to_hex : list byte → string;
  from_hex : string → result FromHexError (list byte);
}.

Class HexLaws (X : HexOps) : Prop := {
  from_to_hex bs : from_hex (to_hex bs) = Ok bs;
  to_hex_length bs : String.length (to_hex bs) = (2 * length bs)%nat;
}.

(** ** Hashes of the primitives *)

Section hash_text.
Context {X : HexOps} {n : nat}.

(** src: primitives/src/hash.rs 70-80 from_str *)
Definition hash_from_str (s : string) : result FromHexError (hash n) :=
  match from_hex s with
  | Ok vec => if decide (length vec = n) then Ok (hash_of vec) else Err InvalidHexLength
  | Err e => Err e
  end.

(** [s.parse().unwrap()] *)
(** src: primitives/src/hash.rs 53-57 parse *)
Definition hash_from_literal (s : string) : option (hash n) :=
  match hash_from_str s with Ok h => Some h | Err _ => None end.

(** [Debug] and [Display] write the same. *)
(** src: primitives/src/hash.rs 83-93 fmt *)
Definition hash_fmt (h : hash n) : string := to_hex (hash_bytes h).
End hash_text.

(** src: primitives/src/hash.rs 172-174 from_reversed_str *)
Definition from_reversed_str {X : HexOps} (s : string) : option H256 := reversed <$> hash_from_literal s.

(** src: primitives/src/hash.rs 177-179 to_reversed_str *)
Definition to_reversed_str {X : HexOps} (h : H256) : string := hash_fmt (reversed h).

(** ** JSON strings *)

(** An error of a visitor; a text that is quoted is kept. *)
Inductive VisitError := InvalidValue (value : string) | CustomError (message : string).

Section visitors.
Context {X : HexOps}.

(** src: rpc/src/v1/types/hash.rs 95-102 serialize *)
Definition json_hash {n} (h : hash n) : string := to_hex (hash_bytes h).

(** [copy_from_slice] panics on a slice of another length. *)
(** src: rpc/src/v1/types/hash.rs 119-135 visit_str *)
Definition hash_visit_str {n} (value : string) : option (result VisitError (hash n)) :=
  if negb (String.length value =? n * 2)%nat then Some (Err (InvalidValue value))
  else
    match from_hex value with
    | Ok v => if decide (length v = n) then Some (Ok (hash_of v)) else None
    | Err _ => Some (Err (InvalidValue value))
    end.

(** src: rpc/src/v1/types/hash.rs 155-159 reversed *)
Definition rpc_reversed (h : H256) : H256 := hash_of (reverse (hash_bytes h)).

(** src: rpc/src/v1/types/bytes.rs 40-47 serialize *)
Definition json_bytes (bs : list byte) : string := to_hex bs.

(** src: rpc/src/v1/types/bytes.rs 68-79 visit_str *)
Definition bytes_visit_str (value : string) : result VisitError (list byte) :=
  if (0 <? String.length value)%nat && Nat.even (String.length value) then
    match from_hex value with Ok bs => Ok bs | Err _ => Err (CustomError "invalid hex") end
  else Err (CustomError "invalid format").
End visitors.

(** src: rpc/src/v1/types/nodes.rs 7-11 AddNodeOperation *)
Inductive AddNodeOperation := AddNode | RemoveNode | OneTry.

(** src: rpc/src/v1/types/nodes.rs 29-39 visit_str *)
Definition operation_visit_str (value : string) : result VisitError AddNodeOperation :=
  if decide (value = "add"%string) then Ok AddNode
  else if decide (value = "remove"%string) then Ok RemoveNode
  else if decide (value = "onetry"%string) then Ok OneTry
  else Err (InvalidValue value).

(** ** Formatting *)

Definition hex_digit (d : Z) : ascii :=
  Ascii.ascii_of_nat (Z.to_nat (if d <? 10 then 48 + d else 87 + d)).

Fixpoint hex_digits (fuel : nat) (n : Z) (rest : string) : string :=
  match fuel with
  | O => rest
  | S fuel => if n =? 0 then rest else hex_digits fuel (n / 16) (String (hex_digit (n mod 16)) rest)
  end.

(** [format!] with [:x] of a [u32], which has eight digits at most. *)
Definition fmt_lower_hex (n : Z) : string := if n =? 0 then "0" else hex_digits 8 n "".

(** [format!] with [:?] of a string: in quotes, with quotes and backslashes
    escaped. *)
Definition quote : ascii := Ascii.ascii_of_nat 34.
Definition backslash : ascii := Ascii.ascii_of_nat 92.

Fixpoint escape (s : string) : string :=
  match s with
  | EmptyString => EmptyString
  | String a s =>
      if decide (a = quote ∨ a = backslash) then String backslash (String a (escape s)) else String a (escape s)
  end.

Definition fmt_debug_str (s : string) : string := String quote (escape s +:+ String quote "").

(** ** Lemmas *)

Section text_lemmas.
Context {X : HexOps} {XL : HexLaws X}.

Lemma hash_text_roundtrip {n} (h : hash n) : hash_from_str (hash_fmt h) = Ok h.
Proof. unfold hash_from_str, hash_fmt. by rewrite from_to_hex, decide_True, hash_of_bytes by apply hash_length. Qed.

Lemma reversed_text_roundtrip h : from_reversed_str (to_reversed_str h) = Some h.
Proof. unfold from_reversed_str, to_reversed_str, hash_from_literal. rewrite hash_text_roundtrip. cbn. by rewrite reversed_involutive. Qed.

Lemma json_hash_roundtrip {n} (h : hash n) : hash_visit_str (json_hash h) = Some (Ok h).
Proof.
  unfold hash_visit_str, json_hash. rewrite to_hex_length, from_to_hex, hash_length, (Nat.mul_comm 2), Nat.eqb_refl. cbn [negb].
  by rewrite decide_True, hash_of_bytes.
Qed.

Lemma json_bytes_roundtrip bs : bs ≠ [] → bytes_visit_str (json_bytes bs) = Ok bs.
Proof.
  intros Hbs. unfold bytes_visit_str, json_bytes. rewrite to_hex_length, from_to_hex, Nat.even_mul. cbn [Nat.even orb].
  destruct bs; [done|]. by rewrite (proj2 (Nat.ltb_lt _ _)) by (cbn; lia).
Qed.

End text_lemmas.

(** ** A reference encoding *)

Module HexReference.
Definition hex_value (a : ascii) : option Z :=
  let v := Z.of_nat (Ascii.nat_of_ascii a) in
  if (48 <=? v) && (v <=? 57) then Some (v - 48)
  else if (97 <=? v) && (v <=? 102) then Some (v - 87)
  else if (65 <=? v) && (v <=? 70) then Some (v - 55)
  else None.

Fixpoint encode (bs : list byte) : string :=
  match bs with
  | [] => EmptyString
  | b :: bs => String (hex_digit (byte_val b / 16)) (String (hex_digit (byte_val b mod 16)) (encode bs))
  end.

Fixpoint decode (s : string) : result bool (list byte) :=
  match s with
  | EmptyString => Ok []
  | String a (String b s) =>
      match hex_value a, hex_value b with
      | Some x, Some y => match decode s with Ok bs => Ok (byte_of (16 * x + y) :: bs) | Err e => Err e end
      | _, _ => Err false
      end
  | _ => Err true
  end.

#[export] Instance ref_hex_ops : HexOps := {|
  FromHexError := bool;
  InvalidHexLength := true;
  to_hex := encode;
  from_hex := decode;
|}.

Lemma hex_value_digit b : hex_value (hex_digit (byte_val b / 16)) = Some (byte_val b / 16) ∧
  hex_value (hex_digit (byte_val b mod 16)) = Some (byte_val b mod 16).
Proof. by destruct b. Qed.

#[export] Instance ref_hex_laws : HexLaws ref_hex_ops.
Proof.
  split; cbn.
  - induction bs as [|b bs IH]; cbn [encode decode]; [done|]. destruct (hex_value_digit b) as [-> ->]. rewrite IH.
    by rewrite <-Z.div_mod, byte_of_val by lia.
  - induction bs as [|b bs IH]; cbn [encode String.length length]; [done|]. rewrite IH. lia.
Qed.
End HexReference.
