(* ===== verification/Bytes.v ===== *)
(** * Byte buffers and their text ([primitives/src/bytes.rs], [rpc/src/v1/types],
    [serialization/src/reader.rs])

    The wrappers of [Vec<u8>] with what they do to it and how they are written
    as text, the JSON form of 256-bit integers, and [Reader::skip_while].  The
    text of a [U256] is the crate's [bigint], a class with the law that reading
    undoes writing. *)

From S2P Require Import Prelude External Primitives Serialization Hex.
From stdpp Require Import strings.
#[local] Open Scope Z_scope.

(** ** [primitives::Bytes] *)

(** src: primitives/src/bytes.rs 7-9 Bytes *)
Record Bytes := mkBytes { bytes_vec : list byte }.

#[global] Instance Bytes_eq_dec : EqDecision Bytes.
Proof. solve_decision. Defined.

(** src: primitives/src/bytes.rs 12-14 new *)
Definition bytes_new : Bytes := mkBytes [].

(** src: primitives/src/bytes.rs 16-18 new_with_len *)
Definition new_with_len (len : nat) : Bytes := mkBytes (replicate len (byte_of 0)).

(** src: primitives/src/bytes.rs 20-22 take *)
Definition bytes_take (b : Bytes) : list byte := bytes_vec b.

(** src: primitives/src/bytes.rs 24-26 len *)
Definition bytes_len (b : Bytes) : nat := length (bytes_vec b).

(** Both buffers after the call: [Vec::append] empties the other one. *)
(** src: primitives/src/bytes.rs 28-30 append *)
Definition bytes_append (b other : Bytes) : Bytes * Bytes :=
  (mkBytes (bytes_vec b ++ bytes_vec other), mkBytes []).

(** What is split off, and the buffer after the call; [Vec::split_off] panics
    past the end. *)
(** src: primitives/src/bytes.rs 32-34 split_off *)
Definition split_off (at_ : nat) (b : Bytes) : option (Bytes * Bytes) :=
  if (at_ <=? length (bytes_vec b))%nat
  then Some (mkBytes (drop at_ (bytes_vec b)), mkBytes (take at_ (bytes_vec b)))
  else None.

(** [io::Write]: a [Vec] takes all it is given. *)
(** src: primitives/src/bytes.rs 75-83 write *)
Definition bytes_write (buf : list byte) (b : Bytes) : nat * Bytes :=
  (length buf, mkBytes (bytes_vec b ++ buf)).

Section bytes_text.
Context {X : HexOps}.

(** src: primitives/src/bytes.rs 67-73 from_str *)
Definition bytes_from_str (s : string) : result FromHexError Bytes :=
  match from_hex s with Ok v => Ok (mkBytes v) | Err e => Err e end.

(** [s.parse().unwrap()] *)
(** src: primitives/src/bytes.rs 61-65 from *)
Definition bytes_from_literal (s : string) : option Bytes :=
  match bytes_from_str s with Ok b => Some b | Err _ => None end.

(** src: primitives/src/bytes.rs 85-89 fmt *)
Definition bytes_fmt (b : Bytes) : string := to_hex (bytes_vec b).
End bytes_text.

(** The label is of no size. *)
(** src: primitives/src/bytes.rs 117-136 TaggedBytes *)
Record TaggedBytes (T : Type) := tagged_new { into_raw : Bytes }.
Arguments tagged_new {T} _.
Arguments into_raw {T} _.

(** ** Hashes and integers of the RPC interface *)

(** src: rpc/src/v1/types/hash.rs 36-43 from_str *)
Definition rpc_hash_from_str {X : HexOps} {n} (s : string) : result FromHexError (hash n) :=
  match hash_from_str (n:=n) s with Ok other => Ok (hash_of (hash_bytes other)) | Err e => Err e end.

(** Slices are ordered as their first difference is. *)
Fixpoint slice_cmp (l k : list byte) : comparison :=
  match l, k with
  | [], [] => Eq
  | [], _ :: _ => Lt
  | _ :: _, [] => Gt
  | b :: l, d :: k => match byte_val b ?= byte_val d with Eq => slice_cmp l k | c => c end
  end.

(** src: rpc/src/v1/types/hash.rs 51-73 cmp *)
Definition rpc_hash_cmp {n} (h g : hash n) : comparison := slice_cmp (hash_bytes h) (hash_bytes g).

(** The text of [bigint]'s integers. *)
Class UintText := {
  UintError : Type;
  uint_from_str : string → result UintError Z;
  uint_to_hex : Z → string;
}.

Class UintTextLaws (X : UintText) : Prop := {
  uint_from_to_hex n : 0 ≤ n < 2 ^ 256 → uint_from_str (uint_to_hex n) = Ok n;
  uint_to_hex_length n : 0 ≤ n < 2 ^ 256 → (String.length (uint_to_hex n) ≤ 64)%nat;
}.

Section uint_text.
Context {X : UintText}.

(** src: rpc/src/v1/types/uint.rs 39-47 serialize *)
Definition json_uint (n : Z) : string := uint_to_hex n.

(** [$size * 16] characters, of four words. *)
(** src: rpc/src/v1/types/uint.rs 62-73 visit_str *)
Definition uint_visit_str (value : string) : result VisitError Z :=
  if (4 * 16 <? String.length value)%nat then Err (InvalidValue value)
  else match uint_from_str value with Ok n => Ok n | Err _ => Err (InvalidValue value) end.
End uint_text.

(** ** [Reader::skip_while] *)

(** [None] is too little [fuel]; a round that goes on takes a byte.  Sources
    that fail are not modelled ([Serialization.v]). *)
(** src: serialization/src/reader.rs 116-132 skip_while *)
Fixpoint skip_while {S} `{Read S} (fuel : nat) (predicate : byte → bool) (r : Reader S) : option (Reader S) :=
  match fuel with
  | O => None
  | Datatypes.S fuel =>
      let '(next, r) :=
        match peeked r with
        | Some p => (Some p, mkReader (buffer r) None)
        | None => let '(c, b) := io_read 1 (buffer r) in (head c, mkReader b None)
        end in
      match next with
      | None => Some r
      | Some next =>
          if predicate next then skip_while fuel predicate r
          else Some (mkReader (buffer r) (Some next))
      end
  end.

(** ** Lemmas *)

(** Splitting a buffer and appending what was split off gives it back. *)
Lemma split_append at_ b off b' : split_off at_ b = Some (off, b') →
  bytes_append b' off = (b, bytes_new) ∧ bytes_len b' = at_.
Proof.
  unfold split_off. destruct (Nat.leb_spec at_ (length (bytes_vec b))) as [Hl|]; [|done].
  intros [= <- <-]. unfold bytes_append, bytes_len. cbn. rewrite take_drop, length_take.
  split; [by destruct b|lia].
Qed.

Lemma split_off_panics at_ b : split_off at_ b = None ↔ (bytes_len b < at_)%nat.
Proof. unfold split_off, bytes_len. destruct (Nat.leb_spec at_ (length (bytes_vec b))); split; try done; lia. Qed.

Lemma bytes_text_roundtrip {X : HexOps} {XL : HexLaws X} b : bytes_from_str (bytes_fmt b) = Ok b.
Proof. unfold bytes_from_str, bytes_fmt. rewrite from_to_hex. by destruct b. Qed.

Lemma json_uint_roundtrip {X : UintText} {XL : UintTextLaws X} n : 0 ≤ n < 2 ^ 256 →
  uint_visit_str (json_uint n) = Ok n.
Proof.
  intros Hn. unfold uint_visit_str, json_uint. rewrite (proj2 (Nat.ltb_ge _ _)) by by apply uint_to_hex_length.
  by rewrite uint_from_to_hex.
Qed.

(** The comparison is an order: reflexive, equal only on equal slices, and
    antisymmetric. *)
Lemma slice_cmp_refl l : slice_cmp l l = Eq.
Proof. induction l as [|b l IH]; [done|]. cbn. by rewrite Z.compare_refl. Qed.

Lemma slice_cmp_eq l k : slice_cmp l k = Eq → l = k.
Proof.
  revert k. induction l as [|b l IH]; intros [|d k]; cbn; try done.
  destruct (Z.compare_spec (byte_val b) (byte_val d)) as [E| |]; [|done..]. intros Hc.
  f_equal; [|by apply IH]. by apply byte_val_inj.
Qed.

Lemma slice_cmp_antisym l k :
  slice_cmp k l = CompOpp (slice_cmp l k).
Proof.
  revert k. induction l as [|b l IH]; intros [|d k]; cbn; try done.
  rewrite (Z.compare_antisym (byte_val b)). destruct (byte_val b ?= byte_val d); cbn; [apply IH|done..].
Qed.

(** The longest part at the front that satisfies the predicate is skipped. *)
Fixpoint drop_while (predicate : byte → bool) (l : list byte) : list byte :=
  match l with
  | [] => []
  | b :: l => if predicate b then drop_while predicate l else b :: l
  end.

Lemma skip_while_spec {S} `{ReadSource S} predicate fuel : ∀ r : Reader S, rvalid r →
  (length (rcontent r) < fuel)%nat →
  ∃ r', skip_while fuel predicate r = Some r' ∧ rvalid r' ∧
    rcontent r' = drop_while predicate (rcontent r).
Proof.
  induction fuel as [|fuel IH]; intros [b pk] Hv Hf; [lia|]. cbn [skip_while peeked buffer].
  destruct pk as [p|].
  - unfold rcontent in *. cbn in *. destruct (predicate p).
    + apply (IH (mkReader b None)); [done|]. cbn. lia.
    + by eexists.
  - destruct (io_read 1 b) as [c b'] eqn:Eb. pose proof Eb as Eb'.
    apply io_read_spec in Eb' as (Ec & Hl & Hz & Hv'); [|done].
    unfold rcontent in *. cbn in *. destruct c as [|x [|y c]]; cbn in *; [| |lia].
    + destruct (Hz eq_refl) as [|Hn]; [done|]. eexists. split; [done|]. cbn. rewrite Hn in Ec. cbn in Ec.
      rewrite <-Ec, Hn. done.
    + rewrite Ec in *. cbn in *. destruct (predicate x).
      * apply (IH (mkReader b' None)); [done|]. cbn. lia.
      * by eexists.
Qed.

(** A reader after spaces has none left at its front. *)
Example skip_spaces :
  option_map rcontent
    (skip_while 5 (λ b, byte_val b =? 32) (from_read [byte_of 32; byte_of 32; byte_of 7; byte_of 32])) =
  Some [byte_of 7; byte_of 32].
Proof. reflexivity. Qed.

(** ** A reference text of integers *)

Module UintReference.
(** Sixty-four digits, most significant first. *)
#[export] Instance ref_uint_text {X : HexOps} : UintText := {|
  UintError := FromHexError;
  uint_from_str s := match from_hex s with Ok bs => Ok (be_val bs) | Err e => Err e end;
  uint_to_hex n := to_hex (be_bytes 32 n);
|}.

#[export] Instance ref_uint_text_laws {X : HexOps} {XL : HexLaws X} : UintTextLaws ref_uint_text.
Proof.
  split; cbn; intros n Hn.
  - by rewrite from_to_hex, be_val_be_bytes.
  - by rewrite to_hex_length, length_be_bytes.
Qed.
End UintReference.
