(* ===== verification/Rpc.v ===== *)
(** * The RPC handlers ([rpc/src/v1])

    What the node answers over JSON-RPC: the block chain ([impls/blockchain.rs]),
    block templates ([impls/miner.rs]) and nodes with their connections
    ([impls/network.rs]).  Hashes are shown with their bytes reversed.  A handler
    runs to completion; a panic of the code below it is [None]. *)

From S2P Require Import Prelude External Primitives Serialization Compact Crypto Chain.
From S2P Require Import Storage Network Work Verification Miner Kv KvRefine BlockChainDb ChainInv ChainOps.
From S2P Require Import Message MessageTypes SpeedMeter Collections NodeTable Session P2pContext.
From S2P Require Import HashQueue HeadersChain SyncChain PeersTasks OrphanPool Peers ClientCore Server Writer Node Hex.
From stdpp Require Import gmap strings pretty.
#[local] Open Scope Z_scope.

(** ** Errors *)

Inductive ErrorCode := InternalError | InvalidParams | ServerError (code : Z).

(** The data of an error is a string. *)
Record RpcError := mkRpcError { err_code : ErrorCode; err_message : string; err_data : option string }.

(** src: rpc/src/v1/helpers/errors.rs 3-10 codes *)
Definition UNKNOWN : Z := -32000.
Definition EXECUTION_ERROR : Z := -32015.
Definition BLOCK_NOT_FOUND : Z := -32099.
Definition NODE_ALREADY_ADDED : Z := -32150.
Definition NODE_NOT_ADDED : Z := -32151.

(** src: rpc/src/v1/helpers/errors.rs 15-22 unimplemented *)
Definition unimplemented (details : option string) : RpcError :=
  mkRpcError InternalError "This request is not implemented yet. Please create an issue on Github repo." details.

(** The details of the errors below are given as [format!] writes them. *)
(** src: rpc/src/v1/helpers/errors.rs 24-30 invalid_params *)
Definition invalid_params (param details : string) : RpcError :=
  mkRpcError InvalidParams ("Couldn't parse parameters: " +:+ param) (Some details).

(** src: rpc/src/v1/helpers/errors.rs 32-38 execution *)
Definition execution (data : string) : RpcError :=
  mkRpcError (ServerError EXECUTION_ERROR) "Execution error." (Some data).

(** src: rpc/src/v1/helpers/errors.rs 40-46 block_not_found *)
Definition block_not_found (data : string) : RpcError :=
  mkRpcError (ServerError BLOCK_NOT_FOUND) "Block with given hash is not found" (Some data).

(** src: rpc/src/v1/helpers/errors.rs 48-54 block_at_height_not_found *)
Definition block_at_height_not_found (data : string) : RpcError :=
  mkRpcError (ServerError BLOCK_NOT_FOUND) "Block at given height is not found" (Some data).

(** src: rpc/src/v1/helpers/errors.rs 56-62 node_already_added *)
Definition node_already_added : RpcError :=
  mkRpcError (ServerError NODE_ALREADY_ADDED) "Node already added to the node table" None.

(** src: rpc/src/v1/helpers/errors.rs 64-70 node_not_added *)
Definition node_not_added : RpcError :=
  mkRpcError (ServerError NODE_NOT_ADDED) "Node not added to the node table" None.

(** src: rpc/src/v1/helpers/errors.rs 72-78 unknown *)
Definition rpc_unknown : RpcError := mkRpcError (ServerError UNKNOWN) "Unknown error has occurred" None.

(** ** The difficulty of a compact target *)

(** src: primitives/src/compact.rs 86-98 to_f64 *)
Definition to_f64 (c : Compact) : f64 :=
  let shift := Z.land (Z.shiftr (compact_u32 c) 24) 0xff in
  let diff := f64_div (f64_of_Z 0x0000ffff) (f64_of_Z (Z.land (compact_u32 c) 0x00ffffff)) in
  let diff := Nat.iter (Z.to_nat (29 - shift)) (λ diff, f64_mul diff (f64_of_Z 256)) diff in
  Nat.iter (Z.to_nat (shift - 29)) (λ diff, f64_div diff (f64_of_Z 256)) diff.

(** ** The block chain *)

(** src: rpc/src/v1/types/get_block_response.rs 17-56 VerboseBlock *)
Record VerboseBlock := mkVerboseBlock {
  vb_hash : H256;
  vb_confirmations : Z;
  vb_size : Z;
  vb_height : option Z;
  vb_version : Z;
  vb_version_hex : string;
  vb_pubkey_hex : string;
  vb_randomness_hex : string;
  vb_time : Z;
  vb_mediantime : option Z;
  vb_iterations : Z;
  vb_bits : Z;
  vb_difficulty : f64;
  vb_chainwork : Z;
  vb_previousblockhash : option H256;
  vb_nextblockhash : option H256;
}.

(** src: rpc/src/v1/types/get_block_response.rs 8-13 GetBlockResponse *)
Inductive GetBlockResponse := RawResponse (block : list byte) | VerboseResponse (block : VerboseBlock).

(** What the handlers ask of the core. *)
(** src: rpc/src/v1/impls/blockchain.rs 18-25 BlockChainClientCoreApi *)
Class BlockChainClientCoreApi (M : Type → Type) := {
  api_best_block_hash : M H256;
  api_block_count : M Z;
  api_block_hash : Z → M (option H256);
  api_difficulty : M f64;
  api_raw_block : H256 → M (option (list byte));
  api_verbose_block : H256 → M (option VerboseBlock);
}.

(** [Integer::to_string_radix(16)] of the crate [rug]. *)
Class RugText := integer_to_hex : Z → string.

Section core.
Context {R : RugOps} {H : Sha256Ops} {V : VrfOps} {P : Profile} {X : HexOps} {RT : RugText}.
Context {T : Type} {K : KeyValueDatabase T}.

(** src: rpc/src/v1/impls/blockchain.rs 38-40 best_block_hash *)
Definition core_best_block_hash : DM T H256 := best ← best_block; mret (bb_hash best).

(** src: rpc/src/v1/impls/blockchain.rs 42-44 block_count *)
Definition core_block_count : DM T Z := best ← best_block; mret (bb_number best).

(** src: rpc/src/v1/impls/blockchain.rs 46-48 block_hash *)
Definition core_block_hash (height : Z) : DM T (option H256) := block_hash height.

(** src: db/src/block_chain_db.rs 505-507 difficulty *)
Definition db_difficulty : DM T f64 := header ← best_header; mret (to_f64 (bits (ih_raw header))).

(** src: rpc/src/v1/impls/blockchain.rs 50-52 difficulty *)
Definition core_difficulty : DM T f64 := db_difficulty.

(** src: rpc/src/v1/impls/blockchain.rs 54-58 raw_block *)
Definition core_raw_block (hash : H256) : DM T (option (list byte)) :=
  block ← db_block (RefHash hash);
  mret ((λ block, serialize ser_block (to_raw_block block)) <$> block).

(** The number of blocks from [block_number] to the best one, in 32 bits. *)
(** src: rpc/src/v1/impls/blockchain.rs 63-66 confirmations *)
Definition confirmations (height : option Z) : DM T Z :=
  match height with
  | Some block_number =>
      best ← best_block;
      above ← lift (u32_sub (bb_number best) block_number);
      lift (u32_add above 1)
  | None => mret (-1)
  end.

(** src: rpc/src/v1/impls/blockchain.rs 81-82 nextblockhash *)
Definition next_block_hash (height : option Z) : DM T (option H256) :=
  match height with
  | Some h => next ← lift (u32_add h 1); block_hash next
  | None => mret None
  end.

(** src: rpc/src/v1/impls/blockchain.rs 60-93 verbose_block *)
Definition core_verbose_block (hash : H256) : DM T (option VerboseBlock) :=
  block ← db_block (RefHash hash);
  match block with
  | None => mret None
  | Some block =>
      let raw := ih_raw (ib_header block) in
      height ← block_number (ib_hash block);
      confirmed ← confirmations height;
      median_time ← (λ s, Some (median_timestamp raw (db_header_provider s), s)) : DM T Z;
      next ← next_block_hash height;
      mret (Some (mkVerboseBlock (ib_hash block) confirmed (wrap 32 (ib_size block)) height (version raw)
        (fmt_lower_hex (version raw)) (to_hex (vrf_to_bytes (pubkey raw))) (integer_to_hex (randomness raw))
        (time raw) (Some median_time) (iterations raw) (compact_u32 (bits raw)) (to_f64 (bits raw)) 0
        (Some (previous_header_hash raw)) next))
  end.

#[global] Instance core_api : BlockChainClientCoreApi (DM T) := {|
  api_best_block_hash := core_best_block_hash;
  api_block_count := core_block_count;
  api_block_hash := core_block_hash;
  api_difficulty := core_difficulty;
  api_raw_block := core_raw_block;
  api_verbose_block := core_verbose_block;
|}.
End core.

Section client.
Context {X : HexOps} {M : Type → Type} {Mret : MRet M} {Mbind : MBind M} {A : BlockChainClientCoreApi M}.

(** src: rpc/src/v1/impls/blockchain.rs 109-111 best_block_hash *)
Definition rpc_best_block_hash : M (result RpcError H256) :=
  hash ← api_best_block_hash; mret (Ok (reversed hash)).

(** src: rpc/src/v1/impls/blockchain.rs 113-115 block_count *)
Definition rpc_block_count : M (result RpcError Z) := count ← api_block_count; mret (Ok count).

(** src: rpc/src/v1/impls/blockchain.rs 117-122 block_hash *)
Definition rpc_block_hash (height : Z) : M (result RpcError H256) :=
  hash ← api_block_hash height;
  mret match hash with Some h => Ok (reversed h) | None => Err (block_at_height_not_found (pretty height)) end.

(** src: rpc/src/v1/impls/blockchain.rs 124-126 difficulty *)
Definition rpc_difficulty : M (result RpcError f64) := d ← api_difficulty; mret (Ok d).

(** The hashes of the answer are reversed as well. *)
(** src: rpc/src/v1/impls/blockchain.rs 133-136 reversed *)
Definition verbose_reversed (b : VerboseBlock) : VerboseBlock :=
  mkVerboseBlock (rpc_reversed (vb_hash b)) (vb_confirmations b) (vb_size b) (vb_height b) (vb_version b) (vb_version_hex b)
    (vb_pubkey_hex b) (vb_randomness_hex b) (vb_time b) (vb_mediantime b) (vb_iterations b) (vb_bits b)
    (vb_difficulty b) (vb_chainwork b) (rpc_reversed <$> vb_previousblockhash b) (rpc_reversed <$> vb_nextblockhash b).

(** src: rpc/src/v1/impls/blockchain.rs 128-148 block *)
Definition rpc_block (hash : H256) (verbose : option bool) : M (result RpcError GetBlockResponse) :=
  block ← (if default false verbose
           then block ← api_verbose_block (reversed hash); mret ((λ b, VerboseResponse (verbose_reversed b)) <$> block)
           else block ← api_raw_block (reversed hash); mret (RawResponse <$> block) : M (option GetBlockResponse));
  mret match block with Some response => Ok response | None => Err (block_not_found (json_hash hash)) end.
End client.

(** ** Block templates *)

(** src: rpc/src/v1/types/block_template_request.rs 5-14 BlockTemplateRequestMode *)
Inductive BlockTemplateRequestMode := TemplateMode | ProposalMode.

(** src: rpc/src/v1/types/block_template_request.rs 24-31 BlockTemplateRequest *)
Record BlockTemplateRequest := mkBlockTemplateRequest {
  rq_mode : option BlockTemplateRequestMode;
  rq_capabilities : option (gset string);
  rq_rules : option (gset string);
}.

(** src: rpc/src/v1/types/block_template.rs 7-39 BlockTemplate *)
Record RpcBlockTemplate := mkRpcBlockTemplate {
  rt_version : Z;
  rt_rules : option (list string);
  rt_vbavailable : option (gmap string Z);
  rt_vbrequired : option Z;
  rt_previousblockhash : H256;
  rt_coinbaseaux : option (gmap string string);
  rt_target : H256;
  rt_mintime : option Z;
  rt_mutable : option (list string);
  rt_weightlimit : option Z;
  rt_curtime : Z;
  rt_bits : Z;
  rt_height : Z;
}.

(** src: rpc/src/v1/types/block_template.rs 41-52 from *)
Definition rpc_template (block : BlockTemplate) : RpcBlockTemplate :=
  mkRpcBlockTemplate (bt_version block) None None None (reversed (bt_previous_header_hash block)) None hash_default None None
    None (bt_time block) (compact_u32 (bt_bits block)) (bt_height block).

Section miner_client.
Context {U : U256Ops} {R : RugOps} {H : Sha256Ops} {V : VrfOps} {P : Profile}.
Context {T : Type} {K : KeyValueDatabase T}.
Context {MP : Type → Type} {LP : LinkedHashMap PeerIndex MP}.
Context {MH : Type → Type} {LH : LinkedHashMap H256 MH}.
Context {C : Type} (network : Network).

(** The request is not looked at. *)
(** src: rpc/src/v1/impls/miner.rs 46-48 get_block_template *)
Definition rpc_get_block_template (now : Z) (request : BlockTemplateRequest)
    (n : LocalNode (T:=T) (MP:=MP) (MH:=MH) (C:=C)) : option (result RpcError RpcBlockTemplate) :=
  template ← node_block_template network now n;
  Some (Ok (rpc_template template)).
End miner_client.

(** ** Nodes and connections *)

(** The text of addresses, as the Standard Library of Rust reads and writes it. *)
Class AddressText := {
  parse_socket_addr : string → option SocketAddr;
  parse_ip_addr : string → option IpAddr;
  fmt_socket_addr : SocketAddr → string;
}.

(** src: rpc/src/v1/types/nodes.rs 71-74 NodeInfoAddressConnectionType *)
Inductive NodeInfoAddressConnectionType := InboundConnection | OutboundConnection.

(** src: rpc/src/v1/types/nodes.rs 47-50 NodeInfoAddress *)
Record NodeInfoAddress := mkNodeInfoAddress { na_address : string; na_connected : NodeInfoAddressConnectionType }.

(** src: rpc/src/v1/types/nodes.rs 65-69 NodeInfo *)
Record NodeInfo := mkNodeInfo { ni_addednode : string; ni_connected : bool; ni_addresses : list NodeInfoAddress }.

(** src: rpc/src/v1/types/nodes.rs 76-86 serialize *)
Definition connection_type_text (t : NodeInfoAddressConnectionType) : string :=
  match t with InboundConnection => "inbound" | OutboundConnection => "outbound" end.

Section network.
Context {P : Profile} {A : AddressText} {OC : HashOrder Z} {OA : HashOrder SocketAddr}.

(** src: p2p/src/net/connections.rs 42-47 info *)
Definition connections_info (cs : Connections) : list PeerInfo := (hm_iter (channels cs)).*2.

(** src: p2p/src/net/connections.rs 50-52 count *)
Definition connections_count (cs : Connections) : Z := Z.of_nat (size (channels cs)).

(** src: p2p/src/util/node_table.rs 358-360 nodes *)
Definition nodes_of (t : NodeTable) : list NodeTable.Node := (hm_iter (by_addr t)).*2.

(** src: p2p/src/p2p.rs 539-541 nodes *)
Definition context_nodes (c : Context) : list NodeTable.Node := nodes_of (cx_table c).

(** src: p2p/src/p2p.rs 271-273 connect_normal *)
Definition connect_normal (socket : SocketAddr) (c : Context) : Context := context_connect socket c.

(** src: rpc/src/v1/types/nodes.rs 52-62 from *)
Definition node_info_address (info : PeerInfo) : NodeInfoAddress :=
  mkNodeInfoAddress (fmt_socket_addr (pi_address info))
    (match pi_direction info with Session.Inbound => InboundConnection | Session.Outbound => OutboundConnection end).

(** The answer for a node, with the connections to its address. *)
(** src: rpc/src/v1/impls/network.rs 137-148 NodeInfo *)
Definition info_of_node (peers : list PeerInfo) (n : NodeTable.Node) : NodeInfo :=
  let node_peers := filter (λ p, pi_address p = node_addr n) peers in
  mkNodeInfo (fmt_socket_addr (node_addr n)) (negb (bool_decide (node_peers = []))) (node_info_address <$> node_peers).

(** src: rpc/src/v1/impls/network.rs 107-129 node_info *)
Definition core_node_info (addr : IpAddr) (c : Context) : result NodeTableError NodeInfo :=
  match list_find (λ n, sa_ip (node_addr n) = addr) (context_nodes c) with
  | None => Err NoAddressInTable
  | Some (_, exact_node) => Ok (info_of_node (connections_info (cx_connections c)) exact_node)
  end.

(** src: rpc/src/v1/impls/network.rs 131-150 nodes_info *)
Definition core_nodes_info (c : Context) : list NodeInfo :=
  info_of_node (connections_info (cx_connections c)) <$> context_nodes c.

(** src: rpc/src/v1/impls/network.rs 152-154 connection_count *)
Definition core_connection_count (c : Context) : Z := connections_count (cx_connections c).

Definition parse_details : string := "Invalid socket address format, should be ip:port (127.0.0.1:8008)".
Definition parse_ip_details : string := "Invalid ip address format, should be ip address (127.0.0.1)".

(** src: rpc/src/v1/impls/network.rs 23-44 add_node *)
Definition rpc_add_node (now : Z) (node : string) (operation : AddNodeOperation) (c : Context) :
    option (result RpcError unit * Context) :=
  match parse_socket_addr node with
  | None => Some (Err (invalid_params "node" (fmt_debug_str parse_details)), c)
  | Some addr =>
      match operation with
      | AddNode =>
          '(r, c) ← add_node now addr c;
          Some (match r with Ok _ => Ok tt | Err _ => Err node_already_added end, c)
      | RemoveNode =>
          let '(r, c) := remove_node addr c in
          Some (match r with Ok _ => Ok tt | Err _ => Err node_not_added end, c)
      | OneTry => Some (Ok tt, connect_normal addr c)
      end
  end.

(** src: rpc/src/v1/impls/network.rs 46-64 node_info *)
Definition rpc_node_info (dns : bool) (node : option string) (c : Context) : result RpcError (list NodeInfo) :=
  match node with
  | None => Ok (core_nodes_info c)
  | Some node =>
      match parse_ip_addr node with
      | None => Err (invalid_params "node" (fmt_debug_str parse_ip_details))
      | Some addr =>
          match core_node_info addr c with Ok info => Ok [info] | Err _ => Err node_not_added end
      end
  end.

(** src: rpc/src/v1/impls/network.rs 66-68 connection_count *)
Definition rpc_connection_count (c : Context) : result RpcError Z := Ok (core_connection_count c).
End network.
