(* ===== verification/RpcSafe.v ===== *)
(** * What the RPC handlers answer ([rpc/src/v1/impls])

    The block chain as it is seen over RPC is the chain of the store: by height,
    by hash and along the links between blocks.  Templates are of blocks on top
    of the best one, nodes are those of the node table. *)

From S2P Require Import Prelude External Primitives Serialization Compact Crypto Chain.
From S2P Require Import Storage Network Work Verification Miner Kv KvRefine BlockChainDb ChainInv ChainOps.
From S2P Require Import Message MessageTypes SpeedMeter Collections NodeTable Session P2pContext.
From S2P Require Import HashQueue HeadersChain SyncChain PeersTasks OrphanPool Peers ClientCore Server ServerSafe Writer Node Hex Rpc.
From stdpp Require Import gmap strings pretty.
#[local] Open Scope Z_scope.

(** The next reading of a computation on a store. *)
Ltac next_read lem s' Hs' :=
  eapply answers_bind; [by apply lem|]; intros s' Hs'; eapply shows_unchanged in Hs'; [|eassumption]; cbv beta.

Section chain_answers.
Context {R : RugOps} {H : Sha256Ops} {V : VrfOps} {P : Profile} {X : HexOps} {RT : RugText}.
Context {T : Type} {K : KeyValueDatabase T} {KS : KvSpec T}.
Implicit Types (d s : BlockChainDatabase T) (hs : list H256) (v : View).

(** ** Median times *)

Lemma ancestors_ext n (p p' : BlockHeaderProvider) b : (∀ r, provider_header p r = provider_header p' r) →
  block_ancestors_take n (mkBlockAncestors b p) = block_ancestors_take n (mkBlockAncestors b p').
Proof.
  intros E. revert b. induction n as [|n IH]; intros [b|]; cbn; try done.
  rewrite E. destruct (provider_header p' b); [|done]. by rewrite IH.
Qed.

(** The headers of a store as its contents give them. *)
Definition view_provider v : BlockHeaderProvider :=
  mkBlockHeaderProvider (λ r, serialize ser_block_header ∘ ih_raw <$> v_header v r) (v_header v).

Lemma median_view d raw : db_valid d → median_timestamp raw (db_header_provider d) = median_timestamp raw (view_provider (db_view d)).
Proof.
  intros Hd. unfold median_timestamp, median_timestamp_inclusive, block_ancestors_new.
  rewrite (ancestors_ext _ _ (view_provider (db_view d))); [done|]. intros r. cbn. unfold read_of.
  destruct (reads_db_block_header r d Hd) as (d' & -> & _). done.
Qed.

(** ** One block *)

Definition position hs (h : H256) : option nat := fst <$> list_find (λ x, x = h) hs.

(** A block of the store as it is shown, before its hashes are reversed. *)
Definition shown v hs (b : IndexedBlock) : VerboseBlock :=
  let raw := ih_raw (ib_header b) in
  let i := position hs (ib_hash b) in
  mkVerboseBlock (ib_hash b) (match i with Some i => Z.of_nat (length hs - i) | None => -1 end)
    (wrap 32 (ib_size b)) (Z.of_nat <$> i) (version raw) (fmt_lower_hex (version raw)) (to_hex (vrf_to_bytes (pubkey raw)))
    (integer_to_hex (randomness raw)) (time raw) (Some (median_timestamp raw (view_provider v))) (iterations raw)
    (compact_u32 (bits raw)) (to_f64 (bits raw)) 0 (Some (previous_header_hash raw)) (i ≫= λ i, hs !! S i).

Lemma position_lookup hs h i : position hs h = Some i → hs !! i = Some h.
Proof. unfold position. destruct (list_find _ hs) as [[j x]|] eqn:E; [|done]. intros [= ->]. by eapply list_find_member. Qed.

Lemma answers_best v hs s : shows v hs s → answers s best_block (best_of hs).
Proof.
  intros [[Hv Hi] _]. eapply answers_reads; [apply reads_get_best|done|]. cbv beta. by rewrite (ci_best _ _ _ Hi).
Qed.

Lemma answers_lift {A} s (o : option A) a : db_valid s → o = Some a → answers s (lift o) a.
Proof. intros Hs ->. by eapply answers_reads; [apply reads_lift|..]. Qed.

Lemma shows_valid v hs s : shows v hs s → db_valid s.
Proof. intros Hs. apply Hs. Qed.

Lemma confirmations_spec v hs s h : shows v hs s → Z.of_nat (length hs) < 2 ^ 32 →
  answers s (confirmations (Z.of_nat <$> position hs h)) (match position hs h with Some i => Z.of_nat (length hs - i) | None => -1 end).
Proof.
  intros Hs Hlen. destruct (position hs h) as [i|] eqn:E; cbn [fmap option_fmap option_map confirmations]; [|apply answers_ret, Hs].
  apply position_lookup, lookup_lt_Some in E.
  next_read (answers_best v hs) s1 Hs1. destruct hs as [|x hs' _] using rev_ind; [cbn in E; lia|].
  rewrite best_of_snoc. cbn [bb_number]. rewrite length_app in *. cbn [length] in *.
  eapply answers_bind; [apply answers_lift; [by eapply shows_valid|apply u32_sub_fits; unfold fits; lia]|].
  intros s2 Hs2. apply answers_lift; [apply Hs2|]. cbv beta. rewrite u32_add_fits by (unfold fits; lia). f_equal. lia.
Qed.

Lemma next_hash_spec v hs s h : shows v hs s → Z.of_nat (length hs) < 2 ^ 32 →
  answers s (next_block_hash (Z.of_nat <$> position hs h)) (position hs h ≫= λ i, hs !! S i).
Proof.
  intros Hs Hfit. destruct (position hs h) as [i|] eqn:E; cbn [fmap option_fmap option_map next_block_hash mbind option_bind]; [|apply answers_ret, Hs].
  apply position_lookup, lookup_lt_Some in E.
  eapply answers_bind; [apply answers_lift; [by eapply shows_valid|apply u32_add_fits; unfold fits; lia]|].
  intros s1 Hs1. cbv beta. replace (Z.of_nat i + 1) with (Z.of_nat (S i)) by lia.
  eapply shows_unchanged in Hs1; [|done]. by apply (reads_hash v hs).
Qed.

Lemma answers_block v hs s h : shows v hs s → answers s (db_block (RefHash h)) (v_full v (RefHash h)).
Proof. intros [[Hv _] <-]. by eapply answers_reads; [apply reads_db_block|..]. Qed.

Lemma full_hash v h b : v_full v (RefHash h) = Some b → ib_hash b = h.
Proof. unfold v_full, v_stored. cbn. destruct (v (KeyBlock h)); [|done]. cbn. destruct (as_block _); [|done]. by intros [= <-]. Qed.

Lemma answers_position v hs s h : shows v hs s → answers s (block_number h) (Z.of_nat <$> position hs h).
Proof.
  intros Hs. destruct (reads_number v hs s h Hs) as (s' & E & Hu). exists s'. split; [|done]. rewrite E. unfold position.
  by destruct (list_find _ hs) as [[]|].
Qed.

Lemma answers_median v hs s raw : shows v hs s →
  answers s ((λ s, Some (median_timestamp raw (db_header_provider s), s)) : DM T Z) (median_timestamp raw (view_provider v)).
Proof. intros [[Hv _] <-]. exists s. split; [|done]. by rewrite median_view. Qed.

Lemma verbose_spec v hs s h : shows v hs s → Z.of_nat (length hs) < 2 ^ 32 →
  answers s (core_verbose_block h) (shown v hs <$> v_full v (RefHash h)).
Proof.
  intros Hs Hfit. unfold core_verbose_block. next_read (answers_block v hs) s1 Hs1.
  destruct (v_full v (RefHash h)) as [b|]; cbn [fmap option_fmap option_map]; [|apply answers_ret, Hs1].
  next_read (answers_position v hs) s2 Hs2. next_read (confirmations_spec v hs) s3 Hs3.
  next_read (answers_median v hs) s4 Hs4. next_read (next_hash_spec v hs) s5 Hs5. apply answers_ret, Hs5.
Qed.

Lemma raw_spec v hs s h : shows v hs s →
  answers s (core_raw_block h) (serialize ser_block ∘ to_raw_block <$> v_full v (RefHash h)).
Proof. intros Hs. unfold core_raw_block. next_read (answers_block v hs) s1 Hs1. apply answers_ret, Hs1. Qed.

(** The response to [getblock]. *)
Definition block_response v hs (verbose : bool) (b : IndexedBlock) : GetBlockResponse :=
  if verbose then VerboseResponse (verbose_reversed (shown v hs b)) else RawResponse (serialize ser_block (to_raw_block b)).

Lemma rpc_block_spec v hs s hash verbose : shows v hs s → Z.of_nat (length hs) < 2 ^ 32 →
  answers s (rpc_block hash verbose)
    (match v_full v (RefHash (reversed hash)) with
     | Some b => Ok (block_response v hs (default false verbose) b) | None => Err (block_not_found (json_hash hash)) end).
Proof.
  intros Hs Hfit. unfold rpc_block.
  eapply answers_bind with (a := block_response v hs (default false verbose) <$> v_full v (RefHash (reversed hash))).
  2:{ intros s' Hs'. destruct (v_full _ _); apply answers_ret, Hs'. }
  destruct (default false verbose); cbn [api_verbose_block api_raw_block core_api].
  - next_read (verbose_spec v hs) s1 Hs1. destruct (v_full _ _); apply answers_ret, Hs1.
  - next_read (raw_spec v hs) s1 Hs1. destruct (v_full _ _); apply answers_ret, Hs1.
Qed.

Lemma rpc_hash_spec v hs s i : shows v hs s →
  answers s (rpc_block_hash (Z.of_nat i))
    (match hs !! i with Some h => Ok (reversed h) | None => Err (block_at_height_not_found (pretty (Z.of_nat i))) end).
Proof.
  intros Hs. unfold rpc_block_hash. cbn [api_block_hash core_api]. unfold core_block_hash.
  next_read (reads_hash v hs) s1 Hs1. destruct (hs !! i); apply answers_ret, Hs1.
Qed.

Lemma rpc_best_spec v hs s : shows v hs s →
  answers s rpc_best_block_hash (Ok (reversed (bb_hash (best_of hs)))) ∧ answers s rpc_block_count (Ok (bb_number (best_of hs))).
Proof.
  intros Hs. split; unfold rpc_best_block_hash, rpc_block_count; cbn [api_best_block_hash api_block_count core_api];
    (eapply answers_bind; [eapply answers_bind; [by apply (answers_best v hs)|intros s' Hs'; apply answers_ret, Hs']|]);
    intros s' Hs'; apply answers_ret, Hs'.
Qed.

Lemma position_member v best hs i h : chain_inv v best hs → hs !! i = Some h → position hs h = Some i.
Proof. intros Hi Hh. unfold position. by destruct (find_lookup _ _ _ _ _ Hi Hh) as [x ->]. Qed.

Lemma position_none hs h : h ∉ hs → position hs h = None.
Proof.
  intros Hh. destruct (position hs h) as [i|] eqn:E; [|done]. apply position_lookup, list_elem_of_lookup_2 in E. done.
Qed.

(** C20: the chain over RPC is the chain of the store.  On a store with the chain
    [hs], [getbestblockhash] and [getblockcount] tell its end; [getblockhash]
    gives the hash at each height, reversed, and an error above the chain; the
    block [getblock] finds under that hash has that height, one confirmation for
    each block from it to the end of the chain, and links to the blocks before
    and after it; without [verbose] it is the encoded block.  A stored block
    beside the chain has no height, no successor and -1 confirmations; an
    unknown hash is an error.  Nothing is changed. *)
Theorem rpc_shows_chain d hs : state_inv d hs → Z.of_nat (length hs) < 2 ^ 32 →
  answers d rpc_best_block_hash (Ok (reversed (bb_hash (best_of hs)))) ∧
  answers d rpc_block_count (Ok (bb_number (best_of hs))) ∧
  (∀ i, hs !! i = None → answers d (rpc_block_hash (Z.of_nat i)) (Err (block_at_height_not_found (pretty (Z.of_nat i))))) ∧
  (∀ i h, hs !! i = Some h → ∃ blk b,
    v_block (db_view d) h = Some blk ∧
    answers d (rpc_block_hash (Z.of_nat i)) (Ok (reversed h)) ∧
    answers d (rpc_block (reversed h) None) (Ok (RawResponse (serialize ser_block blk))) ∧
    answers d (rpc_block (reversed h) (Some true)) (Ok (VerboseResponse b)) ∧
    vb_hash b = reversed h ∧ vb_height b = Some (Z.of_nat i) ∧ vb_confirmations b = Z.of_nat (length hs - i) ∧
    vb_previousblockhash b = Some (reversed (parent_in hs i)) ∧ vb_nextblockhash b = reversed <$> hs !! S i) ∧
  (∀ h blk, h ∉ hs → v_block (db_view d) h = Some blk → ∃ b,
    answers d (rpc_block (reversed h) (Some true)) (Ok (VerboseResponse b)) ∧
    vb_hash b = reversed h ∧ vb_height b = None ∧ vb_confirmations b = -1 ∧ vb_nextblockhash b = None ∧
    vb_previousblockhash b = Some (reversed (parent_of blk))) ∧
  (∀ h verbose, v_full (db_view d) (RefHash h) = None →
    answers d (rpc_block (reversed h) verbose) (Err (block_not_found (json_hash (reversed h))))).
Proof.
  intros Hd Hlen. assert (shows (db_view d) hs d) as Hs by done. pose proof (proj2 Hd) as Hi.
  destruct (rpc_best_spec _ _ _ Hs) as [Hbest Hcount].
  assert (∀ h blk verbose, v_block (db_view d) h = Some blk → answers d (rpc_block (reversed h) verbose)
    (Ok (block_response (db_view d) hs (default false verbose)
      (mkIndexedBlock (mkIndexedBlockHeader h (block_header blk)) (block_proof blk))))) as Hblock.
  { intros h blk verbose Hb. pose proof (rpc_block_spec _ _ _ (reversed h) verbose Hs Hlen) as Hr.
    by rewrite reversed_involutive, (v_full_hash _ _ _ Hb) in Hr. }
  split_and!; [done|done| | | |].
  - intros i E. pose proof (rpc_hash_spec _ _ _ i Hs) as Hr. by rewrite E in Hr.
  - intros i h E. destruct (ci_link _ _ _ Hi _ _ E) as (blk & Hb & Hp). exists blk.
    pose proof (rpc_hash_spec _ _ _ i Hs) as Hr. rewrite E in Hr.
    pose proof (Hblock h blk None Hb) as Hraw. pose proof (Hblock h blk (Some true) Hb) as Hv. eexists. split_and!; [done|done| |exact Hv|..].
    { by destruct blk. }
    all: cbn; unfold ib_hash; cbn [ib_header ih_hash]; try rewrite (position_member _ _ _ _ _ Hi E); try done.
    by rewrite <-Hp.
  - intros h blk Hh Hb. eexists. split; [exact (Hblock h blk (Some true) Hb)|].
    cbn. unfold ib_hash. cbn [ib_header ih_hash]. by rewrite (position_none _ _ Hh).
  - intros h verbose E. pose proof (rpc_block_spec _ _ _ (reversed h) verbose Hs Hlen) as Hr. by rewrite reversed_involutive, E in Hr.
Qed.
End chain_answers.

(** ** Nodes *)

Section node_answers.
Context {P : Profile} {A : AddressText} {OC : HashOrder Z} {OA : HashOrder SocketAddr}.

(** The operations on the node table over RPC: an address is added once and
    removed once, an attempt to connect leaves the table alone; a text that is no
    address is refused. *)
Lemma rpc_add_node_spec now node op c r c' : rpc_add_node now node op c = Some (r, c') →
  match parse_socket_addr node with
  | None => r = Err (invalid_params "node" (fmt_debug_str parse_details)) ∧ c' = c
  | Some addr =>
      cx_connections c' = cx_connections c ∧
      match op with
      | AddNode =>
          if table_exists addr (cx_table c) then r = Err node_already_added ∧ cx_table c' = cx_table c
          else r = Ok tt ∧ is_Some (by_addr (cx_table c') !! addr)
      | RemoveNode =>
          if table_exists addr (cx_table c) then r = Ok tt ∧ by_addr (cx_table c') = delete addr (by_addr (cx_table c))
          else r = Err node_not_added ∧ cx_table c' = cx_table c
      | OneTry => r = Ok tt ∧ cx_table c' = cx_table c
      end
  end.
Proof.
  unfold rpc_add_node. destruct (parse_socket_addr node) as [addr|]; [|by intros [= <- <-]].
  destruct op.
  - unfold add_node, table_add. destruct (table_exists addr (cx_table c)) eqn:E.
    + by intros [= <- <-].
    + unfold table_exists in E. apply bool_decide_eq_false, eq_None_not_Some in E. unfold table_insert. rewrite E.
      cbn. intros [= <- <-]. cbn. split; [done|]. split; [done|]. rewrite lookup_insert_eq. by eexists.
  - unfold remove_node, table_remove, table_exists. destruct (by_addr (cx_table c) !! addr) as [n|] eqn:E; cbn; by intros [= <- <-].
  - by intros [= <- <-].
Qed.

(** Every node of the table is listed with the connections to its address. *)
Lemma rpc_nodes_spec c info : map_ok (by_addr (cx_table c)) → info ∈ core_nodes_info c ↔
  ∃ addr n, by_addr (cx_table c) !! addr = Some n ∧ node_addr n = addr ∧
    info = info_of_node (connections_info (cx_connections c)) n.
Proof.
  intros Hm. unfold core_nodes_info, context_nodes, nodes_of. rewrite list_elem_of_fmap. split.
  - intros (n & -> & ([addr n'] & -> & Hin)%list_elem_of_fmap). apply elem_of_hm_iter in Hin. exists addr, n'.
    split_and!; [done| |done]. by apply Hm in Hin as [? _].
  - intros (addr & n & Hn & _ & ->). exists n. split; [done|]. apply list_elem_of_fmap. exists (addr, n).
    split; [done|]. by apply elem_of_hm_iter.
Qed.

(** A node is connected exactly when a channel has its address. *)
Lemma node_connected c n : ni_connected (info_of_node (connections_info (cx_connections c)) n) = true ↔
  ∃ id p, channels (cx_connections c) !! id = Some p ∧ pi_address p = node_addr n.
Proof.
  unfold info_of_node, connections_info. cbn. rewrite negb_true_iff, bool_decide_eq_false. split.
  - intros Hne. destruct (filter _ _) as [|p l] eqn:E; [done|]. assert (p ∈ p :: l) as Hp by left. rewrite <-E in Hp.
    apply list_elem_of_filter in Hp as [Ha ([id p'] & -> & Hin%elem_of_hm_iter)%list_elem_of_fmap]. by exists id, p'.
  - intros (id & p & Hp & Ha) E. assert (p ∈ filter (λ p, pi_address p = node_addr n) ((hm_iter (channels (cx_connections c))).*2)) as Hin.
    { apply list_elem_of_filter. split; [done|]. apply list_elem_of_fmap. exists (id, p). split; [done|]. by apply elem_of_hm_iter. }
    rewrite E in Hin. by apply not_elem_of_nil in Hin.
Qed.
End node_answers.

(** ** Examples *)

Section rpc_examples.
Import Reference HexReference.
#[local] Instance checked_rpc : Profile := true.
#[local] Instance ex_rug_text : RugText := λ z, pretty z.

(** [ex_h1] is stored beside the chain of [ex_h0]. *)
Lemma rpc_shows_chain_witness : ∃ b b', answers ex_state (rpc_block (reversed ex_h0) (Some true)) (Ok (VerboseResponse b)) ∧
  vb_height b = Some 0 ∧ vb_confirmations b = 1 ∧ vb_nextblockhash b = None ∧
  answers ex_state (rpc_block (reversed ex_h1) (Some true)) (Ok (VerboseResponse b')) ∧
  vb_confirmations b' = -1 ∧ vb_previousblockhash b' = Some (reversed ex_h0).
Proof.
  destruct (rpc_shows_chain (KS:=memory_spec) ex_state [ex_h0] ex_inv eq_refl) as (_ & _ & _ & Hon & Hoff & _).
  destruct (Hon 0%nat ex_h0 eq_refl) as (blk & b & _ & _ & _ & Hb & _ & Hheight & Hconf & _ & Hnext).
  destruct ex_hashes as (_ & _ & _ & H10 & _).
  destruct (Hoff ex_h1 (ex_block ex_h0)) as (b' & Hb' & _ & _ & Hconf' & _ & Hprev).
  - intros E%list_elem_of_singleton. by apply H10.
  - by rewrite ex_stored, decide_True.
  - exists b, b'. split_and!; done.
Defined.

(** The difficulties of the tests of [compact.rs], in hundred-thousandths and
    millionths. *)
Lemma to_f64_examples :
  f64_lt (f64_of_Z 1630742093) (f64_mul (to_f64 (mkCompact 0x1b0404cb)) (f64_of_Z 100000)) = true ∧
  f64_lt (f64_mul (to_f64 (mkCompact 0x1b0404cb)) (f64_of_Z 100000)) (f64_of_Z 1630742095) = true ∧
  to_f64 (mkCompact 0x1d00ffff) = f64_of_Z 1.
Proof. by vm_compute. Qed.
End rpc_examples.
