(* ===== verification/Config.v ===== *)
(** * The configuration of the daemon ([randchaind/config.rs], [rpc.rs], [rpc_apis.rs])

    The command line as clap hands it over becomes a configuration.  A bad value
    is an error with a message ([Err]), or a panic ([None]) where the code
    unwraps.  Files and the database are reached through parameters. *)

From Stdlib Require Import Ascii.
From S2P Require Import Prelude External Primitives Serialization Compact Crypto Chain.
From S2P Require Import Storage Network Work Verification Kv BlockChainDb Message NodeTable.
From S2P Require Import HashQueue HeadersChain SyncChain SpeedMeter Collections OrphanPool Writer.
From S2P Require Import MessageTypes Session P2pContext PeersTasks Peers ClientCore Server Node Hex Rpc.
From stdpp Require Import gmap strings pretty.
#[local] Open Scope Z_scope.

(** ** Text *)

(** [str::split] on one character. *)
Fixpoint split_on (sep : ascii) (s : string) : list string :=
  match s with
  | EmptyString => [EmptyString]
  | String a s =>
      if decide (a = sep) then EmptyString :: split_on sep s
      else match split_on sep s with
           | [] => [String a EmptyString]
           | piece :: pieces => String a piece :: pieces
           end
  end.

Definition decimal_digit (a : ascii) : option Z :=
  let v := Z.of_nat (nat_of_ascii a) in
  if (48 <=? v) && (v <=? 57) then Some (v - 48) else None.

Fixpoint decimal_value (s : string) (acc : Z) : option Z :=
  match s with
  | EmptyString => Some acc
  | String a s => d ← decimal_digit a; decimal_value s (10 * acc + d)
  end.

(** [str::parse] of an unsigned integer of [w] bits: digits after an optional
    sign [+], not too large. *)
Definition parse_uint (w : Z) (s : string) : option Z :=
  let digits := match s with String a rest => if decide (nat_of_ascii a = 43%nat) then rest else s | EmptyString => s end in
  if decide (digits = EmptyString) then None
  else n ← decimal_value digits 0; if n <? 2 ^ w then Some n else None.

(** ** Results that may panic *)

Definition PM (A : Type) : Type := option (result string A).

#[global] Instance PM_ret : MRet PM := λ A a, Some (Ok a).
#[global] Instance PM_bind : MBind PM := λ A B k m,
  match m with Some (Ok a) => k a | Some (Err e) => Some (Err e) | None => None end.

Definition pm_fail {A} (message : string) : PM A := Some (Err message).
Definition pm_panic {A} : PM A := None.

(** [.map_err(|_| message)?] *)
Definition or_fail {A} (o : option A) (message : string) : PM A := Some match o with Some a => Ok a | None => Err message end.
Definition or_panic {A} (o : option A) : PM A := Ok <$> o.

Fixpoint pm_map {A B} (f : A → PM B) (l : list A) : PM (list B) :=
  match l with [] => mret [] | a :: l => b ← f a; bs ← pm_map f l; mret (b :: bs) end.

(** ** The APIs of RPC *)

(** src: randchaind/rpc_apis.rs 6-14 Api *)
Inductive Api := ApiMiner | ApiBlockChain | ApiNetwork.

#[global] Instance Api_eq_dec : EqDecision Api.
Proof. solve_decision. Defined.
#[global] Instance Api_countable : Countable Api.
Proof.
  apply (inj_countable' (λ a, match a with ApiMiner => 0 | ApiBlockChain => 1 | ApiNetwork => 2 end%nat)
    (λ n, match n with 0 => ApiMiner | 1 => ApiBlockChain | _ => ApiNetwork end%nat)).
  by intros [].
Defined.

(** src: randchaind/rpc_apis.rs 21-29 default *)
Definition api_set_default : gset Api := {[ApiMiner; ApiBlockChain; ApiNetwork]}.

(** src: randchaind/rpc_apis.rs 34-41 from_str *)
Definition api_from_str (s : string) : result string Api :=
  if decide (s = "miner"%string) then Ok ApiMiner
  else if decide (s = "blockchain"%string) then Ok ApiBlockChain
  else if decide (s = "network"%string) then Ok ApiNetwork
  else Err ("Unknown api: " +:+ s).

(** src: randchaind/rpc.rs 19-27 HttpConfiguration *)
Record HttpConfiguration := mkHttpConfiguration {
  http_enabled : bool;
  http_interface : string;
  http_port : Z;
  http_apis : gset Api;
  http_cors : option (list string);
  http_hosts : option (list string);
}.

(** src: randchaind/rpc.rs 30-39 with_port *)
Definition http_with_port (port : Z) : HttpConfiguration :=
  mkHttpConfiguration true "127.0.0.1" port api_set_default None (Some []).

(** src: p2p/src/util/internet_protocol.rs 19-25 from_str *)
Definition protocol_from_str (s : string) : result string InternetProtocol :=
  if decide (s = "ipv4"%string) then Ok IpV4
  else if decide (s = "ipv6"%string) then Ok IpV6
  else Err "Invalid internet protocol".

(** ** The configuration *)

(** src: randchaind/main.rs 41-41 USER_AGENT *)
Definition USER_AGENT : string := "randchaind".

(** src: randchaind/main.rs 42-42 REGTEST_USER_AGENT *)
Definition REGTEST_USER_AGENT : string := "randchaind-regtest".

(** src: randchaind/config.rs 41-41 DEFAULT_DB_CACHE *)
Definition DEFAULT_DB_CACHE : Z := 512.

(** src: randchaind/seednodes.rs 1-5 mainnet_seednodes *)
Definition mainnet_seednodes : list string := [].

(** src: randchaind/seednodes.rs 7-11 testnet_seednodes *)
Definition testnet_seednodes : list string := [].

(** What clap found on the command line: the value of an option and whether it
    is there. *)
Record ArgMatches := mkArgMatches { value_of : string → option string; is_present : string → bool }.

(** src: randchaind/config.rs 17-39 Config *)
Record DaemonConfig (D : Type) := mkDaemonConfig {
  dc_network : Network;
  dc_services : Services;
  dc_port : Z;
  dc_peers : list SocketAddr;
  dc_host : IpAddr;
  dc_seednodes : list string;
  dc_quiet : bool;
  dc_inbound_connections : Z;
  dc_outbound_connections : Z;
  dc_p2p_threads : Z;
  dc_db_cache : Z;
  dc_data_dir : option string;
  dc_user_agent : string;
  dc_internet_protocol : InternetProtocol;
  dc_rpc_config : HttpConfiguration;
  dc_block_notify_command : option string;
  dc_verification_params : VerificationParameters;
  dc_db : D;
  dc_num_nodes : Z;
  dc_num_miners : Z;
  dc_blocktime : Z;
}.
Arguments mkDaemonConfig {D}.
Arguments dc_network {D} _.
Arguments dc_db {D} _.
Arguments dc_num_nodes {D} _.
Arguments dc_num_miners {D} _.
Arguments dc_blocktime {D} _.
Arguments dc_verification_params {D} _.
Arguments dc_block_notify_command {D} _.
Arguments dc_seednodes {D} _.
Arguments dc_peers {D} _.
Arguments dc_rpc_config {D} _.
Arguments dc_inbound_connections {D} _.
Arguments dc_outbound_connections {D} _.
Arguments dc_p2p_threads {D} _.
Arguments dc_services {D} _.
Arguments dc_host {D} _.
Arguments dc_port {D} _.
Arguments dc_user_agent {D} _.
Arguments dc_internet_protocol {D} _.

Section parse.
Context {U : U256Ops} {R : RugOps} {H : Sha256Ops} {V : VrfOps} {X : HexOps} {A : AddressText}.
Context {D : Type} (open_db : option string → Z → option D) (read_to_string : string → option string).
Implicit Types (m : ArgMatches).

(** An option with a value that is parsed, or a default. *)
Definition option_or {B} (o : option string) (parse : string → option B) (message : string) (default : B) : PM B :=
  match o with Some s => or_fail (parse s) message | None => mret default end.

(** src: randchaind/config.rs 59-64 network *)
Definition parse_network m : PM Network :=
  match is_present m "testnet", is_present m "regtest" with
  | true, false => mret Testnet
  | false, true => mret Regtest
  | false, false => mret Mainnet
  | true, true => pm_fail "Only one testnet option can be used"
  end.

(** src: randchaind/config.rs 66-69 in_connections *)
Definition connection_limits (n : Network) : Z * Z :=
  match n with Testnet | Mainnet | Other _ => (125, 8) | Regtest | Unitest => (1, 0) end.

(** src: randchaind/config.rs 71-74 p2p_threads *)
Definition p2p_threads (n : Network) : Z := match n with Testnet | Mainnet | Other _ => 4 | Regtest | Unitest => 1 end.

(** src: randchaind/config.rs 76-81 user_agent *)
Definition user_agent_of (n : Network) : string := match n with Regtest => REGTEST_USER_AGENT | _ => USER_AGENT end.

(** An address with a port, or one that gets the port of the network; anything
    else panics. *)
(** src: randchaind/config.rs 95-105 addr_str *)
Definition parse_peer (n : Network) (s : string) : PM SocketAddr :=
  match parse_socket_addr s with
  | Some a => mret a
  | None => or_panic ((λ ip, socket_addr_new ip (port n)) <$> parse_ip_addr s)
  end.

(** src: randchaind/config.rs 91-128 peers *)
Definition parse_peers (n : Network) m : PM (list SocketAddr) :=
  peers ← match value_of m "peers" with
          | Some addrs => pm_map (parse_peer n) (split_on "," addrs)
          | None => mret []
          end;
  match value_of m "peers-file" with
  | Some path => addrs ← or_panic (read_to_string path); pm_map (parse_peer n) (split_on (ascii_of_nat 10) addrs)
  | None => mret peers
  end.

(** src: randchaind/config.rs 130-146 seednodes *)
Definition parse_seednodes (n : Network) m : list string :=
  match value_of m "seednode" with
  | Some addrs =>
      (λ s, match parse_socket_addr s with
            | None => s +:+ ":" +:+ pretty (dns_port n)
            | Some _ => s
            end) <$> split_on "," addrs
  | None =>
      match n with
      | Mainnet => mainnet_seednodes
      | Testnet => testnet_seednodes
      | _ => []
      end
  end.

(** src: randchaind/config.rs 148-151 only_net *)
Definition parse_only_net m : PM InternetProtocol :=
  match value_of m "only-net" with Some s => Some (protocol_from_str s) | None => mret AnyProtocol end.

(** src: randchaind/config.rs 153-161 host *)
Definition parse_host (only_net : InternetProtocol) m : PM IpAddr :=
  match value_of m "host" with
  | Some s => or_fail (parse_ip_addr s) "Invalid host"
  | None => or_panic (match only_net with IpV6 => parse_ip_addr "::" | _ => parse_ip_addr "0.0.0.0" end)
  end.

(** src: randchaind/config.rs 239-273 parse_rpc_config *)
Definition parse_rpc_config (n : Network) m : PM HttpConfiguration :=
  let config := http_with_port (rpc_port n) in
  if is_present m "no-jsonrpc"
  then mret (mkHttpConfiguration false (http_interface config) (http_port config) (http_apis config) (http_cors config) (http_hosts config))
  else
    apis ← match value_of m "jsonrpc-apis" with
           | Some apis => api ← or_fail (match api_from_str apis with Ok api => Some api | Err _ => None end) "Invalid APIs"; mret {[api]}
           | None => mret (http_apis config)
           end : PM (gset Api);
    port ← option_or (value_of m "jsonrpc-port") (parse_uint 16) "Invalid JSON RPC port" (http_port config);
    mret (mkHttpConfiguration true (default (http_interface config) (value_of m "jsonrpc-interface")) port apis
      (match value_of m "jsonrpc-cors" with Some cors => Some [cors] | None => http_cors config end)
      (match value_of m "jsonrpc-hosts" with Some hosts => Some [hosts] | None => http_hosts config end)).

(** src: randchaind/config.rs 175-181 verification_level *)
Definition parse_verification_level m : PM VerificationLevel :=
  match value_of m "verification-level" with
  | None => mret Full
  | Some s =>
      if decide (s = "full"%string) then mret Full
      else if decide (s = "header"%string) then mret Header
      else if decide (s = "none"%string) then mret NoVerification
      else pm_fail ("Invalid verification level: " +:+ s)
  end.

(** An edge is looked at only for a level other than full. *)
(** src: randchaind/config.rs 184-192 verification_edge *)
Definition parse_verification_edge (n : Network) (level : VerificationLevel) m : PM H256 :=
  match value_of m "verification-edge" with
  | Some s =>
      if decide (level = Full) then or_panic (default_verification_edge n)
      else edge ← or_fail (match hash_from_str s with Ok h => Some h | Err _ => None end) "Invalid verification edge";
           mret (reversed edge)
  | None => or_panic (default_verification_edge n)
  end.

(** src: randchaind/config.rs 43-237 parse *)
Definition parse_config m : PM (DaemonConfig D) :=
  db_cache ← option_or (value_of m "db-cache") (parse_uint 64) "Invalid cache size - should be number in MB" DEFAULT_DB_CACHE;
  let data_dir := value_of m "data-dir" in
  db ← or_panic (open_db data_dir db_cache);
  let quiet := is_present m "quiet" in
  network ← parse_network m;
  let '(in_connections, out_connections) := connection_limits network in
  port ← option_or (value_of m "port") (parse_uint 16) "Invalid port" (port network);
  peers ← parse_peers network m;
  let seednodes := parse_seednodes network m in
  only_net ← parse_only_net m;
  host ← parse_host only_net m;
  rpc_config ← parse_rpc_config network m;
  let services := with_network 0 true in
  verification_level ← parse_verification_level m;
  verification_edge ← parse_verification_edge network verification_level m;
  num_nodes ← option_or (value_of m "num-nodes") (parse_uint 16) "Invalid num_nodes" 4;
  num_miners ← option_or (value_of m "num-miners") (parse_uint 16) "Invalid num_miners" 1;
  blocktime ← option_or (value_of m "blocktime") (parse_uint 16) "Invalid blocktime" 10;
  mret (mkDaemonConfig network services port peers host seednodes quiet in_connections out_connections
    (p2p_threads network) db_cache data_dir (user_agent_of network) only_net rpc_config (value_of m "blocknotify")
    (mkVerificationParameters verification_level verification_edge) db num_nodes num_miners blocktime).

(** ** The command line *)

(** src: randchaind/cli.yml 5-120 args *)
Definition cli_options : list string :=
  ["testnet"; "regtest"; "peers"; "peers-file"; "host"; "seednodes"; "port"; "quiet"; "data-dir"; "db-cache"; "only-net";
   "no-jsonrpc"; "jsonrpc-port"; "jsonrpc-interface"; "jsonrpc-cors"; "jsonrpc-apis"; "jsonrpc-hosts"; "blocknotify";
   "verification-level"; "verification-edge"; "num-nodes"; "num-miners"; "blocktime"]%string.

(** Clap knows no value of an option that is not declared. *)
Definition declared m : Prop := ∀ name, name ∉ cli_options → value_of m name = None ∧ is_present m name = false.
End parse.

(** ** Splitting *)

Fixpoint join_with (sep : ascii) (pieces : list string) : string :=
  match pieces with
  | [] => EmptyString
  | [piece] => piece
  | piece :: pieces => piece +:+ String sep (join_with sep pieces)
  end.

Lemma split_on_cons sep s : ∃ piece pieces, split_on sep s = piece :: pieces.
Proof. destruct s as [|a s]; simpl; [eauto|]. case_decide; [eauto|]. destruct (split_on sep s); eauto. Qed.

Lemma join_split sep s : join_with sep (split_on sep s) = s.
Proof.
  induction s as [|a s IH]; [done|]. simpl. destruct (split_on_cons sep s) as (piece & pieces & E). rewrite E in *.
  case_decide as Ha; [subst a; simpl in *; by rewrite IH|].
  destruct pieces as [|piece' pieces]; simpl in *; by rewrite <- IH.
Qed.

(** The last piece of a text that ends in the separator is empty. *)
Lemma split_ends sep s : ∃ pieces, split_on sep (s +:+ String sep EmptyString) = pieces ++ [EmptyString].
Proof.
  induction s as [|a s (pieces & E)]; simpl; [rewrite decide_True by done; by exists [EmptyString]|].
  rewrite E. case_decide; [by exists (EmptyString :: pieces)|].
  destruct pieces as [|piece pieces]; [|by exists (String a piece :: pieces)].
  exfalso. simpl in E. destruct s as [|c s]; simpl in E; [by rewrite decide_True in E|].
  case_decide; [destruct (split_on_cons sep (s +:+ String sep EmptyString)) as (p & ps & E'); by rewrite E' in E|].
  destruct (split_on sep (s +:+ _)); done.
Qed.

Lemma split_twice sep s t : (2 ≤ length (split_on sep (s +:+ String sep t)))%nat.
Proof.
  induction s as [|a s IH].
  - change (EmptyString +:+ String sep t) with (String sep t). simpl. rewrite decide_True by done.
    destruct (split_on_cons sep t) as (p & ps & ->). simpl. lia.
  - change (String a s +:+ String sep t) with (String a (s +:+ String sep t)). simpl.
    case_decide; simpl; [lia|]. destruct (split_on sep (s +:+ String sep t)); simpl in *; lia.
Qed.

(** ** What a configuration is *)

Lemma parse_uint_fits w s n : 0 ≤ w → parse_uint w s = Some n → fits w n.
Proof.
  intros Hw. unfold parse_uint.
  set (digits := match s with String _ _ => _ | EmptyString => _ end). case_decide; [done|].
  destruct (decimal_value digits 0) as [k|] eqn:E; [|done]. simpl. destruct (Z.ltb_spec k (2 ^ w)) as [Hk|]; [|done].
  intros [= ->]. split; [|done]. assert (∀ s acc k, 0 ≤ acc → decimal_value s acc = Some k → 0 ≤ k) as Hpos.
  { clear. induction s as [|a s IH]; simpl; intros acc k Hacc; [congruence|]. unfold decimal_digit.
    destruct (_ && _) eqn:Ed; [|done]. simpl. apply IH. lia. }
  by apply (Hpos digits 0).
Qed.

Lemma pm_bind_ok {A B} (m : PM A) (k : A → PM B) b : m ≫= k = Some (Ok b) → ∃ a, m = Some (Ok a) ∧ k a = Some (Ok b).
Proof. destruct m as [[a|]|]; simpl; try done. intros E. by exists a. Qed.

Lemma option_or_ok {B} o (parse : string → option B) message default (Q : B → Prop) b : Q default → (∀ s b, parse s = Some b → Q b) →
  option_or o parse message default = Some (Ok b) → Q b.
Proof.
  intros Hd Hp. destruct o as [s|]; simpl; [|intros [= <-]; done]. unfold or_fail.
  destruct (parse s) as [b'|] eqn:E; [|done]. intros [= <-]. eauto.
Qed.

Section facts.
Context {U : U256Ops} {R : RugOps} {H : Sha256Ops} {V : VrfOps} {X : HexOps} {A : AddressText}.
Context {D : Type} (open_db : option string → Z → option D) (read_to_string : string → option string).
Implicit Types (m : ArgMatches) (c : DaemonConfig D).

(** What a peer of the list or of the file is. *)
Definition peer_address (n : Network) (s : string) : option SocketAddr :=
  match parse_socket_addr s with Some a => Some a | None => (λ ip, socket_addr_new ip (port n)) <$> parse_ip_addr s end.

Lemma peers_mapped n l : pm_map (parse_peer n) l = Ok <$> mapM (peer_address n) l.
Proof.
  induction l as [|s l IH]; [done|]. simpl. rewrite IH. unfold parse_peer, peer_address, or_panic.
  destruct (parse_socket_addr s) as [a|]; simpl; [by destruct (mapM _ l)|].
  destruct (parse_ip_addr s); simpl; [by destruct (mapM _ l)|done].
Qed.

(** One malformed address is enough for a panic. *)
Lemma peers_panic n l s : s ∈ l → peer_address n s = None → pm_map (parse_peer n) l = None.
Proof.
  intros Hin Hs. rewrite peers_mapped. destruct (mapM _ l) as [as_|] eqn:E; [|done].
  apply mapM_Some in E. apply list_elem_of_lookup in Hin as [i Hi].
  destruct (Forall2_lookup_l _ _ _ _ _ E Hi) as (a & _ & Ha). congruence.
Qed.

(** The fields of a configuration are in range and follow the flags; without a
    choice of the user the verification is full. *)
Record config_ok m c : Prop := {
  cfg_network : dc_network c = if is_present m "testnet" then Testnet else if is_present m "regtest" then Regtest else Mainnet;
  cfg_port : fits 16 (dc_port c);
  cfg_rpc_port : fits 16 (http_port (dc_rpc_config c));
  cfg_counts : fits 16 (dc_num_nodes c) ∧ fits 16 (dc_num_miners c) ∧ fits 16 (dc_blocktime c);
  cfg_level : value_of m "verification-level" = None → verification_level (dc_verification_params c) = Full;
  cfg_edge : verification_level (dc_verification_params c) = Full ∨ value_of m "verification-edge" = None →
    default_verification_edge (dc_network c) = Some (verification_edge (dc_verification_params c));
  cfg_db : ∃ cache, open_db (value_of m "data-dir") cache = Some (dc_db c);
}.

Lemma parse_network_ok m n : parse_network m = Some (Ok n) →
  n = if is_present m "testnet" then Testnet else if is_present m "regtest" then Regtest else Mainnet.
Proof. unfold parse_network. destruct (is_present m "testnet"), (is_present m "regtest"); try done; by intros [= <-]. Qed.

Lemma parse_rpc_config_ok n m r : parse_rpc_config n m = Some (Ok r) → fits 16 (http_port r) ∧ http_enabled r = negb (is_present m "no-jsonrpc").
Proof.
  assert (fits 16 (rpc_port n)) as Hp by (destruct n; split; vm_compute; congruence). unfold parse_rpc_config.
  destruct (is_present m "no-jsonrpc"); [by intros [= <-]|]. intros (apis & _ & (p & Ep & [= <-])%pm_bind_ok)%pm_bind_ok.
  split; [|done]. revert Ep. apply option_or_ok; [done|]. intros s b. by apply parse_uint_fits.
Qed.

Lemma parse_edge_ok n level m edge : parse_verification_edge n level m = Some (Ok edge) → level = Full ∨ value_of m "verification-edge" = None →
  default_verification_edge n = Some edge.
Proof.
  unfold parse_verification_edge, or_panic. intros E Hor. destruct (value_of m "verification-edge") as [s|].
  - destruct Hor as [->|]; [|done]. rewrite decide_True in E by done. destruct (default_verification_edge n); [|done]. by injection E as ->.
  - destruct (default_verification_edge n); [|done]. by injection E as ->.
Qed.

Ltac next_field := match goal with
  | E : _ ≫= _ = Some (Ok _) |- _ => let a := fresh "v" in let F := fresh "F" in apply pm_bind_ok in E as (a & F & E); cbv zeta beta in E
  end.

Lemma parse_config_ok m c : parse_config open_db read_to_string m = Some (Ok c) → config_ok m c.
Proof.
  assert (∀ n : Network, fits 16 (port n)) as Hport by (intros []; split; vm_compute; congruence).
  assert (∀ o message d v, fits 16 d → option_or o (parse_uint 16) message d = Some (Ok v) → fits 16 v) as Hfit.
  { intros o message d v Hd. apply option_or_ok; [done|]. intros s b. by apply parse_uint_fits. }
  assert (fits 16 4 ∧ fits 16 1 ∧ fits 16 10) as (? & ? & ?) by (split_and!; split; vm_compute; congruence).
  intros E. unfold parse_config in E. do 3 next_field. destruct (connection_limits v1) as [ins outs]. repeat next_field.
  injection E as <-. constructor; simpl.
  - by apply parse_network_ok.
  - by eapply Hfit; [|eassumption].
  - by apply parse_rpc_config_ok in F6 as [].
  - split_and!; by eapply Hfit; [|eassumption].
  - unfold parse_verification_level in F7. intros Hv. rewrite Hv in F7. by injection F7 as <-.
  - by eapply parse_edge_ok.
  - exists v. unfold or_panic in F0. by destruct (open_db _ _); [injection F0 as <-|].
Qed.

(** ** What the code makes of its options *)

(** The option [seednodes] of the command line is not the [seednode] the code
    asks for: it has no effect, and there are no other seeds. *)
Lemma seednodes_ignored n m : declared m → parse_seednodes n m = [].
Proof.
  intros Hm. unfold parse_seednodes. 
  assert (value_of m "seednode" = None) as -> by (apply Hm, (bool_decide_unpack _); vm_compute; done). by destruct n.
Qed.

(** A file of peers that ends in a newline, as a text file does, is a panic. *)
Lemma peers_file_newline n m path text : parse_socket_addr EmptyString = None → parse_ip_addr EmptyString = None →
  value_of m "peers-file" = Some path → read_to_string path = Some (text +:+ String (ascii_of_nat 10) EmptyString) →
  value_of m "peers" = None → parse_peers read_to_string n m = None.
Proof.
  intros H1 H2 Hp Hr Hn. unfold parse_peers. rewrite Hn, Hp. simpl. rewrite Hr. simpl.
  destruct (split_ends (ascii_of_nat 10) text) as (pieces & ->). apply (peers_panic n _ EmptyString); [set_solver|].
  unfold peer_address. by rewrite H1, H2.
Qed.

(** Only one interface can be chosen: a list of names is refused. *)
Lemma apis_list_refused n m s t : is_present m "no-jsonrpc" = false → value_of m "jsonrpc-apis" = Some (s +:+ "," +:+ t) →
  parse_rpc_config n m = pm_fail "Invalid APIs".
Proof.
  intros Hno Hv. unfold parse_rpc_config. rewrite Hno, Hv. unfold api_from_str.
  assert (∀ name : string, length (split_on "," name) = 1%nat → s +:+ "," +:+ t ≠ name) as Hne.
  { intros name Hone <-. pose proof (split_twice "," s t) as Htwo. change ("," +:+ t) with (String "," t) in Hone. lia. }
  rewrite !decide_False by (by apply Hne). done.
Qed.
End facts.
