(* ===== verification/Daemon.v ===== *)
(** * The daemon ([randchaind/util.rs], [randchaind/commands/start.rs], [randchaind/rpc.rs])

    The database is given its genesis block, the node is made on it and listened
    to, the network and the server of RPC are started, and the threads of the
    mocking miner feed blocks to the node beside its peers. *)

From Stdlib Require Import Ascii SpecFloat.
From S2P Require Import Prelude External Primitives Serialization Compact Crypto Chain.
From S2P Require Import Vdf Storage Network Work Verification Miner Kv KvRefine BlockChainDb ChainInv ChainOps.
From S2P Require Import HashQueue HeadersChain SyncChain SyncOps.
From S2P Require Import Message MessageTypes MessageIo Handshake NodeTable Session P2pContext SpeedMeter Collections PeersTasks OrphanPool Peers.
From S2P Require Import ClientCore ClientChain ClientInv ClientRun ClientSafe Server ServerSafe Writer Tree Judge WriterSafe Node NodeFrame NodeSafe.
From S2P Require Import Hex Rpc P2pRun Config.
From stdpp Require Import gmap strings pretty.
#[local] Open Scope Z_scope.

(** ** Block notifications *)

(** src: randchaind/commands/start.rs 18-21 BlockNotifierTask *)
Inductive BlockNotifierTask := NewBlock (hash : H256) | StopNotifier.

(** The channel is the list of what was sent and not yet received. *)
(** src: randchaind/commands/start.rs 23-27 BlockNotifier *)
Record BlockNotifier := mkBlockNotifier {
  bn_channel : list BlockNotifierTask;
  bn_is_synchronizing : bool;
  bn_command : string;
}.

(** src: randchaind/commands/start.rs 30-43 new *)
Definition notifier_new (command : string) : BlockNotifier := mkBlockNotifier [] false command.

(** src: randchaind/commands/start.rs 69-72 synchronization_state_switched *)
Definition notifier_switched (is_synchronizing : bool) (b : BlockNotifier) : BlockNotifier :=
  mkBlockNotifier (bn_channel b) is_synchronizing (bn_command b).

(** src: randchaind/commands/start.rs 74-80 best_storage_block_inserted *)
Definition notifier_inserted (hash : H256) (b : BlockNotifier) : BlockNotifier :=
  if bn_is_synchronizing b then b
  else mkBlockNotifier (bn_channel b ++ [NewBlock hash]) (bn_is_synchronizing b) (bn_command b).

(** src: randchaind/commands/start.rs 84-89 drop *)
Definition notifier_drop (b : BlockNotifier) : BlockNotifier :=
  mkBlockNotifier (bn_channel b ++ [StopNotifier]) (bn_is_synchronizing b) (bn_command b).

(** The listener hears what the core tells it. *)
Definition notifier_hears {C F : Type} {V : VrfOps} (b : BlockNotifier) (e : ClientEffect (C:=C) (F:=F)) : BlockNotifier :=
  match e with
  | StateSwitched synchronizing => notifier_switched synchronizing b
  | BestBlockInserted hash => notifier_inserted hash b
  | _ => b
  end.

(** [str::replace] of the pattern [%s]. *)
Fixpoint replace_hash (by_text : string) (s : string) : string :=
  match s with
  | String a ((String c s'') as s') =>
      if decide (a = "%"%char ∧ c = "s"%char) then by_text +:+ replace_hash by_text s''
      else String a (replace_hash by_text s')
  | _ => s
  end.

(** The commands the thread hands to the system, and whether it came to its
    stop; a command with a zero byte is a panic. *)
(** src: randchaind/commands/start.rs 45-65 worker *)
Fixpoint notifier_worker {X : HexOps} (command : string) (tasks : list BlockNotifierTask) : list string * bool :=
  match tasks with
  | [] => ([], false)
  | StopNotifier :: _ => ([], true)
  | NewBlock hash :: tasks =>
      let text := replace_hash (to_reversed_str hash) command in
      if existsb (Ascii.eqb (ascii_of_nat 0)) (String.list_ascii_of_string text) then ([], false)
      else let '(commands, stopped) := notifier_worker command tasks in (text :: commands, stopped)
  end.

(** ** The server of RPC *)

(** The interfaces of the server that was started, and its address. *)
Definition RpcServer : Type := SocketAddr * gset Api.

(** [start_http] answers with the kind of error. *)
Inductive HttpStart := HttpStarted | HttpAddrInUse | HttpFailed (text : string).

(** src: randchaind/rpc.rs 56-72 setup_http_rpc_server *)
Definition setup_http_rpc_server (start_http : SocketAddr → HttpStart) (shown : string) (url : SocketAddr) (apis : gset Api) : result string RpcServer :=
  match start_http url with
  | HttpAddrInUse => Err ("RPC address " +:+ shown +:+ " is already in use, make sure that another instance of a RandChain node is not running or change the address using the --jsonrpc-port and --jsonrpc-interface options.")
  | HttpFailed text => Err ("RPC error: " +:+ text)
  | HttpStarted => Ok (url, apis)
  end.

(** src: randchaind/rpc.rs 42-54 new_http *)
Definition new_http {A : AddressText} (start_http : SocketAddr → HttpStart) (conf : HttpConfiguration) : result string (option RpcServer) :=
  if negb (http_enabled conf) then Ok None
  else
    let url := http_interface conf +:+ ":" +:+ pretty (http_port conf) in
    match parse_socket_addr url with
    | None => Err ("Invalid JSONRPC listen host/port given: " +:+ url)
    | Some addr =>
        match setup_http_rpc_server start_http (fmt_socket_addr addr) addr (http_apis conf) with
        | Ok server => Ok (Some server)
        | Err e => Err e
        end
    end.

(** ** The daemon *)

(** src: randchaind/main.rs 39-39 PROTOCOL_VERSION *)
Definition PROTOCOL_VERSION : Z := 70014.

(** src: randchaind/main.rs 40-40 PROTOCOL_MINIMUM *)
Definition PROTOCOL_MINIMUM : Z := 70001.

Section daemon.
Context {U : U256Ops} {R : RugOps} {H : Sha256Ops} {V : VrfOps} {P : Profile} {X : HexOps} {AT : AddressText} {CS : Csv}.
Context {T : Type} {K : KeyValueDatabase T}.
Context {MP : Type → Type} {LP : LinkedHashMap PeerIndex MP}.
Context {MH : Type → Type} {LH : LinkedHashMap H256 MH}.
Context {OP : HashOrder PeerIndex} {OH : HashOrder H256}.
Context {C : Type} (precise_time_s : nat → f64) (get_time : nat → Z).

Abbreviation Node := (LocalNode (T:=T) (MP:=MP) (MH:=MH) (C:=C)).
Abbreviation NM := (NM (T:=T) (MP:=MP) (MH:=MH) (C:=C)).
Abbreviation DaemonConfig := (DaemonConfig (BlockChainDatabase T)).

(** src: randchaind/util.rs 28-47 init_db *)
Definition init_db (n : Network) : DM T (result string unit) :=
  genesis_block ← lift (genesis_block n);
  db_genesis ← block_hash 0;
  match db_genesis with
  | Some db_genesis_block_hash =>
      mret (if decide (db_genesis_block_hash = ib_hash genesis_block) then Ok tt
            else Err "Trying to open database with incompatible genesis block"%string)
  | None =>
      inserted ← db_insert genesis_block;
      match inserted with
      | Err _ => panic
      | Ok _ =>
          canonized ← canonize (ib_hash genesis_block);
          match canonized with Err _ => panic | Ok _ => mret (Ok tt) end
      end
  end.

(** [u16] multiplication. *)
Definition u16_mul (a b : Z) : option Z :=
  if (2 ^ 16 <=? a * b) && overflow_checks then None else Some (wrap 16 (a * b)).

(** src: randchaind/commands/start.rs 151-151 network_target *)
Definition network_target (cfg : DaemonConfig) : option Z :=
  miners ← u16_mul (dc_num_miners cfg) (dc_num_nodes cfg); u16_mul miners (dc_blocktime cfg).

(** src: randchaind/commands/start.rs 99-121 p2p_cfg *)
Definition p2p_config (cfg : DaemonConfig) : P2pConfig :=
  mkP2pConfig (dc_p2p_threads cfg) (dc_inbound_connections cfg) (dc_outbound_connections cfg)
    (mkNetConfig PROTOCOL_VERSION PROTOCOL_MINIMUM (magic (dc_network cfg)) (socket_addr_new (dc_host cfg) (dc_port cfg))
      (dc_services cfg) (name (dc_user_agent cfg)) 0 true (dc_network cfg))
    (dc_peers cfg) (name <$> dc_seednodes cfg) (dc_services cfg) (dc_internet_protocol cfg).

(** What the daemon finds around it: the file of the node table, the peers the
    random generator chose, whether the resolver is configured and the port can
    be listened on, the start of the HTTP server. *)
Record Surroundings := mkSurroundings {
  sr_nodes : result string (list byte);
  sr_sampled : list SocketAddr;
  sr_resolver : bool;
  sr_bound : bool;
  sr_http : SocketAddr → HttpStart;
}.

Record Daemon := mkDaemon {
  dm_node : Node;
  dm_context : Context;
  dm_notifier : option BlockNotifier;
  dm_rpc : option RpcServer;
  dm_target : Z;
}.

Definition result_file (r : result string (list byte)) : option (list byte) := match r with Ok f => Some f | Err _ => None end.

Definition pm_result {A} (r : result string A) : PM A := Some r.

(** src: randchaind/commands/start.rs 92-151 start *)
Definition start (sr : Surroundings) (cfg : DaemonConfig) : PM Daemon :=
  '(initialized, db) ← (Ok <$> init_db (dc_network cfg) (dc_db cfg) : PM (result string unit * BlockChainDatabase T));
  _ ← pm_result initialized;
  local_sync_node ← or_panic (create_local_sync_node db ∅ (dc_verification_params cfg));
  local_sync_node ← match dc_block_notify_command cfg with
    | Some _ => or_panic (snd <$> on_core install_sync_listener local_sync_node)
    | None => mret local_sync_node
    end : PM Node;
  context ← pm_result (match sr_nodes sr with
    | Err text => Err text
    | Ok file => match p2p_new (Some file) (p2p_config cfg) with Some c => Ok c | None => Err "csv"%string end
    end);
  let '(ran, context) := p2p_start (sr_sampled sr) (sr_resolver sr) (sr_bound sr) (p2p_config cfg) context in
  _ ← pm_result (match ran with Ok _ => Ok tt | Err _ => Err "Failed to start p2p module"%string end);
  rpc_server ← pm_result (new_http (sr_http sr) (dc_rpc_config cfg));
  target ← or_panic (network_target cfg);
  mret (mkDaemon local_sync_node context (notifier_new <$> dc_block_notify_command cfg) rpc_server target).

(** ** The threads of the miner *)

(** One turn of the loop: [lucky] and [r_bytes] are what the mocking miner
    draws.  The node itself is peer 0. *)
(** src: randchaind/commands/start.rs 157-183 loop *)
Definition mining_round (network : Network) (lucky : bool) (r_bytes : list byte) (pk : VrfPk) : NM unit := λ n,
  blktpl ← node_block_template network (get_time (co_readings (nd_core n))) n;
  solution ← try_solve_one_shot lucky r_bytes blktpl pk 0;
  let n := mkLocalNode (add_reading (nd_core n)) (nd_server n) (nd_work n) (nd_verifier n) (nd_counter n) in
  match solution with
  | Some solution => node_on_block precise_time_s 0 (solved_block blktpl pk solution) n
  | None => Some (tt, n)
  end.

Inductive DaemonEvent :=
| DNode (e : NodeEvent (C:=C))
| DMine (lucky : bool) (r_bytes : list byte) (pk : VrfPk).

Definition daemon_step (network : Network) (fuel : nat) (e : DaemonEvent) : NM unit :=
  match e with
  | DNode e => node_step network precise_time_s get_time fuel e
  | DMine lucky r_bytes pk => mining_round network lucky r_bytes pk
  end.

Fixpoint daemon_run (network : Network) (fuel : nat) (es : list DaemonEvent) : NM unit :=
  match es with [] => mret tt | e :: es => _ ← daemon_step network fuel e; daemon_run network fuel es end.
End daemon.

(** ** The database *)

Section database.
Context {R : RugOps} {H : Sha256Ops} {V : VrfOps} {P : Profile}.
Context {T : Type} {K : KeyValueDatabase T} {KS : KvSpec T}.
Implicit Types (s : BlockChainDatabase T) (n : Network).

Lemma genesis_has_no_parent n g : genesis_block n = Some g → parent_of (block_of g) = hash_default.
Proof.
  rewrite (genesis_block_same n Mainnet). simpl. destruct (vrf_from_bytes _); [|done]. intros [= <-].
  apply (inj hash_bytes). vm_compute. reflexivity.
Qed.

(** An empty database, or one whose genesis block was stored and not made the
    best block before the daemon ended. *)
Definition fresh (g : IndexedBlock) s : Prop :=
  state_inv s [] ∧ ∀ h b, v_block (db_view s) h = Some b → h = ib_hash g ∧ b = block_of g.

Lemma init_db_fresh n g s : genesis_block n = Some g → ib_hash g ≠ hash_default → fresh g s →
  ∃ s', init_db n s = Some (Ok tt, s') ∧ tree_ok s' (ib_hash g) [ib_hash g].
Proof.
  intros Hg Hne [Hs Honly]. unfold init_db. rewrite Hg. unfold mbind at 1, DM_bind at 1. cbn [lift mbind option_bind].
  run_read (reads_block_hash 0) (proj1 Hs) s1 Hs1.
  assert (v_hash (db_view s) 0 = None) as -> by (by rewrite (ci_hash _ _ _ (proj2 Hs))). cbv iota. pose proof (unchanged_inv _ _ _ Hs Hs1) as Hi1.
  pose proof (genesis_has_no_parent n g Hg) as Hpar.
  assert (∃ s2, db_insert g s1 = Some (Ok tt, s2) ∧ state_inv s2 [] ∧ v_block (db_view s2) (ib_hash g) = Some (block_of g) ∧
    ∀ h b, v_block (db_view s2) h = Some b → h = ib_hash g ∧ b = block_of g) as (s2 & E2 & Hi2 & Hg2 & Ho2).
  { destruct Hs1 as (_ & _ & Ev1). pose proof (insert_spec s1 [] g Hi1 Hne) as (s2 & Hins). cbv zeta in Hins.
    rewrite Hpar in Hins. destruct (v_contains (db_view s1) (ib_hash g)) eqn:Ec.
    - destruct Hins as [E Hu]. pose proof (unchanged_inv _ _ _ Hi1 Hu) as Hi2. destruct Hu as (_ & _ & Ev2). exists s2. rewrite Ev2, Ev1.
      split_and!; [done|done| |exact Honly]. apply (v_contains_block _ _ _ Hi1) in Ec as [b Hb]. rewrite Ev1 in Hb.
      destruct (Honly _ _ Hb) as [_ ->]. done.
    - rewrite (proj2 (is_zero_default hash_default)), andb_false_r in Hins by done. destruct Hins as (E & Hi2 & Ev2). exists s2.
      assert (∀ h, v_block (db_view s2) h = if decide (h = ib_hash g) then Some (block_of g) else v_block (db_view s) h) as Evb.
      { intros h. unfold v_block. rewrite Ev2, Ev1. by repeat case_decide; simplify_eq. }
      split_and!; [done|done|by rewrite Evb, decide_True|]. intros h b. rewrite Evb. case_decide; [by intros [= <-]|apply Honly]. }
  unfold mbind at 1, DM_bind at 1. rewrite E2. destruct (canonize_ok s2 [] (ib_hash g) (block_of g) Hi2 Hg2) as (s3 & E3 & Hi3 & Hb3).
  { rewrite (ci_best _ _ _ (proj2 Hi2)), best_of_nil. exact Hpar. }
  { done. }
  unfold mbind at 1, DM_bind at 1. rewrite E3. exists s3. split; [done|]. apply genesis_tree; [done|].
  intros h b. unfold v_block. rewrite Hb3. apply Ho2.
Qed.

Lemma init_db_known n g s root hs : genesis_block n = Some g → tree_ok s root hs →
  ∃ s', init_db n s = Some (if decide (root = ib_hash g) then Ok tt
      else Err "Trying to open database with incompatible genesis block"%string, s') ∧ unchanged s s'.
Proof.
  intros Hg Ht. unfold init_db. rewrite Hg. unfold mbind at 1, DM_bind at 1. cbn [lift mbind option_bind].
  destruct (tk_inv _ _ _ Ht) as [Hv Hi]. run_read (reads_block_hash 0) Hv s1 Hs1.
  assert (v_hash (db_view s) 0 = Some root) as -> by (rewrite (ci_hash _ _ _ Hi); exact (tk_genesis _ _ _ Ht)). by exists s1.
Qed.
End database.

(** ** A daemon that has started *)

Section started.
Context {U : U256Ops} {UL : U256Laws U} {R : RugOps} {RL : RugLaws R} {H : Sha256Ops} {V : VrfOps} {P : Profile} {AT : AddressText} {CS : Csv}.
Context {T : Type} {K : KeyValueDatabase T} {KS : KvSpec T}.
Context {MP : Type → Type} {LP : LinkedHashMap PeerIndex MP} {LPL : LinkedHashMapLaws PeerIndex MP}.
Context {MH : Type → Type} {LH : LinkedHashMap H256 MH} {LHL : LinkedHashMapLaws H256 MH}.
Context {OP : HashOrder PeerIndex} {OH : HashOrder H256}.
Context {C : Type} (precise_time_s : nat → f64) (get_time : nat → Z) (W : Universe).

Abbreviation Node := (LocalNode (T:=T) (MP:=MP) (MH:=MH) (C:=C)).
Abbreviation DaemonConfig := (DaemonConfig (BlockChainDatabase T)).
Abbreviation Daemon := (Daemon (T:=T) (MP:=MP) (MH:=MH) (C:=C)).
Implicit Types (cfg : DaemonConfig) (sr : Surroundings) (d : Daemon) (n : Node).

(** A database the daemon can work on: fresh, or with a chain on the genesis
    block of the network. *)
Definition usable_db (g : IndexedBlock) (s : BlockChainDatabase T) : Prop := fresh g s ∨ ∃ hs, tree_ok s (ib_hash g) hs.

(** The blocks of the database and the genesis block. *)
Definition first_blocks (g : IndexedBlock) (s : BlockChainDatabase T) (h : H256) : Prop := has s h ∨ h = ib_hash g.

Lemma init_db_usable nw g s : genesis_block nw = Some g → ib_hash g ≠ hash_default → usable_db g s →
  ∃ s' hs, init_db nw s = Some (Ok tt, s') ∧ tree_ok s' (ib_hash g) hs ∧ ∀ h, has s' h ↔ first_blocks g s h.
Proof.
  intros Hg Hne [Hf|[hs Ht]].
  - destruct (init_db_fresh nw g s Hg Hne Hf) as (s' & E & Ht). exists s', [ib_hash g]. split_and!; [done|done|].
    destruct Hf as [Hs Honly]. intros h. unfold first_blocks, has. split.
    + intros Hh. right. apply (v_contains_block _ _ _ (tk_inv _ _ _ Ht)) in Hh. destruct (tk_rooted _ _ _ Ht h Hh) as [k Hk].
      pose proof (tk_longest _ _ _ Ht _ _ Hk) as Hlt. cbn in Hlt. apply at_height_inv in Hk as [[? _]|(b & m & -> & _)]; [done|lia].
    + assert (v_contains (db_view s') (ib_hash g) = true) as Hhas.
      { apply (v_contains_block _ _ _ (tk_inv _ _ _ Ht)). eapply genesis_stored; [apply (tk_inv _ _ _ Ht)|done]. }
      intros [Hh| ->]; [|done]. apply (v_contains_block _ _ _ Hs) in Hh as [b Hb]. by destruct (Honly _ _ Hb) as [-> _].
  - destruct (init_db_known nw g s _ hs Hg Ht) as (s' & E & Hu). rewrite decide_True in E by done. exists s', hs.
    split_and!; [done|by eapply tree_unchanged|]. intros h. rewrite (has_unchanged _ _ h Hu). unfold first_blocks. split; [by left|].
    intros [?| ->]; [done|]. apply (v_contains_block _ _ _ (tk_inv _ _ _ Ht)). eapply genesis_stored; [apply (tk_inv _ _ _ Ht)|apply Ht].
Qed.

(** Hearing the core changes nothing else. *)
Lemma listener_installed root params first accepted n : node_ok W root params first accepted n → co_listener (nd_core n) = false →
  ∃ n', on_core install_sync_listener n = Some (tt, n') ∧ node_ok W root params first accepted n' ∧ nd_verifier n' = nd_verifier n ∧
    co_listener (nd_core n') = true ∧ node_store n' = node_store n.
Proof.
  intros Hn Hl. unfold on_core, install_sync_listener. rewrite Hl. cbn. eexists. split; [done|]. split; [|done].
  destruct Hn as [[g Hi] Ht Hv Hf Hw Htasks Hp Hc Hs Hpar Hcfg Hstop]. split; cbn; try done; [by exists g|by apply requests_ok].
Qed.

(** What else is known of a node that was made. *)
Lemma created s root hs params n : tree_ok s root hs → create_local_sync_node s ∅ params = Some n →
  co_listener (nd_core n) = false ∧ (enforce_full_verification (nd_verifier n) = true ↔ has s (verification_edge params)) ∧
  unchanged s (node_store n).
Proof.
  intros Ht E. assert (hs ≠ []) as Hne by (intros ->; by pose proof (tk_genesis _ _ _ Ht)).
  destruct (chain_new_inv s hs (tk_inv _ _ _ Ht) Hne) as (chain & Ec & _ & Hu). unfold create_local_sync_node in E. rewrite Ec in E. cbn [mbind option_bind] in E.
  destruct (core_new _ _ _ _) as [c|] eqn:Ecore; [|done]. cbn [mbind option_bind] in E.
  assert (co_chain c = chain ∧ co_listener c = false) as [Ech El].
  { unfold core_new in Ecore. repeat (destruct (with_inspect_items _) as [?|]; [|done]). by injection Ecore as <-. }
  rewrite Ech in E. destruct (reads_contains_block (verification_edge params) (sc_storage chain) (proj1 Hu)) as (d & Ed & Hd).
  unfold wrapper_new in E. unfold mbind at 2, DM_bind in E. rewrite Ed in E. injection E as <-. cbn. split; [done|].
  split; [|by eapply unchanged_trans]. destruct Hu as (_ & _ & Ev). by rewrite Ev.
Qed.

Lemma connects_pending l cx : cx_pending (foldl (λ cx peer, context_connect peer cx) cx l) = cx_pending cx ++ (Connecting <$> l).
Proof. revert cx. induction l as [|a l IH]; intros cx; cbn; [by rewrite app_nil_r|]. rewrite IH. cbn. by rewrite <-app_assoc. Qed.

(** The parts around the node come up. *)
Definition surroundings_ok sr cfg (rpc : option RpcServer) : Prop :=
  (∃ file, sr_nodes sr = Ok file ∧ p2p_new (Some file) (p2p_config cfg) ≠ None) ∧ sr_resolver sr = true ∧ sr_bound sr = true ∧
  new_http (sr_http sr) (dc_rpc_config cfg) = Ok rpc.

Lemma start_ok sr cfg g rpc : genesis_block (dc_network cfg) = Some g → ib_hash g ≠ hash_default → usable_db g (dc_db cfg) →
  surroundings_ok sr cfg rpc →
  ∃ d : Z → Daemon, start sr cfg = (t ← network_target cfg; Some (Ok (d t))) ∧ ∀ t,
    (∀ accepted, node_ok W (ib_hash g) (dc_verification_params cfg) (node_store (dm_node (d t))) accepted (dm_node (d t))) ∧
    dm_rpc (d t) = rpc ∧ dm_target (d t) = t ∧ cx_pending (dm_context (d t)) = Connecting <$> sr_sampled sr ∧
    (enforce_full_verification (nd_verifier (dm_node (d t))) = true ↔ first_blocks g (dc_db cfg) (verification_edge (dc_verification_params cfg))) ∧
    ∀ h, has (node_store (dm_node (d t))) h ↔ first_blocks g (dc_db cfg) h.
Proof.
  intros Hg Hne Hdb ((file & Ef & Hp2p) & Er & Eb & Ehttp).
  destruct (init_db_usable _ g _ Hg Hne Hdb) as (s & hs & Ei & Ht & Hfirst).
  destruct (create_ok (MP:=MP) (MH:=MH) (C:=C) W s (ib_hash g) hs (dc_verification_params cfg) (λ _, True) Ht) as (n & En & Hn).
  destruct (created s (ib_hash g) hs _ n Ht En) as (El & Ee & Hsame).
  unfold start. rewrite Ei. cbn [fmap option_fmap option_map]. unfold mbind, PM_bind, pm_result, or_panic. cbv beta iota.
  rewrite En. cbn [fmap option_fmap option_map].
  destruct (p2p_new (Some file) (p2p_config cfg)) as [cx|] eqn:Ecx; [|done].
  destruct (p2p_start (sr_sampled sr) (sr_resolver sr) (sr_bound sr) (p2p_config cfg) cx) as [ran cx'] eqn:Ep.
  assert ((∃ seeds, ran = Ok seeds) ∧ cx_pending cx' = Connecting <$> sr_sampled sr) as [[seeds ->] Epend].
  { unfold p2p_start in Ep. rewrite Er, Eb in Ep. injection Ep as <- <-. split; [by eexists|]. unfold context_listen. cbn [cx_pending]. rewrite connects_pending.
    unfold p2p_new in Ecx. destruct (table_from_file _ _); [|done]. by injection Ecx as <-. }
  rewrite Ef. cbv beta iota. 
  destruct (dc_block_notify_command cfg) as [command|] eqn:Ecmd.
  - destruct (listener_installed _ _ _ _ n Hn El) as (n1 & E1 & Hn1 & Ev1 & _ & Est). rewrite E1. cbn [fmap option_fmap option_map snd]. rewrite Ecx, Ep. cbv beta iota.
    rewrite Ehttp. exists (λ t, mkDaemon n1 cx' (Some (notifier_new command)) rpc t). split; [by destruct (network_target cfg)|].
    intros t. cbn. split_and!; [intros accepted; by eapply node_ok_start|done..| |]; [by rewrite Ev1, Ee; apply Hfirst|].
    intros h. rewrite Est, (has_unchanged _ _ h Hsame). apply Hfirst.
  - cbv beta iota delta [mret PM_ret]. rewrite Ecx, Ep. cbv beta iota. rewrite Ehttp.
    exists (λ t, mkDaemon n cx' None rpc t). split; [by destruct (network_target cfg)|]. intros t. cbn.
    split_and!; [intros accepted; by eapply node_ok_start|done..| |]; [by rewrite Ee; apply Hfirst|].
    intros h. rewrite (has_unchanged _ _ h Hsame). apply Hfirst.
Qed.

(** C6: the start of the daemon.  On a database with a chain on another genesis
    block it ends with an error.  On an empty database, on one whose genesis
    block was stored when the daemon ended before it became the best block, or
    on one with a chain on the genesis block of the network, when the parts
    around it come up, the daemon has a node whose store is a tree on that genesis block with
    exactly the blocks of the database and the genesis block, the peers that
    were chosen are being dialled, and the target of the miners is the product
    of the configured numbers; a product that does not fit [u16] is a panic
    under overflow checks. *)
Theorem daemon_starts sr cfg g : genesis_block (dc_network cfg) = Some g → ib_hash g ≠ hash_default →
  (∀ root hs, tree_ok (dc_db cfg) root hs → root ≠ ib_hash g →
    start sr cfg = (Some (Err "Trying to open database with incompatible genesis block"%string) : PM Daemon)) ∧
  (usable_db g (dc_db cfg) → ∀ rpc, surroundings_ok sr cfg rpc →
    match network_target cfg with
    | Some t => ∃ (d : Daemon) hs, start sr cfg = Some (Ok d) ∧ tree_ok (node_store (dm_node d)) (ib_hash g) hs ∧
        (∀ h, has (node_store (dm_node d)) h ↔ first_blocks g (dc_db cfg) h) ∧ dm_rpc d = rpc ∧ dm_target d = t ∧
        cx_pending (dm_context d) = Connecting <$> sr_sampled sr
    | None => start sr cfg = (None : PM Daemon)
    end).
Proof.
  intros Hg Hne. split.
  - intros root hs Ht Hr. destruct (init_db_known _ g _ root hs Hg Ht) as (s' & E & _). rewrite decide_False in E by done.
    unfold start. by rewrite E.
  - intros Hdb rpc Hsr. destruct (start_ok sr cfg g rpc Hg Hne Hdb Hsr) as (d & E & Hd). destruct (network_target cfg) as [t|]; [|done].
    destruct (Hd t) as (Hn & H1 & H2 & H3 & _ & H4). destruct (no_tree _ _ _ _ _ _ (Hn (λ _, True))) as [hs Ht]. exists (d t), hs. by split_and!.
Qed.

(** *** Runs *)

(** A turn of the miner needs room as a block of a peer does, and a block it
    makes has a header of the consistent ones. *)
Definition daemon_event_ok (nw : Network) (fuel : nat) (e : DaemonEvent (C:=C)) n : Prop :=
  match e with
  | DNode e => node_event_ok W fuel e n
  | DMine lucky r_bytes pk => room 0 n ∧ ∀ blktpl s, node_block_template nw (node_clock get_time n) n = Some blktpl →
      try_solve_one_shot lucky r_bytes blktpl pk 0 = Some (Some s) → known_header W (ib_header (solved_block blktpl pk s))
  end.

(** The verification thread panics over its block, or the template of the miner
    has no bits because the work required of the next block overflows. *)
Definition daemon_panics (nw : Network) (e : DaemonEvent (C:=C)) n : Prop :=
  match e with
  | DNode e => e = NVerify ∧ node_panics nw get_time n
  | DMine _ _ _ =>
      let best := bc_best_block (node_store n) in
      work_overflows nw (db_header_provider (node_store n)) (bb_hash best) (bb_number best + 1)
  end.

Definition daemon_admissible (nw : Network) (fuel : nat) (es : list (DaemonEvent (C:=C))) n : Prop :=
  all_allowed (daemon_step precise_time_s get_time nw fuel) (daemon_event_ok nw fuel) es n.

Lemma mining_ok nw root params first accepted lucky r_bytes pk n : node_ok W root params first accepted n →
  daemon_event_ok nw 0 (DMine lucky r_bytes pk) n →
  does (mining_round precise_time_s get_time nw lucky r_bytes pk) n (λ _, node_ok W root params first accepted) ∨
  mining_round precise_time_s get_time nw lucky r_bytes pk n = None ∧ daemon_panics nw (DMine lucky r_bytes pk) n.
Proof.
  intros Hn (Hroom & Hk). unfold does, mining_round. fold (node_clock get_time n).
  destruct (node_block_template nw (node_clock get_time n) n) as [tpl|] eqn:Et; cbn [mbind option_bind].
  2:{ right. split; [done|]. destruct (no_tree _ _ _ _ _ _ Hn) as [hs Ht]. destruct (no_core _ _ _ _ _ _ Hn) as [g Hi].
    destruct (room_ghost _ _ _ _ Hroom Hi) as [Hsz _]. pose proof (chain_length_ghost W root n g hs Hi Ht) as Ehs.
    eapply create_new_block_panics; [exact Ht|unfold g_size in Hsz; rewrite Ehs in Hsz; lia|exact Et]. }
  left. assert (∃ solution, try_solve_one_shot lucky r_bytes tpl pk 0 = Some solution) as [solution Es].
  { unfold try_solve_one_shot. cbn zeta. destruct (_ <? _); [by eexists|]. destruct lucky; [|by eexists].
    destruct (prove_total (miner_h_g tpl pk) (residue r_bytes) (wrap 32 (0 + MOCK_STEP))) as [proof ->]. by eexists. }
  rewrite Es. cbn [mbind option_bind].
  set (n1 := mkLocalNode (add_reading (nd_core n)) (nd_server n) (nd_work n) (nd_verifier n) (nd_counter n)).
  assert (node_ok W root params first accepted n1) as Hn1.
  { destruct Hn as [[g Hi] Ht Hv Hf Hw Htasks Hp Hc Hs Hpar Hcfg Hstop]. split; cbn; try done. by exists g. }
  destruct solution as [s|]; [|by exists tt, n1].
  apply (block_step precise_time_s W root params first accepted 0 (solved_block tpl pk s) n1); [done|done| |by apply (Hk tpl)].
  apply (no_counter _ _ _ _ _ _ Hn).
Qed.

Lemma daemon_run_all nw fuel es : daemon_run (T:=T) (MP:=MP) (MH:=MH) (C:=C) precise_time_s get_time nw fuel es =
  run_all (T:=T) (MP:=MP) (MH:=MH) (C:=C) (daemon_step precise_time_s get_time nw fuel) es.
Proof. induction es as [|e es IH]; [done|]. cbn [daemon_run run_all]. by rewrite IH. Qed.

Lemma daemon_steps nw fuel root params first : clock_ok get_time → verification_level params ≠ NoVerification → ∀ accepted e n,
  node_ok W root params first accepted n → daemon_event_ok nw fuel e n → (e = DNode NVerify → round_accepts nw get_time accepted n) →
  does (daemon_step precise_time_s get_time nw fuel e) n (λ _, node_ok W root params first accepted) ∨
  daemon_step precise_time_s get_time nw fuel e n = None ∧ daemon_panics nw e n.
Proof.
  intros Hclock Hlevel accepted [e|lucky r_bytes pk] n Hn He Hacc; cbn [daemon_step]; [|by apply mining_ok].
  destruct (node_step_ok nw precise_time_s get_time W root params first accepted Hlevel fuel e n Hclock Hn He) as [?|(-> & E & Hp)];
    [intros ->; by apply Hacc|by left|right]. by split.
Qed.

(** C5: the daemon runs.  Started on a fresh database or on one with a chain on
    the genesis block of its network, with verification not turned off, the
    daemon goes through every admissible sequence of events, messages of peers
    and turns of its own miners alike, to its end, or up to a panic that is one
    of these: the verification thread panics over the block at the head of its
    channel for a reason of [verification_panics], or a miner asks for a template
    when the work required of the next block overflows.  (Admissible: the sizes
    fit, and the headers of blocks and headers, also of the miner's own blocks,
    do not collide, none to verify with a zero hash.)  As far as it goes, its
    store stays a tree on the genesis block whose chain is a longest branch and
    keeps what it had, and every other block of it was the head of the channel in
    a round of the verification thread and met the rules of consensus on the
    node's own store, at its clock, there and then: what the mocking miner makes is
    judged like a block of a peer. *)
Theorem daemon_run_safe sr cfg g rpc target : clock_ok get_time → genesis_block (dc_network cfg) = Some g → ib_hash g ≠ hash_default →
  usable_db g (dc_db cfg) → surroundings_ok sr cfg rpc → network_target cfg = Some target →
  verification_level (dc_verification_params cfg) ≠ NoVerification →
  ∃ d : Daemon, start sr cfg = Some (Ok d) ∧ (∀ h, has (node_store (dm_node d)) h ↔ first_blocks g (dc_db cfg) h) ∧
    ∀ fuel es, daemon_admissible (dc_network cfg) fuel es (dm_node d) →
    ∃ done rest n hs, es = done ++ rest ∧ daemon_run precise_time_s get_time (dc_network cfg) fuel done (dm_node d) = Some (tt, n) ∧
      (rest = [] ∨ ∃ e rest', rest = e :: rest' ∧ daemon_step precise_time_s get_time (dc_network cfg) fuel e n = None ∧
         daemon_panics (dc_network cfg) e n) ∧
      tree_ok (node_store n) (ib_hash g) hs ∧
      (∀ h blk, v_block (db_view (node_store (dm_node d))) h = Some blk → v_block (db_view (node_store n)) h = Some blk) ∧
      ∀ h blk, v_block (db_view (node_store n)) h = Some blk → v_block (db_view (node_store (dm_node d))) h = Some blk ∨
        ∃ es1 es2 n1 b work, done = es1 ++ DNode NVerify :: es2 ∧
          daemon_run precise_time_s get_time (dc_network cfg) fuel es1 (dm_node d) = Some (tt, n1) ∧
          nd_work n1 = VerifyBlock b :: work ∧ ib_hash b = h ∧ block_of b = blk ∧
          valid_alone (dc_network cfg) (wrap 32 (node_clock get_time n1)) b ∧
          ∃ origin headers height, cs_block_origin (store_of (node_store n1)) (ib_header b) = Ok origin ∧
            judged_in (store_of (node_store n1)) origin = Some (headers, height) ∧ valid_child (dc_network cfg) headers height b.
Proof.
  intros Hclock Hg Hne Hdb Hsr Et Hlevel. destruct (start_ok sr cfg g rpc Hg Hne Hdb Hsr) as (d & E & Hd). rewrite Et in E.
  destruct (Hd target) as (Hn0 & _ & _ & _ & _ & Hhas). exists (d target). split; [exact E|]. split; [exact Hhas|]. intros fuel es Had.
  destruct (run_from (dc_network cfg) get_time W (daemon_step precise_time_s get_time (dc_network cfg) fuel) (daemon_event_ok (dc_network cfg) fuel)
    (λ e, e = DNode NVerify) (daemon_panics (dc_network cfg)) _ _ _ (daemon_steps (dc_network cfg) fuel _ _ _ Hclock Hlevel) (dm_node (d target)) es Hn0 Had)
    as (dn & rest & n & -> & Er & Hend & Hn).
  destruct (no_tree _ _ _ _ _ _ Hn) as [hs Ht]. exists dn, rest, n, hs. rewrite daemon_run_all.
  split_and!; [done|exact Er|exact Hend|exact Ht|apply Hn|].
  intros h blk [?|(b & (es1 & e & es2 & n1 & work & -> & -> & Er1 & Ework & Hj) & Eh & Eb)]%(no_valid _ _ _ _ _ _ Hn); [by left|right].
  exists es1, es2, n1, b, work. rewrite daemon_run_all. split_and!; try done; apply Hj.
Qed.

(** *** Verification on the regression test network *)

(** A verifier past its edge stays past it and checks everything. *)
Lemma full_stays nw (s : BlockChainDatabase T) now b w : enforce_full_verification w = true →
  wrapper_verify_block nw s now b w = (r ← verify_block (store_of s) nw now Full b; Some (r, w)).
Proof.
  intros Hw. unfold wrapper_verify_block. rewrite Hw, orb_true_r. cbv iota zeta. destruct (verify_block _ _ _ _ _); [|done].
  cbn. by destruct w as [? ?]; cbn in *; subst.
Qed.

(** On the regression test network, whose verification edge is its genesis
    block unless another is given, the daemon verifies every block fully from
    the start: the level that was chosen is not looked at. *)
Theorem regtest_verifies_fully sr cfg g rpc target : dc_network cfg = Regtest →
  default_verification_edge Regtest = Some (verification_edge (dc_verification_params cfg)) →
  genesis_block Regtest = Some g → ib_hash g ≠ hash_default → usable_db g (dc_db cfg) → surroundings_ok sr cfg rpc →
  network_target cfg = Some target →
  ∃ d : Daemon, start sr cfg = Some (Ok d) ∧ ∀ (s : BlockChainDatabase T) now b,
    wrapper_verify_block Regtest s now b (nd_verifier (dm_node d)) =
      (r ← verify_block (store_of s) Regtest now Full b; Some (r, nd_verifier (dm_node d))).
Proof.
  intros Hnw Hedge Hg Hne Hdb Hsr Et. rewrite <-Hnw in Hg. destruct (start_ok sr cfg g rpc Hg Hne Hdb Hsr) as (d & E & Hd). rewrite Et in E.
  exists (d target). split; [exact E|]. intros s now b. apply full_stays. destruct (Hd target) as (_ & _ & _ & _ & He & _). apply He. right.
  cbn in Hedge. rewrite Hnw in Hg. cbn in Hg. rewrite Hg in Hedge. cbn in Hedge. by injection Hedge as ->.
Qed.
End started.

(** ** The target of the miners *)

Section target.
Context {P : Profile} {D : Type}.

Lemma u16_mul_wrap a b : 0 ≤ a → 0 ≤ b → u16_mul a b =
  if 2 ^ 16 <=? a * b then if overflow_checks then None else Some (wrap 16 (a * b)) else Some (a * b).
Proof.
  intros Ha Hb. unfold u16_mul. destruct (Z.leb_spec (2 ^ 16) (a * b)); [by destruct overflow_checks|].
  cbn [andb]. by rewrite wrap_small by (unfold fits; nia).
Qed.
End target.

(** The draw of the mocking miner: [r <= 1f32 / network_target as f32]. *)
Abbreviation f32 := spec_float.

(** src: miner/src/mock.rs 64-64 r *)
Definition lucky_draw (r : f32) (network_target : Z) : bool :=
  SFleb r (SFdiv 24 128 (binary_normalize 24 128 1 0 false) (binary_normalize 24 128 network_target 0 false)).

(** A number of [0, 1) is at most the infinity that a target of zero gives. *)
Lemma zero_target_lucky r : match r with S754_nan | S754_infinity _ => False | _ => True end → lucky_draw r 0 = true.
Proof. by destruct r. Qed.

Section targets.
Context {P : Profile} {T : Type}.
Implicit Types (cfg : DaemonConfig (BlockChainDatabase T)).

(** The target of the miners.  The three numbers are multiplied in 16 bits,
    whatever the target is used for: when their product, or that of the first
    two, does not fit, the daemon panics under overflow checks and else goes on with the
    remainder.  With a remainder of zero every draw of every miner is lucky. *)
Theorem network_target_wraps cfg : u16 (dc_num_miners cfg) → u16 (dc_num_nodes cfg) → u16 (dc_blocktime cfg) →
  let pair := dc_num_miners cfg * dc_num_nodes cfg in
  let product := pair * dc_blocktime cfg in
  network_target cfg = (if (2 ^ 16 <=? pair) || (2 ^ 16 <=? product) then if overflow_checks then None else Some (product mod 2 ^ 16)
    else Some product) ∧
  ∀ r, match r with S754_nan | S754_infinity _ => False | _ => True end → lucky_draw r 0 = true.
Proof.
  intros Hm Hn Hb pair product. unfold fits in Hm, Hn, Hb. split; [|apply zero_target_lucky].
  unfold network_target. rewrite u16_mul_wrap by lia. fold pair. assert (0 ≤ pair) by (unfold pair; nia).
  destruct (Z.leb_spec (2 ^ 16) pair) as [Hp|Hp]; cbn [orb].
  - destruct overflow_checks eqn:Eo; [done|]. cbn [mbind option_bind]. unfold u16_mul. rewrite Eo, andb_false_r. f_equal.
    unfold wrap, product. by rewrite Z.mul_mod_idemp_l.
  - cbn [mbind option_bind]. rewrite u16_mul_wrap by lia. fold product. by destruct (Z.leb_spec (2 ^ 16) product).
Qed.
End targets.

(** ** Notifications *)

Section notifications.
Context {V : VrfOps} {X : HexOps} {C F : Type}.
Implicit Types (es : list (ClientEffect (C:=C) (F:=F))) (b : BlockNotifier).

(** Whether the last switch was to synchronization. *)
Fixpoint last_switch (at_first : bool) es : bool :=
  match es with
  | [] => at_first
  | StateSwitched synchronizing :: es => last_switch synchronizing es
  | _ :: es => last_switch at_first es
  end.

(** The blocks that became best while the node was not synchronizing. *)
Definition announced es : list H256 :=
  i ← seq 0 (length es);
  match es !! i with
  | Some (BestBlockInserted hash) => if last_switch false (take i es) then [] else [hash]
  | _ => []
  end.

Lemma last_switch_app at_first es es' : last_switch at_first (es ++ es') = last_switch (last_switch at_first es) es'.
Proof. revert at_first. induction es as [|e es IH]; intros at_first; [done|]. destruct e; cbn; apply IH. Qed.

Lemma bind_same {A B} (f g : A → list B) l : (∀ x, x ∈ l → f x = g x) → l ≫= f = l ≫= g.
Proof.
  induction l as [|x l IH]; intros E; [done|]. cbn. rewrite E by left. f_equal. apply IH. intros y Hy. apply E. by right.
Qed.

Lemma announced_snoc es e : announced (es ++ [e]) = announced es ++
  match e with BestBlockInserted hash => if last_switch false es then [] else [hash] | _ => [] end.
Proof.
  unfold announced. rewrite length_app, Nat.add_1_r, seq_S, bind_app. cbn [mbind list_bind]. rewrite app_nil_r, Nat.add_0_l.
  rewrite list.lookup_app_r, Nat.sub_diag, take_app_length by done. f_equal.
  apply bind_same. intros i [_ Hi]%elem_of_seq. rewrite lookup_app_l, take_app_le by lia. done.
Qed.

Lemma notifier_channel es command : let b := foldl notifier_hears (notifier_new command) es in
  bn_channel b = NewBlock <$> announced es ∧ bn_is_synchronizing b = last_switch false es ∧ bn_command b = command.
Proof.
  induction es as [|e es (E1 & E2 & E3)] using rev_ind; [done|]. cbv zeta. rewrite foldl_snoc, announced_snoc, last_switch_app.
  set (b := foldl notifier_hears (notifier_new command) es) in *.
  destruct e; cbn [notifier_hears last_switch]; rewrite ?app_nil_r; try done.
  unfold notifier_inserted. rewrite E2, E1, E3. destruct (last_switch false es); cbn; rewrite ?app_nil_r, ?fmap_app; done.
Qed.

Definition printable (s : string) : Prop := existsb (Ascii.eqb (ascii_of_nat 0)) (String.list_ascii_of_string s) = false.

Lemma worker_runs_all command hashes : (∀ h, h ∈ hashes → printable (replace_hash (to_reversed_str h) command)) →
  notifier_worker command ((NewBlock <$> hashes) ++ [StopNotifier]) = ((λ h, replace_hash (to_reversed_str h) command) <$> hashes, true).
Proof.
  induction hashes as [|h hashes IH]; intros Hp; [done|]. cbn [fmap list_fmap app notifier_worker].
  rewrite (Hp h) by left. rewrite IH by (intros h' Hh'; apply Hp; by right). done.
Qed.

(** Block notifications.  Of everything the node tells its listener, the
    command is run once for each block that became the best one while the node was not
    synchronizing, with the hash in place of [%s], in the order of the blocks,
    and after that the thread ends: when the notifier is dropped nothing that was
    announced is left out. *)
Theorem notifications_exact es command :
  (∀ h, h ∈ announced es → printable (replace_hash (to_reversed_str h) command)) →
  notifier_worker command (bn_channel (notifier_drop (foldl notifier_hears (notifier_new command) es))) =
    ((λ h, replace_hash (to_reversed_str h) command) <$> announced es, true).
Proof.
  intros Hp. unfold notifier_drop. cbn [bn_channel]. destruct (notifier_channel es command) as [-> _]. by apply worker_runs_all.
Qed.
End notifications.

(** ** Examples *)

Section daemon_example.
Import Reference HexReference.
#[local] Existing Instance flat_sha_ops | 0.
#[local] Existing Instances checked_node node_order_peers node_order_hashes.

(** Two addresses and their texts. *)
#[local] Instance ex_address_text : AddressText := {|
  parse_socket_addr s := if decide (s = "127.0.0.1:8332"%string) then Some (addr4 127 0 0 1 8332) else None;
  parse_ip_addr s := None;
  fmt_socket_addr a := "an address"%string;
|}.

(** An empty file is an empty table. *)
#[local] Existing Instance example_csv.

Definition ex_empty : BlockChainDatabase MemoryDatabase := mkBlockChainDatabase best_block_default memory_default.

Definition ex_daemon_config (nw : Network) (edge : H256) (nodes : Z) : DaemonConfig (BlockChainDatabase MemoryDatabase) :=
  mkDaemonConfig nw 1 8333 [addr4 10 0 0 2 8333] (sa_ip (addr4 0 0 0 0 0)) [] false 125 8 4 512 None USER_AGENT AnyProtocol
    (http_with_port 8332) (Some "notify %s"%string) (mkVerificationParameters Full edge) ex_empty nodes 1 10.

Definition ex_surroundings : Surroundings := mkSurroundings (Ok []) [addr4 10 0 0 2 8333] true true (λ _, HttpStarted).

Definition ex_genesis : IndexedBlock := match genesis_block Mainnet with Some g => g | None => ex_received end.

Lemma ex_genesis_block nw : genesis_block nw = Some ex_genesis.
Proof. rewrite (genesis_block_same nw Mainnet). unfold ex_genesis.
  assert (match genesis_block Mainnet with Some _ => true | None => false end = true) as E by (vm_compute; reflexivity).
  by destruct (genesis_block Mainnet).
Qed.

Lemma ex_genesis_nonzero : ib_hash ex_genesis ≠ hash_default.
Proof. intros E. apply (f_equal hash_bytes) in E. vm_compute in E. discriminate E. Qed.

Lemma ex_usable : usable_db ex_genesis ex_empty.
Proof.
  left. split; [|by intros h b]. split; [exact I|]. apply empty_chain. intros k. by destruct k.
Qed.

Lemma ex_surroundings_ok nw edge nodes : surroundings_ok ex_surroundings (ex_daemon_config nw edge nodes) (Some (addr4 127 0 0 1 8332, api_set_default)).
Proof.
  split.
  { exists []. split; [done|]. assert (match csv_read [] with Some _ => true | None => false end = true) as E by (vm_compute; reflexivity).
    unfold p2p_new, table_from_file, load. cbn [mbind option_bind]. by destruct (csv_read []). }
  split; [done|]. split; [done|]. vm_compute. reflexivity.
Qed.

Abbreviation ExDaemon := (Daemon (T:=MemoryDatabase) (MP:=AssocMap PeerIndex) (MH:=AssocMap H256) (C:=unit)).

Abbreviation ExNode := (LocalNode (T:=MemoryDatabase) (MP:=AssocMap PeerIndex) (MH:=AssocMap H256) (C:=unit)).

Lemma daemon_starts_witness : ∃ (d : ExDaemon) hs, start ex_surroundings (ex_daemon_config Mainnet hash_default 4) = Some (Ok d) ∧
  tree_ok (node_store (dm_node d)) (ib_hash ex_genesis) hs ∧ has (node_store (dm_node d)) (ib_hash ex_genesis) ∧ dm_target d = 40.
Proof.
  destruct (daemon_starts (MP:=AssocMap PeerIndex) (MH:=AssocMap H256) (C:=unit) ex_node_universe ex_surroundings (ex_daemon_config Mainnet hash_default 4) ex_genesis
    (ex_genesis_block Mainnet) ex_genesis_nonzero) as [_ Hok].
  specialize (Hok ex_usable _ (ex_surroundings_ok Mainnet hash_default 4)). change (network_target _) with (Some 40) in Hok.
  destruct Hok as (d & hs & E & Ht & Hh & _ & Etarget & _). exists d, hs. split; [exact E|]. split; [exact Ht|].
  split; [apply Hh; right; reflexivity|exact Etarget].
Defined.

(** A turn of a lucky miner, a session, and work of the threads. *)
Definition ex_daemon_events : list (DaemonEvent (C:=unit)) :=
  [DMine true [] example_key; DNode (NSession 0 tt ex_version); DNode NVerify; DNode NServe; DNode NManage].

(** The template the miner gets on the genesis block of the test network, and the
    block it makes of it. *)
Definition ex_template : BlockTemplate := mkBlockTemplate BLOCK_VERSION (ib_hash ex_genesis) 4000 (mkCompact 0x207fffff) 1.

Definition ex_mined : IndexedBlock :=
  match try_solve_one_shot true [] ex_template example_key 0 with Some (Some s) => solved_block ex_template example_key s | _ => ex_genesis end.

Lemma ex_mined_new : ib_parent ex_mined ≠ ib_hash ex_mined.
Proof. intros E. apply (f_equal hash_bytes) in E. vm_compute in E. discriminate E. Qed.

Definition ex_mined_universe : Universe := single_universe ex_mined ex_mined_new.

Lemma ex_mined_is s : try_solve_one_shot true [] ex_template example_key 0 = Some (Some s) → solved_block ex_template example_key s = ex_mined.
Proof. intros E. unfold ex_mined. rewrite E. reflexivity. Qed.

Definition is_template (t : BlockTemplate) : bool :=
  (bt_version t =? BLOCK_VERSION) && bool_decide (bt_previous_header_hash t = ib_hash ex_genesis) && (bt_time t =? 4000) &&
  bool_decide (bt_bits t = mkCompact 0x207fffff) && (bt_height t =? 1).

Lemma is_template_eq t : is_template t = true → t = ex_template.
Proof.
  unfold is_template. intros [[[[E1 E2]%andb_prop E3]%andb_prop E4]%andb_prop E5]%andb_prop.
  apply Z.eqb_eq in E1, E3, E5. apply bool_decide_eq_true in E2, E4. destruct t; cbn in *. subst. reflexivity.
Qed.

Definition ex_daemon_check (e : DaemonEvent (C:=unit)) (n : ExNode) : bool :=
  match e with
  | DNode (NBlock _ _) => false
  | DNode e => ex_check 10 e n
  | DMine lucky r_bytes pk =>
      (Z.of_nat (client_size (nd_core n)) <? 10000) && (Z.of_nat (size (pt_all (co_peers_tasks (nd_core n)))) <? 1000) &&
      match node_block_template Testnet 4000 n with Some t => is_template t | None => true end
  end.

Fixpoint ex_daemon_checks (es : list (DaemonEvent (C:=unit))) (n : ExNode) : bool :=
  match es with
  | [] => true
  | e :: es => ex_daemon_check e n &&
      match daemon_step ex_time ex_clock_4000 Testnet 10 e n with Some (_, n) => ex_daemon_checks es n | None => true end
  end.

Definition mines_example (e : DaemonEvent (C:=unit)) : Prop :=
  match e with DNode _ => True | DMine lucky r_bytes pk => lucky = true ∧ r_bytes = [] ∧ pk = example_key end.

Lemma ex_daemon_check_ok e n : ex_daemon_check e n = true → mines_example e → daemon_event_ok ex_clock_4000 ex_mined_universe Testnet 10 e n.
Proof.
  destruct e as [e|lucky r_bytes pk]; cbn [ex_daemon_check daemon_event_ok mines_example].
  - intros He _. apply ex_check_ok; [by destruct e|]. by intros peer block ->.
  - intros [[Hs Hp]%andb_prop He]%andb_prop (-> & -> & ->). apply Z.ltb_lt in Hs, Hp. split; [split; [lia|unfold few_peers; lia]|].
    intros t s Et Es. change (node_clock ex_clock_4000 n) with 4000 in Et. rewrite Et in He. apply is_template_eq in He. subst t.
    rewrite (ex_mined_is s Es). apply known_single.
Qed.

Lemma ex_daemon_checks_ok es n : ex_daemon_checks es n = true → Forall mines_example es →
  daemon_admissible ex_time ex_clock_4000 ex_mined_universe Testnet 10 es n.
Proof.
  intros Hc Hx. revert n Hc. induction Hx as [|e es He Hes IH]; intros n Hc; [done|]. cbn [ex_daemon_checks] in Hc.
  apply andb_prop in Hc as [Hc Hrest]. split; [by apply ex_daemon_check_ok|]. intros n' E. rewrite E in Hrest. by apply IH.
Qed.

Definition ex_daemon : PM ExDaemon := start ex_surroundings (ex_daemon_config Testnet hash_default 4).

Lemma ex_daemon_admissible d : ex_daemon = Some (Ok d) →
  daemon_admissible ex_time ex_clock_4000 ex_mined_universe Testnet 10 ex_daemon_events (dm_node d).
Proof.
  intros E. apply ex_daemon_checks_ok; [|by repeat constructor].
  assert (match ex_daemon with Some (Ok d) => ex_daemon_checks ex_daemon_events (dm_node d) | _ => false end = true) as Ec by (vm_compute; reflexivity).
  rewrite E in Ec. exact Ec.
Qed.

(** The run comes to its end, and the mined block is stored. *)
Lemma ex_daemon_runs d : ex_daemon = Some (Ok d) → ∃ n, daemon_run ex_time ex_clock_4000 Testnet 10 ex_daemon_events (dm_node d) = Some (tt, n) ∧
  v_contains (db_view (node_store n)) (ib_hash ex_mined) = true ∧ v_contains (db_view (node_store (dm_node d))) (ib_hash ex_mined) = false.
Proof.
  intros E. assert (match ex_daemon with
    | Some (Ok d) =>
        match daemon_run ex_time ex_clock_4000 Testnet 10 ex_daemon_events (dm_node d) with
        | Some (_, n) => v_contains (db_view (node_store n)) (ib_hash ex_mined) && negb (v_contains (db_view (node_store (dm_node d))) (ib_hash ex_mined))
        | None => false
        end
    | _ => false
    end = true) as Ec by (vm_compute; reflexivity).
  rewrite E in Ec. destruct (daemon_run _ _ _ _ _ _) as [[[] n]|]; [|discriminate Ec]. exists n. apply andb_prop in Ec as [E1 E2].
  split; [reflexivity|]. split; [exact E1|]. by apply negb_true_iff.
Qed.

(** The mined block was judged in the round of the run. *)
Lemma daemon_run_safe_witness : ∃ (d : ExDaemon) n hs, ex_daemon = Some (Ok d) ∧
  daemon_run ex_time ex_clock_4000 Testnet 10 ex_daemon_events (dm_node d) = Some (tt, n) ∧ tree_ok (node_store n) (ib_hash ex_genesis) hs ∧
  ∃ blk es1 es2 n1 b work, v_block (db_view (node_store n)) (ib_hash ex_mined) = Some blk ∧ ex_daemon_events = es1 ++ DNode NVerify :: es2 ∧
    daemon_run ex_time ex_clock_4000 Testnet 10 es1 (dm_node d) = Some (tt, n1) ∧ nd_work n1 = VerifyBlock b :: work ∧
    ib_hash b = ib_hash ex_mined ∧ valid_alone Testnet (wrap 32 (node_clock ex_clock_4000 n1)) b.
Proof.
  destruct (daemon_run_safe (MP:=AssocMap PeerIndex) (MH:=AssocMap H256) (C:=unit) ex_time ex_clock_4000 ex_mined_universe ex_surroundings
    (ex_daemon_config Testnet hash_default 4) ex_genesis (Some (addr4 127 0 0 1 8332, api_set_default)) 40) as (d & E & _ & Hrun);
    [exact ex_node_clock|exact (ex_genesis_block Testnet)|exact ex_genesis_nonzero|exact ex_usable|apply ex_surroundings_ok|reflexivity|discriminate|].
  destruct (ex_daemon_runs d E) as (n' & E' & Hin & Hout).
  destruct (Hrun 10%nat ex_daemon_events (ex_daemon_admissible d E)) as (dn & rest & n & hs & Ees & Er & Hend & Ht & _ & Hvalid).
  assert (rest = []) as Erest.
  { pose proof E' as E''. rewrite Ees, daemon_run_all in E''. rewrite daemon_run_all in Er. eapply ended_whole; [exact E''|exact Er|exact Hend]. }
  rewrite Erest, app_nil_r in Ees. rewrite <-Ees in *. clear dn rest Hend Ees Erest. change (dc_network (ex_daemon_config Testnet hash_default 4)) with Testnet in *.
  rewrite Er in E'. injection E' as <-. exists d, n, hs. split; [exact E|]. split; [exact Er|]. split; [exact Ht|].
  destruct (proj1 (v_contains_block _ _ _ (tk_inv _ _ _ Ht)) Hin) as [blk Hblk].
  destruct (Hvalid _ _ Hblk) as [Hold|(es1 & es2 & n1 & b & work & Hes & E1 & Ew & Eh & _ & Ha & _)].
  - exfalso. unfold v_block in Hold. unfold v_contains in Hout. apply bool_decide_eq_false in Hout. apply Hout.
    destruct (db_view (node_store (dm_node d)) (KeyBlock (ib_hash ex_mined))); [by eexists|discriminate Hold].
  - exists blk, es1, es2, n1, b, work. split; [exact Hblk|]. split; [exact Hes|]. split; [exact E1|]. split; [exact Ew|]. split; [exact Eh|exact Ha].
Defined.

Lemma regtest_verifies_fully_witness : ∃ d : ExDaemon, start ex_surroundings (ex_daemon_config Regtest (ib_hash ex_genesis) 4) = Some (Ok d) ∧
  wrapper_verify_block Regtest ex_store 0 ex_new (nd_verifier (dm_node d)) =
    (r ← verify_block (store_of ex_store) Regtest 0 Full ex_new; Some (r, nd_verifier (dm_node d))).
Proof.
  destruct (regtest_verifies_fully (MP:=AssocMap PeerIndex) (MH:=AssocMap H256) (C:=unit) ex_node_universe ex_surroundings
    (ex_daemon_config Regtest (ib_hash ex_genesis) 4) ex_genesis (Some (addr4 127 0 0 1 8332, api_set_default)) 40) as (d & E & Hfull);
    [reflexivity| |exact (ex_genesis_block Regtest)|exact ex_genesis_nonzero|exact ex_usable|apply ex_surroundings_ok|reflexivity|].
  - unfold default_verification_edge. rewrite (ex_genesis_block Regtest). reflexivity.
  - exists d. split; [exact E|apply Hfull].
Defined.

(** 8192 nodes and ten seconds: the daemon panics, or goes on with a target of
    16384. *)
Lemma network_target_wraps_witness :
  network_target (P:=true) (ex_daemon_config Mainnet hash_default 8192) = None ∧
  network_target (P:=false) (ex_daemon_config Mainnet hash_default 8192) = Some 16384.
Proof.
  split.
  - apply (network_target_wraps (P:=true) (ex_daemon_config Mainnet hash_default 8192)); split; vm_compute; congruence.
  - apply (network_target_wraps (P:=false) (ex_daemon_config Mainnet hash_default 8192)); split; vm_compute; congruence.
Defined.

Lemma notifications_exact_witness :
  let es : list (ClientEffect (C:=unit) (F:=unit)) :=
    [BestBlockInserted ex_h0; StateSwitched true; BestBlockInserted ex_h1; StateSwitched false; BestBlockInserted ex_h2] in
  notifier_worker "n %s" (bn_channel (notifier_drop (foldl notifier_hears (notifier_new "n %s") es))) =
    ((λ h, replace_hash (to_reversed_str h) "n %s") <$> [ex_h0; ex_h2], true).
Proof.
  intros es. apply (notifications_exact es "n %s").
  intros h Hh. change (announced es) with [ex_h0; ex_h2] in Hh. rewrite !elem_of_cons in Hh.
  destruct Hh as [->|[->|[]%not_elem_of_nil]]; vm_compute; reflexivity.
Defined.
End daemon_example.
